(* ===== verification/_CoqProject ===== *)
-Q . S2P
Prelude.v
Codec.v
Frame.v
FrameLaws.v
Lzo.v
Handshake.v
Sorting.v
GoStrings.v
Strconv.v
Float64.v
FloatText.v
Session.v
QuoteID.v
Registry.v
RegistryLaws.v
Async.v
Dates.v
GoTime.v
Pricing.v
PricingLaws.v
SwapLaws.v
Cross.v
Masters.v
PricingDoc.v
Ring.v
Bars.v
BarLaws.v
Feed.v
Best.v
BestLaws.v
CrossConsumer.v
SwapStore.v
Algo.v
AlgoLaws.v
Idempotency.v
HashRing.v
Policy.v
Routing.v
RoutingLaws.v
RoutingSync.v
RateLimit.v
SvcIO.v
SvcIOLaws.v
Auth.v
AuthLaws.v
QuoteValidation.v
QuoteValidationLaws.v
QuoteEndpoints.v
QuoteEndpointsLaws.v
Fanout.v
FanoutLaws.v
Hub.v
HubLaws.v
Ingest.v
IngestLaws.v
EdgeCustomers.v
EdgePrice.v
EdgePriceLaws.v
Client.v
ClientLaws.v
Push.v
PushLaws.v
Fix.v
TxAudit.v
Tx.v
TxLaws.v
Krx.v
KrxShm.v
KrxShmLaws.v
KrxServer.v
Redis.v
RedisRegistry.v
RedisIdempotency.v
FixMd.v
Forwarder.v
ForwarderLaws.v
FxSync.v
Login.v
Mdsshim.v
AuthRedis.v
