(* ===== verification/Prelude.v ===== *)
(** * Winway Trading Gateway (WTG): verification library

    WTG is a foreign-exchange trading gateway written in Go. Market data comes in from
    liquidity providers and an exchange (src/cmd/quote-forwarder, src/internal/krx) over a
    message broker (src/pkg/mymq) or gRPC; the price service (src/internal/price) merges
    the feeds into one best quote per symbol and into bars, derives cross rates, adds
    margins, time windows and swap points (src/pkg/pricing), gives every customer quote an
    identifier that can be consumed once (src/pkg/quoteid) and streams the result to edges
    (src/internal/edge) and robots. Orders go from web and FIX clients through
    authentication, duplicate suppression, operational policy, routing and fixed-width
    layouts (src/internal/api, src/pkg/auth, idempotency, policy, routing, svcio) to the
    engines behind the broker, and notifications come back through the push service
    (src/internal/push). This library translates those parts to executable definitions
    and proves what makes them correct.

    ** Files and the code they model

    A file X.v holds definitions, XLaws.v their theorems; where there is no XLaws.v the
    theorems follow the definitions in the same file.

    Foundations:
    - Prelude.v (this file): outcomes of Go calls ([res]: value, error, panic), machine
      integers, bytes and buffers, tactics and hint databases.
    - Sorting.v, GoStrings.v, Strconv.v, GoTime.v, Float64.v, FloatText.v: the insertion
      sort the code writes out, and what the code uses of packages sort, strings, strconv,
      time and of IEEE binary64 (values over Q, round to nearest even, infinities, NaN,
      signed zero) with its texts and bits.

    The broker:
    - Codec.v, Frame.v, FrameLaws.v: the frame of src/pkg/mymq (types.go, codec.go,
      frame.go). [EncodeFrame] and [DecodeFrame] are the whole functions, buffer writes and
      slice panics included.
    - Lzo.v: the LZO1X decoder (lzo.go, compress.go) and an instruction-level
      specification of the format.
    - Handshake.v: session and connect structures, broadcast prefix, trace ids.
    - Client.v, ClientLaws.v: the client (client.go, reconnect.go): the read loop, calls as
      interleaving steps, dispatch, heartbeats, the end of a connection, the supervisor.

    Quotes and prices:
    - Session.v: profiles and routing keys (src/pkg/session).
    - QuoteID.v, Registry.v, RegistryLaws.v, Async.v: identifiers, the in-process registry
      (memory.go) with concurrent callers as a step relation, and the asynchronous writer
      (async.go) over its channel, batch and counters, against the interface [BatchSink].
    - Redis.v, RedisRegistry.v: Redis as an interface of commands with the laws the code
      relies on, and the shared registry with its scripts (redis.go).
    - Dates.v: instants, civil dates, business days (calendar.go, valuedate.go), against
      the interface [Calendar].
    - Pricing.v, PricingLaws.v, SwapLaws.v, Cross.v, Masters.v, PricingDoc.v: the pricing
      table and engine, interpolation, cross rates, pair and currency masters, margin
      documents (src/pkg/pricing).
    - Ring.v, Bars.v, BarLaws.v, Feed.v, Best.v, BestLaws.v, CrossConsumer.v: tick history,
      bars and their aggregator, the duplicate filter and latest-tick table, the best
      quote, the cross-rate consumer (src/pkg/quote, src/internal/price).
    - SwapStore.v: received and dealt swap points and the dealer's registration by
      compare-and-swap (swap_received.go, swap_point.go).
    - Ingest.v, Fanout.v, Hub.v, Algo.v and their laws: the intake of ticks (server.go,
      decoder.go), customer quotes (pricing_consumer.go, customer_registry.go), the gRPC
      streams (grpc.go) and the robots' stream with replay (algo.go).
    - QuoteValidation.v, QuoteEndpoints.v and their laws: the service matching engines call
      before a fill, against the interface [QuoteRegistry], and the snapshot and lock
      endpoints, against [LockBackend].

    Sources and adapters:
    - FixMd.v, Forwarder.v, ForwarderLaws.v: the FIX market-data parsers, the forwarder's
      feeds, batches and publishers (interface [Publisher]) and the tick hub.
    - Krx.v, KrxShm.v, KrxShmLaws.v, KrxServer.v: the exchange's messages, the shared-memory
      tables and the feed server (src/pkg/krx, krxshm, src/internal/pricekrx, krx).
    - FxSync.v: the copy of master data to etcd and the user profiles read from there
      (src/internal/fxsync, src/cmd/fx-sync, src/pkg/auth/userprofile*.go).
    - Mdsshim.v: the fixed-width adapter of the legacy market-data services
      (src/internal/mdsshim).

    Edges and front end:
    - EdgeCustomers.v, EdgePrice.v, EdgePriceLaws.v: customer registrations and the
      WebSocket price edge (src/internal/edge/price).
    - Fix.v: the FIX order and market-data edges (src/internal/edge/fix, md).
    - Push.v, PushLaws.v, HashRing.v: the push service, its edge and the consistent-hash
      ring, SHA-1 written out (src/internal/push, src/pkg/push).
    - Auth.v, AuthLaws.v, AuthRedis.v, Login.v: sessions, refresh tokens, access tokens,
      middleware; the stores on Redis (redisstore.go, refresh_redis.go); the login and
      logout handlers in their three modes (src/pkg/auth, src/internal/api).
    - Tx.v, TxAudit.v, TxLaws.v: the transaction endpoint, single and bulk, with its records.
    - Idempotency.v, RedisIdempotency.v: duplicate suppression in process and on Redis.
    - Policy.v, RateLimit.v, Routing.v, RoutingLaws.v, RoutingSync.v, SvcIO.v,
      SvcIOLaws.v: operational policy, rate limits, the routing table with
      its etcd cache and seeding, fixed-width messages.

    ** How code becomes definitions

    A Go function is a function of the state it reads and returns; an error is a
    value of [res] or of an error type, a runtime panic is [Panic]. Integers are [Z]
    at their width ([wrap], [wrap64]) where the code can overflow; floats are [f64].
    A section under a mutex is one step; where the code interleaves (registry calls,
    broker calls, streams, conflation updates) the steps are a relation or an
    executable scheduler and theorems quantify over all interleavings. Objects that are
    shared (sessions, connections, subscribers) are named by number in a heap. A range over
    a Go map takes the visiting order as an argument, and a theorem either holds for every
    order or says how the result depends on it. Clocks and random identifiers are
    arguments. What lies outside the repository is a parameter with named laws: JSON
    codecs, Redis ([RedisLaws]), etcd with refused calls and lost answers, RSA
    ([JWT.Crypto]), golang.org/x/time/rate ([TokenBucket]), the FIX engine, zlib, the
    engine behind the broker; each law used has an instance that satisfies it.

    ** What the theorems show

    - Wire formats: a well-formed frame decodes to what was encoded; no received bytes make
      a decoder index out of range; the LZO decoder returns on every input and decodes every
      instruction stream; the stream of a peer is cut into its frames wherever it is split;
      a fixed-width message is read back as written; the single-scan FIX parser agrees with
      the one it replaces.
    - Quote life cycle: identifiers never repeat; a quote is consumed at most once in every
      interleaving, in process and on Redis; the validation service refines an abstract
      machine; a locked swap can be consumed while it is valid; published quotes are
      honoured; the asynchronous writer keeps order and accounts for every record.
    - Pricing: without a favourable rule the customer never gets a better price than the
      market, rounding included; swap registrations are not lost; a customer's spread in the
      database is what the customer is quoted.
    - Market data: every datagram is accounted for; two relays of one feed pass once; bars
      partition the ticks; the best quote is the best of the active sources; streams deliver
      exactly once or without gaps until they are cut; shared memory shows the market.
    - Front end: one leader per idempotency key and one reply; a submitted order reaches
      the broker once; replies reach their callers; pushes reach their users once and in
      order; FIX orders carry their counterparty; logout is final; a session belongs to a
      user the engine vouched for, and is kept on Redis as it was stored; the bucket bounds what passes; profiles, registrations
      and caches converge.
    - Further lemmas state where the code departs from its comments or from its evident
      purpose.

    ** Fuel

    Recursion that is not structural carries fuel with a proof that it is enough:
    the LZO loop consumes input at each step and gets its length; the complement
    recursion of a time window ends within one call per window or never; the search
    for a business day ends within seven times the holidays plus one; the binary
    search halves its range and gets its length plus one; the white-space trimmer
    strips a byte per round and gets the length; the read loop of the client consumes at
    least a header per frame; splitting a batch halves it and gets its length.

    ** What is not modelled

    Sockets, TLS, timers and goroutine wiring, server start-up, configuration from flags
    and environment, HTTP middleware other than authentication, the administration and
    chart servers (forms and queries over the modelled packages), the database archiver,
    etcd watchers that only reload a modelled document, the C header parser and the OpenAPI
    generator of src/pkg/svcio, key files, metrics, tracing and logging,
    generated protocol code, test tools and load generators under src/cmd, and the C side.
    JSON text is outside: where a function decodes JSON the decoder is a parameter. *)

From Stdlib Require Import ZArith Lia.
From Stdlib Require Export Strings.Byte.
From stdpp Require Export base numbers list strings gmap.

Declare Scope wtg_scope.
Delimit Scope wtg_scope with wtg.
Local Open Scope Z_scope.

(** * Outcomes of Go functions

    [Ok v]: the call returned [v] and a nil error; [Err e]: it returned the
    error [e]; [Panic]: the Go runtime panicked (index or slice bounds out of
    range, send on a closed channel, ...). *)
Inductive res (E A : Type) : Type :=
| Ok (a : A)
| Err (e : E)
| Panic.
Arguments Ok {E A} a.
Arguments Err {E A} e.
Arguments Panic {E A}.

#[export] Instance res_ret {E} : MRet (res E) := fun A a => Ok a.
#[export] Instance res_bind {E} : MBind (res E) := fun A B f m =>
  match m with Ok a => f a | Err e => Err e | Panic => Panic end.

#[export] Instance res_eq_dec {E A} `{EqDecision E, EqDecision A} :
  EqDecision (res E A).
Proof. solve_decision. Defined.

Lemma bind_ok {E A B} (m : res E A) (f : A -> res E B) b :
  (m ≫= f) = Ok b -> exists a, m = Ok a /\ f a = Ok b.
Proof. destruct m; simpl; [eauto|discriminate..]. Qed.

(** Splits a successful sequence [x ← m; k] in hypothesis [H]. *)
Ltac bind_inv H :=
  let a := fresh "a" in let E := fresh "E" in
  apply bind_ok in H as (a & E & H).

(** Statements about the absence of runtime panics. *)
Definition no_panic {E A} (r : res E A) : Prop := r <> Panic.

Lemma no_panic_bind {E A B} (m : res E A) (f : A -> res E B) :
  no_panic m -> (forall a, m = Ok a -> no_panic (f a)) -> no_panic (m ≫= f).
Proof. unfold no_panic. destruct m; simpl; auto. Qed.

Lemma no_panic_ok {E A} (a : A) : no_panic (@Ok E A a).
Proof. done. Qed.
Lemma no_panic_err {E A} (e : E) : no_panic (@Err E A e).
Proof. done. Qed.

(** * Automation shared by the development *)

Create HintDb wtg discriminated.
#[export] Hint Resolve no_panic_ok no_panic_err : wtg.

(** Turns boolean tests of the code into propositions, then calls [lia]. *)
Ltac bool_lia :=
  repeat match goal with
  | H : (_ =? _) = true |- _ => apply Z.eqb_eq in H
  | H : (_ =? _) = false |- _ => apply Z.eqb_neq in H
  | H : (_ <? _) = true |- _ => apply Z.ltb_lt in H
  | H : (_ <? _) = false |- _ => apply Z.ltb_ge in H
  | H : (_ <=? _) = true |- _ => apply Z.leb_le in H
  | H : (_ <=? _) = false |- _ => apply Z.leb_gt in H
  | H : (_ && _) = true |- _ => apply andb_true_iff in H; destruct H
  | H : (_ || _) = false |- _ => apply orb_false_iff in H; destruct H
  end; try lia.

(** Case analysis on the condition of the first [if] of the goal. *)
Ltac case_if :=
  match goal with
  | |- context [if ?b then _ else _] =>
      match type of b with bool => let E := fresh "E" in destruct b eqn:E end
  end.

(** Case analysis on the scrutinee of a [match]/[if] in hypothesis [H]. *)
Ltac case_in H :=
  match type of H with
  | context [match ?x with _ => _ end] =>
      let E := fresh "E" in destruct x eqn:E; try discriminate H
  end.

(** Linear arithmetic with division and modulo by powers of two. *)
Ltac norm_pow :=
  change (2 ^ 3) with 8 in *; change (2 ^ 5) with 32 in *;
  change (2 ^ 8) with 256 in *; change (2 ^ 16) with 65536 in *;
  change (2 ^ 24) with 16777216 in *; change (2 ^ 29) with 536870912 in *;
  change (2 ^ 32) with 4294967296 in *.
Ltac divmod_lia := norm_pow; Z.to_euclidean_division_equations; lia.

(** * Machine integers

    A Go unsigned integer of width [w] is a [Z] in [0, 2^w); a conversion
    [uintW(x)] wraps. *)
Definition wrap (w z : Z) : Z := z mod 2 ^ w.
Arguments wrap : simpl never.
Definition is_uint (w z : Z) : Prop := 0 <= z < 2 ^ w.

#[export] Instance is_uint_dec w z : Decision (is_uint w z).
Proof. unfold is_uint. solve_decision. Defined.

Lemma wrap_small w z : is_uint w z -> wrap w z = z.
Proof. intros [? ?]. by apply Z.mod_small. Qed.

Lemma wrap_is_uint w z : 0 <= w -> is_uint w (wrap w z).
Proof. intros. apply Z.mod_pos_bound. by apply Z.pow_pos_nonneg. Qed.

(** Ranges and lengths of concrete records, by evaluation. *)
Ltac wf_const :=
  repeat match goal with
  | |- is_uint _ _ => split; vm_compute; [discriminate | reflexivity]
  | |- length _ = _ => reflexivity
  | |- _ /\ _ => split
  end.

(** Go's [int] and [int64]: two's complement, 64 bits. *)
Definition wrap64 (z : Z) : Z := (z + 2 ^ 63) mod 2 ^ 64 - 2 ^ 63.
Definition is_int64 (z : Z) : Prop := - 2 ^ 63 <= z < 2 ^ 63.

Lemma wrap64_small z : is_int64 z -> wrap64 z = z.
Proof. unfold is_int64, wrap64. intros. rewrite Z.mod_small; lia. Qed.

(** * Bytes *)
Definition b2z (b : byte) : Z := Z.of_N (Byte.to_N b).
Definition z2b (z : Z) : byte :=
  match Byte.of_N (Z.to_N (z mod 256)) with Some b => b | None => x00 end.

#[export] Instance byte_eq_dec : EqDecision byte := Byte.byte_eq_dec.

Lemma b2z_range b : 0 <= b2z b < 256.
Proof. unfold b2z. pose proof (Byte.to_N_bounded b). lia. Qed.

Lemma z2b_b2z b : z2b (b2z b) = b.
Proof.
  unfold z2b. rewrite Z.mod_small by apply b2z_range.
  unfold b2z. rewrite N2Z.id, Byte.of_to_N. done.
Qed.

Lemma b2z_z2b z : b2z (z2b z) = z mod 256.
Proof.
  pose proof (Z.mod_pos_bound z 256 ltac:(lia)).
  unfold z2b. destruct (Byte.of_N _) eqn:E.
  - apply Byte.to_of_N in E. unfold b2z. rewrite E. lia.
  - apply Byte.of_N_None_iff in E. lia.
Qed.

Lemma b2z_inj a b : b2z a = b2z b -> a = b.
Proof. intros E. by rewrite <-(z2b_b2z a), <-(z2b_b2z b), E. Qed.

(** Go's [len]. *)
Abbreviation zlen l := (Z.of_nat (length l)).

(** * Buffers

    A Go [[]byte] is the list of its bytes. [sub off n l] is the value of the
    slice [l[off:off+n]] when it is in range; [slice] is the checked Go
    expression [l[lo:hi]], which panics out of range; [blit off src l] is
    [copy(l[off:], src)] (bytes past the end of [l] are dropped, as [copy]
    does). *)
Definition sub {A} (off n : nat) (l : list A) : list A := take n (drop off l).

Definition slice {E A} (lo hi : Z) (l : list A) : res E (list A) :=
  if (0 <=? lo) && (lo <=? hi) && (hi <=? Z.of_nat (length l))
  then Ok (sub (Z.to_nat lo) (Z.to_nat (hi - lo)) l) else Panic.

Definition blit {A} (off : nat) (src l : list A) : list A :=
  list_inserts off src l.
Arguments blit : simpl never.
Arguments sub : simpl never.

Lemma blit_length {A} off (src l : list A) : length (blit off src l) = length l.
Proof. apply length_inserts. Qed.

Lemma sub_length {A} off n (l : list A) :
  (off + n <= length l)%nat -> length (sub off n l) = n.
Proof. intros. unfold sub. rewrite length_take, length_drop. lia. Qed.

Lemma sub_lookup {A} off n (l : list A) i :
  (i < n)%nat -> sub off n l !! i = l !! (off + i)%nat.
Proof. intros. unfold sub. rewrite lookup_take_lt by done. apply lookup_drop. Qed.

Lemma sub_ext {A} off off' n (l l' : list A) :
  (forall i, (i < n)%nat -> l !! (off + i)%nat = l' !! (off' + i)%nat) ->
  sub off n l = sub off' n l'.
Proof.
  intros H. apply list_eq. intros i.
  destruct (decide (i < n)%nat) as [Hi|Hi].
  - rewrite !sub_lookup by done. auto.
  - unfold sub. rewrite !lookup_take_ge by lia. done.
Qed.

Lemma sub_blit_same {A} off n (src l : list A) :
  length src = n -> (off + n <= length l)%nat ->
  sub off n (blit off src l) = src.
Proof.
  intros <- Hl. apply list_eq. intros i.
  destruct (decide (i < length src)%nat) as [Hi|Hi].
  - rewrite sub_lookup by done. unfold blit.
    rewrite list_lookup_inserts by lia. f_equal. lia.
  - rewrite (lookup_ge_None_2 src) by lia. unfold sub.
    apply lookup_take_ge. lia.
Qed.

Lemma sub_blit_ne {A} off n off' (src l : list A) :
  (off + n <= off')%nat \/ (off' + length src <= off)%nat ->
  sub off n (blit off' src l) = sub off n l.
Proof.
  intros H. apply sub_ext. intros i Hi. unfold blit.
  destruct H; [rewrite list_lookup_inserts_lt by lia | rewrite list_lookup_inserts_ge by lia]; done.
Qed.

Lemma blit_full {A} (src l : list A) : length src = length l -> blit 0 src l = src.
Proof.
  intros H. pose proof (sub_blit_same 0 (length l) src l H ltac:(lia)) as E.
  rewrite <-E at 2. unfold sub. rewrite drop_0, take_ge; [done|].
  by rewrite blit_length.
Qed.

Lemma blit_nil {A} off (l : list A) : blit off [] l = l.
Proof. done. Qed.

(** [if len > 0 { copy(...); cur += len }] needs no case analysis. *)
Lemma blit_if {A} off (src l : list A) :
  (if (0 <? length src)%nat then blit off src l else l) = blit off src l.
Proof. by destruct src. Qed.

Lemma add_if (n m : nat) : (if (0 <? m)%nat then n + m else n)%nat = (n + m)%nat.
Proof. destruct m; simpl; lia. Qed.

Lemma sub_0_full {A} n (l : list A) : (length l <= n)%nat -> sub 0 n l = l.
Proof. intros. unfold sub. by rewrite drop_0, take_ge. Qed.

Lemma sub_sub {A} a n b m (l : list A) :
  (b + m <= n)%nat -> sub b m (sub a n l) = sub (a + b) m l.
Proof.
  intros. apply sub_ext. intros i Hi.
  rewrite sub_lookup by lia. f_equal. lia.
Qed.

(** Two buffers agree on a range when they agree on a split of it. *)
Lemma sub_split_eq {A} a n m (l l' : list A) :
  sub a n l = sub a n l' -> sub (a + n) m l = sub (a + n) m l' ->
  sub a (n + m) l = sub a (n + m) l'.
Proof.
  intros H1 H2. apply sub_ext. intros i Hi. destruct (decide (i < n)%nat).
  - apply (f_equal (lookup i)) in H1. by rewrite !sub_lookup in H1 by lia.
  - apply (f_equal (lookup (i - n)%nat)) in H2. rewrite !sub_lookup in H2 by lia.
    by replace (a + n + (i - n))%nat with (a + i)%nat in H2 by lia.
Qed.

Lemma sub_single {A} i (d : A) l : (i < length l)%nat -> sub i 1 l = [nth i l d].
Proof.
  intros Hi. destruct (lookup_lt_is_Some_2 l i Hi) as [x Hx].
  rewrite (nth_lookup_Some l i d x Hx). unfold sub. by erewrite drop_S by done.
Qed.

Lemma slice_ok {E A} lo hi (l : list A) :
  0 <= lo -> lo <= hi -> hi <= Z.of_nat (length l) ->
  @slice E A lo hi l = Ok (sub (Z.to_nat lo) (Z.to_nat (hi - lo)) l).
Proof.
  intros. unfold slice.
  rewrite !(proj2 (Z.leb_le _ _)) by lia. done.
Qed.

Lemma slice_no_panic {E A} lo hi (l : list A) :
  0 <= lo -> lo <= hi -> hi <= Z.of_nat (length l) -> no_panic (@slice E A lo hi l).
Proof. intros. by rewrite slice_ok. Qed.

Create Rewrite HintDb buf.
#[export] Hint Rewrite @blit_length @length_app @length_replicate @length_take
  @length_drop @length_fmap : buf.

(** Reads of a buffer through the writes that built it: a write to the same
    range is returned, a write to a disjoint range is skipped. [buf_read] is
    for symbolic positions; [buf_read_at] for constant ones, where the
    disjointness is decided by computation. *)
Ltac buf_len := autorewrite with buf; simpl; lia.
Ltac buf_read :=
  repeat match goal with
  | |- context [sub ?o ?n (blit ?p ?s ?l)] =>
      first [ rewrite (sub_blit_same o n s l) by buf_len
            | rewrite (sub_blit_ne o n p s l) by buf_len ]
  end.

Lemma sub_blit_ne_b {A} off n off' k (src l : list A) :
  length src = k -> ((off + n <=? off') || (off' + k <=? off))%nat = true ->
  sub off n (blit off' src l) = sub off n l.
Proof.
  intros <- H. apply sub_blit_ne. apply orb_true_iff in H.
  rewrite !Nat.leb_le in H. exact H.
Qed.

Ltac known_length := first [ eassumption | reflexivity | autorewrite with buf; reflexivity ].
Ltac buf_read_at :=
  repeat match goal with
  | |- context [sub ?o ?n (blit ?p ?s ?l)] =>
      first [ erewrite (sub_blit_ne_b o n p _ s l); [| known_length | reflexivity]
            | rewrite (sub_blit_same o n s l); [| known_length | buf_len] ]
  end.

(** * Strings

    A Go [string] is a byte string, as Rocq's. *)
Lemma str_app_nil_l (a : string) : "" +:+ a = a.
Proof. done. Qed.
Lemma str_app_cons c (a b : string) : String c a +:+ b = String c (a +:+ b).
Proof. done. Qed.
Lemma str_app_nil_r (a : string) : a +:+ "" = a.
Proof. induction a as [|x a IH]; [done|]. by rewrite str_app_cons, IH. Qed.
Lemma str_app_assoc (a b c : string) : a +:+ (b +:+ c) = (a +:+ b) +:+ c.
Proof. induction a as [|x a IH]; [done|]. by rewrite !str_app_cons, IH. Qed.

Create Rewrite HintDb str.
#[export] Hint Rewrite str_app_nil_l str_app_cons str_app_nil_r : str.
