(* ===== verification/Codec.v ===== *)
(** MyMQ wire scalars and fixed-size records (src/pkg/mymq/codec.go and the
    types and client-id packing of src/pkg/mymq/types.go).

    A Go function [f(dst []byte, x)] that fills [dst] is modelled by the bytes
    it writes ([xxx_bytes]) or by the updated buffer; a function that reads
    [src] is a function of the list of bytes of [src]. *)

From Stdlib Require Import ZArith Lia.
From S2P Require Import Prelude.
Local Open Scope Z_scope.

(** ** Field widths (types.go) *)
Definition LXchg : nat := 8.
Definition LRkey : nat := 16.
Definition LSkey : nat := 80.
Definition CookieSize : nat := 256.
Definition MaxMsgSize : Z := 1024 * 2048 + 256.
Definition MaxVia : nat := 16.
Definition HdrSize : nat := 100.
Definition NaviSize : nat := 32.
Definition CookieWire : nat := 16 + 12 + 24 + 20 + 20 + 4 + 256.
Definition TraceIDSize : nat := 16.

(** ** Big-endian integers *)

(** [b[i]]; callers only index inside the slice. *)
Definition byte_at (b : list byte) (i : nat) : Z := b2z (nth i b x00).

Definition putU32 (v : Z) : list byte :=
  [z2b (Z.shiftr v 24); z2b (Z.shiftr v 16); z2b (Z.shiftr v 8); z2b v].
Definition getU32 (b : list byte) : Z :=
  Z.lor (Z.shiftl (byte_at b 0) 24) (Z.lor (Z.shiftl (byte_at b 1) 16)
    (Z.lor (Z.shiftl (byte_at b 2) 8) (byte_at b 3))).

Definition putU16 (v : Z) : list byte := [z2b (Z.shiftr v 8); z2b v].
Definition getU16 (b : list byte) : Z :=
  Z.lor (Z.shiftl (byte_at b 0) 8) (byte_at b 1).

Definition putU24 (v : Z) : list byte :=
  [z2b (Z.shiftr v 16); z2b (Z.shiftr v 8); z2b v].
Definition getU24 (b : list byte) : Z :=
  Z.lor (Z.shiftl (byte_at b 0) 16)
    (Z.lor (Z.shiftl (byte_at b 1) 8) (byte_at b 2)).

Arguments putU16 : simpl never.
Arguments putU24 : simpl never.
Arguments putU32 : simpl never.
Arguments getU16 : simpl never.
Arguments getU24 : simpl never.
Arguments getU32 : simpl never.

(** WHERE: zipf (1 byte) and a 24-bit offset. *)
Definition encodeWhere (zipf off : Z) : list byte := z2b zipf :: putU24 off.
Definition decodeWhere (b : list byte) : Z * Z := (byte_at b 0, getU24 (sub 1 3 b)).

(** SZOFF: 16-bit length and 16-bit offset. *)
Definition encodeSzoff (length off : Z) : list byte := putU16 length ++ putU16 off.
Definition decodeSzoff (b : list byte) : Z * Z := (getU16 (sub 0 2 b), getU16 (sub 2 2 b)).

Arguments encodeWhere : simpl never.
Arguments decodeWhere : simpl never.
Arguments encodeSzoff : simpl never.
Arguments decodeSzoff : simpl never.

(** ** NUL-padded names *)

(** [padCopyString(dst, src)] with [len(dst) = n]. *)
Definition padCopyString (n : nat) (src : list byte) : list byte :=
  take n src ++ replicate (n - length src) x00.

Arguments padCopyString : simpl never.

Fixpoint trimNul (b : list byte) : list byte :=
  match b with
  | [] => []
  | c :: r => if decide (c = x00) then [] else c :: trimNul r
  end.

(** ** Navigation entries and cookies *)
Record Navi := mkNavi {
  nv_xchg : list byte; nv_rkey : list byte; nv_scid : Z;
  nv_iama : Z; nv_eatt : Z; nv_zipf : Z; nv_ncid : Z }.

Record Cookie := mkCookie {
  ck_usid : list byte; ck_name : list byte; ck_maca : list byte;
  ck_pcip : list byte; ck_svip : list byte; ck_clid : Z; ck_coki : list byte }.

#[export] Instance Navi_eq_dec : EqDecision Navi.
Proof. solve_decision. Defined.
#[export] Instance Cookie_eq_dec : EqDecision Cookie.
Proof. solve_decision. Defined.

(** The Go array types fix the lengths, the integer types the ranges. *)
Definition wf_navi (n : Navi) : Prop :=
  length (nv_xchg n) = LXchg /\ length (nv_rkey n) = LRkey /\
  is_uint 32 (nv_scid n) /\ is_uint 8 (nv_iama n) /\ is_uint 8 (nv_eatt n) /\
  is_uint 8 (nv_zipf n) /\ is_uint 8 (nv_ncid n).

Definition wf_cookie (c : Cookie) : Prop :=
  length (ck_usid c) = 16%nat /\ length (ck_name c) = 12%nat /\
  length (ck_maca c) = 24%nat /\ length (ck_pcip c) = 20%nat /\
  length (ck_svip c) = 20%nat /\ is_uint 32 (ck_clid c) /\
  length (ck_coki c) = CookieSize.

Definition EncodeNavi (dst : list byte) (n : Navi) : list byte :=
  let dst := blit 0 (nv_xchg n) dst in
  let dst := blit LXchg (nv_rkey n) dst in
  let dst := blit (LXchg + LRkey) (putU32 (nv_scid n)) dst in
  let dst := blit (LXchg + LRkey + 4) [z2b (nv_iama n)] dst in
  let dst := blit (LXchg + LRkey + 5) [z2b (nv_eatt n)] dst in
  let dst := blit (LXchg + LRkey + 6) [z2b (nv_zipf n)] dst in
  blit (LXchg + LRkey + 7) [z2b (nv_ncid n)] dst.

Definition DecodeNavi (src : list byte) : Navi :=
  {| nv_xchg := sub 0 LXchg src;
     nv_rkey := sub LXchg LRkey src;
     nv_scid := getU32 (sub (LXchg + LRkey) 4 src);
     nv_iama := byte_at src (LXchg + LRkey + 4);
     nv_eatt := byte_at src (LXchg + LRkey + 5);
     nv_zipf := byte_at src (LXchg + LRkey + 6);
     nv_ncid := byte_at src (LXchg + LRkey + 7) |}.

Definition EncodeCookie (dst : list byte) (c : Cookie) : list byte :=
  let dst := blit 0 (ck_usid c) dst in
  let dst := blit 16 (ck_name c) dst in
  let dst := blit 28 (ck_maca c) dst in
  let dst := blit 52 (ck_pcip c) dst in
  let dst := blit 72 (ck_svip c) dst in
  let dst := blit 92 (putU32 (ck_clid c)) dst in
  blit 96 (ck_coki c) dst.

Definition DecodeCookie (src : list byte) : Cookie :=
  {| ck_usid := sub 0 16 src;
     ck_name := sub 16 12 src;
     ck_maca := sub 28 24 src;
     ck_pcip := sub 52 20 src;
     ck_svip := sub 72 20 src;
     ck_clid := getU32 (sub 92 4 src);
     ck_coki := sub 96 CookieSize src |}.

(** ** Client ids (types.go) *)
Definition clidTypeShift : Z := 29.
Definition clidNcidShift : Z := 24.
Definition clidTypeMask : Z := 0x03.
Definition clidNcidMask : Z := 0x1f.
Definition clidScidMask : Z := 0x00FFFFFF.

Definition MakeClid (memberType ncid scid : Z) : Z :=
  Z.lor (Z.lor (wrap 32 (Z.shiftl (Z.land memberType clidTypeMask) clidTypeShift))
               (wrap 32 (Z.shiftl (Z.land ncid clidNcidMask) clidNcidShift)))
        (Z.land scid clidScidMask).

Definition SplitClid (clid : Z) : Z * Z * Z :=
  (Z.land (Z.shiftr clid clidTypeShift) clidTypeMask,
   Z.land (Z.shiftr clid clidNcidShift) clidNcidMask,
   Z.land clid clidScidMask).

(** ** Lemmas *)

(** A disjoint [or] is an addition. *)
Lemma lor_shiftl_add a b k :
  0 <= k -> 0 <= b < 2 ^ k -> Z.lor (Z.shiftl a k) b = a * 2 ^ k + b.
Proof.
  intros Hk Hb. rewrite <-Z.shiftl_mul_pow2 by done.
  assert (Z.land (Z.shiftl a k) b = 0) as Hd.
  { apply Z.bits_inj'. intros i Hi. rewrite Z.land_spec, Z.bits_0.
    destruct (decide (i < k)); [by rewrite Z.shiftl_spec_low by lia|].
    replace b with (b mod 2 ^ k) by (by apply Z.mod_small).
    rewrite Z.mod_pow2_bits_high by lia. apply andb_false_r. }
  by rewrite Z.add_nocarry_lxor, Z.lxor_lor.
Qed.

Lemma byte_at_range b i : 0 <= byte_at b i < 256.
Proof. apply b2z_range. Qed.

Lemma getU16_add b : getU16 b = byte_at b 0 * 256 + byte_at b 1.
Proof. apply lor_shiftl_add; [lia|]. apply byte_at_range. Qed.

Lemma getU24_add b :
  getU24 b = byte_at b 0 * 65536 + (byte_at b 1 * 256 + byte_at b 2).
Proof.
  pose proof (byte_at_range b 1). pose proof (byte_at_range b 2).
  unfold getU24. rewrite (lor_shiftl_add (byte_at b 1)) by lia.
  apply lor_shiftl_add; lia.
Qed.

Lemma getU32_add b :
  getU32 b = byte_at b 0 * 2 ^ 24 +
    (byte_at b 1 * 65536 + (byte_at b 2 * 256 + byte_at b 3)).
Proof.
  pose proof (byte_at_range b 1). pose proof (byte_at_range b 2).
  pose proof (byte_at_range b 3). unfold getU32.
  rewrite (lor_shiftl_add (byte_at b 2)) by lia.
  rewrite (lor_shiftl_add (byte_at b 1)) by lia.
  apply lor_shiftl_add; lia.
Qed.

Ltac unbyte := unfold byte_at; cbn [nth]; rewrite ?b2z_z2b, ?Z.shiftr_div_pow2 by lia.

Lemma getU16_putU16 v : getU16 (putU16 v) = wrap 16 v.
Proof. rewrite getU16_add. unfold putU16. unbyte. unfold wrap. divmod_lia. Qed.

Lemma getU24_putU24 v : getU24 (putU24 v) = wrap 24 v.
Proof. rewrite getU24_add. unfold putU24. unbyte. unfold wrap. divmod_lia. Qed.

Lemma getU32_putU32 v : getU32 (putU32 v) = wrap 32 v.
Proof. rewrite getU32_add. unfold putU32. unbyte. unfold wrap. divmod_lia. Qed.

Lemma list4 {A} (d : A) b : length b = 4%nat -> b = [nth 0 b d; nth 1 b d; nth 2 b d; nth 3 b d].
Proof. do 5 (destruct b as [|? b]; try done). Qed.

(** A byte is determined by its value. *)
Lemma z2b_eq b z : b2z b = z mod 256 -> z2b z = b.
Proof. intros H. apply b2z_inj. by rewrite b2z_z2b. Qed.

Lemma putU32_getU32 b : length b = 4%nat -> putU32 (getU32 b) = b.
Proof.
  intros H. rewrite (list4 x00 b H) at 2. rewrite getU32_add. unfold putU32.
  pose proof (byte_at_range b 0). pose proof (byte_at_range b 1).
  pose proof (byte_at_range b 2). pose proof (byte_at_range b 3).
  rewrite !Z.shiftr_div_pow2 by lia. unfold byte_at in *.
  repeat f_equal; apply z2b_eq; divmod_lia.
Qed.

Lemma getU32_uint b : is_uint 32 (getU32 b).
Proof.
  rewrite getU32_add. pose proof (byte_at_range b 0). pose proof (byte_at_range b 1).
  pose proof (byte_at_range b 2). pose proof (byte_at_range b 3).
  unfold is_uint. norm_pow. lia.
Qed.

Lemma getU16_uint b : is_uint 16 (getU16 b).
Proof.
  rewrite getU16_add. pose proof (byte_at_range b 0). pose proof (byte_at_range b 1).
  unfold is_uint. norm_pow. lia.
Qed.

Lemma getU24_uint b : is_uint 24 (getU24 b).
Proof.
  rewrite getU24_add. pose proof (byte_at_range b 0). pose proof (byte_at_range b 1).
  pose proof (byte_at_range b 2). unfold is_uint. norm_pow. lia.
Qed.

Lemma byte_at_uint b i : is_uint 8 (byte_at b i).
Proof. apply byte_at_range. Qed.
#[export] Hint Resolve getU16_uint getU24_uint getU32_uint byte_at_uint : wtg.

Lemma decodeWhere_encodeWhere zipf off :
  is_uint 8 zipf -> decodeWhere (encodeWhere zipf off) = (zipf, wrap 24 off).
Proof.
  intros Hz. unfold decodeWhere, encodeWhere. f_equal.
  - unfold byte_at. cbn [nth]. rewrite b2z_z2b. by apply (wrap_small 8).
  - apply getU24_putU24.
Qed.

Lemma decodeSzoff_encodeSzoff len off :
  decodeSzoff (encodeSzoff len off) = (wrap 16 len, wrap 16 off).
Proof. unfold decodeSzoff, encodeSzoff. f_equal; apply getU16_putU16. Qed.

Lemma encodeWhere_decodeWhere b :
  length b = 4%nat -> encodeWhere (fst (decodeWhere b)) (snd (decodeWhere b)) = b.
Proof.
  intros H. rewrite (list4 x00 b H). generalize (nth 0 b x00) as b0, (nth 1 b x00) as b1,
    (nth 2 b x00) as b2, (nth 3 b x00) as b3. intros.
  unfold encodeWhere, decodeWhere. cbn [fst snd]. rewrite getU24_add. unfold putU24.
  rewrite !Z.shiftr_div_pow2 by lia. unfold byte_at, sub. cbn.
  pose proof (b2z_range b1). pose proof (b2z_range b2). pose proof (b2z_range b3).
  f_equal; [apply z2b_b2z|]. repeat f_equal; apply z2b_eq; divmod_lia.
Qed.

Lemma encodeSzoff_decodeSzoff b :
  length b = 4%nat -> encodeSzoff (fst (decodeSzoff b)) (snd (decodeSzoff b)) = b.
Proof.
  intros H. rewrite (list4 x00 b H). generalize (nth 0 b x00) as b0, (nth 1 b x00) as b1,
    (nth 2 b x00) as b2, (nth 3 b x00) as b3. intros.
  unfold encodeSzoff, decodeSzoff. cbn [fst snd]. rewrite !getU16_add. unfold putU16.
  rewrite !Z.shiftr_div_pow2 by lia. unfold byte_at, sub. cbn.
  pose proof (b2z_range b0). pose proof (b2z_range b1).
  pose proof (b2z_range b2). pose proof (b2z_range b3).
  repeat f_equal; apply z2b_eq; divmod_lia.
Qed.

(** *** Names *)
Lemma padCopyString_length n s : length (padCopyString n s) = n.
Proof. unfold padCopyString. rewrite length_app, length_take, length_replicate. lia. Qed.

Lemma trimNul_replicate n : trimNul (replicate n x00) = [].
Proof. by destruct n. Qed.

Lemma trimNul_app s r : x00 ∉ s -> trimNul (s ++ r) = s ++ trimNul r.
Proof.
  induction s as [|c s IH]; intros H; [done|].
  apply not_elem_of_cons in H as [H1 H2]. simpl.
  rewrite decide_False by done. by rewrite IH.
Qed.

Lemma trimNul_padCopyString n s :
  x00 ∉ s -> trimNul (padCopyString n s) = take n s.
Proof.
  intros H. unfold padCopyString. rewrite trimNul_app, trimNul_replicate, app_nil_r; [done|].
  intros Hin. apply H. rewrite <-(take_drop n s). apply elem_of_app. by left.
Qed.

(** Reading one byte of a buffer is reading a slice of length one. *)
Lemma byte_at_sub b i : byte_at b i = byte_at (sub i 1 b) 0.
Proof.
  unfold byte_at, sub. f_equal. rewrite !nth_lookup, lookup_take_lt by lia.
  by rewrite lookup_drop, Nat.add_0_r.
Qed.

Lemma byte_at_single z r : is_uint 8 z -> byte_at (z2b z :: r) 0 = z.
Proof. intros H. unfold byte_at. cbn [nth]. rewrite b2z_z2b. by apply (wrap_small 8). Qed.

Lemma byte_at_z2b b i : z2b (byte_at b i) = nth i b x00.
Proof. apply z2b_b2z. Qed.

Lemma putU32_length v : length (putU32 v) = 4%nat.
Proof. done. Qed.
Lemma encodeWhere_length z v : length (encodeWhere z v) = 4%nat.
Proof. done. Qed.
Lemma encodeSzoff_length z v : length (encodeSzoff z v) = 4%nat.
Proof. done. Qed.
#[export] Hint Rewrite putU32_length encodeWhere_length encodeSzoff_length
  padCopyString_length : buf.

(** *** Record round trips *)
Lemma EncodeNavi_length dst n : length (EncodeNavi dst n) = length dst.
Proof. unfold EncodeNavi. by autorewrite with buf. Qed.

Lemma EncodeCookie_length dst c : length (EncodeCookie dst c) = length dst.
Proof. unfold EncodeCookie. by autorewrite with buf. Qed.

Lemma DecodeNavi_EncodeNavi dst n :
  (NaviSize <= length dst)%nat -> wf_navi n -> DecodeNavi (EncodeNavi dst n) = n.
Proof.
  unfold NaviSize. intros Hl (H1 & H2 & H3 & H4 & H5 & H6 & H7).
  destruct n as [xchg rkey scid iama eatt zipf ncid]; cbn in *.
  unfold DecodeNavi, EncodeNavi, LXchg, LRkey in *; cbn [nv_xchg nv_rkey nv_scid nv_iama nv_eatt nv_zipf nv_ncid Nat.add].
  rewrite (byte_at_sub _ 28), (byte_at_sub _ 29), (byte_at_sub _ 30), (byte_at_sub _ 31).
  buf_read_at. rewrite getU32_putU32, wrap_small, !byte_at_single by done. done.
Qed.

Lemma DecodeCookie_EncodeCookie dst c :
  (CookieWire <= length dst)%nat -> wf_cookie c -> DecodeCookie (EncodeCookie dst c) = c.
Proof.
  change CookieWire with 352%nat. intros Hl (H1 & H2 & H3 & H4 & H5 & H6 & H7).
  destruct c as [usid name maca pcip svip clid coki]; cbn in *.
  unfold DecodeCookie, EncodeCookie, CookieSize in *; cbn [ck_usid ck_name ck_maca ck_pcip ck_svip ck_clid ck_coki].
  buf_read_at. rewrite getU32_putU32, wrap_small by done. done.
Qed.

(** *** Client ids as arithmetic *)
Lemma MakeClid_add t n s :
  MakeClid t n s = (t mod 4) * 2 ^ 29 + ((n mod 32) * 2 ^ 24 + s mod 2 ^ 24).
Proof.
  unfold MakeClid, clidTypeMask, clidNcidMask, clidScidMask, clidTypeShift, clidNcidShift.
  change 0x03 with (Z.ones 2). change 0x1f with (Z.ones 5).
  change 0xFFFFFF with (Z.ones 24). rewrite !Z.land_ones by lia.
  change (2 ^ 2) with 4. change (2 ^ 5) with 32.
  pose proof (Z.mod_pos_bound t 4 ltac:(lia)). pose proof (Z.mod_pos_bound n 32 ltac:(lia)).
  pose proof (Z.mod_pos_bound s (2 ^ 24) ltac:(lia)).
  rewrite !wrap_small by (unfold is_uint; rewrite Z.shiftl_mul_pow2 by lia; norm_pow; lia).
  rewrite <-Z.lor_assoc, (lor_shiftl_add (n mod 32)), lor_shiftl_add by (norm_pow; lia).
  done.
Qed.

Lemma SplitClid_div c :
  SplitClid c = ((c / 2 ^ 29) mod 4, (c / 2 ^ 24) mod 32, c mod 2 ^ 24).
Proof.
  unfold SplitClid, clidTypeMask, clidNcidMask, clidScidMask, clidTypeShift, clidNcidShift.
  change 0x03 with (Z.ones 2). change 0x1f with (Z.ones 5).
  change 0xFFFFFF with (Z.ones 24). by rewrite !Z.land_ones, !Z.shiftr_div_pow2 by lia.
Qed.

(** Packing keeps exactly the low 2, 5 and 24 bits of its arguments. *)
Lemma SplitClid_MakeClid_mod t n s :
  SplitClid (MakeClid t n s) = (t mod 4, n mod 32, s mod 2 ^ 24).
Proof.
  rewrite SplitClid_div, MakeClid_add.
  pose proof (Z.mod_pos_bound t 4 ltac:(lia)). pose proof (Z.mod_pos_bound n 32 ltac:(lia)).
  pose proof (Z.mod_pos_bound s (2 ^ 24) ltac:(lia)).
  set (a := t mod 4) in *. set (b := n mod 32) in *. set (c := s mod 2 ^ 24) in *.
  clearbody a b c. repeat f_equal; divmod_lia.
Qed.

(** Unpacking followed by packing restores a 31-bit client id. *)
Lemma MakeClid_SplitClid c :
  0 <= c < 2 ^ 31 ->
  let '(t, n, s) := SplitClid c in MakeClid t n s = c.
Proof.
  intros Hc. rewrite SplitClid_div, MakeClid_add. change (2 ^ 31) with 2147483648 in Hc.
  divmod_lia.
Qed.
