(* ===== verification/Frame.v ===== *)
(** MyMQ frames (src/pkg/mymq/frame.go): the 100-byte fixed header, the
    assembly of a frame from its logical content, and its parsing. *)

From Stdlib Require Import ZArith Lia.
From S2P Require Import Prelude Codec.
Local Open Scope Z_scope.

(** ** Data (types.go, frame.go) *)
Record Header := mkHeader {
  h_length : Z; h_func : Z; h_subc : Z; h_nvia : Z; h_dirf : Z;
  h_msgf : Z; h_ctlf : Z; h_keyc : Z;
  h_xchg : list byte; h_rkey : list byte; h_ckey : Z; h_clid : Z;
  h_wkey : list byte; h_chan : list byte; h_errn : Z;
  h_coffZipf : Z; h_coffOff : Z; h_soffZipf : Z; h_soffOff : Z;
  h_errmLen : Z; h_errmOff : Z; h_pkeyLen : Z; h_pkeyOff : Z;
  h_nkeyLen : Z; h_nkeyOff : Z; h_bodyZipf : Z; h_bodyOff : Z;
  h_traceID : list byte }.

Record FrameInput := mkFrameInput {
  fi_func : Z; fi_subc : Z; fi_dirf : Z; fi_keyc : Z; fi_msgf : Z; fi_ctlf : Z;
  fi_xchg : list byte; fi_rkey : list byte; fi_ckey : Z; fi_clid : Z;
  fi_wkey : list byte; fi_chan : list byte; fi_traceID : list byte;
  fi_navis : list Navi; fi_errn : Z; fi_errMsg : list byte;
  fi_pkey : list byte; fi_nkey : list byte;
  fi_cookie : option Cookie; fi_body : list byte }.

Record DecodedFrame := mkDecodedFrame {
  df_header : Header; df_navis : list Navi; df_errMsg : list byte;
  df_pkey : list byte; df_nkey : list byte; df_cookie : option Cookie;
  df_body : list byte; df_bodyZipf : Z }.

Inductive FrameErr :=
| ErrFrameTooShort | ErrFrameTooLong | ErrInvalidLength
| ErrInvalidNavi | ErrInvalidOffset | ErrKeyTooLong.

#[export] Instance Header_eq_dec : EqDecision Header.
Proof. solve_decision. Defined.
#[export] Instance DecodedFrame_eq_dec : EqDecision DecodedFrame.
Proof. solve_decision. Defined.
#[export] Instance FrameErr_eq_dec : EqDecision FrameErr.
Proof. solve_decision. Defined.

(** ** Field offsets *)
Definition offLength : nat := 0.
Definition offFunc : nat := 4.
Definition offSubc : nat := 5.
Definition offNvia : nat := 6.
Definition offDirf : nat := 7.
Definition offMsgf : nat := 8.
Definition offCtlf : nat := 9.
Definition offReserved : nat := 10.
Definition offKeyc : nat := 11.
Definition offXchg : nat := 12.
Definition offRkey : nat := 20.
Definition offCkey : nat := 36.
Definition offClid : nat := 40.
Definition offWkey : nat := 44.
Definition offChan : nat := 52.
Definition offErrn : nat := 56.
Definition offCoff : nat := 60.
Definition offSoff : nat := 64.
Definition offErrm : nat := 68.
Definition offPkey : nat := 72.
Definition offNkey : nat := 76.
Definition offBody : nat := 80.
Definition offTraceID : nat := 84.

Definition MsgfErr : Z := 0x01.

(** ** Fixed header *)
Definition header_writes (dst : list byte) (h : Header) : list byte :=
  let dst := blit offLength (putU32 (h_length h)) dst in
  let dst := blit offFunc [z2b (h_func h)] dst in
  let dst := blit offSubc [z2b (h_subc h)] dst in
  let dst := blit offNvia [z2b (h_nvia h)] dst in
  let dst := blit offDirf [z2b (h_dirf h)] dst in
  let dst := blit offMsgf [z2b (h_msgf h)] dst in
  let dst := blit offCtlf [z2b (h_ctlf h)] dst in
  let dst := blit offReserved [x00] dst in
  let dst := blit offKeyc [z2b (h_keyc h)] dst in
  let dst := blit offXchg (h_xchg h) dst in
  let dst := blit offRkey (h_rkey h) dst in
  let dst := blit offCkey (putU32 (h_ckey h)) dst in
  let dst := blit offClid (putU32 (h_clid h)) dst in
  let dst := blit offWkey (h_wkey h) dst in
  let dst := blit offChan (h_chan h) dst in
  let dst := blit offErrn (putU32 (h_errn h)) dst in
  let dst := blit offCoff (encodeWhere (h_coffZipf h) (h_coffOff h)) dst in
  let dst := blit offSoff (encodeWhere (h_soffZipf h) (h_soffOff h)) dst in
  let dst := blit offErrm (encodeSzoff (h_errmLen h) (h_errmOff h)) dst in
  let dst := blit offPkey (encodeSzoff (h_pkeyLen h) (h_pkeyOff h)) dst in
  let dst := blit offNkey (encodeSzoff (h_nkeyLen h) (h_nkeyOff h)) dst in
  let dst := blit offBody (encodeWhere (h_bodyZipf h) (h_bodyOff h)) dst in
  blit offTraceID (h_traceID h) dst.

Definition EncodeHeader (dst : list byte) (h : Header) : res FrameErr (list byte) :=
  if (length dst <? HdrSize)%nat then Err ErrFrameTooShort
  else Ok (header_writes dst h).

Definition header_reads (src : list byte) : Header :=
  {| h_length := getU32 (sub offLength 4 src);
     h_func := byte_at src offFunc;
     h_subc := byte_at src offSubc;
     h_nvia := byte_at src offNvia;
     h_dirf := byte_at src offDirf;
     h_msgf := byte_at src offMsgf;
     h_ctlf := byte_at src offCtlf;
     h_keyc := byte_at src offKeyc;
     h_xchg := sub offXchg LXchg src;
     h_rkey := sub offRkey LRkey src;
     h_ckey := getU32 (sub offCkey 4 src);
     h_clid := getU32 (sub offClid 4 src);
     h_wkey := sub offWkey 8 src;
     h_chan := sub offChan 4 src;
     h_errn := getU32 (sub offErrn 4 src);
     h_coffZipf := fst (decodeWhere (sub offCoff 4 src));
     h_coffOff := snd (decodeWhere (sub offCoff 4 src));
     h_soffZipf := fst (decodeWhere (sub offSoff 4 src));
     h_soffOff := snd (decodeWhere (sub offSoff 4 src));
     h_errmLen := fst (decodeSzoff (sub offErrm 4 src));
     h_errmOff := snd (decodeSzoff (sub offErrm 4 src));
     h_pkeyLen := fst (decodeSzoff (sub offPkey 4 src));
     h_pkeyOff := snd (decodeSzoff (sub offPkey 4 src));
     h_nkeyLen := fst (decodeSzoff (sub offNkey 4 src));
     h_nkeyOff := snd (decodeSzoff (sub offNkey 4 src));
     h_bodyZipf := fst (decodeWhere (sub offBody 4 src));
     h_bodyOff := snd (decodeWhere (sub offBody 4 src));
     h_traceID := sub offTraceID TraceIDSize src |}.

Definition DecodeHeader (src : list byte) : res FrameErr Header :=
  if (length src <? HdrSize)%nat then Err ErrFrameTooShort
  else Ok (header_reads src).

(** ** Frame assembly *)

(** [for i := range in.Navis]: encode each entry at its 32-byte slot. *)
Fixpoint encode_navis (off : nat) (buf : list byte) (ns : list Navi) : list byte :=
  match ns with
  | [] => buf
  | n :: ns =>
      let buf := blit off (EncodeNavi (sub off NaviSize buf) n) buf in
      encode_navis (off + NaviSize) buf ns
  end.

Definition EncodeFrame (i : FrameInput) : res FrameErr (list byte) :=
  if (MaxVia <? length (fi_navis i))%nat then Err ErrInvalidNavi else
  if ((LSkey <? length (fi_pkey i)) || (LSkey <? length (fi_nkey i)))%nat
  then Err ErrKeyTooLong else
  let errmLen := length (fi_errMsg i) in
  let pkeyLen := length (fi_pkey i) in
  let nkeyLen := length (fi_nkey i) in
  let cookieLen := if fi_cookie i is Some _ then CookieWire else 0%nat in
  let bodyLen := length (fi_body i) in
  let size := (HdrSize + NaviSize * length (fi_navis i) + errmLen + pkeyLen
               + nkeyLen + cookieLen + bodyLen)%nat in
  if MaxMsgSize <? Z.of_nat size then Err ErrFrameTooLong else
  let buf := replicate size x00 in
  let cur := (HdrSize + NaviSize * length (fi_navis i))%nat in
  (* ERRM *)
  let hasErrm := (0 <? errmLen)%nat in
  let msgf := if hasErrm then Z.lor (fi_msgf i) MsgfErr else fi_msgf i in
  let hErrmLen := if hasErrm then wrap 16 (Z.of_nat errmLen) else 0 in
  let hErrmOff := if hasErrm then wrap 16 (Z.of_nat cur) else 0 in
  let buf := if hasErrm then blit cur (fi_errMsg i) buf else buf in
  let cur := if hasErrm then (cur + errmLen)%nat else cur in
  (* PKEY / NKEY *)
  let hasPkey := (0 <? pkeyLen)%nat in
  let hPkeyLen := if hasPkey then wrap 16 (Z.of_nat pkeyLen) else 0 in
  let hPkeyOff := if hasPkey then wrap 16 (Z.of_nat cur) else 0 in
  let buf := if hasPkey then blit cur (fi_pkey i) buf else buf in
  let cur := if hasPkey then (cur + pkeyLen)%nat else cur in
  let hasNkey := (0 <? nkeyLen)%nat in
  let hNkeyLen := if hasNkey then wrap 16 (Z.of_nat nkeyLen) else 0 in
  let hNkeyOff := if hasNkey then wrap 16 (Z.of_nat cur) else 0 in
  let buf := if hasNkey then blit cur (fi_nkey i) buf else buf in
  let cur := if hasNkey then (cur + nkeyLen)%nat else cur in
  (* COOKIE *)
  let hCoffOff := if fi_cookie i is Some _ then wrap 32 (Z.of_nat cur) else 0 in
  let buf := match fi_cookie i with
             | Some c => blit cur (EncodeCookie (sub cur CookieWire buf) c) buf
             | None => buf end in
  let cur := if fi_cookie i is Some _ then (cur + CookieWire)%nat else cur in
  (* BODY *)
  let hasBody := (0 <? bodyLen)%nat in
  let hBodyOff := if hasBody then wrap 32 (Z.of_nat cur) else 0 in
  let buf := if hasBody then blit cur (fi_body i) buf else buf in
  let cur := if hasBody then (cur + bodyLen)%nat else cur in
  let hdr :=
    {| h_length := wrap 32 (Z.of_nat cur);
       h_func := fi_func i; h_subc := fi_subc i;
       h_nvia := wrap 8 (Z.of_nat (length (fi_navis i)));
       h_dirf := fi_dirf i; h_msgf := msgf; h_ctlf := fi_ctlf i;
       h_keyc := fi_keyc i;
       h_xchg := padCopyString LXchg (fi_xchg i);
       h_rkey := padCopyString LRkey (fi_rkey i);
       h_ckey := fi_ckey i; h_clid := fi_clid i;
       h_wkey := fi_wkey i; h_chan := fi_chan i; h_errn := fi_errn i;
       h_coffZipf := 0; h_coffOff := hCoffOff;
       h_soffZipf := 0; h_soffOff := 0;
       h_errmLen := hErrmLen; h_errmOff := hErrmOff;
       h_pkeyLen := hPkeyLen; h_pkeyOff := hPkeyOff;
       h_nkeyLen := hNkeyLen; h_nkeyOff := hNkeyOff;
       h_bodyZipf := 0; h_bodyOff := hBodyOff;
       h_traceID := fi_traceID i |} in
  hb ← EncodeHeader (sub 0 HdrSize buf) hdr;
  let buf := blit 0 hb buf in
  let buf := encode_navis HdrSize buf (fi_navis i) in
  Ok (sub 0 cur buf).

(** ** Frame parsing *)

Fixpoint decode_navis (n : nat) (off : Z) (frame : list byte) : res FrameErr (list Navi) :=
  match n with
  | O => Ok []
  | S n =>
      b ← slice off (off + Z.of_nat NaviSize) frame;
      rest ← decode_navis n (off + Z.of_nat NaviSize) frame;
      Ok (DecodeNavi b :: rest)
  end.

(** ERRM, PKEY and NKEY are read the same way: skipped when the length or the
    offset is zero, rejected when they end past the frame. *)
Definition read_szoff (len off : Z) (frame : list byte) : res FrameErr (list byte) :=
  if (0 <? len) && (0 <? off) then
    let e := off + len in
    if Z.of_nat (length frame) <? e then Err ErrInvalidOffset else slice off e frame
  else Ok [].

Definition DecodeFrame (frame : list byte) : res FrameErr DecodedFrame :=
  let flen := Z.of_nat (length frame) in
  if (length frame <? HdrSize)%nat then Err ErrFrameTooShort else
  hb ← slice 0 (Z.of_nat HdrSize) frame;
  hdr ← DecodeHeader hb;
  if negb (h_length hdr =? flen) then Err ErrInvalidLength else
  navis ← (if 0 <? h_nvia hdr then
             if Z.of_nat MaxVia <? h_nvia hdr then Err ErrInvalidNavi else
             if flen <? Z.of_nat HdrSize + Z.of_nat NaviSize * h_nvia hdr
             then Err ErrInvalidOffset
             else decode_navis (Z.to_nat (h_nvia hdr)) (Z.of_nat HdrSize) frame
           else Ok []);
  errMsg ← read_szoff (h_errmLen hdr) (h_errmOff hdr) frame;
  pkey ← read_szoff (h_pkeyLen hdr) (h_pkeyOff hdr) frame;
  nkey ← read_szoff (h_nkeyLen hdr) (h_nkeyOff hdr) frame;
  cookie ← (if 0 <? h_coffOff hdr then
              if negb (h_coffZipf hdr =? 0) then Ok None else
              let e := h_coffOff hdr + Z.of_nat CookieWire in
              if flen <? e then Err ErrInvalidOffset else
              b ← slice (h_coffOff hdr) e frame; Ok (Some (DecodeCookie b))
            else Ok None);
  body ← (if 0 <? h_bodyOff hdr then
            if flen <? h_bodyOff hdr then Err ErrInvalidOffset
            else slice (h_bodyOff hdr) flen frame
          else Ok []);
  Ok {| df_header := hdr; df_navis := navis; df_errMsg := errMsg;
        df_pkey := pkey; df_nkey := nkey; df_cookie := cookie;
        df_body := body; df_bodyZipf := h_bodyZipf hdr |}.

(** ** Header lemmas *)

(** What the Go types of [Header] guarantee, plus 24-bit WHERE offsets. *)
Definition wf_header (h : Header) : Prop :=
  (is_uint 32 (h_length h) /\ is_uint 8 (h_func h) /\ is_uint 8 (h_subc h) /\
   is_uint 8 (h_nvia h) /\ is_uint 8 (h_dirf h) /\ is_uint 8 (h_msgf h) /\
   is_uint 8 (h_ctlf h) /\ is_uint 8 (h_keyc h)) /\
  (length (h_xchg h) = LXchg /\ length (h_rkey h) = LRkey /\
   is_uint 32 (h_ckey h) /\ is_uint 32 (h_clid h) /\
   length (h_wkey h) = 8%nat /\ length (h_chan h) = 4%nat /\ is_uint 32 (h_errn h)) /\
  (is_uint 8 (h_coffZipf h) /\ is_uint 24 (h_coffOff h) /\
   is_uint 8 (h_soffZipf h) /\ is_uint 24 (h_soffOff h) /\
   is_uint 16 (h_errmLen h) /\ is_uint 16 (h_errmOff h) /\
   is_uint 16 (h_pkeyLen h) /\ is_uint 16 (h_pkeyOff h) /\
   is_uint 16 (h_nkeyLen h) /\ is_uint 16 (h_nkeyOff h) /\
   is_uint 8 (h_bodyZipf h) /\ is_uint 24 (h_bodyOff h) /\
   length (h_traceID h) = TraceIDSize).

Ltac unfold_offs :=
  unfold offLength, offFunc, offSubc, offNvia, offDirf, offMsgf, offCtlf, offReserved,
    offKeyc, offXchg, offRkey, offCkey, offClid, offWkey, offChan, offErrn, offCoff,
    offSoff, offErrm, offPkey, offNkey, offBody, offTraceID, LXchg, LRkey, TraceIDSize,
    HdrSize in *.

(** Header projections of a header literal, and nothing else. *)
Ltac hdr_proj :=
  cbn [h_length h_func h_subc h_nvia h_dirf h_msgf h_ctlf h_keyc h_xchg h_rkey h_ckey
       h_clid h_wkey h_chan h_errn h_coffZipf h_coffOff h_soffZipf h_soffOff h_errmLen
       h_errmOff h_pkeyLen h_pkeyOff h_nkeyLen h_nkeyOff h_bodyZipf h_bodyOff h_traceID].

Lemma header_writes_length dst h : length (header_writes dst h) = length dst.
Proof. unfold header_writes. by autorewrite with buf. Qed.

Lemma header_reads_writes dst h :
  (HdrSize <= length dst)%nat -> wf_header h ->
  header_reads (header_writes dst h) = h.
Proof.
  intros Hl ((A1 & A2 & A3 & A4 & A5 & A6 & A7 & A8) &
    (B1 & B2 & B3 & B4 & B5 & B6 & B7) &
    (C1 & C2 & C3 & C4 & C5 & C6 & C7 & C8 & C9 & C10 & C11 & C12 & C13)).
  destruct h; cbn in *. unfold header_reads, header_writes; cbn. unfold_offs.
  rewrite (byte_at_sub _ 4), (byte_at_sub _ 5), (byte_at_sub _ 6), (byte_at_sub _ 7),
    (byte_at_sub _ 8), (byte_at_sub _ 9), (byte_at_sub _ 11).
  buf_read_at.
  rewrite !getU32_putU32, !decodeWhere_encodeWhere, !decodeSzoff_encodeSzoff,
    !byte_at_single by done.
  cbn [fst snd]. rewrite !wrap_small by done. done.
Qed.

(** Re-encoding a decoded header gives the original bytes, the reserved byte
    cleared. *)
Lemma header_writes_reads dst src :
  length dst = HdrSize -> length src = HdrSize ->
  header_writes dst (header_reads src) = blit offReserved [x00] src.
Proof.
  intros Hd Hs. unfold HdrSize in *.
  rewrite <-(sub_0_full 100 (header_writes _ _)) by (rewrite header_writes_length; lia).
  rewrite <-(sub_0_full 100 (blit offReserved _ src)) by (rewrite blit_length; lia).
  assert (forall o n, (o + n <= 100)%nat -> length (sub o n src) = n) as L
    by (intros; apply sub_length; lia).
  pose proof (L 12 8 ltac:(lia))%nat. pose proof (L 20 16 ltac:(lia))%nat.
  pose proof (L 44 8 ltac:(lia))%nat. pose proof (L 52 4 ltac:(lia))%nat.
  pose proof (L 84 16 ltac:(lia))%nat.
  unfold header_writes, header_reads. hdr_proj. unfold_offs.
  apply (sub_split_eq 0 4 96). 2: apply (sub_split_eq 4 1 95).
  3: apply (sub_split_eq 5 1 94). 4: apply (sub_split_eq 6 1 93).
  5: apply (sub_split_eq 7 1 92). 6: apply (sub_split_eq 8 1 91).
  7: apply (sub_split_eq 9 1 90). 8: apply (sub_split_eq 10 1 89).
  9: apply (sub_split_eq 11 1 88). 10: apply (sub_split_eq 12 8 80).
  11: apply (sub_split_eq 20 16 64). 12: apply (sub_split_eq 36 4 60).
  13: apply (sub_split_eq 40 4 56). 14: apply (sub_split_eq 44 8 48).
  15: apply (sub_split_eq 52 4 44). 16: apply (sub_split_eq 56 4 40).
  17: apply (sub_split_eq 60 4 36). 18: apply (sub_split_eq 64 4 32).
  19: apply (sub_split_eq 68 4 28). 20: apply (sub_split_eq 72 4 24).
  21: apply (sub_split_eq 76 4 20). 22: apply (sub_split_eq 80 4 16).
  all: cbn [Nat.add]; buf_read_at.
  all: rewrite ?byte_at_z2b, ?(sub_single _ x00) by lia.
  all: rewrite ?putU32_getU32, ?encodeWhere_decodeWhere, ?encodeSzoff_decodeSzoff
    by (apply L; lia); done.
Qed.

Lemma header_reads_uints src :
  let h := header_reads src in
  is_uint 32 (h_length h) /\ is_uint 8 (h_nvia h) /\
  is_uint 16 (h_errmLen h) /\ is_uint 16 (h_errmOff h) /\
  is_uint 16 (h_pkeyLen h) /\ is_uint 16 (h_pkeyOff h) /\
  is_uint 16 (h_nkeyLen h) /\ is_uint 16 (h_nkeyOff h) /\
  is_uint 24 (h_coffOff h) /\ is_uint 24 (h_bodyOff h).
Proof.
  unfold header_reads, decodeSzoff, decodeWhere.
  cbn [h_length h_nvia h_errmLen h_errmOff h_pkeyLen h_pkeyOff h_nkeyLen h_nkeyOff
       h_coffOff h_bodyOff fst snd].
  repeat match goal with |- _ /\ _ => split end;
    first [ simple apply getU16_uint | simple apply getU24_uint
          | simple apply getU32_uint | simple apply byte_at_uint ].
Qed.

Lemma decode_navis_no_panic n off frame :
  0 <= off -> off + Z.of_nat NaviSize * Z.of_nat n <= Z.of_nat (length frame) ->
  no_panic (decode_navis n off frame).
Proof.
  revert off. induction n as [|n IH]; intros off H0 Hl; [done|]. simpl.
  apply no_panic_bind; [apply slice_no_panic; lia|]. intros b _.
  apply no_panic_bind; [apply IH; lia|]. done.
Qed.

Lemma read_szoff_no_panic len off frame :
  is_uint 16 len -> is_uint 16 off -> no_panic (read_szoff len off frame).
Proof.
  intros [? ?] [? ?]. unfold read_szoff. repeat case_if; auto with wtg.
  apply slice_no_panic; bool_lia.
Qed.
#[export] Hint Resolve read_szoff_no_panic : wtg.

(** ** Navigation entries *)
Lemma encode_navis_length off buf ns : length (encode_navis off buf ns) = length buf.
Proof.
  revert off buf. induction ns as [|n ns IH]; intros off buf; [done|].
  simpl. rewrite IH. apply blit_length.
Qed.
#[export] Hint Rewrite encode_navis_length header_writes_length EncodeNavi_length
  EncodeCookie_length : buf.

Lemma encode_navis_sub_ne o n off buf ns :
  (off + NaviSize * length ns <= length buf)%nat ->
  (o + n <= off)%nat \/ (off + NaviSize * length ns <= o)%nat ->
  sub o n (encode_navis off buf ns) = sub o n buf.
Proof.
  change NaviSize with 32%nat.
  revert off buf. induction ns as [|v ns IH]; intros off buf Hl H; [done|].
  cbn [encode_navis length] in *. change NaviSize with 32%nat in *.
  rewrite IH by (rewrite ?blit_length; lia).
  apply sub_blit_ne. rewrite EncodeNavi_length, sub_length by lia. lia.
Qed.

Lemma decode_encode_navis off buf ns :
  (off + NaviSize * length ns <= length buf)%nat -> Forall wf_navi ns ->
  decode_navis (length ns) (Z.of_nat off) (encode_navis off buf ns) = Ok ns.
Proof.
  change NaviSize with 32%nat.
  revert off buf. induction ns as [|v ns IH]; intros off buf Hl H; [done|].
  apply Forall_cons in H as [Hv Hns].
  cbn [length encode_navis decode_navis] in *. change NaviSize with 32%nat in *.
  replace (Z.of_nat off + Z.of_nat 32) with (Z.of_nat (off + 32)) by lia.
  rewrite IH by (rewrite ?blit_length; auto; lia).
  rewrite slice_ok by (rewrite ?encode_navis_length, ?blit_length; lia).
  rewrite Nat2Z.id.
  replace (Z.to_nat (Z.of_nat (off + 32) - Z.of_nat off)) with 32%nat by lia. cbn.
  rewrite encode_navis_sub_ne
    by (change NaviSize with 32%nat; rewrite ?blit_length; lia).
  rewrite sub_blit_same by (rewrite ?EncodeNavi_length, ?sub_length; lia).
  rewrite DecodeNavi_EncodeNavi; [done| |done].
  change NaviSize with 32%nat. rewrite sub_length; lia.
Qed.
