(* ===== verification/FrameLaws.v ===== *)
(** Laws of the MyMQ frame codec: a frame assembled by [EncodeFrame] parses
    back to its content, parsing never panics, and the limits of the 16-bit
    index fields. *)

From Stdlib Require Import ZArith Lia.
From S2P Require Import Prelude Codec Frame.
Local Open Scope Z_scope.

(** ** The layout of an assembled frame *)
Section layout.
Context (i : FrameInput).

Definition off_errm : nat := HdrSize + NaviSize * length (fi_navis i).
Definition off_pkey : nat := off_errm + length (fi_errMsg i).
Definition off_nkey : nat := off_pkey + length (fi_pkey i).
Definition off_cookie : nat := off_nkey + length (fi_nkey i).
Definition cookie_len : nat := if fi_cookie i is Some _ then CookieWire else 0.
Definition off_body : nat := off_cookie + cookie_len.
Definition frame_size : nat := off_body + length (fi_body i).

(** An index field is written only for a non-empty section. *)
Definition idx (w : Z) (len : nat) (v : nat) : Z :=
  if (0 <? len)%nat then wrap w (Z.of_nat v) else 0.

Definition frame_hdr : Header :=
  {| h_length := wrap 32 (Z.of_nat frame_size);
     h_func := fi_func i; h_subc := fi_subc i;
     h_nvia := wrap 8 (Z.of_nat (length (fi_navis i)));
     h_dirf := fi_dirf i;
     h_msgf := if (0 <? length (fi_errMsg i))%nat
               then Z.lor (fi_msgf i) MsgfErr else fi_msgf i;
     h_ctlf := fi_ctlf i; h_keyc := fi_keyc i;
     h_xchg := padCopyString LXchg (fi_xchg i);
     h_rkey := padCopyString LRkey (fi_rkey i);
     h_ckey := fi_ckey i; h_clid := fi_clid i;
     h_wkey := fi_wkey i; h_chan := fi_chan i; h_errn := fi_errn i;
     h_coffZipf := 0; 
     h_coffOff := if fi_cookie i is Some _ then wrap 32 (Z.of_nat off_cookie) else 0;
     h_soffZipf := 0; h_soffOff := 0;
     h_errmLen := idx 16 (length (fi_errMsg i)) (length (fi_errMsg i));
     h_errmOff := idx 16 (length (fi_errMsg i)) off_errm;
     h_pkeyLen := idx 16 (length (fi_pkey i)) (length (fi_pkey i));
     h_pkeyOff := idx 16 (length (fi_pkey i)) off_pkey;
     h_nkeyLen := idx 16 (length (fi_nkey i)) (length (fi_nkey i));
     h_nkeyOff := idx 16 (length (fi_nkey i)) off_nkey;
     h_bodyZipf := 0; h_bodyOff := idx 32 (length (fi_body i)) off_body;
     h_traceID := fi_traceID i |}.

(** The variable area, before the header and the entries are written. *)
Definition frame_area : list byte :=
  let buf := blit off_errm (fi_errMsg i) (replicate frame_size x00) in
  let buf := blit off_pkey (fi_pkey i) buf in
  let buf := blit off_nkey (fi_nkey i) buf in
  let buf := match fi_cookie i with
             | Some c => blit off_cookie (EncodeCookie (sub off_cookie CookieWire buf) c) buf
             | None => buf end in
  blit off_body (fi_body i) buf.

Definition frame_bytes : list byte :=
  encode_navis HdrSize
    (blit 0 (header_writes (sub 0 HdrSize frame_area) frame_hdr) frame_area)
    (fi_navis i).

Lemma frame_area_length : length frame_area = frame_size.
Proof.
  unfold frame_area. destruct (fi_cookie i); by autorewrite with buf.
Qed.

Lemma frame_bytes_length : length frame_bytes = frame_size.
Proof. unfold frame_bytes. autorewrite with buf. apply frame_area_length. Qed.

(** The guards of [EncodeFrame]. *)
Definition encodable : Prop :=
  (length (fi_navis i) <= MaxVia)%nat /\ (length (fi_pkey i) <= LSkey)%nat /\
  (length (fi_nkey i) <= LSkey)%nat /\ Z.of_nat frame_size <= MaxMsgSize.

Lemma EncodeFrame_eq : encodable -> EncodeFrame i = Ok frame_bytes.
Proof.
  intros (Hn & Hp & Hk & Hs).
  unfold EncodeFrame. rewrite (proj2 (Nat.ltb_ge _ _) Hn).
  rewrite (proj2 (Nat.ltb_ge _ _) Hp), (proj2 (Nat.ltb_ge _ _) Hk). cbn [orb].
  rewrite !blit_if, !add_if. fold off_errm. fold off_pkey. fold off_nkey.
  fold off_cookie. fold cookie_len.
  assert ((if fi_cookie i is Some _ then off_cookie + CookieWire else off_cookie)%nat
          = off_body) as ->
    by (unfold off_body, cookie_len; destruct (fi_cookie i); lia).
  fold off_body frame_size.
  rewrite (proj2 (Z.ltb_ge _ _) Hs).
  change (blit off_body (fi_body i) _) with frame_area. unfold EncodeHeader.
  assert (HdrSize <= frame_size)%nat
    by (unfold frame_size, off_body, off_cookie, off_nkey, off_pkey, off_errm; lia).
  rewrite sub_length, Nat.ltb_irrefl by (rewrite frame_area_length; lia).
  cbn [mbind res_bind]. f_equal. apply sub_0_full.
  by rewrite frame_bytes_length.
Qed.

(** Each section of the assembled frame holds its content. *)
Lemma frame_bytes_sub o n :
  (off_errm <= o)%nat -> sub o n frame_bytes = sub o n frame_area.
Proof.
  unfold off_errm. intros Ho. unfold frame_bytes.
  pose proof frame_area_length as Hl.
  unfold frame_size, off_body, off_cookie, off_nkey, off_pkey, off_errm in Hl.
  rewrite encode_navis_sub_ne by (rewrite ?blit_length; lia).
  apply sub_blit_ne. rewrite header_writes_length, sub_length; lia.
Qed.

Lemma frame_bytes_header : sub 0 HdrSize frame_bytes = header_writes (sub 0 HdrSize frame_area) frame_hdr.
Proof.
  pose proof frame_area_length as Hl.
  unfold frame_size, off_body, off_cookie, off_nkey, off_pkey, off_errm in Hl.
  unfold frame_bytes. rewrite encode_navis_sub_ne by (rewrite ?blit_length; lia).
  apply sub_blit_same; rewrite ?header_writes_length, ?sub_length; lia.
Qed.

(** The bytes of the cookie section. *)
Definition cookie_bytes : list byte :=
  match fi_cookie i with
  | Some c => EncodeCookie (sub off_cookie CookieWire
      (blit off_nkey (fi_nkey i) (blit off_pkey (fi_pkey i)
        (blit off_errm (fi_errMsg i) (replicate frame_size x00))))) c
  | None => [] end.

Lemma cookie_bytes_length : length cookie_bytes = cookie_len.
Proof.
  unfold cookie_bytes, cookie_len, frame_size, off_body, cookie_len.
  destruct (fi_cookie i); [|done]. rewrite EncodeCookie_length, sub_length; [done|].
  autorewrite with buf. lia.
Qed.

Lemma frame_area_eq : frame_area =
  blit off_body (fi_body i) (blit off_cookie cookie_bytes (blit off_nkey (fi_nkey i)
    (blit off_pkey (fi_pkey i) (blit off_errm (fi_errMsg i) (replicate frame_size x00))))).
Proof. unfold frame_area, cookie_bytes. by destruct (fi_cookie i). Qed.

Ltac area_side :=
  autorewrite with buf; rewrite ?cookie_bytes_length;
  unfold frame_size, off_body, off_cookie, off_nkey, off_pkey; lia.
Ltac area :=
  rewrite frame_bytes_sub, frame_area_eq by area_side;
  repeat match goal with
  | |- context [sub ?o ?n (blit ?p ?s ?l)] =>
      first [ rewrite (sub_blit_same o n s l) by area_side
            | rewrite (sub_blit_ne o n p s l) by area_side ]
  end.

Lemma frame_errm : sub off_errm (length (fi_errMsg i)) frame_bytes = fi_errMsg i.
Proof. area. done. Qed.
Lemma frame_pkey : sub off_pkey (length (fi_pkey i)) frame_bytes = fi_pkey i.
Proof. area. done. Qed.
Lemma frame_nkey : sub off_nkey (length (fi_nkey i)) frame_bytes = fi_nkey i.
Proof. area. done. Qed.
Lemma frame_body : sub off_body (length (fi_body i)) frame_bytes = fi_body i.
Proof. area. done. Qed.
Lemma frame_cookie c :
  fi_cookie i = Some c -> wf_cookie c ->
  DecodeCookie (sub off_cookie CookieWire frame_bytes) = c.
Proof.
  intros Hc Hw. assert (cookie_len = CookieWire) as El by (unfold cookie_len; by rewrite Hc).
  rewrite <-El. area. unfold cookie_bytes. rewrite Hc.
  apply DecodeCookie_EncodeCookie; [|done]. rewrite sub_length; [done|].
  autorewrite with buf. unfold frame_size, off_body. rewrite El. lia.
Qed.
End layout.

(** ** Round trip *)

(** What the Go types of [FrameInput] and of its parts guarantee. *)
Definition wf_input (i : FrameInput) : Prop :=
  (is_uint 8 (fi_func i) /\ is_uint 8 (fi_subc i) /\ is_uint 8 (fi_dirf i) /\
   is_uint 8 (fi_keyc i) /\ is_uint 8 (fi_msgf i) /\ is_uint 8 (fi_ctlf i)) /\
  (is_uint 32 (fi_ckey i) /\ is_uint 32 (fi_clid i) /\ is_uint 32 (fi_errn i)) /\
  (length (fi_wkey i) = 8%nat /\ length (fi_chan i) = 4%nat /\
   length (fi_traceID i) = TraceIDSize) /\
  Forall wf_navi (fi_navis i) /\
  (forall c, fi_cookie i = Some c -> wf_cookie c).

(** The last 16-bit index, [NkeyOff], does not wrap. *)
Definition index_fits (i : FrameInput) : Prop := is_uint 16 (Z.of_nat (off_nkey i)).

Definition frame_view (i : FrameInput) : DecodedFrame :=
  {| df_header := frame_hdr i; df_navis := fi_navis i; df_errMsg := fi_errMsg i;
     df_pkey := fi_pkey i; df_nkey := fi_nkey i; df_cookie := fi_cookie i;
     df_body := fi_body i; df_bodyZipf := 0 |}.

Arguments idx : simpl never.

Lemma is_uint_lor w a b : 0 <= w -> is_uint w a -> is_uint w b -> is_uint w (Z.lor a b).
Proof.
  unfold is_uint. intros Hw Ha Hb.
  assert (0 <= Z.lor a b) by (apply Z.lor_nonneg; lia). split; [done|].
  apply Z.bounded_iff_bits_nonneg; [done..|]. intros k Hk.
  rewrite Z.lor_spec, (proj1 (Z.bounded_iff_bits_nonneg w a ltac:(lia) ltac:(lia)) ltac:(lia) k Hk).
  apply (proj1 (Z.bounded_iff_bits_nonneg w b ltac:(lia) ltac:(lia)) ltac:(lia) k Hk).
Qed.

Lemma idx_uint w len v : 0 <= w -> is_uint w (idx w len v).
Proof.
  intros Hw. unfold idx. case_if; [by apply wrap_is_uint|].
  unfold is_uint. pose proof (Z.pow_pos_nonneg 2 w). lia.
Qed.

Lemma off_bounds i :
  encodable i ->
  (off_errm i <= off_pkey i <= off_nkey i)%nat /\
  (off_nkey i <= off_cookie i <= off_body i)%nat /\
  (off_body i <= frame_size i)%nat /\ Z.of_nat (frame_size i) < 2 ^ 24 /\
  (HdrSize <= off_errm i)%nat /\ Z.of_nat (length (fi_navis i)) <= 16.
Proof.
  intros (Hn & _ & _ & Hs). unfold MaxMsgSize, MaxVia, NaviSize, HdrSize in *. norm_pow.
  unfold frame_size, off_body, off_cookie, off_nkey, off_pkey, off_errm, HdrSize, NaviSize in *.
  lia.
Qed.

Lemma frame_hdr_wf i : encodable i -> wf_input i -> wf_header (frame_hdr i).
Proof.
  intros He ((A1 & A2 & A3 & A4 & A5 & A6) & (B1 & B2 & B3) & (L1 & L2 & L3) & _ & _).
  pose proof (off_bounds i He) as (O1 & O2 & O3 & O4 & O5 & O6).
  assert (forall v, Z.of_nat v < 2 ^ 24 -> is_uint 24 (wrap 32 (Z.of_nat v))) as W.
  { intros v Hv. rewrite wrap_small; unfold is_uint; norm_pow; lia. }
  unfold wf_header, frame_hdr. hdr_proj. rewrite !padCopyString_length.
  repeat match goal with |- _ /\ _ => split end; try done.
  1: apply wrap_is_uint; lia.
  1: apply wrap_is_uint; lia.
  1: case_if; [apply is_uint_lor; [lia|done|by vm_compute]|done].
  1: destruct (fi_cookie i); [apply W; lia|done].
  1-6: apply idx_uint; lia.
  unfold idx. case_if; [apply W; lia|done].
Qed.

Lemma read_szoff_idx off n frame :
  is_uint 16 (Z.of_nat n) -> is_uint 16 (Z.of_nat off) -> (0 < off)%nat ->
  (off + n <= length frame)%nat ->
  read_szoff (idx 16 n n) (idx 16 n off) frame = Ok (sub off n frame).
Proof.
  intros Hn Ho H0 Hl. unfold read_szoff, idx. destruct n as [|n]; [done|].
  replace ((0 <? S n)%nat) with true by done.
  rewrite !wrap_small by done. rewrite !(proj2 (Z.ltb_lt _ _)) by lia. cbn [andb].
  rewrite (proj2 (Z.ltb_ge _ _)) by lia. rewrite slice_ok by lia.
  do 2 f_equal; lia.
Qed.

(** The sections of an assembled frame, as [DecodeFrame] reads them. *)
Section sections.
Context (i : FrameInput) (He : encodable i) (Hw : wf_input i).
Let fb := frame_bytes i.

Lemma navis_section :
  (if 0 <? h_nvia (frame_hdr i) then
     if Z.of_nat MaxVia <? h_nvia (frame_hdr i) then Err ErrInvalidNavi else
     if Z.of_nat (length fb) <? Z.of_nat HdrSize + Z.of_nat NaviSize * h_nvia (frame_hdr i)
     then Err ErrInvalidOffset
     else decode_navis (Z.to_nat (h_nvia (frame_hdr i))) (Z.of_nat HdrSize) fb
   else Ok []) = Ok (fi_navis i).
Proof using He Hw.
  pose proof (off_bounds i He) as (O1 & O2 & O3 & O4 & O5 & O6).
  pose proof (frame_bytes_length i) as Hl. subst fb.
  destruct Hw as (_ & _ & _ & Hnav & _).
  unfold frame_hdr. hdr_proj. rewrite wrap_small by (unfold is_uint; norm_pow; lia).
  destruct (fi_navis i) as [|n ns] eqn:E; [done|]. rewrite <-E in *.
  rewrite (proj2 (Z.ltb_lt 0 _)) by (rewrite E; simpl; lia).
  rewrite (proj2 (Z.ltb_ge _ _)) by (unfold MaxVia; lia).
  assert (HdrSize + NaviSize * length (fi_navis i) <= frame_size i)%nat
    by (unfold off_errm in *; lia).
  rewrite (proj2 (Z.ltb_ge _ _)) by lia. rewrite Nat2Z.id.
  unfold frame_bytes. apply decode_encode_navis; [|done].
  rewrite blit_length, frame_area_length. lia.
Qed.

Lemma szoff_sections :
  index_fits i ->
  read_szoff (h_errmLen (frame_hdr i)) (h_errmOff (frame_hdr i)) fb = Ok (fi_errMsg i) /\
  read_szoff (h_pkeyLen (frame_hdr i)) (h_pkeyOff (frame_hdr i)) fb = Ok (fi_pkey i) /\
  read_szoff (h_nkeyLen (frame_hdr i)) (h_nkeyOff (frame_hdr i)) fb = Ok (fi_nkey i).
Proof using He.
  intros Ho. pose proof (off_bounds i He) as (O1 & O2 & O3 & O4 & O5 & O6).
  pose proof (frame_bytes_length i) as Hl. subst fb. destruct He as (_ & _ & Hk & _).
  unfold frame_hdr. hdr_proj. unfold index_fits, is_uint, LSkey, HdrSize in *. norm_pow.
  rewrite !read_szoff_idx;
    [ by rewrite frame_errm, frame_pkey, frame_nkey |..];
    unfold is_uint; norm_pow;
    unfold off_body, off_cookie, off_nkey, off_pkey in *; lia.
Qed.

Lemma cookie_section :
  (if 0 <? h_coffOff (frame_hdr i) then
     if negb (h_coffZipf (frame_hdr i) =? 0) then Ok None else
     let e := h_coffOff (frame_hdr i) + Z.of_nat CookieWire in
     if Z.of_nat (length fb) <? e then Err ErrInvalidOffset else
     b ← slice (h_coffOff (frame_hdr i)) e fb; Ok (Some (DecodeCookie b))
   else Ok None) = @Ok FrameErr _ (fi_cookie i).
Proof using He Hw.
  pose proof (off_bounds i He) as (O1 & O2 & O3 & O4 & O5 & O6).
  pose proof (frame_bytes_length i) as Hl. subst fb.
  destruct Hw as (_ & _ & _ & _ & Hck).
  unfold frame_hdr. hdr_proj.
  destruct (fi_cookie i) as [c|] eqn:E; [|done].
  assert (off_cookie i + CookieWire <= frame_size i)%nat.
  { unfold frame_size, off_body, cookie_len. rewrite E. lia. }
  rewrite wrap_small by (unfold is_uint; norm_pow; lia).
  rewrite (proj2 (Z.ltb_lt 0 _)) by (unfold HdrSize in *; lia). cbn [negb Z.eqb].
  rewrite (proj2 (Z.ltb_ge _ _)) by lia. rewrite slice_ok by lia.
  rewrite Nat2Z.id. cbn [mbind res_bind].
  replace (Z.to_nat _) with CookieWire by lia.
  rewrite (frame_cookie i c) by auto. done.
Qed.

Lemma body_section :
  (if 0 <? h_bodyOff (frame_hdr i) then
     if Z.of_nat (length fb) <? h_bodyOff (frame_hdr i) then Err ErrInvalidOffset
     else slice (h_bodyOff (frame_hdr i)) (Z.of_nat (length fb)) fb
   else Ok []) = Ok (fi_body i).
Proof using He.
  pose proof (off_bounds i He) as (O1 & O2 & O3 & O4 & O5 & O6).
  pose proof (frame_bytes_length i) as Hl. subst fb.
  unfold frame_hdr. hdr_proj. unfold idx.
  destruct (fi_body i) as [|c l] eqn:E; [done|]. rewrite <-E.
  replace (0 <? length (fi_body i))%nat with true by (by rewrite E).
  rewrite wrap_small by (unfold is_uint; norm_pow; lia).
  rewrite (proj2 (Z.ltb_lt 0 _)) by (unfold HdrSize in *; lia).
  rewrite (proj2 (Z.ltb_ge _ _)) by lia. rewrite slice_ok by lia.
  rewrite Nat2Z.id, Hl. replace (Z.to_nat _) with (length (fi_body i)).
  { by rewrite frame_body. }
  unfold frame_size. lia.
Qed.
End sections.

(** [DecodeFrame] on an assembled frame: the header, the entries, the cookie
    and the body always come back; the three indexed sections as they read. *)
Lemma DecodeFrame_assembled i em pk nk :
  encodable i -> wf_input i ->
  read_szoff (h_errmLen (frame_hdr i)) (h_errmOff (frame_hdr i)) (frame_bytes i) = Ok em ->
  read_szoff (h_pkeyLen (frame_hdr i)) (h_pkeyOff (frame_hdr i)) (frame_bytes i) = Ok pk ->
  read_szoff (h_nkeyLen (frame_hdr i)) (h_nkeyOff (frame_hdr i)) (frame_bytes i) = Ok nk ->
  DecodeFrame (frame_bytes i) =
    Ok {| df_header := frame_hdr i; df_navis := fi_navis i; df_errMsg := em;
          df_pkey := pk; df_nkey := nk; df_cookie := fi_cookie i;
          df_body := fi_body i; df_bodyZipf := 0 |}.
Proof.
  intros He Hw Hem Hpk Hnk. pose proof (off_bounds i He) as (O1 & O2 & O3 & O4 & O5 & O6).
  pose proof (frame_bytes_length i) as Hl.
  unfold DecodeFrame, DecodeHeader.
  rewrite (proj2 (Nat.ltb_ge _ _)) by lia. rewrite slice_ok by lia.
  rewrite Z.sub_0_r, Nat2Z.id. change (Z.to_nat 0) with 0%nat. cbn [mbind res_bind].
  rewrite frame_bytes_header, header_writes_length, sub_length
    by (rewrite ?frame_area_length; lia).
  rewrite Nat.ltb_irrefl. cbn [mbind res_bind].
  rewrite header_reads_writes
    by (rewrite ?sub_length; rewrite ?frame_area_length; auto using frame_hdr_wf; lia).
  replace (h_length (frame_hdr i) =? _) with true.
  2: { symmetry. apply Z.eqb_eq. rewrite Hl. apply wrap_small.
       unfold is_uint. norm_pow. lia. }
  cbn [negb]. rewrite Hem, Hpk, Hnk.
  pose proof (cookie_section i He Hw) as Hc. cbn [mbind res_bind] in Hc |- *.
  rewrite (navis_section i He Hw), Hc, (body_section i He). done.
Qed.

(** ** Parsing never panics *)
Lemma DecodeFrame_safe frame : no_panic (DecodeFrame frame).
Proof.
  unfold DecodeFrame. case_if; [done|].
  apply Nat.ltb_ge in E. apply no_panic_bind; [apply slice_no_panic; lia|].
  intros hb Hhb. unfold DecodeHeader. apply no_panic_bind; [by case_if|].
  intros hdr Hhdr. case_in Hhdr. injection Hhdr as <-.
  destruct (header_reads_uints hb) as (_ & Hnv & U1 & U2 & U3 & U4 & U5 & U6 & Hco & Hbo).
  set (hdr := header_reads hb) in *. clearbody hdr.
  case_if; [done|]. unfold is_uint in Hnv, Hco, Hbo.
  apply no_panic_bind.
  { repeat case_if; auto with wtg. apply decode_navis_no_panic; bool_lia. }
  intros navis _. apply no_panic_bind; [auto with wtg|].
  intros errm _. apply no_panic_bind; [auto with wtg|].
  intros pkey _. apply no_panic_bind; [auto with wtg|].
  intros nkey _. apply no_panic_bind.
  { repeat case_if; auto with wtg.
    apply no_panic_bind; [apply slice_no_panic; bool_lia|auto with wtg]. }
  intros ck _. apply no_panic_bind; [|auto with wtg].
  repeat case_if; auto with wtg. apply slice_no_panic; bool_lia.
Qed.

(** ** Claims *)

(** C1. Round trip of the frame codec: for every input that passes the guards of
    [EncodeFrame] and whose 16-bit indexes do not wrap, [EncodeFrame] returns
    a frame, and [DecodeFrame] of that frame returns exactly the entries, the
    error message, the keys, the cookie and the body that were given, with
    the header that describes them. *)
Theorem EncodeFrame_roundtrip (i : FrameInput) :
  encodable i -> wf_input i -> index_fits i ->
  exists frame, EncodeFrame i = Ok frame /\ DecodeFrame frame = Ok (frame_view i).
Proof.
  intros He Hw Ho. exists (frame_bytes i). split; [by apply EncodeFrame_eq|].
  destruct (szoff_sections i He Ho) as (? & ? & ?). by apply DecodeFrame_assembled.
Qed.

Definition ex_navi : Navi :=
  mkNavi (padCopyString 8 [x4f; x52; x44]) (padCopyString 16 [x4e]) 77 1 0 2 3.
Definition ex_cookie : Cookie :=
  mkCookie (padCopyString 16 [x75]) (padCopyString 12 []) (padCopyString 24 [])
    (padCopyString 20 []) (padCopyString 20 []) 9 (padCopyString 256 [x41]).
Definition ex_input : FrameInput :=
  mkFrameInput 10 0 1 83 4 0 [x4f; x52; x44; x45; x52] [x4e; x45; x57] 305419896 5
    (replicate 8 x00) (replicate 4 x20) (replicate 16 x07) [ex_navi] 1020
    [x61; x75; x74; x68] [x70; x31] [x6e] (Some ex_cookie) [xde; xad; xbe; xef].

Lemma ex_input_ok : encodable ex_input /\ wf_input ex_input /\ index_fits ex_input.
Proof.
  split; [|split].
  - repeat split; vm_compute; lia || discriminate.
  - unfold wf_input, ex_input, wf_navi.
    cbn [fi_func fi_subc fi_dirf fi_keyc fi_msgf fi_ctlf fi_ckey fi_clid fi_errn fi_wkey
         fi_chan fi_traceID fi_navis fi_cookie].
    wf_const; [apply Forall_singleton; wf_const|].
    intros c [= <-]. unfold wf_cookie. wf_const.
  - unfold index_fits. wf_const.
Qed.

Lemma EncodeFrame_roundtrip_witness :
  exists frame, EncodeFrame ex_input = Ok frame /\ DecodeFrame frame = Ok (frame_view ex_input).
Proof.
  destruct ex_input_ok as (? & ? & ?). by apply (EncodeFrame_roundtrip ex_input).
Defined.

(** Safety of the parser: whatever bytes arrive, [DecodeFrame] returns a
    frame or an error; no slice expression is ever out of range. *)
Theorem DecodeFrame_never_panics (frame : list byte) : no_panic (DecodeFrame frame).
Proof. apply DecodeFrame_safe. Qed.

(** Header canonicity: decoding a 100-byte header and encoding it again into
    any 100-byte buffer restores the same bytes, except that the reserved
    byte (offset 10) is cleared. *)
Theorem header_reencode (dst src : list byte) :
  length dst = HdrSize -> length src = HdrSize ->
  (DecodeHeader src ≫= EncodeHeader dst) = Ok (blit offReserved [x00] src).
Proof.
  intros Hd Hs. unfold DecodeHeader, EncodeHeader.
  rewrite Hs, Hd, Nat.ltb_irrefl. cbn [mbind res_bind]. by rewrite header_writes_reads.
Qed.

Lemma header_reencode_witness :
  (DecodeHeader (replicate 100 x11) ≫= EncodeHeader (replicate 100 x00)) =
    Ok (blit offReserved [x00] (replicate 100 x11)).
Proof. apply (header_reencode (replicate 100 x00) (replicate 100 x11)); reflexivity. Defined.

(** Limit of the error-message index: an error message of 65536 bytes is
    accepted by [EncodeFrame] although its 16-bit length field wraps to zero,
    so the receiver reads a frame flagged as an error ([MsgfErr]) with an
    empty message. *)
Theorem errMsg_length_wraps (i : FrameInput) :
  encodable i -> wf_input i ->
  Z.of_nat (length (fi_errMsg i)) = 65536 -> fi_pkey i = [] -> fi_nkey i = [] ->
  exists frame df, EncodeFrame i = Ok frame /\ DecodeFrame frame = Ok df /\
    df_errMsg df = [] /\ Z.testbit (h_msgf (df_header df)) 0 = true.
Proof.
  intros He Hw Hl Hp Hn. exists (frame_bytes i). eexists.
  split; [by apply EncodeFrame_eq|]. split.
  - apply (DecodeFrame_assembled i [] [] []); [done..| | |];
      unfold frame_hdr; hdr_proj; unfold idx; rewrite ?Hp, ?Hn; try done.
    destruct (length (fi_errMsg i)) eqn:E; [lia|]. by rewrite Hl.
  - cbn [df_errMsg df_header]. split; [done|]. unfold frame_hdr. hdr_proj.
    destruct (length (fi_errMsg i)); [lia|]. cbn [Nat.ltb Nat.leb].
    rewrite Z.lor_spec. apply orb_true_r.
Qed.

Definition ex_long_err : FrameInput :=
  mkFrameInput 10 1 3 83 0 0 [] [] 1 1 (replicate 8 x00) (replicate 4 x20)
    (replicate 16 x00) [] 1000 (replicate (Z.to_nat 65536) x45) [] [] None [].

Lemma errMsg_length_wraps_witness :
  exists frame df, EncodeFrame ex_long_err = Ok frame /\ DecodeFrame frame = Ok df /\
    df_errMsg df = [] /\ Z.testbit (h_msgf (df_header df)) 0 = true.
Proof.
  assert (Z.of_nat (length (fi_errMsg ex_long_err)) = 65536) as E.
  { unfold ex_long_err, fi_errMsg. rewrite length_replicate. reflexivity. }
  apply (errMsg_length_wraps ex_long_err); [| |exact E|reflexivity|reflexivity].
  - repeat split; try (cbn; lia). unfold frame_size, off_body, off_cookie, off_nkey, off_pkey.
    rewrite !Nat2Z.inj_add, E. vm_compute. discriminate.
  - unfold wf_input. cbn [ex_long_err fi_func fi_subc fi_dirf fi_keyc fi_msgf fi_ctlf fi_ckey
      fi_clid fi_errn fi_wkey fi_chan fi_traceID fi_navis fi_cookie].
    wf_const; [constructor|discriminate].
Defined.
