(* ===== verification/Lzo.v ===== *)
(** LZO1X decompression (src/pkg/mymq/lzo.go) and the body decompression that
    dispatches to it (src/pkg/mymq/compress.go).

    The decoder's indexes are modelled by what they delimit: [rest] is
    [in[ip:]] and [out] is [out[:op]], so [ip+cnt > n] reads
    [length rest < cnt] and [op+cnt > len(out)] reads
    [origSize < length out + cnt].  The output buffer is zero-initialised.

    The laws follow the definitions. *)

From Stdlib Require Import ZArith Lia.
From S2P Require Import Prelude Codec.
Local Open Scope Z_scope.

Inductive LzoErr := ErrLZOCorrupt | ErrLZOOutputMismatch.

#[export] Instance LzoErr_eq_dec : EqDecision LzoErr.
Proof. solve_decision. Defined.

Section decoder.
Context (origSize : Z).

(** The closures return [ok = false]; the loop turns it into the error. *)
Definition orCorrupt {A} (o : option A) : res LzoErr A :=
  match o with Some a => Ok a | None => Err ErrLZOCorrupt end.

Definition readU8 (rest : list byte) : option (Z * list byte) :=
  match rest with [] => None | b :: r => Some (b2z b, r) end.

Fixpoint extendLen (base t : Z) (rest : list byte) : option (Z * list byte) :=
  match rest with
  | [] => None
  | b :: r =>
      if b2z b =? 0 then
        let t := t + 255 in
        if origSize <? t then None else extendLen base t r
      else Some (t + base + b2z b, r)
  end.

Definition copyLit (cnt : Z) (rest out : list byte) : option (list byte * list byte) :=
  if (cnt <? 0) || (zlen rest <? cnt) || (origSize <? zlen out + cnt) then None
  else Some (drop (Z.to_nat cnt) rest, out ++ take (Z.to_nat cnt) rest).

(** [for i := 0; i < cnt; i++ { out[op] = out[mp]; op++; mp++ }] *)
Fixpoint copy_bytes (cnt mp : nat) (out : list byte) : list byte :=
  match cnt with
  | O => out
  | S cnt => copy_bytes cnt (S mp) (out ++ [nth mp out x00])
  end.

Definition copyMatch (dist cnt : Z) (out : list byte) : option (list byte) :=
  let mp := zlen out - dist in
  if (mp <? 0) || (origSize <? zlen out + cnt) then None
  else Some (copy_bytes (Z.to_nat cnt) (Z.to_nat mp) out).

Inductive outcome :=
| Continue (state : Z) (rest out : list byte)
| Finished (out : list byte).

(** The end of the loop body: copy the match, then the trailing literals
    whose number is in the low bits of [trailSrc]. *)
Definition finish_match (dist cnt trailSrc : Z) (rest out : list byte) : res LzoErr outcome :=
  out ← orCorrupt (copyMatch dist cnt out);
  let state := Z.land trailSrc 3 in
  if 0 <? state then
    '(rest, out) ← orCorrupt (copyLit state rest out); Ok (Continue state rest out)
  else Ok (Continue state rest out).

(** One iteration of the decoding loop. *)
Definition lzo_step (state : Z) (rest out : list byte) : res LzoErr outcome :=
  '(t, rest) ← orCorrupt (readU8 rest);
  if t <? 16 then
    if state =? 0 then
      '(cnt, rest) ← (if t =? 0 then orCorrupt (extendLen 15 0 rest) else Ok (t, rest));
      '(rest, out) ← orCorrupt (copyLit (cnt + 3) rest out);
      Ok (Continue 4 rest out)
    else if state =? 4 then
      '(b2, rest) ← orCorrupt (readU8 rest);
      finish_match (Z.shiftr t 2 + Z.shiftl b2 2 + 2049) 3 t rest out
    else
      '(b2, rest) ← orCorrupt (readU8 rest);
      finish_match (Z.shiftr t 2 + Z.shiftl b2 2 + 1) 2 t rest out
  else if 64 <=? t then
    '(b2, rest) ← orCorrupt (readU8 rest);
    finish_match (Z.land (Z.shiftr t 2) 7 + Z.shiftl b2 3 + 1) (Z.shiftr t 5 + 1) t rest out
  else if 32 <=? t then
    '(cnt, rest) ← (if Z.land t 31 =? 0 then orCorrupt (extendLen 31 0 rest)
                    else Ok (Z.land t 31, rest));
    let cnt := cnt + 2 in
    '(ds1, rest) ← orCorrupt (readU8 rest);
    '(ds2, rest) ← orCorrupt (readU8 rest);
    finish_match (Z.shiftr ds1 2 + Z.shiftl ds2 6 + 1) cnt ds1 rest out
  else
    let distHigh := Z.shiftl (Z.land t 8) 11 in
    '(cnt, rest) ← (if Z.land t 7 =? 0 then orCorrupt (extendLen 7 0 rest)
                    else Ok (Z.land t 7, rest));
    let cnt := cnt + 2 in
    '(ds1, rest) ← orCorrupt (readU8 rest);
    '(ds2, rest) ← orCorrupt (readU8 rest);
    let d := Z.shiftr ds1 2 + Z.shiftl ds2 6 in
    if (distHigh =? 0) && (d =? 0) then
      if negb (zlen rest =? 0) then Err ErrLZOCorrupt
      else if negb (zlen out =? origSize) then Err ErrLZOOutputMismatch
      else Ok (Finished out)
    else finish_match (distHigh + d + 0x4000) cnt ds1 rest out.

(** The loop; [None] is running out of fuel. *)
Fixpoint lzo_loop (fuel : nat) (state : Z) (rest out : list byte) : option (res LzoErr (list byte)) :=
  match fuel with
  | O => None
  | S fuel =>
      match lzo_step state rest out with
      | Ok (Continue state rest out) => lzo_loop fuel state rest out
      | Ok (Finished out) => Some (Ok out)
      | Err e => Some (Err e)
      | Panic => Some Panic
      end
  end.

Definition lzo_run (inp : list byte) : option (res LzoErr (list byte)) :=
  match inp with
  | [] => Some (Err ErrLZOCorrupt)
  | b :: r =>
      if 17 <? b2z b then
        let t := b2z b - 17 in
        match copyLit t r [] with
        | None => Some (Err ErrLZOCorrupt)
        | Some (rest, out) =>
            lzo_loop (S (length rest)) (if t <? 4 then t else 4) rest out
        end
      else lzo_loop (S (length inp)) 0 inp []
  end.
End decoder.

Definition decompressLZO1X (inp : list byte) (origSize : Z) : option (res LzoErr (list byte)) :=
  if (origSize =? 0) || (MaxMsgSize <? origSize) then Some (Err ErrLZOCorrupt)
  else lzo_run origSize inp.

(** ** Body decompression (compress.go) *)
Definition ZipfNone : Z := 0.
Definition ZipfMlzo : Z := 1.
Definition ZipfZlib : Z := 2.
Definition ZipfLziv : Z := 3.

Inductive ZipErr :=
| ErrTruncatedCompressed | ErrUnsupportedZipf (zipf : Z)
| ErrLzo (e : LzoErr) | ErrZlib.

(** [decompressZlib] reads through the standard library's zlib reader: the
    reader is the parameter [inflate] (its result on the payload, [None] when
    it reports an error). *)
Definition decompressZlib (inflate : list byte -> option (list byte))
    (payload : list byte) : res ZipErr (list byte) :=
  match inflate payload with Some out => Ok out | None => Err ErrZlib end.

Definition Decompress (inflate : list byte -> option (list byte))
    (src : list byte) (zipf : Z) : option (res ZipErr (list byte)) :=
  if zipf =? ZipfNone then Some (Ok src) else
  if (length src <? 4)%nat then Some (Err ErrTruncatedCompressed) else
  let origSize := getU32 (sub 0 4 src) in
  let payload := drop 4 src in
  if zipf =? ZipfZlib then Some (decompressZlib inflate payload)
  else if zipf =? ZipfMlzo then
    match decompressLZO1X payload origSize with
    | None => None
    | Some (Ok out) => Some (Ok out)
    | Some (Err e) => Some (Err (ErrLzo e))
    | Some Panic => Some Panic
    end
  else Some (Err (ErrUnsupportedZipf zipf)).

Definition IsZipfSupported (zipf : Z) : bool :=
  (zipf =? ZipfNone) || (zipf =? ZipfZlib) || (zipf =? ZipfMlzo).

(** * Laws
    Laws of the LZO1X decoder: it terminates, never writes past the announced
    size, and decodes every stream of the LZO1X instruction grammar to the
    output that the instructions describe. *)

Section decoder_laws.
Context (origSize : Z).

Lemma orCorrupt_ok {A} (o : option A) a : orCorrupt o = Ok a -> o = Some a.
Proof. destruct o; by intros [= ->]. Qed.

Lemma readU8_length rest b r : readU8 rest = Some (b, r) -> (length r < length rest)%nat.
Proof. destruct rest; intros [= <- <-]. simpl. lia. Qed.

Lemma extendLen_length base t rest c r :
  extendLen origSize base t rest = Some (c, r) -> (length r < length rest)%nat.
Proof.
  revert t. induction rest as [|b rest IH]; intros t H; [done|]. simpl in *.
  repeat case_in H.
  - apply IH in H. lia.
  - injection H as <- <-. lia.
Qed.

Lemma copyLit_inv cnt rest out r o :
  copyLit origSize cnt rest out = Some (r, o) ->
  (length r <= length rest)%nat /\ zlen o <= origSize /\ zlen o = zlen out + cnt /\ 0 <= cnt.
Proof.
  unfold copyLit. intros H. case_in H. injection H as <- <-.
  rewrite length_app, length_take, length_drop. bool_lia.
Qed.

Lemma copy_bytes_length cnt mp out : length (copy_bytes cnt mp out) = (length out + cnt)%nat.
Proof.
  revert mp out. induction cnt as [|cnt IH]; intros mp out; simpl; [lia|].
  rewrite IH, length_app. simpl. lia.
Qed.

Lemma copyMatch_inv dist cnt out o :
  0 <= cnt -> copyMatch origSize dist cnt out = Some o -> zlen o <= origSize.
Proof.
  unfold copyMatch. intros Hc H. case_in H. injection H as <-.
  rewrite copy_bytes_length. bool_lia.
Qed.

Lemma finish_match_inv dist cnt tr rest out st' rest' out' :
  0 <= cnt ->
  finish_match origSize dist cnt tr rest out = Ok (Continue st' rest' out') ->
  (length rest' <= length rest)%nat /\ zlen out' <= origSize.
Proof.
  unfold finish_match. intros Hc H. bind_inv H. apply orCorrupt_ok in E.
  apply copyMatch_inv in E; [|done]. case_in H.
  - bind_inv H. destruct a0. injection H as <- <- <-. apply orCorrupt_ok in E1.
    apply copyLit_inv in E1. lia.
  - injection H as <- <- <-. lia.
Qed.

Lemma finish_match_not_finished dist cnt tr rest out o :
  finish_match origSize dist cnt tr rest out <> Ok (Finished o).
Proof.
  unfold finish_match. intros H. bind_inv H. case_in H. bind_inv H. by destruct a0.
Qed.

Lemma readU8_range rest b r : readU8 rest = Some (b, r) -> 0 <= b < 256.
Proof. destruct rest; intros [= <- <-]. apply b2z_range. Qed.

Lemma extendLen_nonneg base t rest c r :
  0 <= base -> 0 <= t -> extendLen origSize base t rest = Some (c, r) -> 0 <= c.
Proof.
  intros Hb. revert t. induction rest as [|b rest IH]; intros t Ht H; [done|]. simpl in *.
  pose proof (b2z_range b). repeat case_in H.
  - apply IH in H; lia.
  - injection H as <- <-. lia.
Qed.

Ltac step_inv :=
  repeat match goal with
  | H : (_ ≫= _) = Ok _ |- _ => bind_inv H
  | H : orCorrupt _ = Ok _ |- _ => apply orCorrupt_ok in H
  | H : (let '(_, _) := ?a in _) = Ok _ |- _ => destruct a
  | H : readU8 _ = Some _ |- _ =>
      pose proof (readU8_length _ _ _ H); pose proof (readU8_range _ _ _ H); clear H
  | H : extendLen _ _ _ _ = Some _ |- _ =>
      pose proof (extendLen_length _ _ _ _ _ H);
      apply extendLen_nonneg in H; [|lia..]
  | H : Ok _ = Ok (_, _) |- _ => injection H as <- <-
  | H : copyLit _ _ _ _ = Some _ |- _ => apply copyLit_inv in H
  | H : finish_match _ _ _ _ _ _ = Ok (Finished _) |- _ =>
      by apply finish_match_not_finished in H
  end.

Lemma lzo_step_continue st rest out st' rest' out' :
  lzo_step origSize st rest out = Ok (Continue st' rest' out') ->
  (length rest' < length rest)%nat /\ zlen out' <= origSize.
Proof.
  unfold lzo_step. intros H. bind_inv H. destruct a as [t r0]. step_inv.
  assert (forall k, 0 <= Z.land t k) by (intros; apply Z.land_nonneg; lia).
  assert (0 <= Z.shiftr t 5) by (apply Z.shiftr_nonneg; lia).
  assert (forall k, 0 <= Z.land t k + 2) by (intros k; specialize (H2 k); lia).
  repeat case_in H; step_inv; repeat case_in H; step_inv;
    first [ injection H as <- <- <-; lia
          | apply finish_match_inv in H; [lia|auto; lia] ].
Qed.

Lemma lzo_step_finished st rest out o :
  lzo_step origSize st rest out = Ok (Finished o) -> zlen o = origSize.
Proof.
  unfold lzo_step. intros H. bind_inv H. destruct a as [t r0].
  repeat case_in H; step_inv; repeat case_in H; step_inv; try discriminate H.
  all: injection H as <-;
    match goal with E : negb (_ =? origSize) = false |- _ =>
      apply negb_false_iff in E; bool_lia end.
Qed.

Lemma lzo_step_no_panic st rest out : lzo_step origSize st rest out <> Panic.
Proof.
  assert (forall A (o : option A), no_panic (orCorrupt o)) as Ho by (by intros A []).
  assert (forall d c t r o, no_panic (finish_match origSize d c t r o)) as Hf.
  { intros. unfold finish_match. apply no_panic_bind; [apply Ho|]. intros.
    case_if; [|done]. apply no_panic_bind; [apply Ho|]. by intros []. }
  unfold lzo_step. apply no_panic_bind; [apply Ho|]. intros [t r] _.
  repeat case_if;
    repeat first
      [ apply Hf | apply Ho | apply no_panic_ok | apply no_panic_err
      | apply no_panic_bind; [|intros [] _]
      | case_if ].
Qed.

(** [S (length rest)] units of fuel are enough: every iteration consumes at
    least one input byte. *)
Lemma lzo_loop_total fuel st rest out :
  (length rest < fuel)%nat -> exists r, lzo_loop origSize fuel st rest out = Some r.
Proof.
  revert st rest out. induction fuel as [|fuel IH]; intros st rest out Hf; [lia|]. simpl.
  destruct (lzo_step origSize st rest out) as [[st' rest' out'|o]|e|] eqn:E; eauto.
  apply lzo_step_continue in E. apply IH. lia.
Qed.

Lemma lzo_loop_ok fuel st rest out o :
  lzo_loop origSize fuel st rest out = Some (Ok o) -> zlen o = origSize.
Proof.
  revert st rest out. induction fuel as [|fuel IH]; intros st rest out H; [done|]. simpl in H.
  destruct (lzo_step origSize st rest out) as [[st' rest' out'|o']|e|] eqn:E; try done.
  - by apply IH in H.
  - injection H as <-. by apply lzo_step_finished in E.
Qed.

Lemma lzo_loop_no_panic fuel st rest out : lzo_loop origSize fuel st rest out <> Some Panic.
Proof.
  revert st rest out. induction fuel as [|fuel IH]; intros st rest out; [done|]. simpl.
  destruct (lzo_step origSize st rest out) as [[st' rest' out'|o']|e|] eqn:E; try done.
  by apply lzo_step_no_panic in E.
Qed.
End decoder_laws.

(** ** The LZO1X instruction grammar *)

(** A back reference of length [len] at distance [dist], in the encodings of
    the format; every match carries 0 to 3 trailing literals. *)
Inductive match_kind :=
| M1far (** after a literal run: length 3, distances 2049..3072 *)
| M1near (** after trailing literals: length 2, distances 1..1024 *)
| M2 (** lengths 3..8, distances 1..2048 *)
| M3 (** lengths from 3, distances 1..16384 *)
| M4 (** lengths from 3, distances 16385..49151 *).

Inductive instr :=
| LitRun (bs : list byte)
| Match (k : match_kind) (dist len : Z) (trail : list byte).

(** The decoder state after an instruction. *)
Definition next_state (i : instr) : Z :=
  match i with LitRun _ => 4 | Match _ _ _ trail => zlen trail end.

(** Side conditions of the format in decoder state [st]. *)
Definition wf_instr (st : Z) (i : instr) : Prop :=
  match i with
  | LitRun bs => st = 0 /\ 4 <= zlen bs
  | Match k dist len trail =>
      zlen trail <= 3 /\
      match k with
      | M1far => st = 4 /\ len = 3 /\ 2049 <= dist <= 3072
      | M1near => 1 <= st <= 3 /\ len = 2 /\ 1 <= dist <= 1024
      | M2 => 3 <= len <= 8 /\ 1 <= dist <= 2048
      | M3 => 3 <= len /\ 1 <= dist <= 16384
      | M4 => 3 <= len /\ 16385 <= dist <= 49151
      end
  end.

(** What an instruction appends to the output. *)
Definition exec (i : instr) (out : list byte) : list byte :=
  match i with
  | LitRun bs => out ++ bs
  | Match _ dist len trail =>
      copy_bytes (Z.to_nat len) (Z.to_nat (zlen out - dist)) out ++ trail
  end.

(** The encoding of an instruction. *)
Definition ext_bytes (n : Z) : list byte :=
  replicate (Z.to_nat ((n - 1) / 255)) x00 ++ [z2b ((n - 1) mod 255 + 1)].

Definition len_bytes (op maxImm n : Z) : list byte :=
  if n <=? maxImm then [z2b (op + n)] else z2b op :: ext_bytes (n - maxImm).

Definition enc (i : instr) : list byte :=
  match i with
  | LitRun bs => len_bytes 0 15 (zlen bs - 3) ++ bs
  | Match k dist len trail =>
      let n := zlen trail in
      match k with
      | M1far => [z2b ((dist - 2049) mod 4 * 4 + n); z2b ((dist - 2049) / 4)]
      | M1near => [z2b ((dist - 1) mod 4 * 4 + n); z2b ((dist - 1) / 4)]
      | M2 => [z2b ((len - 1) * 32 + (dist - 1) mod 8 * 4 + n); z2b ((dist - 1) / 8)]
      | M3 => len_bytes 32 31 (len - 2) ++
              [z2b ((dist - 1) mod 64 * 4 + n); z2b ((dist - 1) / 64)]
      | M4 => let d := dist - 0x4000 in
              len_bytes (16 + 8 * (d / 16384)) 7 (len - 2) ++
              [z2b (d mod 64 * 4 + n); z2b (d mod 16384 / 64)]
      end ++ trail
  end.

Fixpoint wf_prog (st : Z) (p : list instr) : Prop :=
  match p with [] => True | i :: p => wf_instr st i /\ wf_prog (next_state i) p end.

Fixpoint exec_prog (p : list instr) (out : list byte) : list byte :=
  match p with [] => out | i :: p => exec_prog p (exec i out) end.

(** Every back reference points inside what has been produced. *)
Fixpoint refs_ok (p : list instr) (out : list byte) : Prop :=
  match p with
  | [] => True
  | i :: p => match i with
              | LitRun _ => True
              | Match _ dist _ _ => dist <= zlen out
              end /\ refs_ok p (exec i out)
  end.

Definition enc_prog (p : list instr) : list byte := concat (map enc p).
Definition eof_marker : list byte := [x11; x00; x00].

Section grammar_laws.
Context (origSize : Z).

Lemma copyLit_app bs rest out :
  zlen out + zlen bs <= origSize ->
  copyLit origSize (zlen bs) (bs ++ rest) out = Some (rest, out ++ bs).
Proof.
  intros H. unfold copyLit. rewrite length_app, Nat2Z.inj_add.
  rewrite !(proj2 (Z.ltb_ge _ _)) by lia. cbn [orb].
  by rewrite Nat2Z.id, drop_app_length, take_app_length.
Qed.

Lemma finish_match_trail dist len tr trail rest out :
  dist <= zlen out -> 0 <= len -> Z.land tr 3 = zlen trail ->
  zlen out + len + zlen trail <= origSize ->
  finish_match origSize dist len tr (trail ++ rest) out =
    Ok (Continue (zlen trail) rest
          (copy_bytes (Z.to_nat len) (Z.to_nat (zlen out - dist)) out ++ trail)).
Proof.
  intros Hd Hl Ht Hs. unfold finish_match, copyMatch. rewrite Ht.
  rewrite (proj2 (Z.ltb_ge _ 0)), (proj2 (Z.ltb_ge origSize _)) by lia. cbn [orb orCorrupt mbind res_bind].
  destruct trail as [|b tl] eqn:E.
  - cbn. by rewrite app_nil_r.
  - rewrite (proj2 (Z.ltb_lt _ _)) by (cbn [length]; lia).
    rewrite copyLit_app; [done|]. rewrite copy_bytes_length. lia.
Qed.

Lemma extendLen_zeros k base t b rest :
  0 < b2z b -> t + 255 * Z.of_nat k <= origSize ->
  extendLen origSize base t (replicate k x00 ++ b :: rest) =
    Some (t + 255 * Z.of_nat k + base + b2z b, rest).
Proof.
  intros Hb. revert t. induction k as [|k IH]; intros t Hk.
  - simpl. rewrite (proj2 (Z.eqb_neq _ _)) by lia. do 2 f_equal; lia.
  - cbn [replicate app extendLen]. change (b2z x00 =? 0) with true. cbn.
    rewrite (proj2 (Z.ltb_ge _ _)) by lia. rewrite IH by lia. do 2 f_equal; lia.
Qed.

Lemma extendLen_ext base n rest :
  1 <= n <= origSize ->
  extendLen origSize base 0 (ext_bytes n ++ rest) = Some (base + n, rest).
Proof.
  intros Hn. unfold ext_bytes. rewrite <-app_assoc. cbn [app].
  assert (b2z (z2b ((n - 1) mod 255 + 1)) = (n - 1) mod 255 + 1) as Hb.
  { rewrite b2z_z2b. apply Z.mod_small. divmod_lia. }
  rewrite extendLen_zeros; rewrite ?Hb; [|divmod_lia..].
  rewrite Z2Nat.id by divmod_lia. do 2 f_equal; divmod_lia.
Qed.

(** Reading back the opcode byte and the length of an instruction. *)
Lemma len_bytes_cons op maxImm n :
  exists r, len_bytes op maxImm n = z2b (op + if n <=? maxImm then n else 0) :: r /\
    (r = if n <=? maxImm then [] else ext_bytes (n - maxImm)).
Proof.
  unfold len_bytes. case_if; eexists; [done|]. by rewrite Z.add_0_r.
Qed.

Lemma read_length maxImm n imm rest :
  0 < maxImm -> 1 <= n <= origSize -> imm = (if n <=? maxImm then n else 0) ->
  (if imm =? 0
   then orCorrupt (extendLen origSize maxImm 0
          ((if n <=? maxImm then [] else ext_bytes (n - maxImm)) ++ rest))
   else Ok (imm, (if n <=? maxImm then [] else ext_bytes (n - maxImm)) ++ rest)) = Ok (n, rest).
Proof.
  intros Hm Hn ->. destruct (n <=? maxImm) eqn:E; bool_lia.
  - rewrite (proj2 (Z.eqb_neq _ _)) by lia. done.
  - rewrite Z.eqb_refl, extendLen_ext by lia. cbn. do 2 f_equal; lia.
Qed.

Lemma land3 x : Z.land x 3 = x mod 4.
Proof. change 3 with (Z.ones 2). by rewrite Z.land_ones. Qed.
Lemma land7 x : Z.land x 7 = x mod 8.
Proof. change 7 with (Z.ones 3). by rewrite Z.land_ones. Qed.
Lemma land31 x : Z.land x 31 = x mod 32.
Proof. change 31 with (Z.ones 5). by rewrite Z.land_ones. Qed.
Lemma land8 h x : 0 <= h <= 1 -> 0 <= x <= 7 -> Z.land (16 + 8 * h + x) 8 = 8 * h.
Proof.
  intros. assert (h = 0 \/ h = 1) as [-> | ->] by lia;
  assert (x = 0 \/ x = 1 \/ x = 2 \/ x = 3 \/ x = 4 \/ x = 5 \/ x = 6 \/ x = 7)
    as [->|[->|[->|[->|[->|[->|[->| ->]]]]]]] by lia; done.
Qed.

Ltac byte_val := rewrite b2z_z2b, (Z.mod_small _ 256) by divmod_lia.
Ltac shifts := rewrite ?Z.shiftr_div_pow2, ?Z.shiftl_mul_pow2, ?land3, ?land7, ?land31 by lia.
Ltac choose_if :=
  match goal with
  | |- context [?a <? ?b] =>
      first [ rewrite (proj2 (Z.ltb_lt a b)) by divmod_lia
            | rewrite (proj2 (Z.ltb_ge a b)) by divmod_lia ]
  | |- context [?a <=? ?b] =>
      first [ rewrite (proj2 (Z.leb_le a b)) by divmod_lia
            | rewrite (proj2 (Z.leb_gt a b)) by divmod_lia ]
  | |- context [?a =? ?b] =>
      first [ rewrite (proj2 (Z.eqb_eq a b)) by divmod_lia
            | rewrite (proj2 (Z.eqb_neq a b)) by divmod_lia ]
  end.

(** One instruction is decoded by one iteration. *)
Lemma step_LitRun bs rest out :
  4 <= zlen bs -> zlen out + zlen bs <= origSize ->
  lzo_step origSize 0 (enc (LitRun bs) ++ rest) out = Ok (Continue 4 rest (out ++ bs)).
Proof.
  intros Hb Hs. unfold lzo_step, enc.
  destruct (len_bytes_cons 0 15 (zlen bs - 3)) as (r & -> & ->).
  cbn [app orCorrupt readU8 mbind res_bind]. rewrite <-app_assoc.
  set (n := zlen bs - 3) in *.
  rewrite b2z_z2b, Z.mod_small by (case_if; bool_lia).
  rewrite (proj2 (Z.ltb_lt _ 16)) by (case_if; bool_lia). cbn [Z.eqb].
  rewrite (read_length 15 n); [|lia..]. cbn [mbind res_bind].
  replace (n + 3) with (zlen bs) by lia. by rewrite copyLit_app.
Qed.

Lemma step_Match st k dist len trail rest out :
  wf_instr st (Match k dist len trail) -> dist <= zlen out ->
  zlen out + len + zlen trail <= origSize ->
  lzo_step origSize st (enc (Match k dist len trail) ++ rest) out =
    Ok (Continue (zlen trail) rest (exec (Match k dist len trail) out)).
Proof.
  intros [Ht Hk] Hd Hs. unfold lzo_step, enc, exec. rewrite <-!app_assoc.
  destruct k.
  - destruct Hk as (-> & -> & Hr). cbn [app orCorrupt readU8 mbind res_bind].
    byte_val. choose_if. cbn [Z.eqb]. byte_val. shifts.
    replace (_ + _ + 2049) with dist by divmod_lia.
    apply finish_match_trail; shifts; divmod_lia.
  - destruct Hk as (Hst & -> & Hr). cbn [app orCorrupt readU8 mbind res_bind].
    byte_val. choose_if. rewrite (proj2 (Z.eqb_neq st 0)), (proj2 (Z.eqb_neq st 4)) by lia.
    byte_val. shifts.
    replace (_ + _ + 1) with dist by divmod_lia.
    apply finish_match_trail; shifts; divmod_lia.
  - destruct Hk as (Hl & Hr). cbn [app orCorrupt readU8 mbind res_bind].
    byte_val. do 2 choose_if. byte_val. shifts.
    replace (_ + _ + 1) with dist by divmod_lia.
    replace (_ / 2 ^ 5 + 1) with len by divmod_lia.
    apply finish_match_trail; shifts; divmod_lia.
  - destruct Hk as (Hl & Hr).
    destruct (len_bytes_cons 32 31 (len - 2)) as (r & -> & ->).
    cbn [app orCorrupt readU8 mbind res_bind]. rewrite <-!app_assoc.
    assert (0 <= (if len - 2 <=? 31 then len - 2 else 0) <= 31) by (case_if; bool_lia).
    byte_val. do 3 choose_if.
    rewrite (read_length 31 (len - 2)); [|lia|lia|rewrite land31; case_if; bool_lia; divmod_lia].
    cbn [app orCorrupt readU8 mbind res_bind]. do 2 byte_val. shifts.
    replace (_ + _ + 1) with dist by divmod_lia.
    replace (len - 2 + 2) with len by lia.
    apply finish_match_trail; shifts; divmod_lia.
  - destruct Hk as (Hl & Hr). set (d := dist - 0x4000). set (h := d / 16384).
    destruct (len_bytes_cons (16 + 8 * h) 7 (len - 2)) as (r & -> & ->).
    cbn [app orCorrupt readU8 mbind res_bind]. rewrite <-!app_assoc.
    assert (0 <= (if len - 2 <=? 7 then len - 2 else 0) <= 7) by (case_if; bool_lia).
    assert (0 <= h <= 1) by (unfold h, d; divmod_lia).
    byte_val. do 3 choose_if. rewrite land8 by lia.
    rewrite (read_length 7 (len - 2)); [|lia|lia|rewrite land7; case_if; bool_lia; divmod_lia].
    cbn [app orCorrupt readU8 mbind res_bind]. do 2 byte_val. shifts.
    replace ((d mod 64 * 4 + zlen trail) / 2 ^ 2 + d mod 16384 / 64 * 2 ^ 6)
      with (d mod 16384) by divmod_lia.
    assert ((8 * h * 2 ^ 11 =? 0) && (d mod 16384 =? 0) = false) as ->.
    { apply andb_false_iff. rewrite !Z.eqb_neq. unfold h, d in *. divmod_lia. }
    replace (8 * h * 2 ^ 11 + d mod 16384 + 16384) with dist
      by (unfold h, d in *; divmod_lia).
    replace (len - 2 + 2) with len by lia.
    apply finish_match_trail; shifts; divmod_lia.
Qed.
End grammar_laws.

(** ** Streams *)

(** A stream: an optional leading literal run (first byte above 17), a
    program, and the end marker. *)
Definition enc_stream (first : list byte) (p : list instr) : list byte :=
  match first with
  | [] => enc_prog p ++ eof_marker
  | _ => z2b (17 + zlen first) :: first ++ enc_prog p ++ eof_marker
  end.

Definition first_state (first : list byte) : Z :=
  if zlen first <? 4 then zlen first else 4.

Section stream_laws.
Context (origSize : Z).

Lemma exec_length i out : zlen (exec i out) =
  zlen out + match i with LitRun bs => zlen bs | Match _ _ len tr => Z.max 0 len + zlen tr end.
Proof.
  destruct i; simpl; rewrite length_app; [lia|]. rewrite copy_bytes_length. lia.
Qed.

Lemma exec_prog_length p out : zlen out <= zlen (exec_prog p out).
Proof.
  revert out. induction p as [|i p IH]; intros out; simpl; [lia|].
  specialize (IH (exec i out)). rewrite exec_length in IH. destruct i; lia.
Qed.

Lemma step_eof st out :
  zlen out = origSize -> lzo_step origSize st eof_marker out = Ok (Finished out).
Proof.
  intros H. unfold lzo_step, eof_marker. cbn [readU8 orCorrupt mbind res_bind].
  change (b2z x11) with 17. change (b2z x00) with 0. cbn.
  by rewrite (proj2 (Z.eqb_eq _ _) H).
Qed.

Lemma step_instr st i rest out :
  wf_instr st i -> match i with LitRun _ => True | Match _ dist _ _ => dist <= zlen out end ->
  zlen (exec i out) <= origSize ->
  lzo_step origSize st (enc i ++ rest) out = Ok (Continue (next_state i) rest (exec i out)).
Proof.
  intros Hw Hr Hs. rewrite exec_length in Hs. destruct i as [bs|k dist len trail].
  - destruct Hw as [-> Hb]. by apply step_LitRun.
  - apply step_Match; [done|done|lia].
Qed.

Lemma loop_prog fuel st p out :
  wf_prog st p -> refs_ok p out -> zlen (exec_prog p out) = origSize ->
  (length (enc_prog p ++ eof_marker) < fuel)%nat ->
  lzo_loop origSize fuel st (enc_prog p ++ eof_marker) out = Some (Ok (exec_prog p out)).
Proof.
  revert fuel st out. induction p as [|i p IH]; intros fuel st out Hw Hr Hs Hf.
  - destruct fuel; [simpl in Hf; lia|]. cbn [lzo_loop enc_prog map concat app].
    by rewrite step_eof.
  - destruct fuel; [lia|]. destruct Hw as [Hi Hw], Hr as [Hd Hr]. cbn [exec_prog] in *.
    unfold enc_prog in *. cbn [map concat] in *. rewrite <-app_assoc in *. cbn [lzo_loop].
    pose proof (exec_prog_length p (exec i out)).
    assert (lzo_step origSize st (enc i ++ (concat (map enc p) ++ eof_marker)) out =
      Ok (Continue (next_state i) (concat (map enc p) ++ eof_marker) (exec i out))) as E
      by (apply step_instr; [done|done|lia]).
    rewrite E. apply lzo_step_continue in E as [E _]. apply IH; [done..|]. lia.
Qed.

Lemma lzo_run_stream first p :
  zlen first <= 238 -> wf_prog (first_state first) p -> refs_ok p first ->
  zlen (exec_prog p first) = origSize -> 0 < origSize ->
  lzo_run origSize (enc_stream first p) = Some (Ok (exec_prog p first)).
Proof.
  intros Hl Hw Hr Hs H0. unfold lzo_run, enc_stream.
  destruct first as [|b0 fs] eqn:Ef.
  - destruct p as [|[bs|k dist len tr] p]; [simpl in Hs; lia| |].
    + destruct (len_bytes_cons 0 15 (zlen bs - 3)) as (r & Hb & _).
      destruct (enc_prog (LitRun bs :: p) ++ eof_marker) as [|b rr] eqn:E.
      { by apply app_eq_nil in E as [_ E]. }
      rewrite (proj2 (Z.ltb_ge 17 _)).
      2: { unfold enc_prog in E. cbn [map concat enc] in E. rewrite Hb in E. cbn [app] in E.
           injection E as <- _. rewrite b2z_z2b, (Z.mod_small _ 256); case_if; bool_lia;
           destruct Hw as [[_ Hw] _]; lia. }
      rewrite <-E. apply loop_prog; [done..|lia].
    + exfalso. destruct Hw as [[_ Hk] _], Hr as [Hd _]. simpl in Hd. destruct k; lia.
  - rewrite <-Ef in *. pose proof (exec_prog_length p first).
    assert (1 <= zlen first) by (rewrite Ef; cbn [length]; lia).
    rewrite b2z_z2b, (Z.mod_small _ 256) by lia.
    rewrite (proj2 (Z.ltb_lt 17 _)) by lia.
    replace (17 + zlen first - 17) with (zlen first) by lia.
    rewrite copyLit_app by (simpl; lia). cbn [app]. apply loop_prog; [done..|lia].
Qed.
End stream_laws.

(** The overlapping copy: [out] is kept, and each appended byte equals the one
    [dist] positions before it. *)
Lemma copy_bytes_prefix cnt mp out i :
  (i < length out)%nat -> copy_bytes cnt mp out !! i = out !! i.
Proof.
  revert mp out. induction cnt as [|cnt IH]; intros mp out Hi; [done|]. simpl.
  rewrite IH by (rewrite length_app; lia). by rewrite lookup_app_l.
Qed.

Lemma copy_bytes_periodic cnt mp out i :
  (mp < length out)%nat -> (i < cnt)%nat ->
  copy_bytes cnt mp out !! (length out + i)%nat = copy_bytes cnt mp out !! (mp + i)%nat.
Proof.
  revert mp out i. induction cnt as [|cnt IH]; intros mp out i Hm Hi; [lia|]. simpl.
  set (out' := out ++ [nth mp out x00]).
  assert (length out' = S (length out)) as Hl by (unfold out'; rewrite length_app; simpl; lia).
  destruct i as [|i].
  - rewrite !Nat.add_0_r, !copy_bytes_prefix by lia. unfold out'.
    rewrite lookup_app_r, Nat.sub_diag, lookup_app_l by lia. simpl.
    destruct (lookup_lt_is_Some_2 out mp Hm) as [x Hx].
    by rewrite (nth_lookup_Some _ _ _ _ Hx).
  - replace (length out + S i)%nat with (length out' + i)%nat by lia.
    replace (mp + S i)%nat with (S mp + i)%nat by lia. apply IH; lia.
Qed.

(** ** Claims *)


(** A successful decompression has exactly the announced size, which is
    positive and at most the maximal message size. *)
Theorem decompressLZO1X_size (inp out : list byte) (origSize : Z) :
  0 <= origSize -> decompressLZO1X inp origSize = Some (Ok out) ->
  zlen out = origSize /\ 0 < origSize <= MaxMsgSize.
Proof.
  unfold decompressLZO1X, lzo_run. intros H0 H. case_in H. bool_lia.
  destruct inp as [|b r]; [done|]. case_in H.
  - destruct (copyLit _ _ _ _) as [[rest o]|]; [|done].
    apply lzo_loop_ok in H. lia.
  - apply lzo_loop_ok in H. lia.
Qed.

Definition ex_first : list byte := [x61; x62; x63].
Definition ex_prog : list instr :=
  [Match M2 3 8 [x64]; Match M1near 1 2 []; LitRun [x65; x66; x67; x68; x69]; Match M3 19 40 [x7a; x7a]].

Lemma decompressLZO1X_size_witness :
  zlen (exec_prog ex_prog ex_first) = 61 /\ 0 < 61 <= MaxMsgSize.
Proof.
  apply (decompressLZO1X_size (enc_stream ex_first ex_prog) (exec_prog ex_prog ex_first) 61);
    [lia|vm_compute; reflexivity].
Defined.

(** C8. Functional correctness of the decoder against the LZO1X instruction
    grammar: the encoding of any well-formed program (optional leading
    literals, literal runs, the five match encodings with their trailing
    literals, end marker) decompresses to exactly the output that executing
    the program describes. *)
Theorem decompressLZO1X_decodes (first : list byte) (p : list instr) :
  zlen first <= 238 -> wf_prog (first_state first) p -> refs_ok p first ->
  0 < zlen (exec_prog p first) <= MaxMsgSize ->
  decompressLZO1X (enc_stream first p) (zlen (exec_prog p first)) =
    Some (Ok (exec_prog p first)).
Proof.
  intros Hf Hw Hr Hs. unfold decompressLZO1X.
  rewrite (proj2 (Z.eqb_neq _ _)), (proj2 (Z.ltb_ge _ _)) by lia. cbn [orb].
  apply lzo_run_stream; done || lia.
Qed.

Lemma decompressLZO1X_decodes_witness :
  decompressLZO1X (enc_stream ex_first ex_prog) (zlen (exec_prog ex_prog ex_first)) =
    Some (Ok (exec_prog ex_prog ex_first)).
Proof.
  apply (decompressLZO1X_decodes ex_first ex_prog); vm_compute;
    intuition (discriminate || reflexivity).
Defined.

(** The overlapping back-reference copy: the output so far is kept, and each
    copied byte is the byte at distance [length out - mp] before it, also when
    the copy overlaps what it produces. *)
Theorem copy_bytes_overlap (cnt mp : nat) (out : list byte) :
  (mp < length out)%nat ->
  take (length out) (copy_bytes cnt mp out) = out /\
  forall i, (i < cnt)%nat ->
    copy_bytes cnt mp out !! (length out + i)%nat = copy_bytes cnt mp out !! (mp + i)%nat.
Proof.
  intros Hm. split; [|intros; by apply copy_bytes_periodic].
  apply list_eq. intros i. destruct (decide (i < length out)%nat).
  - by rewrite lookup_take_lt, copy_bytes_prefix.
  - rewrite lookup_take_ge, lookup_ge_None_2 by lia. done.
Qed.

Lemma copy_bytes_overlap_witness :
  take 2 (copy_bytes 5 1 [x61; x62]) = [x61; x62] /\
  forall i, (i < 5)%nat ->
    copy_bytes 5 1 [x61; x62] !! (2 + i)%nat = copy_bytes 5 1 [x61; x62] !! (1 + i)%nat.
Proof. apply (copy_bytes_overlap 5 1 [x61; x62]). simpl. lia. Defined.
