(* ===== verification/Handshake.v ===== *)
(** MyMQ handshakes and broadcast prefix: DECLARE_SESSION
    (src/pkg/mymq/handshake.go), CONNECT and BIND_SERVICE
    (src/pkg/mymq/connect.go), the prefix of unsolicited bodies
    (src/pkg/mymq/pubsub.go), trace ids (src/pkg/mymq/traceid.go) and channel
    codes (src/pkg/mymq/conventions.go). *)

From Stdlib Require Import ZArith Lia.
From S2P Require Import Prelude Codec Frame.
Local Open Scope Z_scope.

(** ** DECLARE_SESSION *)
Definition declareSessionSize : nat := 16 + 16 + 4 + 20 + 4 + 4 + 4 + 4 + 2 + 1 + 1 + 4 + 4 + 4.

Record DeclareSessionRequest := mkDSReq {
  dq_applName : list byte; dq_user : list byte; dq_pid : Z;
  dq_externalIP : list byte; dq_externalPort : Z }.

Record DeclareSessionResponse := mkDSResp {
  dr_socketID : Z; dr_sessionID : Z; dr_connectionID : Z;
  dr_routing0 : Z; dr_routing1 : Z; dr_broadcast : Z; dr_logSuffix : Z;
  dr_heartbeat : Z; dr_compressMethod : Z; dr_compressSize : Z }.

Definition EncodeDeclareSessionRequest (req : DeclareSessionRequest) : list byte :=
  let buf := replicate declareSessionSize x00 in
  let buf := blit 0 (padCopyString 16 (dq_applName req)) buf in
  let buf := blit 16 (padCopyString 16 (dq_user req)) buf in
  let buf := blit 32 (putU32 (dq_pid req)) buf in
  let buf := blit 36 (padCopyString 20 (dq_externalIP req)) buf in
  blit 56 (putU32 (dq_externalPort req)) buf.

Definition DecodeDeclareSessionResponse (buf : list byte) : res FrameErr DeclareSessionResponse :=
  if (length buf <? declareSessionSize)%nat then Err ErrFrameTooShort else
  let off := (16 + 16 + 4 + 20 + 4)%nat in
  Ok {| dr_socketID := getU32 (sub off 4 buf);
        dr_sessionID := getU32 (sub (off + 4) 4 buf);
        dr_connectionID := getU32 (sub (off + 8) 4 buf);
        dr_routing0 := byte_at buf (off + 12);
        dr_routing1 := byte_at buf (off + 13);
        dr_broadcast := byte_at buf (off + 14);
        dr_logSuffix := byte_at buf (off + 15);
        dr_heartbeat := getU32 (sub (off + 16) 4 buf);
        dr_compressMethod := getU32 (sub (off + 20) 4 buf);
        dr_compressSize := getU32 (sub (off + 24) 4 buf) |}.

(** ** CONNECT *)
Definition instanceSize : nat :=
  24 + 4 + 16 + 4 + 16 + 16 + 20 + 4 + 16 + 4 + 16 + 4 + 4 + 4 + 40.
Definition connectionSize : nat :=
  instanceSize + 4 + 4 + 16 + 4 + 4 + 4 + 4 + 2 + 1 + 1 + 4 + 4 + 4.

Record connectRequest := mkConnReq {
  cq_mqHost : list byte; cq_mqPort : Z; cq_mqUser : list byte; cq_pid : Z;
  cq_myName : list byte; cq_chName : list byte; cq_chIpad : list byte; cq_chPort : Z;
  cq_exName : list byte; cq_exType : Z; cq_quName : list byte; cq_quFlag : Z;
  cq_quAttr : Z; cq_quSize : Z; cq_quExpt : list byte }.

Record ConnectResponse := mkConnResp {
  cr_socketID : Z; cr_connectionID : Z; cr_queueName : list byte; cr_queueKey : Z;
  cr_queueID : Z; cr_queueMsgID : Z; cr_queueSize : Z;
  cr_routing0 : Z; cr_routing1 : Z; cr_broadcast : Z; cr_logSuffix : Z;
  cr_heartbeat : Z; cr_compressMethod : Z; cr_compressSize : Z }.

Definition encodeConnectRequest (req : connectRequest) : list byte :=
  let buf := replicate connectionSize x00 in
  let buf := blit 0 (padCopyString 24 (cq_mqHost req)) buf in
  let buf := blit 24 (putU32 (cq_mqPort req)) buf in
  let buf := blit 28 (padCopyString 16 (cq_mqUser req)) buf in
  let buf := blit 44 (putU32 (cq_pid req)) buf in
  let buf := blit 48 (padCopyString 16 (cq_myName req)) buf in
  let buf := blit 64 (padCopyString 16 (cq_chName req)) buf in
  let buf := blit 80 (padCopyString 20 (cq_chIpad req)) buf in
  let buf := blit 100 (putU32 (cq_chPort req)) buf in
  let buf := blit 104 (padCopyString 16 (cq_exName req)) buf in
  let buf := blit 120 (putU32 (cq_exType req)) buf in
  let buf := blit 124 (padCopyString 16 (cq_quName req)) buf in
  let buf := blit 140 (putU32 (cq_quFlag req)) buf in
  let buf := blit 144 (putU32 (cq_quAttr req)) buf in
  let buf := blit 148 (putU32 (cq_quSize req)) buf in
  blit 152 (padCopyString 40 (cq_quExpt req)) buf.

Definition decodeConnectResponse (buf : list byte) : res FrameErr ConnectResponse :=
  if (length buf <? connectionSize)%nat then Err ErrFrameTooShort else
  let off := instanceSize in
  Ok {| cr_socketID := getU32 (sub off 4 buf);
        cr_connectionID := getU32 (sub (off + 4) 4 buf);
        cr_queueName := trimNul (sub (off + 8) 16 buf);
        cr_queueKey := getU32 (sub (off + 24) 4 buf);
        cr_queueID := getU32 (sub (off + 28) 4 buf);
        cr_queueMsgID := getU32 (sub (off + 32) 4 buf);
        cr_queueSize := getU32 (sub (off + 36) 4 buf);
        cr_routing0 := byte_at buf (off + 40);
        cr_routing1 := byte_at buf (off + 41);
        cr_broadcast := byte_at buf (off + 42);
        cr_logSuffix := byte_at buf (off + 43);
        cr_heartbeat := getU32 (sub (off + 44) 4 buf);
        cr_compressMethod := getU32 (sub (off + 48) 4 buf);
        cr_compressSize := getU32 (sub (off + 52) 4 buf) |}.

Definition bindServiceBody (exchange rkey : list byte) : list byte :=
  let body := replicate 32 x00 in
  let body := blit 0 (take 16 exchange) body in
  blit 16 (take 16 rkey) body.

(** ** Broadcast prefix *)
Definition broadcastPrefixSize : nat := 24 + 16 + 16 + 16 + 16 + 1 + 1 + 1 + 1.

Record BroadcastHeader := mkBcast {
  bh_ipaddr : list byte; bh_exchange : list byte; bh_chan : list byte;
  bh_user : list byte; bh_logonID : list byte;
  bh_function : Z; bh_subFunction : Z; bh_viaNet : Z; bh_debug : Z }.

#[export] Instance BroadcastHeader_eq_dec : EqDecision BroadcastHeader.
Proof. solve_decision. Defined.

Definition wf_broadcast (h : BroadcastHeader) : Prop :=
  length (bh_ipaddr h) = 24%nat /\ length (bh_exchange h) = 16%nat /\
  length (bh_chan h) = 16%nat /\ length (bh_user h) = 16%nat /\
  length (bh_logonID h) = 16%nat /\ is_uint 8 (bh_function h) /\
  is_uint 8 (bh_subFunction h) /\ is_uint 8 (bh_viaNet h) /\ is_uint 8 (bh_debug h).

Definition EncodeBroadcastHeader (dst : list byte) (h : BroadcastHeader) : list byte :=
  let dst := blit 0 (bh_ipaddr h) dst in
  let dst := blit 24 (bh_exchange h) dst in
  let dst := blit 40 (bh_chan h) dst in
  let dst := blit 56 (bh_user h) dst in
  let dst := blit 72 (bh_logonID h) dst in
  let dst := blit 88 [z2b (bh_function h)] dst in
  let dst := blit 89 [z2b (bh_subFunction h)] dst in
  let dst := blit 90 [z2b (bh_viaNet h)] dst in
  blit 91 [z2b (bh_debug h)] dst.

Definition DecodeBroadcastHeader (src : list byte) : res FrameErr BroadcastHeader :=
  if (length src <? broadcastPrefixSize)%nat then Err ErrFrameTooShort else
  Ok {| bh_ipaddr := sub 0 24 src; bh_exchange := sub 24 16 src;
        bh_chan := sub 40 16 src; bh_user := sub 56 16 src;
        bh_logonID := sub 72 16 src;
        bh_function := byte_at src 88; bh_subFunction := byte_at src 89;
        bh_viaNet := byte_at src 90; bh_debug := byte_at src 91 |}.

(** Returns the parsed prefix (nil when the body is too short) and the rest. *)
Definition SplitBroadcast (body : list byte) : res FrameErr (option BroadcastHeader * list byte) :=
  if (length body <? broadcastPrefixSize)%nat then Ok (None, body) else
  h ← DecodeBroadcastHeader (sub 0 broadcastPrefixSize body);
  Ok (Some h, drop broadcastPrefixSize body).

(** ** Channel codes *)
Definition channel_Bytes (c : list byte) : list byte :=
  take 4 c ++ replicate (4 - length c) x20.

Definition IsCSFramework (c : string) : bool := bool_decide (c = "HTS" \/ c = "EMP").
Definition IsCustomer (c : string) : bool :=
  bool_decide (c = "WEB" \/ c = "MOB" \/ c = "HTS").
Definition IsEmployee (c : string) : bool := bool_decide (c = "ADM" \/ c = "EMP").

(** ** Trace ids *)
Definition hex_digit (n : Z) : byte := z2b (if n <? 10 then 48 + n else 87 + n).
Definition hex_value (c : byte) : option Z :=
  let v := b2z c in
  if (48 <=? v) && (v <=? 57) then Some (v - 48)
  else if (97 <=? v) && (v <=? 102) then Some (v - 87)
  else if (65 <=? v) && (v <=? 70) then Some (v - 55)
  else None.

(** encoding/hex *)
Definition hex_EncodeToString (b : list byte) : list byte :=
  concat (map (fun c => [hex_digit (b2z c / 16); hex_digit (b2z c mod 16)]) b).
Fixpoint hex_DecodeString (s : list byte) : option (list byte) :=
  match s with
  | [] => Some []
  | a :: b :: r =>
      match hex_value a, hex_value b, hex_DecodeString r with
      | Some x, Some y, Some t => Some (z2b (x * 16 + y) :: t)
      | _, _, _ => None
      end
  | _ => None
  end.

Definition TraceIDFromHex (s : list byte) : list byte :=
  let out := replicate TraceIDSize x00 in
  match s with
  | [] => out
  | _ => match hex_DecodeString s with
         | None => out
         | Some b => blit 0 b out
         end
  end.

(** Drops the trailing zero bytes. *)
Fixpoint drop_trailing0 (t : list byte) : list byte :=
  match t with
  | [] => []
  | b :: r => match drop_trailing0 r with
              | [] => if decide (b = x00) then [] else [b]
              | r' => b :: r'
              end
  end.
Definition TraceIDToHex (t : list byte) : list byte := hex_EncodeToString (drop_trailing0 t).

(** ** Laws *)
Lemma EncodeBroadcastHeader_length dst h :
  length (EncodeBroadcastHeader dst h) = length dst.
Proof. unfold EncodeBroadcastHeader. by autorewrite with buf. Qed.

Lemma DecodeBroadcastHeader_Encode dst h :
  length dst = broadcastPrefixSize -> wf_broadcast h ->
  DecodeBroadcastHeader (EncodeBroadcastHeader dst h) = Ok h.
Proof.
  intros Hl (H1 & H2 & H3 & H4 & H5 & H6 & H7 & H8 & H9).
  unfold DecodeBroadcastHeader. rewrite EncodeBroadcastHeader_length, Hl, Nat.ltb_irrefl.
  change broadcastPrefixSize with 92%nat in Hl.
  destruct h as [ip ex ch us lo fn sf vn db]. unfold EncodeBroadcastHeader.
  cbn [bh_ipaddr bh_exchange bh_chan bh_user bh_logonID bh_function bh_subFunction
       bh_viaNet bh_debug] in *.
  rewrite (byte_at_sub _ 88), (byte_at_sub _ 89), (byte_at_sub _ 90), (byte_at_sub _ 91).
  buf_read_at. rewrite !byte_at_single by done. done.
Qed.

Lemma hex_value_digit n : 0 <= n < 16 -> hex_value (hex_digit n) = Some n.
Proof.
  intros H. unfold hex_value, hex_digit. rewrite b2z_z2b.
  destruct (n <? 10) eqn:E; bool_lia; rewrite Z.mod_small by lia;
    repeat case_if; bool_lia; f_equal; lia.
Qed.

Lemma hex_roundtrip b : hex_DecodeString (hex_EncodeToString b) = Some b.
Proof.
  induction b as [|c b IH]; [done|]. unfold hex_EncodeToString in *.
  cbn [map concat app hex_DecodeString]. pose proof (b2z_range c).
  rewrite !hex_value_digit by divmod_lia. rewrite IH.
  by rewrite <-Z.mul_comm, <-Z.div_mod, z2b_b2z by lia.
Qed.

Lemma drop_trailing0_app t :
  t = drop_trailing0 t ++ replicate (length t - length (drop_trailing0 t)) x00.
Proof.
  induction t as [|b t IH]; [done|]. simpl. destruct (drop_trailing0 t) as [|c r] eqn:E.
  - simpl in IH. rewrite Nat.sub_0_r in IH. case_decide as D; subst; simpl.
    + by rewrite <-IH.
    + by rewrite Nat.sub_0_r, <-IH.
  - cbn [app length Nat.sub] in *. by rewrite <-IH.
Qed.

Lemma blit_prefix {A} (p l r : list A) :
  length l = length p -> blit 0 p (l ++ r) = p ++ r.
Proof.
  revert l. unfold blit. intros l H. apply list_eq. intros i.
  destruct (decide (i < length p)%nat).
  - rewrite list_lookup_inserts by (rewrite ?length_app; lia).
    rewrite lookup_app_l by lia. f_equal. lia.
  - rewrite list_lookup_inserts_ge, !lookup_app_r by lia. by rewrite H.
Qed.

(** ** Claims *)

(** Round trip of the broadcast prefix: splitting an encoded prefix followed
    by any payload returns the header and the payload. *)
Theorem SplitBroadcast_roundtrip (h : BroadcastHeader) (payload : list byte) :
  wf_broadcast h ->
  SplitBroadcast (EncodeBroadcastHeader (replicate broadcastPrefixSize x00) h ++ payload) =
    Ok (Some h, payload).
Proof.
  intros Hw. set (b := EncodeBroadcastHeader _ h).
  assert (length b = broadcastPrefixSize) as Hb
    by (unfold b; by rewrite EncodeBroadcastHeader_length, length_replicate).
  unfold SplitBroadcast. rewrite (proj2 (Nat.ltb_ge _ _)) by (rewrite length_app; lia).
  unfold sub. rewrite drop_0, <-Hb, take_app_length, drop_app_length.
  unfold b. rewrite DecodeBroadcastHeader_Encode; [done|by rewrite length_replicate|done].
Qed.

Definition ex_bcast : BroadcastHeader :=
  mkBcast (padCopyString 24 [x31]) (padCopyString 16 [x45]) (padCopyString 16 [])
    (padCopyString 16 [x75]) (padCopyString 16 [x6c]) 4 50 0 1.

Lemma SplitBroadcast_roundtrip_witness :
  SplitBroadcast (EncodeBroadcastHeader (replicate broadcastPrefixSize x00) ex_bcast ++ [x01; x02]) =
    Ok (Some ex_bcast, [x01; x02]).
Proof. apply (SplitBroadcast_roundtrip ex_bcast). unfold wf_broadcast, ex_bcast. wf_const. Defined.

(** The broadcast prefix is 92 bytes long (24 + 4*16 + 4): a body of 80 to 91
    bytes is returned whole, without a header, although the comments call the
    prefix an 80-byte one. *)
Theorem broadcast_prefix_92 (body : list byte) :
  (80 <= length body < 92)%nat -> SplitBroadcast body = Ok (None, body).
Proof.
  intros H. unfold SplitBroadcast. change broadcastPrefixSize with 92%nat.
  by rewrite (proj2 (Nat.ltb_lt _ _)) by lia.
Qed.

Lemma broadcast_prefix_92_witness :
  SplitBroadcast (replicate 80 x41) = Ok (None, replicate 80 x41).
Proof. apply (broadcast_prefix_92 (replicate 80 x41)). simpl. lia. Defined.

(** Round trip of trace ids: the hexadecimal form of a 16-byte trace id,
    trailing zero bytes trimmed, reads back to the same id. *)
Theorem TraceID_roundtrip (t : list byte) :
  length t = TraceIDSize -> TraceIDFromHex (TraceIDToHex t) = t.
Proof.
  intros Hl. unfold TraceIDFromHex, TraceIDToHex. pose proof (drop_trailing0_app t) as E.
  pose proof (hex_roundtrip (drop_trailing0 t)) as R.
  set (d := drop_trailing0 t) in *. assert (length d <= TraceIDSize)%nat as Hd.
  { rewrite <-Hl. rewrite E, length_app. lia. }
  assert (blit 0 d (replicate TraceIDSize x00) = t) as B.
  { replace TraceIDSize with (length d + (TraceIDSize - length d))%nat by lia.
    rewrite replicate_add, blit_prefix by (by rewrite length_replicate).
    rewrite <-Hl. by symmetry. }
  destruct (hex_EncodeToString d) as [|c s] eqn:Eh; [|by rewrite R].
  injection R as Rd. by rewrite <-Rd in B.
Qed.

Lemma TraceID_roundtrip_witness :
  TraceIDFromHex (TraceIDToHex (padCopyString 16 [x4b; xf9; x00; x2f])) =
    padCopyString 16 [x4b; xf9; x00; x2f].
Proof. apply (TraceID_roundtrip (padCopyString 16 [x4b; xf9; x00; x2f])). reflexivity. Defined.

(** Layout of the CONNECT request: the encoded request is 248 bytes, every
    field is found at its documented offset, NUL-padded, and the 56-byte area
    that the broker fills is zero. *)
Theorem encodeConnectRequest_layout (r : connectRequest) :
  let b := encodeConnectRequest r in
  length b = 248%nat /\ sub 192 56 b = replicate 56 x00 /\
  sub 0 24 b = padCopyString 24 (cq_mqHost r) /\
  getU32 (sub 24 4 b) = wrap 32 (cq_mqPort r) /\
  sub 28 16 b = padCopyString 16 (cq_mqUser r) /\
  getU32 (sub 44 4 b) = wrap 32 (cq_pid r) /\
  sub 48 16 b = padCopyString 16 (cq_myName r) /\
  sub 64 16 b = padCopyString 16 (cq_chName r) /\
  sub 80 20 b = padCopyString 20 (cq_chIpad r) /\
  getU32 (sub 100 4 b) = wrap 32 (cq_chPort r) /\
  sub 104 16 b = padCopyString 16 (cq_exName r) /\
  getU32 (sub 120 4 b) = wrap 32 (cq_exType r) /\
  sub 124 16 b = padCopyString 16 (cq_quName r) /\
  getU32 (sub 140 4 b) = wrap 32 (cq_quFlag r) /\
  getU32 (sub 144 4 b) = wrap 32 (cq_quAttr r) /\
  getU32 (sub 148 4 b) = wrap 32 (cq_quSize r) /\
  sub 152 40 b = padCopyString 40 (cq_quExpt r).
Proof.
  intros b. unfold b, encodeConnectRequest. change connectionSize with 248%nat.
  autorewrite with buf. split_and!; try done; buf_read; rewrite ?getU32_putU32; done.
Qed.
