(* ===== verification/Sorting.v ===== *)
(** The insertion sort that the pricing code writes out in place, twice: the swap
    curve by tenor days (src/pkg/pricing/valuedate.go) and the customer rules by
    descending priority (src/pkg/pricing/codec.go). *)

From Stdlib Require Import ZArith Lia.
From stdpp Require Export sorting.
From S2P Require Import Prelude.
Local Open Scope Z_scope.

(** * The in-place insertion sort the code base uses

    [for i := 1; ...; for j := i; j > 0 && after(l[j-1], l[j]); j-- { swap }]:
    each element moves left past the elements [after] says belong after it. The
    sorted prefix is kept reversed, its last element first. *)
Section insertion_sort.
Context {A : Type} (after : A -> A -> bool).

Fixpoint move_left (x : A) (rprefix : list A) : list A :=
  match rprefix with
  | [] => [x]
  | y :: r => if after y x then y :: move_left x r else x :: y :: r
  end.

Definition insertion_sort (l : list A) : list A := rev (fold_left (fun r x => move_left x r) l []).

Lemma move_left_perm x r : move_left x r ≡ₚ x :: r.
Proof.
  induction r as [|y r IH]; simpl; [done|]. case_if; [|done].
  rewrite IH. constructor.
Qed.

Lemma fold_move_perm l r : fold_left (fun r x => move_left x r) l r ≡ₚ l ++ r.
Proof.
  revert r. induction l as [|x l IH]; intros r; simpl; [done|].
  rewrite IH, move_left_perm. by rewrite <-Permutation_middle.
Qed.

Lemma insertion_sort_perm l : insertion_sort l ≡ₚ l.
Proof. unfold insertion_sort. rewrite <-Permutation_rev, fold_move_perm. by rewrite app_nil_r. Qed.

(** [after x y] is the failure of a transitive order [R x y], and gives [R y x]. *)
Context (R : A -> A -> Prop) (Htrans : forall x y z, R x y -> R y z -> R x z)
  (Hno : forall x y, after x y = false -> R x y) (Hyes : forall x y, after x y = true -> R y x).

(** Reversed: the order goes down. *)
Lemma move_left_sorted x r : StronglySorted (flip R) r -> StronglySorted (flip R) (move_left x r).
Proof.
  unfold flip. induction 1 as [|y r Hs IH Hy]; simpl; [repeat constructor|].
  destruct (after y x) eqn:E.
  - constructor; [done|]. rewrite move_left_perm. constructor; [by apply Hyes|done].
  - apply Hno in E. constructor; [by constructor|]. constructor; [done|].
    eapply Forall_impl; [exact Hy|]. simpl. eauto.
Qed.

Lemma StronglySorted_rev {B} (Q : B -> B -> Prop) l :
  StronglySorted Q l -> StronglySorted (flip Q) (rev l).
Proof.
  induction 1 as [|x l Hs IH Hx]; simpl; [constructor|].
  apply StronglySorted_app_2; [|done|repeat constructor].
  intros a b Ha Hb. apply list_elem_of_singleton in Hb as ->. unfold flip.
  rewrite Forall_forall in Hx. apply Hx. by apply list_elem_of_In, in_rev, list_elem_of_In in Ha.
Qed.

Lemma insertion_sort_sorted l : StronglySorted R (insertion_sort l).
Proof.
  unfold insertion_sort. apply (StronglySorted_rev (flip R)).
  assert (StronglySorted (flip R) (@nil A)) as H0 by constructor.
  revert H0. generalize (@nil A). induction l as [|x l IH]; intros r Hr; simpl; [done|].
  apply IH. by apply move_left_sorted.
Qed.
End insertion_sort.

(** Stability: elements the order does not separate keep their relative order. *)
Lemma insertion_sort_stable {A} (after : A -> A -> bool) (P : A -> bool) l :
  (forall x y, P x = true -> P y = true -> after x y = false) ->
  List.filter P (insertion_sort after l) = List.filter P l.
Proof.
  intros Heq. unfold insertion_sort.
  assert (forall r x, List.filter P (rev (move_left after x r)) = List.filter P (rev r ++ [x])) as Hm.
  { induction r as [|y r IH]; intros x; simpl; [done|]. destruct (after y x) eqn:E; [|done].
    simpl. rewrite !List.filter_app, IH, !List.filter_app. simpl.
    destruct (P x) eqn:Px, (P y) eqn:Py; rewrite ?app_nil_r, <-?app_assoc; try done.
    by rewrite (Heq y x Py Px) in E. }
  enough (forall r, List.filter P (rev (fold_left (fun r x => move_left after x r) l r)) =
                    List.filter P (rev r ++ l)) as H by (by rewrite H).
  induction l as [|x l IH]; intros r; simpl; [by rewrite app_nil_r|].
  rewrite IH, List.filter_app, Hm, <-List.filter_app. by rewrite <-app_assoc.
Qed.

(** Two ascending lists with distinct keys and the same elements are equal. *)
Lemma sorted_perm_eq {A} (key : A -> Z) (l1 l2 : list A) :
  StronglySorted (fun a b => key a <= key b) l1 -> StronglySorted (fun a b => key a <= key b) l2 ->
  (forall a b, a ∈ l1 -> b ∈ l1 -> key a = key b -> a = b) -> l1 ≡ₚ l2 -> l1 = l2.
Proof.
  intros S1 S2 Inj P. apply (StronglySorted_unique_strong (fun a b => key a <= key b)); try done.
  intros a b Ha Hb L1 L2. apply Inj; [done| |lia]. by rewrite P.
Qed.
