(* ===== verification/GoStrings.v ===== *)
(** Package strings of the Go library, as far as the code uses it: a Go string is a
    byte string; case mapping and white space are those of ASCII, other bytes are
    kept. Comparison is bytewise. *)

From Stdlib Require Import ZArith Lia.
From Stdlib Require Import Strings.Ascii.
From S2P Require Import Prelude Sorting.
Local Open Scope Z_scope.

(** ** White space, case, splitting *)
Definition is_space (c : ascii) : bool :=
  let n := nat_of_ascii c in ((9 <=? n)%nat && (n <=? 13)%nat) || (n =? 32)%nat.
Fixpoint trim_left (s : string) : string :=
  match s with "" => "" | String c s' => if is_space c then trim_left s' else s end.
Fixpoint trim_right (s : string) : string :=
  match s with
  | "" => ""
  | String c s' =>
      match trim_right s' with
      | "" => if is_space c then "" else String c ""
      | t => String c t
      end
  end.
Definition TrimSpace (s : string) : string := trim_right (trim_left s).

Definition ascii_upper (c : ascii) : ascii :=
  let n := nat_of_ascii c in
  if (97 <=? n)%nat && (n <=? 122)%nat then ascii_of_nat (n - 32) else c.
Fixpoint ToUpper (s : string) : string :=
  match s with "" => "" | String c s' => String (ascii_upper c) (ToUpper s') end.

(** [SplitN(s, sep, 2)]: the text before and after the first separator. *)
Fixpoint cut (sep : ascii) (s : string) : option (string * string) :=
  match s with
  | "" => None
  | String c s' =>
      if Ascii.eqb c sep then Some ("", s')
      else match cut sep s' with Some (a, b) => Some (String c a, b) | None => None end
  end.
Definition Contains (s : string) (c : ascii) : bool := if cut c s is Some _ then true else false.
Fixpoint Split_loop (sep : ascii) (tok s : string) : list string :=
  match s with
  | "" => [tok]
  | String c s' =>
      if Ascii.eqb c sep then tok :: Split_loop sep "" s' else Split_loop sep (tok +:+ String c "") s'
  end.
Definition Split (s : string) (sep : ascii) : list string := Split_loop sep "" s.

(** [strings.ToLower] on ASCII text; other bytes are kept. *)
Definition ascii_lower (c : ascii) : ascii :=
  let n := nat_of_ascii c in
  if (65 <=? n)%nat && (n <=? 90)%nat then ascii_of_nat (n + 32) else c.
Fixpoint ToLower (s : string) : string :=
  match s with "" => "" | String c s' => String (ascii_lower c) (ToLower s') end.

Definition HasPrefix (s prefix : string) : bool := String.prefix prefix s.

Fixpoint has_suffix_at (k : nat) (s : string) : string :=
  match k, s with O, _ => s | S k, String _ s' => has_suffix_at k s' | S _, "" => "" end.
(** The bytes from position [k] on. *)
Definition str_drop (k : nat) (s : string) : string := has_suffix_at k s.
Fixpoint str_take (k : nat) (s : string) : string :=
  match k, s with S k, String c s' => String c (str_take k s') | _, _ => "" end.

Definition HasSuffix (s suffix : string) : bool :=
  let n := String.length s in let k := String.length suffix in
  (k <=? n)%nat && bool_decide (str_drop (n - k) s = suffix).
Definition TrimPrefix (s prefix : string) : string :=
  if HasPrefix s prefix then str_drop (String.length prefix) s else s.
Definition TrimSuffix (s suffix : string) : string :=
  if HasSuffix s suffix then str_take (String.length s - String.length suffix) s else s.

(** ** Order and sorting *)
Lemma ltb_false_le a b : String.ltb a b = false -> String.le b a.
Proof.
  unfold String.ltb, String.le, String.leb. rewrite (String.compare_antisym b a).
  by destruct (String.compare a b).
Qed.
Lemma ltb_true_le a b : String.ltb a b = true -> String.le a b.
Proof. unfold String.ltb, String.le, String.leb. by destruct (String.compare a b). Qed.

(** [sort.Strings]: the order is total and antisymmetric, so every sorting
    routine gives this list. *)
Definition sort_Strings : list string -> list string := insertion_sort (fun a b => String.ltb b a).

Lemma sort_Strings_perm l : sort_Strings l ≡ₚ l.
Proof. apply insertion_sort_perm. Qed.

Lemma sort_Strings_sorted l : StronglySorted String.le (sort_Strings l).
Proof.
  apply insertion_sort_sorted.
  - intros x y z. apply transitivity.
  - intros x y. apply ltb_false_le.
  - intros x y. apply ltb_true_le.
Qed.

Lemma sorted_strings_unique l1 l2 :
  StronglySorted String.le l1 -> StronglySorted String.le l2 -> l1 ≡ₚ l2 -> l1 = l2.
Proof. intros. by apply (StronglySorted_unique String.le). Qed.

Lemma sort_Strings_id l : StronglySorted String.le l -> sort_Strings l = l.
Proof. intros. apply sorted_strings_unique; auto using sort_Strings_sorted, sort_Strings_perm. Qed.

(** ** Normal forms *)
Lemma ascii_upper_space c : is_space (ascii_upper c) = is_space c.
Proof. destruct c as [[] [] [] [] [] [] [] []]; reflexivity. Qed.
Lemma ascii_upper_idem c : ascii_upper (ascii_upper c) = ascii_upper c.
Proof. destruct c as [[] [] [] [] [] [] [] []]; reflexivity. Qed.

Lemma ToUpper_idem s : ToUpper (ToUpper s) = ToUpper s.
Proof. induction s as [|c s IH]; simpl; [done|]. by rewrite ascii_upper_idem, IH. Qed.

Lemma ToUpper_trim_left s : ToUpper (trim_left s) = trim_left (ToUpper s).
Proof. induction s as [|c s IH]; simpl; [done|]. rewrite ascii_upper_space. by case_if. Qed.

Lemma ToUpper_trim_right s : ToUpper (trim_right s) = trim_right (ToUpper s).
Proof.
  induction s as [|c s IH]; simpl; [done|]. rewrite ascii_upper_space, <-IH.
  destruct (trim_right s); simpl; [by case_if|done].
Qed.

(** Upper-casing and trimming commute. *)
Lemma ToUpper_TrimSpace s : ToUpper (TrimSpace s) = TrimSpace (ToUpper s).
Proof. unfold TrimSpace. by rewrite ToUpper_trim_right, ToUpper_trim_left. Qed.

Definition starts_space (s : string) : bool := match s with "" => false | String c _ => is_space c end.

Lemma trim_left_starts s : starts_space (trim_left s) = false.
Proof. induction s as [|c s IH]; simpl; [done|]. destruct (is_space c) eqn:E; [done|]. by simpl. Qed.
Lemma trim_left_id s : starts_space s = false -> trim_left s = s.
Proof. destruct s; simpl; [done|]. by intros ->. Qed.
Lemma trim_right_starts s : starts_space s = false -> starts_space (trim_right s) = false.
Proof.
  destruct s as [|c s]; simpl; [done|]. intros E. destruct (trim_right s); [|done]. by rewrite E.
Qed.
Lemma trim_right_idem s : trim_right (trim_right s) = trim_right s.
Proof.
  induction s as [|c s IH]; simpl; [done|]. destruct (trim_right s) as [|d t] eqn:E.
  - destruct (is_space c) eqn:Ec; simpl; [done|]. by rewrite Ec.
  - simpl in *. by rewrite IH.
Qed.

Lemma TrimSpace_idem s : TrimSpace (TrimSpace s) = TrimSpace s.
Proof.
  unfold TrimSpace. rewrite (trim_left_id (trim_right _)), trim_right_idem; [done|].
  apply trim_right_starts, trim_left_starts.
Qed.

(** ** Prefixes and suffixes *)
(** [simpl] for strings. *)
Ltac str_simpl := simpl; repeat first [rewrite str_app_nil_l | rewrite str_app_cons]; simpl.
Ltac str_simpl_in H := simpl in H; repeat first [rewrite str_app_nil_l in H | rewrite str_app_cons in H]; simpl in H.
Lemma str_length_app (a b : string) : String.length (a +:+ b) = (String.length a + String.length b)%nat.
Proof. induction a as [|x a IH]; str_simpl; [done|]. by rewrite IH. Qed.
Lemma str_app_inj_l (a b c : string) : a +:+ b = a +:+ c -> b = c.
Proof. induction a as [|x a IH]; str_simpl; [done|]. intros H. injection H. exact IH. Qed.

Lemma str_drop_app (a b : string) : str_drop (String.length a) (a +:+ b) = b.
Proof. unfold str_drop. induction a as [|x a IH]; str_simpl; [done|]. exact IH. Qed.
Lemma str_take_app (a b : string) : str_take (String.length a) (a +:+ b) = a.
Proof. induction a as [|x a IH]; str_simpl; [by destruct b|]. by rewrite IH. Qed.
Lemma str_take_drop (k : nat) (s : string) : str_take k s +:+ str_drop k s = s.
Proof.
  revert k. unfold str_drop. induction s as [|x s IH]; intros [|k]; str_simpl; try done. by rewrite IH.
Qed.
Lemma str_length_take (k : nat) (s : string) : String.length (str_take k s) = Nat.min k (String.length s).
Proof. revert k. induction s as [|x s IH]; intros [|k]; simpl; try done. by rewrite IH. Qed.

Lemma HasPrefix_iff s p : HasPrefix s p = true <-> exists t, s = p +:+ t.
Proof.
  unfold HasPrefix. revert s. induction p as [|c p IH]; intros s; simpl.
  - split; [by exists s|]. by destruct s.
  - setoid_rewrite str_app_cons. destruct s as [|d s]; simpl; [split; [done|by intros []]|].
    destruct (Ascii.ascii_dec c d) as [->|N].
    + rewrite IH. split; intros [t Ht]; exists t; [by rewrite Ht|by injection Ht].
    + split; [done|]. intros [t Ht]. injection Ht. congruence.
Qed.
Lemma HasPrefix_app p t : HasPrefix (p +:+ t) p = true.
Proof. apply HasPrefix_iff. by exists t. Qed.

Lemma HasSuffix_iff s x : HasSuffix s x = true <-> exists t, s = t +:+ x.
Proof.
  unfold HasSuffix. rewrite andb_true_iff, Nat.leb_le, bool_decide_eq_true. split.
  - intros [L H]. exists (str_take (String.length s - String.length x) s). rewrite <-H at 2. symmetry. apply str_take_drop.
  - intros [t ->]. rewrite str_length_app. split; [lia|].
    replace (String.length t + String.length x - String.length x)%nat with (String.length t) by lia. apply str_drop_app.
Qed.
Lemma TrimSuffix_app t x : TrimSuffix (t +:+ x) x = t.
Proof.
  unfold TrimSuffix. rewrite (proj2 (HasSuffix_iff _ _)) by (by exists t). rewrite str_length_app.
  replace (String.length t + String.length x - String.length x)%nat with (String.length t) by lia. apply str_take_app.
Qed.
Lemma TrimPrefix_app p t : TrimPrefix (p +:+ t) p = t.
Proof. unfold TrimPrefix. by rewrite HasPrefix_app, str_drop_app. Qed.

(** Prefixes of one string of the same length are equal. *)
Lemma prefix_same_length p1 p2 t1 t2 :
  p1 +:+ t1 = p2 +:+ t2 -> String.length p1 = String.length p2 -> p1 = p2.
Proof.
  revert p2. induction p1 as [|c p1 IH]; intros [|d p2]; str_simpl; try done.
  intros H L. injection H as -> H. injection L as L. by rewrite (IH p2).
Qed.

(** ** Characters *)

(** Some byte of the string satisfies [f]. *)
Fixpoint any_char (f : ascii -> bool) (s : string) : bool :=
  match s with "" => false | String c s' => f c || any_char f s' end.
(** [strings.IndexByte]. *)
Fixpoint IndexByte (s : string) (c : ascii) : option nat :=
  match s with
  | "" => None
  | String d s' => if Ascii.eqb d c then Some O else option_map S (IndexByte s' c)
  end.

Lemma any_char_app f a b : any_char f (a +:+ b) = any_char f a || any_char f b.
Proof. induction a as [|c a IH]; str_simpl; [done|]. by rewrite IH, orb_assoc. Qed.

Lemma IndexByte_None s c : IndexByte s c = None <-> any_char (Ascii.eqb c) s = false.
Proof.
  induction s as [|d s IH]; simpl; [done|]. rewrite (Ascii.eqb_sym c d). destruct (Ascii.eqb d c); simpl; [done|].
  rewrite <-IH. by destruct (IndexByte s c).
Qed.

Lemma IndexByte_Some s c i :
  IndexByte s c = Some i ->
  exists a b, s = a +:+ String c b /\ String.length a = i /\ any_char (Ascii.eqb c) a = false.
Proof.
  revert i. induction s as [|d s IH]; intros i; simpl; [done|].
  destruct (Ascii.eqb_spec d c) as [->|N].
  - intros [= <-]. by exists "", s.
  - destruct (IndexByte s c) as [j|]; [|done]. intros [= <-]. destruct (IH j eq_refl) as (a & b & -> & L & F).
    exists (String d a), b. str_simpl. rewrite L, F, orb_false_r. split; [done|]. split; [done|]. apply Ascii.eqb_neq. congruence.
Qed.

Lemma IndexByte_app a c b : any_char (Ascii.eqb c) a = false -> IndexByte (a +:+ String c b) c = Some (String.length a).
Proof.
  induction a as [|d a IH]; str_simpl; [by rewrite Ascii.eqb_refl|]. rewrite (Ascii.eqb_sym c d).
  intros [-> F]%orb_false_iff. by rewrite IH.
Qed.

Create Rewrite HintDb gostr.
#[export] Hint Rewrite ToUpper_idem TrimSpace_idem ToUpper_TrimSpace : gostr.

(** ** A text codec for countable data

    Instances of the JSON parameters of the model: the digits of the code of a value. *)
Fixpoint digits (p : positive) : string :=
  match p with xH => "" | xO p => String "0" (digits p) | xI p => String "1" (digits p) end.
Fixpoint of_digits (s : string) : option positive :=
  match s with
  | "" => Some xH
  | String "0" s => option_map xO (of_digits s)
  | String "1" s => option_map xI (of_digits s)
  | _ => None
  end.
Definition to_text {A} `{Countable A} (a : A) : string := digits (encode a).
Definition of_text {A} `{Countable A} (s : string) : option A :=
  match of_digits s with Some p => decode p | None => None end.

Lemma of_to_text {A} `{Countable A} (a : A) : of_text (to_text a) = Some a.
Proof.
  unfold of_text, to_text. assert (forall p, of_digits (digits p) = Some p) as D.
  { induction p as [p IH|p IH|]; simpl; rewrite ?IH; done. }
  by rewrite D, decode_encode.
Qed.
