(* ===== verification/Strconv.v ===== *)
(** Package strconv of the Go library, as far as the code uses it: decimal integers
    of 64 bits. *)

From Stdlib Require Import ZArith Lia.
From Stdlib Require Import Strings.Ascii.
From S2P Require Import Prelude GoStrings.
Local Open Scope Z_scope.

(** ** Parsing *)
Definition undigit (c : ascii) : option Z :=
  let n := Z.of_nat (nat_of_ascii c) in if (48 <=? n) && (n <=? 57) then Some (n - 48) else None.
Fixpoint parse_digits (acc : Z) (s : string) : option Z :=
  match s with
  | "" => Some acc
  | String c s' => match undigit c with Some d => parse_digits (acc * 10 + d) s' | None => None end
  end.
Definition parse_nat (s : string) : option Z := if decide (s = "") then None else parse_digits 0 s.

(** [strconv.Atoi]: the value and whether the error is nil. Out of range the value is
    the nearest bound; a syntax error gives 0. *)
Definition Atoi (s : string) : Z * bool :=
  let '(neg, d) := match s with
                   | String "-" s' => (true, s')
                   | String "+" s' => (false, s')
                   | _ => (false, s) end in
  match parse_nat d with
  | None => (0, false)
  | Some n =>
      let v := if neg : bool then - n else n in
      if v <? - 2 ^ 63 then (- 2 ^ 63, false) else if 2 ^ 63 - 1 <? v then (2 ^ 63 - 1, false) else (v, true)
  end.

(** ** Formatting *)
Definition digit (d : Z) : ascii := ascii_of_nat (Z.to_nat (d + 48)).
Fixpoint format_digits (fuel : nat) (u : Z) (acc : string) : string :=
  match fuel with
  | O => acc
  | S fuel => if u <? 10 then String (digit u) acc else format_digits fuel (u / 10) (String (digit (u mod 10)) acc)
  end.
(** [strconv.Itoa] on 64-bit integers. *)
Definition Itoa (i : Z) : string := if i <? 0 then "-" +:+ format_digits 20 (- i) "" else format_digits 20 i "".

(** ** Round trip *)
Lemma undigit_digit d : 0 <= d < 10 -> undigit (digit d) = Some d.
Proof.
  intros H. assert (In d (map Z.of_nat (seq 0 10))) as Hin.
  { apply in_map_iff. exists (Z.to_nat d). rewrite in_seq. lia. }
  revert Hin. cbn. intros Hin. repeat (destruct Hin as [<-|Hin]; [by vm_compute|]). done.
Qed.

Lemma format_digits_spec fuel u acc :
  0 <= u < 10 ^ Z.of_nat fuel -> (0 < fuel)%nat ->
  parse_digits 0 (format_digits fuel u acc) = parse_digits u acc /\
  exists d s, format_digits fuel u acc = String (digit d) s /\ 0 <= d < 10.
Proof.
  revert u acc. induction fuel as [|fuel IH]; intros u acc Hu Hf; [lia|]. simpl format_digits.
  destruct (Z.ltb_spec u 10) as [L|L].
  - simpl. rewrite undigit_digit by lia. split; [done|]. exists u, acc. split; [done|lia].
  - assert (fuel <> O) as Hf' by (intros ->; simpl in Hu; lia).
    destruct (IH (u / 10) (String (digit (u mod 10)) acc)) as [E X]; [|lia|].
    + rewrite Nat2Z.inj_succ, Z.pow_succ_r in Hu by lia. split; [apply Z.div_pos; lia|]. apply Z.div_lt_upper_bound; lia.
    + rewrite E. simpl. rewrite undigit_digit by (apply Z.mod_pos_bound; lia). split; [|done].
      f_equal. pose proof (Z.div_mod u 10). lia.
Qed.

Lemma digit_not_sign d : 0 <= d < 10 -> digit d <> "-"%char /\ digit d <> "+"%char.
Proof.
  intros H. assert (In d (map Z.of_nat (seq 0 10))) as Hin.
  { apply in_map_iff. exists (Z.to_nat d). rewrite in_seq. lia. }
  revert Hin. cbn. intros Hin. repeat (destruct Hin as [<-|Hin]; [by vm_compute|]). done.
Qed.

Lemma Atoi_nosign c s : c <> "-"%char -> c <> "+"%char ->
  Atoi (String c s) = match parse_digits 0 (String c s) with
    | None => (0, false)
    | Some v => if v <? - 2 ^ 63 then (- 2 ^ 63, false) else if 2 ^ 63 - 1 <? v then (2 ^ 63 - 1, false) else (v, true) end.
Proof. intros N1 N2. destruct c as [[] [] [] [] [] [] [] []]; try done. Qed.

Lemma Atoi_Itoa n : 0 <= n < 2 ^ 63 -> Atoi (Itoa n) = (n, true).
Proof.
  intros H. unfold Itoa. rewrite (proj2 (Z.ltb_ge n 0)) by lia.
  destruct (format_digits_spec 20 n "") as (E & d & s & F & Hd); [lia|lia|]. rewrite F in *.
  destruct (digit_not_sign d Hd) as [N1 N2]. rewrite Atoi_nosign by done. rewrite E. cbn [parse_digits].
  rewrite (proj2 (Z.ltb_ge n (- 2 ^ 63))), (proj2 (Z.ltb_ge (2 ^ 63 - 1) n)) by lia. done.
Qed.
