(* ===== verification/Float64.v ===== *)
(** Go's [float64] (IEEE 754 binary64): values are rationals with the sign kept
    apart (so -0 exists), infinities and NaN; every operation is the exact
    rational result rounded to nearest, ties to even, on the binary64 grid. The
    laws at the end (rounding is monotone and fixes representable values) carry
    the price theorems of the other files. *)

From Stdlib Require Import ZArith Lia QArith Qpower Qround Qabs Lqa.
From S2P Require Import Prelude.
Local Open Scope Q_scope.

(** * Rounding *)

(** Round half to even. *)
Definition rne (q : Q) : Z :=
  let n := Qfloor q in
  match Qcompare (q - inject_Z n) (1 # 2) with
  | Lt => n
  | Gt => (n + 1)%Z
  | Eq => if Z.even n then n else (n + 1)%Z
  end.

(** [floor (log2 q)] for positive [q]. *)
Definition ilog2 (q : Q) : Z :=
  let k := (Z.log2 (Qnum q) - Z.log2 (Zpos (Qden q)))%Z in
  if Qle_bool (2 ^ k) q then k else (k - 1)%Z.

(** Exponent of the grid (unit in the last place) of a positive [q]: 53 bits of
    precision, gradual underflow at [2^-1074]. *)
Definition grid (q : Q) : Z := Z.max (ilog2 q - 52) (-1074).

(** The magnitude [q] (non-negative) rounded. *)
Definition rndQ (q : Q) : Q :=
  if Qeq_bool q 0 then 0
  else let e := grid q in Qred (inject_Z (rne (q / 2 ^ e)) * 2 ^ e).

(** * Values and operations *)
Inductive f64 :=
| NaN
| Inf (neg : bool)
| Fin (neg : bool) (mag : Q).

Definition fval (neg : bool) (mag : Q) : Q := if neg then - mag else mag.

Definition f0 : f64 := Fin false 0.
Definition f1 : f64 := Fin false 1.
Definition f2 : f64 := Fin false 2.

(** First magnitude that no longer fits. *)
Definition fmax_bound : Q := inject_Z (2 ^ 1024).

(** Rounds an exact result; [zs] is the sign of an exact zero. *)
Definition fround (zs : bool) (v : Q) : f64 :=
  if Qeq_bool v 0 then Fin zs 0
  else
    let neg := negb (Qle_bool 0 v) in
    let m := rndQ (Qabs v) in
    if Qle_bool fmax_bound m then Inf neg else Fin neg m.

Definition fopp (x : f64) : f64 :=
  match x with NaN => NaN | Inf s => Inf (negb s) | Fin s m => Fin (negb s) m end.

Definition fadd (x y : f64) : f64 :=
  match x, y with
  | NaN, _ | _, NaN => NaN
  | Inf s, Inf s' => if Bool.eqb s s' then Inf s else NaN
  | Inf s, Fin _ _ | Fin _ _, Inf s => Inf s
  | Fin s m, Fin s' m' => fround (s && s') (fval s m + fval s' m')
  end.
Definition fsub (x y : f64) : f64 := fadd x (fopp y).

Definition fmul (x y : f64) : f64 :=
  match x, y with
  | NaN, _ | _, NaN => NaN
  | Inf s, Inf s' => Inf (xorb s s')
  | Inf s, Fin s' m | Fin s' m, Inf s => if Qeq_bool m 0 then NaN else Inf (xorb s s')
  | Fin s m, Fin s' m' => fround (xorb s s') (fval s m * fval s' m')
  end.

Definition fdiv (x y : f64) : f64 :=
  match x, y with
  | NaN, _ | _, NaN => NaN
  | Inf s, Inf s' => NaN
  | Inf s, Fin s' _ => Inf (xorb s s')
  | Fin s _, Inf s' => Fin (xorb s s') 0
  | Fin s m, Fin s' m' =>
      if Qeq_bool m' 0 then if Qeq_bool m 0 then NaN else Inf (xorb s s')
      else fround (xorb s s') (fval s m / fval s' m')
  end.

(** Ordered comparisons are false on NaN. *)
Definition fleb (x y : f64) : bool :=
  match x, y with
  | NaN, _ | _, NaN => false
  | Inf true, _ | _, Inf false => true
  | Inf false, _ | _, Inf true => false
  | Fin s m, Fin s' m' => Qle_bool (fval s m) (fval s' m')
  end.
Definition feqb (x y : f64) : bool := fleb x y && fleb y x.
Definition fltb (x y : f64) : bool := fleb x y && negb (fleb y x).

(** Conversion of an integer ([float64(n)] of Go). *)
Definition f_of_Z (n : Z) : f64 := fround false (inject_Z n).

(** The nearest float64 of a decimal literal. *)
Definition lit (q : Q) : f64 := fround false q.

Infix "+f" := fadd (at level 50, left associativity) : wtg_scope.
Infix "-f" := fsub (at level 50, left associativity) : wtg_scope.
Infix "*f" := fmul (at level 40, left associativity) : wtg_scope.
Infix "/f" := fdiv (at level 40, left associativity) : wtg_scope.
Infix "<=f" := fleb (at level 70) : wtg_scope.
Infix "<f" := fltb (at level 70) : wtg_scope.
Infix "==f" := feqb (at level 70) : wtg_scope.
Local Open Scope wtg_scope.

(** A float that a Go program can hold: a magnitude on the grid, below the
    overflow bound. *)
Definition is_f64 (x : f64) : Prop :=
  match x with
  | Fin _ m => 0 <= m /\ rndQ m == m /\ m < fmax_bound
  | _ => True
  end.
Definition finite (x : f64) : Prop := match x with Fin _ _ => True | _ => False end.

Arguments rndQ : simpl never.
Arguments fround : simpl never.
Arguments fmax_bound : simpl never.

Example add_tenths : lit (1 # 10) +f lit (2 # 10) = Fin false (1351079888211149 # 4503599627370496).
Proof. vm_compute. reflexivity. Qed.
Example sum_not_three_tenths : (lit (1 # 10) +f lit (2 # 10) ==f lit (3 # 10)) = false.
Proof. vm_compute. reflexivity. Qed.
Example overflow_to_inf : lit (inject_Z (10 ^ 308)) *f lit 10 = Inf false.
Proof. vm_compute. reflexivity. Qed.
Example underflow_to_zero : lit (1 # (2 ^ 1074)) /f f2 = f0.
Proof. vm_compute. reflexivity. Qed.

(** * Laws of rounding *)

Lemma Qpow2_pos e : 0 < 2 ^ e.
Proof. apply Qpower_0_lt. reflexivity. Qed.

Lemma Qpow2_le a b : (a <= b)%Z -> 2 ^ a <= 2 ^ b.
Proof. intros. apply Qpower_le_compat_l; [done|]. discriminate. Qed.

Lemma Qpow2_add a b : 2 ^ (a + b) == 2 ^ a * 2 ^ b.
Proof. apply Qpower_plus. discriminate. Qed.

Lemma Qpow2_Z a : (0 <= a)%Z -> 2 ^ a == inject_Z (2 ^ a).
Proof. intros. by rewrite Zpower_Qpower. Qed.

Lemma Qfloor_bounds q : inject_Z (Qfloor q) <= q < inject_Z (Qfloor q) + 1.
Proof.
  split; [apply Qfloor_le|]. pose proof (Qlt_floor q) as H.
  rewrite inject_Z_plus in H. exact H.
Qed.

Lemma rne_cases q :
  (rne q = Qfloor q /\ q - inject_Z (Qfloor q) <= 1 # 2) \/
  (rne q = (Qfloor q + 1)%Z /\ 1 # 2 <= q - inject_Z (Qfloor q)).
Proof.
  unfold rne. destruct (Qcompare_spec (q - inject_Z (Qfloor q)) (1 # 2)) as [E|E|E].
  - destruct (Z.even _); [left|right]; split; try done; lra.
  - left. split; [done|lra].
  - right. split; [done|lra].
Qed.

Lemma rne_mono q q' : q <= q' -> (rne q <= rne q')%Z.
Proof.
  intros H. pose proof (Qfloor_resp_le _ _ H) as Hf.
  pose proof (rne_cases q) as C. pose proof (rne_cases q') as C'.
  destruct (Z.eq_dec (Qfloor q) (Qfloor q')) as [E|]; [|destruct C as [[-> ?]|[-> ?]], C' as [[-> ?]|[-> ?]]; lia].
  destruct (Qeq_dec q q') as [Heq|Hne].
  { assert (rne q = rne q') as ->; [|lia]. unfold rne. rewrite E.
    assert (q - inject_Z (Qfloor q') == q' - inject_Z (Qfloor q')) as Hs by (rewrite Heq; reflexivity).
    by rewrite (Qcompare_comp _ _ Hs _ _ (Qeq_refl (1 # 2))). }
  destruct C as [[-> ?]|[-> ?]], C' as [[-> ?]|[-> ?]]; try lia.
  rewrite E in *. lra.
Qed.

Lemma rne_comp q q' : q == q' -> rne q = rne q'.
Proof. intros E. apply Z.le_antisymm; apply rne_mono; rewrite E; apply Qle_refl. Qed.

Lemma rne_Z z : rne (inject_Z z) = z.
Proof.
  unfold rne. rewrite Qfloor_Z.
  rewrite (proj1 (Qlt_alt _ _)); [done|]. ring_simplify. reflexivity.
Qed.

Lemma rne_le_Z q z : q <= inject_Z z -> (rne q <= z)%Z.
Proof. intros. rewrite <-(rne_Z z). by apply rne_mono. Qed.
Lemma rne_ge_Z q z : inject_Z z <= q -> (z <= rne q)%Z.
Proof. intros. rewrite <-(rne_Z z). by apply rne_mono. Qed.

Lemma Qmake_bounds n d :
  (0 < n)%Z ->
  2 ^ (Z.log2 n - Z.log2 (Zpos d) - 1) < n # d /\ n # d < 2 ^ (Z.log2 n - Z.log2 (Zpos d) + 1).
Proof.
  intros Hn. set (a := Z.log2 n). set (b := Z.log2 (Zpos d)).
  pose proof (Z.log2_spec n Hn) as [A1 A2]. fold a in A1, A2.
  pose proof (Z.log2_spec (Zpos d) eq_refl) as [B1 B2]. fold b in B1, B2.
  pose proof (Z.log2_nonneg n). fold a in H. pose proof (Z.log2_nonneg (Zpos d)). fold b in H0.
  assert (HD : 0 < inject_Z (Zpos d)) by reflexivity.
  assert (E : (n # d) == inject_Z n / inject_Z (Zpos d)) by apply Qmake_Qdiv.
  rewrite E. rewrite Zle_Qle in A1, B1. rewrite Zlt_Qlt in A2, B2.
  rewrite <-Qpow2_Z in A1, A2, B1, B2 by lia.
  split.
  - apply Qlt_shift_div_l; [done|].
    assert (2 ^ (a - b - 1) * 2 ^ Z.succ b == 2 ^ a) as Ea
      by (rewrite <-Qpow2_add; f_equiv; lia).
    eapply Qlt_le_trans; [apply Qmult_lt_l; [apply Qpow2_pos|exact B2]|]. lra.
  - apply Qlt_shift_div_r; [done|].
    assert (2 ^ (a - b + 1) * 2 ^ b == 2 ^ Z.succ a) as Ea
      by (rewrite <-Qpow2_add; f_equiv; lia).
    eapply Qlt_le_trans; [exact A2|]. rewrite <-Ea.
    apply Qmult_le_l; [apply Qpow2_pos|done].
Qed.

Lemma ilog2_spec q : 0 < q -> 2 ^ ilog2 q <= q /\ q < 2 ^ (ilog2 q + 1).
Proof.
  intros Hq. destruct q as [n d]. assert (Hn : (0 < n)%Z) by (unfold Qlt in Hq; simpl in Hq; lia).
  pose proof (Qmake_bounds n d Hn) as [H1 H2]. unfold ilog2. cbn [Qnum Qden].
  destruct (Qle_bool _ _) eqn:E.
  - apply Qle_bool_iff in E. done.
  - assert (~ 2 ^ (Z.log2 n - Z.log2 (Zpos d)) <= n # d) as E' by (rewrite <-Qle_bool_iff, E; done).
    apply Qnot_le_lt in E'. split; [lra|].
    by replace (Z.log2 n - Z.log2 (Zpos d) - 1 + 1)%Z with (Z.log2 n - Z.log2 (Zpos d))%Z by lia.
Qed.

Lemma Qpow2_lt_inv a b : 2 ^ a < 2 ^ b -> (a < b)%Z.
Proof.
  intros H. destruct (Z_lt_le_dec a b) as [|L]; [done|].
  apply Qpow2_le in L. lra.
Qed.

Lemma ilog2_mono q q' : 0 < q -> q <= q' -> (ilog2 q <= ilog2 q')%Z.
Proof.
  intros Hq H. pose proof (ilog2_spec q Hq) as [A _].
  pose proof (ilog2_spec q' ltac:(lra)) as [_ B].
  assert (2 ^ ilog2 q < 2 ^ (ilog2 q' + 1)) as C by lra.
  apply Qpow2_lt_inv in C. lia.
Qed.

Lemma Qeq_bool_false q : 0 < q -> Qeq_bool q 0 = false.
Proof.
  intros H. destruct (Qeq_bool q 0) eqn:E; [|done]. apply Qeq_bool_iff in E. lra.
Qed.

Lemma Qeq_bool_ne q : ~ q == 0 -> Qeq_bool q 0 = false.
Proof. intros H. destruct (Qeq_bool q 0) eqn:E; [|done]. by apply Qeq_bool_iff in E. Qed.

Lemma rndQ_0 q : q == 0 -> rndQ q = 0.
Proof. intros H. unfold rndQ. by rewrite (proj2 (Qeq_bool_iff _ _) H). Qed.

Lemma rndQ_eq q : 0 < q -> rndQ q == inject_Z (rne (q / 2 ^ grid q)) * 2 ^ grid q.
Proof. intros H. unfold rndQ. rewrite Qeq_bool_false by done. apply Qred_correct. Qed.

Lemma grid_upper q : 0 < q -> q / 2 ^ grid q <= inject_Z (2 ^ 53).
Proof.
  intros H. apply Qle_shift_div_r; [apply Qpow2_pos|].
  rewrite <-Qpow2_Z, <-Qpow2_add by lia.
  pose proof (ilog2_spec q H) as [_ A].
  assert (2 ^ (ilog2 q + 1) <= 2 ^ (53 + grid q)) by (apply Qpow2_le; unfold grid; lia). lra.
Qed.

Lemma grid_lower q : 0 < q -> (-1074 < grid q)%Z -> inject_Z (2 ^ 52) <= q / 2 ^ grid q.
Proof.
  intros H Hg. apply Qle_shift_div_l; [apply Qpow2_pos|].
  rewrite <-Qpow2_Z, <-Qpow2_add by lia.
  pose proof (ilog2_spec q H) as [A _].
  assert (2 ^ (52 + grid q) <= 2 ^ ilog2 q) by (apply Qpow2_le; unfold grid in *; lia). lra.
Qed.

Lemma rndQ_nonneg q : 0 <= q -> 0 <= rndQ q.
Proof.
  intros [Hq|Hq]%Qle_lteq; [|by rewrite rndQ_0 by (by symmetry)].
  rewrite rndQ_eq by done. apply Qmult_le_0_compat; [|pose proof (Qpow2_pos (grid q)); lra].
  rewrite <-(Zle_Qle 0). apply rne_ge_Z. apply Qle_shift_div_l; [apply Qpow2_pos|]. change (inject_Z 0) with 0. lra.
Qed.

Lemma rndQ_mono q q' : 0 <= q -> q <= q' -> rndQ q <= rndQ q'.
Proof.
  intros H0 H. apply Qle_lteq in H0 as [H0|H0].
  2: { rewrite (rndQ_0 q) by (by symmetry). apply rndQ_nonneg. lra. }
  rewrite !rndQ_eq by lra. pose proof (Qpow2_pos (grid q)) as P.
  pose proof (ilog2_mono q q' H0 H) as L.
  destruct (Z.eq_dec (grid q) (grid q')) as [E|Hne].
  - rewrite E in *. apply Qmult_le_r; [done|]. rewrite <-Zle_Qle. apply rne_mono.
    apply Qle_shift_div_l; [done|]. field_simplify; lra.
  - assert (grid q < grid q' /\ -1074 < grid q')%Z as [G1 G2] by (unfold grid in *; lia).
    pose proof (rne_le_Z _ _ (grid_upper q H0)) as U. rewrite Zle_Qle in U.
    pose proof (rne_ge_Z _ _ (grid_lower q' ltac:(lra) G2)) as D. rewrite Zle_Qle in D.
    apply Qle_trans with (inject_Z (2 ^ 53) * 2 ^ grid q); [by apply Qmult_le_r|].
    apply Qle_trans with (inject_Z (2 ^ 52) * 2 ^ grid q').
    + rewrite <-!Qpow2_Z, <-!Qpow2_add by lia. apply Qpow2_le. lia.
    + apply Qmult_le_r; [apply Qpow2_pos|done].
Qed.

Lemma rndQ_comp q q' : 0 <= q -> q == q' -> rndQ q == rndQ q'.
Proof. intros H E. apply Qle_antisym; apply rndQ_mono; rewrite <-?E; try done; rewrite E; lra. Qed.

(** A multiple of [2^g] below [2^(g+53)] is on a grid at most [g]. *)
Lemma grid_le r g z : (-1074 <= g)%Z -> (0 < z < 2 ^ 53)%Z -> r == inject_Z z * 2 ^ g -> (grid r <= g)%Z.
Proof.
  intros Hg [Z1 Z2] E. assert (0 < r) as Hr.
  { rewrite E. apply Qmult_lt_0_compat; [by rewrite (Zlt_Qlt 0) in Z1|apply Qpow2_pos]. }
  pose proof (ilog2_spec r Hr) as [A _]. rewrite Zlt_Qlt, <-Qpow2_Z in Z2 by lia.
  pose proof (proj2 (Qmult_lt_r _ _ (2 ^ g) (Qpow2_pos g)) Z2) as M.
  rewrite <-Qpow2_add in M. assert (2 ^ ilog2 r < 2 ^ (53 + g)) as C by lra.
  apply Qpow2_lt_inv in C. unfold grid. lia.
Qed.

Lemma rndQ_exact z g : (0 < z)%Z -> (grid (inject_Z z * 2 ^ g) <= g)%Z ->
  rndQ (inject_Z z * 2 ^ g) == inject_Z z * 2 ^ g.
Proof.
  intros Hz Hg. set (r := inject_Z z * 2 ^ g) in *.
  assert (0 < r) as Hr by (apply Qmult_lt_0_compat; [by rewrite (Zlt_Qlt 0) in Hz|apply Qpow2_pos]).
  rewrite rndQ_eq by done. pose proof (Qpow2_pos (grid r)) as P.
  assert (r == inject_Z (z * 2 ^ (g - grid r)) * 2 ^ grid r) as E.
  { rewrite inject_Z_mult, <-Qpow2_Z, <-Qmult_assoc, <-Qpow2_add by lia.
    unfold r at 1. f_equiv. f_equiv. lia. }
  assert (r / 2 ^ grid r == inject_Z (z * 2 ^ (g - grid r))) as Er.
  { rewrite E at 1. field. lra. }
  assert (rne (r / 2 ^ grid r) = z * 2 ^ (g - grid r))%Z as -> by (rewrite <-rne_Z; by apply rne_comp).
  by symmetry.
Qed.

(** Rounding is idempotent: its results are on the grid. *)
Lemma rndQ_idem q : 0 <= q -> rndQ (rndQ q) == rndQ q.
Proof.
  intros [Hq|Hq]%Qle_lteq; [|by rewrite (rndQ_0 q) by (by symmetry)].
  pose proof (rndQ_eq q Hq) as E. pose proof (rne_le_Z _ _ (grid_upper q Hq)) as U.
  pose proof (rndQ_nonneg q ltac:(lra)) as Hn.
  set (n := rne _) in *. set (g := grid q) in *. pose proof (Qpow2_pos g) as P.
  assert (-1074 <= g)%Z as Hg by (unfold g, grid; lia). clearbody n g.
  rewrite (rndQ_comp _ _ Hn E), E. rewrite E in Hn.
  assert (0 <= n)%Z as N0.
  { apply Z.nlt_ge. intros L. rewrite Zlt_Qlt in L.
    pose proof (proj2 (Qmult_lt_r (inject_Z n) 0 (2 ^ g) P) L). lra. }
  destruct (Z.eq_dec n 0%Z) as [->|Nz]; [rewrite rndQ_0; [|]; change (inject_Z 0) with 0; ring|].
  destruct (Z.eq_dec n (2 ^ 53)%Z) as [->|Nt].
  - assert (inject_Z (2 ^ 53) * 2 ^ g == inject_Z (2 ^ 52) * 2 ^ (g + 1)) as E2
      by (rewrite <-!Qpow2_Z, <-!Qpow2_add by lia; f_equiv; lia).
    rewrite (rndQ_comp _ _ Hn E2), E2. apply rndQ_exact; [lia|].
    apply (grid_le _ (g + 1) (2 ^ 52)); [lia|lia|done].
  - apply rndQ_exact; [lia|]. apply (grid_le _ g n); [lia|lia|done].
Qed.

(** * Laws of the operations *)

(** Signed rounding. *)
Definition srnd (v : Q) : Q := if Qle_bool 0 v then rndQ v else - rndQ (- v).

Lemma Qle_bool_false a b : Qle_bool a b = false -> b < a.
Proof. intros E. apply Qnot_le_lt. by rewrite <-Qle_bool_iff, E. Qed.

Ltac case_Qle :=
  match goal with
  | |- context [Qle_bool ?a ?b] =>
      let E := fresh "E" in destruct (Qle_bool a b) eqn:E;
      [apply Qle_bool_iff in E | apply Qle_bool_false in E]
  end.

Lemma srnd_mono v w : v <= w -> srnd v <= srnd w.
Proof.
  intros H. unfold srnd. repeat case_Qle.
  - by apply rndQ_mono.
  - lra.
  - pose proof (rndQ_nonneg w E0). pose proof (rndQ_nonneg (- v) ltac:(lra)). lra.
  - pose proof (rndQ_mono (- w) (- v) ltac:(lra) ltac:(lra)). lra.
Qed.

Lemma srnd_comp v w : v == w -> srnd v == srnd w.
Proof. intros E. apply Qle_antisym; apply srnd_mono; rewrite E; apply Qle_refl. Qed.

Lemma srnd_fix s m : 0 <= m -> rndQ m == m -> srnd (fval s m) == fval s m.
Proof.
  intros H E. unfold srnd, fval. destruct s; case_Qle; try lra.
  - rewrite (rndQ_comp (- m) m ltac:(lra) ltac:(lra)). lra.
  - rewrite (rndQ_comp (- - m) m ltac:(lra) ltac:(ring)). lra.
Qed.

(** [x] is the float whose value is [v], which overflowed when it is infinite. *)
Definition has_val (x : f64) (v : Q) : Prop :=
  match x with
  | NaN => False
  | Inf false => fmax_bound <= v
  | Inf true => v <= - fmax_bound
  | Fin s m => fval s m == v /\ - fmax_bound < v < fmax_bound
  end.

Lemma fmax_pos : 0 < fmax_bound.
Proof. reflexivity. Qed.

Lemma fround_val zs v : has_val (fround zs v) (srnd v).
Proof.
  unfold fround, srnd. pose proof fmax_pos as B. destruct (Qeq_bool v 0) eqn:Z.
  - apply Qeq_bool_iff in Z. simpl. rewrite (rndQ_0 v Z), (rndQ_0 (- v)) by lra.
    destruct zs, (Qle_bool 0 v); simpl; lra.
  - pose proof (Qabs_nonneg v) as A. pose proof (rndQ_nonneg _ A) as R. destruct (Qle_bool 0 v) eqn:E; simpl negb;
      [apply Qle_bool_iff in E|apply Qle_bool_false in E].
    + pose proof (rndQ_comp _ _ A (Qabs_pos v E)). case_Qle; simpl; lra.
    + pose proof (rndQ_comp _ _ A (Qabs_neg v ltac:(lra))). case_Qle; simpl; lra.
Qed.

Lemma fround_is_f64 zs v : is_f64 (fround zs v).
Proof.
  unfold fround. destruct (Qeq_bool v 0); [by vm_compute|]. case_Qle; [done|].
  simpl. pose proof (Qabs_nonneg v). auto using rndQ_nonneg, rndQ_idem.
Qed.

Lemma fround_not_nan zs v : fround zs v <> NaN.
Proof. pose proof (fround_val zs v) as H. intros E. by rewrite E in H. Qed.

Lemma is_f64_val s m : is_f64 (Fin s m) -> has_val (Fin s m) (srnd (fval s m)).
Proof.
  intros (H0 & E & Hb). pose proof (srnd_fix s m H0 E) as F. pose proof fmax_pos.
  simpl. rewrite F. destruct s; simpl; lra.
Qed.

Lemma has_val_le x y v w : has_val x v -> has_val y w -> v <= w -> fleb x y = true.
Proof.
  pose proof fmax_pos as B. intros Hx Hy H.
  destruct x as [|[]|s m], y as [|[]|s' m']; simpl in *; try done; try lra.
  apply Qle_bool_iff. lra.
Qed.

(** Rounding never crosses a representable value. *)
Lemma fround_le zs zs' v w : v <= w -> fleb (fround zs v) (fround zs' w) = true.
Proof. intros H. eapply has_val_le; [apply fround_val..|]. by apply srnd_mono. Qed.

Lemma fround_ge_repr zs w s m : is_f64 (Fin s m) -> fval s m <= w -> fleb (Fin s m) (fround zs w) = true.
Proof. intros Hx H. eapply has_val_le; [by apply is_f64_val|apply fround_val|]. by apply srnd_mono. Qed.

Lemma fround_le_repr zs w s m : is_f64 (Fin s m) -> w <= fval s m -> fleb (fround zs w) (Fin s m) = true.
Proof. intros Hx H. eapply has_val_le; [apply fround_val|by apply is_f64_val|]. by apply srnd_mono. Qed.

(** ** Order *)
Lemma fleb_refl x : x <> NaN -> fleb x x = true.
Proof. destruct x as [|[]|]; simpl; try done. intros. apply Qle_bool_iff, Qle_refl. Qed.

Lemma fleb_nan_l x y : fleb x y = true -> x <> NaN.
Proof. by destruct x. Qed.
Lemma fleb_nan_r x y : fleb x y = true -> y <> NaN.
Proof. by destruct x as [|[]|], y. Qed.

Lemma fleb_trans y x z : fleb x y = true -> fleb y z = true -> fleb x z = true.
Proof.
  destruct x as [|[]|], y as [|[]|], z as [|[]|]; simpl; try done.
  rewrite !Qle_bool_iff. apply Qle_trans.
Qed.

Lemma fleb_total x y : x <> NaN -> y <> NaN -> fleb x y = true \/ fleb y x = true.
Proof.
  destruct x as [|[]|s m], y as [|[]|s' m']; simpl; auto; try done. intros _ _.
  rewrite !Qle_bool_iff. destruct (Qlt_le_dec (fval s m) (fval s' m')); [left|right]; lra.
Qed.

Lemma fltb_fleb x y : fltb x y = true -> fleb x y = true.
Proof. unfold fltb. by intros [? _]%andb_true_iff. Qed.

Lemma fltb_false x y : x <> NaN -> y <> NaN -> fltb x y = false -> fleb y x = true.
Proof.
  intros Hx Hy. unfold fltb. destruct (fleb_total x y Hx Hy) as [-> | ->]; simpl; [|done].
  by destruct (fleb y x).
Qed.

(** ** Monotonicity *)
Lemma fadd_mono x x' y y' :
  fleb x x' = true -> fleb y y' = true ->
  fadd x y <> NaN -> fadd x' y' <> NaN -> fleb (fadd x y) (fadd x' y') = true.
Proof.
  destruct x as [|[]|], x' as [|[]|], y as [|[]|], y' as [|[]|]; simpl; try done;
    rewrite ?Qle_bool_iff; intros; try (by destruct (fround _ _) as [|[]|]).
  apply fround_le. lra.
Qed.

Lemma fopp_mono x y : fleb x y = true -> fleb (fopp y) (fopp x) = true.
Proof.
  destruct x as [|[]|[]], y as [|[]|[]]; simpl; try done; rewrite !Qle_bool_iff; lra.
Qed.

(** Adding something non-negative does not decrease a float, and dually. *)
Lemma fadd_ge x y : is_f64 x -> fleb f0 y = true -> fadd x y <> NaN -> fleb x (fadd x y) = true.
Proof.
  destruct x as [|[]|s m], y as [|[]|s' m']; try done.
  intros Hx Hy _. apply fround_ge_repr; [done|]. simpl in Hy.
  apply Qle_bool_iff in Hy. simpl in Hy. lra.
Qed.

Lemma fsub_le x y : is_f64 x -> fleb f0 y = true -> fsub x y <> NaN -> fleb (fsub x y) x = true.
Proof.
  unfold fsub. destruct x as [|[]|s m], y as [|[]|s' m']; try done.
  intros Hx Hy _. apply fround_le_repr; [done|]. simpl in Hy.
  apply Qle_bool_iff in Hy. simpl in Hy. destruct s'; simpl in *; lra.
Qed.

(** Non-negative finite operands. *)
Lemma fleb_finite x y : fleb f0 x = true -> fleb x y = true -> finite y -> finite x.
Proof. by destruct x as [|[]|], y as [|[]|]. Qed.

Lemma fmul_mono x x' y y' :
  fleb f0 x = true -> fleb f0 y = true -> fleb x x' = true -> fleb y y' = true ->
  finite x' -> finite y' -> fleb (fmul x y) (fmul x' y') = true.
Proof.
  intros Hx Hy Lx Ly Fx Fy.
  pose proof (fleb_finite _ _ Hx Lx Fx). pose proof (fleb_finite _ _ Hy Ly Fy).
  destruct x as [| |s m], x' as [| |s' m'], y as [| |t n], y' as [| |t' n']; try done.
  apply Qle_bool_iff in Hx, Hy, Lx, Ly. apply fround_le.
  change (fval false 0) with 0 in *. nra.
Qed.

(** Division of the same non-negative numerator by a larger denominator. *)
Lemma fdiv_anti x y y' :
  fleb f0 x = true -> fltb f0 y = true -> fleb y y' = true -> finite x -> finite y' ->
  fleb (fdiv x y') (fdiv x y) = true.
Proof.
  intros Hx Hy Ly Fx Fy. pose proof (fleb_finite _ _ (fltb_fleb _ _ Hy) Ly Fy).
  destruct x as [| |s m], y as [| |t n], y' as [| |t' n']; try done.
  unfold fltb in Hy. apply andb_true_iff in Hy as [_ Hy]. apply negb_true_iff in Hy.
  apply Qle_bool_iff in Hx, Ly. apply Qle_bool_false in Hy. change (fval false 0) with 0 in *.
  simpl. rewrite !Qeq_bool_ne by (destruct t, t'; simpl in *; lra).
  apply fround_le. apply Qle_shift_div_l; [done|].
  assert (fval s m / fval t' n' * fval t n == fval s m * (fval t n / fval t' n')) as -> by (field; lra).
  assert (fval t n / fval t' n' <= 1) by (apply Qle_shift_div_r; lra). nra.
Qed.

Lemma fround_nonneg zs v : 0 <= v -> fleb f0 (fround zs v) = true.
Proof. intros H. by apply (fround_ge_repr zs v false 0). Qed.

Lemma fmul_nonneg x y :
  fleb f0 x = true -> fleb f0 y = true -> finite x -> finite y -> fleb f0 (fmul x y) = true.
Proof.
  destruct x as [| |s m], y as [| |t n]; try done. intros Hx Hy _ _.
  apply Qle_bool_iff in Hx, Hy. change (fval false 0) with 0 in *.
  apply fround_nonneg. nra.
Qed.

Lemma fdiv_nonneg x y :
  fleb f0 x = true -> fltb f0 y = true -> finite x -> finite y -> fleb f0 (fdiv x y) = true.
Proof.
  destruct x as [| |s m], y as [| |t n]; try done. intros Hx Hy _ _.
  unfold fltb in Hy. apply andb_true_iff in Hy as [_ Hy]. apply negb_true_iff in Hy.
  apply Qle_bool_iff in Hx. apply Qle_bool_false in Hy. change (fval false 0) with 0 in *.
  simpl. rewrite Qeq_bool_ne by (destruct t; simpl in *; lra).
  apply fround_nonneg, Qle_shift_div_l; lra.
Qed.

(** Operations return float64 values. *)
Lemma fopp_is_f64 x : is_f64 x -> is_f64 (fopp x).
Proof. by destruct x. Qed.
Lemma fadd_is_f64 x y : is_f64 (fadd x y).
Proof.
  destruct x as [|[]|], y as [|[]|]; simpl; try done; apply fround_is_f64.
Qed.
Lemma fmul_is_f64 x y : is_f64 (fmul x y).
Proof.
  destruct x, y; simpl; repeat case_if; try done; apply fround_is_f64.
Qed.
#[export] Hint Resolve fround_is_f64 fopp_is_f64 fadd_is_f64 fmul_is_f64 : wtg.

(** ** Zero *)
Lemma fadd_0_eq x : is_f64 x -> x <> NaN -> (fadd x f0 ==f x) = true.
Proof.
  intros Hx Hn. assert (fadd x f0 <> NaN) by (destruct x as [|[]|]; try done; apply fround_not_nan).
  unfold feqb. apply andb_true_iff. split.
  - destruct x as [|[]|s m]; try done. apply fround_le_repr; [done|]. simpl. lra.
  - by apply fadd_ge.
Qed.

(** ** Integers below 2^53 are exact *)
Lemma f_of_Z_exact z : (0 < z < 2 ^ 53)%Z -> exists m, f_of_Z z = Fin false m /\ m == inject_Z z.
Proof.
  intros Hz. assert (0 < inject_Z z) as P by (rewrite <-(Zlt_Qlt 0); lia).
  assert (rndQ (inject_Z z) == inject_Z z) as E.
  { assert (inject_Z z == inject_Z z * 2 ^ 0) as E1 by (rewrite Qpower_0_r; ring).
    rewrite (rndQ_comp _ _ (Qlt_le_weak _ _ P) E1), rndQ_exact; [by symmetry|lia|].
    by apply (grid_le _ 0 z); [lia|lia|]. }
  assert (rndQ (Qabs (inject_Z z)) == inject_Z z) as E'.
  { rewrite (rndQ_comp _ _ (Qabs_nonneg _) (Qabs_pos _ (Qlt_le_weak _ _ P))). done. }
  exists (rndQ (Qabs (inject_Z z))). split; [|done]. unfold f_of_Z, fround.
  rewrite Qeq_bool_false by done. rewrite (proj2 (Qle_bool_iff 0 _)) by lra. simpl negb.
  destruct (Qle_bool fmax_bound _) eqn:B; [|done]. apply Qle_bool_iff in B. exfalso.
  rewrite E' in B. unfold fmax_bound in B. rewrite <-Zle_Qle in B.
  assert (2 ^ 53 <= 2 ^ 1024)%Z by (apply Z.pow_le_mono_r; lia). lia.
Qed.

(** * Extrema of a list of prices *)
Definition is_max (m : f64) (xs : list f64) : Prop := m ∈ xs /\ forall x, x ∈ xs -> (x <=f m) = true.
Definition is_min (m : f64) (xs : list f64) : Prop := m ∈ xs /\ forall x, x ∈ xs -> (m <=f x) = true.

Lemma all_snoc (P : f64 -> Prop) xs x : (forall y, y ∈ xs -> P y) -> P x -> forall y, y ∈ xs ++ [x] -> P y.
Proof. intros H Hx y [Hy|Hy]%elem_of_app; [auto|]. apply list_elem_of_singleton in Hy as ->. done. Qed.

Lemma is_max_step m xs x :
  x <> NaN -> m <> NaN -> is_max m xs -> is_max (if m <f x then x else m) (xs ++ [x]).
Proof.
  intros Nx Nm [I L]. unfold is_max. rewrite elem_of_app, list_elem_of_singleton.
  destruct (m <f x) eqn:E; (split; [by auto|]); apply all_snoc; auto using fleb_refl, fltb_false.
  intros y Hy. eapply fleb_trans; [by apply L|]. by apply fltb_fleb.
Qed.

Lemma is_min_step m xs x :
  x <> NaN -> m <> NaN -> is_min m xs -> is_min (if x <f m then x else m) (xs ++ [x]).
Proof.
  intros Nx Nm [I L]. unfold is_min. rewrite elem_of_app, list_elem_of_singleton.
  destruct (x <f m) eqn:E; (split; [by auto|]); apply all_snoc; auto using fleb_refl, fltb_false.
  intros y Hy. eapply fleb_trans; [by apply fltb_fleb|]. auto.
Qed.
