(* ===== verification/FloatText.v ===== *)
(** Floats as text and as bits: [strconv.ParseFloat(s, 64)], [math.Float64bits] and
    [math.Float32bits(float32(x))] of the Go library. *)

From Stdlib Require Import ZArith QArith Qround Lia Lqa Ascii.
From S2P Require Import Prelude GoStrings Strconv Float64.
Local Open Scope Z_scope.
Local Open Scope wtg_scope.

(** * Text *)
Definition hexdigit (c : ascii) : option Z :=
  match undigit c with
  | Some d => Some d
  | None => let n := Z.of_nat (nat_of_ascii (ascii_lower c)) in if (97 <=? n) && (n <=? 102) then Some (n - 87) else None
  end.
(** The loop over the mantissa: digits, the number of them behind the point, whether a
    point, a digit and an underscore were seen, and the rest of the text. *)
Record mantissa := mkMant { mt_val : Z; mt_frac : Z; mt_dot : bool; mt_digits : bool; mt_under : bool; mt_rest : string }.
Fixpoint read_mantissa (base : Z) (m : mantissa) (s : string) : mantissa :=
  match s with
  | "" => mkMant (mt_val m) (mt_frac m) (mt_dot m) (mt_digits m) (mt_under m) ""
  | String c s' =>
      if Ascii.eqb c "_" then read_mantissa base (mkMant (mt_val m) (mt_frac m) (mt_dot m) (mt_digits m) true "") s'
      else if Ascii.eqb c "." then
        if mt_dot m then mkMant (mt_val m) (mt_frac m) true (mt_digits m) (mt_under m) s
        else read_mantissa base (mkMant (mt_val m) (mt_frac m) true (mt_digits m) (mt_under m) "") s'
      else match (if base =? 16 then hexdigit c else undigit c) with
           | Some d =>
               read_mantissa base
                 (mkMant (mt_val m * base + d) (if mt_dot m then mt_frac m + 1 else mt_frac m) (mt_dot m) true (mt_under m) "") s'
           | None => mkMant (mt_val m) (mt_frac m) (mt_dot m) (mt_digits m) (mt_under m) s
           end
  end.
(** The digits of the exponent, which stop counting at 10000. *)
Fixpoint read_exponent (e : Z) (under : bool) (s : string) : Z * bool * string :=
  match s with
  | "" => (e, under, "")
  | String c s' =>
      if Ascii.eqb c "_" then read_exponent e true s'
      else match undigit c with
           | Some d => read_exponent (if e <? 10000 then e * 10 + d else e) under s'
           | None => (e, under, s)
           end
  end.
(** [underscoreOK]: underscores stand between digits, or behind a base prefix. *)
Inductive seen := SawStart | SawDigit | SawUnder | SawOther.
Fixpoint under_scan (hex : bool) (saw : seen) (s : string) : bool :=
  match s with
  | "" => match saw with SawUnder => false | _ => true end
  | String c s' =>
      if (match (if hex then hexdigit c else undigit c) with Some _ => true | None => false end) then under_scan hex SawDigit s'
      else if Ascii.eqb c "_" then match saw with SawDigit => under_scan hex SawUnder s' | _ => false end
      else match saw with SawUnder => false | _ => under_scan hex SawOther s' end
  end.
Definition drop_sign (s : string) : string :=
  match s with String c s' => if Ascii.eqb c "-" || Ascii.eqb c "+" then s' else s | "" => "" end.
Definition underscoreOK (s : string) : bool :=
  match drop_sign s with
  | String "0" (String c s') =>
      let l := ascii_lower c in
      if Ascii.eqb l "x" then under_scan true SawDigit s'
      else if Ascii.eqb l "b" || Ascii.eqb l "o" then under_scan false SawDigit s'
      else under_scan false SawStart (drop_sign s)
  | t => under_scan false SawStart t
  end.
Definition pow_Q (b : positive) (e : Z) : Q := if e <? 0 then 1 # (b ^ Z.to_pos (- e)) else inject_Z (Zpos b ^ e).
(** [special]: infinities and NaN, without regard to case. *)
Definition special (s : string) : option f64 :=
  let t := ToLower s in
  if bool_decide (t = "nan") then Some NaN
  else
    let '(neg, u) := match t with String "-" u => (true, u) | String "+" u => (false, u) | _ => (false, t) end in
    if bool_decide (u = "inf") || bool_decide (u = "infinity") then Some (Inf neg) else None.
(** The exact value of a number: sign, magnitude. *)
Definition readFloat (s : string) : option (bool * Q) :=
  let neg := match s with String "-" _ => true | _ => false end in
  let t := drop_sign s in
  let '(hex, t) := match t with
                   | String "0" (String c (String d t')) => if Ascii.eqb (ascii_lower c) "x" then (true, String d t') else (false, t)
                   | _ => (false, t) end in
  let m := read_mantissa (if hex then 16 else 10) (mkMant 0 0 false false false "") t in
  if negb (mt_digits m) then None
  else
    let value (e : Z) : Q :=
      if hex then (inject_Z (mt_val m) * pow_Q 2 (e - 4 * mt_frac m))%Q else (inject_Z (mt_val m) * pow_Q 10 (e - mt_frac m))%Q in
    let finish (e : Z) (under : bool) (rest : string) : option (bool * Q) :=
      if negb (bool_decide (rest = "")) then None
      else if under && negb (underscoreOK s) then None else Some (neg, value e) in
    match mt_rest m with
    | String c r =>
        if Ascii.eqb (ascii_lower c) (if hex then "p" else "e") then
          let esign := match r with String "-" _ => -1 | _ => 1 end in
          match drop_sign r with
          | String d _ =>
              match undigit d with
              | None => None
              | Some _ => let '(e, under, rest) := read_exponent 0 (mt_under m) (drop_sign r) in finish (e * esign) under rest
              end
          | "" => None
          end
        else None
    | "" => if hex then None else finish 0 (mt_under m) ""
    end.
(** [None]: the error is not nil; a number too large is a range error. *)
Definition ParseFloat (s : string) : option f64 :=
  match special s with
  | Some x => Some x
  | None =>
      match readFloat s with
      | None => None
      | Some (neg, q) => match fround neg (if neg then - q else q)%Q with Inf _ => None | x => Some x end
      end
  end.

Example parse_price : ParseFloat "265.75" = Some (lit (26575 # 100)) /\ ParseFloat "-0.5e1" = Some (lit (-5)) /\ ParseFloat "0x1p-2" = Some (lit (1 # 4)).
Proof. by vm_compute. Qed.
Example parse_refused : ParseFloat "" = None /\ ParseFloat "1.2.3" = None /\ ParseFloat "1e400" = None /\ ParseFloat "1_0" = Some (lit 10) /\ ParseFloat "_1" = None.
Proof. by vm_compute. Qed.

(** * Bits *)
Definition sign_bit (w : Z) (neg : bool) : Z := if neg then 2 ^ (w - 1) else 0.
Definition Float64bits (x : f64) : Z :=
  match x with
  | NaN => 2047 * 2 ^ 52 + 2 ^ 51 + 1
  | Inf s => sign_bit 64 s + 2047 * 2 ^ 52
  | Fin s m =>
      sign_bit 64 s +
      (if Qeq_bool m 0 then 0
       else let e := grid m in
            let M := Qfloor (m / 2 ^ e) in
            if 2 ^ 52 <=? M then (e + 1075) * 2 ^ 52 + (M - 2 ^ 52) else M)
  end.
(** The grid of binary32. *)
Definition grid32 (q : Q) : Z := Z.max (ilog2 q - 23) (-149).
Definition rnd32 (q : Q) : Q := if Qeq_bool q 0 then 0 else let e := grid32 q in Qred (inject_Z (rne (q / 2 ^ e)) * 2 ^ e).
Definition Float32bits (x : f64) : Z :=
  match x with
  | NaN => 255 * 2 ^ 23 + 2 ^ 22
  | Inf s => sign_bit 32 s + 255 * 2 ^ 23
  | Fin s m =>
      let r := rnd32 m in
      sign_bit 32 s +
      (if Qeq_bool r 0 then 0
       else if Qle_bool (inject_Z (2 ^ 128)) r then 255 * 2 ^ 23
       else let e := grid32 r in
            let M := Qfloor (r / 2 ^ e) in
            if 2 ^ 23 <=? M then (e + 150) * 2 ^ 23 + (M - 2 ^ 23) else M)
  end.
Example bits_of_one : Float64bits f1 = 0x3FF0000000000000 /\ Float64bits (lit (-5 # 2)) = 0xC004000000000000 /\ Float64bits (lit (1 # (2 ^ 1074))) = 1.
Proof. by vm_compute. Qed.
Example bits32 : Float32bits f1 = 0x3F800000 /\ Float32bits (lit (1 # 10)) = 0x3DCCCCCD /\ Float32bits (lit (inject_Z (2 ^ 128))) = 0x7F800000.
Proof. by vm_compute. Qed.

(** A float's bits are a 64-bit number. *)
Lemma ilog2_lt q n : (0 < q)%Q -> (q < 2 ^ n)%Q -> ilog2 q < n.
Proof.
  intros Hq Hn. destruct (ilog2_spec q Hq) as [L _]. apply Qpow2_lt_inv. by eapply Qle_lt_trans.
Qed.
Lemma floor_grid q : (0 < q)%Q -> 0 <= Qfloor (q / 2 ^ grid q) < 2 ^ 53.
Proof.
  intros Hq. pose proof (Qpow2_pos (grid q)) as Hp. split.
  - apply (Qfloor_resp_le 0). apply Qle_shift_div_l; [done|]. lra.
  - assert (q / 2 ^ grid q < inject_Z (2 ^ 53))%Q as Hlt.
    { apply Qlt_shift_div_r; [done|]. destruct (ilog2_spec q Hq) as [_ U]. eapply Qlt_le_trans; [exact U|].
      rewrite <-(Qpow2_Z 53) by lia. rewrite <-Qpow2_add. apply Qpow2_le. unfold grid. lia. }
    destruct (Qfloor_bounds (q / 2 ^ grid q)) as [L _]. rewrite Zlt_Qlt. by eapply Qle_lt_trans.
Qed.
Lemma Float64bits_uint x : is_f64 x -> is_uint 64 (Float64bits x).
Proof.
  unfold is_uint. destruct x as [|s|s m]; [vm_compute; by split|by destruct s; vm_compute|]. intros (Hm & _ & Hb). cbn [Float64bits].
  assert (forall b, 0 <= sign_bit 64 b <= 2 ^ 63) as Hs by (intros []; vm_compute; by split).
  specialize (Hs s). destruct (Qeq_bool m 0) eqn:E; [lia|].
  assert (0 < m)%Q as Hp. { apply Qeq_bool_neq in E. destruct (Qlt_le_dec 0 m); [done|]. destruct E. lra. }
  pose proof (floor_grid m Hp) as HM. set (M := Qfloor _) in *.
  assert (ilog2 m < 1024) as Hl by (apply ilog2_lt; [done|]; rewrite Qpow2_Z by lia; exact Hb).
  assert (-1074 <= grid m <= 971) as Hg by (unfold grid; lia).
  destruct (Z.leb_spec (2 ^ 52) M); norm_pow; lia.
Qed.
