(* ===== verification/Session.v ===== *)
(** Session identity (src/pkg/session/types.go): channel, site and tier codes,
    the [Profile] tuple and its routing-key text form [Profile.Key] /
    [ParseProfileKey]. *)

From Stdlib Require Import ZArith Lia.
From Stdlib Require Import Strings.Ascii.
From S2P Require Import Prelude Codec.

(** ** Codes *)
Definition ChannelWeb := "WEB".
Definition ChannelMobile := "MOB".
Definition ChannelCS := "CS".
Definition ChannelFIX := "FIX".
Definition ChannelAdmin := "ADM".
Definition ChannelEMP := "EMP".
Definition ChannelHTS := "HTS".
Definition channels : list string :=
  [ChannelWeb; ChannelMobile; ChannelCS; ChannelFIX; ChannelAdmin; ChannelEMP; ChannelHTS].

Definition SiteBranch := "BRANCH".
Definition SiteHQ := "HQ".
Definition sites : list string := [SiteBranch; SiteHQ].

Definition TierVIP := "VIP".
Definition TierGold := "GOLD".
Definition TierStandard := "STD".
Definition tiers : list string := [TierVIP; TierGold; TierStandard].

Record Profile := mkProfile { p_Channel : string; p_Site : string; p_Tier : string }.

#[export] Instance Profile_eq_dec : EqDecision Profile.
Proof. solve_decision. Defined.

(** ** Profile keys *)
Definition Key (p : Profile) : string :=
  p_Channel p +:+ "." +:+ p_Site p +:+ "." +:+ p_Tier p.

(** The loop of profileKeySplit: [tok] is [s[start:i]], the token being read. *)
Fixpoint split_loop (tok s : string) : list string :=
  match s with
  | "" => [tok]
  | String c s' =>
      if Ascii.eqb c "."%char then tok :: split_loop "" s'
      else split_loop (tok +:+ String c "") s'
  end.
Definition profileKeySplit (s : string) : list string := split_loop "" s.

Inductive ProfileErr := ErrProfileKey.

Definition ParseProfileKey (key : string) : res ProfileErr Profile :=
  match profileKeySplit key with
  | [c; s; t] => Ok (mkProfile c s t)
  | _ => Err ErrProfileKey
  end.

(** ** Laws *)
Fixpoint no_dot (s : string) : bool :=
  match s with "" => true | String c s' => negb (Ascii.eqb c "."%char) && no_dot s' end.

Fixpoint join (l : list string) : string :=
  match l with
  | [] => ""
  | [x] => x
  | x :: l' => x +:+ "." +:+ join l'
  end.

Lemma split_loop_app tok a s :
  no_dot a = true -> split_loop tok (a +:+ s) = split_loop (tok +:+ a) s.
Proof.
  revert tok. induction a as [|c a IH]; simpl; intros tok H.
  - by autorewrite with str.
  - apply andb_true_iff in H as [Hc Ha]. apply negb_true_iff in Hc. rewrite Hc, IH by done.
    by rewrite <-str_app_assoc.
Qed.

Lemma split_loop_dot tok s : split_loop tok ("." +:+ s) = tok :: split_loop "" s.
Proof. done. Qed.

Lemma split_loop_nonempty tok s : split_loop tok s <> [].
Proof. revert tok. induction s as [|c s IH]; simpl; intros; [done|]. by case_if. Qed.

Lemma join_split_loop tok s : join (split_loop tok s) = tok +:+ s.
Proof.
  revert tok. induction s as [|c s IH]; simpl; intros tok; [by rewrite str_app_nil_r|].
  destruct (Ascii.eqb_spec c "."%char) as [->|Hc].
  - pose proof (split_loop_nonempty "" s). specialize (IH "").
    destruct (split_loop "" s) eqn:E; [done|]. change (tok +:+ "." +:+ join (s0 :: l) = tok +:+ String "." s).
    by rewrite IH.
  - rewrite IH. by rewrite <-str_app_assoc.
Qed.

Lemma split_loop_no_dot tok s :
  no_dot tok = true -> Forall (fun t => no_dot t = true) (split_loop tok s).
Proof.
  revert tok. induction s as [|c s IH]; simpl; intros tok H; [by constructor|].
  destruct (Ascii.eqb c _) eqn:Hc; [constructor; auto|].
  apply IH. clear -H Hc. induction tok as [|x tok IH]; autorewrite with str; simpl in *; [by rewrite Hc|].
  apply andb_true_iff in H as [-> H]. by rewrite IH.
Qed.

Lemma split_no_dot a : no_dot a = true -> split_loop "" a = [a].
Proof. intros H. rewrite <-(str_app_nil_r a) at 1. by rewrite split_loop_app. Qed.

(** Parsing is the exact inverse of the routing key: a profile whose three
    codes hold no dot comes back unchanged from its key, and any key that parses
    is the key of the parsed profile, whose codes hold no dot. *)
Theorem ParseProfileKey_iff k p :
  ParseProfileKey k = Ok p <->
  k = Key p /\ no_dot (p_Channel p) = true /\ no_dot (p_Site p) = true /\ no_dot (p_Tier p) = true.
Proof.
  unfold ParseProfileKey, profileKeySplit. split.
  - intros H. pose proof (join_split_loop "" k) as J. pose proof (split_loop_no_dot "" k eq_refl) as F.
    destruct (split_loop "" k) as [|c [|s [|t [|]]]]; try done. simplify_eq.
    rewrite !Forall_cons in F. unfold Key. simpl in *. destruct F as (? & ? & ? & _). done.
  - intros (-> & Hc & Hs & Ht). destruct p as [c s t]. unfold Key. simpl in *.
    rewrite split_loop_app, split_loop_dot by done.
    by rewrite split_loop_app, split_loop_dot, split_no_dot by done.
Qed.

(** Every key built from the declared codes fits the broker's 16-byte
    routing-key field, so [padCopyString] never truncates it. *)
Theorem Key_fits_rkey c s t :
  c ∈ channels -> s ∈ sites -> t ∈ tiers -> (String.length (Key (mkProfile c s t)) <= LRkey)%nat.
Proof.
  assert (forallb (fun c => forallb (fun s => forallb (fun t =>
    Nat.leb (String.length (Key (mkProfile c s t))) LRkey) tiers) sites) channels = true) as H
    by reflexivity.
  rewrite forallb_forall in H. intros Hc Hs Ht.
  specialize (H c ltac:(by apply list_elem_of_In)). rewrite forallb_forall in H.
  specialize (H s ltac:(by apply list_elem_of_In)). rewrite forallb_forall in H.
  specialize (H t ltac:(by apply list_elem_of_In)). by apply Nat.leb_le in H.
Qed.

Lemma Key_fits_rkey_witness : (String.length (Key (mkProfile "WEB" "BRANCH" "GOLD")) <= LRkey)%nat.
Proof. apply Key_fits_rkey; vm_compute; repeat constructor. Defined.
