(* ===== verification/QuoteID.v ===== *)
(** Quote identifiers (src/pkg/quoteid/quoteid.go, registry.go, swap.go): the
    [Record] of an issued quote, its validity window, and the [Generator] that
    issues identifiers of the form [instance-ms36-seq36].

    Times are nanoseconds since the Unix epoch, as unbounded integers (Go's
    [time.Time]); [UnixNano] is the int64 view of one. *)

From Stdlib Require Import ZArith Lia.
From Stdlib Require Import Strings.Ascii.
From S2P Require Import Prelude Float64 Session.
Local Open Scope Z_scope.

(** ** Time *)
Definition UnixNano (t : Z) : Z := wrap64 t.
Definition UnixMilli (t : Z) : Z := t / 1000000.
(** [time.Unix(0, ns).Add(d)]. *)
Definition time_add (t d : Z) : Z := t + d.
Definition After (t u : Z) : bool := u <? t.

(** ** Records *)
Record Record_ := mkRecord {
  r_QuoteID : string; r_Pair : string; r_Profile : Profile; r_Tenor : string;
  r_Bid : f64; r_Ask : f64; r_IssuedAt : Z; r_ValidUntil : Z; r_Sequence : Z;
  r_Issuer : string; r_ValueDateUnixNano : Z; r_OffsetDays : Z;
  r_InterpolatedFrom : string; r_InterpolatedTo : string; r_InterpolationWeight : f64;
  r_InterpolatedSwapBid : f64; r_InterpolatedSwapAsk : f64 }.

(** [Record{}]. *)
Definition zero_record : Record_ :=
  mkRecord "" "" (mkProfile "" "" "") "" f0 f0 0 0 0 "" 0 0 "" "" f0 f0 f0.

Definition ValidAt (r : Record_) (t : Z) : bool :=
  let n := UnixNano t in (r_IssuedAt r <=? n) && (n <? r_ValidUntil r).

Record SwapRecord := mkSwapRecord {
  s_SwapID : string; s_NearID : string; s_FarID : string;
  s_IssuedAt : Z; s_ValidUntil : Z; s_Issuer : string }.

(** ** [strconv.FormatUint(u, 36)] and [strconv.FormatInt(i, 36)] *)
Definition digit36 (d : Z) : ascii :=
  ascii_of_nat (Z.to_nat (if d <? 10 then 48 + d else 87 + d)).

Fixpoint formatBits (fuel : nat) (u : Z) (acc : string) : string :=
  match fuel with
  | O => String (digit36 u) acc
  | S fuel =>
      if u <? 36 then String (digit36 u) acc
      else formatBits fuel (u / 36) (String (digit36 (u mod 36)) acc)
  end.

(** 13 digits hold every uint64: 2^64 < 36^13. *)
Definition FormatUint (u : Z) : string := formatBits 12 u "".
Definition FormatInt (i : Z) : string :=
  if i <? 0 then "-" +:+ FormatUint (- i) else FormatUint i.

(** ** Generator *)
Record Generator := mkGenerator { g_instance : string; g_seq : Z }.

Definition NewGenerator (inst : string) : Generator :=
  {| g_instance := (if decide (inst = "") then "A" else inst); g_seq := 0 |}.

(** [Next] at clock reading [now]; the counter is a wrapping uint64. *)
Definition Next (g : Generator) (now : Z) : string * Generator :=
  let ms := UnixMilli now in
  let s := wrap 64 (g_seq g + 1) in
  (g_instance g +:+ "-" +:+ FormatInt ms +:+ "-" +:+ FormatUint s,
   {| g_instance := g_instance g; g_seq := s |}).

Definition NextSequence (g : Generator) : Z := g_seq g.

(** The identifiers of successive calls, one clock reading each. *)
Fixpoint issue (g : Generator) (times : list Z) : list string :=
  match times with
  | [] => []
  | now :: ts => let '(id, g) := Next g now in id :: issue g ts
  end.

Example issue_two :
  issue (NewGenerator "") [1700000000000000000; 1700000000000000000]
  = ["A-loyw3v28-1"; "A-loyw3v28-2"].
Proof. vm_compute. reflexivity. Qed.

(** ** Base-36 numerals are injective and hold no dash *)
Definition undigit36 (c : ascii) : Z :=
  let n := Z.of_nat (nat_of_ascii c) in if n <? 58 then n - 48 else n - 87.
Fixpoint parse36 (v : Z) (s : string) : Z :=
  match s with "" => v | String c s' => parse36 (v * 36 + undigit36 c) s' end.

Definition is_dash (c : ascii) : bool := Ascii.eqb c "-"%char.
Fixpoint no_dash (s : string) : bool :=
  match s with "" => true | String c s' => negb (is_dash c) && no_dash s' end.

Lemma digit36_cases d : 0 <= d < 36 -> undigit36 (digit36 d) = d /\ is_dash (digit36 d) = false.
Proof.
  intros H. assert (In d (map Z.of_nat (seq 0 36))) as Hin.
  { apply in_map_iff. exists (Z.to_nat d). rewrite in_seq. lia. }
  revert Hin. cbn. intros Hin. repeat (destruct Hin as [<-|Hin]; [by vm_compute|]). done.
Qed.

Lemma formatBits_spec fuel u acc :
  0 <= u < 36 ^ (Z.of_nat fuel + 1) -> no_dash acc = true ->
  parse36 0 (formatBits fuel u acc) = parse36 u acc /\ no_dash (formatBits fuel u acc) = true.
Proof.
  revert u acc. induction fuel as [|fuel IH]; intros u acc Hu Hacc.
  - destruct (digit36_cases u ltac:(lia)) as [A B]. simpl. by rewrite A, B, Hacc.
  - simpl formatBits. destruct (Z.ltb_spec u 36) as [Hlt|Hge].
    + destruct (digit36_cases u ltac:(lia)) as [A B]. simpl. by rewrite A, B, Hacc.
    + destruct (digit36_cases (u mod 36) ltac:(apply Z.mod_pos_bound; lia)) as [A B].
      destruct (IH (u / 36) (String (digit36 (u mod 36)) acc)) as [C D].
      * replace (Z.of_nat (S fuel) + 1) with (Z.succ (Z.of_nat fuel + 1)) in Hu by lia.
        rewrite Z.pow_succ_r in Hu by lia. split; [apply Z.div_pos; lia|].
        apply Z.div_lt_upper_bound; lia.
      * simpl. by rewrite B, Hacc.
      * rewrite C. simpl. rewrite A. split; [|done]. f_equal. pose proof (Z.div_mod u 36). lia.
Qed.

Lemma FormatUint_inj u v :
  is_uint 64 u -> is_uint 64 v -> FormatUint u = FormatUint v -> u = v.
Proof.
  intros Hu Hv E.
  destruct (formatBits_spec 12 u "") as [A _]; [unfold is_uint in *; lia|done|].
  destruct (formatBits_spec 12 v "") as [B _]; [unfold is_uint in *; lia|done|].
  unfold FormatUint in E. rewrite E in A. simpl in A, B. congruence.
Qed.

Lemma FormatUint_no_dash u : is_uint 64 u -> no_dash (FormatUint u) = true.
Proof. intros Hu. apply formatBits_spec; [unfold is_uint in *; lia|done]. Qed.

Lemma no_dash_app a b : no_dash (a +:+ "-" +:+ b) = false.
Proof.
  induction a as [|c a IH]; [done|]. rewrite str_app_cons. simpl.
  rewrite IH. apply andb_false_r.
Qed.

(** Splitting at the last dash is unique. *)
Lemma last_dash_inj a b a' b' :
  no_dash b = true -> no_dash b' = true ->
  a +:+ "-" +:+ b = a' +:+ "-" +:+ b' -> a = a' /\ b = b'.
Proof.
  intros Hb Hb'. revert a'. induction a as [|c a IH]; intros [|c' a'] E.
  - change (String "-" b = String "-" b') in E. by injection E as ->.
  - exfalso. change (String "-" b = String c' (a' +:+ "-" +:+ b')) in E.
    injection E as _ ->. by rewrite no_dash_app in Hb.
  - exfalso. change (String c (a +:+ "-" +:+ b) = String "-" b') in E.
    injection E as _ <-. by rewrite no_dash_app in Hb'.
  - change (String c (a +:+ "-" +:+ b) = String c' (a' +:+ "-" +:+ b')) in E.
    injection E as <- E. destruct (IH a' E) as [-> ->]. done.
Qed.

(** ** Properties *)
Lemma issue_lookup g times i id :
  issue g times !! i = Some id -> exists ms,
    id = g_instance g +:+ "-" +:+ FormatInt ms +:+ "-" +:+ FormatUint (wrap 64 (g_seq g + 1 + Z.of_nat i)).
Proof.
  revert g i. induction times as [|now ts IH]; intros g i H; [done|].
  destruct i as [|i]; simpl in H.
  - injection H as <-. exists (UnixMilli now). by rewrite Z.add_0_r.
  - destruct (IH _ _ H) as [ms ->]. exists ms.
    assert (wrap 64 (wrap 64 (g_seq g + 1) + 1 + Z.of_nat i) = wrap 64 (g_seq g + 1 + Z.of_nat (S i))) as <-.
    { unfold wrap. rewrite <-(Z.add_assoc (_ mod _)), Zplus_mod_idemp_l. f_equal. lia. }
    done.
Qed.

Lemma issue_length g times : length (issue g times) = length times.
Proof. revert g. induction times; intros g; simpl; auto. Qed.

(** The last dash of an identifier delimits the sequence number. *)
Lemma id_split a m s a' m' s' :
  is_uint 64 s -> is_uint 64 s' ->
  a +:+ "-" +:+ m +:+ "-" +:+ FormatUint s = a' +:+ "-" +:+ m' +:+ "-" +:+ FormatUint s' ->
  a +:+ "-" +:+ m = a' +:+ "-" +:+ m' /\ s = s'.
Proof.
  intros Hs Hs' E.
  destruct (last_dash_inj (a +:+ "-" +:+ m) (FormatUint s) (a' +:+ "-" +:+ m') (FormatUint s'))
    as [A B]; [by apply FormatUint_no_dash..|by rewrite <-!str_app_assoc|].
  split; [done|]. by apply FormatUint_inj.
Qed.

(** One generator never issues the same identifier twice within 2^64 calls,
    whatever the clock does (same millisecond, clock set back). *)
Theorem Generator_unique g times i j id :
  Z.of_nat (length times) <= 2 ^ 64 ->
  issue g times !! i = Some id -> issue g times !! j = Some id -> i = j.
Proof.
  intros Hlen Hi Hj. pose proof (lookup_lt_Some _ _ _ Hi) as Li. pose proof (lookup_lt_Some _ _ _ Hj) as Lj.
  rewrite issue_length in Li, Lj.
  destruct (issue_lookup _ _ _ _ Hi) as [ms ->]. destruct (issue_lookup _ _ _ _ Hj) as [ms' E].
  apply id_split in E as [_ E]; [|apply wrap_is_uint; lia..]. unfold wrap in E.
  apply Nat2Z.inj.
  assert ((Z.of_nat i - Z.of_nat j) mod 2 ^ 64 = 0) as M.
  { replace (Z.of_nat i - Z.of_nat j) with ((g_seq g + 1 + Z.of_nat i) - (g_seq g + 1 + Z.of_nat j)) by lia.
    by rewrite Zminus_mod, E, Z.sub_diag. }
  apply Z.mod_divide in M as [k M]; [|lia]. nia.
Qed.

Lemma Generator_unique_witness :
  Z.of_nat (length [5; 5; 3]) <= 2 ^ 64 /\
  issue (NewGenerator "B") [5; 5; 3] !! 1%nat = Some "B-0-2" /\
  (forall j, issue (NewGenerator "B") [5; 5; 3] !! j = Some "B-0-2" -> 1%nat = j).
Proof.
  split; [done|]. split; [reflexivity|]. intros j Hj.
  exact (Generator_unique (NewGenerator "B") [5; 5; 3] 1 j "B-0-2" ltac:(done) eq_refl Hj).
Defined.

(** Two instances with different prefixes never issue the same identifier:
    an identifier determines the prefix, the millisecond and the sequence number
    (clock readings from 1970 on, millisecond count within int64). *)
Theorem Next_injective g now g' now' :
  0 <= now < 2 ^ 63 -> 0 <= now' < 2 ^ 63 -> fst (Next g now) = fst (Next g' now') ->
  g_instance g = g_instance g' /\ UnixMilli now = UnixMilli now' /\
  g_seq (snd (Next g now)) = g_seq (snd (Next g' now')).
Proof.
  intros H H' E. cbn [fst snd Next g_seq] in *.
  apply id_split in E as [E Es]; [|apply wrap_is_uint; lia..].
  assert (is_uint 64 (UnixMilli now)) as Hm
    by (unfold UnixMilli; split; [apply Z.div_pos; lia|apply Z.div_lt_upper_bound; lia]).
  assert (is_uint 64 (UnixMilli now')) as Hm'
    by (unfold UnixMilli; split; [apply Z.div_pos; lia|apply Z.div_lt_upper_bound; lia]).
  unfold FormatInt in E. rewrite !(proj2 (Z.ltb_ge _ _)) in E by (unfold is_uint in *; lia).
  apply last_dash_inj in E as [E1 E2]; [|by apply FormatUint_no_dash..].
  split; [done|]. split; [|done]. by apply FormatUint_inj.
Qed.

Lemma Next_injective_witness :
  0 <= 1700000000000000000 < 2 ^ 63 /\
  fst (Next (NewGenerator "A") 1700000000000000000) = fst (Next (NewGenerator "") 1700000000000000000) /\
  g_instance (NewGenerator "A") = g_instance (NewGenerator "").
Proof.
  split; [lia|]. split; [reflexivity|].
  exact (proj1 (Next_injective (NewGenerator "A") 1700000000000000000 (NewGenerator "")
    1700000000000000000 ltac:(lia) ltac:(lia) eq_refl)).
Defined.
