(* ===== verification/Registry.v ===== *)
(** The quote registry: its in-process implementation [MemoryRegistry]
    (src/pkg/quoteid/memory.go, result types of registry.go), one definition per
    method. A method's critical section is a function on the state; the clock
    readings [m.now()] it makes are arguments. *)

From Stdlib Require Import ZArith Lia.
From S2P Require Import Prelude Float64 Session QuoteID.
Local Open Scope Z_scope.

Inductive RegErr := ErrNotFound | ErrInvalidRecord | ErrSwapNotFound.

Inductive ConsumeStatus :=
| ConsumeStatusUnknown | ConsumeOK | ConsumeAlreadyDone | ConsumeNotFound | ConsumeExpired.

#[export] Instance ConsumeStatus_eq_dec : EqDecision ConsumeStatus.
Proof. solve_decision. Defined.

Definition ConsumeStatus_String (s : ConsumeStatus) : string :=
  match s with
  | ConsumeOK => "OK"
  | ConsumeAlreadyDone => "ALREADY_CONSUMED"
  | ConsumeNotFound => "NOT_FOUND"
  | ConsumeExpired => "EXPIRED"
  | ConsumeStatusUnknown => "UNKNOWN"
  end.

Record ConsumeResult := mkConsume {
  cr_Status : ConsumeStatus; cr_Record : Record_; cr_ConsumedBy : string }.

Record LookupResult := mkLookup {
  l_Found : bool; l_Record : Record_; l_Consumed : bool; l_ConsumedBy : string }.

Record ConsumeRequest := mkReq { q_QuoteID : string; q_ConsumerID : string }.

Record MemoryRegistry := mkMem {
  m_records : gmap string Record_;
  m_consumed : gmap string string;
  m_swaps : gmap string SwapRecord;
  m_grace : Z }.

Definition NewMemoryRegistry (grace : Z) : MemoryRegistry := mkMem ∅ ∅ ∅ grace.

Definition set_records (m : MemoryRegistry) (r : gmap string Record_) : MemoryRegistry :=
  mkMem r (m_consumed m) (m_swaps m) (m_grace m).
Definition set_consumed (m : MemoryRegistry) (c : gmap string string) : MemoryRegistry :=
  mkMem (m_records m) c (m_swaps m) (m_grace m).
Definition set_swaps (m : MemoryRegistry) (s : gmap string SwapRecord) : MemoryRegistry :=
  mkMem (m_records m) (m_consumed m) s (m_grace m).

(** [now.After(time.Unix(0, validUntil).Add(m.grace))] *)
Definition expired (m : MemoryRegistry) (validUntil now : Z) : bool :=
  After now (time_add validUntil (m_grace m)).

Definition Put (m : MemoryRegistry) (rec : Record_) : res RegErr MemoryRegistry :=
  if r_ValidUntil rec <=? r_IssuedAt rec then Err ErrInvalidRecord
  else if decide (r_QuoteID rec = "") then Err ErrInvalidRecord
  else Ok (set_records m (<[r_QuoteID rec := rec]> (m_records m))).

Definition invalid_record (rec : Record_) : bool :=
  (r_ValidUntil rec <=? r_IssuedAt rec) || bool_decide (r_QuoteID rec = "").

Fixpoint PutMany (m : MemoryRegistry) (recs : list Record_) : MemoryRegistry :=
  match recs with
  | [] => m
  | rec :: recs =>
      if invalid_record rec then PutMany m recs
      else PutMany (set_records m (<[r_QuoteID rec := rec]> (m_records m))) recs
  end.

(** [Get] is a read section, a clock reading, and an eviction section when the
    record it read has expired. *)
Definition get_read (m : MemoryRegistry) (id : string) : option Record_ := m_records m !! id.
Definition get_evict (m : MemoryRegistry) (id : string) : MemoryRegistry :=
  set_records m (delete id (m_records m)).

Definition Get (m : MemoryRegistry) (now : Z) (id : string) : res RegErr Record_ * MemoryRegistry :=
  match get_read m id with
  | None => (Err ErrNotFound, m)
  | Some rec =>
      if expired m (r_ValidUntil rec) now then (Err ErrNotFound, get_evict m id)
      else (Ok rec, m)
  end.

(** [m.now()] is called twice: for the grace test and for [ValidAt]. *)
Definition MarkConsumed (m : MemoryRegistry) (now1 now2 : Z) (id consumerID : string)
    : ConsumeResult * MemoryRegistry :=
  match m_records m !! id with
  | None => (mkConsume ConsumeNotFound zero_record "", m)
  | Some rec =>
      if expired m (r_ValidUntil rec) now1 then
        (mkConsume ConsumeNotFound zero_record "",
         set_consumed (set_records m (delete id (m_records m))) (delete id (m_consumed m)))
      else if negb (ValidAt rec now2) then (mkConsume ConsumeExpired rec "", m)
      else match m_consumed m !! id with
           | Some prev => (mkConsume ConsumeAlreadyDone rec prev, m)
           | None => (mkConsume ConsumeOK rec "", set_consumed m (<[id := consumerID]> (m_consumed m)))
           end
  end.

(** The batch reads the clock once and writes the result slice in order. *)
Fixpoint MarkConsumedMany (m : MemoryRegistry) (now : Z) (reqs : list ConsumeRequest)
    : list ConsumeResult * MemoryRegistry :=
  match reqs with
  | [] => ([], m)
  | req :: reqs =>
      let '(out, m) :=
        match m_records m !! q_QuoteID req with
        | None => (mkConsume ConsumeNotFound zero_record "", m)
        | Some rec =>
            if expired m (r_ValidUntil rec) now then
              (mkConsume ConsumeNotFound zero_record "",
               set_consumed (set_records m (delete (q_QuoteID req) (m_records m)))
                 (delete (q_QuoteID req) (m_consumed m)))
            else if negb (ValidAt rec now) then (mkConsume ConsumeExpired rec "", m)
            else match m_consumed m !! q_QuoteID req with
                 | Some prev => (mkConsume ConsumeAlreadyDone rec prev, m)
                 | None =>
                     (mkConsume ConsumeOK rec "",
                      set_consumed m (<[q_QuoteID req := q_ConsumerID req]> (m_consumed m)))
                 end
        end in
      let '(outs, m) := MarkConsumedMany m now reqs in (out :: outs, m)
  end.

Definition lookupLocked (m : MemoryRegistry) (now : Z) (id : string) : LookupResult :=
  let c := m_consumed m !! id in
  let taken := bool_decide (is_Some c) in
  match m_records m !! id with
  | None => mkLookup false zero_record taken (default "" c)
  | Some rec =>
      if expired m (r_ValidUntil rec) now then mkLookup false zero_record taken (default "" c)
      else mkLookup true rec taken (default "" c)
  end.
Definition Lookup (m : MemoryRegistry) (now : Z) (id : string) : LookupResult := lookupLocked m now id.

(** One clock reading per identifier. *)
Definition LookupMany (m : MemoryRegistry) (ids : list (string * Z)) : list LookupResult :=
  map (fun '(id, now) => lookupLocked m now id) ids.

Definition Consumed (m : MemoryRegistry) (id : string) : string * bool :=
  match m_consumed m !! id with Some c => (c, true) | None => ("", false) end.

(** [Sweep] ranges over the record map, in the order [l] the runtime picks, and
    deletes the expired entries with their consumed markers. *)
Fixpoint sweep_loop (m : MemoryRegistry) (now : Z) (l : list (string * Record_)) : Z * MemoryRegistry :=
  match l with
  | [] => (0, m)
  | (id, rec) :: l =>
      if expired m (r_ValidUntil rec) now then
        let '(n, m) := sweep_loop
          (set_consumed (set_records m (delete id (m_records m))) (delete id (m_consumed m))) now l in
        (n + 1, m)
      else sweep_loop m now l
  end.
Fixpoint sweep_swaps (m : MemoryRegistry) (now : Z) (l : list (string * SwapRecord)) : MemoryRegistry :=
  match l with
  | [] => m
  | (id, sw) :: l =>
      if expired m (s_ValidUntil sw) now then sweep_swaps (set_swaps m (delete id (m_swaps m))) now l
      else sweep_swaps m now l
  end.
Definition Sweep (m : MemoryRegistry) (now : Z) : Z * MemoryRegistry :=
  let '(n, m) := sweep_loop m now (map_to_list (m_records m)) in
  (n, sweep_swaps m now (map_to_list (m_swaps m))).

(** ** Swap index *)
Definition PutSwap (m : MemoryRegistry) (rec : SwapRecord) : res RegErr MemoryRegistry :=
  if s_ValidUntil rec <=? s_IssuedAt rec then Err ErrInvalidRecord
  else if decide (s_SwapID rec = "" \/ s_NearID rec = "" \/ s_FarID rec = "") then Err ErrInvalidRecord
  else Ok (set_swaps m (<[s_SwapID rec := rec]> (m_swaps m))).

Definition GetSwap (m : MemoryRegistry) (now : Z) (swapID : string) : res RegErr SwapRecord * MemoryRegistry :=
  match m_swaps m !! swapID with
  | None => (Err ErrSwapNotFound, m)
  | Some rec =>
      if expired m (s_ValidUntil rec) now
      then (Err ErrSwapNotFound, set_swaps m (delete swapID (m_swaps m)))
      else (Ok rec, m)
  end.

Definition Delete (m : MemoryRegistry) (id : string) : MemoryRegistry :=
  if decide (id = "") then m
  else set_consumed (set_records m (delete id (m_records m))) (delete id (m_consumed m)).
Definition DeleteSwap (m : MemoryRegistry) (swapID : string) : MemoryRegistry :=
  if decide (swapID = "") then m else set_swaps m (delete swapID (m_swaps m)).

Definition Len (m : MemoryRegistry) : Z := Z.of_nat (size (m_records m)).
