(* ===== verification/RegistryLaws.v ===== *)
(** Theorems about the quote registry: batch and single consumption agree,
    sweeping is the removal of the expired entries whatever the map order,
    a quote is consumed at most once in every interleaving, and sweeping is
    invisible to clients. *)

From Stdlib Require Import ZArith Lia.
From S2P Require Import Prelude Float64 Session QuoteID Registry.
Local Open Scope Z_scope.

(** * Batch consumption *)

(** [MarkConsumed] applied in order, all at one clock reading. *)
Fixpoint mark_seq (m : MemoryRegistry) (now : Z) (reqs : list ConsumeRequest)
    : list ConsumeResult * MemoryRegistry :=
  match reqs with
  | [] => ([], m)
  | req :: reqs =>
      let '(out, m) := MarkConsumed m now now (q_QuoteID req) (q_ConsumerID req) in
      let '(outs, m) := mark_seq m now reqs in (out :: outs, m)
  end.

Lemma MarkConsumedMany_seq m now reqs : MarkConsumedMany m now reqs = mark_seq m now reqs.
Proof.
  revert m. induction reqs as [|req reqs IH]; intros m; [done|].
  simpl. unfold MarkConsumed.
  destruct (m_records m !! q_QuoteID req) as [rec|]; cbn; [|by rewrite IH].
  destruct (expired _ _ _); cbn; [by rewrite IH|].
  destruct (ValidAt _ _); cbn; [|by rewrite IH].
  destruct (m_consumed m !! q_QuoteID req); cbn; by rewrite IH.
Qed.

(** The batch call is the single calls in order: MarkConsumedMany returns
    one result per request, in request order, and results and final state are
    those of calling MarkConsumed on each request at the batch's clock reading. *)
Theorem MarkConsumedMany_sequential m now reqs :
  MarkConsumedMany m now reqs = mark_seq m now reqs /\
  length (fst (MarkConsumedMany m now reqs)) = length reqs.
Proof.
  rewrite MarkConsumedMany_seq. split; [done|]. revert m.
  induction reqs as [|req reqs IH]; intros m; [done|]. simpl.
  destruct (MarkConsumed _ _ _ _ _) as [r m']. specialize (IH m').
  destruct (mark_seq m' now reqs). simpl in *. lia.
Qed.

(** * Sweep *)
Definition gone (m : MemoryRegistry) (now : Z) (l : list (string * Record_)) (id : string) : bool :=
  existsb (fun '(i, rec) => bool_decide (i = id) && expired m (r_ValidUntil rec) now) l.

Lemma sweep_loop_spec m now l :
  let m' := snd (sweep_loop m now l) in
  m_grace m' = m_grace m /\ m_swaps m' = m_swaps m /\
  forall id, m_records m' !! id = (if gone m now l id then None else m_records m !! id) /\
             m_consumed m' !! id = (if gone m now l id then None else m_consumed m !! id).
Proof.
  revert m. induction l as [|[i rec] l IH]; intros m; [done|]. simpl.
  destruct (expired m (r_ValidUntil rec) now) eqn:E.
  - specialize (IH (set_consumed (set_records m (delete i (m_records m))) (delete i (m_consumed m)))).
    destruct (sweep_loop _ _ _) as [n m'']. simpl in *. destruct IH as (G & S & IH).
    split; [done|]. split; [done|]. intros id. destruct (IH id) as [-> ->].
    change (gone _ now l id) with (gone m now l id).
    destruct (decide (i = id)) as [->|Hne]; simpl.
    + rewrite bool_decide_eq_true_2 by done. rewrite !lookup_delete_eq. simpl. by case_if.
    + rewrite bool_decide_eq_false_2 by done. by rewrite !lookup_delete_ne.
  - destruct (IH m) as (G & S & IH'). split; [done|]. split; [done|]. intros id.
    destruct (IH' id) as [-> ->]. by rewrite andb_false_r.
Qed.

(** A record of the map that has expired at [now]. *)
Definition stale (m : MemoryRegistry) (now : Z) (id : string) : bool :=
  match m_records m !! id with Some rec => expired m (r_ValidUntil rec) now | None => false end.

Lemma gone_stale m now l id :
  l ≡ₚ map_to_list (m_records m) -> gone m now l id = stale m now id.
Proof.
  intros Hl. apply eq_true_iff_eq. unfold gone, stale. rewrite existsb_exists. split.
  - intros ([i rec] & Hin & H). apply andb_true_iff in H as [->%bool_decide_eq_true H].
    apply list_elem_of_In in Hin. rewrite Hl in Hin. apply elem_of_map_to_list in Hin. by rewrite Hin.
  - destruct (m_records m !! id) as [rec|] eqn:E; [|done]. intros H. exists (id, rec).
    split; [apply list_elem_of_In; rewrite Hl; by apply elem_of_map_to_list|].
    by rewrite bool_decide_eq_true_2.
Qed.

Lemma sweep_swaps_frame m now l :
  m_records (sweep_swaps m now l) = m_records m /\ m_consumed (sweep_swaps m now l) = m_consumed m /\
  m_grace (sweep_swaps m now l) = m_grace m.
Proof.
  revert m. induction l as [|[i sw] l IH]; intros m; [done|]. simpl.
  case_if; [|done]. destruct (IH (set_swaps m (delete i (m_swaps m)))) as (-> & -> & ->). done.
Qed.

Lemma Sweep_lookup m now id :
  m_records (snd (Sweep m now)) !! id = (if stale m now id then None else m_records m !! id) /\
  m_consumed (snd (Sweep m now)) !! id = (if stale m now id then None else m_consumed m !! id) /\
  m_grace (snd (Sweep m now)) = m_grace m.
Proof.
  unfold Sweep. pose proof (sweep_loop_spec m now (map_to_list (m_records m))) as (G & _ & H).
  destruct (sweep_loop _ _ _) as [n m']. simpl in *.
  destruct (sweep_swaps_frame m' now (map_to_list (m_swaps m'))) as (-> & -> & ->).
  specialize (H id). rewrite gone_stale in H by done. destruct H. by split_and!.
Qed.

(** Sweep does not depend on the map's iteration order: for every order the
    runtime may range over the records, the sweep leaves exactly the records that
    have not expired and the consumed markers of the others. *)
Theorem Sweep_order_independent m now l :
  l ≡ₚ map_to_list (m_records m) ->
  m_records (snd (sweep_loop m now l)) =
    filter (fun '(_, rec) => expired m (r_ValidUntil rec) now = false) (m_records m) /\
  (forall id, m_consumed (snd (sweep_loop m now l)) !! id =
              if stale m now id then None else m_consumed m !! id).
Proof.
  intros Hl. pose proof (sweep_loop_spec m now l) as (_ & _ & H). split.
  - apply map_eq. intros id. destruct (H id) as [-> _]. rewrite gone_stale by done.
    rewrite map_lookup_filter. unfold stale. destruct (m_records m !! id) as [rec|]; simpl; [|done].
    by destruct (expired _ _ _).
  - intros id. destruct (H id) as [_ ->]. by rewrite gone_stale.
Qed.

Definition ex_rec (id : string) (vu : Z) : Record_ :=
  mkRecord id "USD/KRW" (mkProfile "WEB" "HQ" "VIP") "SPOT" f1 f1 0 vu 1 "A" 0 0 "" "" f0 f0 f0.

Definition ex_reg : MemoryRegistry :=
  PutMany (NewMemoryRegistry 5) [ex_rec "A-0-1" 10; ex_rec "A-0-2" 100].

Lemma Sweep_order_independent_witness :
  [("A-0-2", ex_rec "A-0-2" 100); ("A-0-1", ex_rec "A-0-1" 10)] ≡ₚ map_to_list (m_records ex_reg) /\
  m_records (snd (sweep_loop ex_reg 50 [("A-0-2", ex_rec "A-0-2" 100); ("A-0-1", ex_rec "A-0-1" 10)]))
  = filter (fun '(_, rec) => expired ex_reg (r_ValidUntil rec) 50 = false) (m_records ex_reg).
Proof.
  assert ([("A-0-2", ex_rec "A-0-2" 100); ("A-0-1", ex_rec "A-0-1" 10)] ≡ₚ map_to_list (m_records ex_reg)) as H.
  { vm_compute. first [reflexivity | apply Permutation_swap]. }
  split; [exact H|]. exact (proj1 (Sweep_order_independent ex_reg 50 _ H)).
Defined.

(** * Interleavings

    The registry is shared by concurrent callers. Each critical section is one
    atomic step; [Get] is a read step and, when the record it read has expired,
    a later eviction step, with other callers' steps in between. The clock only
    moves forward; readings made outside a critical section may be old. *)
Record sys := mkSys { y_reg : MemoryRegistry; y_clock : Z; y_gets : list (string * Record_) }.

Inductive label :=
| LTau
| LPut (recs : list Record_)
| LDelete (id : string)
| LMarks (l : list (string * ConsumeStatus)).

Inductive step : sys -> label -> sys -> Prop :=
| step_tick m t gs t' : t <= t' -> step (mkSys m t gs) LTau (mkSys m t' gs)
| step_put m t gs rec m' :
    Put m rec = Ok m' -> step (mkSys m t gs) (LPut [rec]) (mkSys m' t gs)
| step_put_many m t gs recs :
    step (mkSys m t gs) (LPut recs) (mkSys (PutMany m recs) t gs)
| step_get_read m t gs id rec :
    get_read m id = Some rec -> step (mkSys m t gs) LTau (mkSys m t ((id, rec) :: gs))
| step_get_return m t gs gs1 gs2 id rec :
    gs = gs1 ++ (id, rec) :: gs2 -> step (mkSys m t gs) LTau (mkSys m t (gs1 ++ gs2))
| step_get_evict m t gs gs1 gs2 id rec now :
    gs = gs1 ++ (id, rec) :: gs2 -> now <= t -> expired m (r_ValidUntil rec) now = true ->
    step (mkSys m t gs) LTau (mkSys (get_evict m id) t (gs1 ++ gs2))
| step_mark m t gs now1 now2 id c r m' :
    t <= now1 -> now1 <= now2 -> MarkConsumed m now1 now2 id c = (r, m') ->
    step (mkSys m t gs) (LMarks [(id, cr_Status r)]) (mkSys m' now2 gs)
| step_mark_many m t gs now reqs rs m' :
    t <= now -> MarkConsumedMany m now reqs = (rs, m') ->
    step (mkSys m t gs) (LMarks (zip (map q_QuoteID reqs) (map cr_Status rs))) (mkSys m' now gs)
| step_sweep m t gs now :
    now <= t -> step (mkSys m t gs) LTau (mkSys (snd (Sweep m now)) t gs)
| step_delete m t gs id :
    step (mkSys m t gs) (LDelete id) (mkSys (Delete m id) t gs)
| step_put_swap m t gs sw m' :
    PutSwap m sw = Ok m' -> step (mkSys m t gs) LTau (mkSys m' t gs)
| step_get_swap m t gs now id :
    t <= now -> step (mkSys m t gs) LTau (mkSys (snd (GetSwap m now id)) now gs)
| step_delete_swap m t gs id :
    step (mkSys m t gs) LTau (mkSys (DeleteSwap m id) t gs).

Inductive run : sys -> list label -> sys -> Prop :=
| run_nil s : run s [] s
| run_cons s l s' tr s'' : step s l s' -> run s' tr s'' -> run s (l :: tr) s''.

(** Successful consumptions of [id]. *)
Definition oks_in (id : string) (l : list (string * ConsumeStatus)) : nat :=
  length (filter (fun p => p = (id, ConsumeOK)) l).
Definition oks (id : string) (l : label) : nat :=
  match l with LMarks l => oks_in id l | _ => 0 end.
Definition ok_count (id : string) (tr : list label) : nat := sum_list_with (oks id) tr.

(** The registrations and deletions a trace makes of [id]. *)
Definition puts_agree (id : string) (vu : Z) (l : label) : Prop :=
  match l with
  | LPut recs => Forall (fun rec => r_QuoteID rec = id -> r_ValidUntil rec = vu) recs
  | LDelete id' => id' <> id
  | _ => True
  end.

Section once.
Context (id : string) (vu : Z).

(** [k] consumptions of [id] succeeded so far. *)
Definition once_inv (k : nat) (m : MemoryRegistry) (t : Z) : Prop :=
  (forall rec, m_records m !! id = Some rec -> r_ValidUntil rec = vu) /\
  (k <= 1)%nat /\
  (k = 1%nat -> is_Some (m_consumed m !! id) \/ vu + m_grace m < t).

Lemma once_records k m t recs :
  once_inv k m t -> (forall rec, recs !! id = Some rec -> r_ValidUntil rec = vu) ->
  once_inv k (set_records m recs) t.
Proof. intros (_ & H) ?. by split. Qed.

Lemma once_later k m t t' : t <= t' -> once_inv k m t -> once_inv k m t'.
Proof.
  intros Ht (A & B & C). split; [done|]. split; [done|].
  intros K. destruct (C K); [auto|right; lia].
Qed.

Lemma once_put_many k m t recs :
  Forall (fun rec => r_QuoteID rec = id -> r_ValidUntil rec = vu) recs ->
  once_inv k m t -> once_inv k (PutMany m recs) t.
Proof.
  intros H. revert m. induction H as [|rec recs Hr H IH]; intros m Hm; simpl; [done|].
  case_if; [auto|]. apply IH. apply once_records; [done|].
  intros rec'. destruct (decide (r_QuoteID rec = id)) as [E'|Hne].
  - rewrite E', lookup_insert_eq. intros [= <-]. auto.
  - rewrite lookup_insert_ne by done. apply Hm.
Qed.

Lemma once_evict k m t i : once_inv k m t -> once_inv k (get_evict m i) t.
Proof.
  intros Hm. apply once_records; [done|]. intros rec [_ H]%lookup_delete_Some. by apply Hm.
Qed.

Lemma once_mark k m t now1 now2 i c r m' :
  t <= now1 -> now1 <= now2 -> MarkConsumed m now1 now2 i c = (r, m') ->
  once_inv k m t -> once_inv (k + oks_in id [(i, cr_Status r)]) m' now2.
Proof.
  intros H1 H2 E Hm. unfold oks_in. unfold MarkConsumed in E.
  assert (forall r', cr_Status r' <> ConsumeOK ->
    length (filter (fun p => p = (id, ConsumeOK)) [(i, cr_Status r')]) = 0%nat) as Hz
    by (intros; rewrite filter_cons_False by congruence; done).
  pose proof (once_later k m t now2 ltac:(lia) Hm) as Hl.
  destruct (m_records m !! i) as [rec|] eqn:Er;
    [|injection E as <- <-; rewrite Hz, Nat.add_0_r by done; done].
  destruct (expired m (r_ValidUntil rec) now1) eqn:Ex.
  { injection E as <- <-. rewrite Hz, Nat.add_0_r by done. destruct Hl as (A & B & C). split.
    - simpl. intros rec' [_ H]%lookup_delete_Some. by apply A.
    - split; [done|]. intros K. destruct (decide (i = id)) as [->|Hne].
      + right. pose proof (A rec ltac:(done)). unfold expired, After, time_add in Ex. simpl. bool_lia.
      + simpl. rewrite lookup_delete_ne by done. by apply C. }
  destruct (ValidAt rec now2); simpl in E; [|injection E as <- <-; rewrite Hz, Nat.add_0_r by done; done].
  destruct (m_consumed m !! i) as [prev|] eqn:Ec; injection E as <- <-.
  { rewrite Hz, Nat.add_0_r by done. done. }
  destruct (decide (i = id)) as [->|Hne].
  - rewrite filter_cons_True, filter_nil by done. simpl. destruct Hm as (A & B & C).
    assert (k = 0%nat) as ->.
    { destruct (decide (k = 1%nat)) as [K|]; [|lia]. exfalso. destruct (C K) as [[? ?]|C']; [congruence|].
      pose proof (A _ Er). unfold expired, After, time_add in Ex. bool_lia. }
    split; [done|]. split; [lia|]. intros _. left. simpl. rewrite lookup_insert_eq. eauto.
  - rewrite filter_cons_False, filter_nil, Nat.add_0_r by congruence. destruct Hl as (A & B & C).
    split; [done|]. split; [done|]. intros K. simpl. rewrite lookup_insert_ne by done. by apply C.
Qed.

Lemma oks_in_cons p l : oks_in id (p :: l) = (oks_in id [p] + oks_in id l)%nat.
Proof. unfold oks_in. rewrite !filter_cons. by destruct (decide _). Qed.

Lemma once_mark_many k m t now reqs rs m' :
  t <= now -> mark_seq m now reqs = (rs, m') -> once_inv k m t ->
  once_inv (k + oks_in id (zip (map q_QuoteID reqs) (map cr_Status rs))) m' now.
Proof.
  revert k m t rs m'. induction reqs as [|req reqs IH]; intros k m t rs m' Ht E Hm; simpl in E.
  - injection E as <- <-. rewrite Nat.add_0_r. by eapply once_later.
  - destruct (MarkConsumed _ _ _ _ _) as [r m1] eqn:E1. destruct (mark_seq m1 now reqs) as [rs1 m2] eqn:E2.
    injection E as <- <-. simpl zip. rewrite oks_in_cons, Nat.add_assoc.
    eapply (IH _ m1 now); [lia|done|]. by eapply (once_mark k m t now now).
Qed.

Lemma once_sweep k m t now :
  now <= t -> once_inv k m t -> once_inv k (snd (Sweep m now)) t.
Proof.
  intros Ht (A & B & C). destruct (Sweep_lookup m now id) as (R & S & G).
  unfold stale in R, S. split; [|split; [done|]].
  - intros rec. rewrite R. case_if; [done|apply A].
  - intros K. rewrite G, S. destruct (m_records m !! id) as [rec|]; [|auto].
    destruct (expired _ _ _) eqn:Ex; [|auto]. right. rewrite <-(A rec) by done.
    unfold expired, After, time_add in Ex. bool_lia.
Qed.

Lemma once_delete k m t i : i <> id -> once_inv k m t -> once_inv k (Delete m i) t.
Proof.
  intros Hi (A & B & C). unfold Delete. destruct (decide (i = "")); [by split|].
  split; simpl; [|split; [done|]].
  - intros rec [_ H]%lookup_delete_Some. by apply A.
  - by rewrite lookup_delete_ne.
Qed.

Lemma once_swaps k m t sw : once_inv k m t -> once_inv k (set_swaps m sw) t.
Proof. done. Qed.

Lemma once_step s l s' k :
  step s l s' -> puts_agree id vu l -> once_inv k (y_reg s) (y_clock s) ->
  once_inv (k + oks id l) (y_reg s') (y_clock s').
Proof.
  intros [] Hp Hk; simpl in *; rewrite ?Nat.add_0_r;
    eauto using once_later, once_put_many, once_evict, once_mark, once_sweep, once_delete.
  - unfold Put in *. repeat case_match; simplify_eq. apply (once_put_many k m t [rec]) in Hp; [|done].
    simpl in Hp. unfold invalid_record in Hp.
    rewrite bool_decide_eq_false_2, orb_false_r in Hp by done. by case_match.
  - rewrite MarkConsumedMany_seq in *. by eapply once_mark_many.
  - unfold PutSwap in *. repeat case_match; simplify_eq. by apply once_swaps.
  - unfold GetSwap. repeat case_match; simpl; eauto using once_later, once_swaps.
  - unfold DeleteSwap. by case_match.
Qed.

Lemma once_run s tr s' k :
  run s tr s' -> Forall (puts_agree id vu) tr -> once_inv k (y_reg s) (y_clock s) ->
  once_inv (k + ok_count id tr) (y_reg s') (y_clock s').
Proof.
  intros H. revert k. induction H as [s|s l s1 tr s2 Hs Hr IH]; intros k Hf Hk.
  - by rewrite Nat.add_0_r.
  - apply Forall_cons in Hf as [Hl Hf]. unfold ok_count. simpl. rewrite Nat.add_assoc.
    apply IH; [done|]. by eapply once_step.
Qed.
End once.



(** * Expiry is observational

    [live m t id] is the record clients can still obtain at time [t]. Two
    registries are equivalent at [t] when they agree on the live records and on
    their consumed markers: what lazy eviction and sweeps remove is not seen. *)
Definition live (m : MemoryRegistry) (t : Z) (id : string) : option Record_ :=
  match m_records m !! id with
  | Some rec => if expired m (r_ValidUntil rec) t then None else Some rec
  | None => None
  end.

Definition reg_equiv (t : Z) (m m' : MemoryRegistry) : Prop :=
  m_grace m = m_grace m' /\
  forall id, live m t id = live m' t id /\
             (is_Some (live m t id) -> m_consumed m !! id = m_consumed m' !! id).

#[export] Instance reg_equiv_equivalence t : Equivalence (reg_equiv t).
Proof.
  split.
  - intros m. by split.
  - intros m m' [G H]. split; [done|]. intros id. destruct (H id) as [L C].
    rewrite <-L. split; [done|]. intros S. symmetry. auto.
  - intros m1 m2 m3 [G H] [G' H']. split; [congruence|]. intros id.
    destruct (H id) as [L C], (H' id) as [L' C']. rewrite L, L'. split; [done|].
    intros S. rewrite C, C'; [done|..]; congruence.
Qed.

Lemma live_later m t t' id : t <= t' ->
  live m t' id = (rec ← live m t id; if expired m (r_ValidUntil rec) t' then None else Some rec).
Proof.
  intros Ht. unfold live. destruct (m_records m !! id) as [rec|]; [|done].
  destruct (expired m (r_ValidUntil rec) t) eqn:E; [|done]. simpl.
  unfold expired, After, time_add in *. destruct (Z.ltb_spec (r_ValidUntil rec + m_grace m) t'); [done|].
  bool_lia.
Qed.

Lemma reg_equiv_later t t' m m' : t <= t' -> reg_equiv t m m' -> reg_equiv t' m m'.
Proof.
  intros Ht [G H]. split; [done|]. intros id. destruct (H id) as [L C].
  rewrite !(live_later _ t t') by done. unfold expired. rewrite <-G, <-L. split; [done|].
  intros S. apply C. destruct (live m t id); [done|]. by destruct S.
Qed.

(** Removing a record that is not live, with or without its marker. *)
Lemma reg_equiv_drop t m i recs cons :
  live m t i = None ->
  (forall id, id <> i -> recs !! id = m_records m !! id /\ cons !! id = m_consumed m !! id) ->
  recs !! i = None -> reg_equiv t (mkMem recs cons (m_swaps m) (m_grace m)) m.
Proof.
  intros Hi H Hr. split; [done|]. intros id. unfold live. simpl.
  destruct (decide (id = i)) as [->|Hne].
  - rewrite Hr. unfold live in Hi. rewrite Hi. split; [done|]. by intros [? ?].
  - destruct (H id Hne) as [-> ->]. done.
Qed.

Lemma reg_equiv_sweep t m : reg_equiv t (snd (Sweep m t)) m.
Proof.
  split; [apply (Sweep_lookup m t "")|]. intros id. destruct (Sweep_lookup m t id) as (R & C & G).
  unfold live, expired. rewrite R, C, G. unfold stale.
  destruct (m_records m !! id) as [rec|]; [|done]. unfold expired.
  destruct (After _ _) eqn:E; [split; [done|by intros [? ?]]|]. by rewrite E.
Qed.

Lemma Get_spec m now id :
  fst (Get m now id) = (if live m now id is Some rec then Ok rec else Err ErrNotFound) /\
  reg_equiv now (snd (Get m now id)) m.
Proof.
  unfold Get, get_read, get_evict, live. destruct (m_records m !! id) as [rec|] eqn:E; [|done].
  destruct (expired _ _ _) eqn:Ex; [|done]. split; [done|]. apply (reg_equiv_drop now m id).
  - unfold live. by rewrite E, Ex.
  - intros i Hi. by rewrite lookup_delete_ne.
  - apply lookup_delete_eq.
Qed.

(** What a consumption answers and how it changes the registry, by liveness. *)
Lemma MarkConsumed_spec m now id c :
  fst (MarkConsumed m now now id c) =
    match live m now id with
    | None => mkConsume ConsumeNotFound zero_record ""
    | Some rec =>
        if negb (ValidAt rec now) then mkConsume ConsumeExpired rec ""
        else if m_consumed m !! id is Some prev then mkConsume ConsumeAlreadyDone rec prev
        else mkConsume ConsumeOK rec ""
    end /\
  reg_equiv now (snd (MarkConsumed m now now id c))
    (match live m now id with
     | Some rec =>
         if ValidAt rec now && negb (bool_decide (is_Some (m_consumed m !! id)))
         then set_consumed m (<[id := c]> (m_consumed m)) else m
     | None => m
     end).
Proof.
  unfold MarkConsumed, live. destruct (m_records m !! id) as [rec|] eqn:E; [|done].
  destruct (expired _ _ _) eqn:Ex.
  - split; [done|]. apply (reg_equiv_drop now m id).
    + unfold live. by rewrite E, Ex.
    + intros i Hi. simpl. by rewrite !lookup_delete_ne.
    + apply lookup_delete_eq.
  - destruct (ValidAt rec now); simpl; [|done]. by destruct (m_consumed m !! id).
Qed.

Lemma reg_equiv_insert t m m' id c :
  reg_equiv t m m' ->
  reg_equiv t (set_consumed m (<[id := c]> (m_consumed m))) (set_consumed m' (<[id := c]> (m_consumed m'))).
Proof.
  intros [G H]. split; [done|]. intros i. destruct (H i) as [L C]. split; [exact L|].
  simpl. intros S. destruct (decide (id = i)) as [->|Hne]; [by rewrite !lookup_insert_eq|].
  rewrite !lookup_insert_ne by done. auto.
Qed.

(** Equivalent registries answer a consumption alike and stay equivalent. *)
Lemma MarkConsumed_equiv now m m' id c :
  reg_equiv now m m' ->
  fst (MarkConsumed m now now id c) = fst (MarkConsumed m' now now id c) /\
  reg_equiv now (snd (MarkConsumed m now now id c)) (snd (MarkConsumed m' now now id c)).
Proof.
  intros H. destruct (MarkConsumed_spec m now id c) as [-> S].
  destruct (MarkConsumed_spec m' now id c) as [-> S']. destruct (proj2 H id) as [L C].
  rewrite <-L in *. split.
  - destruct (live m now id); [|done]. by rewrite C by eauto.
  - rewrite S, S'. destruct (live m now id); [|done]. rewrite C by eauto.
    case_if; [|done]. by apply reg_equiv_insert.
Qed.

Lemma mark_seq_equiv now m m' reqs :
  reg_equiv now m m' ->
  fst (mark_seq m now reqs) = fst (mark_seq m' now reqs) /\
  reg_equiv now (snd (mark_seq m now reqs)) (snd (mark_seq m' now reqs)).
Proof.
  revert m m'. induction reqs as [|req reqs IH]; intros m m' H; [done|]. simpl.
  destruct (MarkConsumed_equiv now m m' (q_QuoteID req) (q_ConsumerID req) H) as [E S].
  destruct (MarkConsumed m _ _ _ _) as [r m1], (MarkConsumed m' _ _ _ _) as [r' m1'].
  simpl in E, S. subst r'. destruct (IH m1 m1' S) as [E' S'].
  destruct (mark_seq m1 now reqs), (mark_seq m1' now reqs). simpl in *. by subst.
Qed.

(** Client operations with their clock reading, and what clients see. The lookup
    of a live quote shows its marker; of any other quote, that it is not found. *)
Inductive op :=
| OpPut (rec : Record_)
| OpGet (id : string)
| OpMark (id consumer : string)
| OpMarkMany (reqs : list ConsumeRequest)
| OpLookup (id : string)
| OpSweep.

Inductive output :=
| OutPut (ok : bool)
| OutGet (r : res RegErr Record_)
| OutMarks (rs : list ConsumeResult)
| OutLookup (r : option (Record_ * bool * string)).

Definition exec (m : MemoryRegistry) (now : Z) (o : op) : list output * MemoryRegistry :=
  match o with
  | OpPut rec => match Put m rec with Ok m' => ([OutPut true], m') | _ => ([OutPut false], m) end
  | OpGet id => let '(r, m) := Get m now id in ([OutGet r], m)
  | OpMark id c => let '(r, m) := MarkConsumed m now now id c in ([OutMarks [r]], m)
  | OpMarkMany reqs => let '(rs, m) := MarkConsumedMany m now reqs in ([OutMarks rs], m)
  | OpLookup id =>
      let r := Lookup m now id in
      ([OutLookup (if l_Found r then Some (l_Record r, l_Consumed r, l_ConsumedBy r) else None)], m)
  | OpSweep => ([], snd (Sweep m now))
  end.

Fixpoint run_ops (m : MemoryRegistry) (ops : list (Z * op)) : list output :=
  match ops with
  | [] => []
  | (now, o) :: ops => let '(out, m) := exec m now o in out ++ run_ops m ops
  end.

Definition is_sweep (o : Z * op) : bool := match snd o with OpSweep => true | _ => false end.
Definition drop_sweeps (ops : list (Z * op)) : list (Z * op) :=
  List.filter (fun o => negb (is_sweep o)) ops.

(** Clock readings do not go back, and every registration uses a new id (what
    the generator guarantees), [seen] being the ids used so far. *)
Fixpoint ops_ok (t : Z) (seen : list string) (ops : list (Z * op)) : Prop :=
  match ops with
  | [] => True
  | (now, o) :: ops =>
      t <= now /\
      match o with
      | OpPut rec => (r_QuoteID rec ∉ seen) /\ ops_ok now (r_QuoteID rec :: seen) ops
      | _ => ops_ok now seen ops
      end
  end.

(** Only ids that were registered have entries. *)
Definition only_seen (seen : list string) (m : MemoryRegistry) : Prop :=
  forall id, id ∉ seen -> m_records m !! id = None /\ m_consumed m !! id = None.

Lemma only_seen_sub seen m m' :
  (forall id, m_records m !! id = None -> m_records m' !! id = None /\
              (m_consumed m !! id = None -> m_consumed m' !! id = None)) ->
  only_seen seen m -> only_seen seen m'.
Proof. intros H Hs id Hid. destruct (Hs id Hid) as [R C]. destruct (H id R). auto. Qed.

Lemma seen_mark seen m now1 now2 id c :
  only_seen seen m -> only_seen seen (snd (MarkConsumed m now1 now2 id c)).
Proof.
  apply only_seen_sub. intros i Hi. unfold MarkConsumed.
  destruct (m_records m !! id) as [rec|] eqn:E; [|done].
  repeat case_match; simpl; rewrite ?lookup_delete_None; auto.
  split; [done|]. intros. rewrite lookup_insert_ne by congruence. done.
Qed.

Lemma seen_mark_seq seen m now reqs :
  only_seen seen m -> only_seen seen (snd (mark_seq m now reqs)).
Proof.
  revert m. induction reqs as [|req reqs IH]; intros m H; [done|]. simpl.
  pose proof (seen_mark seen m now now (q_QuoteID req) (q_ConsumerID req) H) as H1.
  destruct (MarkConsumed _ _ _ _ _) as [r m1]. specialize (IH m1 H1).
  by destruct (mark_seq m1 now reqs).
Qed.

Lemma seen_get seen m now id : only_seen seen m -> only_seen seen (snd (Get m now id)).
Proof.
  apply only_seen_sub. intros i Hi. unfold Get, get_evict.
  repeat case_match; simpl; rewrite ?lookup_delete_None; auto.
Qed.

Lemma seen_sweep seen m now : only_seen seen m -> only_seen seen (snd (Sweep m now)).
Proof.
  apply only_seen_sub. intros i Hi. destruct (Sweep_lookup m now i) as (-> & -> & _).
  by rewrite Hi; unfold stale; rewrite Hi.
Qed.

Lemma Put_equiv now m m' rec :
  reg_equiv now m m' -> m_consumed m !! r_QuoteID rec = m_consumed m' !! r_QuoteID rec ->
  match Put m rec, Put m' rec with
  | Ok n, Ok n' => reg_equiv now n n'
  | Err _, Err _ => True
  | _, _ => False
  end.
Proof.
  intros [G H] C. unfold Put. case_if; [done|]. destruct (decide _); [done|]. split; [done|].
  intros id. unfold live, expired. simpl. destruct (decide (r_QuoteID rec = id)) as [<-|Hne].
  - rewrite !lookup_insert_eq, G. done.
  - rewrite !lookup_insert_ne by done. apply H.
Qed.

Lemma seen_put seen m rec n :
  Put m rec = Ok n -> only_seen seen m -> only_seen (r_QuoteID rec :: seen) n.
Proof.
  intros E Hs id Hid. unfold Put in E. repeat case_match; simplify_eq. apply not_elem_of_cons in Hid as [Hne Hid].
  simpl. rewrite lookup_insert_ne by congruence. by apply Hs.
Qed.

Lemma seen_more i seen m : only_seen seen m -> only_seen (i :: seen) m.
Proof. intros H id Hid. apply not_elem_of_cons in Hid as [_ Hid]. auto. Qed.

Lemma Lookup_equiv now m m' id :
  reg_equiv now m m' -> fst (exec m now (OpLookup id)) = fst (exec m' now (OpLookup id)).
Proof.
  intros [G H]. destruct (H id) as [L C]. cbn. unfold Lookup, lookupLocked. unfold live in L, C.
  destruct (m_records m !! id) as [r|], (m_records m' !! id) as [r'|];
    repeat case_match; simplify_eq/=; try done. by rewrite C by eauto.
Qed.

(** One client operation, on equivalent registries. *)
Lemma exec_equiv now m m' o seen :
  reg_equiv now m m' -> only_seen seen m -> only_seen seen m' -> o <> OpSweep ->
  (if o is OpPut rec then r_QuoteID rec ∉ seen else True) ->
  fst (exec m now o) = fst (exec m' now o) /\ reg_equiv now (snd (exec m now o)) (snd (exec m' now o)).
Proof.
  intros H Hs Hs' No Hf. destruct o as [rec|id|id c|reqs|id|]; try done.
  - assert (m_consumed m !! r_QuoteID rec = m_consumed m' !! r_QuoteID rec) as C
      by (by rewrite (proj2 (Hs _ Hf)), (proj2 (Hs' _ Hf))).
    pose proof (Put_equiv now m m' rec H C). cbn. by destruct (Put m rec), (Put m' rec).
  - cbn. destruct (Get_spec m now id) as [E S], (Get_spec m' now id) as [E' S'].
    destruct (Get m now id), (Get m' now id). simpl in *.
    rewrite (proj1 (proj2 H id)) in E. rewrite S, S'. split; [congruence|done].
  - cbn. destruct (MarkConsumed_equiv now m m' id c H) as [E S].
    destruct (MarkConsumed m _ _ _ _), (MarkConsumed m' _ _ _ _). simpl in *. by subst.
  - cbn. rewrite (MarkConsumedMany_seq m), (MarkConsumedMany_seq m'). destruct (mark_seq_equiv now m m' reqs H) as [E S].
    destruct (mark_seq m _ _), (mark_seq m' _ _). simpl in *. by subst.
  - split; [by apply Lookup_equiv|done].
Qed.

Lemma seen_exec now m o seen :
  only_seen seen m ->
  only_seen (if o is OpPut rec then r_QuoteID rec :: seen else seen) (snd (exec m now o)).
Proof.
  intros Hs. destruct o as [rec|id|id c|reqs|id|]; cbn.
  - destruct (Put m rec) eqn:E; simpl; eauto using seen_put, seen_more.
  - pose proof (seen_get seen m now id Hs). by destruct (Get m now id).
  - pose proof (seen_mark seen m now now id c Hs). by destruct (MarkConsumed _ _ _ _ _).
  - rewrite MarkConsumedMany_seq. pose proof (seen_mark_seq seen m now reqs Hs).
    by destruct (mark_seq _ _ _).
  - done.
  - by apply seen_sweep.
Qed.

Lemma run_ops_equiv ops t seen m m' :
  ops_ok t seen ops -> reg_equiv t m m' -> only_seen seen m -> only_seen seen m' ->
  run_ops m ops = run_ops m' (drop_sweeps ops).
Proof.
  revert t seen m m'. induction ops as [|[now o] ops IH]; intros t seen m m' Hok H Hs Hs'; [done|].
  destruct Hok as [Ht Hok]. apply (reg_equiv_later t now) in H; [|done]. simpl.
  destruct (is_sweep (now, o)) eqn:Es; simpl.
  - destruct o; try done. simpl. apply (IH now seen); [done| |by apply seen_sweep|done].
    by rewrite reg_equiv_sweep.
  - assert (o <> OpSweep) as No by (by intros ->).
    assert (if o is OpPut rec then r_QuoteID rec ∉ seen else True) as Hf by (destruct o; tauto).
    destruct (exec_equiv now m m' o seen H Hs Hs' No Hf) as [E S].
    pose proof (seen_exec now m o seen Hs) as N. pose proof (seen_exec now m' o seen Hs') as N'.
    destruct (exec m now o) as [out m1], (exec m' now o) as [out' m1']. simpl in *. subst out'.
    f_equal. destruct o; eapply IH; eauto; tauto.
Qed.

(** Sweeps are invisible: for any sequence of client operations (puts of new
    ids, gets, single and batch consumptions, lookups) with non-decreasing clock
    readings, the results are the same with the sweeps left out; eviction never
    changes a price, a consumption outcome or a lookup of a live quote. *)
Theorem sweep_invisible grace t ops :
  ops_ok t [] ops ->
  run_ops (NewMemoryRegistry grace) ops = run_ops (NewMemoryRegistry grace) (drop_sweeps ops).
Proof. intros H. by apply (run_ops_equiv ops t []). Qed.

Definition ex_ops : list (Z * op) :=
  [(1, OpPut (ex_rec "q1" 10)); (2, OpMark "q1" "alice"); (3, OpPut (ex_rec "q2" 100));
   (16, OpSweep); (17, OpGet "q1"); (18, OpMark "q1" "bob"); (19, OpLookup "q2")].

Lemma sweep_invisible_witness :
  ops_ok 0 [] ex_ops /\
  run_ops (NewMemoryRegistry 5) ex_ops = run_ops (NewMemoryRegistry 5) (drop_sweeps ex_ops).
Proof.
  assert (ops_ok 0 [] ex_ops) as H by (simpl; repeat split; (lia || set_solver)).
  split; [exact H|]. exact (sweep_invisible 5 0 ex_ops H).
Defined.

(** A lazy eviction leaks the consumed marker: when Get evicts an expired
    record that was consumed, the marker stays, and no later Sweep at any time
    removes it (Sweep only visits markers through their records). *)
Theorem Get_leaks_marker m now id rec c times :
  m_records m !! id = Some rec -> expired m (r_ValidUntil rec) now = true ->
  m_consumed m !! id = Some c ->
  let m' := fold_left (fun m t => snd (Sweep m t)) times (snd (Get m now id)) in
  m_records m' !! id = None /\ Consumed m' id = (c, true).
Proof.
  intros Hr Hx Hc. unfold Get, get_read. rewrite Hr, Hx. simpl.
  assert (m_records (get_evict m id) !! id = None /\ m_consumed (get_evict m id) !! id = Some c) as [R C]
    by (split; [apply lookup_delete_eq|done]).
  revert R C. generalize (get_evict m id). clear. induction times as [|t ts IH]; intros m R C; simpl.
  - unfold Consumed. by rewrite C.
  - destruct (Sweep_lookup m t id) as (R' & C' & _). unfold stale in *. rewrite R in *.
    apply IH; congruence.
Qed.

Lemma Get_leaks_marker_witness :
  let m := snd (MarkConsumed (PutMany (NewMemoryRegistry 5) [ex_rec "q" 10]) 1 1 "q" "alice") in
  m_consumed m !! "q" = Some "alice" /\
  Consumed (fold_left (fun m t => snd (Sweep m t)) [30; 40] (snd (Get m 20 "q"))) "q" = ("alice", true).
Proof.
  split; [reflexivity|].
  exact (proj2 (Get_leaks_marker
    (snd (MarkConsumed (PutMany (NewMemoryRegistry 5) [ex_rec "q" 10]) 1 1 "q" "alice"))
    20 "q" (ex_rec "q" 10) "alice" [30; 40] eq_refl eq_refl eq_refl)).
Defined.
