(* ===== verification/Async.v ===== *)
(** The asynchronous registry (src/pkg/quoteid/async.go): [Put] enqueues on a
    bounded channel, a worker goroutine batches the records and hands them to
    the wrapped registry. The worker and its callers interleave: a step relation
    over the channel, the batch and the counters. *)

From Stdlib Require Import ZArith Lia.
From S2P Require Import Prelude Float64 Session QuoteID Registry.
Local Open Scope Z_scope.

(** What [AsyncRegistry] needs of the registry it wraps: [PutMany], with its
    new state and whether it returned a nil error. *)
Class BatchSink (S : Type) := sink_PutMany : S -> list Record_ -> S * bool.

#[export] Instance memory_sink : BatchSink MemoryRegistry := fun m recs => (PutMany m recs, true).

Record AsyncRegistryOptions := mkAsyncOpt { o_QueueSize : Z; o_BatchMax : Z }.

Record AsyncRegistry (S : Type) := mkAsync {
  a_inner : S;
  a_queue : list Record_; a_cap : Z; a_closed : bool;
  a_batchMax : Z; a_batch : list Record_; a_done : bool;
  a_enqueued : Z; a_dropped : Z; a_written : Z; a_failed : Z }.
Arguments mkAsync {S}.
Arguments a_inner {S}. Arguments a_queue {S}. Arguments a_cap {S}. Arguments a_closed {S}.
Arguments a_batchMax {S}. Arguments a_batch {S}. Arguments a_done {S}. Arguments a_enqueued {S}.
Arguments a_dropped {S}. Arguments a_written {S}. Arguments a_failed {S}.

Section async.
Context {S : Type} `{BatchSink S}.

Definition NewAsyncRegistry (inner : S) (opt : AsyncRegistryOptions) : AsyncRegistry S :=
  {| a_inner := inner; a_queue := [];
     a_cap := if o_QueueSize opt <=? 0 then 10000 else o_QueueSize opt;
     a_closed := false;
     a_batchMax := if o_BatchMax opt <=? 0 then 200 else o_BatchMax opt;
     a_batch := []; a_done := false;
     a_enqueued := 0; a_dropped := 0; a_written := 0; a_failed := 0 |}.

(** Counters are wrapping uint64. *)
Definition count (c n : Z) : Z := wrap 64 (c + n).

(** A send on a closed channel panics, also inside [select]. *)
Definition async_Put (a : AsyncRegistry S) (rec : Record_) : res RegErr (AsyncRegistry S) :=
  if bool_decide (r_QuoteID rec = "") || (r_ValidUntil rec <=? r_IssuedAt rec) then Err ErrInvalidRecord
  else if a_closed a then Panic
  else if zlen (a_queue a) <? a_cap a then
    Ok {| a_inner := a_inner a; a_queue := a_queue a ++ [rec]; a_cap := a_cap a;
          a_closed := a_closed a; a_batchMax := a_batchMax a; a_batch := a_batch a;
          a_done := a_done a; a_enqueued := count (a_enqueued a) 1; a_dropped := a_dropped a;
          a_written := a_written a; a_failed := a_failed a |}
  else
    Ok {| a_inner := a_inner a; a_queue := a_queue a; a_cap := a_cap a;
          a_closed := a_closed a; a_batchMax := a_batchMax a; a_batch := a_batch a;
          a_done := a_done a; a_enqueued := a_enqueued a; a_dropped := count (a_dropped a) 1;
          a_written := a_written a; a_failed := a_failed a |}.

(** [PutMany] goes straight to the wrapped registry. *)
Definition async_PutMany (a : AsyncRegistry S) (recs : list Record_) : AsyncRegistry S * bool :=
  let '(inner, ok) := sink_PutMany (a_inner a) recs in
  ({| a_inner := inner; a_queue := a_queue a; a_cap := a_cap a; a_closed := a_closed a;
      a_batchMax := a_batchMax a; a_batch := a_batch a; a_done := a_done a;
      a_enqueued := a_enqueued a; a_dropped := a_dropped a; a_written := a_written a;
      a_failed := a_failed a |}, ok).

(** The [flush] closure of the worker. *)
Definition flush (a : AsyncRegistry S) : AsyncRegistry S :=
  match a_batch a with
  | [] => a
  | batch =>
      let '(inner, ok) := sink_PutMany (a_inner a) batch in
      let n := zlen batch in
      {| a_inner := inner; a_queue := a_queue a; a_cap := a_cap a; a_closed := a_closed a;
         a_batchMax := a_batchMax a; a_batch := []; a_done := a_done a;
         a_enqueued := a_enqueued a; a_dropped := a_dropped a;
         a_written := if ok then count (a_written a) n else a_written a;
         a_failed := if ok then a_failed a else count (a_failed a) n |}
  end.

Definition set_batch (a : AsyncRegistry S) (q batch : list Record_) : AsyncRegistry S :=
  {| a_inner := a_inner a; a_queue := q; a_cap := a_cap a; a_closed := a_closed a;
     a_batchMax := a_batchMax a; a_batch := batch; a_done := a_done a;
     a_enqueued := a_enqueued a; a_dropped := a_dropped a; a_written := a_written a;
     a_failed := a_failed a |}.
Definition set_done (a : AsyncRegistry S) : AsyncRegistry S :=
  {| a_inner := a_inner a; a_queue := a_queue a; a_cap := a_cap a; a_closed := a_closed a;
     a_batchMax := a_batchMax a; a_batch := a_batch a; a_done := true;
     a_enqueued := a_enqueued a; a_dropped := a_dropped a; a_written := a_written a;
     a_failed := a_failed a |}.

(** The receive case of the worker's [select]: a record, or the closed and
    drained channel, on which the worker flushes and returns. [None]: the case
    is not ready. *)
Definition run_recv (a : AsyncRegistry S) : option (AsyncRegistry S) :=
  if a_done a then None else
  match a_queue a with
  | rec :: q =>
      let a := set_batch a q (a_batch a ++ [rec]) in
      Some (if a_batchMax a <=? zlen (a_batch a) then flush a else a)
  | [] => if a_closed a then Some (set_done (flush a)) else None
  end.

(** The ticker case. *)
Definition run_tick (a : AsyncRegistry S) : option (AsyncRegistry S) :=
  if a_done a then None else Some (flush a).

(** [Close]: the first call closes the channel. *)
Definition async_Close (a : AsyncRegistry S) : AsyncRegistry S :=
  {| a_inner := a_inner a; a_queue := a_queue a; a_cap := a_cap a; a_closed := true;
     a_batchMax := a_batchMax a; a_batch := a_batch a; a_done := a_done a;
     a_enqueued := a_enqueued a; a_dropped := a_dropped a; a_written := a_written a;
     a_failed := a_failed a |}.

(** ** Interleavings

    A label names the caller's operation; [APut rec q] tells whether the record
    was queued or dropped. *)
Inductive alabel :=
| APut (rec : Record_) (queued : bool)
| APutMany (recs : list Record_)
| AWorker
| AClose.

Inductive astep : AsyncRegistry S -> alabel -> AsyncRegistry S -> Prop :=
| astep_put a rec a' :
    async_Put a rec = Ok a' -> astep a (APut rec (zlen (a_queue a) <? a_cap a)) a'
| astep_put_many a recs a' ok : async_PutMany a recs = (a', ok) -> astep a (APutMany recs) a'
| astep_recv a a' : run_recv a = Some a' -> astep a AWorker a'
| astep_tick a a' : run_tick a = Some a' -> astep a AWorker a'
| astep_close a : astep a AClose (async_Close a).

Lemma astep_put_eq a rec q a' :
  async_Put a rec = Ok a' -> (zlen (a_queue a) <? a_cap a) = q -> astep a (APut rec q) a'.
Proof. intros ? <-. by apply astep_put. Qed.

Inductive arun : AsyncRegistry S -> list alabel -> AsyncRegistry S -> Prop :=
| arun_nil a : arun a [] a
| arun_snoc a tr a1 l a2 : arun a tr a1 -> astep a1 l a2 -> arun a (tr ++ [l]) a2.

Definition accepted1 (l : alabel) : list Record_ := match l with APut rec true => [rec] | _ => [] end.
Definition dropped1 (l : alabel) : list Record_ := match l with APut rec false => [rec] | _ => [] end.
Definition accepted (tr : list alabel) : list Record_ := flat_map accepted1 tr.
Definition dropped (tr : list alabel) : list Record_ := flat_map dropped1 tr.
End async.

(** The worker after [Close]: it receives until it returns. *)
Fixpoint drain {S} `{BatchSink S} (fuel : nat) (a : AsyncRegistry S) : option (AsyncRegistry S) :=
  match fuel with
  | O => None
  | Datatypes.S fuel =>
      match run_recv a with
      | None => None
      | Some a' => if a_done a' then Some a' else drain fuel a'
      end
  end.

(** * Laws *)
Lemma flat_map_snoc {A B} (f : A -> list B) l x : flat_map f (l ++ [x]) = flat_map f l ++ f x.
Proof. rewrite flat_map_app. simpl. by rewrite app_nil_r. Qed.

(** A sink that records the batches it is given. *)
#[export] Instance logged_sink {S} `{BatchSink S} : BatchSink (S * list (list Record_)) :=
  fun '(s, log) recs => let '(s, ok) := sink_PutMany s recs in ((s, log ++ [recs]), ok).

Section fifo.
Context {S : Type} `{BatchSink S}.
Implicit Types a : AsyncRegistry (S * list (list Record_)).

Definition sent a : list (list Record_) := snd (a_inner a).

(** What the worker has sent, holds in its batch, and has not received yet. *)
Definition fifo_inv (acc : list Record_) a : Prop :=
  concat (sent a) ++ a_batch a ++ a_queue a = acc /\
  Forall (fun b => 1 <= zlen b <= a_batchMax a) (sent a) /\
  1 <= a_batchMax a /\ zlen (a_batch a) < a_batchMax a /\
  (a_done a = true -> a_closed a = true /\ a_batch a = [] /\ a_queue a = []).

Lemma flush_sent a :
  sent (flush a) = sent a ++ (if a_batch a is [] then [] else [a_batch a]) /\
  a_batch (flush a) = [] /\ a_queue (flush a) = a_queue a /\ a_batchMax (flush a) = a_batchMax a /\
  a_closed (flush a) = a_closed a /\ a_done (flush a) = a_done a.
Proof.
  unfold flush, sent. destruct (a_batch a) eqn:E; [by rewrite app_nil_r|].
  destruct (a_inner a) as [s log]. unfold sink_PutMany, logged_sink.
  by destruct (sink_PutMany s _).
Qed.

Lemma concat_flush a :
  concat (sent (flush a)) ++ a_batch (flush a) = concat (sent a) ++ a_batch a.
Proof.
  destruct (flush_sent a) as (-> & -> & _). rewrite concat_app, app_nil_r.
  f_equal. destruct (a_batch a); [done|]. simpl. by rewrite app_nil_r.
Qed.

Lemma fifo_flush acc a :
  concat (sent a) ++ a_batch a ++ a_queue a = acc ->
  Forall (fun b => 1 <= zlen b <= a_batchMax a) (sent a) ->
  1 <= a_batchMax a -> zlen (a_batch a) <= a_batchMax a ->
  a_done a = false -> fifo_inv acc (flush a).
Proof.
  intros E F B L D. pose proof (concat_flush a) as C.
  destruct (flush_sent a) as (Sd & Bt & Q & M & Cl & Dn). split_and!.
  - by rewrite app_assoc, C, <-app_assoc, Q.
  - rewrite Sd, M, Forall_app. split; [done|].
    destruct (a_batch a) eqn:Eb; constructor; [|done]. simpl in *. lia.
  - by rewrite M.
  - rewrite Bt, M. simpl. lia.
  - rewrite Dn, D. done.
Qed.

Lemma fifo_recv acc a a' : fifo_inv acc a -> run_recv a = Some a' -> fifo_inv acc a'.
Proof.
  intros (E & F & B & L & D) R. unfold run_recv in R.
  destruct (a_done a) eqn:Ed; [done|]. destruct (a_queue a) as [|rec q] eqn:Eq.
  - destruct (a_closed a) eqn:Ec; [|done]. injection R as <-.
    assert (fifo_inv acc (flush a)) as (E' & F' & B' & L' & _)
      by (apply fifo_flush; [by rewrite Eq|done|done|lia|done]).
    destruct (flush_sent a) as (Sd & Bt & Q & M & Cl & Dn).
    split_and!; try done. simpl. by rewrite Cl, Bt, Q.
  - injection R as <-. cbn [set_batch a_batchMax a_batch].
    assert (concat (sent a) ++ (a_batch a ++ [rec]) ++ q = acc) as E' by (by rewrite <-app_assoc).
    destruct (Z.leb_spec (a_batchMax a) (zlen (a_batch a ++ [rec]))) as [Hf|Hf].
    + apply fifo_flush; try done. simpl. rewrite length_app in *. simpl in *. lia.
    + split_and!; try done. simpl. by rewrite Ed.
Qed.

Lemma fifo_step acc a l a' :
  fifo_inv acc a -> astep a l a' -> (if l is APutMany _ then False else True) ->
  fifo_inv (acc ++ accepted1 l) a'.
Proof.
  intros I Hs Hl. destruct Hs as [a rec a' Hp|a recs a' ok Hp|a a' Hr|a a' Ht|a];
    try done; simpl; rewrite ?app_nil_r; eauto using fifo_recv.
  - unfold async_Put in Hp. destruct I as (E & F & B & L & D).
    destruct (bool_decide _ || _); [done|]. destruct (a_closed a) eqn:Ec; [done|].
    assert (a_done a = false) as Dn by (destruct (a_done a); [by destruct D|done]).
    destruct (zlen (a_queue a) <? a_cap a); simplify_eq; split_and!; simpl; try done;
      rewrite ?app_nil_r; try done; [by rewrite !app_assoc|by rewrite Dn..].
  - unfold run_tick in Ht. destruct (a_done a) eqn:Ed; simplify_eq.
    destruct I as (E & F & B & L & D). apply fifo_flush; try done. lia.
  - destruct I as (E & F & B & L & D). split_and!; try done. simpl. intros Dn. by destruct (D Dn).
Qed.
End fifo.

Definition no_direct (l : alabel) : Prop := match l with APutMany _ => False | _ => True end.

Section claims.
Context {S : Type} `{BatchSink S}.

Lemma fifo_run (s0 : S) opt tr a :
  arun (NewAsyncRegistry (s0, []) opt) tr a -> Forall no_direct tr -> fifo_inv (accepted tr) a.
Proof.
  intros R. remember (NewAsyncRegistry (s0, []) opt) as a0 eqn:E0.
  induction R as [a|a tr a1 l a2 R IH Hs]; intros F; subst.
  - split_and!; try done; simpl; case_match; bool_lia; simpl; lia.
  - apply Forall_app in F as [F Fl]. apply Forall_inv in Fl. unfold accepted.
    rewrite flat_map_snoc. eapply fifo_step; [by apply IH|done|by destruct l].
Qed.

(** C24. No loss, no duplicate, no reordering: in every interleaving of callers
    and worker, the records of the batches handed to the wrapped registry,
    followed by the worker's batch and the channel, are the accepted records in
    their order; each batch has between 1 and BatchMax records; and once the
    worker has returned after Close, every accepted record has been handed over. *)
Theorem async_fifo (s0 : S) opt tr a :
  arun (NewAsyncRegistry (s0, []) opt) tr a -> Forall no_direct tr ->
  concat (sent a) ++ a_batch a ++ a_queue a = accepted tr /\
  Forall (fun b => 1 <= zlen b <= a_batchMax a) (sent a) /\
  (a_done a = true -> concat (sent a) = accepted tr).
Proof.
  intros R F. destruct (fifo_run s0 opt tr a R F) as (E & Fs & _ & _ & D).
  split_and!; try done. intros Hd. destruct (D Hd) as (_ & Eb & Eq).
  by rewrite Eb, Eq, !app_nil_r in E.
Qed.

(** ** Counters *)
Lemma count_ex c n : exists k, count c n = c + n + k * 2 ^ 64.
Proof. exists (- ((c + n) / 2 ^ 64)). unfold count, wrap. pose proof (Z.div_mod (c + n) (2 ^ 64)). lia. Qed.

Lemma count_wrap c n m : c = wrap 64 m -> count c n = wrap 64 (m + n).
Proof. intros ->. unfold count, wrap. apply Zplus_mod_idemp_l. Qed.

(** Equality of counters modulo 2^64. *)
Definition balanced (a : AsyncRegistry S) : Prop :=
  exists k, a_written a + a_failed a + zlen (a_batch a) + zlen (a_queue a) = a_enqueued a + k * 2 ^ 64.

Lemma balanced_flush a : balanced a -> balanced (flush a).
Proof.
  unfold flush, balanced. intros [k E]. destruct (a_batch a) as [|b bs] eqn:Eb; [exists k; by rewrite Eb|].
  destruct (sink_PutMany _ _) as [s []]; cbn [a_enqueued a_written a_failed a_batch a_queue].
  - destruct (count_ex (a_written a) (zlen (b :: bs))) as [j ->]. exists (k + j). simpl in *. lia.
  - destruct (count_ex (a_failed a) (zlen (b :: bs))) as [j ->]. exists (k + j). simpl in *. lia.
Qed.

Lemma flush_counts a : a_enqueued (flush a) = a_enqueued a /\ a_dropped (flush a) = a_dropped a.
Proof. unfold flush. destruct (a_batch a); [done|]. by destruct (sink_PutMany _ _). Qed.

(** The counters after the calls [acc] accepted and [dr] dropped. *)
Definition count_inv (acc dr : Z) (a : AsyncRegistry S) : Prop :=
  a_enqueued a = wrap 64 acc /\ a_dropped a = wrap 64 dr /\ balanced a.

Lemma count_flush acc dr a : count_inv acc dr a -> count_inv acc dr (flush a).
Proof.
  intros (E & D & B). unfold count_inv. destruct (flush_counts a) as [-> ->]. split_and!; [done..|by apply balanced_flush].
Qed.

Lemma count_recv acc dr a a' : count_inv acc dr a -> run_recv a = Some a' -> count_inv acc dr a'.
Proof.
  intros I R. unfold run_recv in R. destruct (a_done a); [done|].
  destruct (a_queue a) as [|rec q] eqn:Eq.
  - destruct (a_closed a); [|done]. injection R as <-. by apply (count_flush acc dr) in I.
  - assert (count_inv acc dr (set_batch a q (a_batch a ++ [rec]))) as I'.
    { destruct I as (E & D & [k B]). split_and!; try done. exists k. simpl. rewrite Eq in B.
      rewrite length_app. simpl in *. lia. }
    injection R as <-. case_if; [by apply count_flush|done].
Qed.

Lemma count_step acc dr a l a' :
  count_inv acc dr a -> astep a l a' ->
  count_inv (acc + zlen (accepted1 l)) (dr + zlen (dropped1 l)) a'.
Proof.
  intros I Hs. destruct Hs as [a rec a' Hp|a recs a' ok Hp|a a' Hr|a a' Ht|a];
    simpl; rewrite ?Z.add_0_r; eauto using count_recv.
  - unfold async_Put in Hp. destruct I as (E & D & [k B]).
    destruct (bool_decide _ || _); [done|]. destruct (a_closed a); [done|].
    destruct (zlen (a_queue a) <? a_cap a); simplify_eq; simpl; rewrite Z.add_0_r; split_and!; simpl; try done;
      try (by apply count_wrap); [|by exists k].
    destruct (count_ex (a_enqueued a) 1) as [j Ej]. exists (k - j). simpl. rewrite Ej, length_app. simpl. lia.
  - unfold async_PutMany in Hp. destruct (sink_PutMany _ _). by simplify_eq.
  - unfold run_tick in Ht. destruct (a_done a); simplify_eq. by apply count_flush.
Qed.

(** Counters account for every record: at every point of every
    interleaving, Enqueued and Dropped count the accepted and the dropped
    puts, and Enqueued equals Written + Failed + the records in the worker's
    batch and in the channel (uint64 arithmetic). *)
Theorem async_counters (s0 : S) opt tr a :
  arun (NewAsyncRegistry s0 opt) tr a ->
  a_enqueued a = wrap 64 (zlen (accepted tr)) /\
  a_dropped a = wrap 64 (zlen (dropped tr)) /\
  a_enqueued a = wrap 64 (a_written a + a_failed a + zlen (a_batch a) + zlen (a_queue a)).
Proof.
  intros R. assert (count_inv (zlen (accepted tr)) (zlen (dropped tr)) a) as (E & D & [k B]).
  { remember (NewAsyncRegistry s0 opt) as a0 eqn:E0.
    induction R as [a|a tr a1 l a2 R IH Hs]; subst.
    - split_and!; try done. by exists 0.
    - unfold accepted, dropped. rewrite !flat_map_snoc, !length_app, !Nat2Z.inj_add.
      eapply count_step; [by apply IH|done]. }
  split_and!; try done. rewrite B, E. unfold wrap. by rewrite Z_mod_plus_full, Z.mod_mod by lia.
Qed.

(** ** Shutdown *)
Lemma run_recv_closed (a : AsyncRegistry S) :
  a_closed a = true -> a_done a = false ->
  exists a', run_recv a = Some a' /\ a_closed a' = true /\
    match a_queue a with
    | [] => a_done a' = true /\ a_batch a' = [] /\ a_queue a' = []
    | _ :: q => a_done a' = false /\ a_queue a' = q
    end.
Proof.
  intros C D. unfold run_recv. rewrite D, C.
  assert (forall a : AsyncRegistry S, a_closed (flush a) = a_closed a /\ a_done (flush a) = a_done a /\
    a_batch (flush a) = [] /\ a_queue (flush a) = a_queue a) as Hf.
  { intros b. unfold flush. destruct (a_batch b) eqn:E; [done|]. by destruct (sink_PutMany _ _). }
  destruct (a_queue a) as [|rec q] eqn:Eq; eexists; (split; [done|]).
  - destruct (Hf a) as (A1 & A2 & A3 & A4). simpl. rewrite A1, A3, A4, C, Eq. done.
  - case_if; [|done]. destruct (Hf (set_batch a q (a_batch a ++ [rec]))) as (-> & -> & _ & ->). done.
Qed.

(** Close terminates: after Close, the worker returns after receiving the
    records still queued and the close notification, with batch and channel
    empty, whatever errors the wrapped registry reports. *)
Theorem async_close_drains (a : AsyncRegistry S) :
  a_done a = false ->
  exists a', drain (length (a_queue a) + 1) (async_Close a) = Some a' /\
    a_done a' = true /\ a_batch a' = [] /\ a_queue a' = [].
Proof.
  intros D. change (a_queue a) with (a_queue (async_Close a)).
  assert (a_closed (async_Close a) = true) as C by done.
  assert (a_done (async_Close a) = false) as D' by done. revert C D'.
  generalize (async_Close a). clear a D. intros a C D.
  remember (a_queue a) as q eqn:Eq. revert a C D Eq. induction q as [|rec q IH]; intros a C D Eq;
    destruct (run_recv_closed a C D) as (a' & R & C' & P); rewrite <-Eq in P; simpl; rewrite R.
  - destruct P as (Hd & ? & ?). rewrite Hd. by exists a'.
  - destruct P as [Hd Q]. rewrite Hd. by apply IH.
Qed.

(** Put after Close is not safe: a valid record put on a closed registry
    panics the caller (send on closed channel), it is neither dropped nor
    reported as an error. *)
Theorem async_put_after_close (a : AsyncRegistry S) rec :
  invalid_record rec = false -> async_Put (async_Close a) rec = Panic.
Proof.
  unfold invalid_record, async_Put. intros E. apply orb_false_iff in E as [-> ->]. done.
Qed.
End claims.

Definition ex_async : AsyncRegistry (MemoryRegistry * list (list Record_)) :=
  NewAsyncRegistry (NewMemoryRegistry 0, []) (mkAsyncOpt 2 2).
Definition ex_arec (id : string) : Record_ :=
  mkRecord id "USD/KRW" (mkProfile "WEB" "HQ" "VIP") "SPOT" f1 f1 0 10 1 "A" 0 0 "" "" f0 f0 f0.

Definition put_ok (a : AsyncRegistry (MemoryRegistry * list (list Record_))) (rec : Record_) :=
  match async_Put a rec with Ok a' => a' | _ => a end.
Definition ex_a1 := Eval vm_compute in put_ok ex_async (ex_arec "1").
Definition ex_a2 := Eval vm_compute in put_ok ex_a1 (ex_arec "2").
Definition ex_a3 := Eval vm_compute in put_ok ex_a2 (ex_arec "3").
Definition ex_a4 := Eval vm_compute in default ex_a3 (run_recv ex_a3).

Lemma ex_run1 : arun ex_async [APut (ex_arec "1") true] ex_a1.
Proof. apply (arun_snoc _ [] ex_async); [apply arun_nil|by apply astep_put_eq]. Qed.

Lemma ex_run4 :
  arun ex_async [APut (ex_arec "1") true; APut (ex_arec "2") true; APut (ex_arec "3") false; AWorker] ex_a4.
Proof.
  apply (arun_snoc _ [_; _; _] ex_a3); [|by apply astep_recv].
  apply (arun_snoc _ [_; _] ex_a2); [|by apply astep_put_eq].
  apply (arun_snoc _ [_] ex_a1); [apply ex_run1|by apply astep_put_eq].
Qed.

Lemma async_fifo_witness :
  arun ex_async [APut (ex_arec "1") true; APut (ex_arec "2") true; APut (ex_arec "3") false; AWorker] ex_a4 /\
  concat (sent ex_a4) ++ a_batch ex_a4 ++ a_queue ex_a4 = [ex_arec "1"; ex_arec "2"].
Proof.
  split; [exact ex_run4|]. refine (proj1 (async_fifo (NewMemoryRegistry 0) (mkAsyncOpt 2 2) _ _ ex_run4 _)). repeat constructor.
Defined.

Lemma async_counters_witness :
  arun ex_async [APut (ex_arec "1") true] ex_a1 /\
  a_enqueued ex_a1 = wrap 64 (zlen (accepted [APut (ex_arec "1") true])).
Proof. split; [exact ex_run1|]. exact (proj1 (async_counters (NewMemoryRegistry 0, []) (mkAsyncOpt 2 2) _ _ ex_run1)). Defined.

Lemma async_close_drains_witness :
  exists a', drain 1 (async_Close ex_async) = Some a' /\ a_done a' = true /\ a_batch a' = [] /\ a_queue a' = [].
Proof. exact (async_close_drains ex_async eq_refl). Defined.

Lemma async_put_after_close_witness : async_Put (async_Close ex_async) (ex_arec "1") = Panic.
Proof. apply async_put_after_close. reflexivity. Defined.
