(* ===== verification/Dates.v ===== *)
(** Calendar dates and the business-day calendar: Go's [time.Time] as far as the
    pricing code uses it (civil date, weekday, hour and minute of an instant in
    a zone), src/pkg/pricing/calendar.go and the day arithmetic of
    src/pkg/pricing/valuedate.go. *)

From Stdlib Require Import ZArith Lia.
From S2P Require Import Prelude.
Local Open Scope Z_scope.

(** * Instants and civil dates

    An instant is nanoseconds since the Unix epoch with the zone offset in
    seconds that applies to it; a day number counts civil days from 1970-01-01. *)
Record Time := mkTime { t_ns : Z; t_off : Z }.

Definition ns_per_sec : Z := 1000000000.
Definition ns_per_day : Z := 86400 * ns_per_sec.

Definition local_sec (t : Time) : Z := t_ns t / ns_per_sec + t_off t.
Definition day_of (t : Time) : Z := local_sec t / 86400.
Definition Hour (t : Time) : Z := local_sec t mod 86400 / 3600.
Definition Minute (t : Time) : Z := local_sec t mod 3600 / 60.
(** 0 is Sunday; 1970-01-01 was a Thursday. *)
Definition weekday_of_day (d : Z) : Z := (d + 4) mod 7.
Definition Weekday (t : Time) : Z := weekday_of_day (day_of t).
Definition Equal (t u : Time) : bool := t_ns t =? t_ns u.
Definition Before (t u : Time) : bool := t_ns t <? t_ns u.
(** The zero [time.Time] is 0001-01-01 00:00 UTC. *)
Definition IsZero (t : Time) : bool := t_ns t =? - (62135596800 * ns_per_sec).

(** Proleptic Gregorian calendar; years start in March inside the algorithm. *)
Definition civil_of_era_day (doe : Z) : Z * Z * Z :=
  let yoe := (doe - doe / 1460 + doe / 36524 - doe / 146096) / 365 in
  let doy := doe - (365 * yoe + yoe / 4 - yoe / 100) in
  let mp := (5 * doy + 2) / 153 in
  let d := doy - (153 * mp + 2) / 5 + 1 in
  let m := if mp <? 10 then mp + 3 else mp - 9 in
  (if m <=? 2 then yoe + 1 else yoe, m, d).
Definition Date (day : Z) : Z * Z * Z :=
  let z := day + 719468 in
  let '(y, m, d) := civil_of_era_day (z mod 146097) in (y + 400 * (z / 146097), m, d).

Definition era_day_of_civil (y m d : Z) : Z :=
  let y := if m <=? 2 then y - 1 else y in
  let yoe := y mod 400 in
  let doy := (153 * (if 2 <? m then m - 3 else m + 9) + 2) / 5 + d - 1 in
  yoe * 365 + yoe / 4 - yoe / 100 + doy.
Definition day_of_civil (y m d : Z) : Z :=
  146097 * ((if m <=? 2 then y - 1 else y) / 400) + era_day_of_civil y m d - 719468.

Example date_epoch : Date 0 = (1970, 1, 1). Proof. reflexivity. Qed.
Example date_leap : Date (day_of_civil 2024 2 29) = (2024, 2, 29). Proof. reflexivity. Qed.
Example weekday_2026_06_15 : weekday_of_day (day_of_civil 2026 6 15) = 1. Proof. reflexivity. Qed.

Definition year_of_era (doe : Z) : Z := (doe - doe / 1460 + doe / 36524 - doe / 146096) / 365.

Lemma year_of_era_bounds doe :
  0 <= doe < 146097 ->
  let yoe := year_of_era doe in
  0 <= yoe < 400 /\ 0 <= doe - (365 * yoe + yoe / 4 - yoe / 100) <= 366.
Proof. unfold year_of_era. intros H. Z.to_euclidean_division_equations. lia. Qed.

(** One era of 400 years. *)
Lemma era_roundtrip doe :
  0 <= doe < 146097 ->
  let '(y, m, d) := civil_of_era_day doe in
  era_day_of_civil y m d = doe /\ (if m <=? 2 then y - 1 else y) / 400 = 0.
Proof.
  intros H. pose proof (year_of_era_bounds doe H) as [Hy Hd]. unfold civil_of_era_day.
  fold (year_of_era doe). set (yoe := year_of_era doe) in *. cbv zeta.
  set (doy := doe - _) in *. set (mp := (5 * doy + 2) / 153).
  assert (0 <= mp <= 11) as Hmp by (unfold mp; Z.to_euclidean_division_equations; lia).
  unfold era_day_of_civil. destruct (Z.ltb_spec mp 10) as [L|L].
  - rewrite !(proj2 (Z.leb_gt (mp + 3) 2)) by lia. rewrite (proj2 (Z.ltb_lt 2 (mp + 3))) by lia.
    replace (mp + 3 - 3) with mp by lia. rewrite (Z.mod_small yoe) by lia.
    split; [unfold doy|apply Z.div_small]; lia.
  - rewrite !(proj2 (Z.leb_le (mp - 9) 2)) by lia. rewrite (proj2 (Z.ltb_ge 2 (mp - 9))) by lia.
    replace (mp - 9 + 9) with mp by lia. replace (yoe + 1 - 1) with yoe by lia.
    rewrite (Z.mod_small yoe) by lia. split; [unfold doy|apply Z.div_small]; lia.
Qed.

Lemma day_of_civil_Date day : let '(y, m, d) := Date day in day_of_civil y m d = day.
Proof.
  unfold Date. set (z := day + 719468). pose proof (Z.mod_pos_bound z 146097 ltac:(lia)) as Hm.
  pose proof (era_roundtrip (z mod 146097) Hm) as R.
  destruct (civil_of_era_day (z mod 146097)) as [[y m] d]. destruct R as [R1 R2].
  unfold day_of_civil.
  assert (era_day_of_civil (y + 400 * (z / 146097)) m d = era_day_of_civil y m d) as ->.
  { unfold era_day_of_civil. destruct (m <=? 2).
    - replace (y + 400 * (z / 146097) - 1) with (y - 1 + z / 146097 * 400) by lia. by rewrite Z_mod_plus_full.
    - rewrite (Z.mul_comm 400), Z_mod_plus_full. done. }
  assert ((if m <=? 2 then y + 400 * (z / 146097) - 1 else y + 400 * (z / 146097)) / 400 = z / 146097) as ->.
  { destruct (m <=? 2).
    - replace (y + 400 * (z / 146097) - 1) with (y - 1 + z / 146097 * 400) by lia.
      rewrite Z_div_plus_full by lia. lia.
    - rewrite (Z.mul_comm 400), Z_div_plus_full by lia. lia. }
  rewrite R1. pose proof (Z.div_mod z 146097). unfold z in *. lia.
Qed.

Lemma Date_inj d d' : Date d = Date d' -> d = d'.
Proof.
  intros E. pose proof (day_of_civil_Date d) as A. pose proof (day_of_civil_Date d') as B.
  rewrite E in A. destruct (Date d') as [[y m] x]. congruence.
Qed.

(** * Calendars *)

(** The [Calendar] interface: is the civil day a business day. *)
Class Calendar (C : Type) := IsBusinessDay : C -> Z -> bool.

Inductive WeekendCalendar := weekendCalendar.
#[export] Instance Weekend_IsBusinessDay : Calendar WeekendCalendar := fun _ d =>
  let wd := weekday_of_day d in negb (wd =? 6) && negb (wd =? 0).

(** [holidayKey]: year, month and day (Go keeps them as "YYYY-MM-DD" text). *)
Definition holidayKey (d : Z) : Z * Z * Z := Date d.

Record HolidayCalendar := mkHoliday { holidays : gset (Z * Z * Z) }.

Definition NewHolidayCalendar (days : list Z) : HolidayCalendar :=
  mkHoliday (list_to_set (map holidayKey days)).

#[export] Instance Holiday_IsBusinessDay : Calendar HolidayCalendar := fun c d =>
  let wd := weekday_of_day d in
  if (wd =? 6) || (wd =? 0) then false
  else if decide (holidayKey d ∈ holidays c) then false else true.

(** A value of the interface type; a nil one stands for [WeekendCalendar{}]. *)
Inductive AnyCalendar := NilCal | HolidayCal (c : HolidayCalendar).
#[export] Instance Any_IsBusinessDay : Calendar AnyCalendar := fun c d =>
  match c with NilCal => IsBusinessDay weekendCalendar d | HolidayCal h => IsBusinessDay h d end.

(** * Business days (valuedate.go) *)
Section days.
Context {C : Type} `{Calendar C} (cal : C).

(** The inner loop of AddBusinessDaysCal: advance at least one day, to the next
    business day in direction [step]; [None] is running out of fuel. *)
Fixpoint next_business (fuel : nat) (step cur : Z) : option Z :=
  match fuel with
  | O => None
  | S fuel =>
      let cur := cur + step in
      if IsBusinessDay cal cur then Some cur else next_business fuel step cur
  end.

Fixpoint add_loop (fuel : nat) (n : nat) (step cur : Z) : option Z :=
  match n with
  | O => Some cur
  | S n => cur ← next_business fuel step cur; add_loop fuel n step cur
  end.

(** On day numbers; [fuel] bounds each search for the next business day. *)
Definition AddBusinessDaysCal (fuel : nat) (d n : Z) : option Z :=
  if n =? 0 then Some d
  else if n <? 0 then add_loop fuel (Z.to_nat (- n)) (-1) d
  else add_loop fuel (Z.to_nat n) 1 d.

(** [for cur.Before(to) { cur = cur.AddDate(0,0,1); if business { n++ } }], for
    [k] days from [cur]. *)
Fixpoint count_loop (k : nat) (cur n : Z) : Z :=
  match k with
  | O => n
  | S k => let cur := cur + 1 in count_loop k cur (if IsBusinessDay cal cur then n + 1 else n)
  end.

Definition BusinessDaysBetweenCal (from to : Time) : Z :=
  if Equal from to then 0
  else
    let '(from, to, sign) := if Before to from then (to, from, -1) else (from, to, 1) in
    let f := day_of from in
    let t := day_of to in
    count_loop (Z.to_nat (t - f)) f 0 * sign.

(** [startOfDay] is UTC midnight of the civil day; the result is that day. *)
Definition SpotDateCal (fuel : nat) (now : Time) (spotDays : Z) : option Z :=
  AddBusinessDaysCal fuel (day_of now) (if spotDays <? 0 then 0 else spotDays).
End days.

Definition startOfDay (t : Time) : Time := mkTime (day_of t * ns_per_day) 0.
Definition utc_midnight (d : Z) : Time := mkTime (d * ns_per_day) 0.

(** * Laws of the day arithmetic *)
Section laws.
Context {C : Type} `{Calendar C} (cal : C).

(** Business days among [d + 1 .. d + k]. *)
Definition business_in (d : Z) (k : nat) : Z := count_loop cal k d 0.

Lemma count_loop_acc k d n : count_loop cal k d n = n + business_in d k.
Proof.
  unfold business_in. revert d n. induction k as [|k IH]; intros d n; simpl; [lia|].
  rewrite (IH _ (if IsBusinessDay cal (d + 1) then n + 1 else n)).
  rewrite (IH _ (if IsBusinessDay cal (d + 1) then 1 else 0)). case_if; lia.
Qed.

Lemma business_in_S d k :
  business_in d (S k) = (if IsBusinessDay cal (d + 1) then 1 else 0) + business_in (d + 1) k.
Proof. unfold business_in at 1. simpl. by rewrite count_loop_acc. Qed.

Lemma business_in_app d j k : business_in d (j + k) = business_in d j + business_in (d + Z.of_nat j) k.
Proof.
  revert d. induction j as [|j IH]; intros d; simpl Nat.add.
  - rewrite Z.add_0_r. done.
  - rewrite !business_in_S, IH. replace (d + 1 + Z.of_nat j) with (d + Z.of_nat (S j)) by lia. lia.
Qed.

Lemma next_business_spec fuel d d' :
  next_business cal fuel 1 d = Some d' ->
  d < d' /\ IsBusinessDay cal d' = true /\ business_in d (Z.to_nat (d' - d)) = 1.
Proof.
  revert d. induction fuel as [|fuel IH]; intros d E; [done|]. simpl in E.
  destruct (IsBusinessDay cal (d + 1)) eqn:B.
  - injection E as <-. split; [lia|]. split; [done|].
    replace (d + 1 - d) with 1 by lia. unfold business_in. simpl. by rewrite B.
  - destruct (IH _ E) as (L & B' & N). split; [lia|]. split; [done|].
    replace (Z.to_nat (d' - d)) with (S (Z.to_nat (d' - (d + 1)))) by lia.
    unfold business_in. simpl. rewrite B. exact N.
Qed.

Lemma add_loop_spec fuel n d d' :
  add_loop cal fuel n 1 d = Some d' -> d <= d' /\ business_in d (Z.to_nat (d' - d)) = Z.of_nat n.
Proof.
  revert d. induction n as [|n IH]; intros d E; simpl in E.
  - injection E as <-. split; [lia|]. by rewrite Z.sub_diag.
  - destruct (next_business cal fuel 1 d) as [d1|] eqn:E1; [|done]. simpl in E.
    destruct (next_business_spec _ _ _ E1) as (L1 & _ & N1). destruct (IH _ E) as [L2 N2].
    split; [lia|]. replace (Z.to_nat (d' - d)) with (Z.to_nat (d1 - d) + Z.to_nat (d' - d1))%nat by lia.
    rewrite business_in_app, N1. replace (d + Z.of_nat (Z.to_nat (d1 - d))) with d1 by lia. lia.
Qed.

Lemma day_of_midnight d : day_of (utc_midnight d) = d.
Proof.
  unfold day_of, local_sec, utc_midnight, ns_per_day, ns_per_sec. simpl.
  rewrite Z.mul_assoc, Z.div_mul, Z.add_0_r, Z.div_mul; lia.
Qed.

Lemma between_midnights a b :
  BusinessDaysBetweenCal cal (utc_midnight a) (utc_midnight b) =
  business_in a (Z.to_nat (b - a)) - business_in b (Z.to_nat (a - b)).
Proof.
  unfold BusinessDaysBetweenCal, Equal, Before. cbn [utc_midnight t_ns].
  assert (0 < ns_per_day) as P by done.
  destruct (Z.eqb_spec (a * ns_per_day) (b * ns_per_day)) as [E|E].
  - assert (a = b) as -> by nia. rewrite Z.sub_diag. unfold business_in. simpl. lia.
  - destruct (Z.ltb_spec (b * ns_per_day) (a * ns_per_day)) as [L|L];
      rewrite !day_of_midnight, count_loop_acc.
    + replace (Z.to_nat (b - a)) with 0%nat by nia. unfold business_in at 2. simpl. lia.
    + replace (Z.to_nat (a - b)) with 0%nat by nia. unfold business_in at 3. simpl. lia.
Qed.

(** Prefix counts: the signed count from day [base]. *)
Lemma between_prefix base a b :
  base <= a -> base <= b ->
  BusinessDaysBetweenCal cal (utc_midnight a) (utc_midnight b) =
  business_in base (Z.to_nat (b - base)) - business_in base (Z.to_nat (a - base)).
Proof.
  intros Ha Hb. rewrite between_midnights. destruct (Z.le_ge_cases a b) as [L|L].
  - replace (Z.to_nat (b - base)) with (Z.to_nat (a - base) + Z.to_nat (b - a))%nat by lia.
    rewrite business_in_app. replace (base + Z.of_nat (Z.to_nat (a - base))) with a by lia.
    replace (Z.to_nat (a - b)) with 0%nat by lia. unfold business_in at 2. simpl. lia.
  - replace (Z.to_nat (a - base)) with (Z.to_nat (b - base) + Z.to_nat (a - b))%nat by lia.
    rewrite business_in_app. replace (base + Z.of_nat (Z.to_nat (b - base))) with b by lia.
    replace (Z.to_nat (b - a)) with 0%nat by lia. unfold business_in at 1. simpl. lia.
Qed.
End laws.

(** ** Termination of the search for a business day *)

(** A weekday (a Wednesday) in each window of seven days, in both directions. *)
Lemma wednesday step d :
  step = 1 \/ step = -1 -> exists j, 1 <= j <= 7 /\ weekday_of_day (d + step * j) = 3.
Proof.
  unfold weekday_of_day. intros [-> | ->].
  - exists ((6 - (d + 4)) mod 7 + (if (6 - (d + 4)) mod 7 <=? 3 then 4 else -3)).
    destruct (Z.leb_spec ((6 - (d + 4)) mod 7) 3); Z.to_euclidean_division_equations; lia.
  - exists (((d + 4) - 4) mod 7 + 1). Z.to_euclidean_division_equations; lia.
Qed.

Lemma next_business_none {C} `{Calendar C} (cal : C) fuel step d :
  next_business cal fuel step d = None ->
  forall i, 1 <= i <= Z.of_nat fuel -> IsBusinessDay cal (d + step * i) = false.
Proof.
  revert d. induction fuel as [|fuel IH]; intros d E i Hi; [lia|]. simpl in E.
  destruct (IsBusinessDay cal (d + step)) eqn:B; [done|].
  destruct (Z.eq_dec i 1) as [->|]; [by rewrite Z.mul_1_r|].
  replace (d + step * i) with (d + step + step * (i - 1)) by lia. apply IH; [done|lia].
Qed.

Definition search_fuel (c : HolidayCalendar) : nat := 7 * (size (holidays c) + 1).

(** Wednesdays, one per week, that would all have to be holidays. *)
Definition wednesdays (step d j : Z) (n : nat) : list Z :=
  map (fun k => d + step * (j + 7 * Z.of_nat k)) (seq 0 n).

Lemma wednesdays_NoDup step d j n : step = 1 \/ step = -1 -> NoDup (map holidayKey (wednesdays step d j n)).
Proof.
  intros Hs. unfold wednesdays. rewrite map_map. apply NoDup_fmap_2; [|apply NoDup_seq].
  intros a b E. apply Date_inj in E. destruct Hs as [-> | ->]; lia.
Qed.

(** The search for the next business day ends: with a calendar of [h]
    holidays it finds one within 7 * (h + 1) days in either direction, so
    AddBusinessDaysCal returns for every start day and every offset. *)
Theorem AddBusinessDaysCal_total (c : HolidayCalendar) d n :
  exists d', AddBusinessDaysCal c (search_fuel c) d n = Some d'.
Proof.
  assert (forall step d, step = 1 \/ step = -1 -> exists d', next_business c (search_fuel c) step d = Some d') as N.
  { clear. intros step d Hs. destruct (next_business c (search_fuel c) step d) as [d'|] eqn:E; [eauto|].
    exfalso. pose proof (next_business_none c _ _ _ E) as B. destruct (wednesday step d Hs) as (j & Hj & W).
    set (l := map holidayKey (wednesdays step d j (size (holidays c) + 1))).
    assert (list_to_set l ⊆ holidays c) as Sub.
    { intros k Hk. apply elem_of_list_to_set, list_elem_of_In, in_map_iff in Hk as (x & <- & Hx).
      apply in_map_iff in Hx as (i & <- & Hi%in_seq).
      specialize (B (j + 7 * Z.of_nat i) ltac:(unfold search_fuel; lia)).
      unfold IsBusinessDay, Holiday_IsBusinessDay in B.
      assert (weekday_of_day (d + step * (j + 7 * Z.of_nat i)) = 3) as W'.
      { rewrite <-W. unfold weekday_of_day. destruct Hs as [-> | ->]; Z.to_euclidean_division_equations; lia. }
      rewrite W' in B. simpl in B. by destruct (decide _). }
    apply subseteq_size in Sub. rewrite size_list_to_set in Sub by by apply wednesdays_NoDup.
    unfold l, wednesdays in Sub. rewrite !length_map, length_seq in Sub. lia. }
  assert (forall step k d, step = 1 \/ step = -1 -> exists d', add_loop c (search_fuel c) k step d = Some d') as A.
  { clear -N. intros step k d Hs. revert d. induction k as [|k IH]; intros d; simpl; [eauto|].
    destruct (N step d Hs) as [d1 ->]. apply IH. }
  unfold AddBusinessDaysCal. repeat case_if; eauto.
Qed.

(** Adding and counting business days agree: the day that AddBusinessDaysCal
    reaches [n >= 0] business days after [d] is exactly [n] business days after
    [d] for BusinessDaysBetweenCal, for every calendar. *)
Theorem business_days_roundtrip {C} `{Calendar C} (cal : C) fuel d n d' :
  0 <= n -> AddBusinessDaysCal cal fuel d n = Some d' ->
  BusinessDaysBetweenCal cal (utc_midnight d) (utc_midnight d') = n.
Proof.
  intros Hn E. unfold AddBusinessDaysCal in E. rewrite between_midnights.
  assert (d <= d' /\ business_in cal d (Z.to_nat (d' - d)) = n) as [L N].
  { destruct (Z.eqb_spec n 0) as [->|]; [injection E as <-; rewrite Z.sub_diag; split; [lia|done]|].
    rewrite (proj2 (Z.ltb_ge n 0)) in E by lia. destruct (add_loop_spec cal _ _ _ _ E). split; [done|lia]. }
  rewrite N. replace (Z.to_nat (d - d')) with 0%nat by lia. unfold business_in. simpl. lia.
Qed.

Lemma business_days_roundtrip_witness :
  let c := NewHolidayCalendar [day_of_civil 2026 6 3] in
  let d := day_of_civil 2026 5 29 in
  AddBusinessDaysCal c (search_fuel c) d 3 = Some (day_of_civil 2026 6 4) /\
  BusinessDaysBetweenCal c (utc_midnight d) (utc_midnight (day_of_civil 2026 6 4)) = 3.
Proof.
  split; [vm_compute; reflexivity|].
  apply (business_days_roundtrip (NewHolidayCalendar [day_of_civil 2026 6 3])
    (search_fuel (NewHolidayCalendar [day_of_civil 2026 6 3])) (day_of_civil 2026 5 29) 3);
    [lia | vm_compute; reflexivity].
Defined.

(** The signed business-day count is additive, in every order of the three
    days and for every calendar; in particular it changes sign with its
    arguments and is 0 between a day and itself. *)
Theorem business_days_additive {C} `{Calendar C} (cal : C) a b c :
  BusinessDaysBetweenCal cal (utc_midnight a) (utc_midnight c) =
  BusinessDaysBetweenCal cal (utc_midnight a) (utc_midnight b) +
  BusinessDaysBetweenCal cal (utc_midnight b) (utc_midnight c).
Proof.
  set (base := Z.min a (Z.min b c)).
  rewrite (between_prefix cal base a c), (between_prefix cal base a b), (between_prefix cal base b c) by lia.
  lia.
Qed.
