(* ===== verification/GoTime.v ===== *)
(** [time.Parse] for the two layouts the services use, "2006-01-02" and
    [time.RFC3339]: fixed-width fields read from the left, ranges tested, the
    day tested against the month, nothing may follow. As in Go, the hour may
    have one digit, a fraction of a second may follow the seconds after a point
    or a comma, and a zone offset may be as large as 24:60. *)

From Stdlib Require Import ZArith Lia Ascii.
From S2P Require Import Prelude GoStrings Strconv Dates.
Local Open Scope Z_scope.

Definition isDigit (c : ascii) : bool := if undigit c is Some _ then true else false.

(** One or two digits; two when [fixed]. *)
Definition getnum (s : string) (fixed : bool) : option (Z * string) :=
  match s with
  | "" => None
  | String a s =>
      x ← undigit a;
      match s with
      | String b s' =>
          match undigit b with
          | Some y => Some (10 * x + y, s')
          | None => if fixed then None else Some (x, s)
          end
      | "" => if fixed then None else Some (x, "")
      end
  end.

Definition skip (c : ascii) (s : string) : option string :=
  match s with
  | String d s => if Ascii.eqb d c then Some s else None
  | "" => None
  end.

Definition range (lo hi : Z) (x : Z) : option unit := if (lo <=? x) && (x <=? hi) then Some () else None.

Definition isLeap (y : Z) : bool := (y mod 4 =? 0) && (negb (y mod 100 =? 0) || (y mod 400 =? 0)).
Definition daysIn (m y : Z) : Z :=
  if m =? 2 then if isLeap y then 29 else 28
  else if bool_decide (m ∈ [4; 6; 9; 11]) then 30 else 31.

(** "2006-01-02"; the day is tested at the end of the whole parse. *)
Definition parse_ymd (s : string) : option (Z * Z * Z * string) :=
  if (String.length s <? 4)%nat then None
  else
    y ← parse_nat (str_take 4 s);
    s ← skip "-" (str_drop 4 s);
    '(m, s) ← getnum s true;
    _ ← range 1 12 m;
    s ← skip "-" s;
    '(d, s) ← getnum s true;
    Some (y, m, d, s).

Definition parse_date (s : string) : option Time :=
  '(y, m, d, rest) ← parse_ymd s;
  _ ← range 1 (daysIn m y) d;
  if decide (rest = "") then Some (mkTime (day_of_civil y m d * ns_per_day) 0) else None.

Fixpoint span_digits (s : string) : string * string :=
  match s with
  | String c s' => if isDigit c then let '(a, b) := span_digits s' in (String c a, b) else ("", s)
  | "" => ("", "")
  end.

(** Digits after the ninth are dropped. *)
Definition parseNanoseconds (digits : string) : option Z :=
  let k := Nat.min 9 (String.length digits) in
  n ← parse_nat (str_take k digits); Some (n * 10 ^ (9 - Z.of_nat k)).

Definition parse_fraction (s : string) : option (Z * string) :=
  match s with
  | String c (String d rest) =>
      if (Ascii.eqb c "." || Ascii.eqb c ",") && isDigit d then
        let '(ds, rest) := span_digits (String d rest) in
        n ← parseNanoseconds ds; Some (n, rest)
      else Some (0, s)
  | _ => Some (0, s)
  end.

(** "Z07:00": the offset in seconds. *)
Definition parse_zone (s : string) : option (Z * string) :=
  match s with
  | String "Z" rest => Some (0, rest)
  | String sign rest =>
      if (String.length s <? 6)%nat then None
      else
        '(hr, rest) ← getnum rest true;
        rest ← skip ":" rest;
        '(mm, rest) ← getnum rest true;
        _ ← range 0 24 hr;
        _ ← range 0 60 mm;
        let off := (hr * 60 + mm) * 60 in
        if Ascii.eqb sign "+" then Some (off, rest)
        else if Ascii.eqb sign "-" then Some (- off, rest) else None
  | "" => None
  end.

Definition parse_RFC3339 (s : string) : option Time :=
  '(y, m, d, s) ← parse_ymd s;
  s ← skip "T" s;
  '(hh, s) ← getnum s false; _ ← range 0 23 hh;
  s ← skip ":" s;
  '(mi, s) ← getnum s true; _ ← range 0 59 mi;
  s ← skip ":" s;
  '(ss, s) ← getnum s true; _ ← range 0 59 ss;
  '(ns, s) ← parse_fraction s;
  '(off, s) ← parse_zone s;
  if decide (s = "") then
    _ ← range 1 (daysIn m y) d;
    Some (mkTime ((day_of_civil y m d * 86400 + hh * 3600 + mi * 60 + ss - off) * ns_per_sec + ns) off)
  else None.

Example parse_date_ex : parse_date "2026-02-29" = None /\
  parse_date "2024-02-29" = Some (mkTime (19782 * ns_per_day) 0) /\ parse_date "2024-2-29" = None.
Proof. vm_compute. done. Qed.

Example parse_RFC3339_ex :
  parse_RFC3339 "1970-01-02T3:00:01.25+01:00" = Some (mkTime ((86400 + 7201) * ns_per_sec + 250000000) 3600) /\
  parse_RFC3339 "1970-01-01T00:00:00Z " = None /\ parse_RFC3339 "1970-01-01T24:00:00Z" = None.
Proof. vm_compute. done. Qed.
