(* ===== verification/Pricing.v ===== *)
(** The pricing table and the margin engine: src/pkg/pricing/types.go, table.go,
    engine.go and the swap interpolation of valuedate.go.

    Go ranges over a map in an unspecified order: the functions that do so take
    the order as an argument ([worder] for the time windows, [sorder] for the
    swap points), a permutation of the map's entries. The time-zone database is
    the parameter [LoadLocation]: the offset in seconds of a zone at an instant,
    [None] for an unknown zone. *)

From Stdlib Require Import ZArith Lia.
From Stdlib Require Import Strings.Ascii.
From S2P Require Import Prelude Sorting GoStrings Float64 Session Dates.
Local Open Scope Z_scope.
Local Open Scope wtg_scope.

(** ** Strings *)

(** ** Data *)
Record Quote := mkQuote {
  q_Pair : string; q_Bid : f64; q_Ask : f64; q_TS : Time; q_BidSize : f64; q_AskSize : f64 }.

Record Margin := mkMargin { BidAmount : f64; AskAmount : f64; SkewAmount : f64; SpreadAmount : f64 }.
Definition zero_margin : Margin := mkMargin f0 f0 f0 f0.

Record CustomerQuote := mkCQ {
  c_Pair : string; c_Profile : Profile; c_Tenor : string; c_Bid : f64; c_Ask : f64; c_TS : Time;
  c_RawBid : f64; c_RawAsk : f64; c_BidSize : f64; c_AskSize : f64; c_TableVersion : Z }.

Record CustomerRule := mkRule {
  cu_CustomerID : string; cu_Pair : string; cu_BidDelta : f64; cu_AskDelta : f64;
  cu_SkewDelta : f64; cu_SpreadDelta : f64; cu_Mode : string; cu_Priority : Z; cu_Window : string }.

Record TimeWindowRule := mkWindow {
  w_Name : string; w_StartMin : Z; w_EndMin : Z; w_TZ : string; w_DaysMask : Z; w_ComplementOf : string }.

(** Keys: (pair, tenor), (pair, tier, window), (pair, channel, site, window). *)
Definition SwapKey : Type := string * string.
Definition HQKey : Type := string * string * string.
Definition SiteKey : Type := string * string * string * string.

Record PricingTable := mkTable {
  Version : Z;
  SwapPoint : gmap (string * string) Margin;
  HQMargin : gmap (string * string * string) Margin;
  SiteMargin : gmap (string * string * string * string) Margin;
  CustomerMargin : list CustomerRule;
  TimeWindows : gmap string TimeWindowRule;
  Cal : AnyCalendar }.

(** The active snapshot: an atomic pointer that is read and replaced as a whole. *)
Record Store := mkStore { s_p : PricingTable }.
Definition NewStore : Store := mkStore (mkTable 0 ∅ ∅ ∅ [] ∅ NilCal).
Definition Store_Replace (s : Store) (t : PricingTable) : Store := mkStore t.
Definition Store_Load (s : Store) : PricingTable := s_p s.

(** ** Lookups *)
Definition lookupSwap (t : PricingTable) (pair tenor : string) : Margin :=
  default zero_margin (SwapPoint t !! (pair, tenor)).

(** [for _, w := range activeWindows { if m, ok := table[key(w)]; ok { return m } }] *)
Fixpoint first_window {K} `{Countable K} (tbl : gmap K Margin) (key : string -> K) (ws : list string)
    : option Margin :=
  match ws with
  | [] => None
  | w :: ws => match tbl !! key w with Some m => Some m | None => first_window tbl key ws end
  end.

Definition lookupHQ (t : PricingTable) (pair tier : string) (activeWindows : list string) : Margin :=
  match first_window (HQMargin t) (fun w => (pair, tier, w)) activeWindows with
  | Some m => m
  | None =>
  match HQMargin t !! (pair, tier, "") with
  | Some m => m
  | None =>
  match first_window (HQMargin t) (fun w => (pair, "", w)) activeWindows with
  | Some m => m
  | None => default zero_margin (HQMargin t !! (pair, "", ""))
  end end end.

Fixpoint site_chain (t : PricingTable) (pair : string) (activeWindows : list string)
    (chain : list (string * string)) : Margin :=
  match chain with
  | [] => zero_margin
  | (c, s) :: chain =>
      match first_window (SiteMargin t) (fun w => (pair, c, s, w)) activeWindows with
      | Some m => m
      | None =>
          match SiteMargin t !! (pair, c, s, "") with
          | Some m => m
          | None => site_chain t pair activeWindows chain
          end
      end
  end.
Definition lookupSite (t : PricingTable) (pair channel site : string) (activeWindows : list string) : Margin :=
  site_chain t pair activeWindows [(channel, site); ("", site); (channel, "")].

(** ** Swap interpolation (valuedate.go) *)
Definition DefaultTenorDays (tenor : string) : option Z :=
  if decide (tenor = "TOD") then Some (-2) else
  if decide (tenor = "TOM") then Some (-1) else
  if decide (tenor = "SPOT") then Some 0 else
  if decide (tenor = "1W") then Some 7 else
  if decide (tenor = "2W") then Some 14 else
  if decide (tenor = "1M") then Some 30 else
  if decide (tenor = "2M") then Some 61 else
  if decide (tenor = "3M") then Some 91 else
  if decide (tenor = "6M") then Some 183 else
  if decide (tenor = "9M") then Some 274 else
  if decide (tenor = "1Y") then Some 365 else None.

Inductive SwapErr := ErrOutOfRange | ErrNoSwap.

Record item := mkItem { i_tenor : string; i_days : Z; i_m : Margin }.

Record SwapInterpolation := mkInterp {
  in_Margin : Margin; in_From : string; in_To : string; in_FromDays : Z; in_ToDays : Z;
  in_OffsetDays : Z; in_Weight : f64; in_Exact : bool }.

(** The items of [pair], in the order [sorder] of the range over SwapStore. *)
Fixpoint swap_items (pair : string) (sorder : list (string * string * Margin)) : list item :=
  match sorder with
  | [] => []
  | ((p, tenor), m) :: rest =>
      if decide (p = pair) then
        match DefaultTenorDays tenor with
        | Some days => mkItem tenor days m :: swap_items pair rest
        | None => swap_items pair rest
        end
      else swap_items pair rest
  end.

Definition sort_items (l : list item) : list item :=
  insertion_sort (fun prev cur => i_days cur <? i_days prev) l.

(** The scan for the neighbours: last item below, first item above. *)
Fixpoint neighbours (offset : Z) (prev : option item) (l : list item) : option item * option item :=
  match l with
  | [] => (prev, None)
  | it :: l =>
      let prev := if i_days it <? offset then Some it else prev in
      if offset <? i_days it then (prev, Some it) else neighbours offset prev l
  end.

Definition lerp (p n w : f64) : f64 := p +f (n -f p) *f w.

Definition InterpolateSwap (sorder : list (string * string * Margin)) (pair : string) (offsetDays : Z)
    : res SwapErr SwapInterpolation :=
  let items := swap_items pair sorder in
  if (length items =? 0)%nat then Err ErrNoSwap else
  let items := sort_items items in
  match List.find (fun it => i_days it =? offsetDays) items with
  | Some it =>
      Ok (mkInterp (i_m it) (i_tenor it) (i_tenor it) (i_days it) (i_days it) offsetDays f0 true)
  | None =>
      match neighbours offsetDays None items with
      | (Some prev, Some next) =>
          let w := f_of_Z (offsetDays - i_days prev) /f f_of_Z (i_days next - i_days prev) in
          Ok (mkInterp
            (mkMargin (lerp (BidAmount (i_m prev)) (BidAmount (i_m next)) w)
                      (lerp (AskAmount (i_m prev)) (AskAmount (i_m next)) w)
                      (lerp (SkewAmount (i_m prev)) (SkewAmount (i_m next)) w)
                      (lerp (SpreadAmount (i_m prev)) (SpreadAmount (i_m next)) w))
            (i_tenor prev) (i_tenor next) (i_days prev) (i_days next) offsetDays w false)
      | _ => Err ErrOutOfRange
      end
  end.

(** ** Time windows *)
Section windows.
Context (LoadLocation : string -> option (Z -> Z)).

Definition InLoc (t : Time) (loc : Z -> Z) : Time := mkTime (t_ns t) (loc (t_ns t)).
Definition utc : Z -> Z := fun _ => 0.

Definition location (tz : string) : Z -> Z :=
  if decide (tz = "") then utc else default utc (LoadLocation tz).

(** The part of IsActive below the complement case. *)
Definition clock_active (w : TimeWindowRule) (now : Time) : bool :=
  let t := InLoc now (location (w_TZ w)) in
  if negb (w_DaysMask w =? 0) && negb (w_DaysMask w =? 255) &&
     (Z.land (w_DaysMask w) (Z.shiftl 1 (Weekday t)) =? 0) then false
  else if (w_StartMin w <? 0) || (w_EndMin w <=? w_StartMin w) then true
  else
    let mn := Hour t * 60 + Minute t in
    (w_StartMin w <=? mn) && (mn <? w_EndMin w).

(** [None]: the recursion has not ended within [fuel] calls. *)
Fixpoint IsActive (fuel : nat) (w : TimeWindowRule) (now : Time) (all : gmap string TimeWindowRule) : option bool :=
  match fuel with
  | O => None
  | S fuel =>
      if decide (w_ComplementOf w = "") then Some (clock_active w now)
      else match all !! ToLower (w_ComplementOf w) with
           | Some other => negb <$> IsActive fuel other now all
           | None => Some false
           end
  end.

(** Every chain of complements visits a window at most once, or does not end. *)
Definition window_fuel (all : gmap string TimeWindowRule) : nat := S (size all).

Fixpoint active_names (fuel : nat) (now : Time) (all : gmap string TimeWindowRule)
    (worder : list (string * TimeWindowRule)) : option (list string) :=
  match worder with
  | [] => Some []
  | (name, w) :: ws =>
      b ← IsActive fuel w now all;
      out ← active_names fuel now all ws;
      Some (if b : bool then name :: out else out)
  end.

Definition ActiveWindows (t : PricingTable) (worder : list (string * TimeWindowRule)) (now : Time)
    : option (list string) :=
  active_names (window_fuel (TimeWindows t)) now (TimeWindows t) worder.

(** ** Customer rules *)
Definition rule_matches (customerID pair : string) (activeWindows : list string) (r : CustomerRule) : bool :=
  bool_decide (cu_CustomerID r = customerID) &&
  (bool_decide (cu_Pair r = "") || bool_decide (cu_Pair r = pair)) &&
  (bool_decide (cu_Window r = "") || bool_decide (cu_Window r ∈ activeWindows)).

Definition matchCustomerRule (t : PricingTable) (customerID pair : string) (activeWindows : list string)
    : option CustomerRule :=
  if decide (customerID = "") then None
  else List.find (rule_matches customerID pair activeWindows) (CustomerMargin t).

(** ** Engine *)

(** Sums of the margins: (bid, ask, skew, spread). *)
Definition total_margin (t : PricingTable) (swap : Margin) (rule : option CustomerRule) (pair : string)
    (profile : Profile) (activeWindows : list string) : Margin :=
  match rule with
  | Some r =>
      if decide (cu_Mode r = "override") then
        mkMargin (BidAmount swap +f cu_BidDelta r) (AskAmount swap +f cu_AskDelta r)
                 (SkewAmount swap +f cu_SkewDelta r) (SpreadAmount swap +f cu_SpreadDelta r)
      else
        let hq := lookupHQ t pair (p_Tier profile) activeWindows in
        let site := lookupSite t pair (p_Channel profile) (p_Site profile) activeWindows in
        mkMargin (BidAmount swap +f BidAmount hq +f BidAmount site +f cu_BidDelta r)
                 (AskAmount swap +f AskAmount hq +f AskAmount site +f cu_AskDelta r)
                 (SkewAmount swap +f SkewAmount hq +f SkewAmount site +f cu_SkewDelta r)
                 (SpreadAmount swap +f SpreadAmount hq +f SpreadAmount site +f cu_SpreadDelta r)
  | None =>
      let hq := lookupHQ t pair (p_Tier profile) activeWindows in
      let site := lookupSite t pair (p_Channel profile) (p_Site profile) activeWindows in
      mkMargin (BidAmount swap +f BidAmount hq +f BidAmount site)
               (AskAmount swap +f AskAmount hq +f AskAmount site)
               (SkewAmount swap +f SkewAmount hq +f SkewAmount site)
               (SpreadAmount swap +f SpreadAmount hq +f SpreadAmount site)
  end.

Definition customer_quote (t : PricingTable) (raw : Quote) (profile : Profile) (tenor : string)
    (total : Margin) : CustomerQuote :=
  let spreadHalf := SpreadAmount total /f f2 in
  {| c_Pair := q_Pair raw; c_Profile := profile; c_Tenor := tenor;
     c_Bid := q_Bid raw +f SkewAmount total -f BidAmount total -f spreadHalf;
     c_Ask := q_Ask raw +f SkewAmount total +f AskAmount total +f spreadHalf;
     c_TS := q_TS raw; c_RawBid := q_Bid raw; c_RawAsk := q_Ask raw;
     c_BidSize := q_BidSize raw; c_AskSize := q_AskSize raw; c_TableVersion := Version t |}.

(** [wall] is the reading of [time.Now()], used when [now] is the zero time. *)
Definition ApplyForCustomer (t : PricingTable) (worder : list (string * TimeWindowRule)) (raw : Quote)
    (profile : Profile) (tenor : string) (now wall : Time) (customerID : string) : option CustomerQuote :=
  let now := if IsZero now then wall else now in
  activeWindows ← ActiveWindows t worder now;
  let swap := lookupSwap t (q_Pair raw) tenor in
  let rule := matchCustomerRule t customerID (q_Pair raw) activeWindows in
  Some (customer_quote t raw profile tenor
          (total_margin t swap rule (q_Pair raw) profile activeWindows)).

Definition ApplyAt (t : PricingTable) (worder : list (string * TimeWindowRule)) (raw : Quote)
    (profile : Profile) (tenor : string) (now wall : Time) : option CustomerQuote :=
  ApplyForCustomer t worder raw profile tenor now wall "".

Definition Apply (t : PricingTable) (worder : list (string * TimeWindowRule)) (raw : Quote)
    (profile : Profile) (tenor : string) (wall : Time) : option CustomerQuote :=
  ApplyAt t worder raw profile tenor wall wall.

Inductive ApplyErr := ApplySwapErr (offsetDays : Z) (e : SwapErr).

(** [None]: a window's complement chain does not end, or (with too little
    [fuel]) no business day was found. *)
Definition ApplyForValueDate (t : PricingTable) (worder : list (string * TimeWindowRule))
    (sorder : list (string * string * Margin)) (fuel : nat) (raw : Quote) (profile : Profile)
    (valueDate now wall : Time) (spotDays : Z) (customerID : string)
    : option (res ApplyErr (CustomerQuote * SwapInterpolation)) :=
  let now := if IsZero now then wall else now in
  spotDate ← SpotDateCal (Cal t) fuel now spotDays;
  let offsetDays := BusinessDaysBetweenCal (Cal t) (utc_midnight spotDate) valueDate in
  match InterpolateSwap sorder (q_Pair raw) offsetDays with
  | Err e => Some (Err (ApplySwapErr offsetDays e))
  | Panic => Some Panic
  | Ok interp =>
      activeWindows ← ActiveWindows t worder now;
      let rule := matchCustomerRule t customerID (q_Pair raw) activeWindows in
      let tenor := if in_Exact interp then in_From interp else "" in
      Some (Ok (customer_quote t raw profile tenor
                  (total_margin t (in_Margin interp) rule (q_Pair raw) profile activeWindows), interp))
  end.
End windows.
