(* ===== verification/PricingLaws.v ===== *)
(** Theorems about the pricing table and engine: prices never better than the
    raw quote, termination of the window recursion, independence of the map
    iteration order and where it fails. *)

From Stdlib Require Import ZArith Lia QArith Lqa.
From S2P Require Import Prelude Sorting GoStrings Float64 Session Dates Pricing.
Local Open Scope Z_scope.
Local Open Scope wtg_scope.

(** * Margins that only widen the spread *)
Definition nonneg (x : f64) : Prop := fleb f0 x = true.

Definition widening (m : Margin) : Prop :=
  nonneg (BidAmount m) /\ nonneg (AskAmount m) /\ nonneg (SpreadAmount m) /\ SkewAmount m = f0.

Lemma fadd_nonneg x y : nonneg x -> nonneg y -> nonneg (x +f y).
Proof.
  unfold nonneg. destruct x as [|[]|s m], y as [|[]|s' m']; try done. intros Hx Hy.
  apply Qle_bool_iff in Hx, Hy. apply fround_nonneg. simpl in Hx, Hy. lra.
Qed.

Lemma fhalf_nonneg x : nonneg x -> nonneg (x /f f2).
Proof. intros H. destruct x as [|[]|s m]; try done. by apply fdiv_nonneg. Qed.

Lemma widening_zero : widening zero_margin.
Proof. by vm_compute. Qed.

Lemma f0_plus_f0 : f0 +f f0 = f0.
Proof. vm_compute. reflexivity. Qed.

(** Values at most a finite one: a further subtraction is never NaN. *)
Lemma fsub_below x y b : finite b -> fleb x b = true -> nonneg y -> fsub x y <> NaN.
Proof.
  unfold nonneg, fsub. destruct x as [|[]|s m], y as [|[]|s' m'], b as [|[]|]; try done.
  intros. apply fround_not_nan.
Qed.
Lemma fadd_above x y b : finite b -> fleb b x = true -> nonneg y -> fadd x y <> NaN.
Proof.
  unfold nonneg. destruct x as [|[]|s m], y as [|[]|s' m'], b as [|[]|]; try done.
  intros. apply fround_not_nan.
Qed.

Lemma total_widening t swap pair profile ws :
  (forall k m, HQMargin t !! k = Some m -> widening m) ->
  (forall k m, SiteMargin t !! k = Some m -> widening m) ->
  widening swap -> widening (total_margin t swap None pair profile ws).
Proof.
  intros Hh Hs (S1 & S2 & S3 & S4).
  assert (forall K `{Countable K} (tbl : gmap K Margin) key l m,
    (forall k m, tbl !! k = Some m -> widening m) -> first_window tbl key l = Some m -> widening m) as Fw.
  { intros K ? ? tbl key l m H. induction l as [|w l IH]; simpl; [done|].
    destruct (tbl !! key w) eqn:E; [|done]. intros [= <-]. eauto. }
  assert (widening (lookupHQ t pair (p_Tier profile) ws)) as (H1 & H2 & H3 & H4).
  { unfold lookupHQ, default. repeat case_match; eauto using widening_zero. }
  assert (forall chain, widening (site_chain t pair ws chain)) as Hc.
  { induction chain as [|[c s] chain IH]; simpl; [apply widening_zero|]. repeat case_match; eauto. }
  assert (widening (lookupSite t pair (p_Channel profile) (p_Site profile) ws)) as (T1 & T2 & T3 & T4) by apply Hc.
  unfold total_margin, widening. cbn [BidAmount AskAmount SkewAmount SpreadAmount].
  rewrite S4, H4, T4, !f0_plus_f0. auto 8 using fadd_nonneg.
Qed.

(** Rounded bid and ask of widening totals. *)
Lemma widening_bid raw total :
  is_f64 raw -> finite raw -> widening total ->
  (raw +f SkewAmount total -f BidAmount total -f SpreadAmount total /f f2 <=f raw) = true.
Proof.
  intros Hf Fin (B & _ & S & ->). apply fhalf_nonneg in S.
  assert (raw <> NaN) as Nn by (by destruct raw).
  pose proof (fadd_0_eq raw Hf Nn) as E0. apply andb_true_iff in E0 as [L0 _].
  pose proof (fsub_below _ _ raw Fin L0 B) as N1.
  pose proof (fsub_le (raw +f f0) _ ltac:(auto with wtg) B N1) as L1.
  pose proof (fleb_trans _ _ _ L1 L0) as L2.
  pose proof (fsub_below _ _ raw Fin L2 S) as N2.
  pose proof (fsub_le (raw +f f0 -f BidAmount total) _ ltac:(unfold fsub; auto with wtg) S N2) as L3.
  exact (fleb_trans _ _ _ L3 L2).
Qed.

Lemma widening_ask raw total :
  is_f64 raw -> finite raw -> widening total ->
  (raw <=f raw +f SkewAmount total +f AskAmount total +f SpreadAmount total /f f2) = true.
Proof.
  intros Hf Fin (_ & A & S & ->). apply fhalf_nonneg in S.
  assert (raw <> NaN) as Nn by (by destruct raw).
  pose proof (fadd_0_eq raw Hf Nn) as E0. apply andb_true_iff in E0 as [_ L0].
  pose proof (fadd_above _ _ raw Fin L0 A) as N1.
  pose proof (fadd_ge (raw +f f0) _ ltac:(auto with wtg) A N1) as L1.
  pose proof (fleb_trans _ _ _ L0 L1) as L2.
  pose proof (fadd_above _ _ raw Fin L2 S) as N2.
  pose proof (fadd_ge (raw +f f0 +f AskAmount total) _ ltac:(auto with wtg) S N2) as L3.
  exact (fleb_trans _ _ _ L2 L3).
Qed.

(** C6. No price improvement: with head-office, branch and swap margins that are
    non-negative and unskewed, and no customer rule, the customer's bid is never
    above the raw bid and the ask never below the raw ask in float64 arithmetic
    (rounding included), so a quote that is not crossed stays so. *)
Theorem customer_never_better LoadLocation t worder raw profile tenor now wall cq :
  ApplyForCustomer LoadLocation t worder raw profile tenor now wall "" = Some cq ->
  (forall k m, HQMargin t !! k = Some m -> widening m) ->
  (forall k m, SiteMargin t !! k = Some m -> widening m) ->
  widening (lookupSwap t (q_Pair raw) tenor) ->
  is_f64 (q_Bid raw) -> is_f64 (q_Ask raw) -> finite (q_Bid raw) -> finite (q_Ask raw) ->
  (c_Bid cq <=f q_Bid raw) = true /\ (q_Ask raw <=f c_Ask cq) = true /\
  ((q_Bid raw <=f q_Ask raw) = true -> (c_Bid cq <=f c_Ask cq) = true).
Proof.
  intros E Hh Hs Hw Fb Fa Nb Na. unfold ApplyForCustomer in E.
  destruct (ActiveWindows _ _ _ _) as [ws|]; [|done]. simpl in E. injection E as <-.
  pose proof (total_widening t _ (q_Pair raw) profile ws Hh Hs Hw) as W.
  pose proof (widening_bid _ _ Fb Nb W) as B. pose proof (widening_ask _ _ Fa Na W) as A.
  split; [exact B|]. split; [exact A|]. intros L.
  exact (fleb_trans _ _ _ B (fleb_trans _ _ _ L A)).
Qed.

Definition ex_tz : string -> option (Z -> Z) :=
  fun tz => if decide (tz = "Asia/Seoul") then Some (fun _ => 32400) else None.

Definition ex_table : PricingTable :=
  mkTable 7 ∅ {[ ("USD/KRW", "VIP", "") := mkMargin (lit (2 # 100)) (lit (3 # 100)) f0 (lit (1 # 10)) ]}
    {[ ("USD/KRW", "", "HQ", "") := mkMargin (lit (1 # 100)) (lit (1 # 100)) f0 f0 ]} [] ∅ NilCal.
Definition ex_raw : Quote :=
  mkQuote "USD/KRW" (lit (138025 # 100)) (lit (138045 # 100)) (mkTime 0 0) f1 f1.
Definition ex_profile : Profile := mkProfile "WEB" "HQ" "VIP".
Definition ex_cq : CustomerQuote := Eval vm_compute in
  default (customer_quote ex_table ex_raw ex_profile "SPOT" zero_margin)
    (ApplyForCustomer ex_tz ex_table [] ex_raw ex_profile "SPOT" (mkTime 0 0) (mkTime 0 0) "").

Lemma customer_never_better_witness :
  ApplyForCustomer ex_tz ex_table [] ex_raw ex_profile "SPOT" (mkTime 0 0) (mkTime 0 0) "" = Some ex_cq /\
  (c_Bid ex_cq <=f q_Bid ex_raw) = true.
Proof.
  assert (ApplyForCustomer ex_tz ex_table [] ex_raw ex_profile "SPOT" (mkTime 0 0) (mkTime 0 0) "" = Some ex_cq)
    as E by (vm_compute; reflexivity).
  split; [exact E|].
  refine (proj1 (customer_never_better ex_tz ex_table [] ex_raw ex_profile "SPOT" (mkTime 0 0) (mkTime 0 0)
    ex_cq E _ _ _ _ _ _ _)).
  - intros k m Hm. unfold ex_table in Hm. simpl in Hm. apply lookup_singleton_Some in Hm as [_ <-].
    repeat split; vm_compute; reflexivity.
  - intros k m Hm. unfold ex_table in Hm. simpl in Hm. apply lookup_singleton_Some in Hm as [_ <-].
    repeat split; vm_compute; reflexivity.
  - repeat split; vm_compute; reflexivity.
  - apply fround_is_f64.
  - apply fround_is_f64.
  - exact I.
  - exact I.
Defined.

(** * The window recursion *)
Lemma not_NoDup_repeat {A} `{EqDecision A} (l : list A) :
  ~ NoDup l -> exists i j k, (i < j)%nat /\ l !! i = Some k /\ l !! j = Some k.
Proof.
  induction l as [|x l IH]; intros H; [by destruct H; constructor|].
  destruct (decide (x ∈ l)) as [Hx|Hx].
  - apply list_elem_of_lookup in Hx as [j Hj]. exists 0%nat, (S j), x. split; [lia|done].
  - destruct IH as (i & j & k & L & Hi & Hj); [intros ?; apply H; by constructor|].
    exists (S i), (S j), k. split; [lia|done].
Qed.

Section windows.
Context (LoadLocation : string -> option (Z -> Z)) (now : Time) (all : gmap string TimeWindowRule).

(** The window whose activity a call of IsActive asks for next. *)
Definition complement (w : TimeWindowRule) : option TimeWindowRule :=
  if decide (w_ComplementOf w = "") then None else all !! ToLower (w_ComplementOf w).

Fixpoint chain (n : nat) (w : TimeWindowRule) : option TimeWindowRule :=
  match n with O => Some w | S n => w' ← complement w; chain n w' end.

(** The call runs out of fuel exactly when the chain of complements is as long. *)
Lemma IsActive_None fuel w : IsActive LoadLocation fuel w now all = None <-> is_Some (chain fuel w).
Proof.
  revert w. induction fuel as [|fuel IH]; intros w; simpl; [by split; eauto|].
  unfold complement. destruct (decide _); [split; [done|by intros [? ?]]|].
  destruct (all !! _) as [w'|]; simpl; [|split; [done|by intros [? ?]]].
  rewrite <-IH. destruct (IsActive _ fuel w' now all); simpl; split; done.
Qed.

Lemma IsActive_S fuel w :
  IsActive LoadLocation (S fuel) w now all =
  if decide (w_ComplementOf w = "") then Some (clock_active LoadLocation w now)
  else match all !! ToLower (w_ComplementOf w) with
       | Some other => negb <$> IsActive LoadLocation fuel other now all
       | None => Some false
       end.
Proof. done. Qed.

Lemma IsActive_mono fuel w b :
  IsActive LoadLocation fuel w now all = Some b -> IsActive LoadLocation (S fuel) w now all = Some b.
Proof.
  revert w b. induction fuel as [|fuel IH]; intros w b E; [done|].
  rewrite IsActive_S in E |- *. destruct (decide _); [done|]. destruct (all !! _) as [w'|]; [|done].
  destruct (IsActive LoadLocation fuel w' now all) as [b'|] eqn:E'; [|done]. by rewrite (IH _ _ E').
Qed.

Lemma chain_app n m w : chain (n + m) w = (w' ← chain n w; chain m w').
Proof.
  revert w. induction n as [|n IH]; intros w; simpl; [done|].
  destruct (complement w); simpl; [apply IH|done].
Qed.

Lemma chain_prefix n m w : (m <= n)%nat -> is_Some (chain n w) -> is_Some (chain m w).
Proof.
  intros L [x E]. replace n with (m + (n - m))%nat in E by lia. rewrite chain_app in E.
  destruct (chain m w); [eauto|done].
Qed.

(** The names visited after the first window. *)
Fixpoint names (n : nat) (w : TimeWindowRule) : list string :=
  match n with
  | O => []
  | S n => match complement w with
           | Some w' => ToLower (w_ComplementOf w) :: names n w'
           | None => []
           end
  end.

Lemma names_lookup n w i k :
  names n w !! i = Some k -> exists w', chain (S i) w = Some w' /\ all !! k = Some w'.
Proof.
  revert w i. induction n as [|n IH]; intros w i E; [done|]. simpl in E.
  destruct (complement w) as [w'|] eqn:C; [|done]. destruct i as [|i].
  - injection E as <-. exists w'. cbn [chain]. rewrite C. split; [done|].
    unfold complement in C. by destruct (decide _).
  - destruct (IH w' i E) as (x & Hx & Hk). exists x. cbn [chain] in *. rewrite C. done.
Qed.

Lemma names_length n w : is_Some (chain n w) -> length (names n w) = n.
Proof.
  revert w. induction n as [|n IH]; intros w [x E]; [done|]. simpl in *.
  destruct (complement w); [|done]. simpl. f_equal. eauto.
Qed.

(** A window met twice on the chain makes it infinite. *)
Lemma chain_cycle w i p x :
  (0 < p)%nat -> chain i w = Some x -> chain p x = Some x -> forall n, is_Some (chain n w).
Proof.
  intros Hp Hi Hc n. assert (forall k, chain (k * p) x = Some x) as Hk.
  { induction k as [|k IH]; [done|]. simpl. by rewrite chain_app, Hc. }
  apply (chain_prefix (i + n * p)); [nia|]. rewrite chain_app, Hi. simpl. rewrite Hk. eauto.
Qed.

Lemma long_chain_infinite w : is_Some (chain (window_fuel all) w) -> forall n, is_Some (chain n w).
Proof.
  intros H. set (l := names (window_fuel all) w).
  assert (length l = S (size all)) as Hl by (by apply names_length).
  assert (~ NoDup l) as Hd.
  { intros Hd. assert (list_to_set l ⊆ dom all) as Sub.
    { intros k Hk%elem_of_list_to_set. apply list_elem_of_lookup in Hk as [i Hi].
      destruct (names_lookup _ _ _ _ Hi) as (x & _ & Hx). by apply elem_of_dom_2 in Hx. }
    apply subseteq_size in Sub. rewrite size_list_to_set, size_dom in Sub by done. lia. }
  assert (exists i j k, (i < j)%nat /\ l !! i = Some k /\ l !! j = Some k) as (i & j & k & L & Hi & Hj).
  { by apply not_NoDup_repeat. }
  destruct (names_lookup _ _ _ _ Hi) as (x & Hx & Kx). destruct (names_lookup _ _ _ _ Hj) as (y & Hy & Ky).
  assert (x = y) as <- by congruence. apply (chain_cycle w (S i) (j - i) x); [lia|done|].
  replace (S j) with (S i + (j - i))%nat in Hy by lia. rewrite chain_app, Hx in Hy. done.
Qed.
End windows.

(** The recursion through ComplementOf ends if and only if it ends within
    one call per registered window: window_fuel calls are enough whenever the
    real (unbounded) recursion returns, with the same answer. *)
Theorem IsActive_fuel_enough LoadLocation fuel w now all b :
  IsActive LoadLocation fuel w now all = Some b ->
  IsActive LoadLocation (window_fuel all) w now all = Some b.
Proof.
  intros E. destruct (IsActive LoadLocation (window_fuel all) w now all) as [b'|] eqn:E'.
  - assert (forall k n c, IsActive LoadLocation n w now all = Some c ->
      IsActive LoadLocation (k + n) w now all = Some c) as M.
    { induction k as [|k IH]; intros n c H; [done|]. by apply IsActive_mono, IH. }
    apply (M (window_fuel all)) in E. apply (M fuel) in E'.
    rewrite Nat.add_comm in E'. congruence.
  - exfalso. apply IsActive_None in E'. apply long_chain_infinite with (n := fuel) in E'.
    apply (IsActive_None LoadLocation now) in E'. congruence.
Qed.

Definition ex_windows : gmap string TimeWindowRule :=
  {[ "regular" := mkWindow "regular" 540 930 "Asia/Seoul" 62 "";
     "off" := mkWindow "off" (-1) (-1) "" 255 "Regular" ]}.

Lemma IsActive_fuel_enough_witness :
  let w := mkWindow "off" (-1) (-1) "" 255 "Regular" in
  IsActive ex_tz 2 w (mkTime 0 0) ex_windows = Some false /\
  IsActive ex_tz (window_fuel ex_windows) w (mkTime 0 0) ex_windows = Some false.
Proof.
  split; [vm_compute; reflexivity|]. apply (IsActive_fuel_enough ex_tz 2). vm_compute. reflexivity.
Defined.

(** A window that is the complement of itself makes every pricing call
    diverge (in Go, a fatal stack overflow): IsActive of it never returns, and
    neither do ActiveWindows and ApplyForCustomer for any quote, profile or
    time, with any number of calls allowed. *)
Theorem self_complement_diverges LoadLocation t worder name w now :
  TimeWindows t !! name = Some w -> w_ComplementOf w <> "" -> ToLower (w_ComplementOf w) = name ->
  worder ≡ₚ map_to_list (TimeWindows t) ->
  (forall fuel, IsActive LoadLocation fuel w now (TimeWindows t) = None) /\
  (forall raw profile tenor wall customerID, IsZero now = false ->
     ApplyForCustomer LoadLocation t worder raw profile tenor now wall customerID = None).
Proof.
  intros Hw Hne Hself Hord.
  assert (forall fuel, IsActive LoadLocation fuel w now (TimeWindows t) = None) as D.
  { induction fuel as [|fuel IH]; [done|]. rewrite IsActive_S, decide_False by done.
    by rewrite Hself, Hw, IH. }
  split; [exact D|]. intros raw profile tenor wall customerID Hz. unfold ApplyForCustomer. rewrite Hz.
  assert (ActiveWindows LoadLocation t worder now = None) as ->; [|done]. unfold ActiveWindows.
  assert ((name, w) ∈ worder) as Hin by (rewrite Hord; by apply elem_of_map_to_list).
  clear Hord. induction worder as [|[n v] l IH]; [by apply not_elem_of_nil in Hin|].
  cbn [active_names]. apply elem_of_cons in Hin as [Heq|Hin]; [injection Heq as _ ->; by rewrite D|].
  rewrite IH by done. by destruct (IsActive _ _ v now _).
Qed.

Definition ex_cyclic : PricingTable :=
  mkTable 1 ∅ ∅ ∅ [] {[ "night" := mkWindow "night" (-1) (-1) "" 255 "Night" ]} NilCal.

Lemma self_complement_diverges_witness :
  ApplyForCustomer ex_tz ex_cyclic [("night", mkWindow "night" (-1) (-1) "" 255 "Night")]
    ex_raw ex_profile "SPOT" (mkTime 0 0) (mkTime 0 0) "" = None.
Proof.
  apply (proj2 (self_complement_diverges ex_tz ex_cyclic
    [("night", mkWindow "night" (-1) (-1) "" 255 "Night")] "night"
    (mkWindow "night" (-1) (-1) "" 255 "Night") (mkTime 0 0)
    ltac:(reflexivity) ltac:(discriminate) ltac:(reflexivity) ltac:(vm_compute; reflexivity))).
  reflexivity.
Defined.

(** * The iteration order of the window map *)
Lemma active_names_perm LoadLocation fuel now all l l' :
  l ≡ₚ l' ->
  match active_names LoadLocation fuel now all l, active_names LoadLocation fuel now all l' with
  | Some ws, Some ws' => ws ≡ₚ ws'
  | None, None => True
  | _, _ => False
  end.
Proof.
  induction 1 as [|[n w] l l' P IH|[n w] [n' w'] l|l1 l2 l3 P1 IH1 P2 IH2]; cbn [active_names].
  - done.
  - destruct (IsActive _ _ w now all) as [b|]; simpl; [|done].
    destruct (active_names _ _ _ _ l), (active_names _ _ _ _ l'); simpl; try done.
    destruct b; [by f_equiv|done].
  - destruct (IsActive _ _ w now all) as [b|], (IsActive _ _ w' now all) as [b'|]; simpl; try done.
    destruct (active_names _ _ _ _ l); simpl; [|done]. destruct b, b'; try done. apply perm_swap.
  - destruct (active_names _ _ _ _ l1), (active_names _ _ _ _ l2), (active_names _ _ _ _ l3); try done.
    by rewrite IH1.
Qed.

(** At most one of the windows [ws] has an entry for each key of the table. *)
Definition one_entry {K} `{Countable K} (tbl : gmap K Margin) (key : string -> K) (ws : list string) : Prop :=
  forall w1 w2, w1 ∈ ws -> w2 ∈ ws -> is_Some (tbl !! key w1) -> is_Some (tbl !! key w2) -> w1 = w2.

Lemma first_window_Some {K} `{Countable K} (tbl : gmap K Margin) key ws m :
  first_window tbl key ws = Some m -> exists w, w ∈ ws /\ tbl !! key w = Some m.
Proof.
  induction ws as [|w ws IH]; simpl; [done|]. destruct (tbl !! key w) eqn:E.
  - intros [= <-]. exists w. split; [constructor|done].
  - intros H1. destruct (IH H1) as (v & Hv & Ev). exists v. split; [by constructor|done].
Qed.

Lemma first_window_None {K} `{Countable K} (tbl : gmap K Margin) key ws :
  first_window tbl key ws = None -> forall w, w ∈ ws -> tbl !! key w = None.
Proof.
  induction ws as [|v ws IH]; simpl; intros E w Hw; [by apply not_elem_of_nil in Hw|].
  destruct (tbl !! key v) eqn:Ev; [done|]. apply elem_of_cons in Hw as [->|Hw]; [done|auto].
Qed.

Lemma first_window_perm {K} `{Countable K} (tbl : gmap K Margin) key ws ws' :
  ws ≡ₚ ws' -> one_entry tbl key ws -> first_window tbl key ws = first_window tbl key ws'.
Proof.
  intros P U. destruct (first_window tbl key ws) as [m|] eqn:E, (first_window tbl key ws') as [m'|] eqn:E'.
  - apply first_window_Some in E as (w & Hw & Ew), E' as (w' & Hw' & Ew').
    rewrite <-P in Hw'. assert (w = w') as <- by (apply U; eauto). congruence.
  - apply first_window_Some in E as (w & Hw & Ew). rewrite P in Hw.
    pose proof (first_window_None _ _ _ E' w Hw). congruence.
  - apply first_window_Some in E' as (w & Hw & Ew). rewrite <-P in Hw.
    pose proof (first_window_None _ _ _ E w Hw). congruence.
  - done.
Qed.

(** The windows of a table never compete: for each (pair, tier) and each (pair,
    channel, site), at most one of the active windows has a margin. *)
Definition unambiguous (t : PricingTable) (ws : list string) : Prop :=
  (forall pair tier, one_entry (HQMargin t) (fun w => (pair, tier, w)) ws) /\
  (forall pair c s, one_entry (SiteMargin t) (fun w => (pair, c, s, w)) ws).

Lemma total_margin_perm t swap customerID pair profile ws ws' :
  ws ≡ₚ ws' -> unambiguous t ws ->
  total_margin t swap (matchCustomerRule t customerID pair ws) pair profile ws =
  total_margin t swap (matchCustomerRule t customerID pair ws') pair profile ws'.
Proof.
  intros P [Uh Us].
  assert (matchCustomerRule t customerID pair ws = matchCustomerRule t customerID pair ws') as <-.
  { unfold matchCustomerRule. destruct (decide _); [done|]. induction (CustomerMargin t) as [|r l IH]; [done|].
    simpl. assert (rule_matches customerID pair ws r = rule_matches customerID pair ws' r) as ->.
    { unfold rule_matches. do 2 f_equal. apply bool_decide_ext. by rewrite P. }
    by rewrite IH. }
  assert (forall tier, lookupHQ t pair tier ws = lookupHQ t pair tier ws') as Hq.
  { intros tier. unfold lookupHQ. by rewrite !(first_window_perm _ _ ws ws') by (done || apply Uh). }
  assert (forall ks, site_chain t pair ws ks = site_chain t pair ws' ks) as Hs.
  { induction ks as [|[c s] ks IH]; simpl; [done|].
    by rewrite (first_window_perm _ _ ws ws'), IH by (done || apply Us). }
  unfold total_margin, lookupSite. rewrite !Hq, !Hs. done.
Qed.

(** The customer price does not depend on the order in which Go ranges over
    the window map, as long as no two windows that are active together both have
    a margin for the same key. *)
Theorem price_order_independent LoadLocation t worder worder' raw profile tenor now wall customerID ws :
  worder ≡ₚ worder' ->
  ActiveWindows LoadLocation t worder (if IsZero now then wall else now) = Some ws -> unambiguous t ws ->
  ApplyForCustomer LoadLocation t worder raw profile tenor now wall customerID =
  ApplyForCustomer LoadLocation t worder' raw profile tenor now wall customerID.
Proof.
  intros P E U. unfold ApplyForCustomer. rewrite E. simpl.
  pose proof (active_names_perm LoadLocation (window_fuel (TimeWindows t)) (if IsZero now then wall else now)
    (TimeWindows t) _ _ P) as Pw.
  unfold ActiveWindows in *. rewrite E in Pw. destruct (active_names _ _ _ _ worder') as [ws'|]; [|done].
  simpl. by rewrite (total_margin_perm t _ customerID (q_Pair raw) profile ws ws').
Qed.

(** Two windows, both active all day. *)
Definition w_day : TimeWindowRule := mkWindow "day" (-1) (-1) "" 255 "".
Definition w_news : TimeWindowRule := mkWindow "news" (-1) (-1) "" 255 "".
Definition ex_two (ms : gmap (string * string * string) Margin) : PricingTable :=
  mkTable 1 ∅ ms ∅ [] {[ "day" := w_day; "news" := w_news ]} NilCal.
Definition ex_clash : PricingTable :=
  ex_two {[ ("USD/KRW", "VIP", "day") := mkMargin f1 f1 f0 f0; ("USD/KRW", "VIP", "news") := mkMargin f2 f2 f0 f0 ]}.
Definition ex_single : PricingTable :=
  ex_two {[ ("USD/KRW", "VIP", "day") := mkMargin f1 f1 f0 f0 ]}.

Lemma price_order_independent_witness :
  ApplyForCustomer ex_tz ex_single [("day", w_day); ("news", w_news)] ex_raw ex_profile "SPOT" (mkTime 0 0) (mkTime 0 0) "" =
  ApplyForCustomer ex_tz ex_single [("news", w_news); ("day", w_day)] ex_raw ex_profile "SPOT" (mkTime 0 0) (mkTime 0 0) "".
Proof.
  apply (price_order_independent ex_tz ex_single _ _ ex_raw ex_profile "SPOT" (mkTime 0 0) (mkTime 0 0) "" ["day"; "news"]).
  - apply perm_swap.
  - vm_compute. reflexivity.
  - split; [|intros pair c s w1 w2 _ _ [? Hx]; discriminate Hx].
    intros pair tier w1 w2 _ _ [? H1] [? H2]. unfold ex_single, ex_two in H1, H2. simpl in H1, H2.
    apply lookup_singleton_Some in H1 as [[= _ _ <-] _], H2 as [[= _ _ <-] _]. reflexivity.
Defined.

(** The price can depend on the map order: with two windows active at the
    same time that both have a head-office margin for the pair and tier, two
    orders the runtime may choose give the same customer different bids for the
    same raw quote, profile, time and table version. *)
Theorem price_order_dependent :
  exists worder worder' cq cq',
    worder ≡ₚ map_to_list (TimeWindows ex_clash) /\ worder' ≡ₚ map_to_list (TimeWindows ex_clash) /\
    ApplyForCustomer ex_tz ex_clash worder ex_raw ex_profile "SPOT" (mkTime 0 0) (mkTime 0 0) "" = Some cq /\
    ApplyForCustomer ex_tz ex_clash worder' ex_raw ex_profile "SPOT" (mkTime 0 0) (mkTime 0 0) "" = Some cq' /\
    (c_Bid cq <f c_Bid cq') = true.
Proof.
  exists [("news", w_news); ("day", w_day)], [("day", w_day); ("news", w_news)].
  eexists. eexists. split; [|split; [|split; [vm_compute; reflexivity|split; [vm_compute; reflexivity|vm_compute; reflexivity]]]].
  - vm_compute. first [reflexivity | apply Permutation_swap].
  - vm_compute. first [reflexivity | apply Permutation_swap].
Qed.
