(* ===== verification/SwapLaws.v ===== *)
(** Theorems about the swap-curve interpolation and value-date pricing. *)

From Stdlib Require Import ZArith Lia QArith Lqa.
From S2P Require Import Prelude Sorting GoStrings Float64 Session Dates Pricing.
Local Open Scope Z_scope.
Local Open Scope wtg_scope.

Lemma DefaultTenorDays_inj a b d : DefaultTenorDays a = Some d -> DefaultTenorDays b = Some d -> a = b.
Proof. unfold DefaultTenorDays. intros Ha Hb. repeat case_decide; congruence. Qed.

(** An entry of the swap table that takes part for [pair]. *)
Definition registered (sorder : list (string * string * Margin)) (pair : string) (it : item) : Prop :=
  (pair, i_tenor it, i_m it) ∈ sorder /\ DefaultTenorDays (i_tenor it) = Some (i_days it).

Lemma swap_items_spec sorder pair it : it ∈ swap_items pair sorder <-> registered sorder pair it.
Proof.
  unfold registered. induction sorder as [|[[p tenor] m] l IH]; simpl.
  - rewrite !elem_of_nil. tauto.
  - rewrite elem_of_cons. destruct (decide (p = pair)) as [->|Hp].
    + destruct (DefaultTenorDays tenor) as [days|] eqn:E.
      * rewrite elem_of_cons, IH. split.
        -- intros [->|[? ?]]; simpl; auto.
        -- intros [[H|H] D]; [left|by right]. injection H as H1 H2.
           destruct it as [tn dy mm]. simpl in *. subst. rewrite E in D. by injection D as ->.
      * rewrite IH. split; [intros [? ?]; auto|]. intros [[H|H] D]; [|done].
        injection H as H1 H2. rewrite H1 in D. congruence.
    + rewrite IH. split; [intros [? ?]; auto|]. intros [[H|H] D]; [|done]. congruence.
Qed.

Lemma swap_items_perm sorder sorder' pair :
  sorder ≡ₚ sorder' -> swap_items pair sorder ≡ₚ swap_items pair sorder'.
Proof.
  induction 1 as [|[[p t] m] l l' P IH|[[p t] m] [[p' t'] m'] l|]; simpl.
  - done.
  - repeat case_match; by rewrite ?IH.
  - repeat case_match; try done; apply Permutation_swap.
  - by etrans.
Qed.

Lemma sort_items_sorted l : StronglySorted (fun a b => i_days a <= i_days b) (sort_items l).
Proof. apply insertion_sort_sorted; intros; bool_lia. Qed.
Lemma sort_items_perm l : sort_items l ≡ₚ l.
Proof. apply insertion_sort_perm. Qed.

(** The keys of a map are distinct. *)
Definition map_entries (sorder : list (string * string * Margin)) : Prop := NoDup (map fst sorder).

Lemma registered_inj sorder pair a b :
  map_entries sorder -> registered sorder pair a -> registered sorder pair b ->
  i_days a = i_days b -> a = b.
Proof.
  intros Hn [Ha Da] [Hb Db] E. destruct a as [ta da ma], b as [tb db mb]. simpl in *. subst db.
  pose proof (DefaultTenorDays_inj _ _ _ Da Db) as <-. f_equal.
  apply list_elem_of_lookup in Ha as [i Hi], Hb as [j Hj].
  assert (i = j) as <-.
  { apply (NoDup_lookup (map fst sorder) i j (pair, ta)); [done|..];
      rewrite list_lookup_fmap; [by rewrite Hi|by rewrite Hj]. }
  congruence.
Qed.

Lemma swap_items_inj sorder pair a b :
  map_entries sorder -> a ∈ swap_items pair sorder -> b ∈ swap_items pair sorder ->
  i_days a = i_days b -> a = b.
Proof. rewrite !swap_items_spec. apply registered_inj. Qed.

(** The interpolated swap does not depend on the order in which Go ranges
    over the swap-point map: two orders of the same map give the same result,
    audit fields and errors included. *)
Theorem InterpolateSwap_order_independent sorder sorder' pair offsetDays :
  map_entries sorder -> sorder ≡ₚ sorder' ->
  InterpolateSwap sorder pair offsetDays = InterpolateSwap sorder' pair offsetDays.
Proof.
  intros Hn P. pose proof (swap_items_perm _ _ pair P) as Pi. unfold InterpolateSwap.
  rewrite (Permutation_length Pi).
  assert (sort_items (swap_items pair sorder) = sort_items (swap_items pair sorder')) as ->; [|done].
  apply (sorted_perm_eq i_days); try apply sort_items_sorted.
  - intros a b Ha Hb. rewrite sort_items_perm in Ha, Hb. by apply (swap_items_inj sorder pair).
  - by rewrite !sort_items_perm.
Qed.

Definition ex_curve : list (string * string * Margin) :=
  [("USD/KRW", "1M", mkMargin (lit (20 # 100)) (lit (30 # 100)) f0 f0);
   ("USD/KRW", "1W", mkMargin (lit (5 # 100)) (lit (7 # 100)) f0 f0);
   ("EUR/KRW", "1W", mkMargin f1 f1 f0 f0)].

Lemma ex_curve_map : map_entries ex_curve.
Proof. apply (bool_decide_unpack (NoDup (map fst ex_curve))). vm_compute. exact I. Qed.

Lemma InterpolateSwap_order_independent_witness :
  InterpolateSwap ex_curve "USD/KRW" 15 = InterpolateSwap (rev ex_curve) "USD/KRW" 15.
Proof.
  apply InterpolateSwap_order_independent; [exact ex_curve_map|]. apply Permutation_rev.
Defined.

(** ** Neighbours on a sorted curve *)
Lemma neighbours_spec off p l prev next :
  StronglySorted (fun a b => i_days a <= i_days b) l ->
  (forall it, it ∈ l -> i_days it <> off) ->
  neighbours off p l = (prev, next) ->
  (prev = p /\ (forall it, it ∈ l -> off < i_days it) \/
   exists a, prev = Some a /\ a ∈ l /\ i_days a < off /\
     (forall it, it ∈ l -> i_days it < off -> i_days it <= i_days a)) /\
  (next = None /\ (forall it, it ∈ l -> i_days it < off) \/
   exists b, next = Some b /\ b ∈ l /\ off < i_days b /\
     (forall it, it ∈ l -> off < i_days it -> i_days b <= i_days it)).
Proof.
  revert p. induction l as [|x l IH]; intros p Hs Hne E; simpl in E.
  - injection E as <- <-. split; left; (split; [done|]); intros it Hit; by apply not_elem_of_nil in Hit.
  - apply StronglySorted_cons in Hs as [Hx Hs]. rewrite Forall_forall in Hx.
    pose proof (Hne x ltac:(constructor)) as Nx.
    assert (forall it, it ∈ l -> i_days it <> off) as Hne' by (intros; apply Hne; by constructor).
    destruct (Z.ltb_spec off (i_days x)) as [L|L].
    + rewrite (proj2 (Z.ltb_ge (i_days x) off)) in E by lia. injection E as <- <-. split.
      * left. split; [done|]. intros it [->|Hit]%elem_of_cons; [done|]. specialize (Hx it Hit). lia.
      * right. exists x. split; [done|]. split; [constructor|]. split; [done|].
        intros it [->|Hit]%elem_of_cons _; [lia|]. by apply Hx.
    + rewrite (proj2 (Z.ltb_lt (i_days x) off)) in E by lia.
      destruct (IH _ Hs Hne' E) as [Hp Hn]. split.
      * right. destruct Hp as [[-> Ha]|(a & -> & Ha & La & Ma)].
        -- exists x. split; [done|]. split; [constructor|]. split; [lia|].
           intros it [->|Hit]%elem_of_cons Li; [lia|]. specialize (Ha it Hit). lia.
        -- exists a. split; [done|]. split; [by constructor|]. split; [done|].
           intros it [->|Hit]%elem_of_cons Li; [by apply Hx|auto].
      * destruct Hn as [[-> Ha]|(b & -> & Hb & Lb & Mb)].
        -- left. split; [done|]. intros it [->|Hit]%elem_of_cons; [lia|auto].
        -- right. exists b. split; [done|]. split; [by constructor|]. split; [done|].
           intros it [->|Hit]%elem_of_cons Li; [lia|auto].
Qed.

(** The weight is a float64 between 0 and 1. *)
Lemma weight_bounds a b :
  0 < a -> a < b -> b < 2 ^ 53 ->
  (f0 <=f f_of_Z a /f f_of_Z b) = true /\ (f_of_Z a /f f_of_Z b <=f f1) = true.
Proof.
  intros Ha Hb Hm. destruct (f_of_Z_exact a) as (x & -> & Ex); [lia|].
  destruct (f_of_Z_exact b) as (y & -> & Ey); [lia|].
  assert (0 < x /\ x < y)%Q as [Px Pxy].
  { rewrite Ex, Ey. rewrite <-(Zlt_Qlt 0), <-Zlt_Qlt. lia. }
  unfold fdiv. rewrite Qeq_bool_ne by lra. split.
  - apply fround_nonneg. simpl. apply Qle_shift_div_l; lra.
  - apply (fround_le_repr _ _ false 1); [by vm_compute|]. simpl. apply Qle_shift_div_r; lra.
Qed.

Lemma registered_days sorder pair it : registered sorder pair it -> -2 <= i_days it <= 365.
Proof. intros [_ D]. unfold DefaultTenorDays in D. repeat case_decide; simplify_eq; lia. Qed.

(** What a result of the interpolation means, for a curve [sorder]. *)
Definition interp_ok (sorder : list (string * string * Margin)) (pair : string) (off : Z)
    (r : res SwapErr SwapInterpolation) : Prop :=
  match r with
  | Ok i =>
      in_OffsetDays i = off /\
      if in_Exact i then
        registered sorder pair (mkItem (in_From i) off (in_Margin i)) /\
        in_To i = in_From i /\ in_FromDays i = off /\ in_ToDays i = off
      else
        exists p n, registered sorder pair p /\ registered sorder pair n /\
          i_tenor p = in_From i /\ i_tenor n = in_To i /\ i_days p = in_FromDays i /\ i_days n = in_ToDays i /\
          i_days p < off < i_days n /\
          (forall it, registered sorder pair it -> i_days it <= i_days p \/ i_days n <= i_days it) /\
          (f0 <=f in_Weight i) = true /\ (in_Weight i <=f f1) = true /\
          BidAmount (in_Margin i) = lerp (BidAmount (i_m p)) (BidAmount (i_m n)) (in_Weight i) /\
          AskAmount (in_Margin i) = lerp (AskAmount (i_m p)) (AskAmount (i_m n)) (in_Weight i)
  | Err ErrNoSwap => forall it, ~ registered sorder pair it
  | Err ErrOutOfRange =>
      (exists it, registered sorder pair it) /\
      ((forall it, registered sorder pair it -> i_days it < off) \/
       (forall it, registered sorder pair it -> off < i_days it))
  | Panic => False
  end.

(** The interpolation is correct on every branch: a registered tenor with
    exactly the offset is returned unchanged; otherwise the result lies on the
    segment between the closest registered tenors below and above (nothing
    registered in between), with a weight in [0, 1]; ErrNoSwap means the pair has
    no usable tenor and ErrOutOfRange that the offset is outside the curve. *)
Theorem InterpolateSwap_correct sorder pair off :
  interp_ok sorder pair off (InterpolateSwap sorder pair off).
Proof.
  unfold InterpolateSwap. destruct (swap_items pair sorder) as [|x0 xs] eqn:E0.
  { simpl. intros it Hit%swap_items_spec. rewrite E0 in Hit. by apply not_elem_of_nil in Hit. }
  assert (forall it, it ∈ sort_items (x0 :: xs) <-> registered sorder pair it) as Hr
    by (intros; by rewrite sort_items_perm, <-E0, swap_items_spec).
  assert (registered sorder pair x0) as R0 by (apply swap_items_spec; rewrite E0; constructor).
  cbn [length Nat.eqb]. pose proof (sort_items_sorted (x0 :: xs)) as Hs.
  destruct (List.find _ _) as [it|] eqn:Ef.
  { apply find_some in Ef as [Hin Heq]. apply list_elem_of_In, Hr in Hin. apply Z.eqb_eq in Heq.
    destruct it as [tn dy m]. simpl in *. subst dy. by split_and!. }
  assert (forall it, it ∈ sort_items (x0 :: xs) -> i_days it <> off) as Hne.
  { intros it Hit%list_elem_of_In. pose proof (find_none _ _ Ef it Hit) as N. by apply Z.eqb_neq in N. }
  destruct (neighbours off None _) as [prev next] eqn:En.
  destruct (neighbours_spec _ _ _ _ _ Hs Hne En) as [Hp Hn].
  destruct Hp as [[-> Ha]|(p & -> & Hp & Lp & Mp)].
  { simpl. split; [eauto|]. right. intros it Hit%Hr. auto. }
  destruct Hn as [[-> Ha]|(n & -> & Hn & Ln & Mn)].
  { simpl. split; [eauto|]. left. intros it Hit%Hr. auto. }
  apply Hr in Hp, Hn. pose proof (registered_days _ _ _ Hp). pose proof (registered_days _ _ _ Hn).
  destruct (weight_bounds (off - i_days p) (i_days n - i_days p)) as [W0 W1]; [lia..|].
  split; [done|]. exists p, n. split_and!; try done.
  intros it Hit%Hr. pose proof (Hne it Hit). destruct (Z.lt_ge_cases (i_days it) off).
  - left. auto.
  - right. apply Mn; [done|lia].
Qed.

(** A calendar week is five business days for every start day, while the
    tenor table gives the 1W tenor seven: a value date exactly one week after
    spot is never priced as the 1W tenor, but below it. *)
Theorem one_week_is_five_business_days d :
  BusinessDaysBetweenCal weekendCalendar (utc_midnight d) (utc_midnight (d + 7)) = 5 /\
  DefaultTenorDays "1W" = Some 7.
Proof.
  split; [|done]. rewrite between_midnights.
  replace (Z.to_nat (d + 7 - d)) with 7%nat by lia. replace (Z.to_nat (d - (d + 7))) with 0%nat by lia.
  unfold business_in. cbn [count_loop]. unfold IsBusinessDay, Weekend_IsBusinessDay, weekday_of_day.
  pose proof (Z.mod_pos_bound (d + 4) 7 ltac:(lia)) as B.
  assert (forall k, (d + k + 4) mod 7 = ((d + 4) mod 7 + k) mod 7) as M
    by (intros; rewrite Zplus_mod_idemp_l; f_equal; lia).
  replace (d + 1 + 1) with (d + 2) by lia. replace (d + 2 + 1) with (d + 3) by lia.
  replace (d + 3 + 1) with (d + 4) by lia. replace (d + 4 + 1) with (d + 5) by lia.
  replace (d + 5 + 1) with (d + 6) by lia. replace (d + 6 + 1) with (d + 7) by lia.
  rewrite !M. remember ((d + 4) mod 7) as r eqn:Er. clear Er M.
  assert (r = 0 \/ r = 1 \/ r = 2 \/ r = 3 \/ r = 4 \/ r = 5 \/ r = 6) as Hr by lia.
  repeat destruct Hr as [->|Hr]; try reflexivity. subst r. reflexivity.
Qed.
