(* ===== verification/Cross.v ===== *)
(** Cross rates (src/pkg/pricing/crossrate.go): synthesising a cross quote from two
    legs, and its error cases. *)

From Stdlib Require Import ZArith Lia QArith Lqa.
From Stdlib Require Import Strings.Ascii.
From S2P Require Import Prelude Float64.
Local Open Scope Z_scope.
Local Open Scope wtg_scope.

(** * Cross formula *)
Definition CrossOpMul : string := "mul".
Definition CrossOpDiv : string := "div".

Record CrossFormula := mkFormula {
  f_LegA : string; f_OpA : string; f_LegB : string; f_OpB : string; f_Scale : f64 }.
Record CrossInput := mkInput { in_Bid : f64; in_Ask : f64 }.
Record CrossResult := mkResult { out_Bid : f64; out_Ask : f64 }.

Inductive CrossErr := ErrCrossInvalidOp | ErrCrossInvalidInput | ErrCrossDivByZero.

Definition crossBidContrib (leg : CrossInput) (op : string) : res CrossErr f64 :=
  if decide (op = CrossOpMul) then Ok (in_Bid leg)
  else if in_Ask leg ==f f0 then Err ErrCrossDivByZero
  else Ok (f1 /f in_Ask leg).

Definition crossAskContrib (leg : CrossInput) (op : string) : res CrossErr f64 :=
  if decide (op = CrossOpMul) then Ok (in_Ask leg)
  else if in_Bid leg ==f f0 then Err ErrCrossDivByZero
  else Ok (f1 /f in_Bid leg).

Definition valid_op (op : string) : bool := bool_decide (op = CrossOpMul \/ op = CrossOpDiv).

Definition ComputeCross (f : CrossFormula) (a b : CrossInput) : res CrossErr CrossResult :=
  if negb (valid_op (f_OpA f)) then Err ErrCrossInvalidOp
  else if negb (valid_op (f_OpB f)) then Err ErrCrossInvalidOp
  else if (in_Bid a <=f f0) || (in_Ask a <=f f0) || (in_Bid b <=f f0) || (in_Ask b <=f f0)
  then Err ErrCrossInvalidInput
  else
    let scale := if f_Scale f <=f f0 then f1 else f_Scale f in
    bidA ← crossBidContrib a (f_OpA f);
    askA ← crossAskContrib a (f_OpA f);
    bidB ← crossBidContrib b (f_OpB f);
    askB ← crossAskContrib b (f_OpB f);
    Ok (mkResult (scale *f bidA *f bidB) (scale *f askA *f askB)).

Example cross_eur_krw :
  ComputeCross (mkFormula "EUR/USD" "mul" "USD/KRW" "mul" f0)
    (mkInput (lit (5 # 4)) (lit (3 # 2))) (mkInput (f_of_Z 1300) (f_of_Z 1302)) =
  Ok (mkResult (f_of_Z 1625) (f_of_Z 1953)).
Proof. vm_compute. reflexivity. Qed.

(** ** Laws *)
Definition positive (x : f64) : Prop := fltb f0 x = true.

Lemma not_le_0_positive x : x <> NaN -> (x <=f f0) = false -> positive x.
Proof.
  intros Hn H. unfold positive, fltb. rewrite H, andb_true_r.
  destruct (fleb_total f0 x) as [E|E]; [done|done|done|congruence].
Qed.

Lemma f1_div_finite x : positive x -> finite x -> (f0 <=f f1 /f x) = true.
Proof. intros P F. by apply fdiv_nonneg. Qed.

(** A usable leg: finite, positive, bid not above ask. *)
Definition good_leg (l : CrossInput) : Prop :=
  positive (in_Bid l) /\ finite (in_Ask l) /\ (in_Bid l <=f in_Ask l) = true.

Lemma good_leg_finite l : good_leg l -> finite (in_Bid l).
Proof. intros (P & F & L). apply (fleb_finite _ _ (fltb_fleb _ _ P) L F). Qed.

Lemma positive_trans x y : positive x -> (x <=f y) = true -> positive y.
Proof.
  unfold positive, fltb. rewrite !andb_true_iff, !negb_true_iff. intros [A B] C. split.
  - by apply (fleb_trans x).
  - destruct (y <=f f0) eqn:D; [|done]. by rewrite (fleb_trans y x f0 C D) in B.
Qed.

(** The contribution of a leg: non-negative, bid side not above ask side. *)
Lemma contrib_le l op x y :
  good_leg l -> crossBidContrib l op = Ok x -> crossAskContrib l op = Ok y ->
  (f0 <=f x) = true /\ (x <=f y) = true.
Proof.
  intros G Ex Ey. pose proof (good_leg_finite l G) as Fb. destruct G as (P & F & L).
  pose proof (positive_trans _ _ P L) as Pa.
  unfold crossBidContrib, crossAskContrib in *. destruct (decide _).
  - injection Ex as <-. injection Ey as <-. split; [by apply fltb_fleb|done].
  - destruct (in_Ask l ==f f0); [done|]. destruct (in_Bid l ==f f0); [done|].
    assert (x = f1 /f in_Ask l) as -> by congruence. assert (y = f1 /f in_Bid l) as -> by congruence.
    split; [by apply f1_div_finite|]. by apply fdiv_anti.
Qed.

(** A finite product has finite factors (of which the second is a number). *)
Lemma fmul_finite_l x y : finite (x *f y) -> finite x.
Proof. destruct x as [|[]|], y as [|[]|]; simpl; try done; by case_if. Qed.
Lemma fmul_finite_r x y : finite (x *f y) -> finite y.
Proof. destruct x as [|[]|], y as [|[]|]; simpl; try done; by case_if. Qed.

(** A synthesised cross quote is never crossed: for every pair of operators
    and every scale, two legs with positive finite bids not above their asks give
    a bid that is non-negative and not above the ask, in float64 arithmetic, as
    long as the ask does not overflow. *)
Theorem ComputeCross_not_crossed f a b r :
  ComputeCross f a b = Ok r -> good_leg a -> good_leg b -> f_Scale f <> NaN -> finite (out_Ask r) ->
  (f0 <=f out_Bid r) = true /\ (out_Bid r <=f out_Ask r) = true.
Proof.
  intros E Ga Gb Hs Hf. unfold ComputeCross in E. do 3 (case_in E).
  bind_inv E. bind_inv E. bind_inv E. bind_inv E. injection E as <-. simpl in Hf |- *.
  set (scale := if f_Scale f <=f f0 then f1 else f_Scale f) in *.
  assert ((f0 <=f scale) = true) as S0.
  { unfold scale. destruct (f_Scale f <=f f0) eqn:Esc; [done|]. by apply fltb_fleb, not_le_0_positive. }
  destruct (contrib_le _ _ _ _ Ga E3 E4) as [A0 A1]. destruct (contrib_le _ _ _ _ Gb E5 E6) as [B0 B1].
  pose proof (fmul_finite_l _ _ Hf) as F1. pose proof (fmul_finite_r _ _ Hf) as F2.
  pose proof (fmul_finite_l _ _ F1) as Fs. pose proof (fmul_finite_r _ _ F1) as F3.
  assert (scale <> NaN) as Ns by (by destruct scale).
  pose proof (fmul_mono scale scale _ _ S0 A0 (fleb_refl _ Ns) A1 Fs F3) as M1.
  pose proof (fmul_nonneg scale _ S0 A0 Fs (fleb_finite _ _ A0 A1 F3)) as N1.
  split.
  - apply fmul_nonneg; try done; [by apply (fleb_finite _ _ N1 M1)|by apply (fleb_finite _ _ B0 B1)].
  - by apply fmul_mono.
Qed.

Lemma ComputeCross_not_crossed_witness :
  exists r, ComputeCross (mkFormula "USD/KRW" "mul" "USD/JPY" "div" (f_of_Z 100))
    (mkInput (lit (138025 # 100)) (lit (138045 # 100))) (mkInput (lit (15701 # 100)) (lit (15703 # 100))) = Ok r /\
  (out_Bid r <=f out_Ask r) = true.
Proof.
  eexists. split; [vm_compute; reflexivity|].
  refine (proj2 (ComputeCross_not_crossed (mkFormula "USD/KRW" "mul" "USD/JPY" "div" (f_of_Z 100))
    (mkInput (lit (138025 # 100)) (lit (138045 # 100))) (mkInput (lit (15701 # 100)) (lit (15703 # 100)))
    _ _ _ _ _ _)).
  - vm_compute. reflexivity.
  - split_and!; vm_compute; (reflexivity || exact I).
  - split_and!; vm_compute; (reflexivity || exact I).
  - discriminate.
  - exact I.
Defined.

(** The division-by-zero error is dead code: the positivity check rejects
    every input that could reach it, NaN quotes included. *)
Theorem ComputeCross_no_div_by_zero f a b : ComputeCross f a b <> Err ErrCrossDivByZero.
Proof.
  assert (forall x, (x <=f f0) = false -> (x ==f f0) = false) as Z by (intros x H; unfold feqb; by rewrite H).
  unfold ComputeCross. do 2 (case_if; [done|]). case_if; [done|].
  repeat match goal with H : (_ || _) = false |- _ => apply orb_false_iff in H as [? ?] end.
  assert (forall l op, (in_Bid l <=f f0) = false -> (in_Ask l <=f f0) = false ->
    exists x y, crossBidContrib l op = Ok x /\ crossAskContrib l op = Ok y) as C.
  { intros l op Hb Ha. unfold crossBidContrib, crossAskContrib. rewrite !Z by done.
    destruct (decide _); eauto. }
  destruct (C a (f_OpA f)) as (x & y & -> & ->); [done..|].
  destruct (C b (f_OpB f)) as (x' & y' & -> & ->); [done..|]. done.
Qed.
