(* ===== verification/Masters.v ===== *)
(** The currency-pair and currency masters (src/pkg/pricing/pair.go,
    currency.go): immutable snapshots with an index by identifier and a sorted
    list, and the symbol lookups over them. *)

From Stdlib Require Import ZArith Lia.
From Stdlib Require Import Strings.Ascii Strings.String.
From S2P Require Import Prelude Sorting GoStrings Float64 Cross.
Local Open Scope Z_scope.

Record Cross_ := mkCross { x_LegA : string; x_OpA : string; x_LegB : string; x_OpB : string; x_Scale : f64 }.

Record Pair := mkPair {
  p_ID : string; p_Base : string; p_Quote : string; p_Kind : string; p_Symbol : string;
  p_Cross : option Cross_; p_SpotDays : Z; p_ScaleUnit : Z; p_QuoteDecimals : Z;
  p_EmpDecimals : Z; p_PLPair : string; p_SortOrder : Z; p_Active : bool }.

Definition ToFormula (c : option Cross_) : CrossFormula :=
  match c with
  | None => mkFormula "" "" "" "" f0
  | Some c => mkFormula (x_LegA c) (x_OpA c) (x_LegB c) (x_OpB c) (x_Scale c)
  end.

(** [less] of both masters: by sort order, then by identifier. *)
Definition less (o1 : Z) (k1 : string) (o2 : Z) (k2 : string) : bool :=
  if negb (o1 =? o2) then o1 <? o2 else String.ltb k1 k2.

(** [sort.SliceStable]: insertion keeps equal elements in their order. *)
Definition SliceStable {A} (lt : A -> A -> bool) (l : list A) : list A :=
  insertion_sort (fun prev cur => lt cur prev) l.

Record pairSnap := mkPairSnap { ps_byID : gmap string Pair; ps_sorted : list Pair }.

Definition pair_less (p q : Pair) : bool := less (p_SortOrder p) (p_ID p) (p_SortOrder q) (p_ID q).

(** The loop of Replace over the input. *)
Fixpoint pair_collect (pairs : list Pair) (snap : pairSnap) : pairSnap :=
  match pairs with
  | [] => snap
  | p :: ps =>
      if decide (p_ID p = "") then pair_collect ps snap
      else pair_collect ps (mkPairSnap (<[p_ID p := p]> (ps_byID snap)) (ps_sorted snap ++ [p]))
  end.

Definition PairMaster_Replace (pairs : list Pair) : pairSnap :=
  let snap := pair_collect pairs (mkPairSnap ∅ []) in
  mkPairSnap (ps_byID snap) (SliceStable pair_less (ps_sorted snap)).

Definition PairMaster_Get (s : pairSnap) (id : string) : option Pair := ps_byID s !! id.
Definition PairMaster_List (s : pairSnap) : list Pair := ps_sorted s.
Definition PairMaster_Size (s : pairSnap) : Z := Z.of_nat (size (ps_byID s)).

Definition pair_name (p : Pair) : string := p_Base p +:+ "/" +:+ p_Quote p.

(** Later entries of the sorted list overwrite earlier ones. *)
Definition CrossFormulas (s : pairSnap) : gmap string CrossFormula :=
  fold_left (fun out p =>
    if negb (p_Active p) || negb (bool_decide (p_Kind p = "cross")) || bool_decide (p_Cross p = None)
    then out else <[pair_name p := ToFormula (p_Cross p)]> out) (ps_sorted s) ∅.

Definition LookupBySymbol (s : pairSnap) (sym : string) : option string :=
  if decide (sym = "") then None
  else
    match ps_byID s !! sym with
    | Some p =>
        if p_Active p then Some (pair_name p)
        else pair_name <$> List.find (fun p => p_Active p && bool_decide (p_Symbol p = sym)) (ps_sorted s)
    | None => pair_name <$> List.find (fun p => p_Active p && bool_decide (p_Symbol p = sym)) (ps_sorted s)
    end.

(** Splits at the first slash. *)
Fixpoint splitPair_loop (tok s : string) : list string :=
  match s with
  | "" => [tok]
  | String c s' => if Ascii.eqb c "/"%char then [tok; s'] else splitPair_loop (tok +:+ String c "") s'
  end.
Definition splitPair (s : string) : list string := splitPair_loop "" s.

Definition ext_symbol (p : Pair) : string := if decide (p_Symbol p = "") then p_ID p else p_Symbol p.

Definition ReverseSymbol (s : pairSnap) (pair : string) : option string :=
  match splitPair pair with
  | [base; quote] =>
      ext_symbol <$> List.find (fun p => p_Active p && bool_decide (p_Base p = base) && bool_decide (p_Quote p = quote))
                       (ps_sorted s)
  | _ => None
  end.

Record SymbolEntry := mkSymbolEntry { se_Symbol : string; se_Pair : string; se_Active : bool }.
Definition ToSymbolEntries (s : pairSnap) : list SymbolEntry :=
  map (fun p => mkSymbolEntry (ext_symbol p) (pair_name p) (p_Active p)) (ps_sorted s).

(** ** Currencies *)
Record Currency := mkCurrency {
  cy_Code : string; cy_Name : string; cy_RefCode : string; cy_DecimalPlaces : Z;
  cy_PrecisionKind : string; cy_SortOrder : Z; cy_Active : bool }.

Record currencySnap := mkCurrencySnap { cs_byCode : gmap string Currency; cs_sorted : list Currency }.

Fixpoint currency_collect (cs : list Currency) (snap : currencySnap) : currencySnap :=
  match cs with
  | [] => snap
  | c :: cs =>
      if decide (cy_Code c = "") then currency_collect cs snap
      else currency_collect cs (mkCurrencySnap (<[cy_Code c := c]> (cs_byCode snap)) (cs_sorted snap ++ [c]))
  end.
Definition CurrencyMaster_Replace (cs : list Currency) : currencySnap :=
  let snap := currency_collect cs (mkCurrencySnap ∅ []) in
  mkCurrencySnap (cs_byCode snap)
    (SliceStable (fun a b => less (cy_SortOrder a) (cy_Code a) (cy_SortOrder b) (cy_Code b)) (cs_sorted snap)).
Definition CurrencyMaster_Get (s : currencySnap) (code : string) : option Currency := cs_byCode s !! code.
Definition CurrencyMaster_List (s : currencySnap) : list Currency := cs_sorted s.
Definition CurrencyMaster_Size (s : currencySnap) : Z := Z.of_nat (size (cs_byCode s)).

(** ** Laws *)
Lemma SliceStable_perm {A} (lt : A -> A -> bool) l : SliceStable lt l ≡ₚ l.
Proof. apply insertion_sort_perm. Qed.

Lemma pair_collect_sorted pairs snap :
  ps_sorted (pair_collect pairs snap) = ps_sorted snap ++ filter (fun p => p_ID p <> "") pairs.
Proof.
  revert snap. induction pairs as [|p ps IH]; intros snap; simpl; [by rewrite app_nil_r|].
  destruct (decide (p_ID p = "")) as [E|E].
  - rewrite IH, filter_cons_False; [done|]. tauto.
  - rewrite IH, filter_cons_True by done. simpl. by rewrite <-app_assoc.
Qed.

Lemma pair_collect_byID pairs snap id :
  (forall p q, p ∈ pairs -> q ∈ pairs -> p_ID p = p_ID q -> p = q) ->
  ps_byID (pair_collect pairs snap) !! id =
  match List.find (fun p => bool_decide (p_ID p = id) && negb (bool_decide (p_ID p = ""))) pairs with
  | Some p => Some p
  | None => ps_byID snap !! id
  end.
Proof.
  revert snap. induction pairs as [|p ps IH]; intros snap U; simpl; [done|].
  assert (forall a b, a ∈ ps -> b ∈ ps -> p_ID a = p_ID b -> a = b) as U'
    by (intros; apply U; try done; by constructor).
  destruct (decide (p_ID p = "")) as [E|E].
  - rewrite IH by done. rewrite (bool_decide_eq_true_2 (p_ID p = "")) by done. by rewrite andb_false_r.
  - rewrite IH by done. rewrite (bool_decide_eq_false_2 (p_ID p = "")) by done. simpl.
    destruct (decide (p_ID p = id)) as [<-|Hne].
    + rewrite bool_decide_eq_true_2 by done. simpl. destruct (List.find _ ps) as [q|] eqn:F.
      * apply find_some in F as [Hq Fq]. apply andb_true_iff in Fq as [Fq%bool_decide_eq_true _].
        f_equal. apply U; [by constructor; apply list_elem_of_In|constructor|done].
      * by rewrite lookup_insert_eq.
    + rewrite (bool_decide_eq_false_2 (p_ID p = id)) by done. simpl.
      by rewrite lookup_insert_ne.
Qed.

(** The order of the lists. *)
Definition ordered (p q : Pair) : Prop :=
  p_SortOrder p < p_SortOrder q \/ (p_SortOrder p = p_SortOrder q /\ String.le (p_ID p) (p_ID q)).

Lemma pairs_sorted l : StronglySorted ordered (SliceStable pair_less l).
Proof.
  apply insertion_sort_sorted; unfold ordered, pair_less, less.
  - intros x y z [?|[? ?]] [?|[? ?]]; [left; lia..|]. right. split; [lia|]. by etrans.
  - intros x y. destruct (Z.eqb_spec (p_SortOrder y) (p_SortOrder x)); simpl; intros E.
    + right. split; [lia|]. by apply ltb_false_le.
    + bool_lia.
  - intros x y. destruct (Z.eqb_spec (p_SortOrder y) (p_SortOrder x)); simpl; intros E.
    + right. split; [lia|]. by apply ltb_true_le.
    + bool_lia.
Qed.

Lemma Replace_spec pairs :
  (forall p q, p ∈ pairs -> q ∈ pairs -> p_ID p = p_ID q -> p = q) ->
  let s := PairMaster_Replace pairs in
  PairMaster_List s ≡ₚ filter (fun p => p_ID p <> "") pairs /\
  StronglySorted ordered (PairMaster_List s) /\
  (forall id p, PairMaster_Get s id = Some p <-> p ∈ PairMaster_List s /\ p_ID p = id).
Proof.
  intros U s. assert (PairMaster_List s ≡ₚ filter (fun p => p_ID p <> "") pairs) as P.
  { unfold PairMaster_List, s, PairMaster_Replace. simpl. by rewrite SliceStable_perm, pair_collect_sorted. }
  split; [done|]. split; [apply pairs_sorted|]. intros id p. rewrite P, list_elem_of_filter.
  unfold PairMaster_Get, s, PairMaster_Replace. simpl. rewrite pair_collect_byID by done. simpl.
  destruct (List.find _ pairs) as [q|] eqn:F.
  - apply find_some in F as [Hq Fq]. apply list_elem_of_In in Hq.
    apply andb_true_iff in Fq as [Fid%bool_decide_eq_true Fne]. apply negb_true_iff, bool_decide_eq_false in Fne.
    split; [intros [= <-]; auto|]. intros [[Hn Hp] Hid]. f_equal. apply U; congruence.
  - rewrite lookup_empty. split; [done|]. intros [[Hn Hp] Hid].
    pose proof (find_none _ _ F p ltac:(by apply list_elem_of_In)) as N. simpl in N.
    rewrite bool_decide_eq_true_2, bool_decide_eq_false_2 in N by done. done.
Qed.

(** Replace keeps every pair that has an identifier, exactly once per input
    entry, listed by sort order and then identifier; with distinct identifiers,
    Get finds exactly the listed pairs. *)
Theorem PairMaster_Replace_correct pairs :
  (forall p q, p ∈ pairs -> q ∈ pairs -> p_ID p = p_ID q -> p = q) ->
  let s := PairMaster_Replace pairs in
  PairMaster_List s ≡ₚ filter (fun p => p_ID p <> "") pairs /\
  StronglySorted ordered (PairMaster_List s) /\
  (forall id p, PairMaster_Get s id = Some p <-> p ∈ PairMaster_List s /\ p_ID p = id).
Proof. apply Replace_spec. Qed.

Definition ex_pair (id base quote sym : string) (ord : Z) : Pair :=
  mkPair id base quote "direct" sym None 2 1 2 2 "" ord true.
Definition ex_pairs : list Pair :=
  [ex_pair "USDKRW" "USD" "KRW" "KRW=" 2; ex_pair "EURUSD" "EUR" "USD" "" 1; ex_pair "" "X" "Y" "" 0].

Lemma ex_pairs_distinct p q : p ∈ ex_pairs -> q ∈ ex_pairs -> p_ID p = p_ID q -> p = q.
Proof.
  unfold ex_pairs. rewrite !elem_of_cons, !elem_of_nil.
  intros [->|[->|[->|[]]]] [->|[->|[->|[]]]]; simpl; intros E; (reflexivity || discriminate E).
Qed.

Lemma PairMaster_Replace_correct_witness :
  PairMaster_Get (PairMaster_Replace ex_pairs) "EURUSD" = Some (ex_pair "EURUSD" "EUR" "USD" "" 1) /\
  StronglySorted ordered (PairMaster_List (PairMaster_Replace ex_pairs)).
Proof.
  split; [reflexivity|]. exact (proj1 (proj2 (PairMaster_Replace_correct ex_pairs ex_pairs_distinct))).
Defined.

(** ** Symbols *)
Fixpoint no_slash (s : string) : bool :=
  match s with "" => true | String c s' => negb (Ascii.eqb c "/"%char) && no_slash s' end.

Lemma splitPair_name base quote : no_slash base = true -> splitPair (base +:+ "/" +:+ quote) = [base; quote].
Proof.
  unfold splitPair. intros H. change base with ("" +:+ base) at 2. generalize "" at 1 3.
  induction base as [|c base IH]; intros tok; simpl.
  - by rewrite str_app_nil_r.
  - simpl in H. apply andb_true_iff in H as [Hc H]. apply negb_true_iff in Hc. rewrite Hc, IH by done.
    f_equal. by rewrite <-str_app_assoc.
Qed.

Lemma find_unique {A} (f : A -> bool) l x :
  In x l -> f x = true -> (forall y, In y l -> f y = true -> y = x) -> List.find f l = Some x.
Proof.
  intros Hx Fx U. destruct (List.find f l) as [y|] eqn:E.
  - apply find_some in E as [Hy Fy]. f_equal. auto.
  - pose proof (find_none _ _ E x Hx). congruence.
Qed.

(** External symbols round-trip: for an active pair whose base holds no
    slash, whose currencies no other active pair has, and whose external symbol
    (Symbol, or ID without one) names no other pair, ReverseSymbol gives that
    symbol and LookupBySymbol maps it back to the pair. *)
Theorem symbol_roundtrip pairs p :
  (forall p q, p ∈ pairs -> q ∈ pairs -> p_ID p = p_ID q -> p = q) ->
  p ∈ pairs -> p_ID p <> "" -> p_Active p = true -> no_slash (p_Base p) = true ->
  (forall q, q ∈ pairs -> p_Active q = true -> p_Base q = p_Base p -> p_Quote q = p_Quote p -> q = p) ->
  (forall q, q ∈ pairs -> p_ID q = ext_symbol p \/ p_Symbol q = ext_symbol p -> q = p) ->
  let s := PairMaster_Replace pairs in
  ReverseSymbol s (pair_name p) = Some (ext_symbol p) /\
  LookupBySymbol s (ext_symbol p) = Some (pair_name p).
Proof.
  intros U Hp Hid Ha Hns Ubq Usym s.
  destruct (Replace_spec pairs U) as (P & _ & G). fold s in P, G.
  assert (forall q, In q (ps_sorted s) <-> q ∈ pairs /\ p_ID q <> "") as Hin.
  { intros q. rewrite <-list_elem_of_In. change (ps_sorted s) with (PairMaster_List s).
    rewrite P, list_elem_of_filter. tauto. }
  split.
  - unfold ReverseSymbol, pair_name. rewrite splitPair_name by done. erewrite find_unique; [done| | |].
    + by apply Hin.
    + by rewrite Ha, !bool_decide_eq_true_2.
    + intros q [Hq _]%Hin F. rewrite !andb_true_iff, !bool_decide_eq_true in F. apply Ubq; tauto.
  - unfold LookupBySymbol. rewrite decide_False by (unfold ext_symbol; by destruct (decide _)).
    assert (p_Symbol p <> "" -> List.find (fun q => p_Active q && bool_decide (p_Symbol q = ext_symbol p)) (ps_sorted s) = Some p) as Fs.
    { intros Hs. apply find_unique; [by apply Hin| |].
      - rewrite Ha. unfold ext_symbol. rewrite decide_False by done. by rewrite bool_decide_eq_true_2.
      - intros q [Hq _]%Hin F. rewrite andb_true_iff, bool_decide_eq_true in F. apply Usym; tauto. }
    change (ps_byID s !! ext_symbol p) with (PairMaster_Get s (ext_symbol p)).
    destruct (PairMaster_Get s (ext_symbol p)) as [q|] eqn:E.
    + apply G in E as [Hq E]. assert (q = p) as -> by (apply Usym; [|by left]; apply Hin, list_elem_of_In, Hq).
      by rewrite Ha.
    + destruct (decide (p_Symbol p = "")) as [Es|Es]; [|by rewrite Fs].
      exfalso. assert (PairMaster_Get s (ext_symbol p) = Some p); [|congruence].
      apply G. split; [by apply list_elem_of_In, Hin|]. unfold ext_symbol. by rewrite decide_True.
Qed.

Lemma symbol_roundtrip_witness :
  ReverseSymbol (PairMaster_Replace ex_pairs) "USD/KRW" = Some "KRW=" /\
  LookupBySymbol (PairMaster_Replace ex_pairs) "KRW=" = Some "USD/KRW".
Proof.
  apply (symbol_roundtrip ex_pairs (ex_pair "USDKRW" "USD" "KRW" "KRW=" 2) ex_pairs_distinct).
  - constructor.
  - discriminate.
  - reflexivity.
  - reflexivity.
  - intros q. unfold ex_pairs. rewrite !elem_of_cons, !elem_of_nil.
    intros [->|[->|[->|[]]]]; simpl; intros _ E _; (reflexivity || discriminate E).
  - intros q. unfold ex_pairs. rewrite !elem_of_cons, !elem_of_nil.
    intros [->|[->|[->|[]]]] [E|E]; (reflexivity || discriminate E).
Defined.
