(* ===== verification/PricingDoc.v ===== *)
(** The margin document and the table built from it: src/pkg/pricing/codec.go
    (BuildPricingTable, parseHHMM, parseDays), validate.go and swapapply.go. The
    JSON text of a document is not modelled: a document is its record. String
    functions of package strings act on ASCII text.

    The laws follow the definitions. *)

From Stdlib Require Import ZArith Lia Strings.Ascii.
From S2P Require Import Prelude Sorting GoStrings Float64 Session Dates Pricing.
Local Open Scope Z_scope.
Local Open Scope wtg_scope.

Definition normalizeName (s : string) : string := ToLower (TrimSpace s).

(** ** Times of day and weekdays *)
Definition digit_of (c : ascii) : option Z :=
  let n := Z.of_nat (nat_of_ascii c) in
  if (n <? 48) || (57 <? n) then None else Some (n - 48).

Fixpoint atoi_loop (n : Z) (s : string) : option Z :=
  match s with
  | "" => Some n
  | String c s' => d ← digit_of c; atoi_loop (wrap64 (n * 10 + d)) s'
  end.
Definition strconvAtoi (s : string) : option Z :=
  if decide (s = "") then None else atoi_loop 0 s.

Definition parseHHMM (s : string) : Z :=
  let s := TrimSpace s in
  if decide (s = "") then -1 else
  match cut ":" s with
  | None => -1
  | Some (hs, ms) =>
      match strconvAtoi hs, strconvAtoi ms with
      | Some h, Some m =>
          if (h <? 0) || (24 <? h) || (m <? 0) || (60 <=? m) then -1
          else if (h =? 24) && (m =? 0) then 1440
          else h * 60 + m
      | _, _ => -1
      end
  end.

Definition dayIdx (s : string) : option Z :=
  if decide (s = "SUN") then Some 0 else if decide (s = "MON") then Some 1 else
  if decide (s = "TUE") then Some 2 else if decide (s = "WED") then Some 3 else
  if decide (s = "THU") then Some 4 else if decide (s = "FRI") then Some 5 else
  if decide (s = "SAT") then Some 6 else None.

(** The range loop: at most seven days are visited. *)
Fixpoint range_loop (fuel : nat) (fromI toI d mask : Z) : Z :=
  match fuel with
  | O => mask
  | S fuel =>
      if negb (d =? (toI + 1) mod 7) && ((d - fromI + 7) mod 7 <? 7) then
        let mask := Z.lor mask (Z.shiftl 1 d) in
        if d =? toI then mask else range_loop fuel fromI toI ((d + 1) mod 7) mask
      else mask
  end.

Definition parseDays (s : string) : Z :=
  let s := ToUpper (TrimSpace s) in
  if decide (s = "" \/ s = "*") then 255
  else if Contains s "-" && negb (Contains s ",") then
    match cut "-" s with
    | Some (a, b) =>
        match dayIdx a, dayIdx b with
        | Some fromI, Some toI => range_loop 8 fromI toI fromI 0
        | _, _ => 0
        end
    | None => 0
    end
  else
    fold_left (fun mask tok =>
      match dayIdx (TrimSpace tok) with Some d => Z.lor mask (Z.shiftl 1 d) | None => mask end)
      (Split s ",") 0.

(** ** Documents *)
Record TimeWindowDoc := mkWindowDoc {
  wd_Name : string; wd_Start : string; wd_End : string; wd_TZ : string; wd_Days : string; wd_ComplementOf : string }.
Record SwapEntryDoc := mkSwapDoc { sd_Pair : string; sd_Tenor : string; sd_M : Margin }.
Record HQEntryDoc := mkHQDoc { hd_Pair : string; hd_Tier : string; hd_M : Margin; hd_Window : string }.
Record SiteEntryDoc := mkSiteDoc {
  td_Pair : string; td_Channel : string; td_Site : string; td_M : Margin; td_Window : string }.
Record CustomerEntryDoc := mkCustomerDoc {
  cd_CustomerID : string; cd_Pair : string; cd_BidDelta : f64; cd_AskDelta : f64; cd_SkewDelta : f64;
  cd_SpreadDelta : f64; cd_Mode : string; cd_Priority : Z; cd_Window : string }.

Record PricingTableDoc := mkDoc {
  d_Version : Z; d_TimeWindows : list TimeWindowDoc; d_SwapPoint : list SwapEntryDoc;
  d_HQMargin : list HQEntryDoc; d_SiteMargin : list SiteEntryDoc;
  d_CustomerMargin : list CustomerEntryDoc; d_Holidays : list string }.

(** [time.Parse("2006-01-02", s)]: four, two and two digits, a real date. *)
Fixpoint digits (n : nat) (v : Z) (s : string) : option (Z * string) :=
  match n with
  | O => Some (v, s)
  | S n => match s with "" => None | String c s' => d ← digit_of c; digits n (v * 10 + d) s' end
  end.
Definition expect (c : ascii) (s : string) : option string :=
  match s with "" => None | String c' s' => if Ascii.eqb c c' then Some s' else None end.
Definition is_leap (y : Z) : bool :=
  (y mod 4 =? 0) && (negb (y mod 100 =? 0) || (y mod 400 =? 0)).
Definition days_in (m y : Z) : Z :=
  if m =? 2 then if is_leap y then 29 else 28
  else if (m =? 4) || (m =? 6) || (m =? 9) || (m =? 11) then 30 else 31.
Definition ParseHolidayDate (s : string) : option Z :=
  '(y, s) ← digits 4 0 s; s ← expect "-" s;
  '(m, s) ← digits 2 0 s; s ← expect "-" s;
  '(d, s) ← digits 2 0 s;
  if decide (s = "") then
    if (1 <=? m) && (m <=? 12) && (1 <=? d) && (d <=? days_in m y) then Some (day_of_civil y m d) else None
  else None.

Definition build_rule (e : CustomerEntryDoc) : CustomerRule :=
  mkRule (cd_CustomerID e) (cd_Pair e) (cd_BidDelta e) (cd_AskDelta e) (cd_SkewDelta e) (cd_SpreadDelta e)
    (if decide (cd_Mode e = "") then "add" else cd_Mode e) (cd_Priority e) (normalizeName (cd_Window e)).

(** The in-place insertion sort by descending priority. *)
Definition sort_rules (l : list CustomerRule) : list CustomerRule :=
  insertion_sort (fun prev cur => cu_Priority prev <? cu_Priority cur) l.

Definition build_window (w : TimeWindowDoc) : TimeWindowRule :=
  mkWindow (wd_Name w) (parseHHMM (wd_Start w)) (parseHHMM (wd_End w)) (wd_TZ w) (parseDays (wd_Days w))
    (wd_ComplementOf w).

Definition build_calendar (hs : list string) : AnyCalendar :=
  if (0 <? length hs)%nat then
    let dates := omap ParseHolidayDate hs in
    if (0 <? length dates)%nat then HolidayCal (NewHolidayCalendar dates) else NilCal
  else NilCal.

Definition BuildPricingTable (doc : PricingTableDoc) : PricingTable :=
  {| Version := d_Version doc;
     SwapPoint := fold_left (fun t e => <[(sd_Pair e, sd_Tenor e) := sd_M e]> t) (d_SwapPoint doc) ∅;
     HQMargin := fold_left (fun t e => <[(hd_Pair e, hd_Tier e, normalizeName (hd_Window e)) := hd_M e]> t)
                   (d_HQMargin doc) ∅;
     SiteMargin := fold_left (fun t e =>
                     <[(td_Pair e, td_Channel e, td_Site e, normalizeName (td_Window e)) := td_M e]> t)
                   (d_SiteMargin doc) ∅;
     CustomerMargin := sort_rules (map build_rule (d_CustomerMargin doc));
     TimeWindows := fold_left (fun t w => <[normalizeName (wd_Name w) := build_window w]> t) (d_TimeWindows doc) ∅;
     Cal := build_calendar (d_Holidays doc) |}.

(** ** Validation: the violations, by kind and entry index *)
Inductive violation :=
| SwapPairEmpty (i : nat) | SwapTenorEmpty (i : nat)
| HQPairEmpty (i : nat) | HQBidNegative (i : nat) | HQAskNegative (i : nat)
| SitePairEmpty (i : nat) | SiteBidNegative (i : nat) | SiteAskNegative (i : nat) | SiteTooBroad (i : nat).

Definition check (b : bool) (v : violation) : list violation := if b then [v] else [].

Definition Validate (doc : PricingTableDoc) : list violation :=
  concat (imap (fun i e => check (bool_decide (sd_Pair e = "")) (SwapPairEmpty i) ++
                           check (bool_decide (sd_Tenor e = "")) (SwapTenorEmpty i)) (d_SwapPoint doc)) ++
  concat (imap (fun i e => check (bool_decide (hd_Pair e = "")) (HQPairEmpty i) ++
                           check (BidAmount (hd_M e) <f f0) (HQBidNegative i) ++
                           check (AskAmount (hd_M e) <f f0) (HQAskNegative i)) (d_HQMargin doc)) ++
  concat (imap (fun i e => check (bool_decide (td_Pair e = "")) (SitePairEmpty i) ++
                           check (BidAmount (td_M e) <f f0) (SiteBidNegative i) ++
                           check (AskAmount (td_M e) <f f0) (SiteAskNegative i) ++
                           check (bool_decide (td_Channel e = "" /\ td_Site e = "")) (SiteTooBroad i))
                  (d_SiteMargin doc)).

(** ** Swap updates (swapapply.go), on the parsed document *)
Record SwapUpdate := mkSwapUpdate { u_Pair : string; u_Tenor : string; u_Bid : f64; u_Ask : f64 }.

Definition set_bid_ask (e : SwapEntryDoc) (bid ask : f64) : SwapEntryDoc :=
  mkSwapDoc (sd_Pair e) (sd_Tenor e) (mkMargin bid ask (SkewAmount (sd_M e)) (SpreadAmount (sd_M e))).

(** Replaces the first entry of the key, or appends one. *)
Fixpoint upsert (p t : string) (bid ask : f64) (l : list SwapEntryDoc) : list SwapEntryDoc :=
  match l with
  | [] => [mkSwapDoc p t (mkMargin bid ask f0 f0)]
  | e :: l =>
      if decide (sd_Pair e = p /\ sd_Tenor e = t) then set_bid_ask e bid ask :: l
      else e :: upsert p t bid ask l
  end.

Definition ApplySwapToDoc (doc : PricingTableDoc) (pair : string) (ups : list SwapUpdate) (clear : bool)
    : PricingTableDoc :=
  let sp :=
    if clear then List.filter (fun e => negb (bool_decide (sd_Pair e = pair))) (d_SwapPoint doc)
    else fold_left (fun l up => upsert pair (u_Tenor up) (u_Bid up) (u_Ask up) l) ups (d_SwapPoint doc) in
  mkDoc (wrap64 (d_Version doc + 1)) (d_TimeWindows doc) sp (d_HQMargin doc) (d_SiteMargin doc)
    (d_CustomerMargin doc) (d_Holidays doc).

(** * Laws
    Theorems about margin documents: what the built table contains, which
    customer rule wins, what validation guarantees, and swap updates. *)

(** * Maps built from lists *)
Lemma fold_insert_lookup {K E V} `{Countable K} (key : E -> K) (val : E -> V) (l : list E) (t : gmap K V) k :
  fold_left (fun t e => <[key e := val e]> t) l t !! k =
  match List.find (fun e => bool_decide (key e = k)) (rev l) with
  | Some e => Some (val e)
  | None => t !! k
  end.
Proof.
  revert t. induction l as [|e l IH]; intros t; simpl; [done|]. rewrite IH.
  assert (forall (f : E -> bool) a b, List.find f (a ++ b) = match List.find f a with Some x => Some x | None => List.find f b end) as Fa.
  { intros f a b. induction a as [|x a IHa]; simpl; [done|]. by destruct (f x). }
  rewrite Fa. destruct (List.find _ (rev l)); [done|]. simpl.
  destruct (decide (key e = k)) as [<-|Hne].
  - by rewrite bool_decide_eq_true_2, lookup_insert_eq.
  - by rewrite bool_decide_eq_false_2, lookup_insert_ne.
Qed.

Lemma fold_insert_Some {K E V} `{Countable K} (key : E -> K) (val : E -> V) (l : list E) k v :
  fold_left (fun t e => <[key e := val e]> t) l (∅ : gmap K V) !! k = Some v -> exists e, e ∈ l /\ key e = k /\ val e = v.
Proof.
  rewrite fold_insert_lookup. destruct (List.find _ _) as [e|] eqn:F; [|by rewrite lookup_empty].
  intros [= <-]. apply find_some in F as [Hin Hk]. apply in_rev, list_elem_of_In in Hin.
  exists e. split; [done|]. split; [by apply bool_decide_eq_true in Hk|done].
Qed.

(** The built table holds, for each key, the last entry of the document with
    that key (window names compared case-insensitively and trimmed), in all three
    margin maps. *)
Theorem BuildPricingTable_last_wins doc pair tenor tier channel site w :
  SwapPoint (BuildPricingTable doc) !! (pair, tenor) =
    sd_M <$> List.find (fun e => bool_decide ((sd_Pair e, sd_Tenor e) = (pair, tenor))) (rev (d_SwapPoint doc)) /\
  HQMargin (BuildPricingTable doc) !! (pair, tier, w) =
    hd_M <$> List.find (fun e => bool_decide ((hd_Pair e, hd_Tier e, normalizeName (hd_Window e)) = (pair, tier, w)))
      (rev (d_HQMargin doc)) /\
  SiteMargin (BuildPricingTable doc) !! (pair, channel, site, w) =
    td_M <$> List.find (fun e => bool_decide
      ((td_Pair e, td_Channel e, td_Site e, normalizeName (td_Window e)) = (pair, channel, site, w)))
      (rev (d_SiteMargin doc)).
Proof.
  unfold BuildPricingTable. cbn [SwapPoint HQMargin SiteMargin]. split_and!.
  - rewrite (fold_insert_lookup (fun e => (sd_Pair e, sd_Tenor e)) sd_M). by destruct (List.find _ _).
  - rewrite (fold_insert_lookup (fun e => (hd_Pair e, hd_Tier e, normalizeName (hd_Window e))) hd_M).
    by destruct (List.find _ _).
  - rewrite (fold_insert_lookup
      (fun e => (td_Pair e, td_Channel e, td_Site e, normalizeName (td_Window e))) td_M).
    by destruct (List.find _ _).
Qed.

(** * Customer rules *)
Lemma sort_rules_sorted l : StronglySorted (fun a b => cu_Priority b <= cu_Priority a) (sort_rules l).
Proof. apply insertion_sort_sorted; intros; bool_lia. Qed.

Lemma find_sorted {A} (R : A -> A -> Prop) f l x y :
  StronglySorted R l -> List.find f l = Some x -> y ∈ l -> f y = true -> y = x \/ R x y.
Proof.
  induction 1 as [|z l Hs IH Hz]; simpl; [done|]. destruct (f z) eqn:Fz.
  - intros [= <-] [->|Hy]%elem_of_cons Fy; [by left|]. right. rewrite Forall_forall in Hz. auto.
  - intros F [->|Hy]%elem_of_cons Fy; [congruence|auto].
Qed.

(** The customer rule that applies is one of the document's rules that match
    the customer, pair and active windows, and no matching rule has a higher
    priority; among matching rules of that priority it is the first of the
    document; and no rule applies only when none matches or the customer is
    anonymous. *)
Theorem customer_rule_priority doc customerID pair ws :
  let rules := map build_rule (d_CustomerMargin doc) in
  let matches := rule_matches customerID pair ws in
  match matchCustomerRule (BuildPricingTable doc) customerID pair ws with
  | Some r =>
      r ∈ rules /\ matches r = true /\
      (forall r', r' ∈ rules -> matches r' = true -> cu_Priority r' <= cu_Priority r) /\
      List.find (fun r' => matches r' && (cu_Priority r' =? cu_Priority r)) rules = Some r
  | None => customerID = "" \/ (forall r, r ∈ rules -> matches r = false)
  end.
Proof.
  intros rules matches. unfold matchCustomerRule. destruct (decide (customerID = "")); [by left|].
  cbn [BuildPricingTable CustomerMargin]. fold rules. fold matches.
  pose proof (sort_rules_sorted rules) as Hs.
  assert (forall r, r ∈ sort_rules rules <-> r ∈ rules) as P
    by (intros; unfold sort_rules; by rewrite insertion_sort_perm).
  destruct (List.find matches (sort_rules rules)) as [r|] eqn:F.
  - pose proof (find_some _ _ F) as [Hin Hm]. apply list_elem_of_In, P in Hin. split_and!; try done.
    + intros r' Hr' Hm'. destruct (find_sorted _ _ _ _ r' Hs F) as [->|]; [by apply P|done|lia|done].
    + set (Q := fun r' => matches r' && (cu_Priority r' =? cu_Priority r)).
      assert (List.find Q (sort_rules rules) = Some r) as FQ.
      { revert F. generalize (sort_rules rules). induction l as [|x l IH]; simpl; [done|].
        destruct (matches x) eqn:Ex.
        - intros [= ->]. unfold Q. by rewrite Hm, Z.eqb_refl.
        - intros F. unfold Q at 1. rewrite Ex. simpl. auto. }
      assert (forall l, List.find Q l = head (List.filter Q l)) as Fh.
      { induction l as [|x l IH]; simpl; [done|]. by destruct (Q x). }
      rewrite Fh in FQ |- *. unfold sort_rules in FQ. rewrite insertion_sort_stable in FQ; [done|].
      unfold Q. intros x y. rewrite !andb_true_iff, !Z.eqb_eq. intros [_ ->] [_ ->]. apply Z.ltb_irrefl.
  - right. intros r Hr. apply (find_none _ _ F). by apply list_elem_of_In, P.
Qed.

(** * Validation *)
Lemma concat_nil {A} (l : list (list A)) : concat l = [] -> Forall (eq []) l.
Proof. induction l as [|x l IH]; simpl; constructor; apply app_eq_nil in H as [? ?]; auto. Qed.

Lemma check_nil b v : check b v = [] -> b = false.
Proof. by destruct b. Qed.

Lemma imap_nil {A B} (f : nat -> A -> list B) l e : concat (imap f l) = [] -> e ∈ l -> exists i, f i e = [].
Proof.
  intros H [i Hi]%list_elem_of_lookup. apply concat_nil in H. rewrite Forall_lookup in H. exists i.
  symmetry. apply (H i). by rewrite list_lookup_imap, Hi.
Qed.

Lemma not_lt_0 x : x <> NaN -> (x <f f0) = false -> (f0 <=f x) = true.
Proof. intros H. by apply fltb_false. Qed.

(** No amount of the document is NaN (JSON numbers never are). *)
Definition numbers (doc : PricingTableDoc) : Prop :=
  (forall e, e ∈ d_HQMargin doc -> BidAmount (hd_M e) <> NaN /\ AskAmount (hd_M e) <> NaN) /\
  (forall e, e ∈ d_SiteMargin doc -> BidAmount (td_M e) <> NaN /\ AskAmount (td_M e) <> NaN).

(** A document that passes validation builds a table in which every
    head-office and branch margin has non-negative bid and ask amounts. *)
Theorem Validate_nonneg doc :
  Validate doc = [] -> numbers doc ->
  (forall k m, HQMargin (BuildPricingTable doc) !! k = Some m ->
     (f0 <=f BidAmount m) = true /\ (f0 <=f AskAmount m) = true) /\
  (forall k m, SiteMargin (BuildPricingTable doc) !! k = Some m ->
     (f0 <=f BidAmount m) = true /\ (f0 <=f AskAmount m) = true).
Proof.
  unfold Validate. intros [_ [Hh Hs]%app_eq_nil]%app_eq_nil [Nh Ns]. split.
  - intros k m E. apply fold_insert_Some in E as (e & He & _ & <-).
    destruct (imap_nil _ _ _ Hh He) as [i Hi]. apply app_eq_nil in Hi as [_ [B A]%app_eq_nil].
    destruct (Nh e He). split; apply not_lt_0; eauto using check_nil.
  - intros k m E. apply fold_insert_Some in E as (e & He & _ & <-).
    destruct (imap_nil _ _ _ Hs He) as [i Hi].
    apply app_eq_nil in Hi as [_ [B [A _]%app_eq_nil]%app_eq_nil].
    destruct (Ns e He). split; apply not_lt_0; eauto using check_nil.
Qed.

Definition ex_doc : PricingTableDoc :=
  mkDoc 3 [] [] [mkHQDoc "USD/KRW" "VIP" (mkMargin f1 f1 f0 f0) " Night "]
    [mkSiteDoc "USD/KRW" "WEB" "" (mkMargin f0 f1 f0 f0) ""] [] [].

Lemma Validate_nonneg_witness :
  HQMargin (BuildPricingTable ex_doc) !! ("USD/KRW", "VIP", "night") = Some (mkMargin f1 f1 f0 f0) /\
  ((f0 <=f f1) = true /\ (f0 <=f f1) = true).
Proof.
  split; [vm_compute; reflexivity|].
  refine (proj1 (Validate_nonneg ex_doc _ _) ("USD/KRW", "VIP", "night") (mkMargin f1 f1 f0 f0) _).
  - vm_compute. reflexivity.
  - split; simpl; intros e He; apply list_elem_of_singleton in He as ->; split; discriminate.
  - vm_compute. reflexivity.
Defined.

(** A document whose head-office entry has a negative spread. *)
Definition neg_spread_doc : PricingTableDoc :=
  mkDoc 1 [] [] [mkHQDoc "USD/KRW" "VIP" (mkMargin f0 f0 f0 (fopp (f_of_Z 4))) ""] [] [] [].
Definition neg_spread_raw : Quote :=
  mkQuote "USD/KRW" (f_of_Z 1380) (f_of_Z 1381) (mkTime 0 0) f1 f1.

(** Validation does not stop a spread that favours the customer: a document
    with a negative spread amount passes Validate, and the table built from it
    quotes a bid above the raw bid, an ask below the raw ask, and a crossed
    customer price (bid above ask) from an uncrossed raw quote. *)
Theorem Validate_accepts_negative_spread :
  Validate neg_spread_doc = [] /\
  (q_Bid neg_spread_raw <=f q_Ask neg_spread_raw) = true /\
  exists cq,
    ApplyForCustomer (fun _ => None) (BuildPricingTable neg_spread_doc) [] neg_spread_raw
      (mkProfile "WEB" "HQ" "VIP") "SPOT" (mkTime 0 0) (mkTime 0 0) "" = Some cq /\
    (q_Bid neg_spread_raw <f c_Bid cq) = true /\ (c_Ask cq <f q_Ask neg_spread_raw) = true /\
    (c_Ask cq <f c_Bid cq) = true.
Proof.
  split; [vm_compute; reflexivity|]. split; [vm_compute; reflexivity|]. eexists.
  split; [vm_compute; reflexivity|]. split_and!; vm_compute; reflexivity.
Qed.

(** * Times of day *)
Lemma wrap64_range z : - 2 ^ 63 <= wrap64 z < 2 ^ 63.
Proof. unfold wrap64. pose proof (Z.mod_pos_bound (z + 2 ^ 63) (2 ^ 64)). lia. Qed.

Definition dec2 (n : Z) : string :=
  String (ascii_of_nat (Z.to_nat (48 + n / 10))) (String (ascii_of_nat (Z.to_nat (48 + n mod 10))) "").

(** Times of day parse as written: "HH:MM" with two digits each gives
    HH * 60 + MM for every hour and minute of the day, "24:00" gives 1440, and
    every result is -1 (unset) or below 1500. *)
Theorem parseHHMM_correct :
  (forall h m, 0 <= h < 24 -> 0 <= m < 60 -> parseHHMM (dec2 h +:+ ":" +:+ dec2 m) = h * 60 + m) /\
  parseHHMM "24:00" = 1440 /\
  (forall s, parseHHMM s = -1 \/ 0 <= parseHHMM s < 1500).
Proof.
  split_and!; [|reflexivity|].
  - assert (forallb (fun h => forallb (fun m =>
      parseHHMM (dec2 (Z.of_nat h) +:+ ":" +:+ dec2 (Z.of_nat m)) =? Z.of_nat h * 60 + Z.of_nat m)
      (seq 0 60)) (seq 0 24) = true) as T by (vm_compute; reflexivity).
    intros h m Hh Hm. rewrite forallb_forall in T.
    specialize (T (Z.to_nat h) ltac:(apply in_seq; lia)). rewrite forallb_forall in T.
    specialize (T (Z.to_nat m) ltac:(apply in_seq; lia)). rewrite !Z2Nat.id in T by lia. by apply Z.eqb_eq in T.
  - intros s. unfold parseHHMM. destruct (decide _); [by left|].
    destruct (cut _ _) as [[hs ms]|]; [|by left].
    destruct (strconvAtoi hs) as [h|]; [|by left]. destruct (strconvAtoi ms) as [m|]; [|by left].
    destruct ((h <? 0) || (24 <? h) || (m <? 0) || (60 <=? m)) eqn:E; [by left|].
    right. case_if; bool_lia.
Qed.

(** Two inputs that are not times of day are accepted: "24:30" is 1470
    minutes, past the end of the day, and an hour count of 2^64 digits' value
    wraps around int64 to 0 and is read as midnight. *)
Theorem parseHHMM_accepts_bad_times :
  parseHHMM "24:30" = 1470 /\ parseHHMM "18446744073709551616:00" = 0.
Proof. split; vm_compute; reflexivity. Qed.

(** * Weekday masks *)
Definition day_name (d : Z) : string :=
  nth (Z.to_nat d) ["SUN"; "MON"; "TUE"; "WED"; "THU"; "FRI"; "SAT"] "".

(** The day test of IsActive: masks 0 and 255 admit every day. *)
Definition day_admitted (mask wd : Z) : bool :=
  (mask =? 0) || (mask =? 255) || negb (Z.land mask (Z.shiftl 1 wd) =? 0).

(** A weekday range "A-B" admits exactly the days from A to B in cyclic
    order, whole weeks included (whose mask is 0, read as every day), in upper or
    lower case; a comma list admits exactly its days. *)
Theorem parseDays_range a b wd :
  0 <= a < 7 -> 0 <= b < 7 -> 0 <= wd < 7 ->
  day_admitted (parseDays (day_name a +:+ "-" +:+ day_name b)) wd = ((wd - a) mod 7 <=? (b - a) mod 7) /\
  day_admitted (parseDays (ToLower (day_name a +:+ "-" +:+ day_name b))) wd = ((wd - a) mod 7 <=? (b - a) mod 7) /\
  day_admitted (parseDays (day_name a +:+ ", " +:+ day_name b)) wd = ((wd =? a) || (wd =? b)).
Proof.
  intros Ha Hb Hw.
  assert (forallb (fun a => forallb (fun b => forallb (fun w =>
    let a := Z.of_nat a in let b := Z.of_nat b in let wd := Z.of_nat w in
    Bool.eqb (day_admitted (parseDays (day_name a +:+ "-" +:+ day_name b)) wd) ((wd - a) mod 7 <=? (b - a) mod 7) &&
    Bool.eqb (day_admitted (parseDays (ToLower (day_name a +:+ "-" +:+ day_name b))) wd)
      ((wd - a) mod 7 <=? (b - a) mod 7) &&
    Bool.eqb (day_admitted (parseDays (day_name a +:+ ", " +:+ day_name b)) wd) ((wd =? a) || (wd =? b)))
    (seq 0 7)) (seq 0 7)) (seq 0 7) = true) as T by (vm_compute; reflexivity).
  rewrite forallb_forall in T. specialize (T (Z.to_nat a) ltac:(apply in_seq; lia)).
  rewrite forallb_forall in T. specialize (T (Z.to_nat b) ltac:(apply in_seq; lia)).
  rewrite forallb_forall in T. specialize (T (Z.to_nat wd) ltac:(apply in_seq; lia)).
  cbv zeta in T. rewrite !Z2Nat.id in T by lia. rewrite !andb_true_iff, !Bool.eqb_true_iff in T. tauto.
Qed.

Lemma parseDays_range_witness :
  day_admitted (parseDays (day_name 5 +:+ "-" +:+ day_name 1)) 0 = ((0 - 5) mod 7 <=? (1 - 5) mod 7).
Proof. apply (parseDays_range 5 1 0); lia. Defined.

(** * Swap updates *)
Definition swap_of (doc : PricingTableDoc) (pair tenor : string) : option Margin :=
  SwapPoint (BuildPricingTable doc) !! (pair, tenor).

Lemma swap_of_find doc pair tenor :
  swap_of doc pair tenor =
  sd_M <$> List.find (fun e => bool_decide ((sd_Pair e, sd_Tenor e) = (pair, tenor))) (rev (d_SwapPoint doc)).
Proof.
  unfold swap_of, BuildPricingTable. cbn [SwapPoint].
  rewrite (fold_insert_lookup (fun e => (sd_Pair e, sd_Tenor e)) sd_M). by destruct (List.find _ _).
Qed.

Definition doc_with (doc : PricingTableDoc) (sp : list SwapEntryDoc) : PricingTableDoc :=
  mkDoc (d_Version doc) (d_TimeWindows doc) sp (d_HQMargin doc) (d_SiteMargin doc) (d_CustomerMargin doc) (d_Holidays doc).

(** No two entries of the document have the same pair and tenor. *)
Definition distinct_keys (l : list SwapEntryDoc) : Prop := NoDup (map (fun e => (sd_Pair e, sd_Tenor e)) l).

Definition sd_key (e : SwapEntryDoc) : string * string := (sd_Pair e, sd_Tenor e).

Lemma upsert_keys p t bid ask l k :
  k ∈ map sd_key (upsert p t bid ask l) <-> k ∈ map sd_key l \/ k = (p, t).
Proof.
  induction l as [|e l IH]; simpl; [by rewrite list_elem_of_singleton, elem_of_nil; tauto|].
  destruct (decide (sd_Pair e = p /\ sd_Tenor e = t)) as [[<- <-]|Hne]; simpl; rewrite !elem_of_cons.
  - unfold sd_key at 1 3. simpl. tauto.
  - rewrite IH. tauto.
Qed.

Lemma upsert_distinct p t bid ask l : distinct_keys l -> distinct_keys (upsert p t bid ask l).
Proof.
  unfold distinct_keys. fold sd_key. induction l as [|e l IH]; simpl; [intros; apply NoDup_singleton|].
  intros [He Hl]%NoDup_cons. destruct (decide (sd_Pair e = p /\ sd_Tenor e = t)) as [|Hne]; simpl.
  - by apply NoDup_cons.
  - apply NoDup_cons. split; [|auto]. rewrite upsert_keys. intros [|E]; [done|].
    apply Hne. by injection E as -> ->.
Qed.

(** With distinct keys, the built table has the entry of each key. *)
Lemma swap_of_entry doc e :
  distinct_keys (d_SwapPoint doc) -> e ∈ d_SwapPoint doc -> swap_of doc (sd_Pair e) (sd_Tenor e) = Some (sd_M e).
Proof.
  intros Hd He. rewrite swap_of_find. destruct (List.find _ _) as [e'|] eqn:F.
  - apply find_some in F as [Hin Hk]. apply in_rev, list_elem_of_In in Hin. apply bool_decide_eq_true in Hk.
    simpl. f_equal. f_equal. apply list_elem_of_lookup in He as [i Hi], Hin as [j Hj].
    assert (j = i) as ->; [|congruence].
    apply (NoDup_lookup (map sd_key (d_SwapPoint doc)) j i (sd_key e)); [done|..];
      rewrite list_lookup_fmap; [rewrite Hj; simpl; by f_equal|by rewrite Hi].
  - pose proof (find_none _ _ F e ltac:(apply in_rev; rewrite rev_involutive; by apply list_elem_of_In)) as N.
    simpl in N. by rewrite bool_decide_eq_true_2 in N.
Qed.

Lemma swap_of_none doc p t : (p, t) ∉ map sd_key (d_SwapPoint doc) -> swap_of doc p t = None.
Proof.
  intros H. rewrite swap_of_find. destruct (List.find _ _) as [e|] eqn:F; [|done]. exfalso. apply H.
  apply find_some in F as [Hin Hk]. apply in_rev in Hin. apply bool_decide_eq_true in Hk. rewrite <-Hk.
  apply list_elem_of_In, (in_map sd_key), Hin.
Qed.

(** The margin after one update. *)
Definition updated (old : option Margin) (bid ask : f64) : Margin :=
  match old with
  | Some m => mkMargin bid ask (SkewAmount m) (SpreadAmount m)
  | None => mkMargin bid ask f0 f0
  end.

Lemma upsert_entry p t bid ask l :
  exists e, e ∈ upsert p t bid ask l /\ sd_key e = (p, t) /\
    sd_M e = updated (sd_M <$> List.find (fun e => bool_decide (sd_key e = (p, t))) l) bid ask.
Proof.
  induction l as [|x l (e & He & Hk & Hm)]; simpl.
  - eexists. split; [constructor|]. done.
  - destruct (decide (sd_Pair x = p /\ sd_Tenor x = t)) as [[<- <-]|Hne].
    + eexists. split; [constructor|]. by rewrite bool_decide_eq_true_2.
    + exists e. split; [by constructor|]. split; [done|]. rewrite bool_decide_eq_false_2; [done|].
      unfold sd_key. intros [= <- <-]. by apply Hne.
Qed.

Lemma upsert_other p t bid ask l e : sd_key e <> (p, t) -> e ∈ upsert p t bid ask l <-> e ∈ l.
Proof.
  intros Hk. induction l as [|x l IH]; simpl.
  - rewrite list_elem_of_singleton, elem_of_nil. split; [intros ->; by destruct Hk|done].
  - destruct (decide (sd_Pair x = p /\ sd_Tenor x = t)) as [[<- <-]|Hne]; rewrite !elem_of_cons.
    + split; intros [->|]; try tauto; by destruct Hk.
    + by rewrite IH.
Qed.

(** One update, seen in the built table. *)
Lemma swap_of_upsert doc p t bid ask p' t' :
  distinct_keys (d_SwapPoint doc) ->
  swap_of (doc_with doc (upsert p t bid ask (d_SwapPoint doc))) p' t' =
  if decide ((p', t') = (p, t)) then Some (updated (swap_of doc p t) bid ask) else swap_of doc p' t'.
Proof.
  intros Hd. pose proof (upsert_distinct p t bid ask _ Hd) as Hd'. set (doc' := doc_with _ _).
  destruct (decide ((p', t') = (p, t))) as [[= -> ->]|Hne].
  - destruct (upsert_entry p t bid ask (d_SwapPoint doc)) as (e & He & Hk & Hm).
    injection Hk as Hp Ht. pose proof (swap_of_entry doc' e Hd' He) as S. rewrite Hp, Ht in S.
    rewrite S, Hm. f_equal. f_equal. destruct (List.find _ _) as [x|] eqn:F; simpl.
    + apply find_some in F as [Hin Kx]. apply bool_decide_eq_true in Kx. injection Kx as <- <-.
      symmetry. apply swap_of_entry; [done|]. by apply list_elem_of_In.
    + symmetry. apply swap_of_none. intros (y & Ey & Hy)%list_elem_of_fmap.
      pose proof (find_none _ _ F y ltac:(by apply list_elem_of_In)) as N. simpl in N.
      by rewrite bool_decide_eq_true_2 in N.
  - destruct (decide ((p', t') ∈ map sd_key (d_SwapPoint doc))) as [Hin|Hin].
    + apply list_elem_of_fmap in Hin as (e & Ek & He). injection Ek as -> ->.
      rewrite (swap_of_entry doc e Hd He). apply swap_of_entry; [done|]. simpl. by apply upsert_other.
    + rewrite (swap_of_none doc) by done. apply swap_of_none. simpl. rewrite upsert_keys. tauto.
Qed.

(** A swap-point update takes effect: when the document has one entry per
    (pair, tenor), the table built from the updated document has the new bid and
    ask for that tenor, with the skew and spread the old entry had, every other
    (pair, tenor) is unchanged, and the version is incremented. *)
Theorem ApplySwapToDoc_effective doc pair up p' t' :
  distinct_keys (d_SwapPoint doc) ->
  let doc' := ApplySwapToDoc doc pair [up] false in
  swap_of doc' p' t' =
    (if decide ((p', t') = (pair, u_Tenor up))
     then Some (updated (swap_of doc pair (u_Tenor up)) (u_Bid up) (u_Ask up)) else swap_of doc p' t') /\
  distinct_keys (d_SwapPoint doc') /\ Version (BuildPricingTable doc') = wrap64 (d_Version doc + 1).
Proof.
  intros Hd. split_and!; [|by apply upsert_distinct|done].
  rewrite <-(swap_of_upsert doc pair (u_Tenor up) (u_Bid up) (u_Ask up)) by done. done.
Qed.

Definition ex_swap_doc : PricingTableDoc :=
  mkDoc 1 [] [mkSwapDoc "USD/KRW" "1W" (mkMargin f1 f1 f0 f2); mkSwapDoc "USD/KRW" "1M" (mkMargin f2 f2 f0 f0)] [] [] [] [].

Lemma ApplySwapToDoc_effective_witness :
  swap_of (ApplySwapToDoc ex_swap_doc "USD/KRW" [mkSwapUpdate "USD/KRW" "1W" f2 f2] false) "USD/KRW" "1W" =
  Some (mkMargin f2 f2 f0 f2).
Proof.
  refine (eq_trans (proj1 (ApplySwapToDoc_effective ex_swap_doc "USD/KRW" (mkSwapUpdate "USD/KRW" "1W" f2 f2)
    "USD/KRW" "1W" _)) _).
  - apply (bool_decide_unpack (NoDup (map sd_key (d_SwapPoint ex_swap_doc)))). vm_compute. exact I.
  - vm_compute. reflexivity.
Defined.

(** With two entries for the same (pair, tenor), which a document may hold,
    an update is lost: it rewrites the first entry while the table takes the
    last one, so the built swap point does not change. *)
Theorem ApplySwapToDoc_lost_on_duplicate :
  exists doc up, Validate doc = [] /\
    swap_of (ApplySwapToDoc doc "USD/KRW" [up] false) "USD/KRW" (u_Tenor up) = swap_of doc "USD/KRW" (u_Tenor up) /\
    swap_of doc "USD/KRW" (u_Tenor up) <> Some (updated (swap_of doc "USD/KRW" (u_Tenor up)) (u_Bid up) (u_Ask up)).
Proof.
  exists (mkDoc 1 [] [mkSwapDoc "USD/KRW" "1W" (mkMargin f1 f1 f0 f0); mkSwapDoc "USD/KRW" "1W" (mkMargin f1 f1 f0 f0)]
            [] [] [] []), (mkSwapUpdate "USD/KRW" "1W" f2 f2).
  split; [reflexivity|]. split; [vm_compute; reflexivity|]. vm_compute. discriminate.
Qed.

(** Clearing a pair removes all its swap points and no other. *)
Theorem ApplySwapToDoc_clear doc pair ups p t :
  swap_of (ApplySwapToDoc doc pair ups true) p t = if decide (p = pair) then None else swap_of doc p t.
Proof.
  rewrite !swap_of_find. simpl.
  assert (forall (f g : SwapEntryDoc -> bool) l, rev (List.filter g l) = List.filter g (rev l)) as Rf.
  { intros _ g l. induction l as [|x l IH]; simpl; [done|]. rewrite List.filter_app. simpl.
    destruct (g x); simpl; rewrite IH; [done|]. by rewrite app_nil_r. }
  rewrite (Rf (fun _ => true)). destruct (decide (p = pair)) as [->|Hne].
  - destruct (List.find _ _) as [e|] eqn:F; [|done]. exfalso. apply find_some in F as [Hin Hk].
    apply filter_In in Hin as [_ N]. apply bool_decide_eq_true in Hk. injection Hk as Hp _.
    by rewrite bool_decide_eq_true_2 in N.
  - f_equal. induction (rev (d_SwapPoint doc)) as [|x l IH]; simpl; [done|].
    destruct (decide (sd_Pair x = pair)) as [Hx|Hx].
    + rewrite bool_decide_eq_true_2 by done. simpl. rewrite IH.
      rewrite (bool_decide_eq_false_2 ((sd_Pair x, sd_Tenor x) = (p, t))); [done|]. congruence.
    + rewrite bool_decide_eq_false_2 by done. simpl. by rewrite IH.
Qed.
