(* ===== verification/Ring.v ===== *)
(** The per-pair tick history (src/pkg/quote/ring.go): a circular buffer of the
    most recent ticks of every currency pair, with the log of all the ticks added
    as its specification. *)

From Stdlib Require Import ZArith Lia.
From S2P Require Import Prelude Float64 Dates Pricing.
Local Open Scope Z_scope.

(** * The buffer

    [next] is the next index to write, [full] says whether the ring has wrapped. *)
Record pairRing := mkRing { data : list Quote; next : Z; full : bool }.
Record RingBuffer := mkRB { capPerPair : Z; pairs : gmap string pairRing }.

(** The zero value of [Quote]; its timestamp is the zero [time.Time]. *)
Definition zero_quote : Quote := mkQuote "" f0 f0 (mkTime (- (62135596800 * ns_per_sec)) 0) f0 f0.

Definition NewRingBuffer (cap : Z) : res unit RingBuffer :=
  if cap <=? 0 then Panic else Ok (mkRB cap ∅).

Definition getOrCreate (r : RingBuffer) (pair : string) : RingBuffer * pairRing :=
  match pairs r !! pair with
  | Some ring => (r, ring)
  | None =>
      let ring := mkRing (replicate (Z.to_nat (capPerPair r)) zero_quote) 0 false in
      (mkRB (capPerPair r) (<[pair := ring]> (pairs r)), ring)
  end.

(** The part of [Add] under the ring's lock; the write panics out of range. *)
Definition ring_add (cap : Z) (ring : pairRing) (q : Quote) : res unit pairRing :=
  if (0 <=? next ring) && (next ring <? zlen (data ring)) then
    let d := <[Z.to_nat (next ring) := q]> (data ring) in
    let n := next ring + 1 in
    Ok (if cap <=? n then mkRing d 0 true else mkRing d n (full ring))
  else Panic.

Definition Add (r : RingBuffer) (q : Quote) : res unit RingBuffer :=
  let '(r, ring) := getOrCreate r (q_Pair q) in
  ring ← ring_add (capPerPair r) ring q;
  mret (mkRB (capPerPair r) (<[q_Pair q := ring]> (pairs r))).

Definition ring_have (cap : Z) (ring : pairRing) : Z := if full ring then cap else next ring.

(** The part of [Snapshot] under the ring's lock. *)
Definition ring_snapshot (cap : Z) (ring : pairRing) (max : Z) : res unit (list Quote) :=
  let n := ring_have cap ring in
  let max := if (max <=? 0) || (n <? max) then n else max in
  if max =? 0 then Ok [] else
  let out := replicate (Z.to_nat max) zero_quote in
  if negb (full ring) then
    s ← slice (next ring - max) (next ring) (data ring);
    Ok (blit 0 s out)
  else
    let start := Z.rem (next ring - max + cap) cap in
    if start + max <=? cap then
      s ← slice start (start + max) (data ring);
      Ok (blit 0 s out)
    else
      let first := cap - start in
      s1 ← slice start (zlen (data ring)) (data ring);
      s2 ← slice 0 (max - first) (data ring);
      Ok (blit (Z.to_nat first) s2 (blit 0 s1 out)).

Definition Snapshot (r : RingBuffer) (pair : string) (max : Z) : res unit (list Quote) :=
  match pairs r !! pair with
  | None => Ok []
  | Some ring => ring_snapshot (capPerPair r) ring max
  end.

Definition Size (r : RingBuffer) (pair : string) : Z :=
  match pairs r !! pair with None => 0 | Some ring => ring_have (capPerPair r) ring end.

Definition Pairs (r : RingBuffer) : list string := (map_to_list (pairs r)).*1.

(** A writer that adds the ticks of a feed one by one. *)
Fixpoint add_all (r : RingBuffer) (qs : list Quote) : res unit RingBuffer :=
  match qs with [] => Ok r | q :: qs => r ← Add r q; add_all r qs end.

(** * Specification: the log *)

(** The last [n] elements of a log. *)
Definition last_n {A} (n : nat) (l : list A) : list A := drop (length l - n) l.

(** The ticks of a pair in a log, oldest first. *)
Definition of_pair (pair : string) (log : list Quote) : list Quote :=
  filter (fun q => q_Pair q = pair) log.

(** What a reader may ask for: at most [max] ticks, everything when [max <= 0]. *)
Definition asked (max : Z) (avail : nat) : nat :=
  if max <=? 0 then avail else Nat.min (Z.to_nat max) avail.

(** A ring holds the last [cap] ticks of the log of its pair, in the order of the
    unrolled ring. *)
Definition holds (cap : Z) (ring : pairRing) (log : list Quote) : Prop :=
  0 <= next ring < cap /\ zlen (data ring) = cap /\
  if full ring
  then (Z.to_nat cap <= length log)%nat /\
       drop (Z.to_nat (next ring)) (data ring) ++ take (Z.to_nat (next ring)) (data ring)
         = last_n (Z.to_nat cap) log
  else take (Z.to_nat (next ring)) (data ring) = log.

Definition rb_holds (r : RingBuffer) (log : list Quote) : Prop :=
  0 < capPerPair r /\
  forall pair, match pairs r !! pair with
  | None => of_pair pair log = []
  | Some ring => of_pair pair log <> [] /\ holds (capPerPair r) ring (of_pair pair log)
  end.

(** * Correctness *)

Lemma last_n_all {A} n (l : list A) : (length l <= n)%nat -> last_n n l = l.
Proof. intros. unfold last_n. by replace (length l - n)%nat with 0%nat by lia. Qed.

Lemma last_n_length {A} n (l : list A) : length (last_n n l) = Nat.min n (length l).
Proof. unfold last_n. rewrite length_drop. lia. Qed.

Lemma last_n_snoc {A} n (l : list A) x :
  (0 < n <= length l)%nat -> last_n n (l ++ [x]) = drop 1 (last_n n l) ++ [x].
Proof.
  intros. unfold last_n. rewrite length_app, drop_drop. simpl.
  replace (length l + 1 - n)%nat with (length l - n + 1)%nat by lia.
  by rewrite drop_app_le by lia.
Qed.

Lemma last_n_last_n {A} n m (l : list A) : (n <= m)%nat -> last_n n (last_n m l) = last_n n l.
Proof.
  intros. unfold last_n. rewrite drop_drop, length_drop. f_equal. lia.
Qed.

Lemma last_n_app {A} n (l1 l2 : list A) :
  last_n n (l1 ++ l2) = last_n (n - length l2) l1 ++ last_n n l2.
Proof.
  unfold last_n. rewrite length_app, drop_app.
  replace (length l1 + length l2 - n - length l1)%nat with (length l2 - n)%nat by lia.
  f_equal. destruct (decide (n <= length l2)%nat); [by rewrite !drop_ge by lia|].
  f_equal. lia.
Qed.

Lemma ring_add_holds cap ring log q :
  holds cap ring log ->
  exists ring', ring_add cap ring q = Ok ring' /\ holds cap ring' (log ++ [q]).
Proof.
  intros (Hn & Hd & Hf). unfold ring_add.
  rewrite (proj2 (Z.leb_le _ _)), (proj2 (Z.ltb_lt _ _)) by lia. simpl.
  eexists; split; [done|]. set (k := Z.to_nat (next ring)) in *.
  assert (k < length (data ring))%nat as Hk by lia.
  assert (<[k := q]> (data ring) = take k (data ring) ++ [q] ++ drop (S k) (data ring)) as Hi
    by (by apply insert_take_drop).
  assert (length (take k (data ring)) = k) as Lt by (rewrite length_take; lia).
  destruct (lookup_lt_is_Some_2 _ _ Hk) as [y Hy]. pose proof (drop_S _ _ _ Hy) as Dk.
  destruct (Z.leb_spec cap (next ring + 1)) as [C|C].
  - assert (drop (S k) (data ring) = []) as Z0 by (apply drop_ge; lia).
    rewrite Z0 in Hi, Dk. unfold holds; simpl. rewrite length_insert.
    split; [lia|split; [lia|]]. rewrite take_0, drop_0, app_nil_r, Hi.
    destruct (full ring).
    + destruct Hf as [L E]. split; [rewrite length_app; simpl; lia|].
      rewrite last_n_snoc, <-E, Dk by lia. done.
    + rewrite <-Hf, length_app, Lt; simpl. split; [lia|].
      rewrite last_n_all; [done|]. rewrite length_app, Lt. simpl. lia.
  - unfold holds; simpl. rewrite length_insert. split; [lia|split; [lia|]].
    replace (Z.to_nat (next ring + 1)) with (k + 1)%nat by lia. rewrite Hi.
    replace (k + 1)%nat with (length (take k (data ring) ++ [q])) by (rewrite length_app, Lt; done).
    rewrite app_assoc, take_app_length, drop_app_length. destruct (full ring).
    + destruct Hf as [L E]. split; [rewrite length_app; simpl; lia|].
      rewrite last_n_snoc, <-E, Dk by lia. simpl. rewrite drop_0. by rewrite app_assoc.
    + by rewrite Hf.
Qed.

Lemma ring_have_holds cap ring log :
  holds cap ring log -> ring_have cap ring = Z.min cap (zlen log).
Proof.
  unfold holds, ring_have. intros (Hn & Hd & Hf). destruct (full ring); [lia|].
  rewrite <-Hf, length_take. lia.
Qed.

(** The unrolled ring, seen through the slice arithmetic of the code. *)
Lemma unrolled_slices cap k m (d : list Quote) :
  (length d = cap)%nat -> (k < cap)%nat -> (0 < m <= cap)%nat ->
  last_n m (drop k d ++ take k d) =
    if (m <=? k)%nat then sub (k - m) m d
    else drop (k + cap - m) d ++ take k d.
Proof.
  intros Hd Hk Hm. rewrite last_n_app, length_take.
  destruct (Nat.leb_spec m k) as [L|L].
  - replace (m - k `min` length d)%nat with 0%nat by lia.
    unfold last_n at 1. rewrite drop_ge by lia. unfold last_n, sub. simpl.
    rewrite length_take, take_drop_commute. f_equal; [lia|]. f_equal. lia.
  - rewrite (last_n_all m) by (rewrite length_take; lia).
    unfold last_n. rewrite drop_drop, length_drop. f_equal. f_equal. lia.
Qed.

Lemma blit_replicate (s : list Quote) n :
  length s = n -> blit 0 s (replicate n zero_quote) = s.
Proof. intros. apply blit_full. by rewrite length_replicate. Qed.

Lemma blit_two (s1 s2 : list Quote) n :
  (length s1 + length s2)%nat = n ->
  blit (length s1) s2 (blit 0 s1 (replicate n zero_quote)) = s1 ++ s2.
Proof.
  intros <-. set (l := blit 0 s1 _).
  assert (length l = length s1 + length s2)%nat as Ll by (unfold l; rewrite blit_length, length_replicate; done).
  rewrite <-(sub_0_full (length s1 + length s2) (blit (length s1) s2 l)) by (rewrite blit_length; lia).
  rewrite <-(sub_0_full (length s1 + length s2) (s1 ++ s2)) by (rewrite length_app; lia).
  apply sub_split_eq.
  - rewrite sub_blit_ne by lia. unfold l. rewrite sub_blit_same by (rewrite ?length_replicate; lia).
    unfold sub. by rewrite drop_0, take_app_length.
  - simpl. rewrite sub_blit_same by lia. unfold sub. rewrite drop_app_length. by rewrite take_ge.
Qed.

(** The two read paths of the code: before the ring has wrapped, and after. *)
Lemma read_unwrapped (k m : Z) (d : list Quote) :
  0 < m <= k -> k <= zlen d ->
  (s ← slice (k - m) k d; Ok (blit 0 s (replicate (Z.to_nat m) zero_quote)) : res unit (list Quote))
  = Ok (last_n (Z.to_nat m) (take (Z.to_nat k) d)).
Proof.
  intros Hm Hk. rewrite slice_ok by lia. simpl. rewrite blit_replicate by (rewrite sub_length; lia).
  f_equal. unfold last_n, sub. rewrite length_take, take_drop_commute. f_equal; [lia|]. f_equal. lia.
Qed.

Lemma read_wrapped (cap k m : Z) (d : list Quote) :
  zlen d = cap -> 0 <= k < cap -> 0 < m <= cap ->
  (let out := replicate (Z.to_nat m) zero_quote in
   let start := Z.rem (k - m + cap) cap in
   if start + m <=? cap then s ← slice start (start + m) d; Ok (blit 0 s out)
   else let first := cap - start in
        s1 ← slice start (zlen d) d;
        s2 ← slice 0 (m - first) d;
        Ok (blit (Z.to_nat first) s2 (blit 0 s1 out)) : res unit (list Quote))
  = Ok (last_n (Z.to_nat m) (drop (Z.to_nat k) d ++ take (Z.to_nat k) d)).
Proof.
  intros Hd Hk Hm. rewrite (unrolled_slices (Z.to_nat cap)) by lia. cbv zeta.
  destruct (Nat.leb_spec (Z.to_nat m) (Z.to_nat k)) as [C|C].
  - assert (Z.rem (k - m + cap) cap = k - m) as ->.
    { rewrite Z.rem_mod_nonneg by lia. rewrite <-(Z.mul_1_l cap) at 1.
      rewrite Z_mod_plus_full. apply Z.mod_small. lia. }
    rewrite (proj2 (Z.leb_le _ _)) by lia. rewrite slice_ok by lia. simpl.
    replace (Z.to_nat (k - m + m - (k - m))) with (Z.to_nat m) by lia.
    replace (Z.to_nat (k - m)) with (Z.to_nat k - Z.to_nat m)%nat by lia.
    by rewrite blit_replicate by (apply sub_length; lia).
  - rewrite (Z.rem_small (k - m + cap)) by lia. set (start := k - m + cap).
    replace (Z.to_nat k + Z.to_nat cap - Z.to_nat m)%nat with (Z.to_nat start) by lia.
    destruct (Z.leb_spec (start + m) cap) as [C2|C2].
    + replace (Z.to_nat k) with 0%nat by lia. rewrite take_0, app_nil_r.
      rewrite slice_ok by lia. simpl. rewrite blit_replicate by (rewrite sub_length; lia).
      unfold sub. by rewrite take_ge by (rewrite length_drop; lia).
    + rewrite !slice_ok by lia. simpl.
      assert (sub (Z.to_nat start) (Z.to_nat (zlen d - start)) d = drop (Z.to_nat start) d) as ->
        by (unfold sub; apply take_ge; rewrite length_drop; lia).
      replace (Z.to_nat (m - (cap - start) - 0)) with (Z.to_nat k) by lia. unfold sub. rewrite drop_0.
      replace (Z.to_nat (cap - start)) with (length (drop (Z.to_nat start) d)) by (rewrite length_drop; lia).
      by rewrite blit_two by (rewrite length_drop, length_take; lia).
Qed.

Lemma ring_snapshot_holds cap ring log max :
  holds cap ring log ->
  ring_snapshot cap ring max = Ok (last_n (asked max (Nat.min (Z.to_nat cap) (length log))) log).
Proof.
  intros H. pose proof (ring_have_holds _ _ _ H) as Hh. destruct H as (Hn & Hd & Hf).
  unfold ring_snapshot. rewrite Hh. cbv zeta.
  set (m := if (max <=? 0) || _ then _ else _).
  assert (asked max (Z.to_nat cap `min` length log) = Z.to_nat m /\ 0 <= m <= Z.min cap (zlen log)) as [-> Hm].
  { unfold asked, m. destruct (Z.leb_spec max 0); simpl; [lia|].
    destruct (Z.ltb_spec (Z.min cap (zlen log)) max); lia. }
  clearbody m. destruct (Z.eqb_spec m 0) as [->|Hz].
  { simpl. unfold last_n. by rewrite drop_ge by lia. }
  destruct (full ring); simpl negb; cbv iota.
  - destruct Hf as [L E]. rewrite <-(last_n_last_n _ (Z.to_nat cap)), <-E by lia. apply read_wrapped; lia.
  - assert (zlen log = next ring) by (rewrite <-Hf, length_take; lia).
    rewrite read_unwrapped by lia. by rewrite Hf.
Qed.

Lemma of_pair_snoc pair log q :
  of_pair pair (log ++ [q]) = of_pair pair log ++ (if decide (q_Pair q = pair) then [q] else []).
Proof. unfold of_pair. rewrite filter_app. f_equal. Qed.

Lemma new_ring_holds cap : 0 < cap -> holds cap (mkRing (replicate (Z.to_nat cap) zero_quote) 0 false) [].
Proof. intros. unfold holds; simpl. rewrite length_replicate. repeat split; lia. Qed.

Lemma Add_holds r log q : rb_holds r log -> exists r', Add r q = Ok r' /\ capPerPair r' = capPerPair r /\ rb_holds r' (log ++ [q]).
Proof.
  intros [Hc H]. pose proof (H (q_Pair q)) as Hq. unfold Add, getOrCreate.
  assert (exists ring, (match pairs r !! q_Pair q with Some ring => ring | None =>
     mkRing (replicate (Z.to_nat (capPerPair r)) zero_quote) 0 false end) = ring /\
     holds (capPerPair r) ring (of_pair (q_Pair q) log)) as (ring & Er & Hr).
  { destruct (pairs r !! q_Pair q); [destruct Hq; eauto|]. rewrite Hq.
    eexists; split; [done|]. by apply new_ring_holds. }
  destruct (ring_add_holds _ _ _ q Hr) as (ring' & Ea & Hr').
  exists (mkRB (capPerPair r) (<[q_Pair q := ring']> (pairs r))).
  split; [|split; [done|split; [done|]]].
  - destruct (pairs r !! q_Pair q); simpl; subst ring; rewrite Ea; simpl; [done|].
    by rewrite insert_insert_eq.
  - intros pair. simpl. rewrite of_pair_snoc. destruct (decide (q_Pair q = pair)) as [<-|N].
    + rewrite lookup_insert_eq. split; [by destruct (of_pair _ log)|done].
    + rewrite lookup_insert_ne, app_nil_r by done. apply H.
Qed.

Lemma add_all_holds r log qs :
  rb_holds r log -> exists r', add_all r qs = Ok r' /\ capPerPair r' = capPerPair r /\ rb_holds r' (log ++ qs).
Proof.
  revert r log. induction qs as [|q qs IH]; intros r log H; simpl.
  - exists r. by rewrite app_nil_r.
  - destruct (Add_holds r log q H) as (r1 & -> & C & H1). simpl.
    destruct (IH _ _ H1) as (r2 & -> & C2 & H2). exists r2.
    split; [done|]. split; [congruence|]. by rewrite <-app_assoc in H2.
Qed.

Lemma NewRingBuffer_holds cap : 0 < cap -> exists r, NewRingBuffer cap = Ok r /\ capPerPair r = cap /\ rb_holds r [].
Proof.
  intros. unfold NewRingBuffer. rewrite (proj2 (Z.leb_gt _ _)) by done.
  eexists; split; [done|]. split; [done|]. split; [done|]. intros pair. simpl. by rewrite lookup_empty.
Qed.

Lemma Snapshot_holds r log pair max :
  rb_holds r log ->
  Snapshot r pair max =
    Ok (last_n (asked max (Nat.min (Z.to_nat (capPerPair r)) (length (of_pair pair log)))) (of_pair pair log)).
Proof.
  intros [Hc H]. unfold Snapshot. specialize (H pair). destruct (pairs r !! pair).
  - apply ring_snapshot_holds, H.
  - rewrite H. unfold last_n. by rewrite drop_nil.
Qed.

Lemma Size_holds r log pair :
  rb_holds r log -> Size r pair = Z.min (capPerPair r) (zlen (of_pair pair log)).
Proof.
  intros [Hc H]. unfold Size. specialize (H pair). destruct (pairs r !! pair).
  - apply ring_have_holds, H.
  - rewrite H. simpl. lia.
Qed.

(** After any sequence of additions to a new buffer of positive capacity, none
    of which panics, a snapshot of a pair is exactly the most recent ticks of that
    pair in the order they were added: as many as the reader asks for (all when it
    asks for none), bounded by the capacity and by what was added; [Size] is the
    number of ticks kept. The wrap-around slices of the code are thereby the log. *)
Theorem ring_refines_log (cap : Z) (qs : list Quote) (pair : string) (max : Z) :
  0 < cap ->
  exists r0 r, NewRingBuffer cap = Ok r0 /\ add_all r0 qs = Ok r /\
    (let log := of_pair pair qs in
     let kept := Nat.min (Z.to_nat cap) (length log) in
     Snapshot r pair max = Ok (last_n (asked max kept) log) /\ Size r pair = Z.of_nat kept).
Proof.
  intros Hc. destruct (NewRingBuffer_holds cap Hc) as (r0 & E0 & C0 & H0).
  destruct (add_all_holds r0 [] qs H0) as (r & E & C & H). exists r0, r.
  split; [done|split; [done|]]. simpl in *.
  rewrite (Snapshot_holds _ _ _ _ H), (Size_holds _ _ _ H), C, C0. split; [done|lia].
Qed.

Definition tick (pair : string) (n : Z) : Quote := mkQuote pair (f_of_Z n) (f_of_Z n) (mkTime n 0) f0 f0.

Lemma ring_refines_log_witness :
  exists r0 r, NewRingBuffer 3 = Ok r0 /\
    add_all r0 [tick "EUR/USD" 1; tick "USD/KRW" 2; tick "USD/KRW" 3; tick "USD/KRW" 4; tick "USD/KRW" 5] = Ok r /\
    (let log := [tick "USD/KRW" 2; tick "USD/KRW" 3; tick "USD/KRW" 4; tick "USD/KRW" 5] in
     Snapshot r "USD/KRW" 2 = Ok (last_n 2 log) /\ Size r "USD/KRW" = 3).
Proof.
  exact (ring_refines_log 3 [tick "EUR/USD" 1; tick "USD/KRW" 2; tick "USD/KRW" 3; tick "USD/KRW" 4; tick "USD/KRW" 5]
    "USD/KRW" 2 ltac:(lia)).
Defined.

(** A full ring read across the wrap. *)
Example ring_wrap : exists r0 r, NewRingBuffer 3 = Ok r0 /\
  add_all r0 (map (tick "P") [1; 2; 3; 4]) = Ok r /\
  Snapshot r "P" 0 = Ok (map (tick "P") [2; 3; 4]).
Proof. do 2 eexists. split; [reflexivity|]. split; vm_compute; reflexivity. Qed.
