(* ===== verification/Bars.v ===== *)
(** OHLC bars: src/pkg/quote/bar.go, the symbol map src/pkg/quote/symbolmap.go and
    the aggregator src/internal/price/aggregator.go that turns a tick stream into
    bars for every (pair, timeframe). *)

From Stdlib Require Import ZArith Lia.
From S2P Require Import Prelude Float64 Dates Pricing.
Local Open Scope Z_scope.
Local Open Scope wtg_scope.

(** * Timeframes and bars (src/pkg/quote/bar.go) *)

Definition Timeframe : Type := string.
Definition TF1s : Timeframe := "1s".
Definition TF30s : Timeframe := "30s".
Definition TF1m : Timeframe := "1m".
Definition TF5m : Timeframe := "5m".
Definition TF15m : Timeframe := "15m".
Definition TF1h : Timeframe := "1h".
Definition TF4h : Timeframe := "4h".
Definition TF1d : Timeframe := "1d".

Definition AllTimeframes : list Timeframe := [TF1s; TF30s; TF1m; TF5m; TF15m; TF1h; TF4h; TF1d].
Definition PersistentTimeframes : list Timeframe := [TF1m; TF5m; TF15m; TF1h; TF4h; TF1d].

(** Nanoseconds, as [time.Duration]. *)
Definition Duration (t : Timeframe) : Z :=
  if decide (t = TF1s) then ns_per_sec
  else if decide (t = TF30s) then 30 * ns_per_sec
  else if decide (t = TF1m) then 60 * ns_per_sec
  else if decide (t = TF5m) then 5 * (60 * ns_per_sec)
  else if decide (t = TF15m) then 15 * (60 * ns_per_sec)
  else if decide (t = TF1h) then 3600 * ns_per_sec
  else if decide (t = TF4h) then 4 * (3600 * ns_per_sec)
  else if decide (t = TF1d) then 24 * (3600 * ns_per_sec)
  else 0.

Definition Persistent (t : Timeframe) : bool :=
  if bool_decide (t = TF1s) || bool_decide (t = TF30s) then false else 0 <? Duration t.

Definition tf_Validate (t : Timeframe) : bool := negb (Duration t <=? 0).

Definition UTC (t : Time) : Time := mkTime (t_ns t) 0.
Definition Add_ (t : Time) (d : Z) : Time := mkTime (t_ns t + d) (t_off t).
(** The zero [time.Time], 0001-01-01 00:00 UTC. *)
Definition zero_ns : Z := - (62135596800 * ns_per_sec).
Definition zero_time : Time := mkTime zero_ns 0.

(** [time.Truncate]: down to a multiple of [d] since the zero time. *)
Definition Truncate (t : Time) (d : Z) : Time :=
  if d <=? 0 then t else mkTime (t_ns t - (t_ns t - zero_ns) mod d) (t_off t).

Definition BucketStart (tf : Timeframe) (ts : Time) : Time :=
  let d := Duration tf in if d <=? 0 then UTC ts else Truncate (UTC ts) d.

Record Bar := mkBar {
  b_Pair : string; b_TF : Timeframe; OpenedAt : Time; ClosedAt : Time;
  OpenBid : f64; OpenAsk : f64; HighBid : f64; HighAsk : f64;
  LowBid : f64; LowAsk : f64; CloseBid : f64; CloseAsk : f64; TickCount : Z }.

Definition NewBar (tf : Timeframe) (first : Quote) : Bar :=
  {| b_Pair := q_Pair first; b_TF := tf; OpenedAt := BucketStart tf (q_TS first); ClosedAt := zero_time;
     OpenBid := q_Bid first; OpenAsk := q_Ask first; HighBid := q_Bid first; HighAsk := q_Ask first;
     LowBid := q_Bid first; LowAsk := q_Ask first; CloseBid := q_Bid first; CloseAsk := q_Ask first;
     TickCount := 1 |}.

(** [x > y] in Go is [y < x]. *)
Definition Update (b : Bar) (q : Quote) : Bar :=
  {| b_Pair := b_Pair b; b_TF := b_TF b; OpenedAt := OpenedAt b; ClosedAt := ClosedAt b;
     OpenBid := OpenBid b; OpenAsk := OpenAsk b;
     HighBid := if HighBid b <f q_Bid q then q_Bid q else HighBid b;
     HighAsk := if HighAsk b <f q_Ask q then q_Ask q else HighAsk b;
     LowBid := if q_Bid q <f LowBid b then q_Bid q else LowBid b;
     LowAsk := if q_Ask q <f LowAsk b then q_Ask q else LowAsk b;
     CloseBid := q_Bid q; CloseAsk := q_Ask q;
     TickCount := wrap64 (TickCount b + 1) |}.

Definition Close (b : Bar) : Bar :=
  {| b_Pair := b_Pair b; b_TF := b_TF b; OpenedAt := OpenedAt b;
     ClosedAt := Add_ (OpenedAt b) (Duration (b_TF b));
     OpenBid := OpenBid b; OpenAsk := OpenAsk b; HighBid := HighBid b; HighAsk := HighAsk b;
     LowBid := LowBid b; LowAsk := LowAsk b; CloseBid := CloseBid b; CloseAsk := CloseAsk b;
     TickCount := TickCount b |}.

Definition Contains (b : Bar) (ts : Time) : bool :=
  let end_ := Add_ (OpenedAt b) (Duration (b_TF b)) in
  let utc := UTC ts in
  negb (Before utc (OpenedAt b)) && Before utc end_.

(** * Symbols (src/pkg/quote/symbolmap.go) *)

Record SymbolEntry := mkSymbol { s_Symbol : string; s_Pair : string; s_Active : bool }.
Record symbolMapData := mkSymbolMap { bySymbol : gmap string SymbolEntry; byPair : gmap string string }.

Definition SymbolMap_Replace (entries : list SymbolEntry) : symbolMapData :=
  fold_left (fun d e => mkSymbolMap (<[s_Symbol e := e]> (bySymbol d)) (<[s_Pair e := s_Symbol e]> (byPair d)))
    entries (mkSymbolMap ∅ ∅).

(** (pair, active, found) *)
Definition SymbolMap_Lookup (d : symbolMapData) (symbol : string) : string * bool * bool :=
  match bySymbol d !! symbol with
  | None => ("", false, false)
  | Some e => (s_Pair e, s_Active e, true)
  end.

Definition Reverse (d : symbolMapData) (pair : string) : string * bool :=
  match byPair d !! pair with None => ("", false) | Some s => (s, true) end.

(** * The aggregator (src/internal/price/aggregator.go) *)

(** A decoded broker push (src/internal/price/decoder.go). *)
Record Tick := mkTick {
  tk_MarketID : Z; tk_Symbol : string; tk_SeqNum : Z; tk_Mask : Z; tk_Type : Z; tk_Flag : Z;
  tk_Body : list byte; tk_Received : Time; tk_Source : string }.

Definition barKey : Type := string * Timeframe.

(** The body decoder is injected by the caller (nil allowed). [closed] is the
    sequence of bars [onClose] was called with. *)
Record Aggregator := mkAgg {
  symbols : symbolMapData;
  decoder : option (list byte -> option (f64 * f64));
  bars : gmap barKey Bar;
  closed : list Bar }.

Definition NewAggregator (symbols : symbolMapData) (decoder : option (list byte -> option (f64 * f64))) : Aggregator :=
  mkAgg symbols decoder ∅ [].

Definition set_bars (a : Aggregator) (bs : gmap barKey Bar) (cl : list Bar) : Aggregator :=
  mkAgg (symbols a) (decoder a) bs cl.

Definition applyTo (a : Aggregator) (tf : Timeframe) (q : Quote) : Aggregator :=
  let key : barKey := (q_Pair q, tf) in
  match bars a !! key with
  | None => set_bars a (<[key := NewBar tf q]> (bars a)) (closed a)
  | Some cur =>
      if Contains cur (q_TS q) then set_bars a (<[key := Update cur q]> (bars a)) (closed a)
      else set_bars a (<[key := NewBar tf q]> (bars a)) (closed a ++ [Close cur])
  end.

(** The guards of [OnTick]: the quote to aggregate, or a dropped tick. *)
Definition tick_quote (a : Aggregator) (t : Tick) : option Quote :=
  dec ← decoder a;
  let '(p, active, found) := SymbolMap_Lookup (symbols a) (tk_Symbol t) in
  if negb found || negb active then None
  else '(bid, ask) ← dec (tk_Body t);
       Some (mkQuote p bid ask (tk_Received t) f0 f0).

Definition OnTick (a : Aggregator) (t : Tick) : Aggregator :=
  match tick_quote a t with
  | None => a
  | Some q => fold_left (fun a tf => applyTo a tf q) AllTimeframes a
  end.

Definition sweep_key (now : Time) (a : Aggregator) (k : barKey) : Aggregator :=
  match bars a !! k with
  | None => a
  | Some b =>
      if negb (Before (UTC now) (Add_ (OpenedAt b) (Duration (b_TF b))))
      then set_bars a (delete k (bars a)) (closed a ++ [Close b])
      else a
  end.

(** The range over the map visits its keys in an order the runtime chooses:
    [order] is that order. *)
Definition Sweep (a : Aggregator) (now : Time) (order : list barKey) : Aggregator :=
  fold_left (sweep_key now) order a.

(** The calls made on an aggregator, and a run. *)
Inductive event := EvTick (t : Tick) | EvSweep (now : Time) (order : list barKey).

Definition step (a : Aggregator) (e : event) : Aggregator :=
  match e with EvTick t => OnTick a t | EvSweep now order => Sweep a now order end.
Definition run (a : Aggregator) (es : list event) : Aggregator := fold_left step es a.
