(* ===== verification/BarLaws.v ===== *)
(** What the bars of Bars.v guarantee: bucket alignment, the open/high/low/close
    values, and that the aggregator's bars partition the tick stream. *)

From Stdlib Require Import ZArith Lia.
From S2P Require Import Prelude Sorting Float64 Dates Pricing Bars.
Local Open Scope Z_scope.
Local Open Scope wtg_scope.

(** * Buckets *)

Lemma Duration_pos tf : tf ∈ AllTimeframes -> 0 < Duration tf.
Proof.
  assert (Forall (fun tf => 0 < Duration tf) AllTimeframes) as F by (repeat constructor).
  rewrite Forall_forall in F. apply F.
Qed.

(** Every supported duration divides the distance from the zero time to the epoch. *)
Lemma zero_ns_aligned tf : tf ∈ AllTimeframes -> zero_ns mod Duration tf = 0.
Proof.
  assert (Forall (fun tf => zero_ns mod Duration tf = 0) AllTimeframes) as F by (repeat constructor).
  rewrite Forall_forall in F. apply F.
Qed.

Definition aligned (tf : Timeframe) (s : Time) : Prop := (t_ns s - zero_ns) mod Duration tf = 0 /\ t_off s = 0.

Lemma BucketStart_spec tf ts :
  0 < Duration tf ->
  let s := BucketStart tf ts in
  aligned tf s /\ t_ns s <= t_ns ts < t_ns s + Duration tf.
Proof.
  intros Hd. unfold aligned, BucketStart, Truncate. rewrite !(proj2 (Z.leb_gt (Duration tf) 0)) by done. simpl.
  pose proof (Z.mod_pos_bound (t_ns ts - zero_ns) (Duration tf) Hd).
  split; [split; [|done]|lia].
  pose proof (Z.div_mod (t_ns ts - zero_ns) (Duration tf) ltac:(lia)) as E.
  set (r := (t_ns ts - zero_ns) mod Duration tf) in *.
  replace (t_ns ts - r - zero_ns) with ((t_ns ts - zero_ns) / Duration tf * Duration tf) by lia.
  apply Z.mod_mul. lia.
Qed.

(** Two aligned starts are equal or a whole bucket apart. *)
Lemma aligned_apart tf s s' :
  0 < Duration tf -> aligned tf s -> aligned tf s' -> t_ns s < t_ns s' -> t_ns s + Duration tf <= t_ns s'.
Proof.
  intros Hd [A _] [B _] L. apply Z.mod_divide in A as [x A]; [|lia]. apply Z.mod_divide in B as [y B]; [|lia].
  assert (x < y) by nia. nia.
Qed.

Lemma BucketStart_unique tf s ts :
  0 < Duration tf -> aligned tf s -> t_ns s <= t_ns ts < t_ns s + Duration tf -> BucketStart tf ts = s.
Proof.
  intros Hd A L. destruct (BucketStart_spec tf ts Hd) as [B M]. set (s' := BucketStart tf ts) in *.
  assert (t_ns s' = t_ns s).
  { destruct (Z.lt_trichotomy (t_ns s) (t_ns s')) as [C|[C|C]]; [|done|].
    - pose proof (aligned_apart tf s s' Hd A B C). lia.
    - pose proof (aligned_apart tf s' s Hd B A C). lia. }
  destruct A as [_ A], B as [_ B], s, s'. simpl in *. congruence.
Qed.

Lemma Contains_spec b ts :
  Contains b ts = true <-> t_ns (OpenedAt b) <= t_ns ts < t_ns (OpenedAt b) + Duration (b_TF b).
Proof.
  unfold Contains, Before. simpl. rewrite andb_true_iff, negb_true_iff, Z.ltb_ge, Z.ltb_lt. done.
Qed.

Lemma Contains_bucket b ts :
  0 < Duration (b_TF b) -> aligned (b_TF b) (OpenedAt b) ->
  Contains b ts = true <-> BucketStart (b_TF b) ts = OpenedAt b.
Proof.
  intros Hd A. rewrite Contains_spec. split; [by apply BucketStart_unique|].
  intros <-. by apply BucketStart_spec.
Qed.

(** The bucket of an instant is the interval of the timeframe's length that
    contains it and starts at a multiple of that length since the Unix epoch, in
    UTC (the code truncates from the year 1: for the supported timeframes the two
    agree). The bucket starts of two instants are equal exactly when one bar can
    hold both, so the start identifies the bar. *)
Theorem bucket_canonical (tf : Timeframe) (q : Quote) (ts : Time) :
  tf ∈ AllTimeframes ->
  let s := BucketStart tf ts in
  t_ns s = Duration tf * (t_ns ts / Duration tf) /\ t_off s = 0 /\
  t_ns s <= t_ns ts < t_ns s + Duration tf /\
  (Contains (NewBar tf q) ts = true <-> BucketStart tf ts = BucketStart tf (q_TS q)).
Proof.
  intros Hin. pose proof (Duration_pos tf Hin) as Hd. pose proof (zero_ns_aligned tf Hin) as Z0.
  destruct (BucketStart_spec tf ts Hd) as [[A O] M]. cbv zeta.
  split; [|split; [done|split; [done|]]].
  - apply Z.mod_divide in A as [x A]; [|lia]. apply Z.mod_divide in Z0 as [y Z0]; [|lia].
    set (s := BucketStart tf ts) in *.
    assert (t_ns s = Duration tf * (x + y)) as -> by lia. f_equal.
    apply (Z.div_unique _ _ _ (t_ns ts - Duration tf * (x + y))); lia.
  - apply Contains_bucket; [done|]. by apply BucketStart_spec.
Qed.

Lemma bucket_canonical_witness :
  let q := mkQuote "USD/KRW" f1 f2 (mkTime 90000000000 0) f0 f0 in
  let ts := mkTime 119999999999 32400 in
  let s := BucketStart TF1m ts in
  t_ns s = Duration TF1m * (t_ns ts / Duration TF1m) /\ t_off s = 0 /\
  t_ns s <= t_ns ts < t_ns s + Duration TF1m /\
  (Contains (NewBar TF1m q) ts = true <-> BucketStart TF1m ts = BucketStart TF1m (q_TS q)).
Proof.
  cbv zeta. apply (bucket_canonical TF1m). vm_compute. do 2 constructor 2. constructor.
Defined.

(** * The values of a bar *)

(** The bar built from a non-empty sequence of ticks. *)
Definition bar_of (tf : Timeframe) (seg : list Quote) : option Bar :=
  match seg with [] => None | q :: qs => Some (fold_left Update qs (NewBar tf q)) end.

Definition priced (q : Quote) : Prop := q_Bid q <> NaN /\ q_Ask q <> NaN.

(** The invariant of a bar under construction. *)
Definition ohlc (b : Bar) (seg : list Quote) : Prop :=
  is_max (HighBid b) (map q_Bid seg) /\ is_min (LowBid b) (map q_Bid seg) /\
  is_max (HighAsk b) (map q_Ask seg) /\ is_min (LowAsk b) (map q_Ask seg).

Lemma in_not_nan (f : Quote -> f64) seg x :
  Forall (fun q => f q <> NaN) seg -> x ∈ map f seg -> x <> NaN.
Proof. intros H (q & -> & Hq)%list_elem_of_fmap. rewrite Forall_forall in H. by apply H. Qed.

Lemma Update_ohlc b seg q :
  Forall priced (seg ++ [q]) -> ohlc b seg -> ohlc (Update b q) (seg ++ [q]).
Proof.
  intros F (H1 & H2 & H3 & H4). apply Forall_app in F as [F Fq].
  assert (Forall (fun q => q_Bid q <> NaN) seg) as FB by (eapply Forall_impl; [exact F|]; by intros ? []).
  assert (Forall (fun q => q_Ask q <> NaN) seg) as FA by (eapply Forall_impl; [exact F|]; by intros ? []).
  apply Forall_cons in Fq as [[Nb Na] _]. unfold ohlc. rewrite !map_app.
  pose proof (in_not_nan q_Bid seg (HighBid b) FB (proj1 H1)).
  pose proof (in_not_nan q_Bid seg (LowBid b) FB (proj1 H2)).
  pose proof (in_not_nan q_Ask seg (HighAsk b) FA (proj1 H3)).
  pose proof (in_not_nan q_Ask seg (LowAsk b) FA (proj1 H4)).
  split; [|split; [|split]].
  - by apply is_max_step.
  - by apply is_min_step.
  - by apply is_max_step.
  - by apply is_min_step.
Qed.

Lemma fold_ohlc tf q qs : Forall priced (q :: qs) -> ohlc (fold_left Update qs (NewBar tf q)) (q :: qs).
Proof.
  induction qs as [|x qs IH] using rev_ind; intros F; simpl.
  - apply Forall_cons in F as [[? ?] _].
    repeat split; simpl; try (by apply list_elem_of_singleton);
      intros x ->%list_elem_of_singleton; by apply fleb_refl.
  - rewrite fold_left_app. simpl. apply (Update_ohlc _ (q :: qs)); [done|].
    apply IH. change (Forall priced ((q :: qs) ++ [x])) in F. by apply Forall_app in F as [? _].
Qed.

Lemma wrap64_succ n : wrap64 (wrap64 n + 1) = wrap64 (n + 1).
Proof.
  unfold wrap64. f_equal.
  replace ((n + 2 ^ 63) mod 2 ^ 64 - 2 ^ 63 + 1 + 2 ^ 63) with ((n + 2 ^ 63) mod 2 ^ 64 + 1) by lia.
  rewrite Zplus_mod_idemp_l. f_equal. lia.
Qed.

Lemma fold_ends tf q qs :
  let b := fold_left Update qs (NewBar tf q) in
  b_Pair b = q_Pair q /\ b_TF b = tf /\ OpenedAt b = BucketStart tf (q_TS q) /\
  OpenBid b = q_Bid q /\ OpenAsk b = q_Ask q /\
  CloseBid b = q_Bid (List.last qs q) /\ CloseAsk b = q_Ask (List.last qs q) /\
  TickCount b = wrap64 (zlen (q :: qs)).
Proof.
  induction qs as [|x qs IH] using rev_ind; simpl; [done|].
  rewrite fold_left_app, last_last, length_app. simpl.
  destruct IH as (A & B & C & D & E & F & G & H). repeat split; auto.
  rewrite H, wrap64_succ. f_equal. simpl. lia.
Qed.

(** The bar of a sequence of ticks: it opens with the first, closes with the
    last, its highs and lows are reached by some tick and bound every tick, on both
    sides; it counts the ticks and starts at the bucket of the first. *)
Theorem bar_is_ohlc (tf : Timeframe) (q : Quote) (qs : list Quote) :
  Forall priced (q :: qs) ->
  exists b, bar_of tf (q :: qs) = Some b /\
    is_max (HighBid b) (map q_Bid (q :: qs)) /\ is_min (LowBid b) (map q_Bid (q :: qs)) /\
    is_max (HighAsk b) (map q_Ask (q :: qs)) /\ is_min (LowAsk b) (map q_Ask (q :: qs)) /\
    b_Pair b = q_Pair q /\ OpenedAt b = BucketStart tf (q_TS q) /\
    OpenBid b = q_Bid q /\ OpenAsk b = q_Ask q /\
    CloseBid b = q_Bid (List.last qs q) /\ CloseAsk b = q_Ask (List.last qs q) /\
    TickCount b = wrap64 (zlen (q :: qs)).
Proof.
  intros F. eexists; split; [done|]. destruct (fold_ohlc tf q qs F) as (H1 & H2 & H3 & H4).
  destruct (fold_ends tf q qs) as (A & _ & B). done.
Qed.

Definition q_at (p : string) (bid ask ns : Z) : Quote := mkQuote p (f_of_Z bid) (f_of_Z ask) (mkTime ns 0) f0 f0.

Lemma bar_is_ohlc_witness :
  exists b, bar_of TF1s [q_at "P" 2 4 0; q_at "P" 3 3 5; q_at "P" 1 5 7] = Some b /\
    is_max (HighBid b) [f_of_Z 2; f_of_Z 3; f_of_Z 1] /\ CloseAsk b = f_of_Z 5 /\ TickCount b = 3.
Proof.
  destruct (bar_is_ohlc TF1s (q_at "P" 2 4 0) [q_at "P" 3 3 5; q_at "P" 1 5 7]) as (b & E & H1 & _ & _ & _ & _ & _ & _ & _ & _ & HA & HT).
  { repeat constructor; discriminate. }
  exists b. split; [exact E|]. split; [exact H1|]. split; [exact HA|]. rewrite HT. reflexivity.
Defined.

(** * The aggregator, one key at a time

    The bars of a key (pair, timeframe): the open bar and the closed ones. *)
Definition has_key (k : barKey) (b : Bar) : Prop := (b_Pair b, b_TF b) = k.
#[export] Instance has_key_dec k b : Decision (has_key k b).
Proof. unfold has_key. solve_decision. Defined.

Definition closed_of (a : Aggregator) (k : barKey) : list Bar := filter (has_key k) (closed a).
Definition view (a : Aggregator) (k : barKey) : option Bar * list Bar := (bars a !! k, closed_of a k).
Arguments view : simpl never.
Definition keyed (a : Aggregator) : Prop := forall k b, bars a !! k = Some b -> has_key k b.

Definition tick_view (tf : Timeframe) (q : Quote) (v : option Bar * list Bar) : option Bar * list Bar :=
  match v with
  | (None, cl) => (Some (NewBar tf q), cl)
  | (Some b, cl) => if Contains b (q_TS q) then (Some (Update b q), cl) else (Some (NewBar tf q), cl ++ [Close b])
  end.

Definition expired (now : Time) (b : Bar) : bool :=
  negb (Before (UTC now) (Add_ (OpenedAt b) (Duration (b_TF b)))).

Definition sweep_view (now : Time) (v : option Bar * list Bar) : option Bar * list Bar :=
  match v with
  | (Some b, cl) => if expired now b then (None, cl ++ [Close b]) else v
  | _ => v
  end.

Lemma filter_snoc k cl b :
  filter (has_key k) (cl ++ [b]) = filter (has_key k) cl ++ (if decide (has_key k b) then [b] else []).
Proof. rewrite filter_app. f_equal. Qed.

Lemma keyed_insert a k b cl : keyed a -> has_key k b -> keyed (set_bars a (<[k := b]> (bars a)) cl).
Proof. intros H Hb k' b'. simpl. rewrite lookup_insert_Some. intros [[<- <-]|[_ ?]]; auto. Qed.

Lemma has_key_Update k b q : has_key k b -> has_key k (Update b q).
Proof. done. Qed.
Lemma has_key_Close k b : has_key k b <-> has_key k (Close b).
Proof. done. Qed.

Lemma applyTo_view a tf q k :
  keyed a ->
  keyed (applyTo a tf q) /\
  view (applyTo a tf q) k = if decide (k = (q_Pair q, tf)) then tick_view tf q (view a k) else view a k.
Proof.
  intros K. unfold applyTo, view, closed_of. pose proof (K (q_Pair q, tf)) as Kc.
  destruct (bars a !! ((q_Pair q, tf) : barKey)) as [b|] eqn:Eb.
  - specialize (Kc b eq_refl). destruct (Contains b (q_TS q)) eqn:Ec; simpl.
    + split; [by apply keyed_insert|]. case_decide as D.
      * subst k. rewrite lookup_insert_eq, Eb. simpl. by rewrite Ec.
      * by rewrite lookup_insert_ne.
    + split; [by apply keyed_insert|]. rewrite filter_snoc. destruct (decide (k = (q_Pair q, tf))) as [D|D].
      * subst k. rewrite lookup_insert_eq, Eb. simpl. rewrite Ec. by rewrite decide_True.
      * rewrite lookup_insert_ne by done. rewrite decide_False, app_nil_r; [done|].
        intros H. apply D. unfold has_key in *. simpl in *. congruence.
  - split; [by apply keyed_insert|]. simpl. case_decide as D.
    + subst k. by rewrite lookup_insert_eq, Eb.
    + by rewrite lookup_insert_ne.
Qed.

Lemma applyTo_fold_view q tfs p tf a :
  NoDup tfs -> keyed a ->
  let a' := fold_left (fun a tf => applyTo a tf q) tfs a in
  keyed a' /\
  view a' (p, tf) = if decide (q_Pair q = p /\ tf ∈ tfs) then tick_view tf q (view a (p, tf)) else view a (p, tf).
Proof.
  intros N. revert a. induction N as [|t tfs Ht N IH]; intros a K; simpl.
  - split; [done|]. rewrite decide_False; [done|]. intros [_ H]. by apply elem_of_nil in H.
  - destruct (applyTo_view a t q (p, tf) K) as [K' E]. destruct (IH _ K') as [K2 E2].
    split; [done|]. rewrite E2, E. clear E2 E.
    destruct (decide (((p, tf) : barKey) = (q_Pair q, t))) as [D|D].
    + injection D as -> ->. rewrite (decide_False (P := _ /\ t ∈ tfs)) by tauto.
      rewrite decide_True; [done|]. split; [done|]. constructor.
    + apply decide_ext. rewrite elem_of_cons. split; [tauto|]. intros [<- [->|?]]; [|done].
      by destruct D.
Qed.

Lemma OnTick_view a t p tf :
  tf ∈ AllTimeframes -> keyed a ->
  keyed (OnTick a t) /\
  view (OnTick a t) (p, tf) =
    match tick_quote a t with
    | Some q => if decide (q_Pair q = p) then tick_view tf q (view a (p, tf)) else view a (p, tf)
    | None => view a (p, tf)
    end.
Proof.
  intros Htf K. unfold OnTick. destruct (tick_quote a t) as [q|]; [|done].
  assert (NoDup AllTimeframes) as N by (apply (bool_decide_unpack _); vm_compute; exact I).
  destruct (applyTo_fold_view q AllTimeframes p tf a N K) as [K' E]. split; [done|].
  cbv zeta in E. rewrite E. apply decide_ext. tauto.
Qed.

Lemma sweep_key_view now a k k' :
  keyed a ->
  keyed (sweep_key now a k') /\
  view (sweep_key now a k') k = if decide (k = k') then sweep_view now (view a k) else view a k.
Proof.
  intros K. unfold sweep_key, view, closed_of. destruct (bars a !! k') as [b|] eqn:Eb.
  - pose proof (K _ _ Eb) as Kb. change (negb _) with (expired now b). destruct (expired now b) eqn:Ee.
    + split. { intros k2 b2. simpl. rewrite lookup_delete_Some. intros [_ ?]. auto. }
      simpl. rewrite filter_snoc. destruct (decide (k = k')) as [D|D].
      * subst k. rewrite lookup_delete_eq, Eb. simpl. rewrite Ee. by rewrite decide_True.
      * rewrite lookup_delete_ne by done. rewrite decide_False, app_nil_r; [done|].
        intros H. apply D. unfold has_key in *. simpl in *. congruence.
    + split; [done|]. case_decide; [|done]. subst k. rewrite Eb. simpl. by rewrite Ee.
  - split; [done|]. case_decide; [|done]. subst k. by rewrite Eb.
Qed.

(** A property of a key's view that sweeping the key keeps survives a sweep. *)
Lemma Sweep_view (P : option Bar * list Bar -> Prop) now order a k :
  (forall v, P v -> P (sweep_view now v)) -> keyed a -> P (view a k) ->
  keyed (Sweep a now order) /\ P (view (Sweep a now order) k).
Proof.
  intros HP. unfold Sweep. revert a. induction order as [|k' order IH]; intros a K Ha; simpl; [done|].
  destruct (sweep_key_view now a k k' K) as [K' E]. apply IH; [done|]. rewrite E. case_decide; auto.
Qed.

Lemma applyTo_conf a tf q : symbols (applyTo a tf q) = symbols a /\ decoder (applyTo a tf q) = decoder a.
Proof. unfold applyTo. destruct (bars a !! _); [case_if|]; done. Qed.

Lemma step_conf a e : symbols (step a e) = symbols a /\ decoder (step a e) = decoder a.
Proof.
  destruct e as [t|now order]; simpl.
  - unfold OnTick. destruct (tick_quote a t) as [q|]; [|done].
    generalize AllTimeframes as tfs. intros tfs. revert a. induction tfs as [|tf tfs IH]; intros a; simpl; [done|].
    destruct (IH (applyTo a tf q)) as [-> ->]. apply applyTo_conf.
  - unfold Sweep. revert a. induction order as [|k order IH]; intros a; simpl; [done|].
    destruct (IH (sweep_key now a k)) as [-> ->]. unfold sweep_key.
    destruct (bars a !! k); [case_if|]; done.
Qed.

Lemma tick_quote_conf a a' t : symbols a' = symbols a -> decoder a' = decoder a -> tick_quote a' t = tick_quote a t.
Proof. unfold tick_quote. by intros -> ->. Qed.

(** ** The bars partition the ticks *)

(** The quotes a run accepted for a pair, in order. *)
Definition event_quote (a : Aggregator) (e : event) : option Quote :=
  match e with EvTick t => tick_quote a t | EvSweep _ _ => None end.
Definition accepted (a : Aggregator) (es : list event) (p : string) : list Quote :=
  filter (fun q => q_Pair q = p) (omap (event_quote a) es).

Definition one_bucket (tf : Timeframe) (seg : list Quote) : Prop :=
  exists s, Forall (fun q => BucketStart tf (q_TS q) = s) seg.

(** [log] splits into the closed segments and the current one. *)
Definition segmented (tf : Timeframe) (log : list Quote) (v : option Bar * list Bar) : Prop :=
  exists segs cur,
    log = concat segs ++ cur /\ Forall (fun seg => seg <> []) segs /\
    Forall (one_bucket tf) (segs ++ [cur]) /\
    map Some v.2 = map (fun seg => Close <$> bar_of tf seg) segs /\ v.1 = bar_of tf cur.

Lemma bar_of_snoc tf cur b q : bar_of tf cur = Some b -> bar_of tf (cur ++ [q]) = Some (Update b q).
Proof. destruct cur as [|q0 cur]; simpl; [done|]. intros [= <-]. by rewrite fold_left_app. Qed.

Lemma one_bucket_single tf q : one_bucket tf [q].
Proof. exists (BucketStart tf (q_TS q)). by constructor. Qed.

Lemma one_bucket_snoc tf cur b q :
  0 < Duration tf -> bar_of tf cur = Some b -> one_bucket tf cur -> Contains b (q_TS q) = true ->
  one_bucket tf (cur ++ [q]).
Proof.
  intros Hd. destruct cur as [|q0 cur]; simpl; [done|]. intros [= <-] [s F] C.
  destruct (fold_ends tf q0 cur) as (_ & HT & HO & _). set (b := fold_left _ _ _) in *.
  apply Contains_bucket in C; rewrite HT in *; [|done|rewrite HO; by apply BucketStart_spec].
  exists s. change (q0 :: cur ++ [q]) with ((q0 :: cur) ++ [q]). apply Forall_app. split; [done|].
  apply Forall_cons. split; [|constructor]. apply Forall_cons in F as [F0 _]. congruence.
Qed.

Lemma segmented_tick tf log q v :
  0 < Duration tf -> segmented tf log v -> segmented tf (log ++ [q]) (tick_view tf q v).
Proof.
  intros Hd (segs & cur & -> & Hne & Hb & Hcl & Ho). destruct v as [o cl]. simpl in *.
  apply Forall_app in Hb as [Hb Hc]. apply Forall_cons in Hc as [Hc _].
  destruct o as [b|]; simpl; [destruct (Contains b (q_TS q)) eqn:E|].
  - exists segs, (cur ++ [q]). rewrite app_assoc, Forall_app, (bar_of_snoc tf cur b) by done.
    repeat split; auto. apply Forall_cons. split; [|constructor]. by eapply one_bucket_snoc.
  - exists (segs ++ [cur]), [q]. rewrite concat_app. simpl. rewrite app_nil_r, !map_app, Hcl. simpl.
    rewrite !Forall_app, <-Ho. simpl. repeat split; auto using one_bucket_single.
    constructor; [|constructor]. by intros ->.
  - exists segs, [q]. destruct cur; [|done]. rewrite app_nil_r. repeat split; auto.
    apply Forall_app. auto using one_bucket_single.
Qed.

Lemma segmented_sweep tf log now v : segmented tf log v -> segmented tf log (sweep_view now v).
Proof.
  intros (segs & cur & -> & Hne & Hb & Hcl & Ho). destruct v as [o cl]. simpl in *.
  assert (segmented tf (concat segs ++ cur) (o, cl)) as Hs by (by exists segs, cur).
  destruct o as [b|]; simpl; [|done]. destruct (expired now b); [|done].
  apply Forall_app in Hb as [Hb Hc].
  exists (segs ++ [cur]), []. rewrite concat_app. simpl. rewrite !app_nil_r, !map_app, Hcl. simpl.
  rewrite !Forall_app, <-Ho. repeat split; auto.
  - constructor; [|constructor]. by intros ->.
  - constructor; [|constructor]. exists zero_time. constructor.
Qed.

Lemma run_segmented p tf a0 es :
  tf ∈ AllTimeframes -> a0 = NewAggregator (symbols a0) (decoder a0) ->
  keyed (run a0 es) /\ symbols (run a0 es) = symbols a0 /\ decoder (run a0 es) = decoder a0 /\
  segmented tf (accepted a0 es p) (view (run a0 es) (p, tf)).
Proof.
  intros Htf E0. pose proof (Duration_pos tf Htf) as Hd.
  induction es as [|e es IH] using rev_ind; unfold run in *.
  { rewrite E0. simpl. split; [by intros k b; simpl; rewrite lookup_empty|]. do 2 (split; [done|]).
    exists [], []. repeat split; [constructor|]. constructor; [|constructor]. exists zero_time. constructor. }
  rewrite fold_left_app. simpl. set (a := fold_left step es a0) in *.
  destruct IH as (K & Cs & Cd & S). destruct (step_conf a e) as [-> ->].
  unfold accepted in *. rewrite omap_app, filter_app. simpl.
  destruct e as [t|now order]; simpl.
  - destruct (OnTick_view a t p tf Htf K) as [K' ->]. rewrite <-(tick_quote_conf a0 a t) by done.
    repeat split; auto. destruct (tick_quote a t) as [q|]; simpl; [|by rewrite app_nil_r].
    rewrite filter_cons. destruct (decide (q_Pair q = p)); [|by rewrite app_nil_r].
    rewrite filter_nil. by apply (segmented_tick tf _ q (view a (p, tf))).
  - rewrite app_nil_r. destruct (Sweep_view (segmented tf (filter (fun q => q_Pair q = p) (omap (event_quote a0) es)))
      now order a (p, tf)) as [K' S']; auto using segmented_sweep.
Qed.

(** C13. No tick is lost, counted twice or put in the wrong bar: whatever the
    interleaving of ticks and sweeps, for every pair and timeframe the accepted
    ticks of the pair are the concatenation of consecutive segments, each inside
    one bucket; the bars handed to the close handler are exactly the bars of the
    segments but the last, in order, and the open bar is the bar of the last. *)
Theorem bars_partition_ticks (syms : symbolMapData) (dec : option (list byte -> option (f64 * f64)))
    (es : list event) (p : string) (tf : Timeframe) :
  tf ∈ AllTimeframes ->
  let a0 := NewAggregator syms dec in
  let a := run a0 es in
  exists segs cur,
    accepted a0 es p = concat segs ++ cur /\ Forall (fun seg => seg <> []) segs /\
    Forall (one_bucket tf) (segs ++ [cur]) /\
    map Some (closed_of a (p, tf)) = map (fun seg => Close <$> bar_of tf seg) segs /\
    bars a !! ((p, tf) : barKey) = bar_of tf cur.
Proof.
  intros Htf. apply (run_segmented p tf (NewAggregator syms dec) es Htf). done.
Qed.

Definition wit_syms : symbolMapData := SymbolMap_Replace [mkSymbol "USDKRW" "USD/KRW" true].
Definition wit_dec (body : list byte) : option (f64 * f64) :=
  match body with b :: _ => Some (f_of_Z (b2z b), f_of_Z (b2z b + 1)) | [] => None end.
Definition wit_tick (body : list byte) (ns : Z) : event :=
  EvTick (mkTick 1 "USDKRW" 0 0 0 0 body (mkTime ns 0) "BEST").
Definition wit_events : list event :=
  [wit_tick [x05] 0; wit_tick [x06] 500000000; wit_tick [] 600000000; wit_tick [x07] 1000000000;
   EvSweep (mkTime 2000000000 0) [("USD/KRW", TF1s)]; wit_tick [x08] 2000000000].

Lemma bars_partition_ticks_witness :
  let a0 := NewAggregator wit_syms (Some wit_dec) in
  let a := run a0 wit_events in
  length (accepted a0 wit_events "USD/KRW") = 4%nat /\ length (closed_of a ("USD/KRW", TF1s)) = 2%nat /\
  exists segs cur,
    accepted a0 wit_events "USD/KRW" = concat segs ++ cur /\ Forall (fun seg => seg <> []) segs /\
    Forall (one_bucket TF1s) (segs ++ [cur]) /\
    map Some (closed_of a ("USD/KRW", TF1s)) = map (fun seg => Close <$> bar_of TF1s seg) segs /\
    bars a !! (("USD/KRW", TF1s) : barKey) = bar_of TF1s cur.
Proof.
  split; [vm_compute; reflexivity|]. split; [vm_compute; reflexivity|].
  apply (bars_partition_ticks wit_syms (Some wit_dec) wit_events "USD/KRW" TF1s).
  vm_compute. constructor.
Defined.

(** ** One bar per bucket *)

Definition event_ns (e : event) : Z :=
  match e with EvTick t => t_ns (tk_Received t) | EvSweep now _ => t_ns now end.

Definition bar_end (tf : Timeframe) (b : Bar) : Z := t_ns (OpenedAt b) + Duration tf.
Definition precedes (tf : Timeframe) (b b' : Bar) : Prop := bar_end tf b <= t_ns (OpenedAt b').
Definition good_bar (tf : Timeframe) (b : Bar) : Prop := b_TF b = tf /\ aligned tf (OpenedAt b).

(** At time [T] the bars are in order, the closed ones are over and the open one
    has started. *)
Definition ordered (tf : Timeframe) (T : Z) (v : option Bar * list Bar) : Prop :=
  StronglySorted (precedes tf) v.2 /\ Forall (fun b => good_bar tf b /\ bar_end tf b <= T) v.2 /\
  match v.1 with
  | None => True
  | Some b => good_bar tf b /\ t_ns (OpenedAt b) <= T /\ Forall (fun b' => precedes tf b' b) v.2
  end.

Lemma ordered_later tf T T' v : T <= T' -> ordered tf T v -> ordered tf T' v.
Proof.
  intros L (H1 & H2 & H3). split; [done|]. split.
  - eapply Forall_impl; [exact H2|]. simpl. intros b [? ?]. split; [done|lia].
  - destruct v.1; [|done]. destruct H3 as (? & ? & ?). split; [done|]. split; [lia|done].
Qed.

(** Closing the open bar at a time past its end. *)
Lemma ordered_close tf T cl b :
  bar_end tf b <= T -> ordered tf T (Some b, cl) -> ordered tf T (None, cl ++ [Close b]).
Proof.
  intros L (H1 & H2 & G & S & H3). split; [|split; [|done]]; simpl in *.
  - apply StronglySorted_app_2; [|done|repeat constructor].
    intros x y Hx ->%list_elem_of_singleton. rewrite Forall_forall in H3. by apply H3.
  - apply Forall_app. split; [done|]. by constructor.
Qed.

Lemma NewBar_good tf q : 0 < Duration tf -> good_bar tf (NewBar tf q).
Proof. intros. split; [done|]. by apply BucketStart_spec. Qed.

(** Opening a bar now: it starts after everything that is over. *)
Lemma ordered_open tf q cl :
  0 < Duration tf -> ordered tf (t_ns (q_TS q)) (None, cl) -> ordered tf (t_ns (q_TS q)) (Some (NewBar tf q), cl).
Proof.
  intros Hd (H1 & H2 & _). split; [done|]. split; [done|]. simpl in *.
  destruct (BucketStart_spec tf (q_TS q) Hd) as [A M]. split; [by apply NewBar_good|]. split; [lia|].
  eapply Forall_impl; [exact H2|]. intros b [[_ G] L]. unfold precedes, bar_end in *. simpl.
  destruct (Z.le_gt_cases (t_ns (BucketStart tf (q_TS q))) (t_ns (OpenedAt b))) as [C|C]; [lia|].
  by apply aligned_apart.
Qed.

Lemma ordered_tick tf q v :
  0 < Duration tf -> ordered tf (t_ns (q_TS q)) v -> ordered tf (t_ns (q_TS q)) (tick_view tf q v).
Proof.
  intros Hd H. destruct v as [[b|] cl]; simpl; [|by apply ordered_open].
  pose proof H as (_ & _ & [G _] & S & _). simpl in *. destruct (Contains b (q_TS q)) eqn:E; [done|].
  apply ordered_open; [done|]. apply ordered_close; [|done].
  apply not_true_iff_false in E. rewrite Contains_spec, G in E. unfold bar_end. lia.
Qed.

Lemma ordered_sweep tf now v : ordered tf (t_ns now) v -> ordered tf (t_ns now) (sweep_view now v).
Proof.
  intros H. destruct v as [[b|] cl]; simpl; [|done]. pose proof H as (_ & _ & [G _] & S & _). simpl in *.
  destruct (expired now b) eqn:E; [|done]. apply ordered_close; [|done].
  unfold expired, Before in E. simpl in E. rewrite G in E. unfold bar_end. rewrite negb_true_iff in E. bool_lia.
Qed.

Lemma tick_quote_TS a t q : tick_quote a t = Some q -> q_TS q = tk_Received t.
Proof.
  unfold tick_quote. destruct (decoder a) as [dec|]; [simpl|done].
  destruct (SymbolMap_Lookup _ _) as [[p act] found]. case_if; [done|].
  destruct (dec (tk_Body t)) as [[bid ask]|]; [|done]. by intros [= <-].
Qed.

Lemma step_ordered p tf T a e :
  tf ∈ AllTimeframes -> T <= event_ns e -> keyed a -> ordered tf T (view a (p, tf)) ->
  keyed (step a e) /\ ordered tf (event_ns e) (view (step a e) (p, tf)).
Proof.
  intros Htf L K H. pose proof (Duration_pos tf Htf) as Hd. apply (ordered_later _ _ (event_ns e)) in H; [|done].
  destruct e as [t|now order]; simpl in *.
  - destruct (OnTick_view a t p tf Htf K) as [K' ->]. split; [done|].
    destruct (tick_quote a t) as [q|] eqn:Eq; [|done]. case_decide; [|done].
    rewrite <-(tick_quote_TS _ _ _ Eq) in *. by apply (ordered_tick tf q (view a (p, tf))).
  - apply Sweep_view; auto using ordered_sweep.
Qed.

Lemma run_ordered p tf T a es :
  tf ∈ AllTimeframes -> StronglySorted Z.le (T :: map event_ns es) -> keyed a -> ordered tf T (view a (p, tf)) ->
  exists T', ordered tf T' (view (run a es) (p, tf)).
Proof.
  intros Htf. unfold run. revert T a. induction es as [|e es IH]; intros T a S K H; simpl; [eauto|].
  apply StronglySorted_inv in S as [S F]. simpl in *. apply Forall_cons in F as [L _].
  destruct (step_ordered p tf T a e Htf L K H) as [K' H']. eauto.
Qed.

(** When the events arrive in time order, the bars of a pair and timeframe,
    the closed ones and then the open one, do not overlap and are in time order:
    every bucket yields at most one bar, so the bucket start is a key for them. *)
Theorem one_bar_per_bucket (syms : symbolMapData) (dec : option (list byte -> option (f64 * f64)))
    (es : list event) (p : string) (tf : Timeframe) :
  tf ∈ AllTimeframes -> StronglySorted Z.le (map event_ns es) ->
  let a := run (NewAggregator syms dec) es in
  StronglySorted (precedes tf) (closed_of a (p, tf) ++ option_list (bars a !! ((p, tf) : barKey))).
Proof.
  intros Htf S a.
  assert (exists T, ordered tf T (view a (p, tf))) as (T & H1 & H2 & H3).
  { destruct es as [|e es]; [exists 0; unfold a, view, closed_of; simpl; rewrite lookup_empty; repeat constructor|].
    apply (run_ordered p tf (event_ns e)); [done|simpl in *; constructor; [done|]|intros k b; simpl; by rewrite lookup_empty|].
    - apply StronglySorted_inv in S as [_ F]. constructor; [lia|done].
    - unfold view, closed_of. simpl. rewrite lookup_empty. repeat constructor. }
  unfold view in *. simpl in *. destruct (bars a !! ((p, tf) : barKey)) as [b|]; simpl.
  - destruct H3 as (_ & _ & H3). apply StronglySorted_app_2; [|done|repeat constructor].
    intros x y Hx ->%list_elem_of_singleton. rewrite Forall_forall in H3. by apply H3.
  - by rewrite app_nil_r.
Qed.

Lemma one_bar_per_bucket_witness :
  let a := run (NewAggregator wit_syms (Some wit_dec)) wit_events in
  StronglySorted (precedes TF1s) (closed_of a ("USD/KRW", TF1s) ++ option_list (bars a !! (("USD/KRW", TF1s) : barKey))) /\
  map (fun b => t_ns (OpenedAt b)) (closed_of a ("USD/KRW", TF1s)) = [0; 1000000000].
Proof.
  split; [|vm_compute; reflexivity].
  apply (one_bar_per_bucket wit_syms (Some wit_dec) wit_events "USD/KRW" TF1s).
  - vm_compute. constructor.
  - repeat constructor; simpl; lia.
Defined.
