(* ===== verification/Feed.v ===== *)
(** The intake of mci-price: the (source, sequence) filter for dual-active
    forwarders (src/internal/price/tick_dedup.go) and the per-symbol latest-tick
    table (src/internal/price/conflation.go), the latter with the interleavings of
    its concurrent updates. *)

From Stdlib Require Import ZArith Lia.
From S2P Require Import Prelude Sorting Float64 Dates Pricing Bars.
Local Open Scope Z_scope.

(** * Duplicate filter *)

Definition tickResetGap : Z := Z.shiftl 1 16.

(** Highest sequence number seen per source. *)
Record tickDedup := mkDedup { hwm : gmap string Z }.
Definition newTickDedup : tickDedup := mkDedup ∅.

(** [true]: already processed, drop. *)
Definition seen (d : tickDedup) (src : string) (seq : Z) : tickDedup * bool :=
  if bool_decide (src = "") || (seq =? 0) then (d, false) else
  match hwm d !! src with
  | None => (mkDedup (<[src := seq]> (hwm d)), false)
  | Some h =>
      if h <? seq then (mkDedup (<[src := seq]> (hwm d)), false)
      else if tickResetGap <=? wrap 64 (h - seq) then (mkDedup (<[src := seq]> (hwm d)), false)
      else (d, true)
  end.

(** The ticks of a sequence of arrivals that pass. *)
Fixpoint passed (d : tickDedup) (arrivals : list (string * Z)) : list (string * Z) :=
  match arrivals with
  | [] => []
  | (src, seq) :: rest =>
      let '(d', drop) := seen d src seq in
      if drop then passed d' rest else (src, seq) :: passed d' rest
  end.

(** An arrival order of two streams: each keeps its own order. *)
Inductive interleaving {A} : list A -> list A -> list A -> Prop :=
| il_nil : interleaving [] [] []
| il_left x l r m : interleaving l r m -> interleaving (x :: l) r (x :: m)
| il_right x l r m : interleaving l r m -> interleaving l (x :: r) (x :: m).

(** The outcome of one call below the reset gap. *)
Lemma seen_cases d src seq h :
  src <> "" -> 0 < seq -> hwm d !! src = Some h -> h - seq < tickResetGap -> h < 2 ^ 64 ->
  seen d src seq = if h <? seq then (mkDedup (<[src := seq]> (hwm d)), false) else (d, true).
Proof.
  intros Hs Hq Hh Hg Hb. unfold seen. rewrite bool_decide_eq_false_2 by done. simpl.
  rewrite (proj2 (Z.eqb_neq _ _)) by lia. rewrite Hh. destruct (Z.ltb_spec h seq); [done|].
  rewrite wrap_small by (unfold is_uint; lia). by rewrite (proj2 (Z.leb_gt _ _)).
Qed.

Lemma sorted_lookup xs i j (x y : Z) :
  StronglySorted Z.lt xs -> xs !! i = Some x -> xs !! j = Some y -> (i < j)%nat -> x < y.
Proof.
  intros Hs. revert i j. induction Hs as [|a xs Hs IH F]; intros i j Hx Hy L; [done|].
  destruct j as [|j]; [lia|]. simpl in Hy. destruct i as [|i]; simpl in Hx.
  - injection Hx as ->. rewrite Forall_forall in F. apply F. by eapply list_elem_of_lookup_2.
  - apply (IH i j); auto; lia.
Qed.

Lemma drop_cons_inv {A} i (xs : list A) x l : x :: l = drop i xs -> l = drop (S i) xs /\ xs !! i = Some x.
Proof.
  intros E. assert (xs !! i = Some x) as L by (rewrite <-(Nat.add_0_r i), <-lookup_drop, <-E; done).
  split; [|done]. pose proof (drop_S _ _ _ L) as E'. rewrite <-E in E'. by injection E'.
Qed.

(** ** One feed relayed by two forwarders *)
Section relay.
Context (src : string) (xs : list Z) (Hsrc : src <> "") (Hs : StronglySorted Z.lt xs)
  (Hr : Forall (fun s => 0 < s < 2 ^ 64) xs)
  (Hg : forall s s', s ∈ xs -> s' ∈ xs -> s - s' < tickResetGap).

Definition tagged (l : list Z) : list (string * Z) := map (fun s => (src, s)) l.

(** The filter's state once the first [k] ticks of the feed have passed. *)
Definition at_pos (d : tickDedup) (k : nat) : Prop :=
  match k with O => hwm d !! src = None | S k' => hwm d !! src = xs !! k' end.

(** One arrival from a copy that is at position [i], not ahead of the filter. *)
Lemma relay_one d k i x m :
  xs !! i = Some x -> (i <= k <= length xs)%nat -> at_pos d k ->
  (forall d', at_pos d' (Nat.max (S i) k) -> passed d' (tagged m) = tagged (drop (Nat.max (S i) k) xs)) ->
  passed d (tagged (x :: m)) = tagged (drop k xs).
Proof.
  intros Hx Hik Hk IH. simpl.
  pose proof (proj1 (Forall_forall _ _) Hr x (list_elem_of_lookup_2 _ _ _ Hx)) as Hxr. simpl in Hxr.
  destruct k as [|k].
  - assert (i = 0)%nat as -> by lia. unfold seen. rewrite bool_decide_eq_false_2 by done. simpl in *.
    rewrite (proj2 (Z.eqb_neq _ _)), Hk by lia. rewrite (drop_S _ _ _ Hx). simpl. f_equal.
    apply IH. simpl. by rewrite lookup_insert_eq, Hx.
  - destruct (lookup_lt_is_Some_2 xs k) as [h Hh]; [lia|]. simpl in Hk. rewrite Hh in Hk.
    pose proof (proj1 (Forall_forall _ _) Hr h (list_elem_of_lookup_2 _ _ _ Hh)) as Hhr. simpl in Hhr.
    rewrite (seen_cases d src x h) by (eauto using list_elem_of_lookup_2; lia).
    destruct (decide (i = S k)) as [->|Ne].
    + rewrite (proj2 (Z.ltb_lt _ _)) by (apply (sorted_lookup xs k (S k)); auto).
      rewrite (drop_S _ _ _ Hx). simpl. f_equal.
      replace (Nat.max (S (S k)) (S k)) with (S (S k)) in IH by lia.
      apply IH. simpl. by rewrite lookup_insert_eq, Hx.
    + replace (Nat.max (S i) (S k)) with (S k) in IH by lia. rewrite (proj2 (Z.ltb_ge _ _)).
      * apply IH. simpl. by rewrite Hh.
      * destruct (decide (i = k)) as [->|]; [assert (x = h) by congruence; lia|].
        apply Z.lt_le_incl, (sorted_lookup xs i k); auto; lia.
Qed.

(** One copy is where the filter is, the other may lag. *)
Lemma relay_both l r m : interleaving l r m -> forall d i j,
  l = drop i xs -> r = drop j xs -> (Nat.max i j <= length xs)%nat -> at_pos d (Nat.max i j) ->
  passed d (tagged m) = tagged (drop (Nat.max i j) xs).
Proof.
  induction 1 as [|x l r m Hm IH|x l r m Hm IH]; intros d i j Hl Hr' Hkl Hk.
  - apply (f_equal length) in Hl, Hr'. rewrite length_drop in *. simpl in *. by rewrite drop_ge by lia.
  - destruct (drop_cons_inv _ _ _ _ Hl) as [Hl' Hx]. pose proof (lookup_lt_Some _ _ _ Hx).
    apply (relay_one d _ i); auto; [lia|]. intros d'.
    replace (Nat.max (S i) (Nat.max i j)) with (Nat.max (S i) j) by lia.
    apply (IH d' (S i) j); auto; lia.
  - destruct (drop_cons_inv _ _ _ _ Hr') as [Hl' Hx]. pose proof (lookup_lt_Some _ _ _ Hx).
    apply (relay_one d _ j); auto; [lia|]. intros d'.
    replace (Nat.max (S j) (Nat.max i j)) with (Nat.max i (S j)) by lia.
    apply (IH d' i (S j)); auto; lia.
Qed.
End relay.

(** Dual-active forwarders: when two relays deliver the same feed, increasing
    non-zero sequence numbers of one source that span less than the reset gap, then
    for every arrival order that keeps each relay's own order, exactly the feed
    passes: every tick once, in order, whichever relay is ahead. *)
Theorem dual_relay_exactly_once (src : string) (xs : list Z) (arrivals : list Z) (d : tickDedup) :
  src <> "" -> StronglySorted Z.lt xs -> Forall (fun s => 0 < s < 2 ^ 64) xs ->
  (forall s s', s ∈ xs -> s' ∈ xs -> s - s' < tickResetGap) ->
  hwm d !! src = None -> interleaving xs xs arrivals ->
  passed d (tagged src arrivals) = tagged src xs.
Proof.
  intros Hsrc Hs Hr Hg Hd Hi. apply (relay_both src xs Hsrc Hs Hr Hg xs xs arrivals Hi d 0 0); auto; simpl; lia.
Qed.

Lemma dual_relay_exactly_once_witness :
  passed newTickDedup (tagged "SMB" [7; 8; 7; 8; 10; 10]) = tagged "SMB" [7; 8; 10].
Proof.
  apply (dual_relay_exactly_once "SMB" [7; 8; 10] [7; 8; 7; 8; 10; 10] newTickDedup).
  - discriminate.
  - repeat constructor.
  - repeat constructor; reflexivity.
  - intros s s' H H'. change tickResetGap with 65536.
    assert (forall z, z ∈ [7; 8; 10] -> 7 <= z <= 10) as B.
    { intros z. rewrite !elem_of_cons, elem_of_nil. lia. }
    apply B in H, H'. lia.
  - reflexivity.
  - repeat constructor.
Defined.

(** A fall of the sequence number by the reset gap restarts the feed. *)
Lemma seen_reset d src seq h :
  src <> "" -> 0 < seq -> hwm d !! src = Some h -> h < 2 ^ 64 -> tickResetGap <= h - seq ->
  seen d src seq = (mkDedup (<[src := seq]> (hwm d)), false).
Proof.
  intros Hs Hq Hh Hb Hg. unfold seen. rewrite bool_decide_eq_false_2 by done. simpl.
  change tickResetGap with 65536 in *.
  rewrite (proj2 (Z.eqb_neq _ _)), Hh, (proj2 (Z.ltb_ge _ _)) by lia.
  rewrite wrap_small by (unfold is_uint; lia). by rewrite (proj2 (Z.leb_le _ _)).
Qed.

(** * Latest tick per symbol *)

(** [bySymbol] holds, per symbol, the content of its atomic pointer: a symbol once
    stored keeps its pointer. The counters are uint64. *)
Record Conflation := mkConf {
  cf_bySymbol : gmap string Tick; totalUpdate : Z; totalSwap : Z; totalSeen : Z }.
Definition NewConflation : Conflation := mkConf ∅ 0 0 0.

Definition Latest (c : Conflation) (symbol : string) : option Tick := cf_bySymbol c !! symbol.
Definition SymbolCount (c : Conflation) : Z := totalSeen c.
Record ConflationStats := mkStats { Symbols : Z; Updates : Z; Swaps : Z }.
Definition Stats (c : Conflation) : ConflationStats := mkStats (totalSeen c) (totalUpdate c) (totalSwap c).

(** Where a call of [Update] is between its atomic operations; [Returned prev] has
    its result. The call counts itself ([totalUpdate]) before [AtLoad]. *)
Inductive update_pc :=
| AtLoad (t : Tick)
| AtSwap (t : Tick)
| AtCountSwap (prev : Tick)
| AtLoadOrStore (t : Tick)
| AtCountSeen
| Returned (prev : option Tick).

Definition inc (z : Z) : Z := wrap 64 (z + 1).
Definition store (c : Conflation) (t : Tick) : Conflation :=
  mkConf (<[tk_Symbol t := t]> (cf_bySymbol c)) (totalUpdate c) (totalSwap c) (totalSeen c).

(** A call with a nil tick returns before counting itself. *)
Definition begin_update (c : Conflation) (t : option Tick) : Conflation * update_pc :=
  match t with
  | None => (c, Returned None)
  | Some t => (mkConf (cf_bySymbol c) (inc (totalUpdate c)) (totalSwap c) (totalSeen c), AtLoad t)
  end.

(** One atomic operation of [Update]. *)
Definition update_step (c : Conflation) (pc : update_pc) : Conflation * update_pc :=
  match pc with
  | AtLoad t =>
      match cf_bySymbol c !! tk_Symbol t with
      | Some _ => (c, AtSwap t)
      | None => (c, AtLoadOrStore t)
      end
  | AtSwap t =>
      let prev := cf_bySymbol c !! tk_Symbol t in
      (store c t, match prev with Some p => AtCountSwap p | None => Returned None end)
  | AtCountSwap p =>
      (mkConf (cf_bySymbol c) (totalUpdate c) (inc (totalSwap c)) (totalSeen c), Returned (Some p))
  | AtLoadOrStore t =>
      match cf_bySymbol c !! tk_Symbol t with
      | Some _ => (c, AtSwap t)
      | None => (store c t, AtCountSeen)
      end
  | AtCountSeen =>
      (mkConf (cf_bySymbol c) (totalUpdate c) (totalSwap c) (inc (totalSeen c)), Returned None)
  | Returned p => (c, Returned p)
  end.

Fixpoint run_update (fuel : nat) (c : Conflation) (pc : update_pc) : Conflation * option (option Tick) :=
  match pc, fuel with
  | Returned p, _ => (c, Some p)
  | _, O => (c, None)
  | _, S fuel => let '(c, pc) := update_step c pc in run_update fuel c pc
  end.

(** An undisturbed call: at most four operations. *)
Definition Conflation_Update (c : Conflation) (t : option Tick) : Conflation * option (option Tick) :=
  let '(c, pc) := begin_update c t in run_update 4 c pc.

(** ** Concurrent callers

    The calls of all goroutines, each at its own point; [log] is the ticks written
    so far, in the order of their writes. *)
Record system := mkSys { conf : Conflation; calls : list update_pc; log : list Tick }.
Definition init_system : system := mkSys NewConflation [] [].

(** The tick an operation writes, if it writes one. *)
Definition writes (c : Conflation) (pc : update_pc) : list Tick :=
  match pc with
  | AtSwap t => [t]
  | AtLoadOrStore t => match cf_bySymbol c !! tk_Symbol t with Some _ => [] | None => [t] end
  | _ => []
  end.

Inductive sys_step : system -> system -> Prop :=
| sys_call s t :
    sys_step s (mkSys (begin_update (conf s) t).1 (calls s ++ [(begin_update (conf s) t).2]) (log s))
| sys_run s i pc :
    calls s !! i = Some pc ->
    sys_step s (mkSys (update_step (conf s) pc).1 (<[i := (update_step (conf s) pc).2]> (calls s))
                  (log s ++ writes (conf s) pc)).

(** ** Counting the calls at a point *)
Definition tally (f : update_pc -> Z) (l : list update_pc) : Z := foldr (fun x n => f x + n) 0 l.

Lemma tally_app f l l' : tally f (l ++ l') = tally f l + tally f l'.
Proof. induction l as [|x l IH]; simpl; [done|]. lia. Qed.

Lemma tally_insert f l i x y : l !! i = Some x -> tally f (<[i := y]> l) = tally f l - f x + f y.
Proof.
  revert i. induction l as [|z l IH]; intros [|i] H; simpl in *; try done.
  - injection H as ->. lia.
  - rewrite IH by done. lia.
Qed.

(** Operations still due: the count of a new symbol, of the call, of the write. *)
Definition due_seen (pc : update_pc) : Z := match pc with AtCountSeen => 1 | _ => 0 end.
Definition due_count (pc : update_pc) : Z := match pc with Returned _ => 0 | _ => 1 end.
Definition due_write (pc : update_pc) : Z := match pc with AtLoad _ | AtSwap _ | AtLoadOrStore _ => 1 | _ => 0 end.

Definition last_of (symbol : string) (log : list Tick) : option Tick :=
  last (filter (fun t => tk_Symbol t = symbol) log).

(** A call that found its symbol may rely on it. *)
Definition swap_ready (c : Conflation) (pc : update_pc) : Prop :=
  match pc with AtSwap t => is_Some (cf_bySymbol c !! tk_Symbol t) | _ => True end.

Definition conf_inv (s : system) : Prop :=
  Forall (swap_ready (conf s)) (calls s) /\
  (forall symbol, cf_bySymbol (conf s) !! symbol = last_of symbol (log s)) /\
  wrap 64 (totalSeen (conf s) + tally due_seen (calls s)) = wrap 64 (Z.of_nat (size (cf_bySymbol (conf s)))) /\
  wrap 64 (totalUpdate (conf s)) = wrap 64 (totalSwap (conf s) + totalSeen (conf s) + tally due_count (calls s)) /\
  wrap 64 (totalUpdate (conf s)) = wrap 64 (zlen (log s) + tally due_write (calls s)).

Lemma wrap_eq_iff a b : wrap 64 a = wrap 64 b <-> exists k, a = b + k * 2 ^ 64.
Proof.
  unfold wrap. split.
  - intros E. exists (a / 2 ^ 64 - b / 2 ^ 64). pose proof (Z.div_mod a (2 ^ 64)). pose proof (Z.div_mod b (2 ^ 64)). lia.
  - intros [k ->]. apply Z_mod_plus_full.
Qed.

Lemma inc_eq z : exists k, inc z = z + 1 + k * 2 ^ 64.
Proof. apply (proj1 (wrap_eq_iff _ _)). unfold inc, wrap. apply Zmod_mod. Qed.

Lemma last_of_snoc symbol l t :
  last_of symbol (l ++ [t]) = if decide (tk_Symbol t = symbol) then Some t else last_of symbol l.
Proof.
  unfold last_of. rewrite filter_app, filter_cons, filter_nil. case_decide; [apply last_snoc|by rewrite app_nil_r].
Qed.

Lemma store_latest c t l :
  (forall symbol, cf_bySymbol c !! symbol = last_of symbol l) ->
  forall symbol, cf_bySymbol (store c t) !! symbol = last_of symbol (l ++ [t]).
Proof.
  intros H symbol. rewrite last_of_snoc. simpl. destruct (decide (tk_Symbol t = symbol)) as [<-|].
  - apply lookup_insert_eq.
  - by rewrite lookup_insert_ne.
Qed.

(** The set of known symbols only grows. *)
Lemma update_step_grows c pc pc' : swap_ready c pc' -> swap_ready (update_step c pc).1 pc'.
Proof.
  destruct pc' as [|t'| | | |]; try done. unfold swap_ready.
  assert (forall t, is_Some (cf_bySymbol c !! tk_Symbol t') -> is_Some (cf_bySymbol (store c t) !! tk_Symbol t')) as G.
  { intros t. simpl. destruct (decide (tk_Symbol t = tk_Symbol t')) as [E|N].
    - rewrite E, lookup_insert_eq. eauto.
    - by rewrite lookup_insert_ne. }
  intros H. destruct pc as [t|t| |t| |]; simpl; auto; [by destruct (cf_bySymbol c !! tk_Symbol t)| |].
  - by apply G.
  - destruct (cf_bySymbol c !! tk_Symbol t); [done|]. by apply G.
Qed.

Lemma update_step_ready c pc : swap_ready (update_step c pc).1 (update_step c pc).2.
Proof.
  destruct pc as [t|t| |t| |]; simpl; try done.
  - destruct (cf_bySymbol c !! tk_Symbol t) eqn:E; simpl; [rewrite E; eauto|done].
  - by destruct (cf_bySymbol c !! tk_Symbol t).
  - destruct (cf_bySymbol c !! tk_Symbol t) eqn:E; simpl; [rewrite E; eauto|done].
Qed.

Lemma update_step_latest c pc l :
  (forall symbol, cf_bySymbol c !! symbol = last_of symbol l) ->
  forall symbol, cf_bySymbol (update_step c pc).1 !! symbol = last_of symbol (l ++ writes c pc).
Proof.
  intros H. destruct pc as [t|t| |t| |]; simpl; try (rewrite app_nil_r; apply H).
  - rewrite app_nil_r. by destruct (cf_bySymbol c !! tk_Symbol t).
  - by apply store_latest.
  - destruct (cf_bySymbol c !! tk_Symbol t); [rewrite app_nil_r; apply H|]. by apply store_latest.
Qed.

(** What one operation does to the counters, modulo 2^64, and to the map's size. *)
Lemma update_step_counts c pc :
  swap_ready c pc ->
  let '(c', pc') := update_step c pc in
  totalUpdate c' = totalUpdate c /\
  (exists k, totalSeen c' + due_seen pc' + Z.of_nat (size (cf_bySymbol c))
           = totalSeen c + due_seen pc + Z.of_nat (size (cf_bySymbol c')) + k * 2 ^ 64) /\
  (exists k, totalSwap c' + totalSeen c' + due_count pc' = totalSwap c + totalSeen c + due_count pc + k * 2 ^ 64) /\
  zlen (writes c pc) + due_write pc' = due_write pc.
Proof.
  intros R. destruct (inc_eq (totalSwap c)) as [k1 E1], (inc_eq (totalSeen c)) as [k2 E2].
  destruct pc as [t|t|p|t| |p]; simpl in *.
  - destruct (cf_bySymbol c !! tk_Symbol t); simpl; repeat split; try lia; exists 0; lia.
  - destruct R as [p R]. rewrite R. simpl. rewrite map_size_insert_Some by eauto.
    repeat split; try lia; exists 0; lia.
  - repeat split; try lia; [exists 0|exists k1]; lia.
  - destruct (cf_bySymbol c !! tk_Symbol t) eqn:E; simpl; [repeat split; try lia; exists 0; lia|].
    rewrite map_size_insert_None by done. repeat split; try lia; exists 0; lia.
  - repeat split; try lia; exists k2; lia.
  - repeat split; try lia; exists 0; lia.
Qed.

Lemma sys_step_inv s s' : conf_inv s -> sys_step s s' -> conf_inv s'.
Proof.
  intros (Hr & Hl & Hs & Hu & Hw) St. rewrite !wrap_eq_iff in *.
  destruct Hs as [ks Hs], Hu as [ku Hu], Hw as [kw Hw]. destruct St as [s t|s i pc Hi].
  - unfold conf_inv. simpl. rewrite !tally_app, !wrap_eq_iff. destruct t as [t|]; simpl.
    + destruct (inc_eq (totalUpdate (conf s))) as [k ->]. split; [|split; [done|]].
      * apply Forall_app. split; [done|]. by constructor.
      * split; [exists ks; lia|]. split; [exists (ku + k)|exists (kw + k)]; lia.
    + split; [apply Forall_app; split; [done|by constructor]|]. split; [done|].
      split; [exists ks; lia|]. split; [exists ku|exists kw]; lia.
  - pose proof (update_step_counts (conf s) pc) as C.
    pose proof (update_step_ready (conf s) pc) as Rd. pose proof (update_step_latest (conf s) pc (log s) Hl) as L.
    assert (Forall (swap_ready (update_step (conf s) pc).1) (calls s)) as G
      by (eapply Forall_impl; [exact Hr|]; intros; by apply update_step_grows).
    destruct (update_step (conf s) pc) as [c' pc']. simpl in *.
    rewrite Forall_forall in Hr. specialize (C (Hr pc (list_elem_of_lookup_2 _ _ _ Hi))).
    destruct C as (Cu & [k1 C1] & [k2 C2] & Cw). unfold conf_inv. simpl.
    rewrite !(tally_insert _ _ _ _ pc' Hi), !wrap_eq_iff, length_app, Cu.
    split; [by apply Forall_insert|]. split; [done|].
    split; [exists (ks + k1)|split; [exists (ku - k2)|exists kw]]; lia.
Qed.

Lemma init_system_inv : conf_inv init_system.
Proof. repeat split; constructor. Qed.

Lemma reachable_inv s : rtc sys_step init_system s -> conf_inv s.
Proof.
  intros H. assert (forall s0, rtc sys_step s0 s -> conf_inv s0 -> conf_inv s) as G.
  { clear H. intros s0 R. induction R; eauto using sys_step_inv. }
  eauto using init_system_inv.
Qed.

(** Concurrent updates of the latest-tick table, in every interleaving of
    their atomic operations: a reader always gets the last tick written for the
    symbol, and once every call has returned each call has written exactly once,
    the symbol counter is the number of symbols stored, and the update counter is
    the swaps plus the symbols (all modulo 2^64). *)
Theorem conflation_linear (s : system) :
  rtc sys_step init_system s ->
  (forall symbol, Latest (conf s) symbol = last_of symbol (log s)) /\
  (Forall (fun pc => exists p, pc = Returned p) (calls s) ->
   let st := Stats (conf s) in
   wrap 64 (Updates st) = wrap 64 (zlen (log s)) /\
   wrap 64 (Symbols st) = wrap 64 (Z.of_nat (size (cf_bySymbol (conf s)))) /\
   wrap 64 (Updates st) = wrap 64 (Swaps st + Symbols st)).
Proof.
  intros R. destruct (reachable_inv s R) as (_ & Hl & Hs & Hu & Hw). split; [exact Hl|].
  intros F. assert (forall f, (forall p, f (Returned p) = 0) -> tally f (calls s) = 0) as T.
  { intros f Hf. clear -F Hf. induction F as [|pc l [p ->] F IH]; simpl; [done|]. rewrite Hf, IH. done. }
  rewrite !T, !Z.add_0_r in * by done. simpl. done.
Qed.

(** A schedule: start a call, or let call [i] do its next operation. *)
Inductive sched := SCall (t : option Tick) | SRun (i : nat).

Definition exec1 (s : system) (e : sched) : system :=
  match e with
  | SCall t => mkSys (begin_update (conf s) t).1 (calls s ++ [(begin_update (conf s) t).2]) (log s)
  | SRun i =>
      match calls s !! i with
      | None => s
      | Some pc => mkSys (update_step (conf s) pc).1 (<[i := (update_step (conf s) pc).2]> (calls s))
                     (log s ++ writes (conf s) pc)
      end
  end.
Definition exec (s : system) (es : list sched) : system := fold_left exec1 es s.

Lemma exec_reachable s es : rtc sys_step init_system s -> rtc sys_step init_system (exec s es).
Proof.
  revert s. induction es as [|e es IH]; intros s R; [done|]. unfold exec in *. simpl. apply IH.
  destruct e as [t|i]; simpl.
  - eapply rtc_r; [exact R|]. constructor.
  - destruct (calls s !! i) eqn:E; [|done]. eapply rtc_r; [exact R|]. by constructor.
Qed.

Definition wtick (seq : Z) : Tick := mkTick 1 "USDKRW" seq 0 0 0 [] (mkTime seq 0) "SMB".

(** Two goroutines race to register the same new symbol. *)
Definition race : list sched :=
  [SCall (Some (wtick 1)); SCall (Some (wtick 2)); SRun 0; SRun 1; SRun 1; SRun 0; SRun 1; SRun 0; SRun 0].

Lemma conflation_linear_witness :
  let s := exec init_system race in
  Latest (conf s) "USDKRW" = Some (wtick 1) /\ Stats (conf s) = mkStats 1 2 1 /\
  wrap 64 (Updates (Stats (conf s))) = wrap 64 (Swaps (Stats (conf s)) + Symbols (Stats (conf s))).
Proof.
  split; [vm_compute; reflexivity|]. split; [vm_compute; reflexivity|].
  refine (proj2 (proj2 (proj2 (conflation_linear (exec init_system race) _) _))).
  - apply exec_reachable. apply rtc_refl.
  - vm_compute. repeat (constructor; [eexists; reflexivity|]). constructor.
Defined.

(** An undisturbed call returns the tick it replaces. *)
Lemma Conflation_Update_spec c t :
  exists c', Conflation_Update c (Some t) = (c', Some (Latest c (tk_Symbol t))) /\
    cf_bySymbol c' = <[tk_Symbol t := t]> (cf_bySymbol c).
Proof.
  unfold Conflation_Update, Latest. simpl. destruct (cf_bySymbol c !! tk_Symbol t) eqn:E; simpl;
    rewrite E; simpl; eexists; split; reflexivity.
Qed.
