(* ===== verification/Best.v ===== *)
(** The best-quote consumer (src/internal/price/best.go) and the quote envelope it
    reads and writes (src/pkg/quote/codec.go): per-source quotes of a symbol are
    merged into the best bid and ask, with staleness, crossed-book fallback and
    duplicate suppression. *)

From Stdlib Require Import ZArith QArith Lia.
From S2P Require Import Prelude GoStrings Float64 Dates Pricing Bars.
Local Open Scope Z_scope.
Local Open Scope wtg_scope.

(** * The envelope (src/pkg/quote/codec.go) *)

Record JSONEnvelope := mkEnv {
  e_Sym : string; e_Bid : f64; e_Ask : f64; e_TS : Time; e_Src : string; e_Seq : Z;
  e_Last : f64; e_LastQty : f64; e_BidSize : f64; e_AskSize : f64 }.

Inductive EnvErr := ErrEnvelopeEmpty | ErrEnvelopeJSON | ErrEnvelopeMissingSym | ErrEnvelopeInvalidBidAsk.

(** [bytes.TrimRight(body, "\x00")]. *)
Fixpoint drop_nul (l : list byte) : list byte :=
  match l with x00 :: l => drop_nul l | _ => l end.
Definition TrimRight_nul (l : list byte) : list byte := rev (drop_nul (rev l)).

(** The UTF-8 encodings of the characters [unicode.IsSpace] accepts. *)
Definition space_encodings : list (list byte) :=
  [[x09]; [x0a]; [x0b]; [x0c]; [x0d]; [x20]; [xc2; x85]; [xc2; xa0]; [xe1; x9a; x80];
   [xe2; x80; x80]; [xe2; x80; x81]; [xe2; x80; x82]; [xe2; x80; x83]; [xe2; x80; x84];
   [xe2; x80; x85]; [xe2; x80; x86]; [xe2; x80; x87]; [xe2; x80; x88]; [xe2; x80; x89];
   [xe2; x80; x8a]; [xe2; x80; xa8]; [xe2; x80; xa9]; [xe2; x80; xaf]; [xe2; x81; x9f]; [xe3; x80; x80]].

Fixpoint strip_prefix (e l : list byte) : option (list byte) :=
  match e, l with
  | [], _ => Some l
  | x :: e, y :: l => if decide (x = y) then strip_prefix e l else None
  | _, [] => None
  end.

(** Every round strips at least one byte: the length is enough fuel. *)
Fixpoint trim_front (fuel : nat) (es : list (list byte)) (l : list byte) : list byte :=
  match fuel with
  | O => l
  | S fuel => match head (omap (fun e => strip_prefix e l) es) with Some l' => trim_front fuel es l' | None => l end
  end.

(** [bytes.TrimSpace]. *)
Definition TrimSpace (l : list byte) : list byte :=
  let l := trim_front (length l) space_encodings l in
  rev (trim_front (length l) (map (@rev byte) space_encodings) (rev l)).

(** [encoding/json] is outside: [unmarshal] and [marshal] are its two functions on
    the envelope, [None] an error. *)
Definition DecodeJSONEnvelope (unmarshal : list byte -> option JSONEnvelope) (body : list byte)
    : res EnvErr JSONEnvelope :=
  match body with
  | [] => Err ErrEnvelopeEmpty
  | _ =>
      match TrimSpace (TrimRight_nul body) with
      | [] => Err ErrEnvelopeEmpty
      | body =>
          match unmarshal body with
          | None => Err ErrEnvelopeJSON
          | Some env =>
              if bool_decide (e_Sym env = "") then Err ErrEnvelopeMissingSym
              else if (e_Bid env <=f f0) || (e_Ask env <=f f0) || (e_Ask env <f e_Bid env)
              then Err ErrEnvelopeInvalidBidAsk
              else Ok env
          end
      end
  end.

(** * The consumer *)

Definition SourceBest : string := "BEST".

Record DedupOptions := mkDedupOpt {
  Enabled : bool; TickSizeMultiplier : f64; TickSizeOverride : gmap string f64 }.
Record BestOptions := mkBestOpt { MaxStaleness : Z; Dedup : DedupOptions }.

Record lastEmit := mkLast { le_bid : f64; le_ask : f64; hasValue : bool }.
Record sourceQuote := mkSQ { sq_bid : f64; sq_ask : f64; sq_bidSize : f64; sq_askSize : f64; sq_ts : Z }.
Record tradeVal := mkTrade { px : f64; qty : f64 }.

(** Times of the local clock are nanoseconds. *)
Record BestConsumer := mkBest {
  maxStaleness : Z;
  cache : gmap string (gmap string sourceQuote);
  rejectedQuotes : Z;
  dedup : DedupOptions;
  lastEmitted : gmap string lastEmit;
  dedupDroppedSame : Z; dedupDroppedBelowTick : Z; emittedTotal : Z;
  lastTrade : gmap string tradeVal }.

Definition NewBestConsumer (opts : BestOptions) : BestConsumer :=
  {| maxStaleness := if MaxStaleness opts =? 0 then 30 * ns_per_sec else MaxStaleness opts;
     cache := ∅; rejectedQuotes := 0;
     dedup := if TickSizeMultiplier (Dedup opts) <f f0
              then mkDedupOpt (Enabled (Dedup opts)) f0 (TickSizeOverride (Dedup opts)) else Dedup opts;
     lastEmitted := ∅; dedupDroppedSame := 0; dedupDroppedBelowTick := 0; emittedTotal := 0;
     lastTrade := ∅ |}.

Definition absDiff (a b : f64) : f64 := if b <f a then a -f b else b -f a.

Definition ascii_upper (c : Ascii.ascii) : Ascii.ascii :=
  let n := Ascii.nat_of_ascii c in
  if ((97 <=? n) && (n <=? 122))%nat then Ascii.ascii_of_nat (n - 32) else c.
Fixpoint upper (s : string) : string :=
  match s with EmptyString => EmptyString | String c s => String (ascii_upper c) (upper s) end.

Definition symbolQuoteTickSize (symbol : string) : f64 :=
  if (String.length symbol <? 6)%nat then f0 else
  let q := upper (String.substring (String.length symbol - 3) 3 symbol) in
  if bool_decide (q ∈ ["JPY"; "KRW"; "CNY"; "TWD"; "IDR"; "VND"]) then lit (1 # 100) else lit (1 # 10000).

Definition tickSizeFor (b : BestConsumer) (symbol : string) : f64 :=
  match TickSizeOverride (dedup b) !! symbol with
  | Some v => if f0 <f v then v else symbolQuoteTickSize symbol
  | None => symbolQuoteTickSize symbol
  end.

(** (skip, same price) *)
Definition shouldDedupLocked (b : BestConsumer) (symbol : string) (bid ask : f64) : bool * bool :=
  if negb (Enabled (dedup b)) then (false, false) else
  match lastEmitted b !! symbol with
  | None => (false, false)
  | Some prev =>
      if negb (hasValue prev) then (false, false)
      else if (le_bid prev ==f bid) && (le_ask prev ==f ask) then (true, true)
      else if f0 <f TickSizeMultiplier (dedup b) then
        let ts := tickSizeFor b symbol in
        if f0 <f ts then
          let threshold := ts *f TickSizeMultiplier (dedup b) in
          if (absDiff (le_bid prev) bid <f threshold) && (absDiff (le_ask prev) ask <f threshold)
          then (true, false) else (false, false)
        else (false, false)
      else (false, false)
  end.

(** [time.Time.Sub] saturates. *)
Definition Sub (t u : Z) : Z := Z.max (- 2 ^ 63) (Z.min (2 ^ 63 - 1) (t - u)).
Definition stale (maxStaleness now : Z) (sq : sourceQuote) : bool :=
  (0 <=? maxStaleness) && (maxStaleness <? Sub now (sq_ts sq)).

(** Loop state of [recomputeLocked]: none before the first active source ([first],
    [hasNewest]), then bid, ask with their sizes and the newest quote. *)
Record best_acc := mkAcc { a_bid : f64; a_ask : f64; a_bidSize : f64; a_askSize : f64; newest : sourceQuote }.

Definition merge_quote (acc : option best_acc) (sq : sourceQuote) : best_acc :=
  match acc with
  | None => mkAcc (sq_bid sq) (sq_ask sq) (sq_bidSize sq) (sq_askSize sq) sq
  | Some a =>
      let up := a_bid a <f sq_bid sq in
      let down := sq_ask sq <f a_ask a in
      {| a_bid := if up then sq_bid sq else a_bid a; a_bidSize := if up then sq_bidSize sq else a_bidSize a;
         a_ask := if down then sq_ask sq else a_ask a; a_askSize := if down then sq_askSize sq else a_askSize a;
         newest := if sq_ts (newest a) <? sq_ts sq then sq else newest a |}
  end.

Fixpoint recompute_loop (maxStaleness now : Z) (quotes : list sourceQuote) (acc : option best_acc) (srcCount : Z)
    : option best_acc * Z :=
  match quotes with
  | [] => (acc, srcCount)
  | sq :: rest =>
      if stale maxStaleness now sq then recompute_loop maxStaleness now rest acc srcCount
      else recompute_loop maxStaleness now rest (Some (merge_quote acc sq)) (srcCount + 1)
  end.

Record best_quote := mkBQ { bq_bid : f64; bq_ask : f64; bq_bidSize : f64; bq_askSize : f64; bq_srcCount : Z }.

(** [quotes] is the per-source map in the order the range visits it. *)
Definition recomputeLocked (maxStaleness now : Z) (quotes : list sourceQuote) : best_quote :=
  match recompute_loop maxStaleness now quotes None 0 with
  | (None, n) => mkBQ f0 f0 f0 f0 n
  | (Some a, n) =>
      if (1 <? n) && (a_ask a <f a_bid a)
      then mkBQ (sq_bid (newest a)) (sq_ask (newest a)) (sq_bidSize (newest a)) (sq_askSize (newest a)) (- n)
      else mkBQ (a_bid a) (a_ask a) (a_bidSize a) (a_askSize a) n
  end.

(** ** The handler *)
Section consumer.
Context (unmarshal : list byte -> option JSONEnvelope) (marshal : JSONEnvelope -> option (list byte))
  (iter : gmap string sourceQuote -> list sourceQuote).

(** The clock readings of a call: the cache stamp, [recomputeLocked]'s now, the
    envelope's and the tick's timestamps. *)
Record clock := mkClock { c_cache : Z; c_now : Z; c_env : Z; c_recv : Z }.

Definition incr64 (z : Z) : Z := wrap 64 (z + 1).

Definition zero_trade : tradeVal := mkTrade f0 f0.

(** The state change under the lock: the cached quote, the last trade, the best and
    the dedup decision. *)
Definition absorb (b : BestConsumer) (t : Tick) (env : JSONEnvelope) (c : clock)
    : BestConsumer * tradeVal * best_quote * (bool * bool) :=
  let sym := tk_Symbol t in
  let sq := mkSQ (e_Bid env) (e_Ask env) (e_BidSize env) (e_AskSize env) (c_cache c) in
  let bySource := <[tk_Source t := sq]> (default ∅ (cache b !! sym)) in
  let trades := if f0 <f e_Last env then <[sym := mkTrade (e_Last env) (e_LastQty env)]> (lastTrade b) else lastTrade b in
  let bq := recomputeLocked (maxStaleness b) (c_now c) (iter bySource) in
  let '(skip, same) := shouldDedupLocked b sym (bq_bid bq) (bq_ask bq) in
  ({| maxStaleness := maxStaleness b; cache := <[sym := bySource]> (cache b);
      rejectedQuotes := rejectedQuotes b; dedup := dedup b;
      lastEmitted := if skip then lastEmitted b else <[sym := mkLast (bq_bid bq) (bq_ask bq) true]> (lastEmitted b);
      dedupDroppedSame := if skip && same then incr64 (dedupDroppedSame b) else dedupDroppedSame b;
      dedupDroppedBelowTick := if skip && negb same then incr64 (dedupDroppedBelowTick b) else dedupDroppedBelowTick b;
      emittedTotal := emittedTotal b; lastTrade := trades |},
   default zero_trade (trades !! sym), bq, (skip, same)).

(** The synthetic envelope and tick. *)
Definition best_env (t : Tick) (bq : best_quote) (lt : tradeVal) (c : clock) : JSONEnvelope :=
  {| e_Sym := tk_Symbol t; e_Bid := bq_bid bq; e_Ask := bq_ask bq; e_TS := mkTime (c_env c) 0;
     e_Src := SourceBest; e_Seq := tk_SeqNum t; e_Last := px lt; e_LastQty := qty lt;
     e_BidSize := bq_bidSize bq; e_AskSize := bq_askSize bq |}.
Definition best_tick (t : Tick) (body : list byte) (c : clock) : Tick :=
  mkTick (tk_MarketID t) (tk_Symbol t) (tk_SeqNum t) (tk_Mask t) (tk_Type t) (tk_Flag t) body
    (mkTime (c_recv c) 0) SourceBest.

Definition set_counts (b : BestConsumer) (rejected emitted : Z) : BestConsumer :=
  {| maxStaleness := maxStaleness b; cache := cache b; rejectedQuotes := rejected; dedup := dedup b;
     lastEmitted := lastEmitted b; dedupDroppedSame := dedupDroppedSame b;
     dedupDroppedBelowTick := dedupDroppedBelowTick b; emittedTotal := emitted; lastTrade := lastTrade b |}.

(** The new state and, when a best tick is handed downstream, its envelope and tick. *)
Definition Best_OnTick (b : BestConsumer) (t : option Tick) (c : clock) : BestConsumer * option (JSONEnvelope * Tick) :=
  match t with
  | None => (b, None)
  | Some t =>
      if bool_decide (tk_Symbol t = "") then (b, None)
      else if bool_decide (tk_Source t = "") then (b, None)
      else if bool_decide (tk_Source t = SourceBest) then (b, None)
      else match DecodeJSONEnvelope unmarshal (tk_Body t) with
      | Ok env =>
          let '(b, lt, bq, (skip, _)) := absorb b t env c in
          if skip then (b, None)
          else if bq_srcCount bq =? 0 then (b, None)
          else let e := best_env t bq lt c in
          match marshal e with
          | None => (b, None)
          | Some body => (set_counts b (rejectedQuotes b) (incr64 (emittedTotal b)), Some (e, best_tick t body c))
          end
      | _ => (set_counts b (incr64 (rejectedQuotes b)) (emittedTotal b), None)
      end
  end.

(** ** The snapshot [Stats]

    [rnow] are the readings [recomputeLocked] makes, one per symbol. A symbol whose
    sources are all stale keeps its entry, with the zero best of
    [recomputeLocked]. *)
Record BestSourceQuote := mkBSQ { bs_Bid : f64; bs_Ask : f64; bs_TS : Z }.
Record BestSymbolStat := mkBSS {
  ActiveSources : Z; Sources : list string; SourceQuotes : gmap string BestSourceQuote;
  BestBid : f64; BestAsk : f64; CrossedFallbck : bool }.
Record BestDedupStats := mkBDS {
  bd_Enabled : bool; bd_TickSizeMultiplier : f64; bd_Emitted : Z; bd_DroppedSamePrice : Z; bd_DroppedBelowTick : Z }.
Record BestStats := mkBST {
  Symbols : gmap string BestSymbolStat; st_RejectedQuotes : Z; st_Dedup : BestDedupStats }.

Definition symbol_stat (maxStaleness rnow now : Z) (bySource : gmap string sourceQuote) : BestSymbolStat :=
  let bq := recomputeLocked maxStaleness rnow (iter bySource) in
  let n := bq_srcCount bq in
  let act := filter (fun '(_, sq) => stale maxStaleness now sq = false) bySource in
  {| ActiveSources := if n <? 0 then - n else n;
     Sources := sort_Strings (map fst (map_to_list act));
     SourceQuotes := (fun sq => mkBSQ (sq_bid sq) (sq_ask sq) (sq_ts sq)) <$> act;
     BestBid := bq_bid bq; BestAsk := bq_ask bq; CrossedFallbck := n <? 0 |}.

Definition Stats (b : BestConsumer) (rnow : string -> Z) (now : Z) : BestStats :=
  {| Symbols := map_imap (fun sym bySource => Some (symbol_stat (maxStaleness b) (rnow sym) now bySource)) (cache b);
     st_RejectedQuotes := rejectedQuotes b;
     st_Dedup := mkBDS (Enabled (dedup b)) (TickSizeMultiplier (dedup b)) (emittedTotal b)
                   (dedupDroppedSame b) (dedupDroppedBelowTick b) |}.

(** A feed: the state after the calls and what was handed downstream, in order. *)
Fixpoint feed (b : BestConsumer) (ts : list (option Tick * clock)) : BestConsumer * list (JSONEnvelope * Tick) :=
  match ts with
  | [] => (b, [])
  | (t, c) :: rest =>
      let '(b, o) := Best_OnTick b t c in
      let '(b, out) := feed b rest in (b, option_list o ++ out)
  end.
End consumer.
