(* ===== verification/BestLaws.v ===== *)
(** What the best-quote consumer guarantees: the best of the active sources, never
    a crossed quote, and that duplicate suppression never hides a price change. *)

From Stdlib Require Import ZArith QArith Lia.
From S2P Require Import Prelude Float64 Dates Pricing Bars Best.
Local Open Scope Z_scope.
Local Open Scope wtg_scope.

(** * The best of the active sources *)

(** What the decoder lets into the cache. *)
Definition valid (sq : sourceQuote) : Prop := (f0 <f sq_bid sq) = true /\ (sq_bid sq <=f sq_ask sq) = true.

Definition active (ms now : Z) (quotes : list sourceQuote) : list sourceQuote :=
  filter (fun sq => stale ms now sq = false) quotes.

(** The loop state after the active quotes [seen]. *)
Definition acc_ok (acc : option best_acc) (seen : list sourceQuote) : Prop :=
  match acc with
  | None => seen = []
  | Some a =>
      is_max (a_bid a) (map sq_bid seen) /\ is_min (a_ask a) (map sq_ask seen) /\
      (newest a ∈ seen /\ forall sq, sq ∈ seen -> sq_ts sq <= sq_ts (newest a)) /\
      (exists s, s ∈ seen /\ sq_bid s = a_bid a /\ sq_bidSize s = a_bidSize a) /\
      (exists s, s ∈ seen /\ sq_ask s = a_ask a /\ sq_askSize s = a_askSize a)
  end.

Lemma valid_not_nan sq : valid sq -> sq_bid sq <> NaN /\ sq_ask sq <> NaN.
Proof. intros [_ H]. split; [by eapply fleb_nan_l|by eapply fleb_nan_r]. Qed.

Lemma map_in_not_nan (f : sourceQuote -> f64) seen x :
  (forall sq, valid sq -> f sq <> NaN) -> Forall valid seen -> x ∈ map f seen -> x <> NaN.
Proof. intros Hf F (s & -> & Hs)%list_elem_of_fmap. rewrite Forall_forall in F. auto. Qed.

Lemma in_snoc {A} (x y : A) l : x ∈ l -> x ∈ l ++ [y].
Proof. rewrite elem_of_app. auto. Qed.
Lemma in_snoc_last {A} (x : A) l : x ∈ l ++ [x].
Proof. rewrite elem_of_app, list_elem_of_singleton. auto. Qed.

Lemma merge_ok acc seen sq :
  Forall valid seen -> valid sq -> acc_ok acc seen -> acc_ok (Some (merge_quote acc sq)) (seen ++ [sq]).
Proof.
  intros F V. destruct (valid_not_nan sq V) as [Nb Na]. destruct acc as [a|]; simpl.
  - intros (Hmax & Hmin & [Hn1 Hn2] & (sb & Sb1 & Sb2 & Sb3) & (sa & Sa1 & Sa2 & Sa3)).
    assert (a_bid a <> NaN) by (apply (map_in_not_nan sq_bid seen); [apply valid_not_nan|done|apply Hmax]).
    assert (a_ask a <> NaN) by (apply (map_in_not_nan sq_ask seen); [apply valid_not_nan|done|apply Hmin]).
    rewrite !map_app. split; [by apply is_max_step|]. split; [by apply is_min_step|]. split; [split|split].
    + case_if; auto using in_snoc, in_snoc_last.
    + intros s [Hs| ->%list_elem_of_singleton]%elem_of_app; [apply Hn2 in Hs|]; case_if; bool_lia.
    + destruct (a_bid a <f sq_bid sq); [exists sq|exists sb]; auto using in_snoc, in_snoc_last.
    + destruct (sq_ask sq <f a_ask a); [exists sq|exists sa]; auto using in_snoc, in_snoc_last.
  - intros ->. simpl. pose proof (in_snoc_last sq []) as I. simpl in I.
    repeat split; try (by apply list_elem_of_singleton); try (by exists sq);
      intros x ->%list_elem_of_singleton; auto using fleb_refl; lia.
Qed.

Lemma recompute_loop_ok ms now quotes acc seen :
  Forall valid quotes -> Forall valid seen -> acc_ok acc seen ->
  let '(acc', n) := recompute_loop ms now quotes acc (zlen seen) in
  acc_ok acc' (seen ++ active ms now quotes) /\ n = zlen (seen ++ active ms now quotes).
Proof.
  intros Fq. revert acc seen. induction Fq as [|sq quotes V Fq IH]; intros acc seen Fs H; simpl.
  - unfold active. rewrite filter_nil, app_nil_r. done.
  - unfold active. rewrite filter_cons. destruct (stale ms now sq) eqn:E.
    + rewrite decide_False by done. by apply IH.
    + rewrite decide_True by done. specialize (IH (Some (merge_quote acc sq)) (seen ++ [sq])).
      rewrite length_app in IH. simpl in IH. rewrite Nat2Z.inj_add, <-app_assoc in IH. simpl in IH.
      apply IH; [|by apply merge_ok]. apply Forall_app. split; [done|]. by constructor.
Qed.

(** A crossed pair of extrema needs two sources. *)
Lemma crossed_two act b a :
  Forall valid act -> is_max b (map sq_bid act) -> is_min a (map sq_ask act) -> (a <f b) = true -> (1 < length act)%nat.
Proof.
  intros F [Hb _] [Ha _] C. destruct act as [|s [|s' act]]; simpl in *; [by apply elem_of_nil in Hb| |lia].
  apply list_elem_of_singleton in Hb as ->, Ha as ->. apply Forall_cons in F as [[_ V] _].
  unfold fltb in C. rewrite V in C. by rewrite andb_false_r in C.
Qed.

(** The best of the active quotes [act], as the code means it. *)
Definition is_best (act : list sourceQuote) (r : best_quote) : Prop :=
  exists b a, is_max b (map sq_bid act) /\ is_min a (map sq_ask act) /\
  if a <f b then
    exists s, s ∈ act /\ (forall s', s' ∈ act -> sq_ts s' <= sq_ts s) /\
      r = mkBQ (sq_bid s) (sq_ask s) (sq_bidSize s) (sq_askSize s) (- zlen act)
  else
    bq_bid r = b /\ bq_ask r = a /\ bq_srcCount r = zlen act /\
    (exists s, s ∈ act /\ sq_bid s = b /\ sq_bidSize s = bq_bidSize r) /\
    (exists s, s ∈ act /\ sq_ask s = a /\ sq_askSize s = bq_askSize r).

Lemma active_valid ms now quotes : Forall valid quotes -> Forall valid (active ms now quotes).
Proof. rewrite !Forall_forall. intros F s [_ Hs]%list_elem_of_filter. auto. Qed.

Lemma recompute_is_best ms now quotes :
  Forall valid quotes -> active ms now quotes <> [] -> is_best (active ms now quotes) (recomputeLocked ms now quotes).
Proof.
  intros F Hne. unfold recomputeLocked.
  pose proof (recompute_loop_ok ms now quotes None [] F (Forall_nil_2 _) eq_refl) as L.
  change (zlen (@nil sourceQuote)) with 0 in L. simpl app in L.
  pose proof (active_valid ms now quotes F) as Fa.
  revert L. destruct (recompute_loop ms now quotes None 0) as [[a|] n]; intros [L ->]; [|by simpl in L].
  destruct L as (Hmax & Hmin & [N1 N2] & Sb & Sa). exists (a_bid a), (a_ask a). do 2 (split; [done|]).
  destruct (a_ask a <f a_bid a) eqn:C.
  - pose proof (crossed_two _ _ _ Fa Hmax Hmin C). rewrite (proj2 (Z.ltb_lt _ _)) by lia. simpl.
    exists (newest a). auto.
  - rewrite andb_false_r. simpl. auto.
Qed.

Lemma fltb_le_trans x y z : (x <f y) = true -> (y <=f z) = true -> (x <f z) = true.
Proof.
  unfold fltb. rewrite !andb_true_iff, !negb_true_iff. intros [A B] C. split; [by eapply fleb_trans|].
  apply not_true_iff_false. intros D. apply not_true_iff_false in B. apply B. by eapply fleb_trans.
Qed.

Lemma is_best_uncrossed act r :
  Forall valid act -> is_best act r -> (f0 <f bq_bid r) = true /\ (bq_bid r <=f bq_ask r) = true /\ bq_srcCount r <> 0.
Proof.
  intros F (b & a & Hmax & Hmin & H). rewrite Forall_forall in F.
  destruct Hmax as [Ib Hmax], Hmin as [Ia Hmin].
  assert (act <> []) as Hne by (by intros ->; apply elem_of_nil in Ib).
  assert (0 < zlen act) by (destruct act; [done|simpl; lia]).
  apply list_elem_of_fmap in Ib as (sb & -> & Ib). apply list_elem_of_fmap in Ia as (sa & -> & Ia).
  destruct (F _ Ib) as [Pb Qb]. destruct (F _ Ia) as [Pa Qa].
  destruct (sq_ask sa <f sq_bid sb) eqn:C.
  - destruct H as (s & Is & _ & ->). simpl. destruct (F _ Is). repeat split; auto. lia.
  - destruct H as (-> & -> & -> & _). repeat split; auto; [|lia].
    apply fltb_false; [..|done]; [by eapply fleb_nan_r|by eapply fleb_nan_l].
Qed.

Lemma recompute_none ms now quotes :
  Forall valid quotes -> active ms now quotes = [] -> recomputeLocked ms now quotes = mkBQ f0 f0 f0 f0 0.
Proof.
  intros F E. unfold recomputeLocked.
  pose proof (recompute_loop_ok ms now quotes None [] F (Forall_nil_2 _) eq_refl) as L.
  change (zlen (@nil sourceQuote)) with 0 in L. simpl app in L. rewrite E in L.
  revert L. destruct (recompute_loop ms now quotes None 0) as [[a|] n]; intros [L ->]; [|done].
  destruct L as ([I _] & _). by apply elem_of_nil in I.
Qed.

(** C21. The best of the sources, for every order in which the per-source map is
    visited: when every active source is uncrossed, the bid is the highest active
    bid and the ask the lowest active ask, each with the size of a source that
    quotes it; when those two cross, both sides come from one of the most recent
    active sources and the count is negative. The result is never crossed; with no
    active source it is zero. *)
Theorem best_of_sources (ms now : Z) (quotes : list sourceQuote) :
  Forall valid quotes ->
  let r := recomputeLocked ms now quotes in
  match active ms now quotes with
  | [] => r = mkBQ f0 f0 f0 f0 0
  | act => is_best act r /\ (f0 <f bq_bid r) = true /\ (bq_bid r <=f bq_ask r) = true
  end.
Proof.
  intros F. pose proof (recompute_none ms now quotes F) as N. pose proof (recompute_is_best ms now quotes F) as B.
  pose proof (active_valid ms now quotes F) as Fa. cbv zeta.
  destruct (active ms now quotes) as [|s act]; [by apply N|].
  specialize (B ltac:(done)). split; [done|]. destruct (is_best_uncrossed _ _ Fa B) as (? & ? & _). done.
Qed.

Definition wit_sq (bid ask ts : Z) : sourceQuote := mkSQ (f_of_Z bid) (f_of_Z ask) f1 f2 ts.

Lemma best_of_sources_witness :
  let q := [wit_sq 99 104 5; wit_sq 101 103 6; wit_sq 110 111 1] in
  active 3 8 q = [wit_sq 99 104 5; wit_sq 101 103 6] /\
  recomputeLocked 3 8 q = mkBQ (f_of_Z 101) (f_of_Z 103) f1 f2 2 /\
  recomputeLocked 10 8 q = mkBQ (f_of_Z 101) (f_of_Z 103) f1 f2 (-3) /\
  is_best [wit_sq 99 104 5; wit_sq 101 103 6] (recomputeLocked 3 8 q).
Proof.
  split; [vm_compute; reflexivity|]. split; [vm_compute; reflexivity|]. split; [vm_compute; reflexivity|].
  assert (Forall valid [wit_sq 99 104 5; wit_sq 101 103 6; wit_sq 110 111 1]) as F.
  { repeat constructor; vm_compute; reflexivity. }
  exact (proj1 (best_of_sources 3 8 [wit_sq 99 104 5; wit_sq 101 103 6; wit_sq 110 111 1] F)).
Defined.

(** * The stream handed downstream *)
Section stream.
Context (unmarshal : list byte -> option JSONEnvelope) (marshal : JSONEnvelope -> option (list byte))
  (iter : gmap string sourceQuote -> list sourceQuote).

(** A range over a Go map visits every entry once, in some order. *)
Context (iter_entries : forall m, iter m ≡ₚ (map_to_list m).*2).
(** [encoding/json] never produces a NaN. *)
Context (json_no_nan : forall body env, unmarshal body = Some env -> e_Bid env <> NaN /\ e_Ask env <> NaN).

Definition cache_valid (b : BestConsumer) : Prop :=
  forall sym m, cache b !! sym = Some m -> map_Forall (fun _ => valid) m.

Lemma decoded_valid body env c :
  DecodeJSONEnvelope unmarshal body = Ok env ->
  valid (mkSQ (e_Bid env) (e_Ask env) (e_BidSize env) (e_AskSize env) c).
Proof.
  unfold DecodeJSONEnvelope. destruct body as [|x body]; [done|].
  destruct (TrimSpace _) as [|y l]; [done|]. destruct (unmarshal (y :: l)) as [e|] eqn:E; [|done].
  case_if; [done|]. destruct (_ || _) eqn:C; [done|]. intros [= ->].
  destruct (json_no_nan _ _ E) as [Nb Na]. apply orb_false_iff in C as [[C1 C2]%orb_false_iff C3].
  split; simpl.
  - unfold fltb. rewrite C1. simpl. rewrite andb_true_r.
    destruct (fleb_total f0 (e_Bid env)) as [?|X]; [done|done|done|]. congruence.
  - by apply fltb_false.
Qed.

Lemma iter_valid m : map_Forall (fun _ => valid) m -> Forall valid (iter m).
Proof.
  intros H. rewrite iter_entries, Forall_forall. intros s Hs.
  apply list_elem_of_fmap in Hs as ([k s'] & -> & Hk). apply elem_of_map_to_list in Hk. by apply (H k).
Qed.

(** The per-source map [absorb] recomputes from. *)
Definition sources_after (b : BestConsumer) (t : Tick) (env : JSONEnvelope) (c : clock) : gmap string sourceQuote :=
  <[tk_Source t := mkSQ (e_Bid env) (e_Ask env) (e_BidSize env) (e_AskSize env) (c_cache c)]>
    (default ∅ (cache b !! tk_Symbol t)).

Lemma sources_valid b t env c :
  cache_valid b -> DecodeJSONEnvelope unmarshal (tk_Body t) = Ok env -> map_Forall (fun _ => valid) (sources_after b t env c).
Proof.
  intros H D. unfold sources_after. apply map_Forall_insert_2; [by eapply decoded_valid|].
  destruct (cache b !! tk_Symbol t) as [m|] eqn:E; simpl; [by eapply H|]. intros k s. by rewrite lookup_empty.
Qed.

Lemma absorb_eq b t env c b' lt bq skip same :
  absorb iter b t env c = (b', lt, bq, (skip, same)) ->
  cache b' = <[tk_Symbol t := sources_after b t env c]> (cache b) /\
  bq = recomputeLocked (maxStaleness b) (c_now c) (iter (sources_after b t env c)) /\
  shouldDedupLocked b (tk_Symbol t) (bq_bid bq) (bq_ask bq) = (skip, same) /\
  maxStaleness b' = maxStaleness b /\ dedup b' = dedup b /\
  lastEmitted b' = if skip then lastEmitted b
    else <[tk_Symbol t := mkLast (bq_bid bq) (bq_ask bq) true]> (lastEmitted b).
Proof.
  unfold absorb, sources_after. cbv zeta. set (r := recomputeLocked _ _ _).
  destruct (shouldDedupLocked b (tk_Symbol t) (bq_bid r) (bq_ask r)) as [sk sm] eqn:E.
  intros [= <- <- <- <- <-]. done.
Qed.

(** A tick that passes the handler's guards, with its decoded envelope. *)
Definition accepts (t : option Tick) (tk : Tick) (env : JSONEnvelope) : Prop :=
  t = Some tk /\ tk_Symbol tk <> "" /\ tk_Source tk <> "" /\ tk_Source tk <> SourceBest /\
  DecodeJSONEnvelope unmarshal (tk_Body tk) = Ok env.

Ltac rejected := repeat split; intros tk' env' ([= <-] & ? & ? & ? & ?); congruence.

(** One call, with the reasons for which a tick goes no further. *)
Lemma OnTick_inv b t c b' o :
  Best_OnTick unmarshal marshal iter b t c = (b', o) ->
  (cache b' = cache b /\ lastEmitted b' = lastEmitted b /\ dedup b' = dedup b /\ maxStaleness b' = maxStaleness b /\
     o = None /\ forall tk env, ~ accepts t tk env) \/
  (exists tk env b1 lt bq skip same,
     accepts t tk env /\
     absorb iter b tk env c = (b1, lt, bq, (skip, same)) /\
     cache b' = cache b1 /\ lastEmitted b' = lastEmitted b1 /\ dedup b' = dedup b1 /\ maxStaleness b' = maxStaleness b1 /\
     (o = None \/ skip = false /\ bq_srcCount bq <> 0 /\
        exists body, marshal (best_env tk bq lt c) = Some body /\ o = Some (best_env tk bq lt c, best_tick tk body c)) /\
     (o = None -> skip = true \/ bq_srcCount bq = 0 \/ marshal (best_env tk bq lt c) = None)).
Proof.
  unfold Best_OnTick, accepts. destruct t as [tk|]; [|intros [= <- <-]; left; repeat split; by intros ? ? [? _]].
  do 3 (case_bool_decide; [intros [= <- <-]; left; rejected|]).
  destruct (DecodeJSONEnvelope unmarshal (tk_Body tk)) as [env|e|] eqn:D;
    [|intros [= <- <-]; left; rejected..].
  destruct (absorb iter b tk env c) as [[[b1 lt] bq] [skip same]] eqn:A. intros H2. right.
  exists tk, env, b1, lt, bq, skip, same. split; [done|]. split; [done|].
  destruct skip; [injection H2 as <- <-; by auto 8|].
  destruct (Z.eqb_spec (bq_srcCount bq) 0) as [Z0|Z0]; [injection H2 as <- <-; by auto 8|].
  destruct (marshal (best_env tk bq lt c)) as [body|] eqn:M; injection H2 as <- <-; simpl.
  - do 4 (split; [done|]). split; [right; eauto|done].
  - by auto 8.
Qed.

Definition good_best (e : JSONEnvelope) : Prop :=
  e_Src e = SourceBest /\ (f0 <f e_Bid e) = true /\ (e_Bid e <=f e_Ask e) = true.

Lemma OnTick_good b t c b' o :
  cache_valid b -> Best_OnTick unmarshal marshal iter b t c = (b', o) ->
  cache_valid b' /\ forall e tk, o = Some (e, tk) -> good_best e /\ marshal e = Some (tk_Body tk) /\ tk_Source tk = SourceBest.
Proof.
  intros V H. apply OnTick_inv in H as [(Ec & _ & _ & _ & -> & _)|H].
  { unfold cache_valid. rewrite Ec. done. }
  destruct H as (tk & env & b1 & lt & bq & skip & same & (_ & _ & _ & _ & D) & A & Ec & _ & _ & _ & Ho & _).
  apply absorb_eq in A as (Ec1 & -> & _). pose proof (sources_valid b tk env c V D) as Vs. split.
  - intros sym m. rewrite Ec, Ec1. rewrite lookup_insert_Some. intros [[_ <-]|[_ ?]]; [done|by eapply V].
  - intros e tk' ->. destruct Ho as [Ho|(_ & Hn & body & M & Ho)]; [done|]. injection Ho as -> ->.
    split; [|done]. pose proof (iter_valid _ Vs) as F.
    destruct (active (maxStaleness b) (c_now c) (iter (sources_after b tk env c))) as [|s act] eqn:E.
    + rewrite recompute_none in Hn by done. done.
    + destruct (is_best_uncrossed _ _ (active_valid _ _ _ F) (recompute_is_best (maxStaleness b) (c_now c) _ F ltac:(by rewrite E))) as (? & ? & _).
      done.
Qed.

Lemma feed_good b ts b' out :
  cache_valid b -> feed unmarshal marshal iter b ts = (b', out) ->
  cache_valid b' /\ Forall (fun et => good_best et.1 /\ marshal et.1 = Some (tk_Body et.2) /\ tk_Source et.2 = SourceBest) out.
Proof.
  revert b b' out. induction ts as [|[t c] ts IH]; intros b b' out V; simpl.
  { by intros [= <- <-]. }
  destruct (Best_OnTick unmarshal marshal iter b t c) as [b1 o] eqn:E1.
  destruct (feed unmarshal marshal iter b1 ts) as [b2 out2] eqn:E2. intros [= <- <-].
  destruct (OnTick_good _ _ _ _ _ V E1) as [V1 G]. destruct (IH _ _ _ V1 E2) as [V2 F2]. split; [done|].
  apply Forall_app. split; [|done]. destruct o as [[e tk]|]; simpl; [|done]. constructor; [|done]. by apply G.
Qed.
End stream.

(** Everything the consumer hands downstream, over any sequence of incoming
    ticks, clock readings and map orders, is a positive, uncrossed quote marked as
    the best source, and the tick's body is its encoding; a broken or unparsable
    incoming quote never reaches the cache. *)
Theorem best_stream_uncrossed
    (unmarshal : list byte -> option JSONEnvelope) (marshal : JSONEnvelope -> option (list byte))
    (iter : gmap string sourceQuote -> list sourceQuote) (opts : BestOptions) (ts : list (option Tick * clock)) :
  (forall m, iter m ≡ₚ (map_to_list m).*2) ->
  (forall body env, unmarshal body = Some env -> e_Bid env <> NaN /\ e_Ask env <> NaN) ->
  let '(b, out) := feed unmarshal marshal iter (NewBestConsumer opts) ts in
  cache_valid b /\
  Forall (fun et => good_best et.1 /\ marshal et.1 = Some (tk_Body et.2) /\ tk_Source et.2 = SourceBest) out.
Proof.
  intros Hi Hj. destruct (feed _ _ _ _ _) as [b out] eqn:E.
  eapply (feed_good unmarshal marshal iter Hi Hj); [|exact E]. intros sym m. simpl. by rewrite lookup_empty.
Qed.

Definition wit_unmarshal (body : list byte) : option JSONEnvelope :=
  match body with
  | b :: a :: _ => Some (mkEnv "USDKRW" (f_of_Z (b2z b)) (f_of_Z (b2z a)) (mkTime 0 0) "" 0 f0 f0 f1 f1)
  | _ => None
  end.
Definition wit_marshal (e : JSONEnvelope) : option (list byte) := Some [].
Definition wit_iter (m : gmap string sourceQuote) : list sourceQuote := (map_to_list m).*2.
Definition wit_feed (src : string) (bid ask : byte) (at_ : Z) : option Tick * clock :=
  (Some (mkTick 1 "USDKRW" 7 0 0 0 [bid; ask] (mkTime at_ 0) src), mkClock at_ at_ at_ at_).
Definition wit_opts : BestOptions := mkBestOpt 0 (mkDedupOpt true f0 ∅).
Definition wit_ticks : list (option Tick * clock) :=
  [wit_feed "SMB" x63 x68 10; wit_feed "KMB" x65 x67 20; wit_feed "EBS" x70 x60 30; wit_feed "SMB" x63 x69 40].

Lemma wit_no_nan body env : wit_unmarshal body = Some env -> e_Bid env <> NaN /\ e_Ask env <> NaN.
Proof.
  destruct body as [|b [|a body]]; try done. intros [= <-]. split; apply fround_not_nan.
Qed.

Lemma best_stream_uncrossed_witness :
  let '(b, out) := feed wit_unmarshal wit_marshal wit_iter (NewBestConsumer wit_opts) wit_ticks in
  (rejectedQuotes b = 1 /\ dedupDroppedSame b = 1 /\
   map (fun et => (e_Bid et.1, e_Ask et.1)) out = [(f_of_Z 99, f_of_Z 104); (f_of_Z 101, f_of_Z 103)]) /\
  cache_valid b /\
  Forall (fun et => good_best et.1 /\ wit_marshal et.1 = Some (tk_Body et.2) /\ tk_Source et.2 = SourceBest) out.
Proof.
  pose proof (best_stream_uncrossed wit_unmarshal wit_marshal wit_iter wit_opts wit_ticks (fun m => Permutation_refl _) wit_no_nan) as H.
  assert (let '(b, out) := feed wit_unmarshal wit_marshal wit_iter (NewBestConsumer wit_opts) wit_ticks in
    rejectedQuotes b = 1 /\ dedupDroppedSame b = 1 /\
    map (fun et => (e_Bid et.1, e_Ask et.1)) out = [(f_of_Z 99, f_of_Z 104); (f_of_Z 101, f_of_Z 103)]) as E
    by (vm_compute; repeat split; reflexivity).
  destruct (feed _ _ _ _ _) as [b out]. exact (conj E H).
Defined.

(** * Duplicate suppression *)
Section suppression.
Context (unmarshal : list byte -> option JSONEnvelope) (marshal : JSONEnvelope -> option (list byte))
  (iter : gmap string sourceQuote -> list sourceQuote)
  (iter_entries : forall m, iter m ≡ₚ (map_to_list m).*2)
  (json_no_nan : forall body env, unmarshal body = Some env -> e_Bid env <> NaN /\ e_Ask env <> NaN)
  (marshal_total : forall e, marshal e <> None).

Definition last_for (sym : string) (out : list (JSONEnvelope * Tick)) : option JSONEnvelope :=
  last (filter (fun e => e_Sym e = sym) out.*1).

(** The clock of a call: the quote just cached is not stale yet. *)
Definition steady (ms : Z) (c : clock) : Prop := ms < 0 \/ Sub (c_now c) (c_cache c) <= ms.

(** [e] quotes the best [bq], up to the configured tolerance. *)
Definition near (b : BestConsumer) (sym : string) (e : JSONEnvelope) (bq : best_quote) : Prop :=
  (e_Bid e = bq_bid bq /\ e_Ask e = bq_ask bq) \/
  (Enabled (dedup b) = true /\ (e_Bid e ==f bq_bid bq) = true /\ (e_Ask e ==f bq_ask bq) = true) \/
  (Enabled (dedup b) = true /\ (f0 <f TickSizeMultiplier (dedup b)) = true /\
   let threshold := tickSizeFor b sym *f TickSizeMultiplier (dedup b) in
   (absDiff (e_Bid e) (bq_bid bq) <f threshold) = true /\ (absDiff (e_Ask e) (bq_ask bq) <f threshold) = true).

(** The remembered prices are those last handed downstream. *)
Definition remembers (b : BestConsumer) (out : list (JSONEnvelope * Tick)) : Prop :=
  forall sym le, lastEmitted b !! sym = Some le ->
    exists e, last_for sym out = Some e /\ e_Bid e = le_bid le /\ e_Ask e = le_ask le.

Lemma last_for_snoc sym out e tk :
  last_for sym (out ++ [(e, tk)]) = if decide (e_Sym e = sym) then Some e else last_for sym out.
Proof.
  unfold last_for. rewrite fmap_app, filter_app. simpl. rewrite filter_cons, filter_nil.
  case_decide; [apply last_snoc|by rewrite app_nil_r].
Qed.

Lemma fresh_active ms c m src sq :
  steady ms c -> sq_ts sq = c_cache c -> m !! src = Some sq -> active ms (c_now c) (iter m) <> [].
Proof.
  intros St Ts Hm E. assert (sq ∈ active ms (c_now c) (iter m)) as I.
  { apply list_elem_of_filter. split.
    - unfold stale. rewrite Ts. destruct St; apply andb_false_iff; [left; apply Z.leb_gt|right; apply Z.ltb_ge]; done.
    - rewrite iter_entries. apply list_elem_of_fmap. exists (src, sq). split; [done|]. by apply elem_of_map_to_list. }
  rewrite E in I. by apply elem_of_nil in I.
Qed.

Lemma dedup_near b sym le bid_ask e same :
  shouldDedupLocked b sym (bq_bid bid_ask) (bq_ask bid_ask) = (true, same) ->
  lastEmitted b !! sym = Some le -> e_Bid e = le_bid le -> e_Ask e = le_ask le -> near b sym e bid_ask.
Proof.
  unfold shouldDedupLocked, near. intros H El -> ->. rewrite El in H.
  destruct (Enabled (dedup b)); [|done]. simpl in H. destruct (hasValue le); [|done]. simpl in H.
  case_in H.
  - apply andb_true_iff in E as [? ?]. auto.
  - case_in H. case_in H. case_in H. apply andb_true_iff in E2 as [? ?]. auto 8.
Qed.

Lemma dedup_needs_last b sym bid ask same :
  shouldDedupLocked b sym bid ask = (true, same) -> exists le, lastEmitted b !! sym = Some le.
Proof.
  unfold shouldDedupLocked. intros H. case_in H. destruct (lastEmitted b !! sym); [eauto|done].
Qed.

Lemma OnTick_remembers b t c b' o out :
  cache_valid b -> remembers b out -> steady (maxStaleness b) c ->
  Best_OnTick unmarshal marshal iter b t c = (b', o) ->
  remembers b' (out ++ option_list o) /\ maxStaleness b' = maxStaleness b /\
  forall tk env, accepts unmarshal t tk env ->
    exists e, last_for (tk_Symbol tk) (out ++ option_list o) = Some e /\
      near b (tk_Symbol tk) e (recomputeLocked (maxStaleness b) (c_now c) (iter (sources_after b tk env c))).
Proof.
  intros V R St H. apply OnTick_inv in H as [(_ & El & _ & Em & -> & N)|H].
  { simpl. rewrite app_nil_r. split; [unfold remembers; by rewrite El|]. split; [done|].
    intros tk env A. by destruct (N tk env). }
  destruct H as (tk & env & b1 & lt & bq & skip & same & Ac & A & _ & El & _ & Em & Ho & Hn).
  apply absorb_eq in A as (_ & Eb & Es & Em1 & _ & El1).
  assert (bq_srcCount bq <> 0) as Hc.
  { destruct Ac as (_ & _ & _ & _ & D).
    pose proof (iter_valid iter iter_entries _ (sources_valid unmarshal json_no_nan b tk env c V D)) as F.
    assert (active (maxStaleness b) (c_now c) (iter (sources_after b tk env c)) <> []) as Ha
      by (eapply fresh_active; [exact St| |apply lookup_insert_eq]; done).
    subst bq. by destruct (is_best_uncrossed _ _ (active_valid _ _ _ F) (recompute_is_best _ _ _ F Ha)) as (_ & _ & ?). }
  assert (remembers b' (out ++ option_list o) /\
    exists e, last_for (tk_Symbol tk) (out ++ option_list o) = Some e /\ near b (tk_Symbol tk) e bq) as [Hr He].
  { unfold remembers. rewrite El, El1. destruct Ho as [->|(-> & _ & body & M & ->)]; simpl.
    - destruct (Hn eq_refl) as [->|[?|M]]; [|done|by apply marshal_total in M]. rewrite app_nil_r.
      split; [done|]. destruct (dedup_needs_last _ _ _ _ _ Es) as [le Hle].
      destruct (R _ _ Hle) as (e & L & B1 & B2). exists e. split; [done|]. by eapply dedup_near.
    - split.
      + intros sym le. rewrite last_for_snoc, lookup_insert_Some. simpl.
        intros [[<- <-]|[Ne Hl]]; [rewrite decide_True by done; eauto|]. rewrite decide_False by done. by apply R.
      + eexists. rewrite last_for_snoc, decide_True by done. split; [done|]. by left. }
  split; [done|]. split; [congruence|]. intros tk' env' Ac'.
  destruct Ac as (-> & _ & _ & _ & D), Ac' as ([= <-] & _ & _ & _ & D').
  assert (env' = env) as -> by congruence. by rewrite <-Eb.
Qed.

Lemma feed_remembers b ts b' out pre :
  cache_valid b -> remembers b pre -> Forall (fun tc => steady (maxStaleness b) tc.2) ts ->
  feed unmarshal marshal iter b ts = (b', out) ->
  cache_valid b' /\ remembers b' (pre ++ out) /\ maxStaleness b' = maxStaleness b.
Proof.
  revert b b' out pre. induction ts as [|[t c] ts IH]; intros b b' out pre V R St; simpl.
  { intros [= <- <-]. by rewrite app_nil_r. }
  apply Forall_cons in St as [St0 St]. simpl in St0.
  destruct (Best_OnTick unmarshal marshal iter b t c) as [b1 o] eqn:E1.
  destruct (feed unmarshal marshal iter b1 ts) as [b2 out2] eqn:E2. intros [= <- <-].
  destruct (OnTick_good unmarshal marshal iter iter_entries json_no_nan _ _ _ _ _ V E1) as [V1 _].
  destruct (OnTick_remembers b t c b1 o pre V R St0 E1) as (R1 & Em & _).
  rewrite <-Em in St. destruct (IH b1 b2 out2 _ V1 R1 St E2) as (V2 & R2 & Em2).
  rewrite app_assoc. split; [done|]. split; [done|]. congruence.
Qed.
End suppression.

(** Duplicate suppression hides nothing: after every accepted tick the last
    best quote handed downstream for its symbol is the current best of the cache, or
    equal to it, or, only where a tick-size multiplier is configured, less than the
    configured threshold away on both sides. (A call's cached quote is not already
    stale when the best is computed, and envelopes can be encoded.) *)
Theorem suppression_hides_nothing
    (unmarshal : list byte -> option JSONEnvelope) (marshal : JSONEnvelope -> option (list byte))
    (iter : gmap string sourceQuote -> list sourceQuote) (opts : BestOptions)
    (ts : list (option Tick * clock)) (tk : Tick) (env : JSONEnvelope) (c : clock) :
  (forall m, iter m ≡ₚ (map_to_list m).*2) ->
  (forall body env, unmarshal body = Some env -> e_Bid env <> NaN /\ e_Ask env <> NaN) ->
  (forall e, marshal e <> None) ->
  let b0 := NewBestConsumer opts in
  Forall (fun tc => steady (maxStaleness b0) tc.2) (ts ++ [(Some tk, c)]) ->
  accepts unmarshal (Some tk) tk env ->
  let '(b, out) := feed unmarshal marshal iter b0 ts in
  let '(_, o) := Best_OnTick unmarshal marshal iter b (Some tk) c in
  exists e, last_for (tk_Symbol tk) (out ++ option_list o) = Some e /\
    near b (tk_Symbol tk) e (recomputeLocked (maxStaleness b) (c_now c) (iter (sources_after b tk env c))).
Proof.
  intros Hi Hj Hm b0 St Ac. apply Forall_app in St as [St Stc]. apply Forall_cons in Stc as [Stc _].
  change (steady (maxStaleness b0) c) in Stc.
  destruct (feed unmarshal marshal iter b0 ts) as [b out] eqn:E.
  destruct (feed_remembers unmarshal marshal iter Hi Hj Hm b0 ts b out []) as (V & R & Em); auto.
  { intros sym m. simpl. by rewrite lookup_empty. }
  { intros sym le. simpl. by rewrite lookup_empty. }
  destruct (Best_OnTick unmarshal marshal iter b (Some tk) c) as [b' o] eqn:E1.
  rewrite <-Em in Stc.
  by apply (OnTick_remembers unmarshal marshal iter Hi Hj Hm b (Some tk) c b' o out V R Stc E1).
Qed.

Lemma suppression_hides_nothing_witness :
  let '(b, out) := feed wit_unmarshal wit_marshal wit_iter (NewBestConsumer wit_opts) (take 3 wit_ticks) in
  let tk := mkTick 1 "USDKRW" 7 0 0 0 [x63; x69] (mkTime 40 0) "SMB" in
  let '(_, o) := Best_OnTick wit_unmarshal wit_marshal wit_iter b (Some tk) (mkClock 40 40 40 40) in
  o = None /\
  exists e, last_for "USDKRW" (out ++ option_list o) = Some e /\
    near b "USDKRW" e (recomputeLocked (maxStaleness b) 40 (wit_iter (sources_after b tk
      (mkEnv "USDKRW" (f_of_Z 99) (f_of_Z 105) (mkTime 0 0) "" 0 f0 f0 f1 f1) (mkClock 40 40 40 40)))).
Proof.
  pose proof (suppression_hides_nothing wit_unmarshal wit_marshal wit_iter wit_opts (take 3 wit_ticks)
    (mkTick 1 "USDKRW" 7 0 0 0 [x63; x69] (mkTime 40 0) "SMB")
    (mkEnv "USDKRW" (f_of_Z 99) (f_of_Z 105) (mkTime 0 0) "" 0 f0 f0 f1 f1) (mkClock 40 40 40 40)
    (fun m => Permutation_refl _) wit_no_nan) as H.
  specialize (H ltac:(discriminate)). cbv zeta in H.
  specialize (H ltac:(unfold wit_ticks; simpl app; repeat first [apply Forall_nil_2 | apply Forall_cons_2]; right; vm_compute; discriminate)).
  specialize (H ltac:(split; [reflexivity|]; do 3 (split; [discriminate|]); vm_compute; reflexivity)).
  assert (let '(b, out) := feed wit_unmarshal wit_marshal wit_iter (NewBestConsumer wit_opts) (take 3 wit_ticks) in
    (Best_OnTick wit_unmarshal wit_marshal wit_iter b
      (Some (mkTick 1 "USDKRW" 7 0 0 0 [x63; x69] (mkTime 40 0) "SMB")) (mkClock 40 40 40 40)).2 = None) as E
    by (vm_compute; reflexivity).
  destruct (feed _ _ _ _ _) as [b out]. cbv zeta.
  destruct (Best_OnTick _ _ _ _ _ _) as [b' o]. split; [exact E|exact H].
Defined.
