(* ===== verification/CrossConsumer.v ===== *)
(** The cross-rate consumer (src/internal/price/crossrate_consumer.go): best
    quotes of the legs come in, quotes of the crosses that depend on them go out,
    debounced and only while both legs are fresh. *)

From Stdlib Require Import ZArith QArith Lia List.
From Stdlib Require Import Strings.Ascii.
From S2P Require Import Prelude GoStrings Float64 Dates Pricing Cross Masters Bars Best BestLaws.
Local Open Scope Z_scope.
Local Open Scope wtg_scope.

Definition SourceCross : string := "CROSS".

Record legState := mkLeg { lg_bid : f64; lg_ask : f64; lg_ts : Z }.
Record crossSnap := mkSnap { cx_Bid : f64; cx_Ask : f64; cx_TS : Z }.
Record CrossRateCounts := mkCC {
  emitsTotal : Z; skippedDebounce : Z; skippedStale : Z; skippedMissingLeg : Z; skippedUnknownPair : Z; errors : Z }.

Record CrossRateConsumer := mkCrossC {
  c_symbols : option symbolMapData;
  c_pairs : option pairSnap;
  c_formulas : gmap string CrossFormula;
  c_leg2cross : gmap string (list string);
  c_legCache : gmap string legState;
  c_debounce : gmap string Z;
  c_debounceWindow : Z;
  c_maxStaleness : Z;
  c_lastEmits : gmap string crossSnap;
  c_counts : CrossRateCounts }.

Definition NewCrossRateConsumer (symbols : option symbolMapData) (pairs : option pairSnap) (dw ms : Z)
    : CrossRateConsumer :=
  {| c_symbols := symbols; c_pairs := pairs; c_formulas := ∅; c_leg2cross := ∅; c_legCache := ∅;
     c_debounce := ∅; c_debounceWindow := if dw <=? 0 then 10 * 1000000 else dw;
     c_maxStaleness := if ms <=? 0 then 30 * ns_per_sec else ms;
     c_lastEmits := ∅; c_counts := mkCC 0 0 0 0 0 0 |}.

Definition set_counts (c : CrossRateConsumer) (n : CrossRateCounts) : CrossRateConsumer :=
  {| c_symbols := c_symbols c; c_pairs := c_pairs c; c_formulas := c_formulas c; c_leg2cross := c_leg2cross c;
     c_legCache := c_legCache c; c_debounce := c_debounce c; c_debounceWindow := c_debounceWindow c;
     c_maxStaleness := c_maxStaleness c; c_lastEmits := c_lastEmits c; c_counts := n |}.
Definition set_leg (c : CrossRateConsumer) (pair : string) (l : legState) : CrossRateConsumer :=
  {| c_symbols := c_symbols c; c_pairs := c_pairs c; c_formulas := c_formulas c; c_leg2cross := c_leg2cross c;
     c_legCache := <[pair := l]> (c_legCache c); c_debounce := c_debounce c;
     c_debounceWindow := c_debounceWindow c; c_maxStaleness := c_maxStaleness c;
     c_lastEmits := c_lastEmits c; c_counts := c_counts c |}.
(** The stores at the end of an emission. *)
Definition set_emitted (c : CrossRateConsumer) (crossPair : string) (now : Z) (r : CrossResult) : CrossRateConsumer :=
  {| c_symbols := c_symbols c; c_pairs := c_pairs c; c_formulas := c_formulas c; c_leg2cross := c_leg2cross c;
     c_legCache := c_legCache c; c_debounce := <[crossPair := now]> (c_debounce c);
     c_debounceWindow := c_debounceWindow c; c_maxStaleness := c_maxStaleness c;
     c_lastEmits := <[crossPair := mkSnap (out_Bid r) (out_Ask r) now]> (c_lastEmits c);
     c_counts := mkCC (incr64 (emitsTotal (c_counts c))) (skippedDebounce (c_counts c)) (skippedStale (c_counts c))
                   (skippedMissingLeg (c_counts c)) (skippedUnknownPair (c_counts c)) (errors (c_counts c)) |}.

Definition count_debounce (n : CrossRateCounts) : CrossRateCounts :=
  mkCC (emitsTotal n) (incr64 (skippedDebounce n)) (skippedStale n) (skippedMissingLeg n) (skippedUnknownPair n) (errors n).
Definition count_stale (n : CrossRateCounts) : CrossRateCounts :=
  mkCC (emitsTotal n) (skippedDebounce n) (incr64 (skippedStale n)) (skippedMissingLeg n) (skippedUnknownPair n) (errors n).
Definition count_missing (n : CrossRateCounts) : CrossRateCounts :=
  mkCC (emitsTotal n) (skippedDebounce n) (skippedStale n) (incr64 (skippedMissingLeg n)) (skippedUnknownPair n) (errors n).
Definition count_unknown (n : CrossRateCounts) : CrossRateCounts :=
  mkCC (emitsTotal n) (skippedDebounce n) (skippedStale n) (skippedMissingLeg n) (incr64 (skippedUnknownPair n)) (errors n).
Definition count_error (n : CrossRateCounts) : CrossRateCounts :=
  mkCC (emitsTotal n) (skippedDebounce n) (skippedStale n) (skippedMissingLeg n) (skippedUnknownPair n) (incr64 (errors n)).

(** [forder] is the formula map in the order the range visits it. *)
Definition reverse_index (forder : list (string * CrossFormula)) : gmap string (list string) :=
  fold_left (fun leg2 '(crossPair, f) =>
    let leg2 := <[f_LegA f := default [] (leg2 !! f_LegA f) ++ [crossPair]]> leg2 in
    <[f_LegB f := default [] (leg2 !! f_LegB f) ++ [crossPair]]> leg2) forder ∅.

Definition ReplaceFormulas (c : CrossRateConsumer) (formulas : gmap string CrossFormula)
    (forder : list (string * CrossFormula)) : CrossRateConsumer :=
  {| c_symbols := c_symbols c; c_pairs := c_pairs c; c_formulas := formulas; c_leg2cross := reverse_index forder;
     c_legCache := c_legCache c; c_debounce := c_debounce c; c_debounceWindow := c_debounceWindow c;
     c_maxStaleness := c_maxStaleness c; c_lastEmits := c_lastEmits c; c_counts := c_counts c |}.

Definition lookup_symbols (c : CrossRateConsumer) (sym : string) : option string :=
  match c_symbols c with
  | Some d => let '(p, active, found) := SymbolMap_Lookup d sym in if found && active then Some p else None
  | None => match c_pairs c with None => Some sym | Some _ => None end
  end.
Definition lookupPair (c : CrossRateConsumer) (sym : string) : option string :=
  match c_pairs c with
  | Some s => match LookupBySymbol s sym with Some p => Some p | None => lookup_symbols c sym end
  | None => lookup_symbols c sym
  end.

(** The bytes of [s] other than '/'. *)
Fixpoint strip_slash (s : string) : string :=
  match s with "" => "" | String c s => if Ascii.eqb c "/"%char then strip_slash s else String c (strip_slash s) end.

Definition reverse_symbols (c : CrossRateConsumer) (pair : string) : string :=
  match c_symbols c with
  | Some d => let '(s, ok) := Reverse d pair in if ok then s else strip_slash pair
  | None => strip_slash pair
  end.
Definition reverseSymbol (c : CrossRateConsumer) (pair : string) : string :=
  match c_pairs c with
  | Some s => match ReverseSymbol s pair with Some x => x | None => reverse_symbols c pair end
  | None => reverse_symbols c pair
  end.

Section consumer.
Context (unmarshal : list byte -> option JSONEnvelope) (marshal : JSONEnvelope -> option (list byte)).

(** What an emission carries. *)
Record emission := mkEmission { em_cross : string; em_time : Z; em_result : CrossResult; em_tick : Tick }.

Definition cross_tick (c : CrossRateConsumer) (crossPair : string) (src : Tick) (now : Z) (r : CrossResult) : Tick :=
  let crossSym := reverseSymbol c crossPair in
  let env := mkEnv crossSym (out_Bid r) (out_Ask r) (mkTime now 0) SourceCross 0 f0 f0 f0 f0 in
  mkTick (tk_MarketID src) crossSym (tk_SeqNum src) 0 0 0 (default [] (marshal env)) (mkTime now 0) SourceCross.

(** [since] and [now] are the two clock readings. *)
Definition maybeEmitCross (c : CrossRateConsumer) (crossPair : string) (src : Tick) (since now : Z)
    : CrossRateConsumer * option emission :=
  if match c_debounce c !! crossPair with Some v => Sub since v <? c_debounceWindow c | None => false end
  then (set_counts c (count_debounce (c_counts c)), None)
  else match c_formulas c !! crossPair with
  | None => (c, None)
  | Some formula =>
      match c_legCache c !! f_LegA formula, c_legCache c !! f_LegB formula with
      | Some sA, Some sB =>
          if (c_maxStaleness c <? Sub now (lg_ts sA)) || (c_maxStaleness c <? Sub now (lg_ts sB))
          then (set_counts c (count_stale (c_counts c)), None)
          else match ComputeCross formula (mkInput (lg_bid sA) (lg_ask sA)) (mkInput (lg_bid sB) (lg_ask sB)) with
               | Ok r => (set_emitted c crossPair now r,
                          Some (mkEmission crossPair now r (cross_tick c crossPair src now r)))
               | _ => (set_counts c (count_error (c_counts c)), None)
               end
      | _, _ => (set_counts c (count_missing (c_counts c)), None)
      end
  end.

(** [clk] gives the two readings of each cross tried. *)
Fixpoint emit_all (c : CrossRateConsumer) (src : Tick) (crosses : list string) (clk : nat -> Z * Z)
    : CrossRateConsumer * list emission :=
  match crosses with
  | [] => (c, [])
  | x :: crosses =>
      let '(c, o) := maybeEmitCross c x src (fst (clk O)) (snd (clk O)) in
      let '(c, out) := emit_all c src crosses (fun i => clk (S i)) in (c, option_list o ++ out)
  end.

Definition Cross_OnTick (c : CrossRateConsumer) (t : option Tick) (stamp : Z) (clk : nat -> Z * Z)
    : CrossRateConsumer * list emission :=
  match t with
  | None => (c, [])
  | Some t =>
      if bool_decide (tk_Symbol t = "") then (c, [])
      else if bool_decide (tk_Source t = SourceCross) then (c, [])
      else match lookupPair c (tk_Symbol t) with
           | None => (set_counts c (count_unknown (c_counts c)), [])
           | Some p =>
               match DecodeJSONEnvelope unmarshal (tk_Body t) with
               | Ok env =>
                   let c := set_leg c p (mkLeg (e_Bid env) (e_Ask env) stamp) in
                   emit_all c t (default [] (c_leg2cross c !! p)) clk
               | _ => (c, [])
               end
           end
  end.

(** (bid, ask, ts, isStale) of the last emission, [now] the reading of [time.Since]. *)
Definition LatestCross (c : CrossRateConsumer) (pair : string) (now : Z) : option (f64 * f64 * Z * bool) :=
  match c_lastEmits c !! pair with
  | None => None
  | Some s => Some (cx_Bid s, cx_Ask s, cx_TS s, c_maxStaleness c <? Sub now (cx_TS s))
  end.

Record CrossRateStats := mkCRS { cr_counts : CrossRateCounts; FormulaCount : Z; LegKeysCount : Z;
  LastEmitsTotal : Z; LastEmitsStale : Z }.
Definition Cross_Stats (c : CrossRateConsumer) (now : Z) : CrossRateStats :=
  {| cr_counts := c_counts c; FormulaCount := Z.of_nat (size (c_formulas c));
     LegKeysCount := Z.of_nat (size (c_leg2cross c)); LastEmitsTotal := Z.of_nat (size (c_lastEmits c));
     LastEmitsStale := Z.of_nat (size (filter (fun '(_, s) => c_maxStaleness c < Sub now (cx_TS s)) (c_lastEmits c))) |}.
End consumer.

(** * Laws *)

(** The life of the consumer: formula reloads and ticks, with their readings. *)
Inductive event :=
| EReplace (formulas : gmap string CrossFormula) (forder : list (string * CrossFormula))
| ETick (t : option Tick) (stamp : Z) (clk : nat -> Z * Z).

Section laws.
Context (unmarshal : list byte -> option JSONEnvelope) (marshal : JSONEnvelope -> option (list byte)).

Definition step (c : CrossRateConsumer) (e : event) : CrossRateConsumer * list emission :=
  match e with
  | EReplace f o => (ReplaceFormulas c f o, [])
  | ETick t stamp clk => Cross_OnTick unmarshal marshal c t stamp clk
  end.
Fixpoint run (c : CrossRateConsumer) (es : list event) : CrossRateConsumer * list emission :=
  match es with
  | [] => (c, [])
  | e :: es => let '(c, out) := step c e in let '(c, out') := run c es in (c, out ++ out')
  end.

(** The debounce reading of a try is not after its emission reading. *)
Definition readings_ok (e : event) : Prop :=
  match e with EReplace _ _ => True | ETick _ _ clk => forall i, fst (clk i) <= snd (clk i) end.

(** ** Debounce *)
Definition apart (w : Z) (e1 e2 : emission) : Prop := em_cross e1 = em_cross e2 -> w <= em_time e2 - em_time e1.

Definition debounced (c : CrossRateConsumer) (out : list emission) : Prop :=
  ForallOrdPairs (apart (c_debounceWindow c)) out /\
  Forall (fun e => exists v, c_debounce c !! em_cross e = Some v /\ em_time e <= v) out.

Lemma ordpairs_snoc {A} (P : A -> A -> Prop) l x :
  ForallOrdPairs P l -> Forall (fun y => P y x) l -> ForallOrdPairs P (l ++ [x]).
Proof.
  induction 1 as [|y l Hy Hl IH]; intros F; simpl; [repeat constructor|].
  apply Forall_cons in F as [Hyx F]. constructor; [|auto]. apply List.Forall_app. split; [done|]. by constructor.
Qed.

Lemma sub_ge since v w : (Sub since v <? w) = false -> w <= 2 ^ 63 - 1 -> - 2 ^ 63 < w -> w <= since - v.
Proof. unfold Sub. intros H%Z.ltb_ge. lia. Qed.

Lemma debounced_emit c x src since now out c' o :
  0 < c_debounceWindow c < 2 ^ 63 -> since <= now ->
  maybeEmitCross marshal c x src since now = (c', o) -> debounced c out ->
  debounced c' (out ++ option_list o) /\ c_debounceWindow c' = c_debounceWindow c.
Proof.
  intros Hw Ht E [D1 D2]. unfold maybeEmitCross in E.
  destruct (match c_debounce c !! x with Some v => _ | None => _ end) eqn:Ed;
    [injection E as <- <-; by rewrite app_nil_r|].
  destruct (c_formulas c !! x) as [f|]; [|injection E as <- <-; by rewrite app_nil_r].
  destruct (c_legCache c !! f_LegA f) as [sA|], (c_legCache c !! f_LegB f) as [sB|];
    try (injection E as <- <-; by rewrite app_nil_r).
  destruct (_ || _); [injection E as <- <-; by rewrite app_nil_r|].
  destruct (ComputeCross _ _ _) as [r| |]; try (injection E as <- <-; by rewrite app_nil_r).
  injection E as <- <-. split; [|done]. simpl. rewrite Forall_forall in D2.
  assert (forall e, e ∈ out -> em_cross e = x -> em_time e + c_debounceWindow c <= now) as Hold.
  { intros e He <-. destruct (D2 e He) as (v & Hv & Hle). rewrite Hv in Ed. apply sub_ge in Ed; lia. }
  split.
  - apply ordpairs_snoc; [done|]. apply Forall_forall. intros e He Hx. simpl in *. specialize (Hold e He Hx). lia.
  - apply Forall_app. split; [|constructor; [|constructor]; exists now; simpl; rewrite lookup_insert_eq; split; [done|lia]].
    apply Forall_forall. intros e He. simpl. destruct (decide (em_cross e = x)) as [Ex|Ex].
    + exists now. rewrite Ex, lookup_insert_eq. specialize (Hold e He Ex). split; [done|lia].
    + rewrite lookup_insert_ne by done. auto.
Qed.

Lemma debounced_all c src crosses clk out c' o :
  0 < c_debounceWindow c < 2 ^ 63 -> (forall i, fst (clk i) <= snd (clk i)) ->
  emit_all marshal c src crosses clk = (c', o) -> debounced c out ->
  debounced c' (out ++ o) /\ c_debounceWindow c' = c_debounceWindow c.
Proof.
  revert c clk out c' o. induction crosses as [|x crosses IH]; intros c clk out c' o Hw Hclk E D; simpl in E.
  - injection E as <- <-. by rewrite app_nil_r.
  - destruct (maybeEmitCross _ _ _ _ _ _) as [c1 o1] eqn:E1.
    destruct (emit_all _ c1 src crosses _) as [c2 o2] eqn:E2. injection E as <- <-.
    apply (debounced_emit _ _ _ _ _ out) in E1 as [D1 W1]; [|done..].
    apply (IH _ _ (out ++ option_list o1)) in E2 as [D2 W2]; [|by rewrite W1|intros; apply Hclk|done].
    rewrite app_assoc. split; [done|congruence].
Qed.

Lemma debounced_step c e out c' o :
  0 < c_debounceWindow c < 2 ^ 63 -> readings_ok e -> step c e = (c', o) -> debounced c out ->
  debounced c' (out ++ o) /\ c_debounceWindow c' = c_debounceWindow c.
Proof.
  intros Hw Hr E D. destruct e as [f fo|t stamp clk]; simpl in E; [injection E as <- <-; by rewrite app_nil_r|].
  unfold Cross_OnTick in E. destruct t as [t|]; [|injection E as <- <-; by rewrite app_nil_r].
  do 2 (case_match; [injection E as <- <-; by rewrite app_nil_r|]).
  destruct (lookupPair _ _); [|injection E as <- <-; by rewrite app_nil_r].
  destruct (DecodeJSONEnvelope _ _); try (injection E as <- <-; by rewrite app_nil_r).
  by eapply debounced_all in E.
Qed.

(** Debounce holds: over any history of ticks and formula reloads, two
    emissions of the same cross are at least the debounce window apart. *)
Theorem cross_debounced symbols pairs dw ms es :
  dw < 2 ^ 63 -> Forall readings_ok es ->
  let c := NewCrossRateConsumer symbols pairs dw ms in
  ForallOrdPairs (apart (c_debounceWindow c)) (snd (run c es)).
Proof.
  intros Hdw Hr c.
  assert (0 < c_debounceWindow c < 2 ^ 63) as Hw by (unfold c; simpl; destruct (Z.leb_spec dw 0); lia).
  assert (debounced c []) as D by (split; constructor).
  change (snd (run c es)) with ([] ++ snd (run c es)).
  revert Hw D. generalize (@nil emission) as out. generalize c. clear c Hdw.
  induction Hr as [|e es He Hr IH]; intros c out Hw D; simpl.
  - rewrite app_nil_r. apply D.
  - destruct (step c e) as [c1 o1] eqn:E1. apply (debounced_step _ _ out) in E1 as [D1 W1]; [|done..].
    specialize (IH c1 (out ++ o1)). rewrite W1 in IH. destruct (run c1 es) as [c2 o2]. simpl in *.
    rewrite app_assoc. by apply IH.
Qed.

(** ** Freshness *)

(** [encoding/json] produces finite numbers only. *)
Context (json_finite : forall body env, unmarshal body = Some env -> finite (e_Bid env) /\ finite (e_Ask env)).

Definition leg_input (l : legState) : CrossInput := mkInput (lg_bid l) (lg_ask l).
Definition legs_good (c : CrossRateConsumer) : Prop := map_Forall (fun _ l => good_leg (leg_input l)) (c_legCache c).

(** Synthesised from two good legs not older than the limit. *)
Definition well_founded (ms : Z) (e : emission) : Prop :=
  exists f sA sB, good_leg (leg_input sA) /\ good_leg (leg_input sB) /\
    em_time e - lg_ts sA <= ms /\ em_time e - lg_ts sB <= ms /\
    ComputeCross f (leg_input sA) (leg_input sB) = Ok (em_result e) /\
    tk_Source (em_tick e) = SourceCross.

Lemma decoded_good body env ts :
  DecodeJSONEnvelope unmarshal body = Ok env -> good_leg (leg_input (mkLeg (e_Bid env) (e_Ask env) ts)).
Proof using json_finite.
  intros D. assert (forall b e, unmarshal b = Some e -> e_Bid e <> NaN /\ e_Ask e <> NaN) as Hn.
  { intros b e He. destruct (json_finite b e He) as [A B]. by destruct (e_Bid e), (e_Ask e). }
  destruct (decoded_valid unmarshal Hn body env 0 D) as [V1 V2].
  split; [done|]. split; [|done]. unfold DecodeJSONEnvelope in D. destruct body as [|x body]; [done|].
  destruct (TrimSpace _) as [|y l]; [done|]. destruct (unmarshal (y :: l)) as [e|] eqn:E; [|done].
  repeat case_in D. injection D as <-. by apply (json_finite _ _ E).
Qed.

Lemma sub_le now ts ms : (ms <? Sub now ts) = false -> ms < 2 ^ 63 - 1 -> 0 <= ms -> now - ts <= ms.
Proof. unfold Sub. intros H%Z.ltb_ge. lia. Qed.

Ltac nothing E := injection E as <- <-; split_and!; [done|done|exact (List.Forall_nil _)].

Lemma fresh_emit c x src since now c' o :
  0 <= c_maxStaleness c < 2 ^ 63 - 1 -> legs_good c ->
  maybeEmitCross marshal c x src since now = (c', o) ->
  legs_good c' /\ c_maxStaleness c' = c_maxStaleness c /\
  Forall (well_founded (c_maxStaleness c)) (option_list o).
Proof.
  intros Hm G E. unfold maybeEmitCross in E.
  destruct (match c_debounce c !! x with Some v => _ | None => _ end);
    [nothing E|].
  destruct (c_formulas c !! x) as [f|]; [|nothing E].
  destruct (c_legCache c !! f_LegA f) as [sA|] eqn:EA, (c_legCache c !! f_LegB f) as [sB|] eqn:EB;
    try (nothing E).
  destruct (_ || _) eqn:Es; [nothing E|].
  apply orb_false_iff in Es as [S1 S2].
  destruct (ComputeCross _ _ _) as [r| |] eqn:Ec; try (nothing E).
  injection E as <- <-. split; [done|]. split; [done|]. constructor; [|constructor].
  exists f, sA, sB. split; [by apply (G _ _ EA)|]. split; [by apply (G _ _ EB)|].
  split; [apply sub_le; [done|lia..]|]. split; [apply sub_le; [done|lia..]|]. done.
Qed.

Lemma fresh_all c src crosses clk c' o :
  0 <= c_maxStaleness c < 2 ^ 63 - 1 -> legs_good c ->
  emit_all marshal c src crosses clk = (c', o) ->
  legs_good c' /\ c_maxStaleness c' = c_maxStaleness c /\ Forall (well_founded (c_maxStaleness c)) o.
Proof.
  revert c clk c' o. induction crosses as [|x crosses IH]; intros c clk c' o Hm G E; simpl in E.
  - nothing E.
  - destruct (maybeEmitCross _ _ _ _ _ _) as [c1 o1] eqn:E1.
    destruct (emit_all _ c1 src crosses _) as [c2 o2] eqn:E2. injection E as <- <-.
    apply fresh_emit in E1 as (G1 & M1 & F1); [|done..].
    apply IH in E2 as (G2 & M2 & F2); [|by rewrite M1|done].
    rewrite M1 in *. split_and!; [done..|by apply Forall_app].
Qed.

Lemma fresh_step c e c' o :
  0 <= c_maxStaleness c < 2 ^ 63 - 1 -> legs_good c -> step c e = (c', o) ->
  legs_good c' /\ c_maxStaleness c' = c_maxStaleness c /\ Forall (well_founded (c_maxStaleness c)) o.
Proof using json_finite.
  intros Hm G E. destruct e as [f fo|t stamp clk]; simpl in E; [nothing E|].
  unfold Cross_OnTick in E. destruct t as [t|]; [|nothing E].
  do 2 (case_match; [nothing E|]).
  destruct (lookupPair _ _) as [p|]; [|nothing E].
  destruct (DecodeJSONEnvelope _ _) as [env| |] eqn:D; try (nothing E).
  apply fresh_all in E; [done|done|]. apply map_Forall_insert_2; [by eapply decoded_good|done].
Qed.

(** The same, with the quote itself uncrossed. *)
Definition sound (ms : Z) (e : emission) : Prop :=
  exists f sA sB, good_leg (leg_input sA) /\ good_leg (leg_input sB) /\
    em_time e - lg_ts sA <= ms /\ em_time e - lg_ts sB <= ms /\
    ComputeCross f (leg_input sA) (leg_input sB) = Ok (em_result e) /\
    tk_Source (em_tick e) = SourceCross /\
    (f_Scale f <> NaN -> finite (out_Ask (em_result e)) ->
     (f0 <=f out_Bid (em_result e)) = true /\ (out_Bid (em_result e) <=f out_Ask (em_result e)) = true).

(** Cross quotes are sound: over any history of ticks and formula reloads,
    every quote the consumer emits is synthesised from quotes of two legs, both
    positive, uncrossed and received within the staleness limit, is marked CROSS,
    and is itself non-negative and uncrossed when its ask is finite. *)
Theorem cross_quotes_sound symbols pairs dw ms es :
  ms < 2 ^ 63 - 1 ->
  let c := NewCrossRateConsumer symbols pairs dw ms in
  Forall (sound (c_maxStaleness c)) (snd (run c es)).
Proof using json_finite.
  intros Hms c.
  assert (0 <= c_maxStaleness c < 2 ^ 63 - 1) as Hm
    by (unfold c; simpl; unfold ns_per_sec; destruct (Z.leb_spec ms 0); lia).
  assert (legs_good c) as G by apply map_Forall_empty.
  assert (Forall (well_founded (c_maxStaleness c)) (snd (run c es))) as W.
  { revert Hm G. generalize c. clear c. induction es as [|e es IH]; intros c Hm G; simpl; [constructor|].
    destruct (step c e) as [c1 o1] eqn:E1. apply fresh_step in E1 as (G1 & M1 & F1); [|done..].
    specialize (IH c1). rewrite M1 in IH. destruct (run c1 es) as [c2 o2]. simpl. apply Forall_app. auto. }
  eapply Forall_impl; [exact W|]. intros e (f & sA & sB & GA & GB & TA & TB & EC & ES).
  exists f, sA, sB. split_and!; try done. intros. by apply (ComputeCross_not_crossed f (leg_input sA) (leg_input sB)).
Qed.
End laws.

Definition ex_env (sym : string) (bid ask : Z) : JSONEnvelope :=
  mkEnv sym (f_of_Z bid) (f_of_Z ask) (mkTime 0 0) "BEST" 1 f0 f0 f0 f0.
Definition ex_tick (sym : string) (b : byte) : Tick := mkTick 1 sym 1 0 0 0 [b] (mkTime 0 0) "BEST".
(** A decoder of three messages. *)
Definition ex_unmarshal (body : list byte) : option JSONEnvelope :=
  if decide (body = ["a"%byte]) then Some (ex_env "EUR/USD" 2 3)
  else if decide (body = ["b"%byte]) then Some (ex_env "USD/KRW" 1300 1302) else None.
Definition ex_events : list event :=
  [EReplace {["EUR/KRW" := mkFormula "EUR/USD" "mul" "USD/KRW" "mul" f1]}
     [("EUR/KRW", mkFormula "EUR/USD" "mul" "USD/KRW" "mul" f1)];
   ETick (Some (ex_tick "EUR/USD" "a")) 0 (fun _ => (1, 2));
   ETick (Some (ex_tick "USD/KRW" "b")) 10 (fun _ => (11, 12));
   ETick (Some (ex_tick "EUR/USD" "a")) 20 (fun _ => (21, 22));
   ETick (Some (ex_tick "EUR/USD" "a")) 30000000 (fun _ => (30000001, 30000002))].

(** Two emissions: the first complete pair of legs, and the one after the window. *)
Lemma cross_debounced_witness :
  (em_time <$> snd (run ex_unmarshal (fun _ => None) (NewCrossRateConsumer None None 0 0) ex_events)) = [12; 30000002] /\
  ForallOrdPairs (apart 10000000)
    (snd (run ex_unmarshal (fun _ => None) (NewCrossRateConsumer None None 0 0) ex_events)).
Proof.
  split; [vm_compute; reflexivity|].
  apply (cross_debounced ex_unmarshal (fun _ => None) None None 0 0 ex_events); [lia|].
  repeat constructor; simpl; lia.
Defined.

Lemma cross_quotes_sound_witness :
  Forall (sound (30 * ns_per_sec))
    (snd (run ex_unmarshal (fun _ => None) (NewCrossRateConsumer None None 0 0) ex_events)).
Proof.
  apply (cross_quotes_sound ex_unmarshal (fun _ => None)) with (ms := 0); [|lia].
  intros body env. unfold ex_unmarshal. do 2 (destruct (decide _); [intros [= <-]; split; vm_compute; exact I|]). done.
Defined.
