(* ===== verification/SwapStore.v ===== *)
(** The swap point store of the price service (src/internal/price/swap_received.go,
    swap_received_http.go, swap_provider.go): points received from the feed and the
    dealer's adjustments, whose sum is what forward quotes use.

    Ranges over Go maps visit keys in an order chosen by [iter]. The second half is
    the dealer's registration of points in the margin document. *)

From Stdlib Require Import ZArith QArith Lia.
From S2P Require Import Prelude GoStrings Float64 Dates Pricing Bars PricingDoc.
Local Open Scope Z_scope.
Local Open Scope wtg_scope.

Definition SpotTenor : string := "SPT".
Definition TenorSpot : string := "SPOT".

Record SwapStore := mkSwapStore {
  received : gmap (string * string) Margin; delta : gmap (string * string) Margin }.

Definition NewSwapStore : SwapStore := mkSwapStore ∅ ∅.

Definition SetReceived (s : SwapStore) (pair tenor : string) (bid ask : f64) : SwapStore :=
  mkSwapStore (<[(pair, tenor) := mkMargin bid ask f0 f0]> (received s)) (delta s).
Definition SetDelta (s : SwapStore) (pair tenor : string) (bid ask : f64) : SwapStore :=
  mkSwapStore (received s) (<[(pair, tenor) := mkMargin bid ask f0 f0]> (delta s)).
Definition Received (s : SwapStore) (pair tenor : string) : option Margin := received s !! (pair, tenor).
Definition Delta (s : SwapStore) (pair tenor : string) : option Margin := delta s !! (pair, tenor).

Definition EffectiveSwap (r d : Margin) : Margin :=
  mkMargin (BidAmount r +f BidAmount d) (AskAmount r +f AskAmount d)
    (SkewAmount r +f SkewAmount d) (SpreadAmount r +f SpreadAmount d).

Definition Effective (s : SwapStore) (pair tenor : string) : option Margin :=
  match received s !! (pair, tenor), delta s !! (pair, tenor) with
  | None, None => None
  | r, d => Some (EffectiveSwap (default zero_margin r) (default zero_margin d))
  end.

Definition swap_keys (s : SwapStore) : gset (string * string) := dom (received s) ∪ dom (delta s).

Section ranges.
Context (iter : gset string -> list string) (iter_keys : gset (string * string) -> list (string * string)).

Definition Tenors (s : SwapStore) (pair : string) : list string :=
  let set : gset string := set_map snd (filter (fun k => fst k = pair) (swap_keys s)) in
  filter (fun tn => ~ (tn = TenorSpot \/ tn = SpotTenor)) (iter set).

Record SwapView := mkView {
  vw_Pair : string; vw_Tenor : string; RecvBid : f64; RecvAsk : f64; DeltaBid : f64; DeltaAsk : f64;
  EffBid : f64; EffAsk : f64 }.
Definition swap_view (s : SwapStore) (k : string * string) : SwapView :=
  let r := default zero_margin (received s !! k) in
  let d := default zero_margin (delta s !! k) in
  let eff := EffectiveSwap r d in
  mkView (fst k) (snd k) (BidAmount r) (AskAmount r) (BidAmount d) (AskAmount d) (BidAmount eff) (AskAmount eff).
Definition ViewSnapshot (s : SwapStore) : list SwapView := map (swap_view s) (iter_keys (swap_keys s)).

(** ** Injection of a batch (swap_received_http.go) *)
Record SwapEntry := mkEntry { en_Pair : string; en_Tenor : string; en_Bid : f64; en_Ask : f64 }.

(** [store] and [req] are nil when the service has no store or the body is no JSON. *)
Inductive inject_reply := StoreDisabled | BadJSON | Applied (n : Z).
Fixpoint apply_entries (set : SwapStore -> string -> string -> f64 -> f64 -> SwapStore) (s : SwapStore)
    (updates : list SwapEntry) : SwapStore * Z :=
  match updates with
  | [] => (s, 0)
  | u :: updates =>
      if bool_decide (en_Pair u = "") || bool_decide (en_Tenor u = "") then apply_entries set s updates
      else let '(s, n) := apply_entries set (set s (en_Pair u) (en_Tenor u) (en_Bid u) (en_Ask u)) updates in
           (s, n + 1)
  end.
Definition decodeSwapEntries (set : SwapStore -> string -> string -> f64 -> f64 -> SwapStore)
    (store : option SwapStore) (req : option (list SwapEntry)) : option SwapStore * inject_reply :=
  match store, req with
  | None, _ => (None, StoreDisabled)
  | Some s, None => (Some s, BadJSON)
  | Some s, Some updates => let '(s, n) := apply_entries set s updates in (Some s, Applied n)
  end.
Definition SwapReceivedInjectHandler := decodeSwapEntries SetReceived.
Definition SwapDeltaHandler := decodeSwapEntries SetDelta.
Definition SwapViewHandler (store : option SwapStore) : list SwapView :=
  match store with None => [] | Some s => ViewSnapshot s end.

(** ** By feed symbol (swap_provider.go) *)
Record SwapProvider := mkProvider { sp_store : option SwapStore; sp_symbols : option symbolMapData }.
Definition pairFor (p : SwapProvider) (symbol : string) : option string :=
  match sp_symbols p with
  | None => None
  | Some d => let '(pr, active, found) := SymbolMap_Lookup d symbol in if found && active then Some pr else None
  end.
Definition Provider_Tenors (p : SwapProvider) (symbol : string) : list string :=
  match pairFor p symbol, sp_store p with Some pr, Some s => Tenors s pr | _, _ => [] end.
Definition Provider_Effective (p : SwapProvider) (symbol tenor : string) : option (f64 * f64) :=
  match pairFor p symbol, sp_store p with
  | Some pr, Some s => (fun m => (BidAmount m, AskAmount m)) <$> Effective s pr tenor
  | _, _ => None
  end.
End ranges.

(** ** Laws *)
Section laws.
Context (iter : gset string -> list string).
Context (iter_elements : forall X, iter X ≡ₚ elements X).

Lemma Effective_Some s pair tenor : is_Some (Effective s pair tenor) <-> (pair, tenor) ∈ swap_keys s.
Proof.
  unfold Effective, swap_keys. rewrite elem_of_union, !elem_of_dom.
  destruct (received s !! _), (delta s !! _); split; intros H; eauto; try (by destruct H as [[? ?]|[? ?]]); by destruct H.
Qed.

(** Every listed tenor has points to add, and every tenor with points but spot is
    listed, once. *)
Lemma Tenors_spec s pair tn :
  tn ∈ Tenors iter s pair <-> tn <> TenorSpot /\ tn <> SpotTenor /\ is_Some (Effective s pair tn).
Proof using iter_elements.
  unfold Tenors. rewrite list_elem_of_filter, iter_elements, elem_of_elements, elem_of_map, Effective_Some. split.
  - intros [Hn ([p t] & -> & [<- Hk]%elem_of_filter)]. simpl in *. tauto.
  - intros (H1 & H2 & Hk). split; [tauto|]. exists (pair, tn). split; [done|]. by apply elem_of_filter.
Qed.

Lemma Tenors_NoDup s pair : NoDup (Tenors iter s pair).
Proof using iter_elements. unfold Tenors. apply NoDup_filter. rewrite iter_elements. apply NoDup_elements. Qed.
End laws.

(** * Dealer registration
    Dealer registration of swap points (src/internal/price/swap_point.go): the
    margin document in the store is changed by a compare-and-swap loop of three
    attempts.

    The store is one versioned key, as the handler's [DocStore] describes it: [Load]
    returns the value and its revision, [CAS] writes when the revision is still
    the one loaded. [others k] is what other writers do between the load and the
    CAS of attempt [k], [net k] whether the store's calls of that attempt fail (a
    CAS that fails may have taken effect). JSON is a pair of parameters. *)

(** Revision 0 is the absent key. *)
Record cell := mkCell { ce_value : string; ce_rev : Z }.
Definition Load (c : cell) : string * Z := (ce_value c, ce_rev c).
Definition CAS (c : cell) (next : string) (rev : Z) : bool * cell :=
  if ce_rev c =? rev then (true, mkCell next (ce_rev c + 1)) else (false, c).

Record SwapPointRequest := mkSPR { sq_Pair : string; sq_Clear : bool; sq_Updates : list SwapUpdate }.

Inductive swap_reply :=
| NoStore | BadBody | PairRequired | UpdatesEmpty | TenorRequired | ApplyFailed | Conflict | StoreError
| AppliedOK (pair : string) (n : Z) (clear : bool).

Inductive outcome := Fine | LoadErr | CASErr (applied : bool).
#[export] Instance outcome_eq_dec : EqDecision outcome.
Proof. solve_decision. Defined.

Section handler.
Context (unmarshal : string -> option PricingTableDoc) (marshal : PricingTableDoc -> string).

Definition zero_doc : PricingTableDoc := mkDoc 0 [] [] [] [] [] [].

(** [pricing.ApplySwapToDoc] on the stored text. *)
Definition ApplySwapToText (doc pair : string) (ups : list SwapUpdate) (clear : bool) : option string :=
  d ← (if decide (doc = "") then Some zero_doc else unmarshal doc);
  Some (marshal (ApplySwapToDoc d pair ups clear)).

(** An empty pair of an update becomes the request's. *)
Definition fill_pairs (req : SwapPointRequest) : list SwapUpdate :=
  map (fun u => if decide (u_Pair u = "") then mkSwapUpdate (sq_Pair req) (u_Tenor u) (u_Bid u) (u_Ask u) else u)
    (sq_Updates req).

Fixpoint cas_loop (attempts : nat) (others : nat -> cell -> cell) (net : nat -> outcome) (k : nat) (c : cell)
    (req : SwapPointRequest) : swap_reply * cell :=
  match attempts with
  | O => (Conflict, c)
  | S attempts =>
      if decide (net k = LoadErr) then (StoreError, c) else
      let '(cur, rev) := Load c in
      match ApplySwapToText cur (sq_Pair req) (fill_pairs req) (sq_Clear req) with
      | None => (ApplyFailed, c)
      | Some next =>
          match net k with
          | CASErr applied =>
              (StoreError, if applied then snd (CAS (others k c) next rev) else others k c)
          | _ =>
              match CAS (others k c) next rev with
              | (true, c) => (AppliedOK (sq_Pair req) (zlen (sq_Updates req)) (sq_Clear req), c)
              | (false, c) => cas_loop attempts others net (S k) c req
              end
          end
      end
  end.

Definition SwapPointHandler (store : option cell) (others : nat -> cell -> cell) (net : nat -> outcome)
    (req : option SwapPointRequest) : swap_reply * option cell :=
  match store, req with
  | None, _ => (NoStore, None)
  | Some c, None => (BadBody, Some c)
  | Some c, Some req =>
      if bool_decide (sq_Pair req = "") then (PairRequired, Some c)
      else if negb (sq_Clear req) && bool_decide (sq_Updates req = []) then (UpdatesEmpty, Some c)
      else if existsb (fun u => bool_decide (u_Tenor u = "")) (sq_Updates req) then (TenorRequired, Some c)
      else let '(r, c) := cas_loop 3 others net 0 c req in (r, Some c)
  end.

(** ** Laws *)

(** The other writers' steps up to and including attempt [k]. *)
Fixpoint moved (others : nat -> cell -> cell) (k : nat) (c : cell) : cell :=
  match k with O => c | S k => others k (moved others k c) end.

(** A writer that changes the key gives it a new revision. *)
Definition bumps (others : nat -> cell -> cell) : Prop :=
  forall k c, others k c = c \/ ce_rev c < ce_rev (others k c).

(** The update written at one moment, after [j] steps of the others. *)
Definition written (others : nat -> cell -> cell) (c0 : cell) (req : SwapPointRequest) (j : nat) (c' : cell) : Prop :=
  exists next,
    ApplySwapToText (ce_value (moved others j c0)) (sq_Pair req) (fill_pairs req) (sq_Clear req) = Some next /\
    c' = mkCell next (ce_rev (moved others j c0) + 1).

Lemma CAS_spec others c0 req k next :
  bumps others ->
  ApplySwapToText (ce_value (moved others k c0)) (sq_Pair req) (fill_pairs req) (sq_Clear req) = Some next ->
  match CAS (others k (moved others k c0)) next (ce_rev (moved others k c0)) with
  | (true, c') => written others c0 req (S k) c'
  | (false, c') => c' = moved others (S k) c0
  end.
Proof.
  intros Hb Ea. unfold CAS. destruct (Z.eqb_spec (ce_rev (others k (moved others k c0))) (ce_rev (moved others k c0)));
    [|done]. exists next. simpl. destruct (Hb k (moved others k c0)) as [->|]; [done|lia].
Qed.

Definition loop_result (others : nat -> cell -> cell) (c0 : cell) (req : SwapPointRequest) (k n : nat)
    (r : swap_reply) (c' : cell) : Prop :=
  match r with
  | AppliedOK _ _ _ => exists j, (k < j <= k + n)%nat /\ written others c0 req j c'
  | StoreError => exists j, (k <= j <= k + n)%nat /\ (c' = moved others j c0 \/ written others c0 req j c')
  | _ => exists j, (k <= j <= k + n)%nat /\ c' = moved others j c0
  end.

Lemma cas_loop_spec attempts others net c0 req k r c' :
  bumps others -> cas_loop attempts others net k (moved others k c0) req = (r, c') ->
  loop_result others c0 req k attempts r c'.
Proof.
  intros Hb. revert k. induction attempts as [|n IH]; intros k E; simpl in E.
  { injection E as <- <-. exists k. split; [lia|done]. }
  destruct (decide (net k = LoadErr)); [injection E as <- <-; exists k; split; [lia|by left]|].
  destruct (ApplySwapToText _ _ _ _) as [next|] eqn:Ea; [|injection E as <- <-; exists k; split; [lia|done]].
  pose proof (CAS_spec others c0 req k next Hb Ea) as HC.
  destruct (net k) as [| |applied]; [|done|].
  - destruct (CAS _ _ _) as [[] c1].
    + injection E as <- <-. exists (S k). split; [lia|done].
    + subst c1. apply (IH (S k)) in E. destruct r; destruct E as (j & Hj & E); exists j; (split; [lia|done]).
  - injection E as <- <-. exists (S k). split; [lia|]. destruct applied; [|by left].
    destruct (CAS _ _ _) as [[] c1]; simpl; [by right|by left].
Qed.

(** C38. No swap update is lost: whatever other writers do between this handler's
    reads and writes, a request answered OK has replaced the document by the
    update applied to the document as it was at that very moment, once; when a
    call to the store failed the update was written that way or not at all; with
    any other answer the handler has written nothing. *)
Theorem swap_point_linearizable others net req c r c' :
  bumps others -> SwapPointHandler (Some c) others net (Some req) = (r, Some c') ->
  loop_result others c req 0 3 r c'.
Proof.
  intros Hb. unfold SwapPointHandler.
  do 3 (case_match; [intros [= <- <-]; exists O; split; [lia|done]|]).
  destruct (cas_loop 3 others net 0 c req) as [r1 c1] eqn:E. intros [= <- <-].
  by apply (cas_loop_spec 3 others net c req 0) in E.
Qed.

(** The pair of an update is not used: every update of a request goes to the
    request's pair, also one that names another pair. *)
Theorem update_pair_ignored doc pair ups clear :
  ApplySwapToDoc doc pair ups clear =
  ApplySwapToDoc doc pair (map (fun u => mkSwapUpdate pair (u_Tenor u) (u_Bid u) (u_Ask u)) ups) clear.
Proof.
  unfold ApplySwapToDoc. destruct clear; [done|]. f_equal. generalize (d_SwapPoint doc).
  induction ups as [|u ups IH]; intros l; [done|]. simpl. apply IH.
Qed.
End handler.

Definition ex_req : SwapPointRequest := mkSPR "USD/KRW" false [mkSwapUpdate "" "1M" f1 f1].
Definition ex_others (k : nat) (c : cell) : cell := if decide (k = 0%nat) then mkCell "" (ce_rev c + 1) else c.

(** The first attempt is overtaken, the second writes. *)
Lemma swap_point_linearizable_witness :
  SwapPointHandler (fun _ => None) (fun _ => "doc") (Some (mkCell "" 7)) ex_others (fun _ => Fine) (Some ex_req)
    = (AppliedOK "USD/KRW" 1 false, Some (mkCell "doc" 9)) /\
  loop_result (fun _ => None) (fun _ => "doc") ex_others (mkCell "" 7) ex_req 0 3
    (AppliedOK "USD/KRW" 1 false) (mkCell "doc" 9).
Proof.
  split; [vm_compute; reflexivity|].
  apply (swap_point_linearizable (fun _ => None) (fun _ => "doc") ex_others (fun _ => Fine) ex_req (mkCell "" 7)
    (AppliedOK "USD/KRW" 1 false) (mkCell "doc" 9)); [|vm_compute; reflexivity].
  intros k c. unfold ex_others. case_decide; simpl; [right; lia|by left].
Defined.
