(* ===== verification/Algo.v ===== *)
(** The quote stream for trading robots (src/internal/price/algo.go): every best or
    cross quote, spot and with swap points per tenor, gets a sequence number of
    its stream, is kept in the stream's ring, and is offered to every subscriber's
    bounded channel; a subscriber may resume from a sequence number and is
    replayed what it missed before it goes live. *)

From Stdlib Require Import ZArith QArith Lia.
From Stdlib Require Import Strings.Ascii.
From S2P Require Import Prelude GoStrings Float64 Dates QuoteID Pricing Bars Best CrossConsumer SwapStore.
Local Open Scope Z_scope.
Local Open Scope wtg_scope.

Record AlgoQuote := mkAlgo {
  aq_Sym : string; aq_Bid : f64; aq_Ask : f64; aq_Seq : Z; aq_TsSource : Z; aq_TsWtg : Z; aq_IsBackfill : bool;
  aq_Last : f64; aq_LastQty : f64; aq_Mid : f64; aq_Source : string; aq_Tenor : string;
  aq_BidSize : f64; aq_AskSize : f64 }.

(** ** Ring *)

(** [head] is the next slot to write; unwritten slots are nil. *)
Record algoRing := mkARing { ar_buf : list (option AlgoQuote); ar_head : nat; ar_full : bool }.
Definition newAlgoRing (size : nat) : algoRing := mkARing (replicate size None) 0 false.

Definition push (r : algoRing) (q : AlgoQuote) : algoRing :=
  let buf := <[ar_head r := Some q]> (ar_buf r) in
  if (length buf <=? S (ar_head r))%nat then mkARing buf 0 true else mkARing buf (S (ar_head r)) (ar_full r).

(** The getter of a nil message. *)
Definition GetSeq (q : option AlgoQuote) : Z := match q with Some q => aq_Seq q | None => 0 end.

Definition slot (r : algoRing) (i : nat) : option AlgoQuote := mjoin (ar_buf r !! i).

(** (ticks, oldest, gap) *)
Definition snapshot (r : algoRing) (fromSeq : Z) : list (option AlgoQuote) * Z * bool :=
  let n := length (ar_buf r) in
  let '(count, startIdx) := if ar_full r then (n, ar_head r) else (ar_head r, 0%nat) in
  if (count =? 0)%nat then ([], 0, false)
  else
    let oldest := GetSeq (slot r startIdx) in
    if fromSeq + 1 <? oldest then ([], oldest, true)
    else (filter (fun q => fromSeq < GetSeq q)
            (map (fun i => slot r ((startIdx + i) mod n)) (seq 0 count)), oldest, false).

(** ** Subscribers *)
Record algoSub := mkSub {
  su_clientID : string; su_symbolSet : gset string; su_sources : gset string; su_tenorSet : gset string;
  su_ch : list AlgoQuote; su_dropsLocal : Z; su_firstDropAt : Z; su_done : bool; su_slowFired : bool }.

Definition nonempty_set (l : list string) : gset string := list_to_set (filter (fun s => s <> "") l).
Definition new_sub (clientID : string) (symbols sources tenors : list string) : algoSub :=
  mkSub clientID (nonempty_set symbols) (nonempty_set sources) (nonempty_set tenors) [] 0 0 false false.

Definition isSynth (source : string) : bool := bool_decide (source = SourceBest \/ source = SourceCross).

Definition streamKeyFor (source symbol tenor : string) : string :=
  let k := if isSynth source then symbol else source +:+ "|" +:+ symbol in
  if negb (bool_decide (tenor = "")) && negb (bool_decide (tenor = SpotTenor)) then k +:+ "@" +:+ tenor else k.
Definition stream_of (q : AlgoQuote) : string := streamKeyFor (aq_Source q) (aq_Sym q) (aq_Tenor q).

(** The three filters of [fanout]. *)
Definition matches (sub : algoSub) (source symbol tenor : string) : bool :=
  (bool_decide (su_symbolSet sub = ∅) || bool_decide (symbol ∈ su_symbolSet sub)) &&
  (if bool_decide (su_sources sub = ∅) then isSynth source else bool_decide (source ∈ su_sources sub)) &&
  (if bool_decide (su_tenorSet sub = ∅) then bool_decide (tenor = SpotTenor) else bool_decide (tenor ∈ su_tenorSet sub)).

(** The non-blocking send of [fanout] on a channel of capacity [cap]; [now] is the
    clock of a drop. *)
Definition offer (cap : nat) (now : Z) (q : AlgoQuote) (sub : algoSub) : algoSub :=
  if negb (matches sub (aq_Source q) (aq_Sym q) (aq_Tenor q)) then sub
  else if (length (su_ch sub) <? cap)%nat then
    mkSub (su_clientID sub) (su_symbolSet sub) (su_sources sub) (su_tenorSet sub) (su_ch sub ++ [q])
      (su_dropsLocal sub) 0 (su_done sub) (su_slowFired sub)
  else
    mkSub (su_clientID sub) (su_symbolSet sub) (su_sources sub) (su_tenorSet sub) (su_ch sub)
      (incr64 (su_dropsLocal sub)) (if su_firstDropAt sub =? 0 then UnixNano now else su_firstDropAt sub)
      (su_done sub) (su_slowFired sub).

(** ** Server *)
Record AlgoStreamServer := mkAlgoS {
  as_seqGens : gmap string Z;
  as_rings : gmap string algoRing;
  as_ringSize : nat;
  as_subs : gmap nat algoSub;
  as_clientBufSize : nat;
  as_slowTimeout : Z;
  as_subscribersActive : Z; as_ticksEmitted : Z; as_sendDrops : Z; as_backfillEmitted : Z; as_backfillGaps : Z;
  as_dedupSkipped : Z; as_disconnectedSlow : Z; as_perSourceSubs : Z }.

Definition NewAlgoStreamServer (ringSize clientBufferSize slowTimeout : Z) : AlgoStreamServer :=
  mkAlgoS ∅ ∅ (Z.to_nat (if ringSize <=? 0 then 100000 else ringSize)) ∅
    (Z.to_nat (if clientBufferSize <=? 0 then 1024 else clientBufferSize)) slowTimeout 0 0 0 0 0 0 0 0.

Definition set_streams (s : AlgoStreamServer) (g : gmap string Z) (r : gmap string algoRing) : AlgoStreamServer :=
  mkAlgoS g r (as_ringSize s) (as_subs s) (as_clientBufSize s) (as_slowTimeout s) (as_subscribersActive s)
    (as_ticksEmitted s) (as_sendDrops s) (as_backfillEmitted s) (as_backfillGaps s) (as_dedupSkipped s)
    (as_disconnectedSlow s) (as_perSourceSubs s).
Definition set_subs (s : AlgoStreamServer) (subs : gmap nat algoSub) (active ticks drops persource : Z) : AlgoStreamServer :=
  mkAlgoS (as_seqGens s) (as_rings s) (as_ringSize s) subs (as_clientBufSize s) (as_slowTimeout s) active
    ticks drops (as_backfillEmitted s) (as_backfillGaps s) (as_dedupSkipped s) (as_disconnectedSlow s) persource.

(** [int64(gen.Add(1))]; the generator and the ring of a stream are made on first use. *)
Definition nextSeq (s : AlgoStreamServer) (key : string) : Z * AlgoStreamServer :=
  let n := incr64 (default 0 (as_seqGens s !! key)) in
  (wrap64 n, set_streams s (<[key := n]> (as_seqGens s)) (as_rings s)).
Definition ringFor (s : AlgoStreamServer) (key : string) : algoRing * AlgoStreamServer :=
  match as_rings s !! key with
  | Some r => (r, s)
  | None => let r := newAlgoRing (as_ringSize s) in (r, set_streams s (as_seqGens s) (<[key := r]> (as_rings s)))
  end.

Definition registerSub (s : AlgoStreamServer) (id : nat) (sub : algoSub) : AlgoStreamServer :=
  set_subs s (<[id := sub]> (as_subs s)) (wrap64 (as_subscribersActive s + 1)) (as_ticksEmitted s) (as_sendDrops s)
    (if bool_decide (su_sources sub = ∅) then as_perSourceSubs s else wrap64 (as_perSourceSubs s + 1)).
Definition unregisterSub (s : AlgoStreamServer) (id : nat) (sub : algoSub) : AlgoStreamServer :=
  set_subs s (delete id (as_subs s)) (wrap64 (as_subscribersActive s - 1)) (as_ticksEmitted s) (as_sendDrops s)
    (if bool_decide (su_sources sub = ∅) then as_perSourceSubs s else wrap64 (as_perSourceSubs s - 1)).

(** Subscribers whose channel is full. *)
Definition overflows (cap : nat) (q : AlgoQuote) (sub : algoSub) : Prop :=
  matches sub (aq_Source q) (aq_Sym q) (aq_Tenor q) = true /\ (cap <= length (su_ch sub))%nat.

Definition fanout (s : AlgoStreamServer) (q : AlgoQuote) (now : Z) : AlgoStreamServer :=
  let cap := as_clientBufSize s in
  set_subs s (offer cap now q <$> as_subs s) (as_subscribersActive s) (as_ticksEmitted s)
    (wrap 64 (as_sendDrops s + Z.of_nat (size (filter (fun '(_, sub) => overflows cap q sub) (as_subs s)))))
    (as_perSourceSubs s).

Definition algo_quote (t : Tick) (env : JSONEnvelope) (tenor : string) (bid ask : f64) (seq : Z) : AlgoQuote :=
  mkAlgo (tk_Symbol t) bid ask seq (UnixNano (t_ns (e_TS env))) (UnixNano (t_ns (tk_Received t))) false
    (e_Last env) (e_LastQty env) ((bid +f ask) /f f2) (tk_Source t) tenor (e_BidSize env) (e_AskSize env).

(** The quote is returned for the record. *)
Definition emitQuote (s : AlgoStreamServer) (t : Tick) (env : JSONEnvelope) (tenor : string) (bid ask : f64) (now : Z)
    : AlgoQuote * AlgoStreamServer :=
  let key := streamKeyFor (tk_Source t) (tk_Symbol t) tenor in
  let '(seq, s) := nextSeq s key in
  let q := algo_quote t env tenor bid ask seq in
  let '(ring, s) := ringFor s key in
  let s := set_streams s (as_seqGens s) (<[key := push ring q]> (as_rings s)) in
  let s := set_subs s (as_subs s) (as_subscribersActive s) (incr64 (as_ticksEmitted s)) (as_sendDrops s) (as_perSourceSubs s) in
  (q, fanout s q now).

Section stream.
Context (unmarshal : list byte -> option JSONEnvelope) (tenor_iter : gset string -> list string).

Fixpoint emit_tenors (s : AlgoStreamServer) (p : SwapProvider) (t : Tick) (env : JSONEnvelope) (tenors : list string) (now : Z)
    : list AlgoQuote * AlgoStreamServer :=
  match tenors with
  | [] => ([], s)
  | tn :: tenors =>
      match Provider_Effective p (tk_Symbol t) tn with
      | None => emit_tenors s p t env tenors now
      | Some (sb, sa) =>
          let '(q, s) := emitQuote s t env tn (e_Bid env +f sb) (e_Ask env +f sa) now in
          let '(qs, s) := emit_tenors s p t env tenors now in (q :: qs, s)
      end
  end.

(** The quotes emitted, in order. *)
Definition Algo_OnTick (s : AlgoStreamServer) (provider : option SwapProvider) (t : option Tick) (now : Z)
    : list AlgoQuote * AlgoStreamServer :=
  match t with
  | None => ([], s)
  | Some t =>
      if bool_decide (tk_Symbol t = "") then ([], s)
      else if negb (isSynth (tk_Source t)) && (as_perSourceSubs s =? 0) then ([], s)
      else match DecodeJSONEnvelope unmarshal (tk_Body t) with
           | Ok env =>
               let '(q, s) := emitQuote s t env SpotTenor (e_Bid env) (e_Ask env) now in
               match provider with
               | None => ([q], s)
               | Some p =>
                   let '(qs, s) := emit_tenors s p t env (Provider_Tenors tenor_iter p (tk_Symbol t)) now in
                   (q :: qs, s)
               end
           | _ => ([], s)
           end
  end.

(** ** Replay *)
Context (iter : gset string -> list string).

Definition subTenors (sub : algoSub) : list string :=
  if bool_decide (su_tenorSet sub = ∅) then [SpotTenor] else iter (su_tenorSet sub).

Definition replayBaseKeys (s : AlgoStreamServer) (sub : algoSub) : list string :=
  if bool_decide (su_sources sub = ∅) then
    if negb (bool_decide (su_symbolSet sub = ∅)) then iter (su_symbolSet sub)
    else filter (fun k => GoStrings.Contains k "|"%char = false) (iter (dom (as_rings s)))
  else if negb (bool_decide (su_symbolSet sub = ∅)) then
    src ← iter (su_sources sub); sym ← iter (su_symbolSet sub); [src +:+ "|" +:+ sym]
  else
    filter (fun k => existsb (fun src => HasPrefix k (src +:+ "|")) (iter (su_sources sub)) = true)
      (iter (dom (as_rings s))).

Definition replayKeys (s : AlgoStreamServer) (sub : algoSub) : list string :=
  bk ← replayBaseKeys s sub;
  if GoStrings.Contains bk "@"%char then [bk]
  else map (fun tn => if negb (bool_decide (tn = "")) && negb (bool_decide (tn = SpotTenor))
                      then bk +:+ "@" +:+ tn else bk) (subTenors sub).

Definition as_backfill (q : option AlgoQuote) : AlgoQuote :=
  match q with
  | Some q => mkAlgo (aq_Sym q) (aq_Bid q) (aq_Ask q) (aq_Seq q) (aq_TsSource q) (aq_TsWtg q) true (aq_Last q)
                (aq_LastQty q) (aq_Mid q) (aq_Source q) (aq_Tenor q) (aq_BidSize q) (aq_AskSize q)
  | None => mkAlgo "" f0 f0 0 0 0 true f0 f0 f0 "" "" f0 f0
  end.

(** What SubscribeAlgo keeps between its steps: the keys still to replay, the last
    sequence number replayed per key, what it has sent. *)
Record session := mkSession {
  se_id : nat; se_from : Z; se_todo : list string; se_end : gmap string Z; se_out : list AlgoQuote }.

Definition subscribe (s : AlgoStreamServer) (id : nat) (sub : algoSub) (fromSeq : Z) : session * AlgoStreamServer :=
  let s := registerSub s id sub in
  (mkSession id fromSeq (if 0 <? fromSeq then replayKeys s sub else []) ∅ [], s).

Definition bump_end (key : string) (e : gmap string Z) (q : AlgoQuote) : gmap string Z :=
  if default 0 (e !! key) <? aq_Seq q then <[key := aq_Seq q]> e else e.

(** The replay of one key; [None]: the stream ends with sequence_gap. *)
Definition replay_key (s : AlgoStreamServer) (se : session) (key : string) : option session * AlgoStreamServer :=
  let '(ring, s) := ringFor s key in
  let '(ticks, _, gap) := snapshot ring (se_from se) in
  if gap then
    (None, mkAlgoS (as_seqGens s) (as_rings s) (as_ringSize s) (as_subs s) (as_clientBufSize s) (as_slowTimeout s)
       (as_subscribersActive s) (as_ticksEmitted s) (as_sendDrops s) (as_backfillEmitted s)
       (incr64 (as_backfillGaps s)) (as_dedupSkipped s) (as_disconnectedSlow s) (as_perSourceSubs s))
  else
    let qs := map as_backfill ticks in
    (Some (mkSession (se_id se) (se_from se) (tail (se_todo se)) (fold_left (bump_end key) qs (se_end se)) (se_out se ++ qs)),
     mkAlgoS (as_seqGens s) (as_rings s) (as_ringSize s) (as_subs s) (as_clientBufSize s) (as_slowTimeout s)
       (as_subscribersActive s) (as_ticksEmitted s) (as_sendDrops s)
       (wrap 64 (as_backfillEmitted s + zlen ticks)) (as_backfillGaps s) (as_dedupSkipped s)
       (as_disconnectedSlow s) (as_perSourceSubs s)).

(** One message taken from the channel in the live loop. *)
Definition pop (s : AlgoStreamServer) (id : nat) (sub : algoSub) (rest : list AlgoQuote) (skipped : Z) : AlgoStreamServer :=
  let sub := mkSub (su_clientID sub) (su_symbolSet sub) (su_sources sub) (su_tenorSet sub) rest
               (su_dropsLocal sub) (su_firstDropAt sub) (su_done sub) (su_slowFired sub) in
  mkAlgoS (as_seqGens s) (as_rings s) (as_ringSize s) (<[id := sub]> (as_subs s)) (as_clientBufSize s) (as_slowTimeout s)
    (as_subscribersActive s) (as_ticksEmitted s) (as_sendDrops s) (as_backfillEmitted s) (as_backfillGaps s) skipped
    (as_disconnectedSlow s) (as_perSourceSubs s).

Definition live_step (s : AlgoStreamServer) (se : session) : option (session * AlgoStreamServer) :=
  sub ← as_subs s !! se_id se;
  match su_ch sub with
  | [] => None
  | q :: rest =>
      let skip := match se_end se !! stream_of q with Some e => aq_Seq q <=? e | None => false end in
      if skip then Some (se, pop s (se_id se) sub rest (incr64 (as_dedupSkipped s)))
      else Some (mkSession (se_id se) (se_from se) (se_todo se) (se_end se) (se_out se ++ [q]),
                 pop s (se_id se) sub rest (as_dedupSkipped s))
  end.

(** ** Slow clients *)
Definition evict_sub (timeout nowNs : Z) (sub : algoSub) : algoSub :=
  if (su_firstDropAt sub =? 0) || (wrap64 (nowNs - su_firstDropAt sub) <? timeout) || su_slowFired sub then sub
  else mkSub (su_clientID sub) (su_symbolSet sub) (su_sources sub) (su_tenorSet sub) (su_ch sub)
         (su_dropsLocal sub) (su_firstDropAt sub) true true.
Definition evictSlowSubs (s : AlgoStreamServer) (nowNs : Z) : AlgoStreamServer :=
  let subs := evict_sub (as_slowTimeout s) nowNs <$> as_subs s in
  let n := size (filter (fun '(id, sub) => su_slowFired sub = false /\
                           (su_slowFired <$> subs !! id) = Some true) (as_subs s)) in
  mkAlgoS (as_seqGens s) (as_rings s) (as_ringSize s) subs (as_clientBufSize s) (as_slowTimeout s)
    (as_subscribersActive s) (as_ticksEmitted s) (as_sendDrops s) (as_backfillEmitted s) (as_backfillGaps s)
    (as_dedupSkipped s) (wrap 64 (as_disconnectedSlow s + Z.of_nat n)) (as_perSourceSubs s).

Definition Algo_Stats (s : AlgoStreamServer) : list Z :=
  [as_subscribersActive s; as_ticksEmitted s; as_sendDrops s; as_backfillEmitted s; as_backfillGaps s;
   as_dedupSkipped s; as_disconnectedSlow s; Z.of_nat (size (as_rings s)); Z.of_nat (as_ringSize s);
   Z.of_nat (as_clientBufSize s)].
End stream.
