(* ===== verification/AlgoLaws.v ===== *)
(** The robot stream delivers exactly once: replay, live messages and the overlap
    between them. The system is a server, one subscriber under observation, any
    number of others, and the log of every quote emitted; its steps interleave
    freely. *)

From Stdlib Require Import ZArith QArith Lia.
From Stdlib Require Import Strings.Ascii.
From S2P Require Import Prelude GoStrings Float64 Dates QuoteID Pricing Bars Best CrossConsumer SwapStore Algo.
Local Open Scope Z_scope.

(** * Ring *)
Definition lastn {A} (n : nat) (l : list A) : list A := drop (length l - n) l.

Lemma lastn_snoc {A} n (l : list A) x : (0 < n)%nat -> lastn n (lastn n l ++ [x]) = lastn n (l ++ [x]).
Proof.
  intros Hn. unfold lastn. rewrite !length_app, length_drop. simpl.
  rewrite !drop_app_le by (rewrite ?length_drop; lia). rewrite drop_drop. do 2 f_equal. lia.
Qed.

Lemma lastn_all {A} n (l : list A) : (length l <= n)%nat -> lastn n l = l.
Proof. intros. unfold lastn. by replace (length l - n)%nat with 0%nat by lia. Qed.

Lemma lastn_fmap {A B} (f : A -> B) n l : lastn n (f <$> l) = f <$> lastn n l.
Proof. unfold lastn. by rewrite length_fmap, fmap_drop. Qed.

Definition ring_wf (r : algoRing) : Prop := (ar_head r < length (ar_buf r))%nat.
Definition contents (r : algoRing) : list (option AlgoQuote) :=
  if ar_full r then drop (ar_head r) (ar_buf r) ++ take (ar_head r) (ar_buf r) else take (ar_head r) (ar_buf r).

Lemma contents_push r q : ring_wf r ->
  ring_wf (push r q) /\ length (ar_buf (push r q)) = length (ar_buf r) /\
  contents (push r q) = lastn (length (ar_buf r)) (contents r ++ [Some q]).
Proof.
  unfold ring_wf, push, contents. intros Hw. rewrite length_insert.
  set (h := ar_head r) in *. set (buf := ar_buf r) in *.
  assert (take (S h) (<[h := Some q]> buf) = take h buf ++ [Some q]) as T.
  { rewrite (take_S_r _ _ (Some q)) by (by apply list_lookup_insert_eq). by rewrite take_insert_ge. }
  assert (drop (S h) (<[h := Some q]> buf) = drop (S h) buf) as D by (apply drop_insert_lt; lia).
  assert (exists x, buf !! h = Some x) as [x Hx] by (by apply lookup_lt_is_Some_2).
  destruct (Nat.leb_spec (length buf) (S h)) as [Hl|Hl]; simpl; rewrite ?length_insert; (split; [lia|]); (split; [done|]).
  - rewrite drop_0, app_nil_r.
    assert (<[h := Some q]> buf = take h buf ++ [Some q]) as E.
    { rewrite <-T. symmetry. apply take_ge. rewrite length_insert. lia. }
    rewrite E. destruct (ar_full r).
    + rewrite (drop_S _ _ _ Hx), drop_ge by lia. simpl. unfold lastn. simpl. rewrite length_app, length_take. simpl.
      replace (S (h `min` length buf + 1) - length buf)%nat with 1%nat by lia. done.
    + rewrite lastn_all; [done|]. rewrite length_app, length_take. simpl. lia.
  - rewrite T. destruct (ar_full r).
    + rewrite D, (drop_S _ _ _ Hx). simpl. unfold lastn. simpl. rewrite !length_app, length_drop, length_take. simpl.
      replace (S (length buf - S h + h `min` length buf + 1) - length buf)%nat with 1%nat by lia. simpl. by rewrite app_assoc.
    + rewrite lastn_all; [done|]. rewrite length_app, length_take. simpl. lia.
Qed.

Lemma slots_contents r : ring_wf r ->
  (let '(count, start) := if ar_full r then (length (ar_buf r), ar_head r) else (ar_head r, 0%nat) in
   map (fun i => slot r ((start + i) mod length (ar_buf r))) (seq 0 count)) = contents r.
Proof.
  unfold ring_wf, contents. intros Hw. set (h := ar_head r) in *. set (buf := ar_buf r) in *.
  assert (forall i x, buf !! i = Some x -> slot r i = x) as Hs by (intros i x E; unfold slot; fold buf; by rewrite E).
  destruct (ar_full r); apply list_eq; intros i; rewrite list_lookup_fmap.
  - destruct (decide (i < length buf)%nat) as [Hi|Hi].
    + rewrite lookup_seq_lt by done. simpl. destruct (decide (i < length buf - h)%nat) as [Hj|Hj].
      * rewrite lookup_app_l by (rewrite length_drop; lia). rewrite lookup_drop, Nat.mod_small by lia.
        destruct (lookup_lt_is_Some_2 buf (h + i)) as [x Hx]; [lia|]. by rewrite Hx, (Hs _ _ Hx).
      * rewrite lookup_app_r by (rewrite length_drop; lia). rewrite length_drop, lookup_take_lt by lia.
        replace ((h + i) mod length buf)%nat with (i - (length buf - h))%nat.
        2:{ replace (h + i)%nat with ((i - (length buf - h)) + 1 * length buf)%nat by lia.
            rewrite Nat.Div0.mod_add, Nat.mod_small; lia. }
        destruct (lookup_lt_is_Some_2 buf (i - (length buf - h))) as [x Hx]; [lia|]. by rewrite Hx, (Hs _ _ Hx).
    + rewrite lookup_seq_ge by lia. symmetry. apply lookup_ge_None_2. rewrite length_app, length_drop, length_take. lia.
  - destruct (decide (i < h)%nat) as [Hi|Hi].
    + rewrite lookup_seq_lt, lookup_take_lt by done. simpl. rewrite Nat.mod_small by lia.
      destruct (lookup_lt_is_Some_2 buf i) as [x Hx]; [lia|]. by rewrite Hx, (Hs _ _ Hx).
    + rewrite lookup_seq_ge by lia. symmetry. apply lookup_ge_None_2. rewrite length_take. lia.
Qed.

Lemma snapshot_spec r from : ring_wf r ->
  snapshot r from =
  match contents r with
  | [] => ([], 0, false)
  | x :: _ => if from + 1 <? GetSeq x then ([], GetSeq x, true)
              else (filter (fun q => from < GetSeq q) (contents r), GetSeq x, false)
  end.
Proof.
  intros Hw. pose proof (slots_contents r Hw) as HS. unfold snapshot.
  destruct (if ar_full r then _ else _) as [count start] eqn:E.
  destruct (Nat.eqb_spec count 0) as [->|Hc]; [by rewrite <-HS|].
  rewrite <-HS. destruct count as [|count]; [done|]. cbn [seq map]. rewrite Nat.add_0_r.
  assert (start < length (ar_buf r))%nat as Hs
    by (unfold ring_wf in Hw; destruct (ar_full r); injection E as E1 E2; lia).
  by rewrite Nat.mod_small.
Qed.

(** * Streams and the log *)
Definition log_at (key : string) (log : list AlgoQuote) : list AlgoQuote := filter (fun q => stream_of q = key) log.

Lemma log_at_snoc key log q :
  log_at key (log ++ [q]) = if decide (stream_of q = key) then log_at key log ++ [q] else log_at key log.
Proof. unfold log_at. rewrite filter_app, filter_cons, filter_nil. by destruct (decide _); rewrite ?app_nil_r. Qed.

Lemma log_at_app key l1 l2 : log_at key (l1 ++ l2) = log_at key l1 ++ log_at key l2.
Proof. apply filter_app. Qed.

Lemma log_at_length key log : (length (log_at key log) <= length log)%nat.
Proof. apply length_filter. Qed.

(** The sequence numbers of a stream are 1, 2, 3, ...; its generator is at the last
    one, its ring holds the end of it. *)
Definition stream_ok (s : AlgoStreamServer) (log : list AlgoQuote) (key : string) : Prop :=
  default 0 (as_seqGens s !! key) = zlen (log_at key log) /\
  (forall i q, log_at key log !! i = Some q -> aq_Seq q = Z.of_nat i + 1) /\
  match as_rings s !! key with
  | Some r => ring_wf r /\ length (ar_buf r) = as_ringSize s /\
              contents r = Some <$> lastn (as_ringSize s) (log_at key log)
  | None => log_at key log = []
  end.
Definition streams_ok (s : AlgoStreamServer) (log : list AlgoQuote) : Prop :=
  (0 < as_ringSize s)%nat /\ forall key, stream_ok s log key.

Lemma new_ring_ok n : (0 < n)%nat -> ring_wf (newAlgoRing n) /\ length (ar_buf (newAlgoRing n)) = n /\
  contents (newAlgoRing n) = Some <$> lastn n [].
Proof. intros. unfold ring_wf, contents. simpl. rewrite length_replicate. done. Qed.

Lemma ringFor_spec s log key ring s1 :
  streams_ok s log -> ringFor s key = (ring, s1) ->
  streams_ok s1 log /\ ring_wf ring /\ length (ar_buf ring) = as_ringSize s /\
  contents ring = Some <$> lastn (as_ringSize s) (log_at key log) /\
  as_seqGens s1 = as_seqGens s /\ as_subs s1 = as_subs s /\ as_ringSize s1 = as_ringSize s /\
  as_clientBufSize s1 = as_clientBufSize s /\
  forall k, k <> key -> as_rings s1 !! k = as_rings s !! k.
Proof.
  intros [Hn Hs] E. unfold ringFor in E. pose proof (Hs key) as (G & Q & R).
  destruct (as_rings s !! key) as [r|] eqn:Er.
  - injection E as <- <-. destruct R as (R1 & R2 & R3). split; [by split|]. by split_and!.
  - injection E as <- <-. destruct (new_ring_ok (as_ringSize s) Hn) as (N1 & N2 & N3). rewrite R. split.
    + split; [done|]. intros k. destruct (Hs k) as (Gk & Qk & Rk). split; [done|]. split; [done|].
      cbn [set_streams as_rings as_ringSize]. destruct (decide (key = k)) as [<-|Hne].
      * rewrite lookup_insert_eq, R. by split_and!.
      * by rewrite lookup_insert_ne.
    + split_and!; try done. intros k Hk. cbn [set_streams as_rings]. by rewrite lookup_insert_ne.
Qed.

(** One emission, as the log and the subscribers see it. *)
Lemma emitQuote_spec s log t env tenor bid ask now q s' :
  streams_ok s log -> zlen log + 1 < 2 ^ 63 -> emitQuote s t env tenor bid ask now = (q, s') ->
  streams_ok s' (log ++ [q]) /\ as_subs s' = offer (as_clientBufSize s) now q <$> as_subs s /\
  as_clientBufSize s' = as_clientBufSize s.
Proof.
  intros Hok Hlen E. unfold emitQuote in E. set (key := streamKeyFor (tk_Source t) (tk_Symbol t) tenor) in *.
  destruct (nextSeq s key) as [sq s1] eqn:E1. unfold nextSeq in E1. injection E1 as Esq Es1.
  destruct (ringFor s1 key) as [ring s2] eqn:E2. injection E as <- <-.
  set (q := algo_quote t env tenor bid ask sq). assert (stream_of q = key) as Hq by done.
  pose proof (proj2 Hok key) as (G & Q & R). pose proof (log_at_length key log) as Hkl.
  assert (default 0 (as_seqGens s !! key) + 1 = zlen (log_at key log) + 1) as G' by lia.
  assert (incr64 (default 0 (as_seqGens s !! key)) = zlen (log_at key log) + 1) as Gi
    by (unfold incr64; rewrite wrap_small; [lia|unfold is_uint; lia]).
  assert (sq = zlen (log_at key log) + 1) as Hsq by (rewrite <-Esq, Gi; apply wrap64_small; unfold is_int64; lia).
  assert (as_rings s1 = as_rings s /\ as_subs s1 = as_subs s /\ as_ringSize s1 = as_ringSize s /\
          as_clientBufSize s1 = as_clientBufSize s) as (R1 & B1 & N1 & C1) by (by rewrite <-Es1).
  assert (ring_wf ring /\ length (ar_buf ring) = as_ringSize s /\
    contents ring = Some <$> lastn (as_ringSize s) (log_at key log) /\ as_seqGens s2 = as_seqGens s1 /\
    as_subs s2 = as_subs s /\ as_ringSize s2 = as_ringSize s /\ as_clientBufSize s2 = as_clientBufSize s /\
    forall k, k <> key -> as_rings s2 !! k = as_rings s !! k) as (W & L & C & G2 & B2 & N2 & C2 & K2).
  { unfold ringFor in E2. rewrite R1 in E2. destruct (as_rings s !! key) as [r|] eqn:Er.
    - injection E2 as <- <-. destruct R as (? & ? & ?). split_and!; try done; congruence.
    - injection E2 as <- <-. rewrite N1, R. destruct (new_ring_ok (as_ringSize s) (proj1 Hok)) as (? & ? & ?).
      split_and!; try done. intros k Hk. cbn [set_streams as_rings]. by rewrite lookup_insert_ne. }
  split; [|split; [by cbn; rewrite B2, C2|by cbn]]. split; [cbn; by rewrite N2; apply Hok|].
  intros k. destruct (proj2 Hok k) as (Gk & Qk & Rk). unfold stream_ok.
  cbn [fanout set_subs set_streams as_seqGens as_rings as_ringSize]. rewrite G2, <-Es1, N2, log_at_snoc, Hq.
  cbn [set_streams as_seqGens]. destruct (decide (key = k)) as [<-|Hne].
  - rewrite !lookup_insert_eq. cbn [default]. split; [rewrite Gi, length_app; simpl; lia|]. split.
    + intros i q' Hi. destruct (decide (i < length (log_at key log))%nat).
      * rewrite lookup_app_l in Hi by done. by apply Qk.
      * rewrite lookup_app_r in Hi by lia. apply list_lookup_singleton_Some in Hi as [Hi <-]. simpl. lia.
    + destruct (contents_push ring q W) as (P1 & P2 & P3). split; [done|]. split; [congruence|].
      rewrite P3, L, C. rewrite <-lastn_fmap, lastn_snoc by apply Hok. by rewrite <-lastn_fmap, fmap_app.
  - rewrite !lookup_insert_ne by done. by rewrite K2.
Qed.

(** ** Snapshots in terms of the log *)
Lemma filter_seqs from l o :
  (forall i q, l !! i = Some q -> aq_Seq q = o + Z.of_nat i + 1) ->
  filter (fun q => from < GetSeq q) (Some <$> l) = Some <$> drop (Z.to_nat (from - o)) l.
Proof.
  revert o. induction l as [|q l IH]; intros o H; [by rewrite drop_nil|]. rewrite fmap_cons, filter_cons. simpl.
  pose proof (H 0%nat q eq_refl) as Hq. simpl in Hq.
  rewrite (IH (o + 1)) by (intros i x Hi; rewrite (H (S i) x Hi); lia).
  destruct (decide (from < aq_Seq q)).
  - replace (Z.to_nat (from - o)) with 0%nat by lia. by replace (Z.to_nat (from - (o + 1))) with 0%nat by lia.
  - by replace (Z.to_nat (from - o)) with (S (Z.to_nat (from - (o + 1)))) by lia.
Qed.

Lemma snapshot_log r N L from ticks o :
  (0 < N)%nat -> 0 <= from -> ring_wf r -> contents r = Some <$> lastn N L ->
  (forall i q, L !! i = Some q -> aq_Seq q = Z.of_nat i + 1) ->
  snapshot r from = (ticks, o, false) -> ticks = Some <$> drop (Z.to_nat from) L.
Proof.
  intros HN Hf Hw HC HL. rewrite snapshot_spec, HC by done. set (d := (length L - N)%nat).
  assert (forall i q, lastn N L !! i = Some q -> aq_Seq q = Z.of_nat d + Z.of_nat i + 1) as Hd.
  { intros i q Hi. unfold lastn in Hi. rewrite lookup_drop in Hi. rewrite (HL _ _ Hi). lia. }
  destruct (lastn N L) as [|x l] eqn:El.
  { intros [= <- <-]. assert (L = []) as ->; [|by rewrite drop_nil].
    apply length_zero_iff_nil. apply (f_equal length) in El. unfold lastn in El. rewrite length_drop in El. simpl in El. lia. }
  cbn [fmap list_fmap]. pose proof (Hd 0%nat x eq_refl) as Hx. cbn [GetSeq]. destruct (Z.ltb_spec (from + 1) (aq_Seq x)); [done|].
  intros [= <- <-]. change (Some x :: (Some <$> l)) with (Some <$> (x :: l)). rewrite (filter_seqs _ _ (Z.of_nat d)) by done.
  rewrite <-El. unfold lastn. fold d. rewrite drop_drop. do 2 f_equal. lia.
Qed.

Lemma bump_fold key qs e o :
  0 <= o -> default 0 (e !! key) <= o -> (forall i q, qs !! i = Some q -> aq_Seq q = o + Z.of_nat i + 1) ->
  fold_left (bump_end key) qs e !! key = (if decide (qs = []) then e !! key else Some (o + zlen qs)) /\
  forall k, k <> key -> fold_left (bump_end key) qs e !! k = e !! k.
Proof.
  revert e o. induction qs as [|q qs IH]; intros e o Ho He H; [done|]. simpl.
  pose proof (H 0%nat q eq_refl) as Hq. simpl in Hq. unfold bump_end at 2 4. rewrite (proj2 (Z.ltb_lt _ _)) by lia.
  destruct (IH (<[key := aq_Seq q]> e) (o + 1)) as [I1 I2]; [lia|rewrite lookup_insert_eq; simpl; lia| |].
  { intros i x Hi. rewrite (H (S i) x Hi). lia. }
  rewrite I1. split.
  - destruct (decide (qs = [])) as [->|]; [rewrite lookup_insert_eq; simpl|]; f_equal; lia.
  - intros k Hk. by rewrite I2, lookup_insert_ne.
Qed.

Lemma log_at_other key l : Forall (fun q => stream_of q <> key) l -> log_at key l = [].
Proof. induction 1 as [|q l Hq F IH]; [done|]. unfold log_at in *. by rewrite filter_cons_False, IH. Qed.
Lemma log_at_all key l : Forall (fun q => stream_of q = key) l -> log_at key l = l.
Proof. induction 1 as [|q l Hq F IH]; [done|]. unfold log_at in *. by rewrite filter_cons_True, IH. Qed.
Lemma log_at_stream key l : Forall (fun q => stream_of q = key) (log_at key l).
Proof. unfold log_at. rewrite Forall_forall. intros q Hq. by apply list_elem_of_filter in Hq as [? _]. Qed.

(** * The system *)
Section system.
Context (unmarshal : list byte -> option JSONEnvelope) (tenor_iter : gset string -> list string)
  (iter : gset string -> list string).

(** The log, and the session with the log as it was when it subscribed. *)
Record sys := mkSys { y_srv : AlgoStreamServer; y_log : list AlgoQuote; y_se : session; y_then : list AlgoQuote }.

(** Tenor names are not empty: the injection endpoints refuse them. *)
Definition named_tenors (provider : option SwapProvider) : Prop :=
  match provider with Some p => forall sym, "" ∉ Provider_Tenors tenor_iter p sym | None => True end.

Inductive step : sys -> sys -> Prop :=
| step_tick s log se l0 provider t now qs s' :
    named_tenors provider ->
    Algo_OnTick unmarshal tenor_iter s provider t now = (qs, s') ->
    step (mkSys s log se l0) (mkSys s' (log ++ qs) se l0)
| step_replay s log se l0 key todo se' s' :
    se_todo se = key :: todo -> replay_key s se key = (Some se', s') ->
    step (mkSys s log se l0) (mkSys s' log se' l0)
| step_live s log se l0 se' s' :
    se_todo se = [] -> live_step s se = Some (se', s') ->
    step (mkSys s log se l0) (mkSys s' log se' l0)
| step_other_subscribe s log se l0 id sub from :
    id <> se_id se -> step (mkSys s log se l0) (mkSys (snd (subscribe iter s id sub from)) log se l0)
| step_other_replay s log se l0 se2 key :
    step (mkSys s log se l0) (mkSys (snd (replay_key s se2 key)) log se l0)
| step_other_live s log se l0 se2 se2' s' :
    se_id se2 <> se_id se -> live_step s se2 = Some (se2', s') -> step (mkSys s log se l0) (mkSys s' log se l0)
| step_other_leave s log se l0 id sub :
    id <> se_id se -> step (mkSys s log se l0) (mkSys (unregisterSub s id sub) log se l0)
| step_evict s log se l0 now :
    step (mkSys s log se l0) (mkSys (evictSlowSubs s now) log se l0).

Definition steps : sys -> sys -> Prop := rtc step.

(** ** The invariant of one stream [key] *)
Section stream.
Context (id : nat) (sub0 : algoSub) (key : string) (from : Z).

(** Every quote of the stream passes the subscriber's filters. *)
Definition covers : Prop :=
  forall source symbol tenor, tenor <> "" -> streamKeyFor source symbol tenor = key -> matches sub0 source symbol tenor = true.
Definition same_filters (sub : algoSub) : Prop :=
  su_symbolSet sub = su_symbolSet sub0 /\ su_sources sub = su_sources sub0 /\ su_tenorSet sub = su_tenorSet sub0.

(** Quotes up to the replay mark. *)
Definition strip (q : AlgoQuote) : AlgoQuote := as_backfill (Some q).
Definition sent (se : session) : list AlgoQuote := strip <$> log_at key (se_out se).

(** First log position the subscriber is owed. *)
Definition base (l0 : list AlgoQuote) : nat :=
  if 0 <? from then Z.to_nat from else length (log_at key l0).

(** With no drop so far: the channel holds the stream from position [p] on; before
    the replay of the stream nothing of it was sent, afterwards the stream was sent
    from [base] to the further of [p] and the replay's end [n1]. *)
Definition delivered (log l0 : list AlgoQuote) (se : session) (sub : algoSub) : Prop :=
  let L := log_at key log in let r := length (log_at key l0) in
  exists p, (r <= p <= length L)%nat /\ log_at key (su_ch sub) = drop p L /\
    ((key ∈ se_todo se /\ p = r /\ sent se = [] /\ se_end se !! key = None) \/
     (key ∉ se_todo se /\ exists n1, (r <= n1 <= length L)%nat /\
        (se_end se !! key = Some (Z.of_nat n1) \/ (se_end se !! key = None /\ n1 = r /\ base l0 = r)) /\
        sent se = strip <$> take (Nat.max n1 p - base l0) (drop (base l0) L))).

Definition inv (y : sys) : Prop :=
  let s := y_srv y in
  streams_ok s (y_log y) /\ (NoDup (se_todo (y_se y)) /\ (se_todo (y_se y) <> [] -> 0 < from)) /\
  se_id (y_se y) = id /\ se_from (y_se y) = from /\
  (base (y_then y) <= length (log_at key (y_then y)))%nat /\
  exists sub, as_subs s !! id = Some sub /\ same_filters sub /\ 0 <= su_dropsLocal sub <= zlen (y_log y) /\
    (su_dropsLocal sub = 0 -> delivered (y_log y) (y_then y) (y_se y) sub).

Lemma same_matches sub source symbol tenor : same_filters sub -> matches sub source symbol tenor = matches sub0 source symbol tenor.
Proof. unfold matches. by intros (-> & -> & ->). Qed.

(** The stream grows by one and the channel with it. *)
Lemma delivered_grow log l0 se sub sub' q :
  delivered log l0 se sub ->
  log_at key (su_ch sub') = log_at key (su_ch sub) ++ (if decide (stream_of q = key) then [q] else []) ->
  (base l0 <= length (log_at key l0))%nat ->
  delivered (log ++ [q]) l0 se sub'.
Proof.
  intros (p & Hp & Hch & Hs) Hc Hb. unfold delivered. rewrite log_at_snoc, Hc, Hch.
  destruct (decide (stream_of q = key)) as [E|E]; [|rewrite app_nil_r; by exists p].
  exists p. rewrite length_app. simpl. split; [lia|]. split; [by rewrite drop_app_le by lia|].
  destruct Hs as [Hs|(Hk & n1 & Hn & He & Hout)]; [by left|]. right. split; [done|]. exists n1. split; [lia|]. split; [done|].
  rewrite Hout. f_equal. rewrite drop_app_le by lia. rewrite take_app_le; [done|]. rewrite length_drop. lia.
Qed.

Lemma inv_emit s log se l0 t env tenor bid ask now q s' :
  covers -> tenor <> "" -> zlen log + 1 < 2 ^ 63 -> inv (mkSys s log se l0) ->
  emitQuote s t env tenor bid ask now = (q, s') -> inv (mkSys s' (log ++ [q]) se l0).
Proof.
  intros Hcov Htn Hlen (Hok & Hnd & Hid & Hfr & Hb & sub & Hsub & Hf & Hd & Hdel) E. cbn [y_srv y_log y_se y_then] in *.
  assert (aq_Tenor q = tenor) as Hqt by (unfold emitQuote in E; by repeat case_match; simplify_eq).
  destruct (emitQuote_spec _ _ _ _ _ _ _ _ _ _ Hok Hlen E) as (Hok' & Hsubs & _).
  split; [done|]. split; [done|]. split; [done|]. split; [done|]. split; [done|]. cbn [y_srv y_log y_se y_then].
  exists (offer (as_clientBufSize s) now q sub). rewrite Hsubs, lookup_fmap, Hsub. split; [done|].
  unfold offer. destruct (matches sub _ _ _) eqn:M; cbn [negb].
  - destruct (length (su_ch sub) <? as_clientBufSize s)%nat; cbn [su_dropsLocal su_ch].
    + split; [done|]. split; [rewrite length_app; simpl; lia|]. intros H0.
      apply (delivered_grow log l0 se sub); [by apply Hdel| |done]. cbn [su_ch]. rewrite log_at_snoc.
      by destruct (decide _); rewrite ?app_nil_r.
    + split; [done|].
      assert (incr64 (su_dropsLocal sub) = su_dropsLocal sub + 1) as ->
        by (unfold incr64; apply wrap_small; unfold is_uint; lia).
      split; [rewrite length_app; simpl; lia|]. intros H0. exfalso. lia.
  - split; [done|]. split; [rewrite length_app; simpl; lia|]. intros H0.
    apply (delivered_grow log l0 se sub); [by apply Hdel| |done]. rewrite decide_False; [by rewrite app_nil_r|].
    intros Hk. rewrite <-Hqt in Htn. rewrite same_matches, (Hcov _ _ _ Htn Hk) in M by done. done.
Qed.

Lemma inv_tenors s log se l0 p t env tenors now qs s' :
  covers -> "" ∉ tenors -> zlen log + zlen qs < 2 ^ 63 -> inv (mkSys s log se l0) ->
  emit_tenors s p t env tenors now = (qs, s') -> inv (mkSys s' (log ++ qs) se l0).
Proof.
  intros Hcov. revert s log qs. induction tenors as [|tn tenors IH]; intros s log qs Htn Hlen Hi E; simpl in E.
  { injection E as <- <-. by rewrite app_nil_r. }
  apply not_elem_of_cons in Htn as [Ht1 Htn]. destruct (Provider_Effective _ _ _) as [[sb sa]|]; [|by apply (IH s)].
  destruct (emitQuote _ _ _ _ _ _ _) as [q s1] eqn:E1. destruct (emit_tenors s1 _ _ _ _ _) as [qs1 s2] eqn:E2.
  injection E as <- <-. simpl in Hlen. assert (zlen log + 1 < 2 ^ 63) as Hl by lia.
  pose proof (inv_emit _ _ _ _ _ _ _ _ _ _ _ _ Hcov (not_eq_sym Ht1) Hl Hi E1) as Hi1.
  replace (log ++ q :: qs1) with ((log ++ [q]) ++ qs1) by (by rewrite <-app_assoc).
  apply (IH s1); [done|rewrite length_app; simpl; lia|done..].
Qed.

Lemma inv_tick s log se l0 provider t now qs s' :
  covers -> named_tenors provider -> zlen log + zlen qs < 2 ^ 63 -> inv (mkSys s log se l0) ->
  Algo_OnTick unmarshal tenor_iter s provider t now = (qs, s') -> inv (mkSys s' (log ++ qs) se l0).
Proof.
  intros Hcov Hnt Hlen Hi E. unfold Algo_OnTick in E. assert (SpotTenor <> "") as Hsp by done. destruct t as [t|]; [|injection E as <- <-; by rewrite app_nil_r].
  destruct (bool_decide _); [injection E as <- <-; by rewrite app_nil_r|].
  destruct (_ && _); [injection E as <- <-; by rewrite app_nil_r|].
  destruct (DecodeJSONEnvelope _ _) as [env| |]; try (injection E as <- <-; by rewrite app_nil_r).
  destruct (emitQuote _ _ _ _ _ _ _) as [q s1] eqn:E1. destruct provider as [p|].
  - destruct (emit_tenors s1 _ _ _ _ _) as [qs1 s2] eqn:E2. injection E as <- <-. simpl in Hlen.
    assert (zlen log + 1 < 2 ^ 63) as Hl by lia.
  pose proof (inv_emit _ _ _ _ _ _ _ _ _ _ _ _ Hcov Hsp Hl Hi E1) as Hi1.
    replace (log ++ q :: qs1) with ((log ++ [q]) ++ qs1) by (by rewrite <-app_assoc).
    refine (inv_tenors _ _ _ _ _ _ _ _ _ _ _ Hcov (Hnt _) _ Hi1 E2). rewrite length_app. simpl. lia.
  - injection E as <- <-. simpl in Hlen. assert (zlen log + 1 < 2 ^ 63) as Hl by lia. exact (inv_emit _ _ _ _ _ _ _ _ _ _ _ _ Hcov Hsp Hl Hi E1).
Qed.

(** The server part of a step that leaves the streams and this subscriber alone. *)
Lemma inv_frame s s' log se l0 :
  inv (mkSys s log se l0) -> streams_ok s' log -> as_subs s' !! id = as_subs s !! id -> inv (mkSys s' log se l0).
Proof.
  intros (Hok & Hnd & Hid & Hfr & Hb & sub & Hsub & Hrest) Hok' Hs. cbn [y_srv y_log y_se y_then] in *.
  split_and!; try done; try apply Hnd; try apply Hok'. exists sub. cbn [y_srv]. by rewrite Hs.
Qed.

Lemma strip_idem q : strip (strip q) = strip q.
Proof. done. Qed.
Lemma stream_strip q : stream_of (strip q) = stream_of q.
Proof. done. Qed.

Lemma replay_ticks s log se k se' s' :
  streams_ok s log -> 0 < se_from se -> replay_key s se k = (Some se', s') ->
  let qs := strip <$> drop (Z.to_nat (se_from se)) (log_at k log) in
  streams_ok s' log /\ as_subs s' = as_subs s /\
  se' = mkSession (se_id se) (se_from se) (tail (se_todo se)) (fold_left (bump_end k) qs (se_end se)) (se_out se ++ qs).
Proof.
  intros Hok Hf E. unfold replay_key in E. destruct (ringFor s k) as [ring s1] eqn:Er.
  destruct (ringFor_spec _ _ _ _ _ Hok Er) as (Hok1 & W & _ & C & _ & B & N1 & _ & _).
  destruct (snapshot ring (se_from se)) as [[ticks o] gap] eqn:Es. destruct gap; [done|]. injection E as <- <-.
  apply (snapshot_log ring (as_ringSize s) (log_at k log)) in Es;
    [|apply Hok|lia|done|done|apply (proj2 Hok k)]. subst ticks.
  replace (map as_backfill _) with (strip <$> drop (Z.to_nat (se_from se)) (log_at k log)); [done|].
  unfold fmap. rewrite <-list_fmap_compose. done.
Qed.

Lemma inv_replay s log se l0 k todo se' s' :
  inv (mkSys s log se l0) -> se_todo se = k :: todo -> replay_key s se k = (Some se', s') ->
  inv (mkSys s' log se' l0).
Proof.
  intros (Hok & [Hnd Hpos] & Hid & Hfr & Hb & sub & Hsub & Hf & Hd & Hdel) Ht E. cbn [y_srv y_log y_se y_then] in *.
  assert (0 < from) as Hfrom by (apply Hpos; by rewrite Ht).
  apply (replay_ticks s log) in E as (Hok' & Hsubs & ->); [|done|by rewrite Hfr]. rewrite Hfr, Ht in *.
  apply NoDup_cons in Hnd as [Hk Hnd]. cbn [tail]. split_and!; cbn [y_srv y_log y_se y_then se_todo se_id se_from]; try done;
    try apply Hok'.
  exists sub. rewrite Hsubs. split; [done|]. split; [done|]. split; [done|]. intros H0.
  destruct (Hdel H0) as (p & Hp & Hch & Hs). exists p. split; [done|]. split; [done|]. cbn [se_todo se_end se_out].
  set (qs := strip <$> drop (Z.to_nat from) (log_at k log)).
  assert (forall i q, qs !! i = Some q -> aq_Seq q = from + Z.of_nat i + 1) as Hseq.
  { intros i q Hi. unfold qs in Hi. rewrite list_lookup_fmap, lookup_drop in Hi.
    apply fmap_Some in Hi as (q0 & Hi & ->). destruct (proj2 Hok k) as (_ & Q & _). cbn. rewrite (Q _ _ Hi). lia. }
  destruct (decide (k = key)) as [->|Hne].
  - destruct Hs as [(_ & -> & Hsent & Hend)|[Hk2 _]]; [|exfalso; apply Hk2; rewrite Ht; left].
    right. split; [done|]. exists (length (log_at key log)). split; [lia|].
    assert (base l0 = Z.to_nat from) as Hbase by (unfold base; by rewrite (proj2 (Z.ltb_lt _ _))).
    destruct (bump_fold key qs (se_end se) from) as [B1 _]; [lia|rewrite Hend; simpl; lia|done|].
    rewrite B1, Hend. split.
    + destruct (decide (qs = [])) as [Eq|Eq].
      * right. split; [done|]. apply (f_equal length) in Eq. unfold qs in Eq. rewrite length_fmap, length_drop in Eq. simpl in Eq. lia.
      * left. f_equal. unfold qs. rewrite length_fmap, length_drop. assert (0 < length qs)%nat by (destruct qs; [done|simpl; lia]).
        unfold qs in *. rewrite length_fmap, length_drop in *. lia.
    + unfold sent in *. cbn [se_out]. rewrite log_at_app, fmap_app, Hsent. simpl. rewrite log_at_all.
      * unfold qs. rewrite Hbase, take_ge by (rewrite length_drop; lia).
        rewrite <-list_fmap_compose. done.
      * unfold qs. apply Forall_fmap, Forall_drop. apply log_at_stream.
  - assert (sent (mkSession (se_id se) from todo (fold_left (bump_end k) qs (se_end se)) (se_out se ++ qs)) = sent se) as ->.
    { unfold sent. cbn [se_out]. rewrite log_at_app, (log_at_other key qs); [by rewrite app_nil_r|]. unfold qs. apply Forall_fmap, Forall_drop.
      eapply Forall_impl; [apply log_at_stream|]. intros q Hq. change (stream_of q <> key). congruence. }
    assert (fold_left (bump_end k) qs (se_end se) !! key = se_end se !! key) as ->.
    { assert (forall l e, fold_left (bump_end k) l e !! key = e !! key) as Hfold; [|done].
      induction l as [|q l IHl]; intros e; [done|]. simpl. rewrite IHl. unfold bump_end. case_if; [|done].
      by rewrite lookup_insert_ne. }
    destruct Hs as [(Hin & Hs)|(Hin & Hs)].
    + left. split; [|done]. rewrite Ht in Hin. by apply elem_of_cons in Hin as [Hin|Hin].
    + right. split; [|done]. intros Hin2. apply Hin. rewrite Ht. by right.
Qed.

(** A message taken from the channel: skipped or sent on. *)
Definition skipped (se : session) (q : AlgoQuote) : bool :=
  match se_end se !! stream_of q with Some e => aq_Seq q <=? e | None => false end.

Lemma delivered_pop log l0 se sub sub' q rest :
  (forall i x, log_at key log !! i = Some x -> aq_Seq x = Z.of_nat i + 1) ->
  (base l0 <= length (log_at key l0))%nat -> se_todo se = [] ->
  su_ch sub = q :: rest -> su_ch sub' = rest -> delivered log l0 se sub ->
  delivered log l0 (if skipped se q then se
                    else mkSession (se_id se) (se_from se) (se_todo se) (se_end se) (se_out se ++ [q])) sub'.
Proof.
  intros HL Hb Ht Ech Ech' (p & Hp & Hch & Hs). rewrite Ech in Hch. unfold delivered. rewrite Ech'.
  destruct Hs as [(Hin & _)|(Hk & n1 & Hn & He & Hout)]; [rewrite Ht in Hin; by apply elem_of_nil in Hin|].
  unfold log_at in Hch at 1. rewrite filter_cons in Hch. fold (log_at key rest) in Hch.
  destruct (decide (stream_of q = key)) as [Eq|Eq].
  - assert (log_at key log !! p = Some q) as Hq by (by rewrite <-(Nat.add_0_r p), <-lookup_drop, <-Hch).
    pose proof (lookup_lt_Some _ _ _ Hq) as Hlt. pose proof (HL _ _ Hq) as Hseq.
    rewrite (drop_S _ _ _ Hq) in Hch. injection Hch as Hrest.
    exists (S p). split; [lia|]. split; [done|]. right. unfold skipped. rewrite Eq, Hseq.
    assert (forall se', sent se' = strip <$> take (Nat.max n1 (S p) - base l0) (drop (base l0) (log_at key log)) ->
      se_todo se' = se_todo se -> se_end se' = se_end se ->
      key ∉ se_todo se' /\ exists n1, (length (log_at key l0) <= n1 <= length (log_at key log))%nat /\
        (se_end se' !! key = Some (Z.of_nat n1) \/ se_end se' !! key = None /\ n1 = length (log_at key l0) /\ base l0 = length (log_at key l0)) /\
        sent se' = strip <$> take (Nat.max n1 (S p) - base l0) (drop (base l0) (log_at key log))) as K.
    { intros se' S1 S2 S3. rewrite S2, S3. split; [done|]. by exists n1. }
    destruct (match se_end se !! key with Some e => _ | None => _ end) eqn:Esk; apply K; try done.
    + rewrite Hout. destruct He as [He|(He & _)]; rewrite He in Esk; [|done]. apply Z.leb_le in Esk.
      by replace (Nat.max n1 (S p)) with (Nat.max n1 p) by lia.
    + assert (n1 <= p)%nat as Hnp by (destruct He as [He|(He & -> & _)]; rewrite He in Esk; [apply Z.leb_gt in Esk|]; lia).
      unfold sent in *. cbn [se_out]. rewrite log_at_snoc, decide_True, fmap_app, Hout by done.
      replace (Nat.max n1 (S p) - base l0)%nat with (S (p - base l0)) by lia.
      replace (Nat.max n1 p - base l0)%nat with (p - base l0)%nat by lia.
      rewrite (take_S_r _ _ q), fmap_app; [done|]. rewrite lookup_drop. by replace (base l0 + (p - base l0))%nat with p by lia.
  - exists p. split; [done|]. split; [done|]. right. destruct (skipped se q); [by eauto|].
    cbn [se_todo se_end]. split; [done|]. exists n1. split; [done|]. split; [done|].
    rewrite <-Hout. unfold sent. cbn [se_out]. by rewrite log_at_snoc, decide_False.
Qed.

Lemma inv_live s log se l0 se' s' :
  inv (mkSys s log se l0) -> se_todo se = [] -> live_step s se = Some (se', s') -> inv (mkSys s' log se' l0).
Proof.
  intros (Hok & [Hnd Hpos] & Hid & Hfr & Hb & sub & Hsub & Hf & Hd & Hdel) Ht E. cbn [y_srv y_log y_se y_then] in *.
  unfold live_step in E. rewrite Hid, Hsub in E. cbn [mbind option_bind] in E.
  destruct (su_ch sub) as [|q rest] eqn:Ech; [done|]. fold (skipped se q) in E.
  set (sub' := mkSub (su_clientID sub) (su_symbolSet sub) (su_sources sub) (su_tenorSet sub) rest
               (su_dropsLocal sub) (su_firstDropAt sub) (su_done sub) (su_slowFired sub)).
  assert (se' = (if skipped se q then se else mkSession (se_id se) (se_from se) (se_todo se) (se_end se) (se_out se ++ [q])) /\
    streams_ok s' log /\ as_subs s' !! id = Some sub') as (-> & Hok' & Hs').
  { rewrite Hid. destruct (skipped se q); injection E as <- <-; (split; [by rewrite ?Hid|]); (split; [exact Hok|]);
      cbn [pop as_subs]; by rewrite lookup_insert_eq. }
  assert (inv (mkSys s' log (if skipped se q then se
    else mkSession (se_id se) (se_from se) (se_todo se) (se_end se) (se_out se ++ [q])) l0)); [|done].
  unfold inv. cbn [y_srv y_log y_se y_then]. split; [done|]. split; [by destruct (skipped se q)|].
  split; [by destruct (skipped se q)|]. split; [by destruct (skipped se q)|]. split; [done|].
  exists sub'. split; [done|]. split; [done|]. split; [done|]. intros H0.
  eapply (delivered_pop log l0 se sub sub' q rest); try done; [apply (proj2 Hok key)|by apply Hdel].
Qed.

Lemma inv_step y y' : covers -> zlen (y_log y') < 2 ^ 63 -> step y y' -> inv y -> inv y'.
Proof.
  intros Hcov Hlen Hst. revert Hlen. destruct Hst; cbn [y_log]; intros Hlen Hi.
  - rewrite length_app in Hlen. eapply inv_tick; try done. lia.
  - by eapply inv_replay.
  - by eapply inv_live.
  - pose proof Hi as (Hok & Hr). eapply inv_frame; [exact Hi| |].
    + cbn [subscribe snd]. destruct Hok as [Hn Hs]. by split.
    + destruct Hr as (_ & Hid & _). cbn in Hid |- *. rewrite lookup_insert_ne; [done|congruence].
  - pose proof Hi as (Hok & Hr). cbn [y_srv y_log] in Hok.
    destruct (replay_key s se2 key0) as [o s1] eqn:E. unfold replay_key in E.
    destruct (ringFor s key0) as [ring s2] eqn:Er.
    destruct (ringFor_spec _ _ _ _ _ Hok Er) as (Hok2 & _ & _ & _ & _ & B & _).
    destruct (snapshot ring _) as [[ticks oo] gap]. destruct gap; injection E as <- <-;
      (eapply inv_frame; [exact Hi|exact Hok2|cbn; by rewrite B]).
  - pose proof Hi as (Hok & Hr). eapply inv_frame; [exact Hi| |].
    all: unfold live_step in *; destruct (as_subs s !! se_id se2) as [sub|]; [|done]; cbn [mbind option_bind] in *;
      destruct (su_ch sub) as [|q rest]; [done|]; case_match; simplify_eq; try exact Hok;
      cbn [pop as_subs]; destruct Hr as (_ & Hid & _); cbn in Hid; (rewrite lookup_insert_ne; [done|congruence]).
  - pose proof Hi as (Hok & Hr). eapply inv_frame; [exact Hi|exact Hok|].
    destruct Hr as (_ & Hid & _). cbn in Hid |- *. rewrite lookup_delete_ne; [done|congruence].
  - destruct Hi as (Hok & Hnd & Hid & Hfr & Hb & sub & Hsub & Hf & Hd & Hdel). cbn [y_srv y_log y_se y_then] in *.
    split; [exact Hok|]. do 4 (split; [done|]). cbn [y_srv y_log y_se y_then].
    exists (evict_sub (as_slowTimeout s) now sub). cbn [evictSlowSubs as_subs]. rewrite lookup_fmap, Hsub. split; [done|].
    unfold evict_sub. by case_match.
Qed.
End stream.

(** ** The life of the server before the subscription *)
Inductive served (ringSize bufSize timeout : Z) : AlgoStreamServer -> list AlgoQuote -> Prop :=
| served_new : served ringSize bufSize timeout (NewAlgoStreamServer ringSize bufSize timeout) []
| served_tick s log provider t now qs s' :
    served ringSize bufSize timeout s log -> Algo_OnTick unmarshal tenor_iter s provider t now = (qs, s') ->
    served ringSize bufSize timeout s' (log ++ qs)
| served_subscribe s log id sub from :
    served ringSize bufSize timeout s log -> served ringSize bufSize timeout (snd (subscribe iter s id sub from)) log
| served_replay s log se key :
    served ringSize bufSize timeout s log -> served ringSize bufSize timeout (snd (replay_key s se key)) log
| served_live s log se se' s' :
    served ringSize bufSize timeout s log -> live_step s se = Some (se', s') -> served ringSize bufSize timeout s' log
| served_leave s log id sub :
    served ringSize bufSize timeout s log -> served ringSize bufSize timeout (unregisterSub s id sub) log
| served_evict s log now :
    served ringSize bufSize timeout s log -> served ringSize bufSize timeout (evictSlowSubs s now) log.

Lemma streams_tenors s log p t env tenors now qs s' :
  streams_ok s log -> zlen log + zlen qs < 2 ^ 63 -> emit_tenors s p t env tenors now = (qs, s') -> streams_ok s' (log ++ qs).
Proof.
  revert s log qs. induction tenors as [|tn tenors IH]; intros s log qs Hok Hlen E; simpl in E.
  { injection E as <- <-. by rewrite app_nil_r. }
  destruct (Provider_Effective _ _ _) as [[sb sa]|]; [|by apply (IH s)].
  destruct (emitQuote _ _ _ _ _ _ _) as [q s1] eqn:E1. destruct (emit_tenors s1 _ _ _ _ _) as [qs1 s2] eqn:E2.
  injection E as <- <-. simpl in Hlen. apply (emitQuote_spec _ log) in E1 as (Hok1 & _); [|done|lia].
  replace (log ++ q :: qs1) with ((log ++ [q]) ++ qs1) by (by rewrite <-app_assoc).
  apply (IH s1); [done|rewrite length_app; simpl; lia|done].
Qed.

Lemma streams_tick s log provider t now qs s' :
  streams_ok s log -> zlen log + zlen qs < 2 ^ 63 ->
  Algo_OnTick unmarshal tenor_iter s provider t now = (qs, s') -> streams_ok s' (log ++ qs).
Proof.
  intros Hok Hlen E. unfold Algo_OnTick in E. destruct t as [t|]; [|injection E as <- <-; by rewrite app_nil_r].
  destruct (bool_decide _); [injection E as <- <-; by rewrite app_nil_r|].
  destruct (_ && _); [injection E as <- <-; by rewrite app_nil_r|].
  destruct (DecodeJSONEnvelope _ _) as [env| |]; try (injection E as <- <-; by rewrite app_nil_r).
  destruct (emitQuote _ _ _ _ _ _ _) as [q s1] eqn:E1. destruct provider as [p|].
  - destruct (emit_tenors s1 _ _ _ _ _) as [qs1 s2] eqn:E2. injection E as <- <-. simpl in Hlen.
    apply (emitQuote_spec _ log) in E1 as (Hok1 & _); [|done|lia].
    replace (log ++ q :: qs1) with ((log ++ [q]) ++ qs1) by (by rewrite <-app_assoc).
    eapply streams_tenors; [done|rewrite length_app; simpl; lia|done].
  - injection E as <- <-. simpl in Hlen. by apply (emitQuote_spec _ log) in E1 as (Hok1 & _); [|done|lia].
Qed.

Lemma served_streams_ok rs bs to s log : served rs bs to s log -> zlen log < 2 ^ 63 -> streams_ok s log.
Proof.
  induction 1 as [|s log provider t now qs s' H IH E|s log id sub from H IH|s log se key H IH|s log se se' s' H IH E| |];
    intros Hlen.
  - split; [simpl; destruct (Z.leb_spec rs 0); lia|]. intros key. by split_and!.
  - rewrite length_app in Hlen. eapply streams_tick; [apply IH; lia|lia|done].
  - exact (IH Hlen).
  - specialize (IH Hlen). destruct (replay_key s se key) as [o s1] eqn:E. unfold replay_key in E.
    destruct (ringFor s key) as [ring s2] eqn:Er. destruct (ringFor_spec _ _ _ _ _ IH Er) as (Hok2 & _).
    destruct (snapshot ring _) as [[ticks oo] gap]. destruct gap; injection E as <- <-; exact Hok2.
  - specialize (IH Hlen). unfold live_step in E. destruct (as_subs s !! _) as [sub|]; [|done].
    cbn [mbind option_bind] in E. destruct (su_ch sub) as [|q rest]; [done|]. case_match; simplify_eq; exact IH.
  - exact (IHserved Hlen).
  - exact (IHserved Hlen).
Qed.

(** ** Best-quote subscribers *)
Context (iter_elements : forall X, iter X ≡ₚ elements X).

Definition plain (sym : string) : Prop :=
  any_char (Ascii.eqb "|"%char) sym = false /\ any_char (Ascii.eqb "@"%char) sym = false.

Lemma spot_covers clientID symbols sym :
  plain sym -> sym ∈ nonempty_set symbols -> covers (new_sub clientID symbols [] []) sym.
Proof using Type.
  intros [P1 P2] Hin source symbol tenor Ht Hk. unfold streamKeyFor in Hk. unfold matches, new_sub. cbn [su_symbolSet su_sources su_tenorSet].
  change (nonempty_set []) with (∅ : gset string). rewrite !(bool_decide_eq_true_2 (∅ = ∅)) by done.
  rewrite (bool_decide_eq_false_2 (tenor = "")) in Hk by done. cbn [negb andb] in Hk.
  destruct (decide (tenor = SpotTenor)) as [Et|Et].
  - rewrite (bool_decide_eq_true_2 (tenor = SpotTenor)) in * by done. cbn [negb] in Hk. destruct (isSynth source).
    + subst symbol. rewrite (bool_decide_eq_true_2 (sym ∈ _)) by done. by rewrite orb_true_r.
    + exfalso. subst sym. rewrite any_char_app in P1. cbn in P1. by rewrite orb_true_r in P1.
  - rewrite (bool_decide_eq_false_2 (tenor = SpotTenor)) in Hk by done. cbn [negb] in Hk. exfalso. subst sym.
    rewrite any_char_app in P2. cbn in P2. by rewrite orb_true_r in P2.
Qed.

Lemma spot_keys s clientID symbols :
  nonempty_set symbols <> ∅ ->
  replayKeys iter s (new_sub clientID symbols [] []) = iter (nonempty_set symbols).
Proof using Type.
  intros Hne. unfold replayKeys, replayBaseKeys, subTenors, new_sub. cbn [su_symbolSet su_sources su_tenorSet].
  change (nonempty_set []) with (∅ : gset string). rewrite !(bool_decide_eq_true_2 (∅ = ∅)) by done.
  rewrite (bool_decide_eq_false_2 (nonempty_set symbols = ∅)) by done. cbn [negb].
  induction (iter (nonempty_set symbols)) as [|k l IH]; [done|]. rewrite bind_cons, IH. by destruct (GoStrings.Contains k _).
Qed.

End system.

(** A run: two quotes, a subscription after the first of them, a third quote before
    the replay, the replay of numbers 2 and 3, a fourth quote; the third is
    skipped in the channel, the fourth sent. *)
Definition ex_do_tick (y : sys) : sys :=
  let '(qs, s) := Algo_OnTick ex_unmarshal elements (y_srv y) None (Some (ex_tick "EUR/USD" "a"%byte)) 0 in
  mkSys s (y_log y ++ qs) (y_se y) (y_then y).
Definition ex_do_replay (y : sys) : sys :=
  match replay_key (y_srv y) (y_se y) "EUR/USD" with (Some se, s) => mkSys s (y_log y) se (y_then y) | _ => y end.
Definition ex_do_live (y : sys) : sys :=
  match live_step (y_srv y) (y_se y) with Some (se, s) => mkSys s (y_log y) se (y_then y) | None => y end.

Definition ex_before : sys :=
  ex_do_tick (ex_do_tick (mkSys (NewAlgoStreamServer 4 4 0) [] (mkSession 7 0 [] ∅ []) [])).
Definition ex_sub : algoSub := new_sub "robot" ["EUR/USD"] [] [].
Definition ex_joined : sys :=
  let '(se, s) := subscribe elements (y_srv ex_before) 7 ex_sub 1 in mkSys s (y_log ex_before) se (y_log ex_before).
Definition ex_1 : sys := ex_do_tick ex_joined.
Definition ex_2 : sys := ex_do_replay ex_1.
Definition ex_3 : sys := ex_do_tick ex_2.
Definition ex_4 : sys := ex_do_live ex_3.
Definition ex_after : sys := ex_do_live ex_4.

Lemma ex_served_tick y : served ex_unmarshal elements elements 4 4 0 (y_srv y) (y_log y) ->
  served ex_unmarshal elements elements 4 4 0 (y_srv (ex_do_tick y)) (y_log (ex_do_tick y)).
Proof.
  unfold ex_do_tick. destruct (Algo_OnTick _ _ _ _ _ _) as [qs s'] eqn:E. cbn [y_srv y_log]. intros H.
  by eapply served_tick.
Qed.
Lemma ex_served : served ex_unmarshal elements elements 4 4 0 (y_srv ex_before) (y_log ex_before).
Proof. apply ex_served_tick, ex_served_tick. constructor. Qed.

Lemma ex_tick_step y : step ex_unmarshal elements elements y (ex_do_tick y).
Proof.
  destruct y as [s log se l0]. unfold ex_do_tick. cbn [y_srv y_log y_se y_then].
  destruct (Algo_OnTick _ _ _ _ _ _) as [qs s'] eqn:E. eapply step_tick; [|exact E]. done.
Qed.
Lemma ex_live_step y : se_todo (y_se y) = [] -> (if live_step (y_srv y) (y_se y) is Some _ then True else False) ->
  step ex_unmarshal elements elements y (ex_do_live y).
Proof.
  destruct y as [s log se l0]. unfold ex_do_live. cbn [y_srv y_log y_se y_then]. intros Ht.
  destruct (live_step s se) as [[se' s']|] eqn:E; [|done]. intros _. by eapply step_live.
Qed.
Lemma ex_replay_step y todo : se_todo (y_se y) = "EUR/USD" :: todo ->
  (if fst (replay_key (y_srv y) (y_se y) "EUR/USD") is Some _ then True else False) ->
  step ex_unmarshal elements elements y (ex_do_replay y).
Proof.
  destruct y as [s log se l0]. unfold ex_do_replay. cbn [y_srv y_log y_se y_then]. intros Ht.
  destruct (replay_key s se "EUR/USD") as [[se'|] s'] eqn:E; [|done]. intros _. by eapply step_replay.
Qed.

Lemma ex_steps : steps ex_unmarshal elements elements ex_joined ex_after.
Proof.
  apply rtc_l with ex_1; [exact (ex_tick_step ex_joined)|].
  apply rtc_l with ex_2; [refine (ex_replay_step ex_1 [] _ _); vm_compute; [reflexivity|exact I]|].
  apply rtc_l with ex_3; [exact (ex_tick_step ex_2)|].
  apply rtc_l with ex_4; [refine (ex_live_step ex_3 _ _); vm_compute; [reflexivity|exact I]|].
  apply rtc_once. refine (ex_live_step ex_4 _ _); vm_compute; [reflexivity|exact I].
Qed.

Lemma ex_steps_fields : steps ex_unmarshal elements elements
  (mkSys (y_srv ex_joined) (y_log ex_before) (y_se ex_joined) (y_log ex_before))
  (mkSys (y_srv ex_after) (y_log ex_after) (y_se ex_after) (y_log ex_before)).
Proof.
  assert (mkSys (y_srv ex_joined) (y_log ex_before) (y_se ex_joined) (y_log ex_before) = ex_joined) as ->
    by (vm_compute; reflexivity).
  assert (mkSys (y_srv ex_after) (y_log ex_after) (y_se ex_after) (y_log ex_before) = ex_after) as ->
    by (vm_compute; reflexivity).
  exact ex_steps.
Qed.


(** * Where replay and filters disagree *)

(** Replay without symbols ignores the tenor filter and repeats streams: for a
    subscriber that names no symbol the keys come from the rings, tenor streams
    included, so a spot-only subscriber is replayed forward quotes that live
    delivery would filter out, and a subscriber of one tenor is replayed that
    tenor's stream twice. *)
Theorem replay_keys_leak s r1 r2 :
  as_rings s = {["USDKRW" := r1; "USDKRW@M01" := r2]} ->
  replayKeys elements s (new_sub "c" [] [] []) ≡ₚ ["USDKRW"; "USDKRW@M01"] /\
  matches (new_sub "c" [] [] []) SourceBest "USDKRW" "M01" = false /\
  streamKeyFor SourceBest "USDKRW" "M01" = "USDKRW@M01" /\
  replayKeys elements s (new_sub "c" [] [] ["M01"]) ≡ₚ ["USDKRW@M01"; "USDKRW@M01"].
Proof.
  intros Hr. unfold replayKeys, replayBaseKeys. rewrite Hr, dom_insert_L, dom_singleton_L.
  assert (elements ({["USDKRW"]} ∪ {["USDKRW@M01"]} : gset string) ≡ₚ ["USDKRW"; "USDKRW@M01"]) as He
    by (rewrite elements_disj_union, !elements_singleton by set_solver; done).
  cbn [new_sub su_sources su_symbolSet su_tenorSet nonempty_set].
  change (nonempty_set []) with (∅ : gset string). rewrite !(bool_decide_eq_true_2 (∅ = ∅)) by done. cbn [negb].
  rewrite He. split; [done|]. split; [done|]. split; [done|]. done.
Qed.
