(* ===== verification/Idempotency.v ===== *)
(** The idempotency store (src/pkg/idempotency/store.go and memory.go): a request
    reserves its key, the leader's reply is cached, duplicates are answered from the
    cache or refused. *)

From Stdlib Require Import ZArith Lia.
From S2P Require Import Prelude.
Local Open Scope Z_scope.

Inductive Status := StatusMiss | StatusCached | StatusInFlight | StatusConflict.

Definition Status_String (s : Status) : string :=
  match s with
  | StatusMiss => "miss" | StatusCached => "cached" | StatusInFlight => "in_flight" | StatusConflict => "conflict"
  end.

Record CachedReply := mkReply { StatusCode : Z; Body : list byte }.

Definition MakeKey (usid header : string) : string := usid +:+ "|" +:+ header.

(** Durations and instants are nanoseconds. *)
Record Options := mkOptions { TTL : Z }.
Definition effectiveTTL (o : Options) : Z := if TTL o <=? 0 then 300 * 1000000000 else TTL o.

(** A body hash is 32 bytes; the zero value of the array. *)
Definition Hash : Type := list byte.
Definition zero_hash : Hash := replicate 32 x00.

(** [reply = None]: in flight. *)
Record memEntry := mkEntry { bodyHash : Hash; reply : option CachedReply; expires : Z }.
Record MemoryStore := mkStore { ttl : Z; entries : gmap string memEntry }.

Definition NewMemoryStore (opt : Options) : MemoryStore := mkStore (effectiveTTL opt) ∅.

Definition Reserve (s : MemoryStore) (now : Z) (key : string) (h : Hash) : MemoryStore * (Status * option CachedReply) :=
  let fresh es := (mkStore (ttl s) (<[key := mkEntry h None (now + ttl s)]> es), (StatusMiss, None)) in
  match entries s !! key with
  | Some e =>
      if expires e <? now then fresh (delete key (entries s))
      else if negb (bool_decide (bodyHash e = h)) then (s, (StatusConflict, None))
      else match reply e with
           | Some r => (s, (StatusCached, Some r))
           | None => (s, (StatusInFlight, None))
           end
  | None => fresh (entries s)
  end.

Definition Commit (s : MemoryStore) (now : Z) (key : string) (r : CachedReply) : MemoryStore :=
  match entries s !! key with
  | None => mkStore (ttl s) (<[key := mkEntry zero_hash (Some r) (now + ttl s)]> (entries s))
  | Some e => mkStore (ttl s) (<[key := mkEntry (bodyHash e) (Some r) (now + ttl s)]> (entries s))
  end.

Definition Rollback (s : MemoryStore) (key : string) : MemoryStore :=
  match entries s !! key with
  | Some e => match reply e with None => mkStore (ttl s) (delete key (entries s)) | Some _ => s end
  | None => s
  end.

Definition Size (s : MemoryStore) : nat := size (entries s).

(** The calls on a store; each holds the lock. *)
Inductive op :=
| OpReserve (now : Z) (key : string) (h : Hash)
| OpCommit (now : Z) (key : string) (r : CachedReply)
| OpRollback (key : string).

Definition apply_op (s : MemoryStore) (o : op) : MemoryStore :=
  match o with
  | OpReserve now key h => (Reserve s now key h).1
  | OpCommit now key r => Commit s now key r
  | OpRollback key => Rollback s key
  end.
Definition apply_ops (s : MemoryStore) (os : list op) : MemoryStore := fold_left apply_op os s.

(** * One leader, one reply *)

(** While a key's leader works, nobody else commits or rolls back the key, and
    the calls on it come before the deadline. *)
Definition quiet (key : string) (deadline : Z) (o : op) : Prop :=
  match o with
  | OpReserve now k _ => k = key -> now <= deadline
  | OpCommit _ k _ => k <> key
  | OpRollback k => k <> key
  end.
(** Once the reply is stored a late rollback is harmless. *)
Definition quiet_committed (key : string) (deadline : Z) (o : op) : Prop :=
  match o with
  | OpReserve now k _ => k = key -> now <= deadline
  | OpCommit _ k _ => k <> key
  | OpRollback _ => True
  end.

Lemma Reserve_ttl s now key h : ttl (Reserve s now key h).1 = ttl s.
Proof. unfold Reserve. destruct (entries s !! key) as [e|]; [|done]. case_if; [done|]. case_if; [done|]. by destruct (reply e). Qed.

Lemma apply_op_ttl s o : ttl (apply_op s o) = ttl s.
Proof.
  destruct o; simpl; [apply Reserve_ttl|unfold Commit; by destruct (_ !! _)|].
  unfold Rollback. destruct (_ !! _) as [e|]; [|done]. by destruct (reply e).
Qed.

Lemma Reserve_live s now key h e :
  entries s !! key = Some e -> now <= expires e ->
  Reserve s now key h =
    (s, if negb (bool_decide (bodyHash e = h)) then (StatusConflict, None)
        else match reply e with Some r => (StatusCached, Some r) | None => (StatusInFlight, None) end).
Proof.
  intros E L. unfold Reserve. rewrite E, (proj2 (Z.ltb_ge _ _)) by done.
  case_if; [done|]. by destruct (reply e).
Qed.

Lemma Reserve_expired s now key h e :
  entries s !! key = Some e -> expires e < now ->
  Reserve s now key h =
    (mkStore (ttl s) (<[key := mkEntry h None (now + ttl s)]> (delete key (entries s))), (StatusMiss, None)).
Proof. intros E L. unfold Reserve. by rewrite E, (proj2 (Z.ltb_lt _ _)). Qed.

Lemma Reserve_other s now key h k : k <> key -> entries (Reserve s now k h).1 !! key = entries s !! key.
Proof.
  intros N. unfold Reserve. destruct (entries s !! k) as [e|]; simpl; [|by rewrite lookup_insert_ne].
  case_if; simpl; [by rewrite lookup_insert_ne, lookup_delete_ne|]. case_if; [done|]. by destruct (reply e).
Qed.

Lemma apply_op_keeps s o key e :
  entries s !! key = Some e ->
  match reply e with Some _ => quiet_committed key (expires e) o | None => quiet key (expires e) o end ->
  entries (apply_op s o) !! key = Some e.
Proof.
  intros E Q. destruct o as [now k h|now k r|k]; simpl in *.
  - assert (k = key -> now <= expires e) as Q' by (by destruct (reply e)).
    destruct (decide (k = key)) as [->|N]; [|by rewrite Reserve_other].
    rewrite (Reserve_live _ _ _ _ e) by auto. done.
  - assert (k <> key) by (by destruct (reply e)). unfold Commit.
    destruct (entries s !! k); simpl; by rewrite lookup_insert_ne.
  - unfold Rollback. destruct (decide (k = key)) as [->|N].
    + rewrite E. by destruct (reply e).
    + destruct (entries s !! k) as [e'|]; [|done]. destruct (reply e'); [done|]. simpl. by rewrite lookup_delete_ne.
Qed.

Lemma apply_ops_keeps s os key e :
  entries s !! key = Some e ->
  Forall (fun o => match reply e with Some _ => quiet_committed key (expires e) o | None => quiet key (expires e) o end) os ->
  entries (apply_ops s os) !! key = Some e /\ ttl (apply_ops s os) = ttl s.
Proof.
  unfold apply_ops. intros E F. revert s E. induction F as [|o os Q F IH]; intros s E; simpl; [done|].
  destruct (IH (apply_op s o)) as [? ->]; [by apply apply_op_keeps|]. by rewrite apply_op_ttl.
Qed.

Lemma Reserve_miss s now key h s' r :
  Reserve s now key h = (s', (StatusMiss, r)) ->
  entries s' !! key = Some (mkEntry h None (now + ttl s)) /\ ttl s' = ttl s.
Proof.
  unfold Reserve. destruct (entries s !! key) as [e|]; simpl.
  - case_if; [intros [= <- <-]; simpl; by rewrite lookup_insert_eq|].
    case_if; [done|]. by destruct (reply e).
  - intros [= <- <-]. simpl. by rewrite lookup_insert_eq.
Qed.


Definition wh (b : byte) : Hash := b :: replicate 31 x00.


(** A commit that comes after the reservation has expired attaches the reply to
    whatever the key holds then: another request, with another body, that has since
    become leader and been waiting in flight, is answered with the first request's
    reply. *)
Theorem late_commit_crosses_requests (s0 : MemoryStore) (key : string) (h1 h2 : Hash) (t1 t2 tc t3 : Z) (r : CachedReply) :
  0 < ttl s0 -> entries s0 !! key = None -> t1 + ttl s0 < t2 -> t3 <= tc + ttl s0 ->
  let s1 := (Reserve s0 t1 key h1).1 in
  let s2 := (Reserve s1 t2 key h2).1 in
  (Reserve s0 t1 key h1).2 = (StatusMiss, None) /\
  (Reserve s1 t2 key h2).2 = (StatusMiss, None) /\
  (Reserve (Commit s2 tc key r) t3 key h2).2 = (StatusCached, Some r).
Proof.
  intros T E L1 L2. cbv zeta.
  assert (Reserve s0 t1 key h1 = (mkStore (ttl s0) (<[key := mkEntry h1 None (t1 + ttl s0)]> (entries s0)), (StatusMiss, None))) as ->
    by (unfold Reserve; by rewrite E).
  split; [done|]. simpl. set (s1 := mkStore (ttl s0) _).
  rewrite (Reserve_expired s1 t2 key h2 (mkEntry h1 None (t1 + ttl s0))) by (try apply lookup_insert_eq; done).
  split; [done|]. simpl. unfold Commit. simpl. rewrite lookup_insert_eq.
  erewrite Reserve_live; [|simpl; apply lookup_insert_eq|done]. simpl. by rewrite bool_decide_eq_true_2.
Qed.

Lemma late_commit_crosses_requests_witness :
  let s0 := NewMemoryStore (mkOptions 100) in
  let s1 := (Reserve s0 0 "u|k" (wh x01)).1 in
  let s2 := (Reserve s1 101 "u|k" (wh x02)).1 in
  (Reserve (Commit s2 102 "u|k" (mkReply 200 [x41])) 103 "u|k" (wh x02)).2 = (StatusCached, Some (mkReply 200 [x41])).
Proof.
  refine (proj2 (proj2 (late_commit_crosses_requests (NewMemoryStore (mkOptions 100)) "u|k" (wh x01) (wh x02) 0 101 102 103
    (mkReply 200 [x41]) _ _ _ _))); try reflexivity; vm_compute; discriminate.
Defined.

(** A commit without a reservation stores the zero hash: the retry that carries
    the real body is refused. *)
Lemma orphan_commit_conflicts s key h r tc t :
  entries s !! key = None -> h <> zero_hash -> t <= tc + ttl s ->
  (Reserve (Commit s tc key r) t key h).2 = (StatusConflict, None).
Proof.
  intros E N L. unfold Commit. rewrite E.
  erewrite Reserve_live; [|simpl; apply lookup_insert_eq|done]. simpl.
  rewrite bool_decide_eq_false_2; [done|]. congruence.
Qed.

(** Two users never share a key for the same header. *)
Lemma MakeKey_user u u' header : MakeKey u header = MakeKey u' header -> u = u'.
Proof.
  unfold MakeKey. intros E. apply (f_equal String.list_ascii_of_string) in E.
  assert (forall a b, String.list_ascii_of_string (a +:+ b) = String.list_ascii_of_string a ++ String.list_ascii_of_string b) as H.
  { clear. intros a b. induction a as [|c a IH]; simpl; [done|]. by f_equal. }
  rewrite !H in E. apply app_inv_tail in E.
  apply (f_equal String.string_of_list_ascii) in E. by rewrite !String.string_of_list_ascii_of_string in E.
Qed.
