(* ===== verification/HashRing.v ===== *)
(** The consistent-hash ring that assigns users to push instances
    (src/pkg/push/hashring.go). *)

From Stdlib Require Import ZArith Lia.
From stdpp Require Import pretty.
From S2P Require Import Prelude Sorting.
Local Open Scope Z_scope.

(** * SHA-1, as the ring uses it: the first four bytes of the digest *)

Definition add32 (a b : Z) : Z := wrap 32 (a + b).
Definition rotl32 (n x : Z) : Z := wrap 32 (Z.lor (Z.shiftl x n) (Z.shiftr x (32 - n))).
Definition not32 (x : Z) : Z := Z.lxor x (2 ^ 32 - 1).

(** Padding: 0x80, zeros to 56 mod 64, the bit length in eight bytes. *)
Definition be_bytes (n : nat) (z : Z) : list Z :=
  map (fun i => Z.shiftr z (8 * Z.of_nat (n - 1 - i)) mod 256) (seq 0 n).
Definition sha1_pad (msg : list Z) : list Z :=
  let len := Z.of_nat (length msg) in
  msg ++ [128] ++ replicate (Z.to_nat ((55 - len) mod 64)) 0 ++ be_bytes 8 (8 * len).

Definition be_word (l : list Z) : Z := fold_left (fun a b => 256 * a + b) l 0.
Fixpoint chunks (fuel n : nat) (l : list Z) : list (list Z) :=
  match fuel, l with
  | S fuel, _ :: _ => take n l :: chunks fuel n (drop n l)
  | _, _ => []
  end.

(** The message schedule, newest word first. *)
Fixpoint extend (k : nat) (w : list Z) : list Z :=
  match k with
  | O => w
  | S k => extend k (rotl32 1 (Z.lxor (Z.lxor (nth 2 w 0) (nth 7 w 0)) (Z.lxor (nth 13 w 0) (nth 15 w 0))) :: w)
  end.

Definition sha1_state : Type := Z * Z * Z * Z * Z.
Definition sha1_init : sha1_state := (1732584193, 4023233417, 2562383102, 271733878, 3285377520).

Definition sha1_round (st : sha1_state) (iw : nat * Z) : sha1_state :=
  let '(a, b, c, d, e) := st in
  let '(i, w) := iw in
  let '(f, k) :=
    if (i <? 20)%nat then (Z.lor (Z.land b c) (Z.land (not32 b) d), 1518500249)
    else if (i <? 40)%nat then (Z.lxor b (Z.lxor c d), 1859775393)
    else if (i <? 60)%nat then (Z.lor (Z.land b c) (Z.lor (Z.land b d) (Z.land c d)), 2400959708)
    else (Z.lxor b (Z.lxor c d), 3395469782) in
  (wrap 32 (rotl32 5 a + f + e + k + w), a, rotl32 30 b, c, d).

Definition sha1_block (st : sha1_state) (block : list Z) : sha1_state :=
  let w0 := map be_word (chunks 16 4 block) in
  let w := rev (extend 64 (rev w0)) in
  let '(a, b, c, d, e) := fold_left sha1_round (zip (seq 0 80) w) st in
  let '(h0, h1, h2, h3, h4) := st in
  (add32 h0 a, add32 h1 b, add32 h2 c, add32 h3 d, add32 h4 e).

Definition bytes_of_string (s : string) : list Z := map (fun c => Z.of_nat (Ascii.nat_of_ascii c)) (String.list_ascii_of_string s).

Definition sha1_words (s : string) : sha1_state :=
  let m := sha1_pad (bytes_of_string s) in
  fold_left sha1_block (chunks (length m) 64 m) sha1_init.

(** [binary.BigEndian.Uint32(sum[:4])]: the first word of the state. *)
Definition sha1Hash (s : string) : Z := let '(h0, _, _, _, _) := sha1_words s in h0.

Example sha1_abc : sha1_words "abc" = (2845392438, 1191608682, 3124634993, 2018558572, 2630932637).
Proof. vm_compute. reflexivity. Qed.

(** * The ring *)

Record ringNode := mkNode { hash : Z; instanceIx : nat }.
Record HashRing := mkRing { nodes : list ringNode; endpoints : list string }.

(** [sort.Search(n, f)]: the binary search of the standard library; [f] is read at
    indices below [n] only, and the range halves at each round. *)
Fixpoint search_loop (fuel : nat) (f : nat -> bool) (i j : nat) : nat :=
  match fuel with
  | O => i
  | S fuel =>
      if (i <? j)%nat then
        let h := ((i + j) / 2)%nat in
        if f h then search_loop fuel f i h else search_loop fuel f (h + 1) j
      else i
  end.
Definition sort_Search (n : nat) (f : nat -> bool) : nat := search_loop (n + 1) f 0 n.

Section ring.
(** The key hash, and [sort.Slice] on the nodes by hash (not stable). *)
Context (key_hash : string -> Z) (sort_Slice : list ringNode -> list ringNode).

Definition vnode (i : nat) (ep : string) (v : nat) : ringNode :=
  mkNode (key_hash (pretty (Z.of_nat v) +:+ "#" +:+ ep)) i.
Definition vnodes_of (vnodes : nat) (i : nat) (ep : string) : list ringNode := map (vnode i ep) (seq 0 vnodes).

(** All virtual nodes, instance by instance, from index [i]. *)
Fixpoint place (vnodes : nat) (i : nat) (eps : list string) : list ringNode :=
  match eps with [] => [] | ep :: eps => vnodes_of vnodes i ep ++ place vnodes (S i) eps end.

Definition effective_vnodes (vnodes : Z) : nat := Z.to_nat (if vnodes <=? 0 then 100 else vnodes).

(** [None]: the nil ring. *)
Definition NewRing (eps : list string) (vnodes : Z) : option HashRing :=
  match eps with
  | [] => None
  | _ => Some (mkRing (sort_Slice (place (effective_vnodes vnodes) 0 eps)) eps)
  end.

Definition Lookup (r : option HashRing) (user : string) : nat :=
  match r with
  | None => 0%nat
  | Some r =>
      match nodes r with
      | [] => 0%nat
      | n0 :: _ =>
          let h := key_hash user in
          let i := sort_Search (length (nodes r)) (fun i => h <=? hash (nth i (nodes r) n0)) in
          let i := if (i =? length (nodes r))%nat then 0%nat else i in
          instanceIx (nth i (nodes r) n0)
      end
  end.

Definition Endpoints (r : option HashRing) : list string := match r with None => [] | Some r => endpoints r end.
Definition VNodeCount (r : option HashRing) : nat := match r with None => 0 | Some r => length (nodes r) end.
End ring.

(** * Binary search *)

Lemma search_loop_spec n fuel f i j :
  (j - i < fuel)%nat -> (i <= j <= n)%nat ->
  (forall a b, (a <= b < n)%nat -> f a = true -> f b = true) ->
  let k := search_loop fuel f i j in
  (i <= k <= j)%nat /\ (forall a, (i <= a < k)%nat -> f a = false) /\ ((k < j)%nat -> f k = true).
Proof.
  intros F L M. revert i j F L. induction fuel as [|fuel IH]; intros i j F L; [lia|]. simpl.
  destruct (Nat.ltb_spec i j) as [Lt|Ge]; [|repeat split; intros; lia].
  set (h := ((i + j) / 2)%nat). change (fst (Nat.divmod (i + j) 1 0 1)) with h.
  assert (i <= h < j)%nat as Hh by (unfold h; pose proof (Nat.div_mod_eq (i + j) 2); pose proof (Nat.mod_upper_bound (i + j) 2); lia).
  destruct (f h) eqn:E.
  - destruct (IH i h) as (A & B & C); [lia..|]. cbv zeta in *. set (k := search_loop fuel f i h) in *.
    split; [lia|]. split; [done|]. intros _. destruct (decide (k = h)) as [->|]; [done|]. apply C. lia.
  - destruct (IH (h + 1)%nat j) as (A & B & C); [lia..|]. cbv zeta in *. set (k := search_loop fuel f (h + 1) j) in *.
    split; [lia|]. split; [|done]. intros a Ha. destruct (decide (h + 1 <= a)%nat); [apply B; lia|].
    apply not_true_iff_false. intros T. rewrite (M a h) in E; [done|lia|done].
Qed.

(** * Clockwise distance *)

Definition dist (h : Z) (n : ringNode) : Z := (hash n - h) mod 2 ^ 32.

Lemma dist_cases h n :
  is_uint 32 h -> is_uint 32 (hash n) -> dist h n = if h <=? hash n then hash n - h else hash n - h + 2 ^ 32.
Proof.
  unfold dist, is_uint. intros Hh Hn. destruct (Z.leb_spec h (hash n)).
  - apply Z.mod_small. lia.
  - rewrite <-(Z_mod_plus_full _ 1). apply Z.mod_small. lia.
Qed.

Definition by_hash (a b : ringNode) : Prop := hash a <= hash b.

Lemma sorted_nth l d i j : StronglySorted by_hash l -> (i <= j < length l)%nat -> hash (nth i l d) <= hash (nth j l d).
Proof.
  intros S. revert i j. induction S as [|x l S IH F]; intros i j H; simpl in *; [lia|].
  destruct i as [|i], j as [|j]; try lia; [|apply IH; lia].
  rewrite Forall_forall in F. apply F. destruct (lookup_lt_is_Some_2 l j) as [y Hy]; [lia|].
  rewrite (nth_lookup_Some _ _ _ _ Hy). by eapply list_elem_of_lookup_2.
Qed.

Section lookup.
Context (key_hash : string -> Z) (key_hash_range : forall s, is_uint 32 (key_hash s)).

(** The node found is the nearest one clockwise. *)
Lemma Lookup_nearest l eps user :
  l <> [] -> StronglySorted by_hash l -> Forall (fun n => is_uint 32 (hash n)) l ->
  exists n, n ∈ l /\ Lookup key_hash (Some (mkRing l eps)) user = instanceIx n /\
    forall m, m ∈ l -> dist (key_hash user) n <= dist (key_hash user) m.
Proof.
  intros Hne S F. unfold Lookup. simpl. destruct l as [|n0 l']; [done|]. set (l := n0 :: l') in *.
  set (h := key_hash user). pose proof (key_hash_range user) as Hh. fold h in Hh.
  set (f := fun i => h <=? hash (nth i l n0)). unfold sort_Search.
  destruct (search_loop_spec (length l) (length l + 1) f 0 (length l)) as (Hk & Hlo & Hhi); [lia..| |].
  { intros a b L A. unfold f in *. apply Z.leb_le in A. apply Z.leb_le.
    pose proof (sorted_nth l n0 a b S L). lia. }
  cbv zeta in *. set (k := search_loop _ f 0 (length l)) in *. rewrite Forall_forall in F.
  assert (forall m, m ∈ l -> exists i, (i < length l)%nat /\ m = nth i l n0 /\ (h <=? hash m) = f i) as Ix.
  { intros m [i Hi]%list_elem_of_lookup. exists i. pose proof (lookup_lt_Some _ _ _ Hi). split; [done|].
    rewrite <-(nth_lookup_Some _ _ n0 _ Hi). done. }
  assert (forall i, (i < length l)%nat -> nth i l n0 ∈ l) as In_.
  { intros i Hi. destruct (lookup_lt_is_Some_2 l i Hi) as [y Hy]. rewrite (nth_lookup_Some _ _ _ _ Hy).
    by eapply list_elem_of_lookup_2. }
  destruct (Nat.eqb_spec k (length l)) as [Ek|Nk].
  - exists n0. split; [constructor|]. split; [done|]. intros m Hm.
    destruct (Ix m Hm) as (i & Hi & -> & Em). pose proof (sorted_nth l n0 0 i S ltac:(lia)) as Le.
    change (hash (nth 0 l n0)) with (hash n0) in Le.
    assert ((h <=? hash n0) = false) as E0 by (apply (Hlo 0%nat); lia).
    rewrite !dist_cases by (auto; apply F; auto; constructor).
    rewrite Em, (Hlo i), E0 by lia. lia.
  - exists (nth k l n0). split; [apply In_; lia|]. split; [done|]. intros m Hm.
    pose proof (Hhi ltac:(lia)) as Hf. destruct (Ix m Hm) as (i & Hi & -> & Em).
    rewrite !dist_cases by (auto; apply F; auto; apply In_; lia).
    rewrite Em. change (h <=? hash (nth k l n0)) with (f k). rewrite Hf. destruct (f i) eqn:E.
    + destruct (decide (i < k)%nat); [rewrite Hlo in E by lia; done|].
      pose proof (sorted_nth l n0 k i S ltac:(lia)). lia.
    + pose proof (F _ (In_ i Hi)). pose proof (F _ (In_ k ltac:(lia))). unfold is_uint in *. lia.
Qed.
End lookup.

(** What [sort.Slice] promises on the nodes: a reordering, ascending by hash. *)
Definition sorts (sort_Slice : list ringNode -> list ringNode) : Prop :=
  forall l, sort_Slice l ≡ₚ l /\ StronglySorted by_hash (sort_Slice l).

Lemma place_app key_hash V i eps e :
  place key_hash V i (eps ++ [e]) = place key_hash V i eps ++ vnodes_of key_hash V (i + length eps) e.
Proof.
  revert i. induction eps as [|ep eps IH]; intros i; simpl.
  - by rewrite app_nil_r, Nat.add_0_r.
  - rewrite IH, <-app_assoc. do 3 f_equal. lia.
Qed.

Lemma place_hash_range key_hash V i eps :
  (forall s, is_uint 32 (key_hash s)) -> Forall (fun n => is_uint 32 (hash n)) (place key_hash V i eps).
Proof.
  intros H. revert i. induction eps as [|ep eps IH]; intros i; simpl; [constructor|].
  apply Forall_app. split; [|done]. unfold vnodes_of. apply Forall_forall.
  intros n (v & -> & _)%list_elem_of_fmap. apply H.
Qed.

Lemma effective_vnodes_pos vnodes : (0 < effective_vnodes vnodes)%nat.
Proof. unfold effective_vnodes. case_if; bool_lia. Qed.

Lemma place_nonempty key_hash V i eps : (0 < V)%nat -> eps <> [] -> place key_hash V i eps <> [].
Proof. destruct V as [|V]; [lia|]. by destruct eps. Qed.

Lemma NewRing_nearest key_hash sort_Slice eps vnodes user :
  (forall s, is_uint 32 (key_hash s)) -> sorts sort_Slice -> eps <> [] ->
  let l := place key_hash (effective_vnodes vnodes) 0 eps in
  exists n, n ∈ l /\ Lookup key_hash (NewRing key_hash sort_Slice eps vnodes) user = instanceIx n /\
    forall m, m ∈ l -> dist (key_hash user) n <= dist (key_hash user) m.
Proof.
  intros Hk Hs He l. destruct (Hs l) as [P S].
  assert (NewRing key_hash sort_Slice eps vnodes = Some (mkRing (sort_Slice l) eps)) as -> by (by destruct eps).
  destruct (Lookup_nearest key_hash Hk (sort_Slice l) eps user) as (n & I & E & M); auto.
  - intros E. rewrite E in P. apply Permutation_nil_l in P.
    by apply (place_nonempty key_hash (effective_vnodes vnodes) 0 eps (effective_vnodes_pos _) He).
  - rewrite P. by apply place_hash_range.
  - exists n. rewrite P in I. split; [done|]. split; [done|]. intros m Hm. apply M. by rewrite P.
Qed.

Lemma dist_inj h n m : is_uint 32 h -> is_uint 32 (hash n) -> is_uint 32 (hash m) -> dist h n = dist h m -> hash n = hash m.
Proof.
  intros Hh Hn Hm. rewrite !dist_cases by done. unfold is_uint in *.
  destruct (Z.leb_spec h (hash n)), (Z.leb_spec h (hash m)); lia.
Qed.

Lemma place_index key_hash V i eps n :
  n ∈ place key_hash V i eps ->
  exists j ep v, eps !! j = Some ep /\ (v < V)%nat /\ n = vnode key_hash (i + j) ep v.
Proof.
  revert i. induction eps as [|ep eps IH]; intros i; simpl; [by intros ?%elem_of_nil|].
  intros [(v & -> & Hv)%list_elem_of_fmap|H]%elem_of_app.
  - apply elem_of_seq in Hv. exists 0%nat, ep, v. split; [done|]. split; [lia|]. by rewrite Nat.add_0_r.
  - destruct (IH _ H) as (j & ep' & v & E & L & ->). exists (S j), ep', v. split; [done|]. split; [done|].
    by rewrite Nat.add_succ_r.
Qed.

(** A user is assigned to the instance that owns the nearest virtual node
    clockwise from the user's hash on the 32-bit circle, wrap-around included: for
    any 32-bit hash, any sorting routine and any non-empty instance list, the index
    is one of the list, and no virtual node of any instance is nearer. *)
Theorem lookup_clockwise (key_hash : string -> Z) (sort_Slice : list ringNode -> list ringNode)
    (eps : list string) (vnodes : Z) (user : string) :
  (forall s, is_uint 32 (key_hash s)) -> sorts sort_Slice -> eps <> [] ->
  exists i ep v,
    Lookup key_hash (NewRing key_hash sort_Slice eps vnodes) user = i /\
    eps !! i = Some ep /\ (v < effective_vnodes vnodes)%nat /\
    forall m, m ∈ place key_hash (effective_vnodes vnodes) 0 eps ->
      dist (key_hash user) (vnode key_hash i ep v) <= dist (key_hash user) m.
Proof.
  intros Hk Hs He. destruct (NewRing_nearest key_hash sort_Slice eps vnodes user Hk Hs He) as (n & I & E & M).
  destruct (place_index _ _ _ _ _ I) as (i & ep & v & Ei & Lv & ->). simpl in *. exists i, ep, v. auto.
Qed.

(** The insertion sort of this library is one such routine. *)
Definition sort_nodes : list ringNode -> list ringNode := insertion_sort (fun a b => hash b <? hash a).

Lemma sort_nodes_sorts : sorts sort_nodes.
Proof.
  intros l. split; [apply insertion_sort_perm|]. unfold sort_nodes, by_hash. apply insertion_sort_sorted.
  - intros x y z. lia.
  - intros x y H. bool_lia.
  - intros x y H. bool_lia.
Qed.

Lemma sha1_block_range st b : is_uint 32 (let '(h0, _, _, _, _) := sha1_block st b in h0).
Proof.
  unfold sha1_block. destruct (fold_left sha1_round _ _) as [[[[a b'] c] d] e]. destruct st as [[[[h0 h1] h2] h3] h4].
  apply wrap_is_uint. lia.
Qed.

Lemma sha1Hash_range s : is_uint 32 (sha1Hash s).
Proof.
  unfold sha1Hash, sha1_words. set (l := chunks _ _ _). clearbody l.
  destruct l as [|b l _] using rev_ind; [by vm_compute|]. rewrite fold_left_app. apply sha1_block_range.
Qed.

Lemma lookup_clockwise_witness :
  exists i ep v,
    Lookup sha1Hash (NewRing sha1Hash sort_nodes ["http://a"; "http://b"] 1) "user" = i /\
    ["http://a"; "http://b"] !! i = Some ep /\ (v < effective_vnodes 1)%nat /\
    forall m, m ∈ place sha1Hash (effective_vnodes 1) 0 ["http://a"; "http://b"] ->
      dist (sha1Hash "user") (vnode sha1Hash i ep v) <= dist (sha1Hash "user") m.
Proof.
  apply (lookup_clockwise sha1Hash sort_nodes ["http://a"; "http://b"] 1 "user" sha1Hash_range sort_nodes_sorts).
  discriminate.
Defined.

(** Adding an instance moves users only to the new instance: when no two
    virtual nodes collide, every user keeps the instance it had or is assigned to
    the one added, whatever the number of instances and virtual nodes. *)
Theorem growth_is_sticky (key_hash : string -> Z) (sort_Slice : list ringNode -> list ringNode)
    (eps : list string) (e : string) (vnodes : Z) (user : string) :
  (forall s, is_uint 32 (key_hash s)) -> sorts sort_Slice -> eps <> [] ->
  NoDup (map hash (place key_hash (effective_vnodes vnodes) 0 (eps ++ [e]))) ->
  let before := Lookup key_hash (NewRing key_hash sort_Slice eps vnodes) user in
  let after := Lookup key_hash (NewRing key_hash sort_Slice (eps ++ [e]) vnodes) user in
  after = before \/ after = length eps.
Proof.
  intros Hk Hs He Hd. cbv zeta.
  destruct (NewRing_nearest key_hash sort_Slice eps vnodes user Hk Hs He) as (n & I & -> & M).
  destruct (NewRing_nearest key_hash sort_Slice (eps ++ [e]) vnodes user Hk Hs) as (n' & I' & -> & M'); [by destruct eps|].
  pose proof (place_hash_range key_hash (effective_vnodes vnodes) 0 (eps ++ [e]) Hk) as R. rewrite Forall_forall in R.
  set (V := effective_vnodes vnodes) in *. rewrite place_app in *. simpl in *.
  apply elem_of_app in I' as [I'|I'].
  - left. f_equal. assert (n ∈ place key_hash V 0 eps ++ vnodes_of key_hash V (length eps) e) as In1 by (apply elem_of_app; auto).
    assert (n' ∈ place key_hash V 0 eps ++ vnodes_of key_hash V (length eps) e) as In2 by (apply elem_of_app; auto).
    assert (hash n' = hash n) as Eh.
    { apply (dist_inj (key_hash user)); auto. apply Z.le_antisymm; auto. }
    apply list_elem_of_lookup in In1 as [i Hi], In2 as [j Hj].
    assert (j = i) as ->; [|congruence].
    eapply NoDup_lookup; [exact Hd| |]; rewrite list_lookup_fmap; [rewrite Hj|rewrite Hi]; simpl; by rewrite ?Eh.
  - right. unfold vnodes_of in I'. apply list_elem_of_fmap in I' as (v & -> & _). done.
Qed.

(** Small hashes for the examples. *)
Definition toy_hash (s : string) : Z := wrap 32 (fold_left (fun a c => 31 * a + c) (bytes_of_string s) 7).

Lemma growth_is_sticky_witness :
  let before := Lookup toy_hash (NewRing toy_hash sort_nodes ["a"; "b"] 3) "zed" in
  let after := Lookup toy_hash (NewRing toy_hash sort_nodes ["a"; "b"; "c"] 3) "zed" in
  after = before \/ after = 2%nat.
Proof.
  apply (growth_is_sticky toy_hash sort_nodes ["a"; "b"] "c" 3 "zed").
  - intros s. apply wrap_is_uint. lia.
  - apply sort_nodes_sorts.
  - discriminate.
  - apply (bool_decide_unpack _). vm_compute. exact I.
Defined.
