(* ===== verification/Policy.v ===== *)
(** The operational policy engine (src/pkg/policy/policy.go): kill switch with
    channel scope, maintenance window, blocked routing keys and symbols, and the
    notification of every change. The clock is an argument; callbacks are named by
    numbers and a mutator returns the calls it makes.

    The laws follow the definitions. *)

From Stdlib Require Import ZArith Lia.
From S2P Require Import Prelude Sorting GoStrings Dates.
Local Open Scope Z_scope.

(** * Data *)

Record Decision := mkDecision { Allowed : bool; Reason : string; Message : string }.
Definition Allow : Decision := mkDecision true "" "".
Definition Block (reason msg : string) : Decision := mkDecision false reason msg.

Record Request := mkRequest {
  Usid : string; Channel : string; Alias : string; Exchange : string; RoutingKey : string; Symbol : string }.

Definition ReasonKillSwitch : string := "kill_switch".
Definition ReasonMaintenance : string := "maintenance".
Definition ReasonSymbol : string := "blocked_symbol".
Definition ReasonRoutingKey : string := "blocked_routing_key".

Record MaintenanceWindow := mkMaint { Start : Time; End_ : Time; w_Message : string }.

Record State := mkState {
  KillSwitch : bool; KillSwitchChannels : list string; Maintenance : MaintenanceWindow;
  BlockedSymbols : list string; BlockedRoutingKeys : list string;
  UpdatedAt : Time; UpdatedBy : string }.

Definition zero_time : Time := mkTime (- (62135596800 * ns_per_sec)) 0.
Definition zero_state : State := mkState false [] (mkMaint zero_time zero_time "") [] [] zero_time "".

Inductive PolicyErr := ErrInvalidWindow | ErrSymbolEmpty | ErrRoutingKeyEmpty.

Definition active (m : MaintenanceWindow) (now : Time) : bool :=
  if IsZero (Start m) || IsZero (End_ m) then false
  else if negb (Before (Start m) (End_ m)) then false
  else negb (Before now (Start m)) && Before now (End_ m).

Record Engine := mkEngine {
  state : State; blockedSymbols : gset string; blockedRkeys : gset string;
  onChange : list nat; suppressChange : bool }.

Definition NewEngine : Engine := mkEngine zero_state ∅ ∅ [] false.

(** * Normal forms *)

(** [strings.TrimSpace(strings.ToUpper(s))]. *)
Definition normalize (s : string) : string := TrimSpace (ToUpper s).

(** The loop of [normalizeUpper] and [normalizeChannels]: normal forms without
    empty ones and repetitions, in the order of first occurrence. *)
Fixpoint distinct (seen : gset string) (norm : string -> string) (l : list string) : list string :=
  match l with
  | [] => []
  | s :: l =>
      let s := norm s in
      if bool_decide (s = "") || bool_decide (s ∈ seen) then distinct seen norm l
      else s :: distinct ({[s]} ∪ seen) norm l
  end.

Definition normalizeUpper (l : list string) : list string := sort_Strings (distinct ∅ normalize l).
Definition normalizeChannels (l : list string) : list string := distinct ∅ (fun c => ToUpper (TrimSpace c)) l.

(** * Mutators *)

Definition set_state (e : Engine) (s : State) : Engine :=
  mkEngine s (blockedSymbols e) (blockedRkeys e) (onChange e) (suppressChange e).

Definition rebuildSetsLocked (e : Engine) : Engine :=
  mkEngine (state e) (list_to_set (BlockedSymbols (state e))) (list_to_set (BlockedRoutingKeys (state e)))
    (onChange e) (suppressChange e).

(** The callbacks to run after unlocking, with the snapshot. *)
Definition notifyPrepLocked (e : Engine) : list (nat * State) :=
  if suppressChange e then [] else map (fun cb => (cb, state e)) (onChange e).

Definition SetOnChange (e : Engine) (f : option nat) : Engine :=
  mkEngine (state e) (blockedSymbols e) (blockedRkeys e) (match f with None => [] | Some f => [f] end) (suppressChange e).
Definition AddOnChange (e : Engine) (f : option nat) : Engine :=
  match f with
  | None => e
  | Some f => mkEngine (state e) (blockedSymbols e) (blockedRkeys e) (onChange e ++ [f]) (suppressChange e)
  end.

Definition with_lists (s : State) (syms rkeys : list string) : State :=
  mkState (KillSwitch s) (KillSwitchChannels s) (Maintenance s) syms rkeys (UpdatedAt s) (UpdatedBy s).
Definition stamp (s : State) (now : Time) (by_ : string) : State :=
  mkState (KillSwitch s) (KillSwitchChannels s) (Maintenance s) (BlockedSymbols s) (BlockedRoutingKeys s) now by_.

Definition ApplyRemote (e : Engine) (s : State) : Engine :=
  let e := mkEngine (state e) (blockedSymbols e) (blockedRkeys e) (onChange e) true in
  let s := with_lists s (normalizeUpper (BlockedSymbols s)) (normalizeUpper (BlockedRoutingKeys s)) in
  let e := rebuildSetsLocked (set_state e s) in
  mkEngine (state e) (blockedSymbols e) (blockedRkeys e) (onChange e) false.

Definition SetState (e : Engine) (now : Time) (s : State) (updatedBy : string) : Engine * list (nat * State) :=
  let s := stamp s now updatedBy in
  let s := with_lists s (normalizeUpper (BlockedSymbols s)) (normalizeUpper (BlockedRoutingKeys s)) in
  let e := rebuildSetsLocked (set_state e s) in
  (e, notifyPrepLocked e).

Definition SetKillSwitchScoped (e : Engine) (now : Time) (act : bool) (channels : list string) (updatedBy : string)
    : Engine * list (nat * State) :=
  let s := state e in
  let s := mkState act (normalizeChannels channels) (Maintenance s) (BlockedSymbols s) (BlockedRoutingKeys s) now updatedBy in
  let e := set_state e s in (e, notifyPrepLocked e).

Definition SetKillSwitch (e : Engine) (now : Time) (act : bool) (updatedBy : string) : Engine * list (nat * State) :=
  SetKillSwitchScoped e now act [] updatedBy.

Definition SetMaintenance (e : Engine) (now : Time) (w : MaintenanceWindow) (updatedBy : string)
    : res PolicyErr (Engine * list (nat * State)) :=
  if negb (IsZero (Start w)) && negb (IsZero (End_ w)) && negb (Before (Start w) (End_ w)) then Err ErrInvalidWindow
  else
    let s := state e in
    let s := mkState (KillSwitch s) (KillSwitchChannels s) w (BlockedSymbols s) (BlockedRoutingKeys s) now updatedBy in
    let e := set_state e s in Ok (e, notifyPrepLocked e).

Definition AddBlockedSymbol (e : Engine) (now : Time) (sym updatedBy : string) : res PolicyErr (Engine * list (nat * State)) :=
  let sym := normalize sym in
  if decide (sym = "") then Err ErrSymbolEmpty else
  let s := state e in
  let e :=
    if decide (sym ∈ blockedSymbols e) then e
    else mkEngine (with_lists s (sort_Strings (BlockedSymbols s ++ [sym])) (BlockedRoutingKeys s))
           ({[sym]} ∪ blockedSymbols e) (blockedRkeys e) (onChange e) (suppressChange e) in
  let e := set_state e (stamp (state e) now updatedBy) in
  Ok (e, notifyPrepLocked e).

Definition RemoveBlockedSymbol (e : Engine) (now : Time) (sym updatedBy : string) : Engine * list (nat * State) :=
  let sym := normalize sym in
  if decide (sym = "") then (e, [])
  else if decide (sym ∈ blockedSymbols e) then
    let s := state e in
    let e := mkEngine (stamp (with_lists s (filter (fun x => x <> sym) (BlockedSymbols s)) (BlockedRoutingKeys s)) now updatedBy)
               (blockedSymbols e ∖ {[sym]}) (blockedRkeys e) (onChange e) (suppressChange e) in
    (e, notifyPrepLocked e)
  else (e, []).

Definition AddBlockedRoutingKey (e : Engine) (now : Time) (rk updatedBy : string) : res PolicyErr (Engine * list (nat * State)) :=
  let rk := normalize rk in
  if decide (rk = "") then Err ErrRoutingKeyEmpty else
  let s := state e in
  let e :=
    if decide (rk ∈ blockedRkeys e) then e
    else mkEngine (with_lists s (BlockedSymbols s) (sort_Strings (BlockedRoutingKeys s ++ [rk])))
           (blockedSymbols e) ({[rk]} ∪ blockedRkeys e) (onChange e) (suppressChange e) in
  let e := set_state e (stamp (state e) now updatedBy) in
  Ok (e, notifyPrepLocked e).

Definition RemoveBlockedRoutingKey (e : Engine) (now : Time) (rk updatedBy : string) : Engine * list (nat * State) :=
  let rk := normalize rk in
  if decide (rk = "") then (e, [])
  else if decide (rk ∈ blockedRkeys e) then
    let s := state e in
    let e := mkEngine (stamp (with_lists s (BlockedSymbols s) (filter (fun x => x <> rk) (BlockedRoutingKeys s))) now updatedBy)
               (blockedSymbols e) (blockedRkeys e ∖ {[rk]}) (onChange e) (suppressChange e) in
    (e, notifyPrepLocked e)
  else (e, []).

(** * The check *)

(** Message texts; [fmt_q] is the %q verb of package fmt. *)
Section check.
Context (fmt_q : string -> string).

Definition msg_all : string := "운영 정책으로 모든 거래가 일시 차단됨".
Definition msg_channel (ch : string) : string := "채널 " +:+ fmt_q ch +:+ " 거래가 일시 차단됨 (kill switch)".
Definition msg_maintenance (m : string) : string := if decide (m = "") then "정비 진행 중" else m.
Definition msg_rkey (rk : string) : string := "transaction " +:+ fmt_q rk +:+ " 가 일시 차단됨".
Definition msg_symbol (sym : string) : string := "심볼 " +:+ fmt_q sym +:+ " 거래가 일시 차단됨".

(** The kill-switch part of [Check]. *)
Definition check_kill (s : State) (req : Request) : option Decision :=
  if KillSwitch s then
    match KillSwitchChannels s with
    | [] => Some (Block ReasonKillSwitch msg_all)
    | chs =>
        let reqCh := ToUpper (TrimSpace (Channel req)) in
        if existsb (fun ch => bool_decide (ch = reqCh)) chs then Some (Block ReasonKillSwitch (msg_channel reqCh)) else None
    end
  else None.

Definition Check (e : Engine) (now : Time) (req : Request) : Decision :=
  match check_kill (state e) req with
  | Some d => d
  | None =>
      if active (Maintenance (state e)) now then
        Block ReasonMaintenance (msg_maintenance (w_Message (Maintenance (state e))))
      else
        let rk := ToUpper (TrimSpace (RoutingKey req)) in
        if bool_decide (rk <> "") && bool_decide (rk ∈ blockedRkeys e) then Block ReasonRoutingKey (msg_rkey rk)
        else
          let sym := ToUpper (TrimSpace (Symbol req)) in
          if bool_decide (sym <> "") && bool_decide (sym ∈ blockedSymbols e) then Block ReasonSymbol (msg_symbol sym)
          else Allow
  end.
End check.

(** * Laws
    What the policy engine guarantees: the fast sets mirror the published state in
    every reachable engine, the check is exactly what the published state says, and
    blocking and unblocking undo each other. *)

(** * The invariant *)

Lemma normalize_idem s : normalize (normalize s) = normalize s.
Proof. unfold normalize. by autorewrite with gostr. Qed.

Lemma check_form s : ToUpper (TrimSpace s) = normalize s.
Proof. apply ToUpper_TrimSpace. Qed.

(** A published list: sorted, without repetition, of non-empty normal forms. *)
Definition list_ok (l : list string) : Prop :=
  StronglySorted String.le l /\ NoDup l /\ Forall (fun s => normalize s = s /\ s <> "") l.

Definition policy_wf (e : Engine) : Prop :=
  list_ok (BlockedSymbols (state e)) /\ list_ok (BlockedRoutingKeys (state e)) /\
  blockedSymbols e = list_to_set (BlockedSymbols (state e)) /\
  blockedRkeys e = list_to_set (BlockedRoutingKeys (state e)) /\ suppressChange e = false.

Lemma distinct_spec norm seen l :
  NoDup (distinct seen norm l) /\
  forall s, s ∈ distinct seen norm l <-> s <> "" /\ s ∉ seen /\ exists x, x ∈ l /\ norm x = s.
Proof.
  revert seen. induction l as [|x l IH]; intros seen; simpl.
  { split; [constructor|]. intros s. split; [by intros ?%elem_of_nil|]. intros (_ & _ & y & ?%elem_of_nil & _). done. }
  assert (forall s, (exists y, y ∈ x :: l /\ norm y = s) <-> norm x = s \/ exists y, y ∈ l /\ norm y = s) as Hx.
  { intros s. setoid_rewrite elem_of_cons. naive_solver. }
  destruct (bool_decide (norm x = "") || bool_decide (norm x ∈ seen)) eqn:E.
  - destruct (IH seen) as [N I]. split; [done|]. intros s. rewrite I, Hx. split; [by intuition|].
    intros (? & ? & [<-|?]); [|done]. apply orb_true_iff in E as [E|E]; apply bool_decide_eq_true in E; done.
  - apply orb_false_iff in E as [E1%bool_decide_eq_false E2%bool_decide_eq_false].
    destruct (IH ({[norm x]} ∪ seen)) as [N I]. split.
    + constructor; [|done]. rewrite I. set_solver.
    + intros s. rewrite elem_of_cons, I, Hx. destruct (decide (s = norm x)) as [->|?]; set_solver.
Qed.

Lemma normalizeUpper_ok l : list_ok (normalizeUpper l).
Proof.
  unfold normalizeUpper, list_ok. destruct (distinct_spec normalize ∅ l) as [N I].
  split; [apply sort_Strings_sorted|]. rewrite sort_Strings_perm. split; [done|].
  apply Forall_forall. intros s Hs. apply I in Hs as (Hne & _ & x & _ & <-). by rewrite normalize_idem.
Qed.

Lemma list_ok_add l s : list_ok l -> normalize s = s -> s <> "" -> s ∉ l -> list_ok (sort_Strings (l ++ [s])).
Proof.
  intros (S & N & F) H1 H2 H3. unfold list_ok. split; [apply sort_Strings_sorted|]. rewrite sort_Strings_perm.
  split.
  - apply NoDup_app. split; [done|]. split; [|apply NoDup_singleton]. set_solver.
  - apply Forall_app. split; [done|]. by constructor.
Qed.

Lemma StronglySorted_filter {A} (R : A -> A -> Prop) (P : A -> Prop) `{forall x, base.Decision (P x)} l :
  StronglySorted R l -> StronglySorted R (filter P l).
Proof.
  induction 1 as [|x l S IH F]; [constructor|]. rewrite filter_cons. case_decide; [|done].
  constructor; [done|]. rewrite Forall_forall in *. intros y [_ Hy]%list_elem_of_filter. auto.
Qed.

Lemma filter_neq_absent (l : list string) s : s ∉ l -> filter (fun x => x <> s) l = l.
Proof.
  induction l as [|x l IH]; intros H; [done|]. apply not_elem_of_cons in H as [H1 H2].
  rewrite filter_cons, decide_True by congruence.
  by rewrite IH.
Qed.

Lemma list_ok_remove l s : list_ok l -> list_ok (filter (fun x => x <> s) l).
Proof.
  intros (S & N & F). split; [by apply StronglySorted_filter|]. split; [by apply NoDup_filter|].
  rewrite Forall_forall in *. intros y [_ Hy]%list_elem_of_filter. auto.
Qed.

Lemma set_add_list (l : list string) s :
  {[s]} ∪ list_to_set l = (list_to_set (sort_Strings (l ++ [s])) : gset string).
Proof.
  apply set_eq. intros x. rewrite elem_of_union, elem_of_singleton, !elem_of_list_to_set, sort_Strings_perm. set_solver.
Qed.

Lemma set_remove_list (l : list string) s :
  list_to_set l ∖ {[s]} = (list_to_set (filter (fun x => x <> s) l) : gset string).
Proof.
  apply set_eq. intros x.
  rewrite elem_of_difference, elem_of_singleton, !elem_of_list_to_set, list_elem_of_filter. tauto.
Qed.

(** The mutators as commands; failed ones leave the engine as it was. *)
Inductive command :=
| CSetOnChange (f : option nat) | CAddOnChange (f : option nat) | CApplyRemote (s : State)
| CSetState (now : Time) (s : State) (by_ : string)
| CKill (now : Time) (act : bool) (chs : list string) (by_ : string)
| CMaintenance (now : Time) (w : MaintenanceWindow) (by_ : string)
| CAddSymbol (now : Time) (sym by_ : string) | CRemoveSymbol (now : Time) (sym by_ : string)
| CAddRkey (now : Time) (rk by_ : string) | CRemoveRkey (now : Time) (rk by_ : string).

Definition on_ok (e : Engine) (r : res PolicyErr (Engine * list (nat * State))) : Engine * list (nat * State) :=
  match r with Ok p => p | _ => (e, []) end.

Definition exec (e : Engine) (c : command) : Engine * list (nat * State) :=
  match c with
  | CSetOnChange f => (SetOnChange e f, [])
  | CAddOnChange f => (AddOnChange e f, [])
  | CApplyRemote s => (ApplyRemote e s, [])
  | CSetState now s by_ => SetState e now s by_
  | CKill now act chs by_ => SetKillSwitchScoped e now act chs by_
  | CMaintenance now w by_ => on_ok e (SetMaintenance e now w by_)
  | CAddSymbol now sym by_ => on_ok e (AddBlockedSymbol e now sym by_)
  | CRemoveSymbol now sym by_ => RemoveBlockedSymbol e now sym by_
  | CAddRkey now rk by_ => on_ok e (AddBlockedRoutingKey e now rk by_)
  | CRemoveRkey now rk by_ => RemoveBlockedRoutingKey e now rk by_
  end.
Definition run (e : Engine) (cs : list command) : Engine := fold_left (fun e c => (exec e c).1) cs e.

Lemma exec_wf e c : policy_wf e -> policy_wf (exec e c).1.
Proof.
  intros (Ls & Lr & Es & Er & Su).
  destruct c as [f|f|s|now s by_|now act chs by_|now w by_|now sym by_|now sym by_|now rk by_|now rk by_]; simpl.
  - done.
  - by destruct f.
  - repeat split; try apply normalizeUpper_ok.
  - repeat split; try apply normalizeUpper_ok; done.
  - done.
  - unfold SetMaintenance. case_if; [done|]. done.
  - unfold AddBlockedSymbol. destruct (decide (normalize sym = "")) as [|Hne]; [done|].
    destruct (decide (normalize sym ∈ blockedSymbols e)) as [|Hn]; [done|].
    rewrite Es, elem_of_list_to_set in Hn. unfold policy_wf; simpl. rewrite Es, set_add_list.
    split; [|done]. apply list_ok_add; auto using normalize_idem.
  - unfold RemoveBlockedSymbol. destruct (decide (normalize sym = "")) as [|Hne]; [done|].
    destruct (decide (normalize sym ∈ blockedSymbols e)); [|done]. unfold policy_wf; simpl.
    rewrite Es, set_remove_list. split; [by apply list_ok_remove|done].
  - unfold AddBlockedRoutingKey. destruct (decide (normalize rk = "")) as [|Hne]; [done|].
    destruct (decide (normalize rk ∈ blockedRkeys e)) as [|Hn]; [done|].
    rewrite Er, elem_of_list_to_set in Hn. unfold policy_wf; simpl. rewrite Er, set_add_list.
    split; [done|]. split; [|done]. apply list_ok_add; auto using normalize_idem.
  - unfold RemoveBlockedRoutingKey. destruct (decide (normalize rk = "")) as [|Hne]; [done|].
    destruct (decide (normalize rk ∈ blockedRkeys e)); [|done]. unfold policy_wf; simpl.
    rewrite Er, set_remove_list. split; [done|]. split; [by apply list_ok_remove|done].
Qed.

Lemma run_wf cs : policy_wf (run NewEngine cs).
Proof.
  unfold run. assert (policy_wf NewEngine) as H0 by (repeat split; constructor).
  revert H0. generalize NewEngine. induction cs as [|c cs IH]; intros e H; simpl; [done|].
  apply IH. by apply exec_wf.
Qed.

(** C36. In every engine reachable by any sequence of administrator calls, remote
    updates and registrations, the lookup sets hold exactly the published lists,
    and the lists are sorted, free of repetitions and in normal form. *)
Theorem policy_invariant (cs : list command) : policy_wf (run NewEngine cs).
Proof. apply run_wf. Qed.

(** * The check is what the published state says *)

Definition killed (s : State) (req : Request) : Prop :=
  KillSwitch s = true /\ (KillSwitchChannels s = [] \/ normalize (Channel req) ∈ KillSwitchChannels s).
Definition in_window (m : MaintenanceWindow) (now : Time) : Prop :=
  IsZero (Start m) = false /\ IsZero (End_ m) = false /\ t_ns (Start m) <= t_ns now < t_ns (End_ m).

#[export] Instance killed_dec s req : base.Decision (killed s req).
Proof. unfold killed. solve_decision. Defined.
#[export] Instance in_window_dec m now : base.Decision (in_window m now).
Proof. unfold in_window. solve_decision. Defined.

(** The specification, on the published state alone. *)
Definition verdict (s : State) (now : Time) (req : Request) : bool * string :=
  if decide (killed s req) then (false, ReasonKillSwitch)
  else if decide (in_window (Maintenance s) now) then (false, ReasonMaintenance)
  else if decide (normalize (RoutingKey req) ∈ BlockedRoutingKeys s) then (false, ReasonRoutingKey)
  else if decide (normalize (Symbol req) ∈ BlockedSymbols s) then (false, ReasonSymbol)
  else (true, "").

Lemma active_iff m now : active m now = true <-> in_window m now.
Proof.
  unfold active, in_window, Before. destruct (IsZero (Start m)), (IsZero (End_ m)); simpl; try (by intuition).
  destruct (Z.ltb_spec (t_ns (Start m)) (t_ns (End_ m))); simpl.
  - rewrite andb_true_iff, negb_true_iff, Z.ltb_ge, Z.ltb_lt. intuition.
  - split; [done|]. intros (_ & _ & ?). lia.
Qed.

Lemma check_kill_iff fmt_q s req :
  match check_kill fmt_q s req with
  | Some d => killed s req /\ Allowed d = false /\ Reason d = ReasonKillSwitch
  | None => ~ killed s req
  end.
Proof.
  unfold check_kill, killed. rewrite check_form. destruct (KillSwitch s); [|by intros []].
  destruct (KillSwitchChannels s) as [|ch chs]; [by auto|].
  destruct (existsb _ _) eqn:E.
  - apply existsb_exists in E as (x & Hx & ->%bool_decide_eq_true). rewrite <-list_elem_of_In in Hx. auto.
  - intros [_ [?|H]]; [done|]. apply not_true_iff_false in E. apply E. apply existsb_exists.
    exists (normalize (Channel req)). rewrite <-list_elem_of_In. split; [done|]. by apply bool_decide_eq_true.
Qed.

(** A normal form is looked up in a published list: the emptiness guard is
    implied. *)
Lemma lookup_guard (l : list string) x :
  list_ok l -> (bool_decide (x <> "") && bool_decide (x ∈ (list_to_set l : gset string))) = bool_decide (x ∈ l).
Proof.
  intros (_ & _ & F). rewrite (bool_decide_ext (x ∈ (list_to_set l : gset string)) (x ∈ l)) by apply elem_of_list_to_set.
  destruct (decide (x ∈ l)) as [H|H].
  - rewrite (bool_decide_eq_true_2 _ H), andb_true_r. apply bool_decide_eq_true.
    rewrite Forall_forall in F. by apply F in H as [_ ?].
  - by rewrite (bool_decide_eq_false_2 _ H), andb_false_r.
Qed.

Lemma Check_verdict fmt_q e now req :
  policy_wf e -> let d := Check fmt_q e now req in (Allowed d, Reason d) = verdict (state e) now req.
Proof.
  intros (Ls & Lr & Es & Er & _). unfold Check, verdict. cbv zeta. rewrite Es, Er, !check_form, !lookup_guard by done.
  pose proof (check_kill_iff fmt_q (state e) req) as K. destruct (check_kill fmt_q (state e) req) as [d|].
  - destruct K as (K & -> & ->). by rewrite decide_True.
  - rewrite decide_False by done. destruct (active _ _) eqn:A.
    + apply active_iff in A. by rewrite decide_True.
    + rewrite (decide_False (P := in_window _ _)) by (rewrite <-active_iff; congruence).
      do 2 (case_bool_decide; [by rewrite decide_True|]; rewrite decide_False by done). done.
Qed.

(** For every reachable engine, the decision depends on the published state
    and the clock alone: kill switch (all channels, or the listed ones) first, then
    the maintenance window, then the blocked routing keys, then the blocked symbols,
    whatever the case and surrounding white space of the request's fields; anything
    else is allowed. *)
Theorem Check_refines_state (fmt_q : string -> string) (cs : list command) (now : Time) (req : Request) :
  let e := run NewEngine cs in
  let d := Check fmt_q e now req in
  (Allowed d, Reason d) = verdict (state e) now req.
Proof. apply Check_verdict, run_wf. Qed.

(** * Blocking and unblocking *)

Lemma notify_all e : suppressChange e = false -> notifyPrepLocked e = map (fun cb => (cb, state e)) (onChange e).
Proof. unfold notifyPrepLocked. by intros ->. Qed.

(** The engine after blocking a new symbol, and after unblocking a blocked one. *)
Definition with_symbol (e : Engine) (now : Time) (sym by_ : string) : Engine :=
  mkEngine (stamp (with_lists (state e) (sort_Strings (BlockedSymbols (state e) ++ [sym])) (BlockedRoutingKeys (state e))) now by_)
    ({[sym]} ∪ blockedSymbols e) (blockedRkeys e) (onChange e) (suppressChange e).
Definition without_symbol (e : Engine) (now : Time) (sym by_ : string) : Engine :=
  mkEngine (stamp (with_lists (state e) (filter (fun x => x <> sym) (BlockedSymbols (state e))) (BlockedRoutingKeys (state e))) now by_)
    (blockedSymbols e ∖ {[sym]}) (blockedRkeys e) (onChange e) (suppressChange e).

Lemma add_symbol_new e now sym by_ :
  suppressChange e = false -> normalize sym <> "" -> normalize sym ∉ blockedSymbols e ->
  AddBlockedSymbol e now sym by_ =
    Ok (with_symbol e now (normalize sym) by_, map (fun cb => (cb, state (with_symbol e now (normalize sym) by_))) (onChange e)).
Proof.
  intros Su ? ?. unfold AddBlockedSymbol. cbv zeta. destruct (decide _); [done|].
  destruct (decide (_ ∈ _)); [done|]. by rewrite notify_all.
Qed.

Lemma remove_symbol_known e now sym by_ :
  suppressChange e = false -> normalize sym <> "" -> normalize sym ∈ blockedSymbols e ->
  RemoveBlockedSymbol e now sym by_ =
    (without_symbol e now (normalize sym) by_, map (fun cb => (cb, state (without_symbol e now (normalize sym) by_))) (onChange e)).
Proof.
  intros Su ? ?. unfold RemoveBlockedSymbol. cbv zeta. destruct (decide _); [done|].
  destruct (decide (_ ∈ _)); [|done]. by rewrite notify_all.
Qed.

Lemma remove_symbol_unknown e now sym by_ :
  normalize sym ∉ blockedSymbols e -> RemoveBlockedSymbol e now sym by_ = (e, []).
Proof.
  intros ?. unfold RemoveBlockedSymbol. cbv zeta. destruct (decide _); [done|]. by destruct (decide (_ ∈ _)).
Qed.

(** Blocking a symbol takes effect at once for every spelling of it, and
    unblocking restores the published lists as they were; both report the new state
    to every registered callback exactly once, and an unknown symbol is ignored. *)
Theorem block_unblock_symbol (cs : list command) (now now' : Time) (sym by_ by' : string) :
  let e := run NewEngine cs in
  normalize sym <> "" -> normalize sym ∉ BlockedSymbols (state e) ->
  exists e1 e2,
    AddBlockedSymbol e now sym by_ = Ok (e1, map (fun cb => (cb, state e1)) (onChange e)) /\
    (forall sym', normalize sym' = normalize sym <-> normalize sym' ∈ BlockedSymbols (state e1) /\ normalize sym' ∉ BlockedSymbols (state e)) /\
    RemoveBlockedSymbol e1 now' sym by' = (e2, map (fun cb => (cb, state e2)) (onChange e)) /\
    BlockedSymbols (state e2) = BlockedSymbols (state e) /\
    BlockedRoutingKeys (state e2) = BlockedRoutingKeys (state e) /\
    RemoveBlockedSymbol e now' sym by' = (e, []).
Proof.
  intros e Hne Hn. destruct (run_wf cs) as (Ls & Lr & Es & Er & Su). fold e in Ls, Lr, Es, Er, Su.
  assert (normalize sym ∉ blockedSymbols e) as Hs by (rewrite Es, elem_of_list_to_set; exact Hn).
  set (e1 := with_symbol e now (normalize sym) by_).
  exists e1, (without_symbol e1 now' (normalize sym) by'). split; [by apply add_symbol_new|].
  split; [|split; [|split; [|split; [done|by apply remove_symbol_unknown]]]].
  - intros sym'. simpl. rewrite sort_Strings_perm, elem_of_app, list_elem_of_singleton.
    split; [intros ->; auto|]. intros [[?|?] ?]; done.
  - apply (remove_symbol_known e1); [done|done|]. simpl. apply elem_of_union_l, elem_of_singleton; reflexivity.
  - simpl. destruct Ls as (S & N & _). apply sorted_strings_unique; [|done|].
    + apply StronglySorted_filter, sort_Strings_sorted.
    + rewrite sort_Strings_perm, filter_app. rewrite filter_cons, filter_nil, decide_False by tauto.
      rewrite app_nil_r, filter_neq_absent; done.
Qed.

Lemma block_unblock_symbol_witness :
  exists e1 e2,
    AddBlockedSymbol (run NewEngine [CAddOnChange (Some 7%nat); CAddSymbol zero_time " eur/usd" "ops"]) zero_time "usd/krw " "ops" =
      Ok (e1, [(7%nat, state e1)]) /\
    RemoveBlockedSymbol e1 zero_time "USD/krw" "ops" = (e2, [(7%nat, state e2)]) /\
    BlockedSymbols (state e1) = ["EUR/USD"; "USD/KRW"] /\ BlockedSymbols (state e2) = ["EUR/USD"].
Proof.
  destruct (block_unblock_symbol [CAddOnChange (Some 7%nat); CAddSymbol zero_time " eur/usd" "ops"] zero_time zero_time
              "usd/krw " "ops" "ops") as (e1 & e2 & H1 & _ & H2 & _).
  - vm_compute. discriminate.
  - vm_compute. intros H. apply list_elem_of_singleton in H. discriminate.
  - exists e1, e2. split; [exact H1|]. split; [exact H2|].
    assert (e1 = match AddBlockedSymbol (run NewEngine [CAddOnChange (Some 7%nat); CAddSymbol zero_time " eur/usd" "ops"])
                         zero_time "usd/krw " "ops" with Ok p => p.1 | _ => NewEngine end) as E1 by (by rewrite H1).
    assert (e2 = (RemoveBlockedSymbol e1 zero_time "usd/krw " "ops").1) as E2 by (by rewrite H2).
    rewrite E2, E1. split; vm_compute; reflexivity.
Defined.

(** * What the wholesale updates leave as received *)

(** The channels of a state installed whole are not brought to normal form, as those
    of [SetKillSwitchScoped] are: a kill switch scoped to channels written in lower
    case blocks nothing. *)
Lemma SetState_channels_verbatim fmt_q (now : Time) (by_ : string) (req : Request) (chs : list string) :
  chs <> [] -> Forall (fun c => normalize c <> c) chs -> RoutingKey req = "" -> Symbol req = "" ->
  let s := mkState true chs (mkMaint zero_time zero_time "") [] [] zero_time "" in
  Check fmt_q (SetState NewEngine now s by_).1 now req = Allow /\
  (forall c, c ∈ chs -> normalize c <> "" -> Channel req = c ->
     Reason (Check fmt_q (SetKillSwitchScoped NewEngine now true chs by_).1 now req) = ReasonKillSwitch).
Proof.
  intros Hne F Hr Hs s. split.
  - unfold Check. pose proof (check_kill_iff fmt_q (state (SetState NewEngine now s by_).1) req) as K.
    destruct (check_kill fmt_q _ req) as [d|].
    + destruct K as ((_ & [K|K]) & _); [done|]. simpl in K. rewrite Forall_forall in F. apply F in K.
      by rewrite normalize_idem in K.
    + simpl. by rewrite Hr, Hs.
  - intros c Hc Hce Hq. unfold Check.
    pose proof (check_kill_iff fmt_q (state (SetKillSwitchScoped NewEngine now true chs by_).1) req) as K.
    destruct (check_kill fmt_q _ req) as [d|]; [by destruct K as (_ & _ & ->)|]. destruct K. split; [done|]. right.
    simpl. unfold normalizeChannels. apply distinct_spec. rewrite Hq. split; [done|]. split; [set_solver|].
    exists c. split; [done|]. apply check_form.
Qed.
