(* ===== verification/Routing.v ===== *)
(** The routing table (src/pkg/routing): rules and their validation, the registry
    interface with its in-process, etcd-backed and file-backed implementations, alias
    resolution, and the seeding of rules from a configuration file. Instants are
    arguments; the results of the etcd client and of file writes are part of the
    state, as the sequence of outcomes the calls will meet. *)

From Stdlib Require Import ZArith Lia.
From Stdlib Require Import Strings.Ascii.
From S2P Require Import Prelude Codec Sorting GoStrings Dates.
Local Open Scope Z_scope.

(** * Rules *)

Record Rule := mkRule {
  Alias : string; Exchange : string; RoutingKey : string; Active : bool; Comment : string;
  UpdatedAt : Time; UpdatedBy : string }.

Inductive RouteErr :=
| ErrAliasRequired | ErrAliasInvalid | ErrRouteNotFound | ErrExchangeTooLong | ErrRkeyTooLong | ErrRkeyRequired
| ErrBackend.

#[export] Instance RouteErr_eq_dec : EqDecision RouteErr.
Proof. solve_decision. Defined.
#[export] Instance Time_eq_dec : EqDecision Time.
Proof. solve_decision. Defined.
#[export] Instance Rule_eq_dec : EqDecision Rule.
Proof. solve_decision. Defined.

Definition IsPattern (r : Rule) : bool := HasSuffix (Alias r) "*".

Definition with_alias (r : Rule) (a : string) : Rule :=
  mkRule a (Exchange r) (RoutingKey r) (Active r) (Comment r) (UpdatedAt r) (UpdatedBy r).
Definition with_rkey (r : Rule) (k : string) : Rule :=
  mkRule (Alias r) (Exchange r) k (Active r) (Comment r) (UpdatedAt r) (UpdatedBy r).
Definition with_active (r : Rule) (b : bool) : Rule :=
  mkRule (Alias r) (Exchange r) (RoutingKey r) b (Comment r) (UpdatedAt r) (UpdatedBy r).
Definition stamped (r : Rule) (now : Time) (by_ : string) : Rule :=
  mkRule (Alias r) (Exchange r) (RoutingKey r) (Active r) (Comment r) now by_.

(** [strings.ContainsAny] with " \t\r\n/". *)
Definition alias_bad (c : ascii) : bool :=
  existsb (Ascii.eqb c) [" "%char; "009"%char; "013"%char; "010"%char; "/"%char].

(** Trims the alias of the caller's rule, also when it is refused. (A nil rule is
    refused by [Put] with [ErrAliasRequired] before anything else.) *)
Definition Validate (r : Rule) : Rule * option RouteErr :=
  let r := with_alias r (TrimSpace (Alias r)) in
  let n := String.length (Alias r) in
  (r,
   if decide (Alias r = "") then Some ErrAliasRequired
   else if (64 <? n)%nat || any_char alias_bad (Alias r) then Some ErrAliasInvalid
   else if match IndexByte (Alias r) "*"%char with Some i => negb (i =? n - 1)%nat | None => false end then Some ErrAliasInvalid
   else if bool_decide (RoutingKey r = "") && negb (IsPattern r) then Some ErrRkeyRequired
   else if (LXchg <? String.length (Exchange r))%nat then Some ErrExchangeTooLong
   else if (LRkey <? String.length (RoutingKey r))%nat then Some ErrRkeyTooLong
   else None).

Arguments Validate : simpl never.

(** * The registry interface

    The [Registry] interface of the package and, as laws, what its comments promise:
    [view] is the table of rules, and every rule is stored under its own alias. *)
Class Registry (R : Type) := {
  Get : R -> string -> res RouteErr Rule;
  List_ : R -> list Rule;
  Put : R -> Time -> Rule -> string -> R * Rule * option RouteErr;
  Delete : R -> string -> R * option RouteErr;
  SetActive : R -> Time -> string -> bool -> string -> R * option RouteErr }.

(** [sort.Slice] by alias over the values of the map, in whatever order the
    iteration gives them: the aliases are distinct. *)
Definition sort_rules : list Rule -> list Rule := insertion_sort (fun a b => String.ltb (Alias b) (Alias a)).
Definition list_view (m : gmap string Rule) : list Rule := sort_rules (map_to_list m).*2.
Definition get_view (m : gmap string Rule) (a : string) : res RouteErr Rule :=
  match m !! a with Some r => Ok r | None => Err ErrRouteNotFound end.
Definition keyed (m : gmap string Rule) : Prop := map_Forall (fun a r => Alias r = a) m.

Class RegistryLaws (R : Type) `{Registry R} := {
  view : R -> gmap string Rule;
  inv : R -> Prop;
  inv_keyed : forall r, inv r -> keyed (view r);
  Get_view : forall r a, Get r a = get_view (view r) a;
  List_view : forall r, List_ r = list_view (view r);
  Put_spec : forall r now rule by_, inv r ->
    let '(rule', e) := Validate rule in
    let '(r', rule'', e') := Put r now rule by_ in
    inv r' /\ rule'' = rule' /\
    match e with
    | Some e => e' = Some e /\ r' = r
    | None => match e' with None => view r' = <[Alias rule' := stamped rule' now by_]> (view r)
              | Some e' => e' = ErrBackend /\ view r' = view r end
    end;
  Delete_spec : forall r a, inv r ->
    let '(r', e) := Delete r a in
    inv r' /\
    match e with
    | None => is_Some (view r !! a) /\ view r' = delete a (view r)
    | Some e => view r' = view r /\ (e = ErrBackend \/ e = ErrRouteNotFound /\ view r !! a = None)
    end }.

(** * In process *)
Module Mem.
Notation InMemoryRegistry := (gmap string Rule).
Definition NewInMemoryRegistry : InMemoryRegistry := ∅.
Definition Get (r : InMemoryRegistry) (alias : string) : res RouteErr Rule :=
  match r !! alias with Some x => Ok x | None => Err ErrRouteNotFound end.
Definition List_ (r : InMemoryRegistry) : list Rule := sort_rules (map_to_list r).*2.
Definition Put (r : InMemoryRegistry) (now : Time) (rule : Rule) (by_ : string) : InMemoryRegistry * Rule * option RouteErr :=
  match Validate rule with
  | (rule, Some e) => (r, rule, Some e)
  | (rule, None) => (<[Alias rule := stamped rule now by_]> r, rule, None)
  end.
Definition Delete (r : InMemoryRegistry) (alias : string) : InMemoryRegistry * option RouteErr :=
  match r !! alias with None => (r, Some ErrRouteNotFound) | Some _ => (delete alias r, None) end.
Definition SetActive (r : InMemoryRegistry) (now : Time) (alias : string) (active : bool) (by_ : string)
    : InMemoryRegistry * option RouteErr :=
  match r !! alias with
  | None => (r, Some ErrRouteNotFound)
  | Some rule => (<[alias := stamped (with_active rule active) now by_]> r, None)
  end.
End Mem.

#[export] Instance mem_registry : Registry Mem.InMemoryRegistry := {|
  Get := Mem.Get; List_ := Mem.List_; Put := Mem.Put; Delete := Mem.Delete; SetActive := Mem.SetActive |}.

(** * On etcd

    The client's view: the server's keys below the prefix, the watch events not yet
    delivered to this instance, the local cache, and the outcomes of the next calls
    to the server. [marshal] and [unmarshal] are package encoding/json. *)
Inductive event := EventPut (key value : string) | EventDelete (key : string).

Record EtcdRegistry := mkEtcd {
  prefix : string; store : gmap string string; pending : list event; rules : gmap string Rule; outcomes : list bool }.

Section etcd.
Context (marshal : Rule -> option string) (unmarshal : string -> option Rule).

(** The prefix of [NewEtcdRegistry]: a default, and a closing slash. *)
Definition effective_prefix (p : string) : string :=
  let p := if decide (p = "") then "wtg/routes/" else p in
  if HasSuffix p "/" then p else p +:+ "/".

Definition aliasFromKey (pre key : string) : string :=
  if HasPrefix key pre then str_drop (String.length pre) key else "".
Definition keyOf (pre alias : string) : string := pre +:+ alias.

Definition load_kv (pre : string) (cache : gmap string Rule) (kv : string * string) : gmap string Rule :=
  let alias := aliasFromKey pre kv.1 in
  if decide (alias = "") then cache else
  match unmarshal kv.2 with None => cache | Some r => <[alias := with_alias r alias]> cache end.
Definition initialLoad (pre : string) (kvs : list (string * string)) : gmap string Rule := fold_left (load_kv pre) kvs ∅.

Definition apply_event (pre : string) (cache : gmap string Rule) (ev : event) : gmap string Rule :=
  match ev with
  | EventPut key value => load_kv pre cache (key, value)
  | EventDelete key => let alias := aliasFromKey pre key in if decide (alias = "") then cache else delete alias cache
  end.
Definition applyEvents (pre : string) (cache : gmap string Rule) (evs : list event) : gmap string Rule :=
  fold_left (apply_event pre) evs cache.

(** The server's part of a call: the next outcome says whether it succeeds. *)
Definition next_outcome (r : EtcdRegistry) : bool * list bool :=
  match outcomes r with [] => (true, []) | b :: o => (b, o) end.
Definition server_put (r : EtcdRegistry) (key value : string) : EtcdRegistry * bool :=
  let '(b, o) := next_outcome r in
  if b then (mkEtcd (prefix r) (<[key := value]> (store r)) (pending r ++ [EventPut key value]) (rules r) o, true)
  else (mkEtcd (prefix r) (store r) (pending r) (rules r) o, false).
Definition server_delete (r : EtcdRegistry) (key : string) : EtcdRegistry * bool :=
  let '(b, o) := next_outcome r in
  if b then
    (mkEtcd (prefix r) (delete key (store r))
       (match store r !! key with Some _ => pending r ++ [EventDelete key] | None => pending r end) (rules r) o, true)
  else (mkEtcd (prefix r) (store r) (pending r) (rules r) o, false).
Definition with_rules (r : EtcdRegistry) (m : gmap string Rule) : EtcdRegistry :=
  mkEtcd (prefix r) (store r) (pending r) m (outcomes r).

(** The first part of [Put], up to the answer of the server, and the update of the
    cache that follows it. *)
Definition put_begin (r : EtcdRegistry) (now : Time) (rule : Rule) (by_ : string) : EtcdRegistry * Rule * (Rule + RouteErr) :=
  match Validate rule with
  | (rule, Some e) => (r, rule, inr e)
  | (rule, None) =>
      let cp := stamped rule now by_ in
      match marshal cp with
      | None => (r, rule, inr ErrBackend)
      | Some value =>
          let '(r, ok) := server_put r (keyOf (prefix r) (Alias cp)) value in
          (r, rule, if ok then inl cp else inr ErrBackend)
      end
  end.
Definition put_cache (r : EtcdRegistry) (cp : Rule) : EtcdRegistry := with_rules r (<[Alias cp := cp]> (rules r)).

Definition Etcd_Put (r : EtcdRegistry) (now : Time) (rule : Rule) (by_ : string) : EtcdRegistry * Rule * option RouteErr :=
  match put_begin r now rule by_ with
  | (r, rule, inr e) => (r, rule, Some e)
  | (r, rule, inl cp) => (put_cache r cp, rule, None)
  end.

Definition Etcd_Delete (r : EtcdRegistry) (alias : string) : EtcdRegistry * option RouteErr :=
  match rules r !! alias with
  | None => (r, Some ErrRouteNotFound)
  | Some _ =>
      let '(r, ok) := server_delete r (keyOf (prefix r) alias) in
      if ok then (with_rules r (delete alias (rules r)), None) else (r, Some ErrBackend)
  end.

Definition Etcd_SetActive (r : EtcdRegistry) (now : Time) (alias : string) (active : bool) (by_ : string)
    : EtcdRegistry * option RouteErr :=
  match rules r !! alias with
  | None => (r, Some ErrRouteNotFound)
  | Some cur => let '(r, _, e) := Etcd_Put r now (with_active cur active) by_ in (r, e)
  end.

Definition Etcd_Get (r : EtcdRegistry) (alias : string) : res RouteErr Rule :=
  match rules r !! alias with Some x => Ok x | None => Err ErrRouteNotFound end.
Definition Etcd_List (r : EtcdRegistry) : list Rule := sort_rules (map_to_list (rules r)).*2.

(** Another instance writes a key; one pending event reaches this instance. *)
Definition remote_put (r : EtcdRegistry) (key value : string) : EtcdRegistry :=
  mkEtcd (prefix r) (<[key := value]> (store r)) (pending r ++ [EventPut key value]) (rules r) (outcomes r).
Definition remote_delete (r : EtcdRegistry) (key : string) : EtcdRegistry :=
  mkEtcd (prefix r) (delete key (store r))
    (match store r !! key with Some _ => pending r ++ [EventDelete key] | None => pending r end) (rules r) (outcomes r).
Definition deliver (r : EtcdRegistry) (n : nat) : EtcdRegistry :=
  mkEtcd (prefix r) (store r) (drop n (pending r)) (applyEvents (prefix r) (rules r) (take n (pending r))) (outcomes r).
Definition NewEtcdRegistry (p : string) (st : gmap string string) (o : list bool) : EtcdRegistry :=
  mkEtcd (effective_prefix p) st [] (initialLoad (effective_prefix p) (map_to_list st)) o.
End etcd.

(** * With write-back to a file

    [file] is the last document written; [writes] the outcomes of the next writes. *)
Record FileBackedRegistry (R : Type) := mkFile { inner : R; file : option (list Rule); writes : list bool }.
Arguments mkFile {R}. Arguments inner {R}. Arguments file {R}. Arguments writes {R}.

Section file_backed.
Context {R : Type} `{Registry R}.

Definition flush (r : FileBackedRegistry R) : FileBackedRegistry R :=
  let rules := List_ (inner r) in
  match writes r with
  | [] => mkFile (inner r) (Some rules) []
  | true :: w => mkFile (inner r) (Some rules) w
  | false :: w => mkFile (inner r) (file r) w
  end.
Definition with_inner (r : FileBackedRegistry R) (i : R) : FileBackedRegistry R := mkFile i (file r) (writes r).

Definition File_Put (r : FileBackedRegistry R) (now : Time) (rule : Rule) (by_ : string)
    : FileBackedRegistry R * Rule * option RouteErr :=
  let '(i, rule, e) := Put (inner r) now rule by_ in
  match e with Some e => (with_inner r i, rule, Some e) | None => (flush (with_inner r i), rule, None) end.
Definition File_Delete (r : FileBackedRegistry R) (alias : string) : FileBackedRegistry R * option RouteErr :=
  let '(i, e) := Delete (inner r) alias in
  match e with Some e => (with_inner r i, Some e) | None => (flush (with_inner r i), None) end.
Definition File_SetActive (r : FileBackedRegistry R) (now : Time) (alias : string) (active : bool) (by_ : string)
    : FileBackedRegistry R * option RouteErr :=
  let '(i, e) := SetActive (inner r) now alias active by_ in
  match e with Some e => (with_inner r i, Some e) | None => (flush (with_inner r i), None) end.
End file_backed.

#[export] Instance file_registry {R} `{Registry R} : Registry (FileBackedRegistry R) := {|
  Get r := Get (inner r); List_ r := List_ (inner r); Put := File_Put; Delete := File_Delete; SetActive := File_SetActive |}.

(** * Clients of the interface *)
Section clients.
Context {R : Type} `{Registry R}.

Definition has_star (s : string) : bool := any_char (Ascii.eqb "*"%char) s.

(** The loop over the patterns: the longest prefix so far. *)
Definition best_step (alias : string) (best : option Rule) (r : Rule) : option Rule :=
  if negb (Active r) || negb (IsPattern r) then best else
  let prefix := TrimSuffix (Alias r) "*" in
  if negb (HasPrefix alias prefix) then best else
  match best with
  | None => Some r
  | Some b => if (String.length (TrimSuffix (Alias b) "*") <? String.length prefix)%nat then Some r else best
  end.

Definition Resolve (reg : option R) (alias : string) : res RouteErr Rule :=
  match reg with
  | None => Err ErrRouteNotFound
  | Some reg =>
      if decide (alias = "") then Err ErrRouteNotFound
      else if has_star alias then Err ErrRouteNotFound
      else match Get reg alias with
      | Ok rule => if Active rule then Ok rule else Err ErrRouteNotFound
      | Err ErrRouteNotFound =>
          match fold_left (best_step alias) (List_ reg) None with
          | None => Err ErrRouteNotFound
          | Some best =>
              let resolved := with_alias best alias in
              let resolved := if decide (RoutingKey resolved = "") then with_rkey resolved alias else resolved in
              if (LRkey <? String.length (RoutingKey resolved))%nat then Err ErrRkeyTooLong else Ok resolved
          end
      | Err e => Err e
      | Panic => Panic
      end
  end.

(** ** Seeding *)
Inductive SeedPolicy := PolicyAdditive | PolicySync.
Definition ParseSeedPolicy (s : string) : option SeedPolicy :=
  if bool_decide (s = "") || bool_decide (s = "additive") then Some PolicyAdditive
  else if decide (s = "sync") then Some PolicySync else None.

Record counts := mkCounts { added : nat; updated : nat; skipped : nat; removed : nat }.

Definition seed_step (now : Time) (policy : SeedPolicy) (st : R * counts) (s : Rule) : R * counts :=
  let '(reg, c) := st in
  let g := Get reg (Alias s) in
  if match g with Err e => negb (bool_decide (e = ErrRouteNotFound)) | _ => false end then (reg, c) else
  let existing := match g with Ok _ => true | _ => false end in
  match policy with
  | PolicySync =>
      match Put reg now s "dev-seed" with
      | (reg, _, Some _) => (reg, c)
      | (reg, _, None) =>
          (reg, if existing then mkCounts (added c) (S (updated c)) (skipped c) (removed c)
                else mkCounts (S (added c)) (updated c) (skipped c) (removed c))
      end
  | PolicyAdditive =>
      if existing then (reg, mkCounts (added c) (updated c) (S (skipped c)) (removed c))
      else match Put reg now s "dev-seed" with
      | (reg, _, Some _) => (reg, c)
      | (reg, _, None) => (reg, mkCounts (S (added c)) (updated c) (skipped c) (removed c))
      end
  end.

Definition prune_step (cfgAliases : gset string) (st : R * counts) (r : Rule) : R * counts :=
  let '(reg, c) := st in
  if decide (Alias r ∈ cfgAliases) then (reg, c)
  else match Delete reg (Alias r) with
  | (reg, Some _) => (reg, c)
  | (reg, None) => (reg, mkCounts (added c) (updated c) (skipped c) (S (removed c)))
  end.

Definition applyRules (reg : R) (now : Time) (seeds : list Rule) (policy : SeedPolicy) : R * counts :=
  let cfgAliases : gset string := list_to_set (map Alias seeds) in
  let st := fold_left (seed_step now policy) seeds (reg, mkCounts 0 0 0 0) in
  match policy with
  | PolicySync => fold_left (prune_step cfgAliases) (List_ st.1) st
  | PolicyAdditive => st
  end.

Definition dev_rule (a x k c : string) : Rule := mkRule a x k true c (mkTime (- (62135596800 * ns_per_sec)) 0) "".
Definition defaultDevSeeds : list Rule :=
  [dev_rule "TSTSVC_PING" "TSTSVC" "PING" "broker entrypoint 의 test_service (single rkey)";
   dev_rule "WECHO_PING" "ECHOSVC" "PING" "WECHO PING → PONG";
   dev_rule "WECHO_ECHO" "ECHOSVC" "ECHO" "WECHO ECHO → 'ECHO:'+payload";
   dev_rule "WECHO_UPPER" "ECHOSVC" "UPPER" "WECHO UPPER → 대문자 변환";
   dev_rule "WECHO_TIME" "ECHOSVC" "TIME" "WECHO TIME → YYYYMMDDHHMMSS";
   dev_rule "WECHO_INFO" "ECHOSVC" "INFO" "WECHO INFO → pid + uptime"].

(** [loaded] is what [LoadRoutesFromFile] returned for the non-empty path. *)
Definition SeedDevRoutesExPolicy (reg : R) (now : Time) (path : string) (loaded : option (list Rule)) (policy : SeedPolicy)
    : R * counts :=
  if decide (path = "") then applyRules reg now defaultDevSeeds policy
  else match loaded with
  | None => applyRules reg now defaultDevSeeds PolicyAdditive
  | Some rules => applyRules reg now rules policy
  end.
End clients.
