(* ===== verification/RoutingLaws.v ===== *)
(** What the routing table guarantees: which rules are accepted, that resolution
    finds the exact rule or the longest pattern, that what it returns fits the wire,
    that the etcd cache follows the store, and what seeding does. *)

From Stdlib Require Import ZArith Lia.
From Stdlib Require Import Strings.Ascii.
From S2P Require Import Prelude Codec Sorting GoStrings Dates Routing.
Local Open Scope Z_scope.

(** * Validation *)

(** The aliases the package documents: no white space or slash, a star only as the
    last character. *)
Definition alias_ok (a : string) : Prop :=
  a <> "" /\ (String.length a <= 64)%nat /\ any_char alias_bad a = false /\
  (has_star a = false \/ exists p, a = p +:+ "*" /\ has_star p = false).

(** A rule the table accepts. *)
Definition rule_ok (r : Rule) : Prop :=
  alias_ok (Alias r) /\ (RoutingKey r <> "" \/ IsPattern r = true) /\
  (String.length (Exchange r) <= LXchg)%nat /\ (String.length (RoutingKey r) <= LRkey)%nat.

Lemma star_position a :
  a <> "" ->
  match IndexByte a "*"%char with Some i => negb (i =? String.length a - 1)%nat | None => false end = false <->
  (has_star a = false \/ exists p, a = p +:+ "*" /\ has_star p = false).
Proof.
  intros Hne. unfold has_star. destruct (IndexByte a "*"%char) as [i|] eqn:E.
  - apply IndexByte_Some in E as (x & b & -> & <- & F). rewrite str_length_app. simpl.
    rewrite negb_false_iff, Nat.eqb_eq. split.
    + intros L. right. exists x. split; [|done]. assert (String.length b = 0%nat) as Lb by lia. by destruct b.
    + intros [H|(p & H & F')].
      * rewrite any_char_app in H. apply orb_false_iff in H as [_ H]. done.
      * pose proof (IndexByte_app x "*"%char b F) as I. rewrite H, (IndexByte_app p "*"%char "" F') in I. injection I as I.
        apply (f_equal String.length) in H. rewrite !str_length_app in H. simpl in H. lia.
  - apply IndexByte_None in E. tauto.
Qed.

Lemma Validate_iff r :
  (Validate r).1 = with_alias r (TrimSpace (Alias r)) /\
  ((Validate r).2 = None <-> rule_ok (with_alias r (TrimSpace (Alias r)))).
Proof.
  split; [done|]. unfold Validate, rule_ok, alias_ok. cbv zeta. simpl. set (a := TrimSpace (Alias r)).
  change (IsPattern (with_alias r a)) with (HasSuffix a "*").
  destruct (decide (a = "")) as [E|E]; [by intuition|]. pose proof (star_position a E) as S.
  destruct (64 <? String.length a)%nat eqn:E1; [apply Nat.ltb_lt in E1; simpl; split; [done|intros ((_ & ? & _) & _); lia]|].
  apply Nat.ltb_ge in E1. simpl. destruct (any_char alias_bad a) eqn:E2; [by intuition|].
  destruct (match IndexByte a "*"%char with Some _ => _ | None => _ end) eqn:E3.
  { split; [done|]. intros ((_ & _ & _ & H) & _). by apply S in H. }
  destruct (bool_decide (RoutingKey r = "")) eqn:E4; apply bool_decide_eq_true in E4 || apply bool_decide_eq_false in E4; simpl.
  - destruct (HasSuffix a "*") eqn:E5; simpl; [|split; [done|]; intros (_ & [?|?] & _); done].
    rewrite E4. simpl. destruct (Nat.ltb_spec LXchg (String.length (Exchange r))); [split; [done|intros (_ & _ & ? & _); lia]|].
    unfold LRkey. simpl. intuition lia.
  - destruct (Nat.ltb_spec LXchg (String.length (Exchange r))); [split; [done|intros (_ & _ & ? & _); lia]|].
    destruct (Nat.ltb_spec LRkey (String.length (RoutingKey r))); [split; [done|intros (_ & _ & _ & ?); lia]|]. tauto.
Qed.

(** The registry's input check, on every branch: the caller's alias is trimmed,
    and the rule is accepted exactly when the alias is a non-empty text of at most 64
    bytes without white space or slash whose only star is its last character, a
    routing key is given unless the alias is a pattern, and both names fit their
    fields of the message header; otherwise the first failing test names the error
    and, in the in-process table, nothing changes. *)
Theorem Validate_errors (reg : Mem.InMemoryRegistry) (now : Time) (r : Rule) (by_ : string) :
  let a := TrimSpace (Alias r) in
  let '(reg', r', e) := Mem.Put reg now r by_ in
  r' = with_alias r a /\
  match e with
  | None => rule_ok r' /\ reg' = <[a := stamped r' now by_]> reg
  | Some err =>
      reg' = reg /\
      match err with
      | ErrAliasRequired => a = ""
      | ErrAliasInvalid => a <> "" /\ ~ alias_ok a
      | ErrRkeyRequired => alias_ok a /\ RoutingKey r = "" /\ HasSuffix a "*" = false
      | ErrExchangeTooLong => alias_ok a /\ (RoutingKey r <> "" \/ HasSuffix a "*" = true) /\ (LXchg < String.length (Exchange r))%nat
      | ErrRkeyTooLong => alias_ok a /\ (String.length (Exchange r) <= LXchg)%nat /\ (LRkey < String.length (RoutingKey r))%nat
      | ErrRouteNotFound | ErrBackend => False
      end
  end.
Proof.
  cbv zeta. unfold Mem.Put. pose proof (Validate_iff r) as [V1 V2]. destruct (Validate r) as [r' e] eqn:EV. simpl in V1, V2. subst r'.
  destruct e as [err|]; [|by rewrite <-V2].
  split; [done|]. split; [done|]. clear V2. unfold Validate in EV. apply (f_equal snd) in EV. simpl in EV. revert EV.
  unfold alias_ok. set (a := TrimSpace (Alias r)). change (IsPattern (with_alias r a)) with (HasSuffix a "*").
  destruct (decide (a = "")) as [E|E]; [by intros [= <-]|]. pose proof (star_position a E) as S.
  destruct (64 <? String.length a)%nat eqn:E1; simpl; [apply Nat.ltb_lt in E1; intros [= <-]; split; [done|intros (_ & ? & _); lia]|].
  apply Nat.ltb_ge in E1. destruct (any_char alias_bad a) eqn:E2; [intros [= <-]; split; [done|by intros (_ & _ & ? & _)]|].
  destruct (match IndexByte a "*"%char with Some _ => _ | None => _ end) eqn:E3.
  { intros [= <-]. split; [done|]. intros (_ & _ & _ & H). by apply S in H. }
  pose proof (proj1 S eq_refl) as St. destruct (bool_decide (RoutingKey r = "")) eqn:E4;
    apply bool_decide_eq_true in E4 || apply bool_decide_eq_false in E4; destruct (HasSuffix a "*") eqn:E5; simpl;
    try (by intros [= <-]);
    destruct (Nat.ltb_spec LXchg (String.length (Exchange r))); try (intros [= <-]; by auto);
    destruct (Nat.ltb_spec LRkey (String.length (RoutingKey r))); intros [= <-]; auto.
Qed.

Example Put_pattern now :
  Mem.Put ∅ now (mkRule " W11* " "ORDSVC" "" true "" now "") "ops" =
    (<["W11*" := mkRule "W11*" "ORDSVC" "" true "" now "ops"]> ∅, mkRule "W11*" "ORDSVC" "" true "" now "", None).
Proof. reflexivity. Qed.

(** * Implementations of the interface *)

#[export] Instance mem_laws : RegistryLaws Mem.InMemoryRegistry.
Proof.
  refine {| view r := r; inv := keyed |}; [auto|reflexivity|reflexivity|..].
  - intros r now rule by_ K. cbn [Put mem_registry]. unfold Mem.Put. destruct (Validate rule) as [rule' [e|]]; [done|].
    split; [|done]. by apply map_Forall_insert_2.
  - intros r a K. cbn [Delete mem_registry]. unfold Mem.Delete. destruct (r !! a) eqn:E; simpl; [|split; [done|]; split; [done|]; by right].
    split; [by apply map_Forall_delete|]. split; [by eauto|done].
Defined.

#[export] Instance file_laws {R} `{RegistryLaws R} : RegistryLaws (FileBackedRegistry R).
Proof.
  refine {| view r := view (inner r); inv r := inv (inner r) |}.
  - intros r. apply inv_keyed.
  - intros r a. apply (Get_view (inner r)).
  - intros r. apply (List_view (inner r)).
  - intros r now rule by_ I. pose proof (Put_spec (inner r) now rule by_ I) as P. cbn [Put file_registry]. unfold File_Put.
    destruct (Validate rule) as [rule' e], (Put (inner r) now rule by_) as [[i rule''] e'].
    destruct P as (I' & -> & P). assert (forall r : FileBackedRegistry R, inner (flush r) = inner r) as Fl.
    { intros f. unfold flush. by destruct (writes f) as [|[]]. }
    destruct e as [e|], e' as [e'|]; cbv beta iota; rewrite ?Fl; (split; [exact I'|]); (split; [done|]); try exact P.
    + destruct P as [[= ->] ->]. by destruct r.
    + by destruct P.
  - intros r a I. pose proof (Delete_spec (inner r) a I) as D. cbn [Delete file_registry]. unfold File_Delete.
    destruct (Delete (inner r) a) as [i [e|]]; [done|].
    assert (inner (flush (with_inner r i)) = i) as ->; [|done]. unfold flush. by destruct (writes _) as [|[]].
Defined.

(** * Resolution *)

(** What an alias stands for in a table: its own active rule, or, when it has none
    at all, the active pattern with the longest prefix of it, the alias itself being
    the routing key when the pattern gives none. *)
Inductive resolves (m : gmap string Rule) (alias : string) : Rule -> Prop :=
| resolves_exact r : m !! alias = Some r -> Active r = true -> resolves m alias r
| resolves_pattern p r :
    m !! alias = None -> m !! (p +:+ "*") = Some r -> Active r = true -> HasPrefix alias p = true ->
    (forall p' r', m !! (p' +:+ "*") = Some r' -> Active r' = true -> HasPrefix alias p' = true ->
       (String.length p' <= String.length p)%nat) ->
    resolves m alias (with_rkey (with_alias r alias) (if decide (RoutingKey r = "") then alias else RoutingKey r)).

Lemma resolves_unique m alias r1 r2 : resolves m alias r1 -> resolves m alias r2 -> r1 = r2.
Proof.
  intros [r E1 A1|p r N E1 A1 P1 M1] [r' E2 A2|p' r' N' E2 A2 P2 M2]; [congruence..|].
  assert (p = p') as ->; [|by assert (r = r') as -> by congruence].
  apply HasPrefix_iff in P1 as [t1 P1], P2 as [t2 P2]. subst alias. apply (prefix_same_length p p' t1 t2); [done|].
  assert (HasPrefix (p +:+ t1) p = true) by apply HasPrefix_app.
  assert (HasPrefix (p +:+ t1) p' = true) by (rewrite P2; apply HasPrefix_app).
  apply Nat.le_antisymm; [by eapply M2|by eapply M1].
Qed.

Definition matches (alias : string) (r : Rule) : bool :=
  Active r && IsPattern r && HasPrefix alias (TrimSuffix (Alias r) "*").
Definition plen (r : Rule) : nat := String.length (TrimSuffix (Alias r) "*").

Lemma best_fold alias l b0 :
  (forall b, b0 = Some b -> matches alias b = true) ->
  match fold_left (best_step alias) l b0 with
  | None => b0 = None /\ forall r, r ∈ l -> matches alias r = false
  | Some b => (b ∈ l \/ b0 = Some b) /\ matches alias b = true /\
      (forall r, r ∈ l \/ b0 = Some r -> matches alias r = true -> (plen r <= plen b)%nat)
  end.
Proof.
  revert b0. induction l as [|x l IH]; intros b0 H0; simpl.
  { destruct b0 as [b|]; [|split; [done|]; by intros r ?%elem_of_nil].
    split; [by right|]. split; [by apply H0|]. intros r [?%elem_of_nil|[= ->]]; done. }
  assert (best_step alias b0 x = if matches alias x then
    match b0 with Some b => if (plen b <? plen x)%nat then Some x else b0 | None => Some x end else b0) as ->.
  { unfold best_step, matches, plen. destruct (Active x), (IsPattern x), (HasPrefix _ _); done. }
  destruct (matches alias x) eqn:M.
  - set (b1 := match b0 with Some _ => _ | None => _ end).
    assert (exists b, b1 = Some b /\ matches alias b = true /\ (b = x \/ b0 = Some b) /\ (plen x <= plen b)%nat /\
            forall c, b0 = Some c -> (plen c <= plen b)%nat) as (b & Eb & Mb & Ob & L1 & L2).
    { unfold b1. destruct b0 as [c|]; [|exists x; by intuition]. destruct (Nat.ltb_spec (plen c) (plen x)).
      - exists x. repeat split; auto. intros ? [= ->]. lia.
      - exists c. repeat split; auto. by intros ? [= ->]. }
    specialize (IH b1). rewrite Eb in *. destruct (fold_left _ l _) as [b'|].
    + destruct IH as (O & Mb' & Mx); [by intros ? [= ->]|]. split.
      { destruct O as [?|[= ->]]; [by left; right|]. destruct Ob as [->|?]; [left; by left|by right]. }
      split; [done|]. intros r [Hr|Hr] Mr.
      * apply elem_of_cons in Hr as [->|Hr]; [|by apply Mx; auto]. etrans; [exact L1|]. apply Mx; auto.
      * etrans; [by apply L2|]. apply Mx; auto.
    + destruct IH as [IH _]; [by intros ? [= ->]|done].
  - specialize (IH b0 H0). destruct (fold_left _ l _) as [b'|].
    + destruct IH as (O & Mb' & Mx). split; [destruct O; [by left; right|by right]|]. split; [done|].
      intros r [[->|Hr]%elem_of_cons|Hr] Mr; [congruence|by apply Mx; auto..].
    + destruct IH as [-> IH]. split; [done|]. intros r [->|Hr]%elem_of_cons; auto.
Qed.

Lemma elem_list_view m r : keyed m -> r ∈ list_view m <-> m !! Alias r = Some r.
Proof.
  intros K. unfold list_view, sort_rules. rewrite insertion_sort_perm, list_elem_of_fmap. split.
  - intros ([k x] & -> & Hx%elem_of_map_to_list). simpl. by rewrite (K k x Hx).
  - intros H. exists (Alias r, r). split; [done|]. by apply elem_of_map_to_list.
Qed.

Lemma matches_iff alias r :
  matches alias r = true <-> Active r = true /\ exists p, Alias r = p +:+ "*" /\ HasPrefix alias p = true.
Proof.
  unfold matches, IsPattern. rewrite !andb_true_iff, HasSuffix_iff. split.
  - intros [[A [p E]] P]. split; [done|]. exists p. rewrite E, TrimSuffix_app in P. done.
  - intros [A (p & E & P)]. rewrite E, TrimSuffix_app. by repeat split; [|exists p|].
Qed.

Section resolution.
Context {R : Type} `{RegistryLaws R}.

Lemma best_resolves (reg : R) alias :
  inv reg -> view reg !! alias = None ->
  match fold_left (best_step alias) (List_ reg) None with
  | None => forall r, ~ resolves (view reg) alias r
  | Some b => resolves (view reg) alias
      (with_rkey (with_alias b alias) (if decide (RoutingKey b = "") then alias else RoutingKey b))
  end.
Proof.
  intros I N. rewrite List_view. pose proof (inv_keyed reg I) as K. pose proof (best_fold alias (list_view (view reg)) None) as B.
  destruct (fold_left _ _ _) as [b|].
  - destruct B as ([Hb|?] & M & Mx); [done| |done]. apply elem_list_view in Hb; [|done].
    apply matches_iff in M as (A & p & E & P). rewrite E in Hb. apply (resolves_pattern _ _ p); try done.
    intros p' r' H' A' P'. pose proof (K _ _ H') as E'. simpl in E'.
    assert (plen r' <= plen b)%nat as L; [|unfold plen in L; by rewrite E, E', !TrimSuffix_app in L].
    apply Mx; [left; apply elem_list_view; by rewrite ?E'|]. apply matches_iff. eauto.
  - destruct B as [_ B]; [done|]. intros r [r' E A|p r' _ E A P _]; [congruence|].
    pose proof (K _ _ E) as E'. simpl in E'. assert (matches alias r' = true) as M; [apply matches_iff; eauto|].
    rewrite B in M; [done|]. apply elem_list_view; by rewrite ?E'.
Qed.

Lemma Resolve_spec (reg : R) alias :
  inv reg ->
  match Resolve (Some reg) alias with
  | Ok r => alias <> "" /\ has_star alias = false /\ resolves (view reg) alias r /\
      (view reg !! alias = None -> (String.length (RoutingKey r) <= LRkey)%nat)
  | Err ErrRouteNotFound => alias = "" \/ has_star alias = true \/ forall r, ~ resolves (view reg) alias r
  | Err ErrRkeyTooLong => exists r, resolves (view reg) alias r /\ view reg !! alias = None /\ (LRkey < String.length (RoutingKey r))%nat
  | _ => False
  end.
Proof.
  intros I. unfold Resolve. destruct (decide (alias = "")) as [|Hne]; [by left|].
  destruct (has_star alias) eqn:Hs; [by right; left|]. rewrite Get_view. unfold get_view.
  destruct (view reg !! alias) as [r|] eqn:E.
  - destruct (Active r) eqn:A; [repeat split; try done; by apply resolves_exact|].
    right; right. intros r' [r'' E' A'|p r'' E']; congruence.
  - pose proof (best_resolves reg alias I E) as B. destruct (fold_left _ _ _) as [b|]; [|by auto].
    assert ((if decide (RoutingKey (with_alias b alias) = "") then with_rkey (with_alias b alias) alias else with_alias b alias) =
            with_rkey (with_alias b alias) (if decide (RoutingKey b = "") then alias else RoutingKey b)) as ->.
    { simpl. by destruct (decide _), b. }
    destruct (Nat.ltb_spec LRkey (String.length (RoutingKey (with_rkey (with_alias b alias)
      (if decide (RoutingKey b = "") then alias else RoutingKey b))))); [by eauto|]. repeat split; try done.
Qed.
End resolution.

(** C31. Resolution against any implementation of the interface: the answer is the
    alias's own active rule, or, when the table has no rule of that name, the active
    pattern with the longest matching prefix; an inactive exact rule hides the
    patterns; requests that contain a star are refused; a routing key taken from the
    alias that does not fit the wire is the only other error. What an alias stands for
    is unique. *)
Theorem Resolve_correct {R : Type} `{RegistryLaws R} (reg : R) (alias : string) :
  inv reg ->
  match Resolve (Some reg) alias with
  | Ok r => alias <> "" /\ has_star alias = false /\
      (forall r', resolves (view reg) alias r' <-> r' = r) /\
      (view reg !! alias = None -> (String.length (RoutingKey r) <= LRkey)%nat)
  | Err ErrRouteNotFound => alias = "" \/ has_star alias = true \/ forall r, ~ resolves (view reg) alias r
  | Err ErrRkeyTooLong => exists r, resolves (view reg) alias r /\ view reg !! alias = None /\ (LRkey < String.length (RoutingKey r))%nat
  | _ => False
  end.
Proof.
  intros I. pose proof (Resolve_spec reg alias I) as S. destruct (Resolve (Some reg) alias) as [r|e|]; [|done|done].
  destruct S as (S1 & S2 & S3 & S4). repeat split; try done; [|by intros ->]. intros ?. by eapply resolves_unique.
Qed.

Definition demo_rule (a k : string) (b : bool) : Rule := mkRule a "ORDSVC" k b "" (mkTime 0 0) "".
Definition demo_table : Mem.InMemoryRegistry :=
  <["W1*" := demo_rule "W1*" "SHORT" true]> (<["W11*" := demo_rule "W11*" "" true]>
    (<["W1101" := demo_rule "W1101" "OFF" false]> ∅)).

Lemma demo_keyed : inv demo_table.
Proof. unfold inv, demo_table. simpl. repeat (apply map_Forall_insert_2; [done|]). apply map_Forall_empty. Defined.

Lemma Resolve_correct_witness :
  (forall r, resolves demo_table "W1199" r <-> r = mkRule "W1199" "ORDSVC" "W1199" true "" (mkTime 0 0) "") /\
  (forall r, ~ resolves demo_table "W1101" r) /\
  exists r, resolves demo_table "W11-a-name-too-long" r /\ (16 < String.length (RoutingKey r))%nat.
Proof.
  split; [|split].
  - pose proof (Resolve_correct demo_table "W1199" demo_keyed) as H. vm_compute (Resolve _ _) in H. by destruct H as (_ & _ & H & _).
  - pose proof (Resolve_correct demo_table "W1101" demo_keyed) as H. vm_compute (Resolve _ _) in H. by destruct H as [?|[?|?]].
  - pose proof (Resolve_correct demo_table "W11-a-name-too-long" demo_keyed) as H. vm_compute (Resolve _ _) in H.
    destruct H as (r & H1 & _ & H2). by exists r.
Defined.

(** * What reaches the wire *)

Inductive command :=
| CPut (now : Time) (r : Rule) (by_ : string) | CDelete (a : string) | CSetActive (now : Time) (a : string) (b : bool) (by_ : string).
Definition exec (reg : Mem.InMemoryRegistry) (c : command) : Mem.InMemoryRegistry :=
  match c with
  | CPut now r by_ => (Mem.Put reg now r by_).1.1
  | CDelete a => (Mem.Delete reg a).1
  | CSetActive now a b by_ => (Mem.SetActive reg now a b by_).1
  end.
Definition run (cs : list command) : Mem.InMemoryRegistry := fold_left exec cs Mem.NewInMemoryRegistry.

Definition table_ok (m : gmap string Rule) : Prop := map_Forall (fun a r => Alias r = a /\ rule_ok r) m.

Lemma exec_ok reg c : table_ok reg -> table_ok (exec reg c).
Proof.
  intros T. destruct c as [now r by_|a|now a b by_]; simpl.
  - unfold Mem.Put. destruct (Validate_iff r) as [V1 V2]. destruct (Validate r) as [r' [e|]]; simpl in *; [done|].
    apply map_Forall_insert_2; [|done]. subst r'. split; [done|]. by apply V2.
  - unfold Mem.Delete. destruct (reg !! a); simpl; [|done]. by apply map_Forall_delete.
  - unfold Mem.SetActive. destruct (reg !! a) as [r|] eqn:E; simpl; [|done].
    apply map_Forall_insert_2; [|done]. exact (T a r E).
Qed.

Lemma run_ok cs : table_ok (run cs).
Proof.
  unfold run. assert (table_ok Mem.NewInMemoryRegistry) as H by apply map_Forall_empty. revert H.
  generalize Mem.NewInMemoryRegistry. induction cs as [|c cs IH]; intros m H; simpl; [done|]. by apply IH, exec_ok.
Qed.

(** In a table built by any sequence of administrator calls every rule is valid
    and stored under its own name, and whatever a request resolves to can be put on
    the wire unchanged: the routing key is not empty, and exchange and routing key fit
    their header fields. *)
Theorem resolved_fits_wire (cs : list command) (alias : string) :
  table_ok (run cs) /\
  match Resolve (Some (run cs)) alias with
  | Ok r => RoutingKey r <> "" /\ (String.length (RoutingKey r) <= LRkey)%nat /\ (String.length (Exchange r) <= LXchg)%nat /\ Active r = true
  | Err e => e = ErrRouteNotFound \/ e = ErrRkeyTooLong
  | Panic => False
  end.
Proof.
  pose proof (run_ok cs) as T. split; [done|]. assert (keyed (run cs)) as K by (intros a r E; by apply (T a r E)).
  pose proof (Resolve_spec (run cs) alias K) as S. destruct (Resolve _ _) as [r|e|]; [|by destruct e; auto|done].
  destruct S as (Hne & Hs & S & L). simpl in S, L. destruct S as [r E A|p r N E A P _].
  - destruct (T _ _ E) as (Ha & (_ & Hk & Hx & Hr)). repeat split; try done. destruct Hk as [?|Hk]; [done|].
    apply HasSuffix_iff in Hk as [t Ht]. rewrite Ha in Ht. unfold has_star in Hs. rewrite Ht, any_char_app in Hs.
    apply orb_false_iff in Hs as [_ Hs]. done.
  - destruct (T _ _ E) as (Ha & (_ & Hk & Hx & Hr)). repeat split; try done; [|by apply L].
    simpl. by destruct (decide (RoutingKey r = "")).
Qed.
