(* ===== verification/RoutingSync.v ===== *)
(** The etcd-backed routing table: the cache follows the store. Writes of this
    instance, writes of others and the delivery of watch events interleave freely. The second half is the seeding of
    the table from a configuration file (src/pkg/routing/dev_seed.go). *)

From Stdlib Require Import ZArith Lia Strings.Ascii.
From S2P Require Import Prelude Codec Sorting GoStrings Dates Routing RoutingLaws.
Local Open Scope Z_scope.

Section sync.
Context (marshal : Rule -> option string) (unmarshal : string -> option Rule).

(** What the store says of an alias. *)
Definition store_rule (pre : string) (st : gmap string string) (a : string) : option Rule :=
  if decide (a = "") then None else
  match st !! keyOf pre a with Some v => option_map (fun r => with_alias r a) (unmarshal v) | None => None end.

(** * Lookups after events *)

Lemma aliasFromKey_iff pre key a : a <> "" -> aliasFromKey pre key = a <-> key = keyOf pre a.
Proof.
  intros Hne. unfold aliasFromKey, keyOf. split.
  - destruct (HasPrefix key pre) eqn:E; [|by intros <-]. apply HasPrefix_iff in E as [t ->]. by rewrite str_drop_app; intros ->.
  - intros ->. by rewrite HasPrefix_app, str_drop_app.
Qed.

(** What an event does to the entry of one alias. *)
Definition effect (pre a : string) (ev : event) : option (option Rule) :=
  if decide (a = "") then None else
  match ev with
  | EventPut k v => if decide (k = keyOf pre a) then option_map (fun r => Some (with_alias r a)) (unmarshal v) else None
  | EventDelete k => if decide (k = keyOf pre a) then Some None else None
  end.
Definition last_effect (pre a : string) (evs : list event) : option (option Rule) :=
  fold_left (fun acc ev => match effect pre a ev with Some x => Some x | None => acc end) evs None.

Lemma apply_event_lookup pre m ev a :
  apply_event unmarshal pre m ev !! a = default (m !! a) (effect pre a ev).
Proof.
  unfold apply_event, effect, load_kv. destruct ev as [k v|k]; cbn [fst snd].
  - destruct (decide (a = "")) as [->|Hne].
    + destruct (decide _); [done|]. destruct (unmarshal v); [|done]. by rewrite lookup_insert_ne.
    + pose proof (aliasFromKey_iff pre k a Hne) as I. destruct (decide (k = keyOf pre a)) as [Ek|Ek].
      * apply I in Ek as Ea. rewrite Ea, decide_False by done. destruct (unmarshal v); [|done]. by rewrite lookup_insert_eq.
      * destruct (decide _); [done|]. destruct (unmarshal v); [|done]. rewrite lookup_insert_ne; [done|]. tauto.
  - destruct (decide (a = "")) as [->|Hne].
    + destruct (decide _); [done|]. by rewrite lookup_delete_ne.
    + pose proof (aliasFromKey_iff pre k a Hne) as I. destruct (decide (k = keyOf pre a)) as [Ek|Ek].
      * apply I in Ek as Ea. rewrite Ea, decide_False by done. by rewrite lookup_delete_eq.
      * destruct (decide _); [done|]. rewrite lookup_delete_ne; [done|]. tauto.
Qed.

Lemma last_effect_snoc pre a evs ev :
  last_effect pre a (evs ++ [ev]) = match effect pre a ev with Some x => Some x | None => last_effect pre a evs end.
Proof. unfold last_effect. by rewrite fold_left_app. Qed.

Lemma last_effect_app pre a evs1 evs2 :
  last_effect pre a (evs1 ++ evs2) = match last_effect pre a evs2 with Some x => Some x | None => last_effect pre a evs1 end.
Proof.
  induction evs2 as [|ev evs2 IH] using rev_ind; [by rewrite app_nil_r|].
  rewrite app_assoc, !last_effect_snoc, IH. by destruct (effect pre a ev).
Qed.

Lemma applyEvents_lookup pre m evs a :
  applyEvents unmarshal pre m evs !! a = default (m !! a) (last_effect pre a evs).
Proof.
  unfold applyEvents. induction evs as [|ev evs IH] using rev_ind; [done|].
  rewrite fold_left_app, last_effect_snoc. simpl. rewrite apply_event_lookup, IH. by destruct (effect pre a ev).
Qed.

(** * The invariant

    Delivering what is pending brings the cache to what the store says. *)
Definition convergent (r : EtcdRegistry) : Prop :=
  forall a, default (rules r !! a) (last_effect (prefix r) a (pending r)) = store_rule (prefix r) (store r) a.

Lemma load_lookup pre kvs m a :
  NoDup kvs.*1 -> a <> "" ->
  fold_left (load_kv unmarshal pre) kvs m !! a =
  match (list_to_map kvs : gmap string string) !! keyOf pre a with
  | Some v => match unmarshal v with Some r => Some (with_alias r a) | None => m !! a end
  | None => m !! a
  end.
Proof.
  intros ND Hne. revert m ND. induction kvs as [|[k v] kvs IH]; intros m ND; [done|]. simpl in ND. inversion ND as [|? ? Hk ND']; subst.
  simpl. rewrite IH by done. pose proof (apply_event_lookup pre m (EventPut k v) a) as Hl. simpl in Hl. rewrite Hl.
  unfold effect. rewrite decide_False by done. destruct (decide (k = keyOf pre a)) as [->|N].
  - rewrite lookup_insert_eq, (not_elem_of_list_to_map_1 kvs) by done. by destruct (unmarshal v).
  - by rewrite lookup_insert_ne.
Qed.

Lemma load_empty pre kvs m : fold_left (load_kv unmarshal pre) kvs m !! "" = m !! "".
Proof.
  revert m. induction kvs as [|[k v] kvs IH]; intros m; simpl; [done|]. rewrite IH.
  pose proof (apply_event_lookup pre m (EventPut k v) "") as Hl. simpl in Hl. rewrite Hl. done.
Qed.

Lemma New_convergent p st o : convergent (NewEtcdRegistry unmarshal p st o).
Proof.
  intros a. simpl. unfold store_rule, initialLoad. destruct (decide (a = "")) as [->|Hne]; [by rewrite load_empty|].
  rewrite load_lookup by (done || apply NoDup_fst_map_to_list). rewrite list_to_map_to_list.
  destruct (st !! _) as [v|]; [|done]. by destruct (unmarshal v).
Qed.

Hypothesis json_roundtrip : forall r v, marshal r = Some v -> unmarshal v = Some r.

Lemma keyOf_inj pre a b : keyOf pre a = keyOf pre b -> a = b.
Proof. apply str_app_inj_l. Qed.

(** Writing a key whose value parses, with or without the local update of the
    entry. *)
Lemma put_convergent r a v x local :
  convergent r -> a <> "" -> unmarshal v = Some x -> (local = rules r \/ local = <[a := with_alias x a]> (rules r)) ->
  forall o, convergent (mkEtcd (prefix r) (<[keyOf (prefix r) a := v]> (store r))
              (pending r ++ [EventPut (keyOf (prefix r) a) v]) local o).
Proof.
  intros C Hne U L o b. simpl. rewrite last_effect_snoc. unfold effect, store_rule. specialize (C b). unfold store_rule in C.
  destruct (decide (b = "")) as [->|Hb].
  { rewrite <-C. destruct L as [-> | ->]; [done|]. by rewrite lookup_insert_ne. }
  destruct (decide (a = b)) as [<-|N].
  - rewrite decide_True, U, lookup_insert_eq by done. simpl. by rewrite U.
  - rewrite decide_False by (intros E; by apply keyOf_inj in E). rewrite lookup_insert_ne by (intros E; by apply keyOf_inj in E).
    rewrite <-C. destruct L as [-> | ->]; [done|]. by rewrite lookup_insert_ne.
Qed.

Lemma foreign_convergent r key v :
  convergent r -> (forall a, a <> "" -> key <> keyOf (prefix r) a) -> forall o,
  convergent (mkEtcd (prefix r) (<[key := v]> (store r)) (pending r ++ [EventPut key v]) (rules r) o).
Proof.
  intros C F o b. simpl. rewrite last_effect_snoc. unfold effect, store_rule. specialize (C b). unfold store_rule in C.
  destruct (decide (b = "")) as [->|Hb]; [done|]. rewrite decide_False by auto. rewrite lookup_insert_ne by auto. done.
Qed.

Lemma delete_convergent r key local :
  convergent r -> (local = rules r \/ exists a, a <> "" /\ key = keyOf (prefix r) a /\ local = delete a (rules r)) -> forall o,
  convergent (mkEtcd (prefix r) (delete key (store r))
    (match store r !! key with Some _ => pending r ++ [EventDelete key] | None => pending r end) local o).
Proof.
  intros C L o b. simpl. specialize (C b). unfold store_rule in *. destruct (decide (b = "")) as [->|Hb].
  { assert (forall e, effect (prefix r) "" e = None) as He by done.
    destruct (store r !! key); rewrite ?last_effect_snoc, ?He; destruct L as [->|(a & ? & _ & ->)]; rewrite ?lookup_delete_ne; done. }
  destruct (decide (key = keyOf (prefix r) b)) as [->|N].
  - rewrite lookup_delete_eq. destruct (store r !! keyOf (prefix r) b) eqn:E.
    + rewrite last_effect_snoc. unfold effect. by rewrite decide_False, decide_True.
    + rewrite ?E in C. destruct (last_effect _ b _); [done|]. simpl in *. destruct L as [->|(a & _ & Ea & ->)]; [done|].
      apply keyOf_inj in Ea as ->. by rewrite lookup_delete_eq.
  - rewrite lookup_delete_ne by done. rewrite <-C.
    assert (local !! b = rules r !! b) as -> by (destruct L as [->|(a & _ & -> & ->)]; [done|]; apply lookup_delete_ne; by intros ->).
    destruct (store r !! key); [|done]. rewrite last_effect_snoc. unfold effect. by rewrite decide_False, decide_False.
Qed.

(** * Interleavings *)

Inductive op :=
| OPut (now : Time) (r : Rule) (by_ : string) | ODelete (a : string) | OSetActive (now : Time) (a : string) (b : bool) (by_ : string)
| ORemotePut (key value : string) | ORemoteDelete (key : string) | ODeliver (n : nat).

Definition exec (r : EtcdRegistry) (o : op) : EtcdRegistry :=
  match o with
  | OPut now x by_ => (Etcd_Put marshal r now x by_).1.1
  | ODelete a => (Etcd_Delete r a).1
  | OSetActive now a b by_ => (Etcd_SetActive marshal r now a b by_).1
  | ORemotePut k v => remote_put r k v
  | ORemoteDelete k => remote_delete r k
  | ODeliver n => deliver unmarshal r n
  end.
Definition run (r : EtcdRegistry) (os : list op) : EtcdRegistry := fold_left exec os r.

(** Others write values that parse. *)
Definition op_ok (o : op) : Prop := match o with ORemotePut _ v => is_Some (unmarshal v) | _ => True end.

Lemma Etcd_Put_convergent r now x by_ : convergent r -> convergent (Etcd_Put marshal r now x by_).1.1.
Proof.
  intros C. unfold Etcd_Put, put_begin. destruct (Validate_iff x) as [V1 V2]. destruct (Validate x) as [x' [e|]]; simpl in V1, V2; [done|].
  destruct (marshal (stamped x' now by_)) as [v|] eqn:M; [|done]. apply json_roundtrip in M.
  unfold server_put. destruct (next_outcome r) as [[] o]; simpl; [|exact C].
  assert (Alias x' <> "") as Hne by (subst x'; apply V2; done).
  apply (put_convergent r (Alias x') v (stamped x' now by_)); [done..|]. right. by destruct x'.
Qed.

Lemma Etcd_Delete_convergent r a : convergent r -> convergent (Etcd_Delete r a).1.
Proof.
  intros C. unfold Etcd_Delete. destruct (rules r !! a) eqn:E; [|done]. unfold server_delete.
  destruct (next_outcome r) as [[] o]; simpl; [|exact C].
  destruct (decide (a = "")) as [->|Hne].
  - pose proof (C "") as C0. unfold store_rule in C0. rewrite decide_True, E in C0 by done.
    assert (forall evs, last_effect (prefix r) "" evs = None) as L; [|by rewrite L in C0].
    induction evs using rev_ind; [done|]. by rewrite last_effect_snoc.
  - apply (delete_convergent r); [done|]. right. eauto.
Qed.

Lemma exec_convergent r o : convergent r -> op_ok o -> convergent (exec r o).
Proof.
  intros C. destruct o as [now x by_|a|now a b by_|k v|k|n]; simpl; intros Ho.
  - by apply Etcd_Put_convergent.
  - by apply Etcd_Delete_convergent.
  - unfold Etcd_SetActive. destruct (rules r !! a) as [cur|]; [|done].
    pose proof (Etcd_Put_convergent r now (with_active cur b) by_ C) as P. by destruct (Etcd_Put _ _ _ _ _) as [[r' x'] e].
  - destruct Ho as [x U]. unfold remote_put. destruct (decide (aliasFromKey (prefix r) k = "")) as [N|N].
    + apply (foreign_convergent r); [done|]. intros a Hne E%aliasFromKey_iff; [congruence|done].
    + rewrite (proj1 (aliasFromKey_iff (prefix r) k _ N) eq_refl). by apply (put_convergent r _ v x); [..|left].
  - apply (delete_convergent r); [done|]. by left.
  - intros a. simpl. pose proof (C a) as Ca. rewrite <-(take_drop n (pending r)), last_effect_app in Ca.
    rewrite applyEvents_lookup, <-Ca. by destruct (last_effect _ a (drop n _)).
Qed.

Lemma run_convergent os r : convergent r -> Forall op_ok os -> convergent (run r os).
Proof.
  unfold run. intros C F. revert r C. induction F as [|o os Ho F IH]; intros r C; simpl; [done|].
  by apply IH, exec_convergent.
Qed.

(** The cache follows the store: after the initial load, for every interleaving of
    this instance's writes, deletions and activations (with any of them failing),
    writes and deletions of other instances, and deliveries of watch events, once the
    outstanding events have been delivered the cache answers every alias with what the
    store holds under its key, and lists exactly those rules. *)
Theorem cache_converges (p : string) (st : gmap string string) (o : list bool) (os : list op) :
  Forall op_ok os ->
  let r0 := run (NewEtcdRegistry unmarshal p st o) os in
  let r := deliver unmarshal r0 (length (pending r0)) in
  pending r = [] /\ store r = store r0 /\
  (forall a, Etcd_Get r a = match store_rule (prefix r) (store r) a with Some x => Ok x | None => Err ErrRouteNotFound end) /\
  (forall x, x ∈ Etcd_List r <-> store_rule (prefix r) (store r) (Alias x) = Some x).
Proof.
  intros F r0 r. assert (convergent r0) as C by (apply run_convergent; [apply New_convergent|done]).
  assert (forall a, rules r !! a = store_rule (prefix r) (store r) a) as Cr.
  { intros a. pose proof (exec_convergent r0 (ODeliver (length (pending r0))) C I a) as Ca. simpl in Ca.
    rewrite drop_all in Ca. exact Ca. }
  assert (keyed (rules r)) as K.
  { intros a x E. rewrite Cr in E. unfold store_rule in E. destruct (decide _); [done|].
    destruct (store r !! _) as [v|]; [|done]. destruct (unmarshal v); [|done]. by injection E as <-. }
  split; [apply drop_all|]. split; [done|]. split.
  - intros a. unfold Etcd_Get. by rewrite Cr.
  - intros x. rewrite <-Cr. by apply elem_list_view.
Qed.

(** The write to the server and the update of the cache are two steps. When another
    instance writes the same alias in between and both events arrive before the second
    step, the cache is left with the older rule although nothing is outstanding. *)
Lemma late_cache_update r now x by_ r1 x' cp v y :
  put_begin marshal r now x by_ = (r1, x', inl cp) -> pending r = [] ->
  unmarshal v = Some y -> with_alias y (Alias cp) <> cp ->
  let r2 := remote_put r1 (keyOf (prefix r) (Alias cp)) v in
  let r4 := put_cache (deliver unmarshal r2 2) cp in
  pending r4 = [] /\ Etcd_Get r4 (Alias cp) = Ok cp /\
  store_rule (prefix r4) (store r4) (Alias cp) = Some (with_alias y (Alias cp)).
Proof.
  unfold put_begin. destruct (Validate_iff x) as [V1 V2]. destruct (Validate x) as [x1 [e|]]; [done|]. simpl in V1, V2.
  destruct (marshal _) as [w|]; [|done]. unfold server_put. destruct (next_outcome r) as [[] o]; [|done].
  intros [= <- <- <-] Hp U Hne. simpl. rewrite Hp. simpl. split; [done|]. unfold Etcd_Get, store_rule. simpl.
  rewrite !lookup_insert_eq, U. split; [done|]. rewrite decide_False; [done|]. subst x1. by apply V2.
Qed.
End sync.

#[export] Instance Time_countable : Countable Time :=
  inj_countable' (fun t => (t_ns t, t_off t)) (fun p => mkTime p.1 p.2) ltac:(by intros []).
#[export] Instance Rule_countable : Countable Rule :=
  inj_countable' (fun r => (Alias r, Exchange r, RoutingKey r, Active r, Comment r, UpdatedAt r, UpdatedBy r))
    (fun '(a, x, k, b, c, t, u) => mkRule a x k b c t u) ltac:(by intros []).

Lemma cache_converges_witness :
  let u := of_text (A := Rule) in let w r := Some (to_text (A := Rule) r) in
  let os := [OPut (mkTime 1 0) (demo_rule "A" "K1" true) "ops"; ORemotePut "r/A" (to_text (demo_rule "A" "K2" true)); ODeliver 1;
             OPut (mkTime 2 0) (demo_rule "B" "K" true) "ops"; ORemoteDelete "r/B"] in
  let r0 := run w u (NewEtcdRegistry u "r" ∅ [true]) os in
  let r := deliver u r0 (length (pending r0)) in
  length (pending r0) = 3%nat /\ pending r = [] /\ Etcd_Get r "A" = Ok (demo_rule "A" "K2" true) /\ Etcd_Get r "B" = Err ErrRouteNotFound.
Proof.
  intros u w os r0 r. assert (Forall (op_ok u) os) as F.
  { unfold os. repeat constructor. simpl. unfold u. rewrite of_to_text. by eexists. }
  destruct (cache_converges w u ltac:(intros x v [= <-]; apply of_to_text) "r" ∅ [true] os F) as (P & _ & G & _).
  split; [vm_compute; reflexivity|]. split; [exact P|].
  split; [etrans; [apply G|]; vm_compute; reflexivity|]. etrans; [apply G|]. vm_compute. reflexivity.
Defined.

(** * Seeding
    Seeding the routing table from a configuration file
    (src/pkg/routing/dev_seed.go): what the two policies leave in the in-process
    table. *)

(** A configuration entry that is stored under the alias it is written with. *)
Definition seed_ok (s : Rule) : Prop := TrimSpace (Alias s) = Alias s /\ rule_ok s.
Definition seeded (now : Time) (s : Rule) : Rule := stamped s now "dev-seed".
Definition seed_table (now : Time) (seeds : list Rule) : gmap string Rule :=
  list_to_map (map (fun s => (Alias s, seeded now s)) seeds).

Lemma Put_seed reg now s : seed_ok s -> Mem.Put reg now s "dev-seed" = (<[Alias s := seeded now s]> reg, s, None).
Proof.
  intros [T O]. unfold Mem.Put. destruct (Validate_iff s) as [V1 V2]. rewrite T in V1, V2.
  assert (with_alias s (Alias s) = s) as E by (by destruct s). rewrite E in V1, V2.
  destruct (Validate s) as [s' e]. simpl in *. subst s'. apply V2 in O as ->. done.
Qed.

(** The loop over the entries: additive seeding lets the table win, synchronising
    the configuration. *)
Definition merged (policy : SeedPolicy) (old new : option Rule) : option Rule :=
  match policy with
  | PolicyAdditive => match old with Some r => Some r | None => new end
  | PolicySync => match new with Some r => Some r | None => old end
  end.

Lemma seed_step_lookup now policy reg c s :
  seed_ok s ->
  let '(reg', c') := seed_step now policy (reg, c) s in
  (forall a, reg' !! a = merged policy (reg !! a) (if decide (a = Alias s) then Some (seeded now s) else None)) /\
  removed c' = removed c /\ (added c' + updated c' + skipped c' = S (added c + updated c + skipped c))%nat.
Proof.
  intros Hs. unfold seed_step. cbn [Get mem_registry Put]. unfold Mem.Get. rewrite Put_seed by done.
  destruct (reg !! Alias s) as [x|] eqn:E, policy; simpl; (split; [|split; [done|lia]]); intros a;
    destruct (decide (a = Alias s)) as [->|N]; rewrite ?lookup_insert_eq, ?lookup_insert_ne, ?E by done; try done; by destruct (reg !! a).
Qed.

Lemma seed_loop now policy seeds reg c :
  Forall seed_ok seeds -> NoDup (map Alias seeds) ->
  let '(reg', c') := fold_left (seed_step now policy) seeds (reg, c) in
  (forall a, reg' !! a = merged policy (reg !! a) (seed_table now seeds !! a)) /\ removed c' = removed c /\
  (added c' + updated c' + skipped c' = added c + updated c + skipped c + length seeds)%nat.
Proof.
  intros F. revert reg c. induction F as [|s seeds Hs F IH]; intros reg c ND.
  { simpl. split; [|split; [done|lia]]. intros a. unfold seed_table. simpl. rewrite lookup_empty.
    destruct policy; simpl; by destruct (reg !! a). }
  simpl in ND. inversion ND as [|? ? Hn ND']; subst. cbn [fold_left].
  pose proof (seed_step_lookup now policy reg c s Hs) as S1. destruct (seed_step now policy (reg, c) s) as [reg1 c1].
  destruct S1 as (L1 & R1 & N1). specialize (IH reg1 c1 ND'). destruct (fold_left _ seeds _) as [reg' c'].
  destruct IH as (L2 & R2 & N2). split; [|split; [congruence|simpl; lia]]. intros a. rewrite L2, L1.
  assert (seed_table now seeds !! Alias s = None) as Hno.
  { apply not_elem_of_list_to_map_1. by rewrite <-list_fmap_compose. }
  unfold seed_table. cbn [map list_to_map foldr fst snd]. change (list_to_map (map _ seeds)) with (seed_table now seeds).
  destruct (decide (a = Alias s)) as [->|N].
  - rewrite lookup_insert_eq, Hno. by destruct policy; simpl; destruct (reg !! Alias s).
  - rewrite lookup_insert_ne by done. by destruct policy; simpl; destruct (reg !! a), (seed_table now seeds !! a).
Qed.

(** Pruning removes the listed aliases the configuration does not have. *)
Lemma prune_loop cfg l reg c :
  NoDup (map Alias l) -> (forall r, r ∈ l -> is_Some (reg !! Alias r)) ->
  let '(reg', c') := fold_left (prune_step cfg) l (reg, c) in
  (forall a, reg' !! a = if decide (a ∈ map Alias l /\ a ∉ cfg) then None else reg !! a) /\
  added c' = added c /\ updated c' = updated c /\ skipped c' = skipped c.
Proof.
  revert reg c. induction l as [|r l IH]; intros reg c ND Hin.
  { cbn [fold_left]. split; [|done]. intros a. destruct (decide _) as [[H _]|]; [|done]. by apply elem_of_nil in H. }
  simpl in ND. inversion ND as [|? ? Hn ND']; subst. cbn [fold_left]. unfold prune_step at 2. destruct (decide (Alias r ∈ cfg)) as [Hc|Hc].
  - specialize (IH reg c ND'). destruct (fold_left _ l _) as [reg' c']. destruct IH as [L C]; [intros; apply Hin; by right|].
    split; [|done]. intros a. rewrite L. apply decide_ext. simpl. rewrite elem_of_cons. split; [tauto|]. intros [[->|?] ?]; done.
  - cbn [Delete mem_registry]. unfold Mem.Delete. destruct (Hin r) as [x Hx]; [by left|]. rewrite Hx.
    match goal with |- context [fold_left _ l (delete _ _, ?c2)] => specialize (IH (delete (Alias r) reg) c2 ND') end.
    destruct (fold_left _ l _) as [reg' c']. destruct IH as [L C].
    { intros y Hy. destruct (decide (Alias y = Alias r)) as [E|E].
      - destruct Hn. rewrite <-E. by apply list_elem_of_fmap_2.
      - rewrite lookup_delete_ne by done. apply Hin. by right. }
    split; [|exact C]. intros a. rewrite L. simpl. destruct (decide (a = Alias r)) as [->|N].
    + rewrite lookup_delete_eq. rewrite (decide_True (P := Alias r ∈ Alias r :: map Alias l /\ _)) by (split; [by left|done]).
      by destruct (decide _).
    + rewrite lookup_delete_ne by done. apply decide_ext. rewrite elem_of_cons. tauto.
Qed.

Lemma aliases_list_view m : keyed m -> map Alias (list_view m) ≡ₚ (map_to_list m).*1.
Proof.
  intros K. unfold list_view, sort_rules. rewrite (insertion_sort_perm _ (map_to_list m).*2).
  rewrite <-list_fmap_compose. apply reflexive_eq. apply list_fmap_ext. intros i [k x] Hi. simpl.
  apply (K k x). apply elem_of_map_to_list. by eapply list_elem_of_lookup_2.
Qed.

Lemma seed_table_None now seeds a : seed_table now seeds !! a = None <-> a ∉ map Alias seeds.
Proof.
  unfold seed_table. split.
  - intros H. apply not_elem_of_list_to_map_2 in H. by rewrite <-list_fmap_compose in H.
  - intros H. apply not_elem_of_list_to_map_1. by rewrite <-list_fmap_compose.
Qed.

Lemma seeded_keyed now policy seeds reg reg' :
  keyed reg -> (forall a, reg' !! a = merged policy (reg !! a) (seed_table now seeds !! a)) -> keyed reg'.
Proof.
  intros K L a r. rewrite L. assert (forall x, seed_table now seeds !! a = Some x -> Alias x = a) as Ks.
  { intros x Hx. unfold seed_table in Hx. apply elem_of_list_to_map_2, list_elem_of_fmap in Hx as (y & [= -> ->] & _). done. }
  destruct policy; simpl; destruct (reg !! a) eqn:E1, (seed_table now seeds !! a) eqn:E2; intros [= ->]; eauto.
Qed.

(** Seeding with well-formed entries of distinct aliases: under the additive
    policy every rule already in the table is kept as it is and the missing ones are
    added; under the synchronising policy the table becomes exactly the
    configuration. Every entry is counted once as added, updated or skipped. *)
Theorem applyRules_correct (reg : Mem.InMemoryRegistry) (now : Time) (seeds : list Rule) (policy : SeedPolicy) :
  Forall seed_ok seeds -> NoDup (map Alias seeds) -> keyed reg ->
  let '(reg', c) := applyRules reg now seeds policy in
  (forall a, reg' !! a = match policy with
     | PolicyAdditive => match reg !! a with Some r => Some r | None => seed_table now seeds !! a end
     | PolicySync => seed_table now seeds !! a end) /\
  (added c + updated c + skipped c = length seeds)%nat.
Proof.
  intros F ND K. unfold applyRules. pose proof (seed_loop now policy seeds reg (mkCounts 0 0 0 0) F ND) as S.
  destruct (fold_left _ seeds _) as [reg1 c1]. destruct S as (L & _ & N). destruct policy; [by split|].
  cbn [fst List_ mem_registry]. pose proof (seeded_keyed now PolicySync seeds reg reg1 K L) as K1.
  pose proof (prune_loop (list_to_set (map Alias seeds)) (Mem.List_ reg1) reg1 c1) as P.
  destruct (fold_left _ _ (reg1, c1)) as [reg' c']. change (Mem.List_ reg1) with (list_view reg1) in P.
  destruct P as (P & -> & -> & ->).
  - rewrite aliases_list_view by done. apply NoDup_fst_map_to_list.
  - intros r Hr. apply elem_list_view in Hr; [|done]. by rewrite Hr.
  - split; [|done]. intros a. rewrite P. destruct (decide _) as [[H1 H2]|H].
    + symmetry. apply seed_table_None. by rewrite elem_of_list_to_set in H2.
    + rewrite L. simpl. destruct (seed_table now seeds !! a) as [x|] eqn:E; [done|]. destruct (reg !! a) as [r|] eqn:Ea; [|done].
      destruct H. rewrite elem_of_list_to_set, aliases_list_view by done. split; [|by apply seed_table_None in E].
      apply list_elem_of_fmap. exists (a, r). split; [done|]. apply elem_of_map_to_list. by rewrite L, E.
Qed.

Lemma applyRules_correct_witness :
  let reg' := (applyRules demo_table (mkTime 5 0) [demo_rule "W1101" "ON" true; demo_rule "NEW" "N" true] PolicySync).1 in
  reg' !! "W1101" = Some (seeded (mkTime 5 0) (demo_rule "W1101" "ON" true)) /\ reg' !! "W1*" = None /\ reg' !! "NEW" <> None.
Proof.
  pose proof (applyRules_correct demo_table (mkTime 5 0) [demo_rule "W1101" "ON" true; demo_rule "NEW" "N" true] PolicySync) as H.
  destruct (applyRules _ _ _ _) as [reg' c]. destruct H as [H _].
  - repeat constructor; try (vm_compute; discriminate); try (vm_compute; lia).
  - apply NoDup_cons; split; [|apply NoDup_singleton]. intros H. apply list_elem_of_singleton in H. discriminate.
  - apply demo_keyed.
  - simpl. rewrite !H. split; [vm_compute; reflexivity|]. split; [vm_compute; reflexivity|]. vm_compute. discriminate.
Defined.

(** An alias written with surrounding white space is stored under its trimmed name,
    which the synchronising policy does not find in the configuration: the rule is
    added and removed in the same pass. *)
Lemma sync_drops_padded now :
  let '(reg', c) := applyRules (∅ : Mem.InMemoryRegistry) now [demo_rule " ORDER_NEW" "NEW" true] PolicySync in
  reg' = ∅ /\ added c = 1%nat /\ removed c = 1%nat.
Proof. by vm_compute. Qed.
