(* ===== verification/RateLimit.v ===== *)
(** Rate limiting (src/pkg/ratelimit): request keys, path rules with their patterns,
    the rule set and its hot swap, the in-process limiter with idle eviction, and the
    token bucket script of the Redis limiter. The clock is an argument, in
    nanoseconds.

    The laws follow the definitions. *)

From Stdlib Require Import ZArith Lia QArith Strings.Ascii Lqa.
From S2P Require Import Prelude GoStrings Float64.
Local Open Scope Z_scope.

(** * Request keys *)

(** [net.ParseIP] followed by [IP.String], as one function of the host text. *)
Section keys.
Context (canonical_ip : string -> option string).

(** The text before the last occurrence of [c]. *)
Fixpoint before_last (c : ascii) (s : string) : option string :=
  match s with
  | "" => None
  | String d s' =>
      match before_last c s' with
      | Some p => Some (String d p)
      | None => if Ascii.eqb d c then Some "" else None
      end
  end.

Definition IPKey (remoteAddr : string) : string :=
  let host := match before_last ":"%char remoteAddr with
              | Some p => if decide (p = "") then remoteAddr else p
              | None => remoteAddr end in
  let host := TrimSuffix (TrimPrefix host "[") "]" in
  match canonical_ip host with Some ip => ip | None => host end.

(** [header] is the value of the configured header. *)
Definition UserOrIPKey (header remoteAddr : string) : string :=
  if decide (header = "") then "ip:" +:+ IPKey remoteAddr else "user:" +:+ header.

Definition SplitKey (key : string) : string * string :=
  match IndexByte key ":"%char with
  | Some (S _ as i) =>
      let p := str_take i key in
      if bool_decide (p = "user") || bool_decide (p = "ip") then (p, str_drop (S i) key) else ("ip", key)
  | _ => ("ip", key)
  end.
End keys.

(** * Patterns

    [path.Match] of the Go library on single-byte characters: a pattern is parsed
    into items; a malformed pattern is an error whatever the name. *)
Inductive item :=
| Lit (c : ascii) | AnyChar | Star | Class (neg : bool) (ranges : list (ascii * ascii)).

(** [getEsc]: one possibly escaped character of a class; more text must follow. *)
Definition getEsc (s : string) : option (ascii * string) :=
  match s with
  | "" => None
  | String "-" _ => None
  | String "]" _ => None
  | String "\" (String c (String d s')) => Some (c, String d s')
  | String "\" _ => None
  | String c (String d s') => Some (c, String d s')
  | _ => None
  end.

Fixpoint class_ranges (fuel : nat) (acc : list (ascii * ascii)) (s : string) : option (list (ascii * ascii) * string) :=
  match fuel with
  | O => None
  | S fuel =>
      match s, acc with
      | String "]" s', _ :: _ => Some (rev acc, s')
      | _, _ =>
          match getEsc s with
          | None => None
          | Some (lo, String "-" s') =>
              match getEsc s' with Some (hi, s'') => class_ranges fuel ((lo, hi) :: acc) s'' | None => None end
          | Some (lo, s') => class_ranges fuel ((lo, lo) :: acc) s'
          end
      end
  end.

Fixpoint parse_glob (fuel : nat) (s : string) : option (list item) :=
  match fuel with
  | O => None
  | S fuel =>
      match s with
      | "" => Some []
      | String "*" s' => option_map (cons Star) (parse_glob fuel s')
      | String "?" s' => option_map (cons AnyChar) (parse_glob fuel s')
      | String "\" (String c s') => option_map (cons (Lit c)) (parse_glob fuel s')
      | String "\" "" => None
      | String "[" s' =>
          let '(neg, s') := match s' with String "^" s'' => (true, s'') | _ => (false, s') end in
          match class_ranges (S (String.length s')) [] s' with
          | Some (rs, s'') => option_map (cons (Class neg rs)) (parse_glob fuel s'')
          | None => None
          end
      | String c s' => option_map (cons (Lit c)) (parse_glob fuel s')
      end
  end.
Definition glob (s : string) : option (list item) := parse_glob (S (String.length s)) s.

Definition in_range (c : ascii) (r : ascii * ascii) : bool :=
  (nat_of_ascii r.1 <=? nat_of_ascii c)%nat && (nat_of_ascii c <=? nat_of_ascii r.2)%nat.

(** [matchChunk]: the rest of the name after a run of items without stars. *)
Fixpoint matchChunk (chunk : list item) (s : string) : option string :=
  match chunk, s with
  | [], _ => Some s
  | _, "" => None
  | i :: chunk, String c s' =>
      if match i with
         | Lit d => Ascii.eqb c d
         | AnyChar => negb (Ascii.eqb c "/")
         | Class neg rs => xorb neg (existsb (in_range c) rs)
         | Star => false
         end then matchChunk chunk s' else None
  end.

(** [scanChunk]: leading stars, the items up to the next star, the rest. *)
Fixpoint drop_stars (p : list item) : bool * list item :=
  match p with Star :: p => (true, (drop_stars p).2) | _ => (false, p) end.
Fixpoint take_chunk (p : list item) : list item * list item :=
  match p with
  | [] => ([], [])
  | Star :: _ => ([], p)
  | i :: p => let '(c, r) := take_chunk p in (i :: c, r)
  end.

(** The last chunk must exhaust the name. *)
Definition chunk_at (chunk : list item) (last : bool) (s : string) : option string :=
  match matchChunk chunk s with
  | Some t => if bool_decide (t = "") || negb last then Some t else None
  | None => None
  end.
(** After a star: the first position, short of a slash, where the chunk matches. *)
Fixpoint skip (chunk : list item) (last : bool) (s : string) : option string :=
  match chunk_at chunk last s with
  | Some t => Some t
  | None => match s with String c s' => if Ascii.eqb c "/" then None else skip chunk last s' | "" => None end
  end.

Fixpoint match_items (fuel : nat) (p : list item) (name : string) : bool :=
  match fuel, p with
  | _, [] => bool_decide (name = "")
  | O, _ => false
  | S fuel, _ =>
      let '(star, p) := drop_stars p in
      let '(chunk, rest) := take_chunk p in
      let last := match rest with [] => true | _ => false end in
      if star && match chunk with [] => true | _ => false end then negb (any_char (Ascii.eqb "/"%char) name)
      else match (if star then skip chunk last name else chunk_at chunk last name) with
           | Some t => match_items fuel rest t
           | None => false
           end
  end.

Definition path_Match (pattern name : string) : option bool :=
  option_map (fun p => match_items (S (length p)) p name) (glob pattern).

(** * Rules *)

Record Rule := mkRule { Pattern : string; Rate : f64; Burst : Z }.
Record Config := mkConfig { RatePerSec : f64; c_Burst : Z; IdleEviction : Z }.

Inductive RuleErr := ErrEmptyPattern | ErrBadGlob | ErrNegative.

Definition isHTTPMethod (s : string) : bool :=
  existsb (fun x => bool_decide (ToUpper s = x)) ["GET"; "POST"; "PUT"; "DELETE"; "PATCH"; "HEAD"; "OPTIONS"].

Definition parsePattern (pat : string) : res RuleErr (string * string) :=
  let pat := TrimSpace pat in
  if decide (pat = "") then Err ErrEmptyPattern
  else if decide (pat = "*") then Ok ("", "*")
  else match cut " "%char pat with
       | Some (a, b) => if isHTTPMethod a then Ok (ToUpper a, TrimSpace b) else Ok ("", pat)
       | None => Ok ("", pat)
       end.

(** [AllowLimiter]: the limiters of the rules, and the factories that make them. *)
Class AllowLimiter (L : Type) := {
  ruleFactory : Rule -> L; fallbackFactory : Config -> L;
  lim_Allow : L -> Z -> string -> L * bool }.

Section ruleset.
Context {L : Type} `{AllowLimiter L}.

Record compiledRule := mkCompiled { cr_Rule : Rule; method : string; pathGlob : string; limiter : L }.
Record ruleSetData := mkData { rules : list compiledRule; fallback : option L }.

Definition compile_rule (r : Rule) : res RuleErr compiledRule :=
  '(m, g) ← parsePattern (Pattern r);
  match path_Match g "/probe" with
  | None => Err ErrBadGlob
  | Some _ =>
      if fltb (Rate r) f0 || (Burst r <? 0) then Err ErrNegative
      else Ok (mkCompiled r m g (ruleFactory r))
  end.
Fixpoint compile_rules (rs : list Rule) : res RuleErr (list compiledRule) :=
  match rs with
  | [] => Ok []
  | r :: rs => c ← compile_rule r; cs ← compile_rules rs; Ok (c :: cs)
  end.
Definition compile (rs : list Rule) (fallbackCfg : option Config) : res RuleErr ruleSetData :=
  cs ← compile_rules rs; Ok (mkData cs (option_map fallbackFactory fallbackCfg)).

(** The running data after [Replace], with the error it returns: a rule set that
    does not compile changes nothing. *)
Definition Replace (d : ruleSetData) (rs : list Rule) (fallbackCfg : option Config) : ruleSetData * option RuleErr :=
  match compile rs fallbackCfg with Ok d' => (d', None) | Err e => (d, Some e) | Panic => (d, None) end.

Definition rule_matches (meth urlPath : string) (r : compiledRule) : bool :=
  (bool_decide (method r = "") || bool_decide (method r = meth)) &&
  (bool_decide (pathGlob r = "*") || match path_Match (pathGlob r) urlPath with Some b => b | None => false end).

(** Which limiter answers: the position of a rule, or the fallback. *)
Inductive target := ToRule (i : nat) | ToFallback.
Fixpoint match_rules (meth urlPath : string) (i : nat) (rs : list compiledRule) : option (target * string) :=
  match rs with
  | [] => None
  | r :: rs => if rule_matches meth urlPath r then Some (ToRule i, Pattern (cr_Rule r)) else match_rules meth urlPath (S i) rs
  end.
Definition Match (d : ruleSetData) (meth urlPath : string) : option (target * string) :=
  match match_rules meth urlPath 0 (rules d) with
  | Some x => Some x
  | None => match fallback d with Some _ => Some (ToFallback, "default") | None => None end
  end.

Definition set_limiter (l : L) (r : compiledRule) : compiledRule := mkCompiled (cr_Rule r) (method r) (pathGlob r) l.

Definition Allow (d : ruleSetData) (now : Z) (meth urlPath key : string) : ruleSetData * (string * bool) :=
  match Match d meth urlPath with
  | None => (d, ("", true))
  | Some (ToRule i, name) =>
      match rules d !! i with
      | Some r => let '(l, b) := lim_Allow (limiter r) now key in
                  (mkData (<[i := set_limiter l r]> (rules d)) (fallback d), (name, b))
      | None => (d, (name, true))
      end
  | Some (ToFallback, name) =>
      match fallback d with
      | Some l => let '(l, b) := lim_Allow l now key in (mkData (rules d) (Some l), (name, b))
      | None => (d, (name, true))
      end
  end.

(** The decision of the middleware, with the counter it bumps. *)
Inductive verdict := Serve | Refuse429 (rule : string).
Inductive counter := OnAllowed (rule kind : string) | OnDenied (rule kind : string).
Definition MiddlewareRules (d : ruleSetData) (now : Z) (meth urlPath key : string) : ruleSetData * verdict * list counter :=
  if decide (key = "") then (d, Serve, [])
  else
    let '(d, (rule, allowed)) := Allow d now meth urlPath key in
    if decide (rule = "") then (d, Serve, [])
    else
      let kind := (SplitKey key).1 in
      if allowed then (d, Serve, [OnAllowed rule kind]) else (d, Refuse429 rule, [OnDenied rule kind]).
End ruleset.
Arguments compiledRule : clear implicits. Arguments ruleSetData : clear implicits.

(** * The in-process limiter

    [rate.Limiter] of golang.org/x/time is a parameter: a bucket, its creation and one
    [Allow] at an instant. *)
Class TokenBucket (B : Type) := { NewLimiter_bucket : f64 -> Z -> B; bucket_Allow : B -> Z -> B * bool }.

Section limiter.
Context {B : Type} `{TokenBucket B}.

Record entry := mkEntry { e_limiter : B; lastUsed : Z }.
Record Limiter := mkLimiter { l_rate : f64; l_burst : Z; idle : Z; keys : gmap string entry }.

Definition default_idle : Z := 5 * 60 * 1000000000.
Definition NewLimiter (cfg : Config) : Limiter :=
  mkLimiter (RatePerSec cfg) (c_Burst cfg) (if IdleEviction cfg <=? 0 then default_idle else IdleEviction cfg) ∅.

Definition entryFor (l : Limiter) (key : string) : entry :=
  match keys l !! key with Some e => e | None => mkEntry (NewLimiter_bucket (l_rate l) (l_burst l)) 0 end.

Definition Limiter_Allow (l : Limiter) (now : Z) (key : string) : Limiter * bool :=
  let e := entryFor l key in
  let '(b, ok) := bucket_Allow (e_limiter e) now in
  (mkLimiter (l_rate l) (l_burst l) (idle l) (<[key := mkEntry b now]> (keys l)), ok).

(** One pass of [evictionLoop]. *)
Definition evict (l : Limiter) (now : Z) : Limiter :=
  let cutoff := now - idle l in
  mkLimiter (l_rate l) (l_burst l) (idle l) (filter (fun p => cutoff <= lastUsed p.2) (keys l)).
End limiter.
Arguments entry : clear implicits. Arguments Limiter : clear implicits.

#[export] Instance mem_limiter {B} `{TokenBucket B} : AllowLimiter (Limiter B) := {|
  ruleFactory r := NewLimiter (mkConfig (Rate r) (Burst r) 0); fallbackFactory := NewLimiter; lim_Allow := Limiter_Allow |}.

(** * The Redis token bucket

    The Lua script of redis.go on one key: [data] is the stored hash. Lua's numbers
    are exact rationals here; an expired key is an absent one. *)
Section script.
Local Open Scope Q_scope.
Record bucket := mkBucket { tokens : Q; ts : Q }.
Definition luaTokenBucket (rate burst cost now : Q) (data : option bucket) : bucket * bool :=
  let b := match data with Some b => b | None => mkBucket burst now end in
  let elapsed := now - ts b in
  let tk := if Qle_bool elapsed 0 then tokens b
            else let x := tokens b + elapsed * rate in if Qle_bool burst x then burst else x in
  if Qle_bool cost tk then (mkBucket (tk - cost) now, true) else (mkBucket tk now, false).

(** [allowAt]: a failed call, or an answer that is not an integer, lets the request
    pass and is counted. *)
Inductive eval_result := EvalInt (n : Z) | EvalOther | EvalError.
Definition allowAt (failCount : Z) (r : eval_result) : Z * bool :=
  match r with
  | EvalError => ((failCount + 1)%Z, true)
  | EvalOther => ((failCount + 1)%Z, true)
  | EvalInt n => (failCount, (n =? 1)%Z)
  end.

Definition rule_key (service pattern key : string) : string := "wtg:rl:" +:+ service +:+ ":" +:+ pattern +:+ ":" +:+ key.
End script.

(** * Laws
    What rate limiting guarantees: keys round trip, the first matching rule decides,
    bad rule sets change nothing, limits are per key, eviction is invisible, and the
    Redis bucket never lets more through than its rate and burst allow when the
    callers' clocks do not go back. *)

(** * Keys *)

(** The kind and the identifier packed into a limiter key are recovered from it,
    also when they contain colons (IPv6 addresses, user names). *)
Theorem SplitKey_roundtrip (canonical_ip : string -> option string) (header remoteAddr : string) :
  SplitKey (UserOrIPKey canonical_ip header remoteAddr) =
  if decide (header = "") then ("ip", IPKey canonical_ip remoteAddr) else ("user", header).
Proof. unfold UserOrIPKey. by destruct (decide (header = "")). Qed.

(** * Patterns *)

Definition special (c : ascii) : bool := existsb (Ascii.eqb c) ["*"%char; "?"%char; "["%char; "\"%char].

Fixpoint chars (s : string) : list ascii := match s with "" => [] | String c s => c :: chars s end.

Lemma parse_lit_cons fuel c s : special c = false ->
  parse_glob (S fuel) (String c s) = option_map (cons (Lit c)) (parse_glob fuel s).
Proof. destruct c as [[] [] [] [] [] [] [] []]; (reflexivity || discriminate). Qed.

Lemma parse_literal p rest fuel :
  any_char special p = false -> (String.length p + String.length rest < fuel)%nat ->
  exists fuel', (String.length rest < fuel')%nat /\
  parse_glob fuel (p +:+ rest) = option_map (app (map Lit (chars p))) (parse_glob fuel' rest).
Proof.
  revert fuel. induction p as [|c p IH]; intros fuel; str_simpl; intros H L.
  - exists fuel. split; [lia|]. by destruct (parse_glob fuel rest).
  - apply orb_false_iff in H as [Hc H]. destruct fuel as [|fuel]; [lia|]. rewrite parse_lit_cons by done.
    destruct (IH fuel H) as (f' & L' & ->); [lia|]. exists f'. split; [done|]. by destruct (parse_glob f' rest).
Qed.

Lemma take_chunk_lits p r : take_chunk (map Lit p ++ Star :: r) = (map Lit p, Star :: r) /\ take_chunk (map Lit p) = (map Lit p, []).
Proof. induction p as [|c p [I1 I2]]; simpl; [done|]. by rewrite I1, I2. Qed.

Lemma matchChunk_lits p s :
  matchChunk (map Lit (chars p)) s = if HasPrefix s p then Some (str_drop (String.length p) s) else None.
Proof.
  unfold HasPrefix, str_drop. revert s. induction p as [|c p IH]; intros s; [by destruct s|]. destruct s as [|d s]; [done|]. simpl.
  destruct (Ascii.ascii_dec c d) as [->|N]; [by rewrite Ascii.eqb_refl, IH|].
  rewrite (proj2 (Ascii.eqb_neq d c)); [done|congruence].
Qed.

Lemma drop_stars_lits p r : drop_stars (map Lit p ++ Star :: r) = match p with [] => (true, (drop_stars r).2) | _ => (false, map Lit p ++ Star :: r) end.
Proof. by destruct p. Qed.

(** A pattern without special characters matches exactly itself, and with a star at
    its end exactly the paths that continue it within one segment. *)
Lemma glob_documented (p name : string) :
  any_char special p = false ->
  path_Match p name = Some (bool_decide (name = p)) /\
  path_Match (p +:+ "*") name =
    Some (HasPrefix name p && negb (any_char (Ascii.eqb "/"%char) (str_drop (String.length p) name))).
Proof.
  intros H. unfold path_Match, glob. split.
  - pose proof (parse_literal p "" (S (String.length p)) H) as (f & Lf & P); [simpl; lia|]. rewrite str_app_nil_r in P. rewrite P.
    destruct f as [|f]; [lia|]. simpl. rewrite app_nil_r. f_equal. destruct p as [|c p]; [done|].
    cbn [chars map drop_stars take_chunk].
    rewrite (proj2 (take_chunk_lits (chars p) [])). simpl. unfold chunk_at.
    change (Lit c :: map Lit (chars p)) with (map Lit (chars (String c p))). rewrite matchChunk_lits.
    destruct (HasPrefix name (String c p)) eqn:E.
    + apply HasPrefix_iff in E as [t ->]. rewrite str_drop_app, orb_false_r. destruct t as [|d t]; simpl.
      * rewrite str_app_nil_r. rewrite !bool_decide_eq_true_2 by done. done.
      * rewrite bool_decide_eq_false_2; [done|]. intros E%(f_equal String.length). rewrite str_length_app in E. simpl in E. lia.
    + rewrite bool_decide_eq_false_2; [done|]. intros ->. pose proof (HasPrefix_app (String c p) "") as E'. rewrite str_app_nil_r in E'. congruence.
  - pose proof (parse_literal p "*" (S (String.length (p +:+ "*"))) H) as (f & Lf & ->); [rewrite str_length_app; simpl; lia|].
    simpl in Lf. destruct f as [|[|f]]; [lia|lia|]. cbn [parse_glob option_map]. f_equal. cbn [match_items].
    rewrite drop_stars_lits. destruct (chars p) as [|c cs] eqn:Ec.
    + destruct p; [|done]. simpl. unfold str_drop. by destruct name.
    + rewrite <-Ec, (proj1 (take_chunk_lits (chars p) [])). cbn [andb]. unfold chunk_at. rewrite matchChunk_lits.
      destruct (map Lit (chars p) ++ [Star]) eqn:El; [by destruct (chars p)|]. destruct (HasPrefix name p) eqn:E; [|done].
      rewrite orb_true_r. apply HasPrefix_iff in E as [t ->]. rewrite str_drop_app. cbn [length match_items drop_stars snd take_chunk]. done.
Qed.

(** ** From the text of a rule *)

Lemma trim_right_nospace s : any_char is_space s = false -> trim_right s = s.
Proof.
  induction s as [|c s IH]; simpl; [done|]. intros [Hc H]%orb_false_iff. rewrite IH by done. destruct s; [by rewrite Hc|done].
Qed.
Lemma trim_right_app a b : trim_right b <> "" -> trim_right (a +:+ b) = a +:+ trim_right b.
Proof.
  intros Hb. induction a as [|c a IH]; str_simpl; [done|]. rewrite IH. destruct (a +:+ trim_right b) eqn:E; [|done].
  apply (f_equal String.length) in E. rewrite str_length_app in E. simpl in E. destruct (trim_right b); [done|]. simpl in E. lia.
Qed.
Lemma TrimSpace_id s : any_char is_space s = false -> TrimSpace s = s.
Proof.
  intros H. unfold TrimSpace. rewrite trim_left_id; [by apply trim_right_nospace|].
  destruct s; simpl in *; [done|]. by apply orb_false_iff in H as [-> _].
Qed.
Lemma any_space_upper s : any_char is_space (ToUpper s) = any_char is_space s.
Proof. induction s as [|c s IH]; simpl; [done|]. by rewrite ascii_upper_space, IH. Qed.

Lemma http_method m : isHTTPMethod m = true -> any_char is_space m = false /\ m <> "".
Proof.
  intros H. unfold isHTTPMethod in H. apply existsb_exists in H as (x & Hx & E%bool_decide_eq_true).
  rewrite <-any_space_upper, E. assert (x <> "") as Hne.
  { intros ->. simpl in Hx. repeat (destruct Hx as [Hx|Hx]; [discriminate|]). done. }
  split; [|intros ->; done]. simpl in Hx. repeat (destruct Hx as [<-|Hx]; [done|]). done.
Qed.

Lemma cut_space m x : any_char is_space m = false -> cut " "%char (m +:+ String " " x) = Some (m, x).
Proof.
  induction m as [|c m IH]; str_simpl; [done|]. intros [Hc H]%orb_false_iff. rewrite IH by done.
  destruct (Ascii.eqb_spec c " "%char) as [->|]; [done|done].
Qed.

Lemma parsePattern_method m x :
  isHTTPMethod m = true -> x <> "" -> any_char is_space x = false ->
  parsePattern (m +:+ String " " x) = Ok (ToUpper m, x).
Proof.
  intros Hm Hne Hx. destruct (http_method m Hm) as [Sm Nm].
  assert (TrimSpace (m +:+ String " " x) = m +:+ String " " x) as T.
  { unfold TrimSpace. rewrite trim_left_id.
    - change (String " " x) with (" " +:+ x). rewrite str_app_assoc, trim_right_app by (by rewrite trim_right_nospace).
      by rewrite trim_right_nospace.
    - destruct m as [|c m]; [done|]. str_simpl. simpl in Sm. by apply orb_false_iff in Sm as [-> _]. }
  unfold parsePattern. rewrite T. rewrite decide_False by (by destruct m). rewrite decide_False.
  - by rewrite cut_space, Hm, TrimSpace_id.
  - intros E%(f_equal String.length). rewrite str_length_app in E. simpl in E. destruct m; [done|]. simpl in E. lia.
Qed.

Lemma cut_none s : any_char is_space s = false -> cut " "%char s = None.
Proof.
  induction s as [|c s IH]; simpl; [done|]. intros [Hc H]%orb_false_iff. rewrite IH by done.
  by destruct (Ascii.eqb_spec c " "%char) as [->|].
Qed.

Lemma parsePattern_path x :
  x <> "" -> any_char is_space x = false -> parsePattern x = Ok ("", x).
Proof.
  intros Hne Hx. unfold parsePattern. rewrite TrimSpace_id by done. rewrite decide_False by done.
  destruct (decide (x = "*")) as [->|]; [done|]. by rewrite cut_none.
Qed.

(** The paths a rule text [p], or [p] with a star at its end, stands for. *)
Definition within (p : string) (star : bool) (path : string) : bool :=
  if star then HasPrefix path p && negb (any_char (Ascii.eqb "/"%char) (str_drop (String.length p) path)) else bool_decide (path = p).
Definition starred (p : string) (star : bool) : string := if star then p +:+ "*" else p.

(** The rule texts of the documentation: a path, or a path ending in a star,
    alone or after an HTTP method in any case. Such a rule with non-negative limits
    compiles, and matches a request exactly when the methods agree (if one is given)
    and the path is the one written or, with the star, continues it within one
    segment: [GET /v1/chart/*] covers [/v1/chart/foo] and not [/v1/chart/foo/bar]. *)
Theorem rule_documented {L : Type} `{AllowLimiter L} (m : option string) (p : string) (star : bool) (rate : f64) (burst : Z)
    (meth path : string) :
  match m with Some m => isHTTPMethod m = true | None => True end ->
  p <> "" -> any_char special p = false -> any_char is_space p = false -> fltb rate f0 = false -> 0 <= burst ->
  let r := mkRule (match m with Some m => m +:+ String " " (starred p star) | None => starred p star end) rate burst in
  exists c, compile_rule r = Ok c /\ limiter c = ruleFactory r /\
    rule_matches meth path c = (match m with Some m => bool_decide (meth = ToUpper m) | None => true end && within p star path).
Proof.
  intros Hm Hne Hsp Hspace Hrate Hburst r. set (x := starred p star) in *.
  assert (x <> "" /\ any_char is_space x = false) as [Hx1 Hx2].
  { unfold x, starred. destruct star; [|done]. rewrite any_char_app, Hspace. split; [|done].
    intros E%(f_equal String.length). rewrite str_length_app in E. simpl in E. lia. }
  assert (parsePattern (Pattern r) = Ok (match m with Some m => ToUpper m | None => "" end, x)) as P.
  { destruct m; simpl; [by apply parsePattern_method|by apply parsePattern_path]. }
  assert (forall name, path_Match x name = Some (within p star name)) as G.
  { intros name. destruct (glob_documented p name Hsp) as [G1 G2]. unfold x, starred, within. by destruct star. }
  unfold compile_rule. rewrite P. simpl. rewrite G, Hrate, (proj2 (Z.ltb_ge burst 0)) by lia. simpl.
  eexists. split; [reflexivity|]. split; [done|]. unfold rule_matches. simpl. rewrite G.
  rewrite (bool_decide_eq_false_2 (x = "*")).
  - simpl. f_equal. destruct m as [m|]; [|by rewrite bool_decide_eq_true_2].
    rewrite (bool_decide_eq_false_2 (ToUpper m = "")).
    + simpl. apply bool_decide_ext. split; by intros ->.
    + destruct (http_method m Hm) as [_ N]. by destruct m.
  - unfold x, starred. destruct star; [|by intros ->].
    intros E%(f_equal String.length). rewrite str_length_app in E. simpl in E. destruct p; [done|]. simpl in E. lia.
Qed.

#[local] Instance unit_limiter : AllowLimiter unit := {| ruleFactory _ := tt; fallbackFactory _ := tt; lim_Allow l _ _ := (l, true) |}.

Lemma rule_documented_witness :
  exists c, compile_rule (mkRule "get /v1/chart/*" f1 5) = Ok c /\
    rule_matches "GET" "/v1/chart/foo" c = true /\ rule_matches "GET" "/v1/chart/foo/bar" c = false.
Proof.
  destruct (rule_documented (Some "get") "/v1/chart/" true f1 5 "GET" "/v1/chart/foo") as (c & C & _ & M1); try reflexivity; try discriminate.
  destruct (rule_documented (Some "get") "/v1/chart/" true f1 5 "GET" "/v1/chart/foo/bar") as (c' & C' & _ & M2); try reflexivity; try discriminate.
  exists c. split; [exact C|]. split; [exact M1|]. rewrite C in C'. injection C' as E. rewrite E. exact M2.
Defined.

(** * The rule set *)
Section rule_set.
Context {L : Type} `{AllowLimiter L}.

Lemma match_rules_spec meth path i (rs : list (compiledRule L)) :
  match match_rules meth path i rs with
  | Some (t, name) => exists j r, t = ToRule (i + j) /\ rs !! j = Some r /\ name = Pattern (cr_Rule r) /\
      rule_matches meth path r = true /\ forall k r', (k < j)%nat -> rs !! k = Some r' -> rule_matches meth path r' = false
  | None => forall r, r ∈ rs -> rule_matches meth path r = false
  end.
Proof.
  revert i. induction rs as [|r rs IH]; intros i; simpl; [by intros r ?%elem_of_nil|].
  destruct (rule_matches meth path r) eqn:E.
  - exists 0%nat, r. rewrite Nat.add_0_r. repeat split; try done. intros; lia.
  - specialize (IH (S i)). destruct (match_rules meth path (S i) rs) as [[t name]|].
    + destruct IH as (j & r' & -> & Hj & Hn & Hm & Hk). exists (S j), r'. rewrite Nat.add_succ_r. repeat split; try done.
      intros [|k] x Hlt Hx; [by injection Hx as <-|]. eapply Hk; [|done]. lia.
    + intros x [->|Hx]%elem_of_cons; auto.
Qed.

Lemma compile_rules_spec rs (cs : list (compiledRule L)) :
  compile_rules rs = Ok cs -> map cr_Rule cs = rs /\
  Forall (fun c => limiter c = ruleFactory (cr_Rule c) /\ parsePattern (Pattern (cr_Rule c)) = Ok (method c, pathGlob c) /\
    forall name, is_Some (path_Match (pathGlob c) name)) cs.
Proof.
  revert cs. induction rs as [|r rs IH]; intros cs E; simpl in E; [by injection E as <-|].
  bind_inv E. bind_inv E. injection E as <-. destruct (IH _ E1) as [Hm F]. unfold compile_rule in E0.
  bind_inv E0. destruct a1 as [mt g]. destruct (path_Match g "/probe") eqn:G; [|done]. case_in E0. injection E0 as <-.
  simpl. rewrite Hm. split; [done|]. constructor; [|done]. simpl. split; [done|]. split; [done|].
  intros name. unfold path_Match in *. destruct (glob g); [by eexists|done].
Qed.

Lemma compile_cases rs fb :
  match compile (L := L) rs fb with
  | Ok d => map cr_Rule (rules d) = rs /\ fallback d = option_map fallbackFactory fb /\
      Forall (fun c => limiter c = ruleFactory (cr_Rule c) /\ parsePattern (Pattern (cr_Rule c)) = Ok (method c, pathGlob c) /\
        forall name, is_Some (path_Match (pathGlob c) name)) (rules d)
  | Err _ => True
  | Panic => False
  end.
Proof.
  unfold compile. destruct (compile_rules (L := L) rs) as [cs|e|] eqn:E; simpl; [|done|].
  - destruct (compile_rules_spec rs cs E) as [-> F]. done.
  - exfalso. clear fb. induction rs as [|r rs IH]; simpl in E; [done|]. destruct (compile_rule (L := L) r) eqn:C; simpl in E; [|done|].
    + destruct (compile_rules (L := L) rs); simpl in E; [done|done|]. by apply IH.
    + unfold compile_rule, parsePattern in C.
      repeat (match type of C with context [match ?x with _ => _ end] => destruct x end; simpl in C; try done).
Qed.
End rule_set.

(** A hot swap installs the new rules in the order given, each with a limiter of
    its own, or, when any rule is malformed, keeps the running rules and limiters as
    they are; after a swap the first rule that matches a request decides, whatever
    comes after it, then the fallback; a compiled pattern never fails at match time. *)
Theorem Replace_first_match {L : Type} `{AllowLimiter L} (d : ruleSetData L) (rs : list Rule) (fb : option Config) (meth path : string) :
  let '(d', e) := Replace d rs fb in
  match e with
  | Some _ => d' = d
  | None =>
      map cr_Rule (rules d') = rs /\
      Forall (fun c => limiter c = ruleFactory (cr_Rule c) /\ forall name, is_Some (path_Match (pathGlob c) name)) (rules d') /\
      match Match d' meth path with
      | Some (ToRule i, name) => exists r c, rs !! i = Some r /\ rules d' !! i = Some c /\ name = Pattern r /\
          rule_matches meth path c = true /\ forall k c', (k < i)%nat -> rules d' !! k = Some c' -> rule_matches meth path c' = false
      | Some (ToFallback, name) => name = "default" /\ is_Some fb /\ forall c, c ∈ rules d' -> rule_matches meth path c = false
      | None => fb = None /\ forall c, c ∈ rules d' -> rule_matches meth path c = false
      end
  end.
Proof.
  unfold Replace. pose proof (compile_cases (L := L) rs fb) as C. destruct (compile (L := L) rs fb) as [d'|e|]; [|done|done].
  destruct C as (Hm & Hf & F). split; [done|]. split; [eapply Forall_impl; [exact F|]; simpl; tauto|].
  unfold Match. pose proof (match_rules_spec meth path 0 (rules d')) as M. destruct (match_rules _ _ _ _) as [[t name]|].
  - destruct M as (j & c & -> & Hj & -> & Hc & Hk). simpl. exists (cr_Rule c), c.
    rewrite <-Hm. rewrite list_lookup_fmap, Hj. done.
  - rewrite Hf. destruct fb; simpl; [|done]. by repeat split; [eexists|].
Qed.

(** * Limits are per key; eviction is invisible *)

(** What is documented of a token bucket: left alone for the time it takes to fill,
    it answers like a new one. *)
Section histories.
Context {B : Type} `{TokenBucket B}.

Fixpoint after (b : B) (ts : list Z) : B := match ts with [] => b | t :: ts => after (bucket_Allow b t).1 ts end.
Fixpoint answers (b : B) (ts : list Z) : list bool :=
  match ts with [] => [] | t :: ts => let '(b, a) := bucket_Allow b t in a :: answers b ts end.

(** Calls in time order, none before [t]. *)
Fixpoint from (t : Z) (ts : list Z) : Prop := match ts with [] => True | u :: ts => t <= u /\ from u ts end.
Fixpoint last_of (t : Z) (ts : list Z) : Z := match ts with [] => t | u :: ts => last_of u ts end.

Lemma after_app b ts us : after b (ts ++ us) = after (after b ts) us.
Proof. revert b. induction ts; intros b; simpl; auto. Qed.
Lemma from_app t ts us : from t (ts ++ us) <-> from t ts /\ from (last_of t ts) us.
Proof. revert t. induction ts as [|u ts IH]; intros t; simpl; [tauto|]. rewrite IH. tauto. Qed.
Lemma last_of_app t ts us : last_of t (ts ++ us) = last_of (last_of t ts) us.
Proof. revert t. induction ts as [|u ts IH]; intros t; simpl; auto. Qed.
Lemma from_weaken t t' ts : t' <= t -> from t ts -> from t' ts.
Proof. destruct ts; simpl; [done|]. intros ? [? ?]. split; [lia|done]. Qed.
End histories.

Class BucketLaws (B : Type) `{TokenBucket B} := {
  fill_time : f64 -> Z -> Z;
  idle_is_new : forall rate burst ts us now,
    from 0 ts -> last_of 0 ts + fill_time rate burst <= now -> from now us ->
    answers (after (NewLimiter_bucket rate burst) ts) us = answers (NewLimiter_bucket rate burst) us }.

Section eviction.
Context {B : Type} `{BucketLaws B}.

(** Requests and eviction passes, in time order. *)
Inductive step := Request (now : Z) (key : string) | Evict (now : Z).
Definition time_of (s : step) : Z := match s with Request t _ => t | Evict t => t end.
Fixpoint in_order (t : Z) (ss : list step) : Prop := match ss with [] => True | s :: ss => t <= time_of s /\ in_order (time_of s) ss end.

(** The answers to the requests of one limiter. *)
Fixpoint run (l : Limiter B) (ss : list step) : list bool :=
  match ss with
  | [] => []
  | Request now key :: ss => let '(l, a) := Limiter_Allow l now key in a :: run l ss
  | Evict now :: ss => run (evict l now) ss
  end.

(** The reference: every key has its own bucket, made at the start. *)
Fixpoint times_of (key : string) (ss : list step) : list Z :=
  match ss with
  | [] => []
  | Request now k :: ss => if decide (k = key) then now :: times_of key ss else times_of key ss
  | Evict _ :: ss => times_of key ss
  end.
Fixpoint reference (bs : string -> B) (ss : list step) : list bool :=
  match ss with
  | [] => []
  | Request now key :: ss =>
      let '(b, a) := bucket_Allow (bs key) now in
      a :: reference (fun k => if decide (k = key) then b else bs k) ss
  | Evict _ :: ss => reference bs ss
  end.

(** Two buckets that cannot be told apart from [t] on. *)
Definition same_from (t : Z) (b b' : B) : Prop := forall us, from t us -> answers b us = answers b' us.

Lemma same_from_step t now b b' :
  same_from t b b' -> t <= now ->
  (bucket_Allow b now).2 = (bucket_Allow b' now).2 /\ same_from now (bucket_Allow b now).1 (bucket_Allow b' now).1.
Proof.
  intros S L. split.
  - specialize (S [now]). simpl in S. destruct (bucket_Allow b now), (bucket_Allow b' now). simpl in *.
    specialize (S (conj L I)). congruence.
  - intros us F. specialize (S (now :: us)). simpl in S. destruct (bucket_Allow b now), (bucket_Allow b' now). simpl in *.
    specialize (S (conj L F)). congruence.
Qed.

Lemma same_from_weaken t t' b b' : t <= t' -> same_from t b b' -> same_from t' b b'.
Proof. intros L S us F. apply S. by eapply from_weaken. Qed.

(** The running limiter against the reference at time [t]: each key's bucket has a
    history in both, ends at the last use, and cannot be told apart. *)
Definition key_rel (l : Limiter B) (t : Z) (key : string) (b : B) : Prop :=
  exists ts, from 0 ts /\ last_of 0 ts <= t /\ b = after (NewLimiter_bucket (l_rate l) (l_burst l)) ts /\
    match keys l !! key with
    | Some e => lastUsed e = last_of 0 ts /\ same_from t (e_limiter e) b
    | None => same_from t (NewLimiter_bucket (l_rate l) (l_burst l)) b
    end.

Lemma run_reference ss l t bs :
  fill_time (l_rate l) (l_burst l) <= idle l -> (forall key, key_rel l t key (bs key)) -> in_order t ss -> run l ss = reference bs ss.
Proof.
  revert l t bs. induction ss as [|[now key|now] ss IH]; intros l t bs Hidle K O; simpl; [done|..]; destruct O as [Ht O]; simpl in Ht, O.
  - destruct (K key) as (ts & F & Lt & Eb & M). unfold Limiter_Allow, entryFor.
    assert (exists e, (match keys l !! key with Some e => e | None => mkEntry (NewLimiter_bucket (l_rate l) (l_burst l)) 0 end) = e /\
              same_from t (e_limiter e) (bs key)) as (e & -> & S).
    { destruct (keys l !! key) as [e|]; [exists e; by destruct M|by eexists]. }
    destruct (same_from_step t now _ _ S Ht) as [S1 S2]. destruct (bucket_Allow (e_limiter e) now) as [b1 a1] eqn:E1.
    destruct (bucket_Allow (bs key) now) as [b2 a2] eqn:E2. simpl in S1, S2. subst a2. f_equal.
    apply (IH _ now); [done| |done]. intros k. unfold key_rel. simpl. destruct (decide (k = key)) as [->|N].
    + exists (ts ++ [now]). rewrite from_app, last_of_app, after_app, lookup_insert_eq. simpl. rewrite <-Eb, E2. repeat split; try done; lia.
    + rewrite lookup_insert_ne by done. destruct (K k) as (us & F' & Lt' & Eb' & M'). exists us. split; [done|]. split; [lia|].
      split; [done|]. destruct (keys l !! k); [destruct M' as [? ?]; split; [done|]|]; by apply (same_from_weaken t).
  - apply (IH _ now); [done| |done]. intros k. unfold key_rel. simpl. destruct (K k) as (us & F' & Lt' & Eb' & M').
    exists us. split; [done|]. split; [lia|]. split; [done|]. destruct (filter _ _ !! k) as [e|] eqn:Ef.
    + apply map_lookup_filter_Some in Ef as [Ek _]. rewrite Ek in M'. destruct M' as [? ?]. split; [done|]. by apply (same_from_weaken t).
    + apply map_lookup_filter_None in Ef as [Ek|Ek].
      * rewrite Ek in M'. by apply (same_from_weaken t).
      * destruct (keys l !! k) as [e|] eqn:E; [|by apply (same_from_weaken t)]. destruct M' as [Hl S].
        specialize (Ek e eq_refl). simpl in Ek. intros vs Fv. rewrite Eb'. symmetry. apply (idle_is_new _ _ us vs now); [done| |done]. lia.
Qed.

(** The answers a key gets depend on its own requests alone. *)
Fixpoint own (key : string) (ss : list step) (as_ : list bool) : list bool :=
  match ss, as_ with
  | Request _ k :: ss, a :: as_ => if decide (k = key) then a :: own key ss as_ else own key ss as_
  | Evict _ :: ss, as_ => own key ss as_
  | _, _ => []
  end.

Lemma reference_own key ss bs : own key ss (reference bs ss) = answers (bs key) (times_of key ss).
Proof.
  revert bs. induction ss as [|[now k|now] ss IH]; intros bs; simpl; [done| |apply IH].
  destruct (bucket_Allow (bs k) now) as [b a] eqn:E. destruct (decide (k = key)) as [->|N].
  - simpl. rewrite E, IH. by rewrite decide_True.
  - rewrite IH. by rewrite decide_False by congruence.
Qed.
End eviction.

(** Limits are per key and eviction is invisible: when keys are kept at least as
    long as a bucket takes to fill, then in any sequence of requests and eviction
    passes the answers to each key are exactly those of a token bucket of its own that
    sees only that key's requests and is never evicted. *)
Theorem per_key_limits {B : Type} `{BucketLaws B} (cfg : Config) (ss : list step) (key : string) :
  let l := NewLimiter cfg in
  in_order 0 ss -> fill_time (l_rate l) (l_burst l) <= idle l ->
  own key ss (run l ss) = answers (NewLimiter_bucket (l_rate l) (l_burst l)) (times_of key ss).
Proof.
  intros l O Hidle. rewrite (run_reference ss l 0 (fun _ => NewLimiter_bucket (l_rate l) (l_burst l))); [|done| |done].
  - apply (reference_own key ss (fun _ => NewLimiter_bucket (l_rate l) (l_burst l))).
  - intros k. exists []. simpl. rewrite lookup_empty. done.
Qed.

(** A bucket of one token per second, in nanoseconds of credit. *)
Module SecBucket.
Record t := mk { credit : Z; cap : Z; seen : Z }.
Definition new (_ : f64) (burst : Z) : t := let c := Z.max 0 burst * 1000000000 in mk c c 0.
Definition allow (b : t) (now : Z) : t * bool :=
  let c := Z.min (cap b) (credit b + Z.max 0 (now - seen b)) in
  if 1000000000 <=? c then (mk (c - 1000000000) (cap b) now, true) else (mk c (cap b) now, false).
End SecBucket.
#[local] Instance sec_bucket : TokenBucket SecBucket.t := {| NewLimiter_bucket := SecBucket.new; bucket_Allow := SecBucket.allow |}.

Lemma sec_after b ts :
  0 <= SecBucket.credit b <= SecBucket.cap b -> SecBucket.seen b = 0 ->
  0 <= SecBucket.credit (after b ts) /\ SecBucket.cap (after b ts) = SecBucket.cap b /\ SecBucket.seen (after b ts) = last_of 0 ts.
Proof.
  intros H Hs. rewrite <-Hs at 2. clear Hs. revert b H. induction ts as [|t ts IH]; intros b H; simpl; [lia|].
  destruct (IH (SecBucket.allow b t).1) as (I1 & I2 & I3).
  - unfold SecBucket.allow. destruct (Z.leb_spec 1000000000 (Z.min (SecBucket.cap b) (SecBucket.credit b + Z.max 0 (t - SecBucket.seen b)))); simpl; lia.
  - assert (SecBucket.cap (SecBucket.allow b t).1 = SecBucket.cap b /\ SecBucket.seen (SecBucket.allow b t).1 = t) as [E1 E2].
    { unfold SecBucket.allow. by destruct (_ <=? _). }
    rewrite I2, I3, E1, E2. done.
Qed.

#[local] Instance sec_laws : BucketLaws SecBucket.t.
Proof.
  refine {| fill_time := fun _ burst => Z.max 0 burst * 1000000000 |}.
  intros rate burst ts us now F L Fu. destruct (sec_after (SecBucket.new rate burst) ts) as (H1 & H2 & H3); [simpl; lia|done|].
  simpl NewLimiter_bucket. set (b := after _ ts) in *. destruct us as [|u us]; [done|]. destruct Fu as [Lu _].
  assert (forall t ts, from t ts -> t <= last_of t ts) as Hl.
  { intros t0 ts0. revert t0. induction ts0 as [|v ts0 IH]; intros t0; simpl; [lia|]. intros [? Hf]. specialize (IH v Hf). lia. }
  specialize (Hl 0 ts F). simpl. assert (SecBucket.allow b u = SecBucket.allow (SecBucket.new rate burst) u) as ->; [|done].
  unfold SecBucket.allow. rewrite H2, H3. simpl in *. rewrite !Z.min_l by lia. done.
Defined.

Lemma per_key_limits_witness :
  let cfg := mkConfig f1 2 (3 * 1000000000) in
  let ss := [Request 1 "a"; Request 2 "b"; Request 3 "a"; Request 4 "a"; Evict 5000000004; Request 5000000005 "a"] in
  own "a" ss (run (NewLimiter cfg) ss) = [true; true; false; true].
Proof.
  intros cfg ss. etrans; [apply (per_key_limits cfg ss "a")|].
  - vm_compute. repeat split; discriminate.
  - vm_compute. discriminate.
  - vm_compute. reflexivity.
Defined.

(** When the fill time is above the idle time eviction hands out full buckets early:
    300 requests pass within about four seconds where the bucket holds 100 tokens and
    gains one per second. *)
Lemma early_eviction_refills :
  let l : Limiter SecBucket.t := NewLimiter (mkConfig f1 100 1000000000) in
  let ss := concat (map (fun i => repeat (Request (2000000000 * i + 1) "a") 100 ++ [Evict (2000000000 * (i + 1))]) [0; 1; 2]) in
  idle l < fill_time (l_rate l) (l_burst l) /\ run l ss = repeat true 300.
Proof. split; vm_compute; reflexivity. Qed.

(** * The Redis bucket *)
Section redis.
Local Open Scope Q_scope.
Context (rate burst : Q).

Fixpoint script_run (data : option bucket) (times : list Q) : list bool :=
  match times with
  | [] => []
  | t :: times => let '(b, a) := luaTokenBucket rate burst 1 t data in a :: script_run (Some b) times
  end.
Fixpoint granted (l : list bool) : Q := match l with [] => 0 | a :: l => (if a then 1 else 0) + granted l end.
Fixpoint ascending (t : Q) (times : list Q) : Prop := match times with [] => True | u :: times => t <= u /\ ascending u times end.
Fixpoint last_time (t : Q) (times : list Q) : Q := match times with [] => t | u :: times => last_time u times end.

Lemma luaTokenBucket_step b now :
  0 <= rate -> ts b <= now ->
  let '(b', a) := luaTokenBucket rate burst 1 now (Some b) in
  ts b' = now /\ tokens b' + (if a then 1 else 0) <= tokens b + rate * (now - ts b) /\ (0 <= tokens b -> 0 <= burst -> 0 <= tokens b').
Proof.
  intros Hr Ht. unfold luaTokenBucket. set (tk := if Qle_bool (now - ts b) 0 then _ else _).
  assert (tk <= tokens b + rate * (now - ts b) /\ (0 <= tokens b -> 0 <= burst -> 0 <= tk)) as [T1 T2].
  { unfold tk. assert (0 <= rate * (now - ts b)) by (apply Qmult_le_0_compat; lra).
    destruct (Qle_bool (now - ts b) 0); [split; intros; lra|].
    destruct (Qle_bool burst _) eqn:E; [apply Qle_bool_iff in E; split; intros; lra|split; intros; lra]. }
  destruct (Qle_bool 1 tk) eqn:E; simpl; split; try reflexivity; split; intros; try lra; try (by apply T2).
  apply Qle_bool_iff in E. lra.
Qed.

Lemma script_bound times b :
  0 <= rate -> 0 <= burst -> 0 <= tokens b -> ascending (ts b) times ->
  granted (script_run (Some b) times) <= tokens b + rate * (last_time (ts b) times - ts b).
Proof.
  intros Hr Hb. revert b. induction times as [|t times IH]; intros b H0 A.
  { simpl. lra. }
  destruct A as [Ht A]. pose proof (luaTokenBucket_step b t Hr Ht) as S. cbn [script_run].
  destruct (luaTokenBucket rate burst 1 t (Some b)) as [b' a]. destruct S as (E & S1 & S2).
  specialize (IH b' (S2 H0 Hb)). rewrite E in IH. specialize (IH A). simpl. lra.
Qed.
End redis.



(** The script stores the caller's clock even when it is behind the stored one: two
    instances whose clocks differ by two seconds, calling in turn within the same
    instant, are all granted at one token per second, however often they call. *)
Lemma skewed_clocks_unlimited n :
  script_run 1 2 (Some (mkBucket 1 2)) (concat (repeat [0; 2]%Q n)) = repeat true (2 * n).
Proof.
  assert (luaTokenBucket 1 2 1 0 (Some (mkBucket 1 2)) = (mkBucket 0 0, true)) as E1 by (vm_compute; reflexivity).
  assert (luaTokenBucket 1 2 1 2 (Some (mkBucket 0 0)) = (mkBucket 1 2, true)) as E2 by (vm_compute; reflexivity).
  induction n as [|n IH]; [done|]. replace (2 * S n)%nat with (S (S (2 * n))) by lia.
  cbn [repeat concat app script_run]. rewrite E1. cbn [script_run]. rewrite E2. by rewrite IH.
Qed.
