(* ===== verification/SvcIO.v ===== *)
(** Service messages of fixed-width fields (src/pkg/svcio): layouts, the writer and
    the reader of wire.go, and the layout passes of spec.go (count fields, grids,
    record references, brace matching, comments).

    A JSON object is an association list; the writer's and the reader's loops are the
    source's. The reader cannot return an error (every [error] result of the Go
    functions is nil); it can panic when a grid's count exceeds what a slice can
    hold. *)

From Stdlib Require Import ZArith Lia QArith.
From Stdlib Require Import Strings.Ascii Strings.Byte.
From S2P Require Import Prelude GoStrings Strconv Float64.
Local Open Scope Z_scope.

(** * Data *)

Inductive Field := mkField {
  Name : string; CType : string; Size : Z; Repeat : Z; Comment : string; Children : list Field; CountField : string }.

(** Dynamic values; [VRows] is the slice of maps the reader makes, [VList] the slice
    encoding/json makes. *)
Inductive value :=
| VStr (s : string) | VNumber (s : string) | VFloat (x : f64) | VBool (b : bool) | VNull
| VList (l : list value) | VMap (m : list (string * value)) | VRows (rows : list (list (string * value))).
Notation object := (list (string * value)).

Fixpoint obj_get (m : object) (k : string) : option value :=
  match m with [] => None | (k', v) :: m => if decide (k' = k) then Some v else obj_get m k end.
Fixpoint obj_set (m : object) (k : string) (v : value) : object :=
  match m with
  | [] => [(k, v)]
  | (k', v') :: m => if decide (k' = k) then (k, v) :: m else (k', v') :: obj_set m k v
  end.

(** * Writing *)
Section wire.
(** The characters of a text, each as the EUC-KR encoder of golang.org/x/text gives it
    (empty when it has no code); [utf8.Valid]; the EUC-KR decoder; the remaining
    formats of package fmt. *)
Context (wire_chars : string -> list (list byte)) (utf8_Valid : list byte -> bool) (euckr_decode : list byte -> option string)
  (FormatFloat : f64 -> string) (Sprint : value -> string).

Definition f64_int (x : f64) : option Z :=
  match x with
  | Fin neg q => let r := Qred q in
      let n := if neg : bool then - Qnum r else Qnum r in
      if (Zpos (Qden r) =? 1) && (- 2 ^ 63 <=? n) && (n <? 2 ^ 63) then Some n else None
  | _ => None
  end.

Definition strFromInput (inp : object) (key : string) : string :=
  match obj_get inp key with
  | None => ""
  | Some (VStr s) => s
  | Some (VNumber s) => s
  | Some (VFloat x) => match f64_int x with Some n => Itoa n | None => FormatFloat x end
  | Some (VBool b) => if b then "Y" else "N"
  | Some VNull => ""
  | Some v => Sprint v
  end.

Definition nestedRows (inp : object) (key : string) : list object :=
  match obj_get inp key with
  | Some (VList l) => flat_map (fun v => match v with VMap m => [m] | _ => [] end) l
  | Some (VMap m) => [m]
  | _ => []
  end.

(** The loop of [encodeWire]: whole characters while they fit. *)
Fixpoint place (size : nat) (chars : list (list byte)) (pos : nat) : list byte :=
  match chars with
  | [] => []
  | cb :: chars =>
      let cb := match cb with [] => ["?"%byte] | _ => cb end in
      if (size <? pos + length cb)%nat then [] else cb ++ place size chars (pos + length cb)
  end.
Definition encodeWire (s : string) (size : Z) : list byte :=
  let n := Z.to_nat size in
  let b := place n (wire_chars s) 0 in
  b ++ repeat " "%byte (n - length b).

Definition isCountFieldName (s : string) : bool :=
  let s := ToLower (TrimSpace s) in
  if decide (s = "") then false
  else if existsb (fun x => bool_decide (s = x)) ["rcnt"; "cnt"; "count"; "nrec"] then true
  else HasSuffix s "_cnt" || HasSuffix s "_count".

Definition has_children (f : Field) : bool := match Children f with [] => false | _ => true end.

(** The text of a scalar field; [next] is the field after it. *)
Definition leaf_text (inp : object) (f : Field) (next : option Field) : string :=
  let v := strFromInput inp (Name f) in
  match next with
  | Some g =>
      if bool_decide (v = "") && isCountFieldName (Name f) && has_children g && (Repeat g <? 0)
      then Itoa (Z.of_nat (length (nestedRows inp (Name g)))) else v
  | None => v
  end.

Definition write_rows (f : Field) (inp : object) : nat :=
  let rows := nestedRows inp (Name f) in
  if Repeat f <? 0 then length rows else if Repeat f =? 0 then 1%nat else Z.to_nat (Repeat f).

(** One step of [writeFields]; [fs] are the fields after [f]. *)
Fixpoint writeField (f : Field) (next : option Field) (inp : object) {struct f} : list byte :=
  match Children f with
  | [] => if Size f <=? 0 then [] else encodeWire (leaf_text inp f next) (Size f)
  | _ =>
      let fix children (fs : list Field) (row : object) : list byte :=
        match fs with [] => [] | g :: fs => writeField g (head fs) row ++ children fs row end in
      let rows := nestedRows inp (Name f) in
      concat (map (fun i => children (Children f) (default [] (rows !! i))) (seq 0 (write_rows f inp)))
  end.
Fixpoint writeFields (fields : list Field) (inp : object) : list byte :=
  match fields with [] => [] | f :: fs => writeField f (head fs) inp ++ writeFields fs inp end.

Definition Serialize (fields : list Field) (inp : object) : list byte := writeFields fields inp.
Definition SerializeWithHeader (headerFields : list Field) (headerInput : object) (inputFields : list Field) (inp : object) : list byte :=
  (match headerFields with [] => [] | _ => writeFields headerFields headerInput end) ++ writeFields inputFields inp.

(** * Reading *)

Definition string_of_bytes (b : list byte) : string := String.string_of_list_byte b.

Definition decodeWire (b : list byte) : string :=
  match b with
  | [] => ""
  | _ => if utf8_Valid b then string_of_bytes b
         else match euckr_decode b with Some s => s | None => string_of_bytes b end
  end.

(** [strings.Trim(s, " \x00")]. *)
Definition is_pad (c : ascii) : bool := Ascii.eqb c " " || Ascii.eqb c "000".
Fixpoint pad_left (s : string) : string :=
  match s with "" => "" | String c s' => if is_pad c then pad_left s' else s end.
Fixpoint pad_right (s : string) : string :=
  match s with
  | "" => ""
  | String c s' => match pad_right s' with "" => if is_pad c then "" else String c "" | t => String c t end
  end.
Definition Trim (s : string) : string := pad_right (pad_left s).

(** The bytes of a field, short or absent at the end of the message. *)
Definition raw_at (buf : list byte) (cursor size : Z) : list byte :=
  if cursor + size <=? Z.of_nat (length buf) then take (Z.to_nat size) (drop (Z.to_nat cursor) buf)
  else if cursor <? Z.of_nat (length buf) then drop (Z.to_nat cursor) buf else [].

(** The loop state: cursor, map, text of the last scalar field. *)
Record rstate := mkR { cursor : Z; out : object; lastCntStr : string }.

Definition row_count (f : Field) (st : rstate) : Z :=
  let rep :=
    if Repeat f =? -1 then
      let cntStr := if decide (CountField f = "") then lastCntStr st
                    else match obj_get (out st) (CountField f) with Some (VStr v) => v | _ => lastCntStr st end in
      let n := (Atoi (TrimSpace cntStr)).1 in if n <? 0 then 0 else n
    else Repeat f in
  if rep <=? 0 then 1 else rep.

(** The largest capacity of a slice of maps. *)
Definition max_rows : Z := 2 ^ 45.

Fixpoint read_rows (read : Z -> res unit (Z * object)) (n : nat) (c : Z) : res unit (Z * list object) :=
  match n with
  | O => Ok (c, [])
  | S n => '(c, row) ← read c; '(c, rows) ← read_rows read n c; Ok (c, row :: rows)
  end.

Fixpoint readField (buf : list byte) (f : Field) (st : rstate) {struct f} : res unit rstate :=
  match Children f with
  | [] =>
      if Size f <=? 0 then Ok st
      else
        let decoded := Trim (decodeWire (raw_at buf (cursor st) (Size f))) in
        Ok (mkR (cursor st + Size f) (obj_set (out st) (Name f) (VStr decoded)) decoded)
  | _ =>
      let fix children (fs : list Field) (st : rstate) : res unit rstate :=
        match fs with [] => Ok st | g :: fs => st ← readField buf g st; children fs st end in
      let rep := row_count f st in
      if max_rows <? rep then Panic
      else
        '(c, rows) ← read_rows (fun c => st ← children (Children f) (mkR c [] ""); Ok (cursor st, out st)) (Z.to_nat rep) (cursor st);
        Ok (mkR c (obj_set (out st) (Name f) (VRows rows)) "")
  end.
Fixpoint readLoop (buf : list byte) (fields : list Field) (st : rstate) : res unit rstate :=
  match fields with [] => Ok st | f :: fs => st ← readField buf f st; readLoop buf fs st end.
Definition readFields (buf : list byte) (off : Z) (fields : list Field) : res unit (Z * object) :=
  st ← readLoop buf fields (mkR off [] ""); Ok (cursor st, out st).

Definition Deserialize (fields : list Field) (buf : list byte) : res unit object :=
  '(_, o) ← readFields buf 0 fields; Ok o.
Definition DeserializeWithHeader (headerFields outputFields : list Field) (buf : list byte) : res unit (option object * object) :=
  match headerFields with
  | [] => '(_, o) ← readFields buf 0 outputFields; Ok (None, o)
  | _ => '(c, h) ← readFields buf 0 headerFields; '(_, o) ← readFields buf c outputFields; Ok (Some h, o)
  end.
End wire.

(** * Layout passes *)

Definition with_repeat (f : Field) (n : Z) (cf : string) : Field :=
  mkField (Name f) (CType f) (Size f) n (Comment f) (Children f) cf.
Definition with_children (f : Field) (ch : list Field) : Field :=
  mkField (Name f) (CType f) (Size f) (Repeat f) (Comment f) ch (CountField f).

(** [reclassifyTrailingArrays]: a record of one row behind a count field is a grid. *)
Definition reclassify_one (prev : option Field) (f : Field) : Field :=
  match prev with
  | Some p =>
      if (Repeat f =? 1) && has_children f && negb (has_children p) && (0 <? Size p) && isCountFieldName (Name p)
      then with_repeat f (-1) (CountField f) else f
  | None => f
  end.
Fixpoint reclassify (f : Field) : Field :=
  let fix go (prev : option Field) (fs : list Field) : list Field :=
    match fs with [] => [] | g :: fs => reclassify_one prev (reclassify g) :: go (Some g) fs end in
  with_children f (go None (Children f)).
Fixpoint reclassify_loop (prev : option Field) (fs : list Field) : list Field :=
  match fs with [] => [] | g :: fs => reclassify_one prev (reclassify g) :: reclassify_loop (Some g) fs end.
Definition reclassifyTrailingArrays (fs : list Field) : list Field := reclassify_loop None fs.

Definition EqualFold (a b : string) : bool := bool_decide (ToLower a = ToLower b).

(** The first record behind the named field. *)
Fixpoint mark_grid (cf : string) (fs : list Field) : option (list Field) :=
  match fs with
  | [] => None
  | g :: fs => if has_children g then Some (with_repeat g (-1) cf :: fs) else option_map (cons g) (mark_grid cf fs)
  end.
Fixpoint mark_level (countField : string) (fs : list Field) : option (list Field) :=
  match fs with
  | [] => None
  | g :: fs =>
      if EqualFold (TrimSpace (Name g)) countField then option_map (cons g) (mark_grid (Name g) fs)
      else option_map (cons g) (mark_level countField fs)
  end.
(** [applyDeclaredCount]: inner levels first; [None] when nothing was marked. *)
Fixpoint declare_in (countField : string) (f : Field) : option Field :=
  let fix inner (fs : list Field) : option (list Field) :=
    match fs with
    | [] => None
    | g :: fs => match declare_in countField g with
                 | Some g' => Some (g' :: fs)
                 | None => option_map (cons g) (inner fs)
                 end
    end in
  match Children f with
  | [] => None
  | ch => option_map (with_children f) (match inner ch with Some ch' => Some ch' | None => mark_level countField ch end)
  end.
Fixpoint declare_first (countField : string) (fs : list Field) : option (list Field) :=
  match fs with
  | [] => None
  | g :: fs => match declare_in countField g with
               | Some g' => Some (g' :: fs)
               | None => option_map (cons g) (declare_first countField fs)
               end
  end.
Definition applyDeclaredCount (fs : list Field) (countField : string) : option (list Field) :=
  match declare_first countField fs with Some fs' => Some fs' | None => mark_level countField fs end.

(** [resolveRecords], [fuel] bounding the depth of references; [None] when it runs
    out. *)
Fixpoint resolveRecords (fuel : nat) (recs : gmap string (list Field)) (fields : list Field) : option (list Field) :=
  match fuel with
  | O => None
  | S fuel =>
      mapM (fun f =>
        match recs !! CType f, Children f with
        | Some ch, [] => option_map (with_children f) (resolveRecords fuel recs ch)
        | _, [] => Some f
        | _, ch => option_map (with_children f) (resolveRecords fuel recs ch)
        end) fields
  end.

(** ** Text helpers *)

(** The scan of [matchBrace]: [i] is the position of the head of the text. *)
Inductive scan_mode := Code | LineComment | BlockComment.
Fixpoint brace_scan (mode : scan_mode) (depth : Z) (i : nat) (text : string) {struct text} : option nat :=
  match text with
  | "" => None
  | String c rest =>
      match mode with
      | LineComment => brace_scan (if Ascii.eqb c "010" then Code else LineComment) depth (S i) rest
      | BlockComment =>
          match rest with
          | String d rest' => if Ascii.eqb c "*" && Ascii.eqb d "/" then brace_scan Code depth (S (S i)) rest' else brace_scan BlockComment depth (S i) rest
          | "" => None
          end
      | Code =>
          let plain :=
            if Ascii.eqb c "{" then brace_scan Code (depth + 1) (S i) rest
            else if Ascii.eqb c "}" then if depth - 1 =? 0 then Some i else brace_scan Code (depth - 1) (S i) rest
            else brace_scan Code depth (S i) rest in
          match rest with
          | String d rest' =>
              if Ascii.eqb c "/" && Ascii.eqb d "/" then brace_scan LineComment depth (S (S i)) rest'
              else if Ascii.eqb c "/" && Ascii.eqb d "*" then brace_scan BlockComment depth (S (S i)) rest'
              else plain
          | "" => plain
          end
      end
  end.
Definition matchBrace (text : string) (openIdx : Z) : option nat :=
  if openIdx <? 0 then None
  else match str_drop (Z.to_nat openIdx) text with
       | String "{" _ as t => brace_scan Code 0 (Z.to_nat openIdx) t
       | _ => None
       end.

(** [strings.TrimRight(s, cutset)]. *)
Fixpoint TrimRight (cutset : ascii -> bool) (s : string) : string :=
  match s with
  | "" => ""
  | String c s' => match TrimRight cutset s' with "" => if cutset c then "" else String c "" | t => String c t end
  end.
(** [strings.Index] of a two-character text: what is before and after it. *)
Fixpoint cut2 (a b : ascii) (s : string) : option (string * string) :=
  match s with
  | String c (String d s'' as s') =>
      if Ascii.eqb c a && Ascii.eqb d b then Some ("", s'')
      else match cut2 a b s' with Some (x, y) => Some (String c x, y) | None => None end
  | _ => None
  end.

Definition normalizeTrailingBlockComment (line : string) : string :=
  match cut2 "/" "*" line with
  | None => line
  | Some (pre, rest) =>
      match cut2 "*" "/" rest with
      | None => line
      | Some (body, tail) =>
          if decide (TrimSpace tail = "") then
            TrimRight (fun c => Ascii.eqb c " " || Ascii.eqb c "009") pre +:+ " // " +:+ TrimSpace body
          else line
      end
  end.
Definition cleanComment (s : string) : string := TrimSpace (TrimPrefix (TrimSpace s) "//").
Definition cleanProgramName (s : string) : string :=
  TrimSpace (TrimRight (fun c => existsb (Ascii.eqb c) ["*"%char; "/"%char; " "%char; "009"%char]) (TrimSpace s)).
