(* ===== verification/SvcIOLaws.v ===== *)
(** What the fixed-width messages guarantee: whole characters in exactly the declared
    widths, and that reading a written message gives back its fields and rows. *)

From Stdlib Require Import ZArith Lia.
From Stdlib Require Import Strings.Ascii Strings.Byte.
From S2P Require Import Prelude GoStrings Strconv Float64 SvcIO.
Local Open Scope Z_scope.

Lemma Field_ind' (P : Field -> Prop) : (forall f, Forall P (Children f) -> P f) -> forall f, P f.
Proof.
  intros H. fix IH 1. intros [n c s r cm ch cf]. apply H. simpl. induction ch as [|g ch IHch]; constructor; [apply IH|exact IHch].
Qed.

Section laws.
Context (wire_chars : string -> list (list byte)) (utf8_Valid : list byte -> bool) (euckr_decode : list byte -> option string)
  (FormatFloat : f64 -> string) (Sprint : value -> string).
Notation encodeWire := (SvcIO.encodeWire wire_chars).
Notation leaf_text := (SvcIO.leaf_text FormatFloat Sprint).
Notation writeField := (SvcIO.writeField wire_chars FormatFloat Sprint).
Notation writeFields := (SvcIO.writeFields wire_chars FormatFloat Sprint).
Notation decodeWire := (SvcIO.decodeWire utf8_Valid euckr_decode).
Notation readField := (SvcIO.readField utf8_Valid euckr_decode).
Notation readLoop := (SvcIO.readLoop utf8_Valid euckr_decode).

(** * Encoding a field *)

Definition coded (cb : list byte) : list byte := match cb with [] => ["?"%byte] | _ => cb end.

Lemma place_spec size chars pos :
  (pos <= size)%nat ->
  exists k, place size chars pos = concat (map coded (take k chars)) /\ (pos + length (place size chars pos) <= size)%nat /\
    (k <= length chars)%nat /\
    match chars !! k with Some cb => (size < pos + length (place size chars pos) + length (coded cb))%nat | None => True end.
Proof.
  revert pos. induction chars as [|cb chars IH]; intros pos Hp; simpl; [exists 0%nat; simpl; auto with lia|].
  change (match cb with [] => ["?"%byte] | _ => cb end) with (coded cb).
  destruct (Nat.ltb_spec size (pos + length (coded cb))) as [L|L].
  - exists 0%nat. simpl. auto with lia.
  - destruct (IH (pos + length (coded cb))%nat L) as (k & E & B & Lk & M). exists (S k). simpl. rewrite E, length_app in *.
    split; [done|]. split; [lia|]. split; [lia|]. destruct (chars !! k); [lia|done].
Qed.

Lemma encodeWire_length s size : length (encodeWire s size) = Z.to_nat size.
Proof.
  unfold SvcIO.encodeWire. destruct (place_spec (Z.to_nat size) (wire_chars s) 0 ltac:(lia)) as (k & _ & B & _).
  rewrite length_app, repeat_length. lia.
Qed.

(** * Widths *)

Fixpoint width (f : Field) (inp : object) : Z :=
  match Children f with
  | [] => if Size f <=? 0 then 0 else Size f
  | _ =>
      let fix children (fs : list Field) (row : object) : Z :=
        match fs with [] => 0 | g :: fs => width g row + children fs row end in
      foldr Z.add 0 (map (fun i => children (Children f) (default [] (nestedRows inp (Name f) !! i))) (seq 0 (write_rows f inp)))
  end.
Fixpoint widths (fs : list Field) (row : object) : Z := match fs with [] => 0 | g :: fs => width g row + widths fs row end.

(** The inner loops are the loops over lists. *)
Lemma writeField_eq f next inp :
  writeField f next inp =
  match Children f with
  | [] => if Size f <=? 0 then [] else encodeWire (leaf_text inp f next) (Size f)
  | ch => concat (map (fun i => writeFields ch (default [] (nestedRows inp (Name f) !! i))) (seq 0 (write_rows f inp)))
  end.
Proof. destruct f as [n c s r cm [|g0 ch0] cf]; reflexivity. Qed.
Lemma width_eq f inp :
  width f inp =
  match Children f with
  | [] => if Size f <=? 0 then 0 else Size f
  | ch => foldr Z.add 0 (map (fun i => widths ch (default [] (nestedRows inp (Name f) !! i))) (seq 0 (write_rows f inp)))
  end.
Proof. destruct f as [n c s r cm [|g0 ch0] cf]; reflexivity. Qed.

Lemma length_concat_sum {A B} (g : A -> list B) (h : A -> Z) l :
  (forall x, x ∈ l -> Z.of_nat (length (g x)) = h x) -> Z.of_nat (length (concat (map g l))) = foldr Z.add 0 (map h l).
Proof.
  induction l as [|x l IH]; intros H; simpl; [done|]. rewrite length_app, Nat2Z.inj_add, IH, H; [done|by left|].
  intros y Hy. apply H. by right.
Qed.

Lemma writeField_length f next inp : Z.of_nat (length (writeField f next inp)) = width f inp.
Proof.
  revert next inp. induction f as [f IH] using Field_ind'. intros next inp. rewrite writeField_eq, width_eq.
  destruct (Children f) as [|g0 ch0] eqn:E.
  - destruct (Z.leb_spec (Size f) 0); [done|]. rewrite encodeWire_length. lia.
  - apply length_concat_sum. intros i _. set (row := default [] _). rewrite <-E in *. clear E. revert IH. generalize (Children f).
    induction 1 as [|g l Hg F IHl]; [done|]. simpl. rewrite length_app, Nat2Z.inj_add, Hg, IHl. done.
Qed.

Lemma writeFields_length fs inp : Z.of_nat (length (writeFields fs inp)) = widths fs inp.
Proof.
  induction fs as [|f fs IH]; [done|]. simpl. rewrite length_app, Nat2Z.inj_add, writeField_length, IH. done.
Qed.

(** Every field occupies exactly its declared width, so a message has the size its
    layout and row counts give, whatever the values; within a field the text is cut
    between characters (a two-byte character is never split): what is written is a
    prefix of its characters, unmapped ones as question marks, that the next character
    would overflow, filled with spaces. *)
Theorem Serialize_widths (fields : list Field) (inp : object) (s : string) (size : Z) :
  Z.of_nat (length (Serialize wire_chars FormatFloat Sprint fields inp)) = widths fields inp /\
  exists k, let b := concat (map coded (take k (wire_chars s))) in
    encodeWire s size = b ++ repeat " "%byte (Z.to_nat size - length b) /\ (length b <= Z.to_nat size)%nat /\
    match wire_chars s !! k with Some cb => (Z.to_nat size < length b + length (coded cb))%nat | None => True end.
Proof.
  split; [apply writeFields_length|].
  destruct (place_spec (Z.to_nat size) (wire_chars s) 0 ltac:(lia)) as (k & E & B & _ & M). exists k. cbv zeta.
  unfold SvcIO.encodeWire. rewrite <-E. split; [done|]. split; [lia|exact M].
Qed.

(** * Round trip *)

(** Text of single-byte characters: documented of the encoder and of UTF-8. *)
Definition ascii_text (s : string) : bool := negb (any_char (fun c => (128 <=? nat_of_ascii c)%nat) s).
Fixpoint bytes_of (s : string) : list byte := match s with "" => [] | String c s => byte_of_ascii c :: bytes_of s end.
Hypothesis ascii_chars : forall s, ascii_text s = true -> wire_chars s = map (fun b => [b]) (bytes_of s).
Hypothesis ascii_valid : forall s, ascii_text s = true -> utf8_Valid (bytes_of s) = true.

(** Text that a field of the width carries unchanged. *)
Definition wire_text (s : string) (size : Z) : Prop :=
  ascii_text s = true /\ Z.of_nat (String.length s) <= size /\ Trim s = s.

Lemma bytes_length s : length (bytes_of s) = String.length s.
Proof. induction s as [|c s IH]; simpl; [done|]. by f_equal. Qed.

Lemma place_singles size bs pos :
  (pos + length bs <= size)%nat -> place size (map (fun b => [b]) bs) pos = bs.
Proof.
  revert pos. induction bs as [|b bs IH]; intros pos L; simpl in *; [done|].
  rewrite (proj2 (Nat.ltb_ge size (pos + 1))) by lia. simpl. rewrite IH by lia. done.
Qed.

Fixpoint spaces (n : nat) : string := match n with O => "" | S n => String " " (spaces n) end.

Lemma bytes_spaces n : repeat " "%byte n = bytes_of (spaces n).
Proof. induction n as [|n IH]; simpl; [done|]. by rewrite IH. Qed.
Lemma bytes_app a b : bytes_of (a +:+ b) = bytes_of a ++ bytes_of b.
Proof. induction a as [|c a IH]; str_simpl; [done|]. by f_equal. Qed.

Lemma encodeWire_text s size :
  wire_text s size -> encodeWire s size = bytes_of (s +:+ spaces (Z.to_nat size - String.length s)).
Proof.
  intros (A & L & _). unfold SvcIO.encodeWire. rewrite ascii_chars by done.
  rewrite place_singles by (rewrite bytes_length; lia). by rewrite bytes_app, bytes_length, bytes_spaces.
Qed.

Lemma pad_right_spaces s n : pad_right (s +:+ spaces n) = pad_right s.
Proof.
  induction s as [|c s IH]; str_simpl; [|by rewrite IH]. induction n as [|n IH]; simpl; [done|]. by rewrite IH.
Qed.
Lemma pad_left_all n : pad_left (spaces n) = "".
Proof. induction n; simpl; auto. Qed.
Lemma pad_left_app s n : pad_right (pad_left (s +:+ spaces n)) = pad_right (pad_left s).
Proof.
  induction s as [|c s IH]; str_simpl; [by rewrite pad_left_all|]. destruct (is_pad c); [exact IH|].
  rewrite <-str_app_cons. apply pad_right_spaces.
Qed.

Lemma string_of_bytes_of s : string_of_bytes (bytes_of s) = s.
Proof.
  unfold string_of_bytes, String.string_of_list_byte. induction s as [|c s IH]; simpl; [done|].
  by rewrite ascii_of_byte_of_ascii, IH.
Qed.

Lemma decode_text s size : wire_text s size -> Trim (decodeWire (encodeWire s size)) = s.
Proof.
  intros W. rewrite encodeWire_text by done. destruct W as (A & L & T). set (n := (Z.to_nat size - String.length s)%nat).
  assert (ascii_text (s +:+ spaces n) = true) as A'.
  { unfold ascii_text in *. rewrite any_char_app. apply negb_true_iff in A. rewrite A. simpl. induction n; simpl; auto. }
  unfold SvcIO.decodeWire. rewrite ascii_valid by done. rewrite string_of_bytes_of.
  rewrite <-T at 2. unfold Trim. rewrite <-(pad_left_app s n). by destruct (bytes_of (s +:+ spaces n)) eqn:E;
    [apply (f_equal string_of_bytes) in E; rewrite string_of_bytes_of in E; rewrite E|].
Qed.

Lemma raw_at_middle pre (mid : list byte) post size :
  length mid = Z.to_nat size -> 0 <= size -> raw_at (pre ++ mid ++ post) (Z.of_nat (length pre)) size = mid.
Proof.
  intros L Hs. unfold raw_at. rewrite !length_app, (proj2 (Z.leb_le _ _)) by lia.
  rewrite Nat2Z.id, drop_app_length, <-L. apply take_app_length.
Qed.

(** ** What a message carries *)

(** The name and text of the scalar field just read. *)
Definition last_leaf (inp : object) (f : Field) (next : option Field) : option (string * string) :=
  if has_children f then None else Some (Name f, leaf_text inp f next).
Definition counted (f : Field) (prev : option (string * string)) (n : nat) : Prop :=
  0 <= Repeat f \/
  Repeat f = -1 /\ exists p t, prev = Some (p, t) /\ (Atoi (TrimSpace t)).1 = Z.of_nat n /\ (CountField f = "" \/ CountField f = p).

(** Inputs a layout carries: field texts that fit, as many rows as the layout says
    (at least one), and for a grid of variable length a count in the field before
    it, which the writer fills in when it is missing. *)
Inductive fits : Field -> option (string * string) -> option Field -> object -> Prop :=
| fits_leaf f prev next inp :
    Children f = [] -> 0 < Size f -> wire_text (leaf_text inp f next) (Size f) -> fits f prev next inp
| fits_grid f prev next inp :
    Children f <> [] -> NoDup (map Name (Children f)) ->
    write_rows f inp = length (nestedRows inp (Name f)) -> (0 < length (nestedRows inp (Name f)))%nat ->
    Z.of_nat (length (nestedRows inp (Name f))) <= max_rows -> counted f prev (length (nestedRows inp (Name f))) ->
    Forall (fits_all None (Children f)) (nestedRows inp (Name f)) -> fits f prev next inp
with fits_all : option (string * string) -> list Field -> object -> Prop :=
| fits_nil prev inp : fits_all prev [] inp
| fits_cons prev f fs inp :
    fits f prev (head fs) inp -> fits_all (last_leaf inp f (head fs)) fs inp -> fits_all prev (f :: fs) inp.

(** The map read back: every scalar field's text, and row by row the maps of the
    records. *)
Inductive agrees : Field -> option Field -> object -> object -> Prop :=
| agrees_leaf f next inp o :
    Children f = [] -> obj_get o (Name f) = Some (VStr (leaf_text inp f next)) -> agrees f next inp o
| agrees_grid f next inp o outs :
    Children f <> [] -> obj_get o (Name f) = Some (VRows outs) ->
    Forall2 (agrees_all (Children f)) (nestedRows inp (Name f)) outs -> agrees f next inp o
with agrees_all : list Field -> object -> object -> Prop :=
| agrees_nil inp o : agrees_all [] inp o
| agrees_cons f fs inp o : agrees f (head fs) inp o -> agrees_all fs inp o -> agrees_all (f :: fs) inp o.

(** ** Reading back *)

Lemma obj_get_set m k v k' : obj_get (obj_set m k v) k' = if decide (k = k') then Some v else obj_get m k'.
Proof.
  induction m as [|[k0 v0] m IH]; [done|]. cbn [obj_set]. destruct (decide (k0 = k)) as [->|N]; cbn [obj_get].
  - by destruct (decide (k = k')).
  - rewrite IH. destruct (decide (k0 = k')) as [->|]; [|done]. by destruct (decide (k = k')).
Qed.

Definition read_row (buf : list byte) (ch : list Field) (c : Z) : res unit (Z * object) :=
  st ← readLoop buf ch (mkR c [] ""); Ok (cursor st, out st).

Lemma read_rows_ext r1 r2 k c : (forall c, r1 c = r2 c) -> read_rows r1 k c = read_rows r2 k c.
Proof.
  intros H. revert c. induction k as [|k IH]; intros c; [done|]. cbn [read_rows]. rewrite H. destruct (r2 c) as [[c1 row]| |]; [|done|done].
  simpl. by rewrite IH.
Qed.

Lemma readField_grid buf f st :
  Children f <> [] -> row_count f st <= max_rows ->
  readField buf f st =
    ('(c, rows) ← read_rows (read_row buf (Children f)) (Z.to_nat (row_count f st)) (cursor st);
     Ok (mkR c (obj_set (out st) (Name f) (VRows rows)) "")).
Proof.
  destruct f as [n c s r cm ch cf]. intros Hne L. cbn [Children] in *. destruct ch as [|g0 ch0]; [done|].
  cbn [SvcIO.readField Children]. rewrite (proj2 (Z.ltb_ge _ _)) by exact L. cbn [Name].
  set (go := fix children (fs : list Field) (st : rstate) : res unit rstate := _).
  assert (forall fs st, go fs st = readLoop buf fs st) as E.
  { induction fs as [|g fs IH]; intros st'; [done|]. simpl. destruct (readField buf g st'); simpl; [apply IH|done|done]. }
  rewrite (read_rows_ext _ (read_row buf (g0 :: ch0))); [done|]. intros c0. unfold read_row. rewrite <-E. reflexivity.
Qed.

(** The state before a field, as far as the field looks at it. *)
Definition known (prev : option (string * string)) (st : rstate) : Prop :=
  match prev with Some (p, t) => lastCntStr st = t /\ obj_get (out st) p = Some (VStr t) | None => True end.

Lemma row_count_counted f prev inp st :
  known prev st -> write_rows f inp = length (nestedRows inp (Name f)) -> (0 < length (nestedRows inp (Name f)))%nat ->
  counted f prev (length (nestedRows inp (Name f))) -> row_count f st = Z.of_nat (length (nestedRows inp (Name f))).
Proof.
  intros K W P C. unfold row_count, write_rows in *. set (n := length (nestedRows inp (Name f))) in *.
  destruct C as [R|(R & p & t & -> & At & CF)].
  - rewrite (proj2 (Z.ltb_ge (Repeat f) 0)) in W by lia. rewrite (proj2 (Z.eqb_neq (Repeat f) (-1))) by lia.
    destruct (Z.eqb_spec (Repeat f) 0) as [E|E]; [rewrite E; simpl; lia|]. rewrite (proj2 (Z.leb_gt (Repeat f) 0)) by lia. lia.
  - destruct K as [K1 K2]. rewrite R, Z.eqb_refl.
    assert ((if decide (CountField f = "") then lastCntStr st
             else match obj_get (out st) (CountField f) with Some (VStr v) => v | _ => lastCntStr st end) = t) as ->.
    { destruct (decide (CountField f = "")); [done|]. destruct CF as [? | ->]; [done|]. by rewrite K2. }
    rewrite At. rewrite (proj2 (Z.ltb_ge (Z.of_nat n) 0)), (proj2 (Z.leb_gt (Z.of_nat n) 0)) by lia. done.
Qed.

Lemma write_rows_all {B} (g : object -> list B) rows :
  concat (map (fun i => g (default [] (rows !! i))) (seq 0 (length rows))) = concat (map g rows).
Proof.
  f_equal. apply list_eq. intros i. rewrite !list_lookup_fmap. destruct (rows !! i) as [r|] eqn:E.
  - rewrite lookup_seq_lt by (by eapply lookup_lt_Some). simpl. by rewrite E.
  - rewrite lookup_seq_ge by (by apply lookup_ge_None). done.
Qed.

(** Reading one field where it was written. *)
Definition reads (f : Field) : Prop := forall prev next inp pre post st,
  fits f prev next inp -> known prev st -> cursor st = Z.of_nat (length pre) ->
  exists st', readField (pre ++ writeField f next inp ++ post) f st = Ok st' /\
    cursor st' = Z.of_nat (length (pre ++ writeField f next inp)) /\
    (forall k, k <> Name f -> obj_get (out st') k = obj_get (out st) k) /\
    agrees f next inp (out st') /\ known (last_leaf inp f next) st'.

Lemma reads_leaf f : Children f = [] -> reads f.
Proof.
  intros Ch prev next inp pre post st F K C. inversion F as [? ? ? ? _ Sz W|]; subst; [|done].
  assert (writeField f next inp = encodeWire (leaf_text inp f next) (Size f)) as E.
  { rewrite writeField_eq, Ch. by rewrite (proj2 (Z.leb_gt (Size f) 0)) by lia. }
  assert (readField (pre ++ writeField f next inp ++ post) f st =
    Ok (mkR (cursor st + Size f) (obj_set (out st) (Name f) (VStr (leaf_text inp f next))) (leaf_text inp f next))) as ->.
  { rewrite E. destruct f as [n c s r cm ch cf]. simpl in Ch. subst ch. cbn [SvcIO.readField Children Size Name] in *.
    rewrite (proj2 (Z.leb_gt s 0)) by lia. rewrite C, raw_at_middle by (lia || apply encodeWire_length). by rewrite decode_text. }
  eexists. split; [reflexivity|]. simpl. rewrite E, length_app, encodeWire_length. split; [lia|].
  split; [intros k Hk; rewrite obj_get_set; by rewrite decide_False by congruence|].
  assert (obj_get (obj_set (out st) (Name f) (VStr (leaf_text inp f next))) (Name f) = Some (VStr (leaf_text inp f next))) as G.
  { rewrite obj_get_set. by rewrite decide_True. }
  split; [by apply agrees_leaf|]. unfold last_leaf, has_children. by rewrite Ch.
Qed.

Lemma agrees_ext f next inp o o' : obj_get o (Name f) = obj_get o' (Name f) -> agrees f next inp o -> agrees f next inp o'.
Proof. intros E A. inversion A; subst; [apply agrees_leaf|eapply agrees_grid]; try done; congruence. Qed.

Lemma reads_list fs : Forall reads fs -> NoDup (map Name fs) -> forall prev inp pre post st,
  fits_all prev fs inp -> known prev st -> cursor st = Z.of_nat (length pre) ->
  exists st', readLoop (pre ++ writeFields fs inp ++ post) fs st = Ok st' /\
    cursor st' = Z.of_nat (length (pre ++ writeFields fs inp)) /\
    (forall k, k ∉ map Name fs -> obj_get (out st') k = obj_get (out st) k) /\ agrees_all fs inp (out st').
Proof.
  induction 1 as [|f fs Hf F IH]; intros ND prev inp pre post st Fi K C.
  { exists st. simpl. rewrite app_nil_r. repeat split; try done. constructor. }
  simpl in ND. apply NoDup_cons in ND as [Hn ND]. inversion Fi as [|? ? ? ? F1 F2]; subst.
  destruct (Hf prev (head fs) inp pre (writeFields fs inp ++ post) st F1 K C) as (st1 & R1 & C1 & O1 & A1 & K1).
  destruct (IH ND (last_leaf inp f (head fs)) inp (pre ++ writeField f (head fs) inp) post st1 F2 K1 C1) as (st2 & R2 & C2 & O2 & A2).
  exists st2. simpl. rewrite <-!app_assoc in *. rewrite R1. simpl. split; [exact R2|]. split; [by rewrite C2|].
  split.
  - intros k Hk. apply not_elem_of_cons in Hk as [Hk1 Hk2]. by rewrite O2, O1.
  - constructor; [|exact A2]. eapply agrees_ext; [|exact A1]. symmetry. by apply O2.
Qed.

Lemma reads_rows ch rows pre post :
  Forall reads ch -> NoDup (map Name ch) -> Forall (fits_all None ch) rows ->
  exists outs, read_rows (read_row (pre ++ concat (map (writeFields ch) rows) ++ post) ch) (length rows) (Z.of_nat (length pre)) =
    Ok (Z.of_nat (length (pre ++ concat (map (writeFields ch) rows))), outs) /\ Forall2 (agrees_all ch) rows outs.
Proof.
  intros Hr ND F. revert pre. induction F as [|row rows Fr F IH]; intros pre; simpl.
  { exists []. rewrite app_nil_r. split; [done|constructor]. }
  destruct (reads_list ch Hr ND None row pre (concat (map (writeFields ch) rows) ++ post) (mkR (Z.of_nat (length pre)) [] "") Fr I eq_refl)
    as (st1 & R1 & C1 & _ & A1).
  destruct (IH (pre ++ writeFields ch row)) as (outs & R2 & A2). rewrite <-!app_assoc in *.
  exists (out st1 :: outs).
  assert (read_row (pre ++ writeFields ch row ++ concat (map (writeFields ch) rows) ++ post) ch (Z.of_nat (length pre)) =
    Ok (Z.of_nat (length (pre ++ writeFields ch row)), out st1)) as -> by (unfold read_row; rewrite R1; simpl; by rewrite C1).
  cbn [mbind res_bind]. rewrite R2. split; [done|]. by constructor.
Qed.

Lemma reads_all f : reads f.
Proof.
  induction f as [f IH] using Field_ind'. destruct (Children f) as [|g0 ch0] eqn:Ech; [by apply reads_leaf|].
  intros prev next inp pre post st F K C. inversion F as [? ? ? ? E|? ? ? ? Hne ND W P M Ct Fr]; subst; [congruence|].
  assert (writeField f next inp = concat (map (writeFields (Children f)) (nestedRows inp (Name f)))) as E.
  { rewrite writeField_eq, Ech, W. apply write_rows_all. }
  pose proof (row_count_counted f prev inp st K W P Ct) as RC.
  rewrite readField_grid by (rewrite ?RC, ?Ech; done). rewrite RC, Nat2Z.id, C, E.
  rewrite <-Ech in IH. destruct (reads_rows (Children f) (nestedRows inp (Name f)) pre post IH ND Fr) as (outs & -> & A). simpl.
  eexists. split; [reflexivity|]. simpl. split; [done|].
  split; [intros k Hk; rewrite obj_get_set; by rewrite decide_False by congruence|]. split.
  - eapply agrees_grid; [by rewrite Ech| |exact A]. rewrite obj_get_set. by rewrite decide_True.
  - unfold last_leaf, has_children. by rewrite Ech.
Qed.
End laws.


(** ** An order message *)
Definition char_ (name : string) (size : Z) : Field := mkField name "char" size 0 "" [] "".
Definition grid_ (name : string) (rep : Z) (ch : list Field) : Field := mkField name "struct" 0 rep "" ch "".
Definition demo_header : list Field := [char_ "svc" 8].
Definition demo_body : list Field := [char_ "acno" 6; char_ "nrec" 3; grid_ "orec" (-1) [char_ "sym" 6; char_ "qty" 4]; char_ "memo" 4].
Definition demo_hin : object := [("svc", VStr "W1104S01")].
Definition demo_row (s q : string) : value := VMap [("sym", VStr s); ("qty", VStr q)].
Definition demo_in : object := [("acno", VStr "10-2"); ("orec", VList [demo_row "USDKRW" "100"; demo_row "EUR" "5"]); ("memo", VStr "ok")].
Definition single_chars (s : string) : list (list byte) := map (fun b => [b]) (bytes_of s).
Definition no_float (_ : f64) : string := "".
Definition no_print (_ : value) : string := "".

Ltac fits_tac :=
  repeat match goal with
  | |- fits_all _ _ _ (Children _) _ => cbn [Children grid_ char_]
  | |- fits_all _ _ _ [] _ => apply fits_nil
  | |- fits_all _ _ _ (_ :: _) _ => apply fits_cons
  | |- fits _ _ _ _ _ _ =>
      first [apply fits_leaf; [reflexivity|reflexivity|split; [reflexivity|split; [vm_compute; discriminate|reflexivity]]]
            |apply fits_grid; [discriminate| |reflexivity|vm_compute; lia|vm_compute; discriminate
               |right; split; [reflexivity|]; do 2 eexists; split; [reflexivity|]; split; [reflexivity|by left]
               |repeat first [apply Forall_nil_2 | apply Forall_cons_2]]]
  | |- NoDup _ => repeat (apply NoDup_cons; split; [vm_compute; set_solver|]); apply NoDup_nil_2
  end.


(** * Where reading and writing differ *)

(** A grid without rows is written as count 0 and no bytes; the reader takes a count
    of 0 for one row, which swallows the bytes of the fields that follow. *)
Lemma empty_grid_misread :
  let inp : object := [("acno", VStr "10-2"); ("orec", VList []); ("memo", VStr "ok")] in
  let msg := Serialize single_chars no_float no_print demo_body inp in
  string_of_bytes msg = "10-2  0  ok  " /\
  Deserialize (fun _ => true) (fun _ => None) demo_body msg =
    Ok [("acno", VStr "10-2"); ("nrec", VStr "0"); ("orec", VRows [[("sym", VStr "ok"); ("qty", VStr "")]]); ("memo", VStr "")].
Proof. split; vm_compute; reflexivity. Qed.

(** The count of a received message is not checked against the message: one beyond the
    capacity of a slice panics. *)
Lemma huge_count_panics :
  Deserialize (fun _ => true) (fun _ => None) [char_ "nrec" 15; grid_ "orec" (-1) [char_ "sym" 6]]
    (bytes_of "999999999999999") = Panic.
Proof. vm_compute. reflexivity. Qed.

(** * Record references *)

Lemma mapM_mono {A B} (f g : A -> option B) l r :
  (forall x y, x ∈ l -> f x = Some y -> g x = Some y) -> mapM f l = Some r -> mapM g l = Some r.
Proof.
  rewrite !mapM_Some. intros H F. induction F as [|x y l r E F IH]; constructor.
  - apply H; [by left|done].
  - apply IH. intros z w Hz. apply H. by right.
Qed.

Section records.
Context (recs : gmap string (list Field)).

Definition resolve_field (fuel : nat) (f : Field) : option Field :=
  match recs !! CType f, Children f with
  | Some ch, [] => option_map (with_children f) (resolveRecords fuel recs ch)
  | _, [] => Some f
  | _, ch => option_map (with_children f) (resolveRecords fuel recs ch)
  end.

Lemma resolve_S fuel fs : resolveRecords (S fuel) recs fs = mapM (resolve_field fuel) fs.
Proof. done. Qed.

Lemma resolve_field_step fuel fuel' f r :
  (forall fs r, resolveRecords fuel recs fs = Some r -> resolveRecords fuel' recs fs = Some r) ->
  resolve_field fuel f = Some r -> resolve_field fuel' f = Some r.
Proof.
  intros H. unfold resolve_field. destruct (recs !! CType f) as [ch|], (Children f) as [|g gs]; try done;
    match goal with |- option_map _ (resolveRecords fuel recs ?l) = _ -> _ =>
      destruct (resolveRecords fuel recs l) as [r'|] eqn:E; [|done]; by rewrite (H l r' E) end.
Qed.

Lemma resolve_mono fuel fuel' fs r :
  (fuel <= fuel')%nat -> resolveRecords fuel recs fs = Some r -> resolveRecords fuel' recs fs = Some r.
Proof.
  revert fuel' fs r. induction fuel as [|fuel IH]; intros [|fuel'] fs r L; [done|done|lia|]. rewrite !resolve_S.
  apply mapM_mono. intros f y _. apply resolve_field_step. intros l r'. apply IH. lia.
Qed.
Lemma resolve_field_mono n n' f r : (n <= n')%nat -> resolve_field n f = Some r -> resolve_field n' f = Some r.
Proof. intros L. apply resolve_field_step. intros l r'. by apply resolve_mono. Qed.

Lemma resolve_list fs :
  (forall f, f ∈ fs -> exists n r, resolve_field n f = Some r) -> exists n r, resolveRecords n recs fs = Some r.
Proof.
  induction fs as [|f fs IH]; intros H; [by exists 1%nat, []|].
  destruct (H f) as (n1 & r1 & E1); [by left|]. destruct IH as (n2 & r2 & E2); [intros g Hg; apply H; by right|].
  exists (S (n1 + n2)), (r1 :: r2). rewrite resolve_S. simpl. rewrite (resolve_field_mono n1 (n1 + n2) f r1) by (lia || done). simpl.
  destruct n2 as [|n2]; [done|]. rewrite resolve_S in E2.
  rewrite (mapM_mono (resolve_field n2) (resolve_field (n1 + S n2)) fs r2); [done| |done].
  intros x y _. apply resolve_field_mono. lia.
Qed.

(** No chain of references comes back: a rank that every reference lowers. *)
Context (rank : string -> nat).
Inductive below (k : nat) : Field -> Prop :=
| below_intro f : (is_Some (recs !! CType f) -> (rank (CType f) < k)%nat) -> Forall (below k) (Children f) -> below k f.
Hypothesis ranked : forall name fs, recs !! name = Some fs -> Forall (below (rank name)) fs.

Lemma resolve_below k f : below k f -> exists n r, resolve_field n f = Some r.
Proof.
  revert f. induction k as [k IHk] using lt_wf_ind. intros f. induction f as [f IHf] using Field_ind'.
  intros B. inversion B as [? Hr Hc]; subst. unfold resolve_field. destruct (Children f) as [|g gs] eqn:Ec.
  - destruct (recs !! CType f) as [ch|] eqn:Er; [|by exists 0%nat, f].
    destruct (resolve_list ch) as (n & r & E).
    + intros x Hx. pose proof (ranked _ _ Er) as F. rewrite Forall_forall in F. apply (IHk (rank (CType f))); [|by apply F].
      apply Hr. done.
    + exists n, (with_children f r). by rewrite E.
  - destruct (resolve_list (g :: gs)) as (n & r & E).
    + intros x Hx. rewrite Forall_forall in IHf, Hc. by apply IHf, Hc.
    + exists n, (with_children f r). rewrite E. by destruct (recs !! CType f).
Qed.
End records.

(** Resolving record references ends: when no record refers back to itself
    through any chain, every layout has one resolution, reached with some depth of
    recursion and the same with any greater one. *)
Theorem resolveRecords_total (recs : gmap string (list Field)) (rank : string -> nat) (k : nat) (fs : list Field) :
  (forall name fs, recs !! name = Some fs -> Forall (below recs rank (rank name)) fs) -> Forall (below recs rank k) fs ->
  exists n r, forall fuel, (n <= fuel)%nat -> resolveRecords fuel recs fs = Some r.
Proof.
  intros R F. destruct (resolve_list recs fs) as (n & r & E).
  - intros f Hf. rewrite Forall_forall in F. by eapply resolve_below, F.
  - exists n, r. intros fuel L. by eapply resolve_mono.
Qed.

Lemma resolveRecords_total_witness :
  let rec_ := mkField "leg" "LEG_R" 0 (-1) "" [] "" in
  let recs : gmap string (list Field) := {["LEG_R" := [char_ "sym" 6]]} in
  exists n, resolveRecords n recs [rec_] = Some [with_children rec_ [char_ "sym" 6]].
Proof.
  intros rec_ recs. destruct (resolveRecords_total recs (fun _ => 0%nat) 1 [rec_]) as (n & r & H).
  - intros name fs E. apply lookup_singleton_Some in E as [<- <-]. repeat constructor. by intros [x Hx].
  - repeat constructor.
  - exists (n + 2)%nat. assert (resolveRecords 2 recs [rec_] = Some [with_children rec_ [char_ "sym" 6]]) as E by reflexivity.
    apply (resolve_mono recs 2 (n + 2)) in E; [|lia]. rewrite (H (n + 2)%nat) in E by lia. injection E as ->.
    apply H. lia.
Defined.

(** A record that refers to itself is never resolved. *)
Lemma self_reference_diverges fuel :
  let r := mkField "next" "NODE_R" 0 0 "" [] "" in resolveRecords fuel {["NODE_R" := [r]]} [r] = None.
Proof.
  simpl. induction fuel as [|fuel IH]; [done|]. rewrite resolve_S. simpl. unfold resolve_field. cbn [CType Children].
  rewrite lookup_singleton_eq. by rewrite IH.
Qed.
