(* ===== verification/Auth.v ===== *)
(** Web authentication: sessions and their in-process store, refresh tokens, access
    JWTs (src/pkg/auth), the authentication middleware
    (src/internal/api/middleware/auth.go) and the session part of the login, refresh
    and logout handlers (src/internal/api/handlers).

    Sessions are shared objects: the store maps identifiers to references, and
    [objs] holds the objects. Clocks, random identifiers and cryptography are
    arguments. *)

From Stdlib Require Import ZArith Lia.
From Stdlib Require Import Strings.Ascii.
From S2P Require Import Prelude GoStrings Dates.
Local Open Scope Z_scope.

(** * Sessions *)

Record Profile := mkProfile { p_Channel : string; p_Site : string; p_Tier : string }.
Record Session := mkSession {
  ID : string; Usid : string; Channel : string; Cookie : option (list byte);
  IssuedAt : Time; ExpiresAt : Time; LastSeenAt : Time;
  LgnIdntCon : string; CifNo : string; s_Profile : Profile; LogonID : string; subscribed : gset string }.

(** [now.After(t)]. *)
Definition After (now t : Time) : bool := Before t now.
Definition Add (t : Time) (d : Z) : Time := mkTime (t_ns t + d) (t_off t).
Definition Unix (t : Time) : Z := t_ns t / ns_per_sec.

Definition Expired (s : Session) (now : Time) : bool := negb (IsZero (ExpiresAt s)) && After now (ExpiresAt s).

Definition with_sub (s : Session) (m : gset string) : Session :=
  mkSession (ID s) (Usid s) (Channel s) (Cookie s) (IssuedAt s) (ExpiresAt s) (LastSeenAt s)
    (LgnIdntCon s) (CifNo s) (s_Profile s) (LogonID s) m.
Definition with_seen (s : Session) (issued seen : Time) : Session :=
  mkSession (ID s) (Usid s) (Channel s) (Cookie s) issued (ExpiresAt s) seen
    (LgnIdntCon s) (CifNo s) (s_Profile s) (LogonID s) (subscribed s).

Definition Subscribe (s : Session) (p : string) : Session * bool :=
  if decide (p ∈ subscribed s) then (s, false) else (with_sub s ({[p]} ∪ subscribed s), true).
Definition Unsubscribe (s : Session) (p : string) : Session * bool :=
  if decide (p ∈ subscribed s) then (with_sub s (subscribed s ∖ {[p]}), true) else (s, false).
Definition IsSubscribed (s : Session) (p : string) : bool := bool_decide (p ∈ subscribed s).
Definition Subscriptions (s : Session) : list string := elements (subscribed s).
Definition ClearSubscriptions (s : Session) : Session := with_sub s ∅.

(** * The session store *)

Notation ref := nat.
Record MemoryStore := mkStore { sessions : gmap string ref; objs : ref -> Session }.
Inductive SessErr := ErrSessionNotFound | ErrSessionExpired.

Definition upd (h : ref -> Session) (r : ref) (s : Session) : ref -> Session := fun x => if decide (x = r) then s else h x.

Definition Put (st : MemoryStore) (now : Time) (r : ref) : MemoryStore :=
  let s := objs st r in
  let s := with_seen s (if IsZero (IssuedAt s) then now else IssuedAt s) now in
  mkStore (<[ID s := r]> (sessions st)) (upd (objs st) r s).

(** [Get] in its critical sections: the lookup, then either the removal of the very
    session that was found expired, or the update of whatever is stored now. *)
Definition get_read (st : MemoryStore) (id : string) : option ref := sessions st !! id.
Definition get_finish (st : MemoryStore) (id : string) (r : ref) (now : Time) : MemoryStore * res SessErr ref :=
  if Expired (objs st r) now then
    (match sessions st !! id with
     | Some cur => if decide (cur = r) then mkStore (delete id (sessions st)) (objs st) else st
     | None => st end, Err ErrSessionExpired)
  else
    (match sessions st !! id with
     | Some cur => let c := objs st cur in mkStore (sessions st) (upd (objs st) cur (with_seen c (IssuedAt c) now))
     | None => st end, Ok r).
Definition Get (st : MemoryStore) (now : Time) (id : string) : MemoryStore * res SessErr ref :=
  match get_read st id with None => (st, Err ErrSessionNotFound) | Some r => get_finish st id r now end.

Definition Delete (st : MemoryStore) (id : string) : MemoryStore := mkStore (delete id (sessions st)) (objs st).
Definition sweepOnce (st : MemoryStore) (now : Time) : MemoryStore :=
  mkStore (filter (fun p => Expired (objs st p.2) now = false) (sessions st)) (objs st).

(** * Refresh tokens *)
Module Refresh.
Record RefreshToken := mkToken { Token : string; SID : string; Usid : string; Channel : string; IssuedAt : Time; ExpiresAt : Time }.
Definition Expired (t : RefreshToken) (now : Time) : bool := negb (IsZero (ExpiresAt t)) && After now (ExpiresAt t).
Notation RefreshStore := (gmap string RefreshToken).
Inductive Err_ := ErrRefreshNotFound | ErrRefreshExpired | ErrTokenRequired.

Definition Put (s : RefreshStore) (now : Time) (t : RefreshToken) : res Err_ RefreshStore :=
  if decide (Token t = "") then Err ErrTokenRequired
  else
    let t := mkToken (Token t) (SID t) (Usid t) (Channel t) (if IsZero (IssuedAt t) then now else IssuedAt t) (ExpiresAt t) in
    Ok (<[Token t := t]> s).
Definition Consume (s : RefreshStore) (now : Time) (token : string) : RefreshStore * res Err_ RefreshToken :=
  match s !! token with
  | None => (s, Err ErrRefreshNotFound)
  | Some t => (delete token s, if Expired t now then Err ErrRefreshExpired else Ok t)
  end.
Definition DeleteBySID (s : RefreshStore) (sid : string) : RefreshStore * nat :=
  if decide (sid = "") then (s, 0%nat)
  else let s' : RefreshStore := filter (fun p => SID p.2 <> sid) s in (s', (size s - size s')%nat).
Definition sweepOnce (s : RefreshStore) (now : Time) : RefreshStore := filter (fun p => Expired p.2 now = false) s.
End Refresh.

(** * Access tokens *)
Module JWT.
Record Claims := mkClaims { SID : string; Usid : string; Chan : string; Site : string; Tier : string; IAT : Z; EXP : Z; JTI : string }.
Record jwtHeader := mkHeader { Alg : string; Typ : string; Kid : string }.
Inductive JWTErr :=
| ErrJWTMalformed | ErrJWTUnsupportedAlg | ErrJWTBadSignature | ErrJWTExpired | ErrJWTNotYetValid | ErrJWTKeyNotFound
| ErrSign.

Definition ProfileKey (c : Claims) : string :=
  if bool_decide (Chan c = "") || bool_decide (Site c = "") || bool_decide (Tier c = "") then ""
  else Chan c +:+ "." +:+ Site c +:+ "." +:+ Tier c.

(** base64url with JSON for header and payload, base64url for the signature, and RSA
    signatures over the SHA-256 of a text. *)
Class Crypto := {
  privkey : Type; pubkey : Type;
  enc_header : jwtHeader -> string; dec_header : string -> option jwtHeader;
  enc_claims : Claims -> string; dec_claims : string -> option Claims;
  enc_sig : list byte -> string; dec_sig : string -> option (list byte);
  rsa_sign : privkey -> string -> option (list byte); rsa_verify : pubkey -> string -> list byte -> bool }.

Section jwt.
Context `{Crypto}.

Record Issuer := mkIssuer { kid : string; key : privkey }.

(** [newJTI] is what [NewSessionID] returns. *)
Definition Sign (i : Issuer) (now : Time) (newJTI : option string) (c : Claims) : res JWTErr string :=
  let iat := if IAT c =? 0 then Unix now else IAT c in
  jti ← (if decide (JTI c = "") then match newJTI with Some j => Ok j | None => Err ErrSign end else Ok (JTI c));
  let c := mkClaims (SID c) (Usid c) (Chan c) (Site c) (Tier c) iat (EXP c) jti in
  let signingInput := enc_header (mkHeader "RS256" "JWT" (kid i)) +:+ "." +:+ enc_claims c in
  match rsa_sign (key i) signingInput with
  | None => Err ErrSign
  | Some sig => Ok (signingInput +:+ "." +:+ enc_sig sig)
  end.

Inductive KeyResolver := SingleKey (k : option pubkey) | KeyMap (m : gmap string pubkey).
Definition PublicKey (r : KeyResolver) (kid : string) : res JWTErr pubkey :=
  match match r with SingleKey k => k | KeyMap m => m !! kid end with Some k => Ok k | None => Err ErrJWTKeyNotFound end.

Record Verifier := mkVerifier { keys : KeyResolver; skewSec : Z }.
(** [NewVerifier]: the tolerated clock skew, 30 seconds unless given, at most 5 minutes. *)
Definition NewVerifier (k : KeyResolver) (clockSkew : Z) : Verifier :=
  let skew := if clockSkew <=? 0 then 30 * ns_per_sec else clockSkew in
  let skew := if 300 * ns_per_sec <? skew then 300 * ns_per_sec else skew in
  mkVerifier k (skew / ns_per_sec).

Definition some_or {A} (e : JWTErr) (o : option A) : res JWTErr A := match o with Some a => Ok a | None => Err e end.

Definition Verify (v : Verifier) (now : Time) (token : string) : res JWTErr Claims :=
  match Split token "."%char with
  | [p0; p1; p2] =>
      hdr ← some_or ErrJWTMalformed (dec_header p0);
      if decide (Alg hdr = "RS256") then
        pub ← PublicKey (keys v) (Kid hdr);
        sig ← some_or ErrJWTMalformed (dec_sig p2);
        if rsa_verify pub (p0 +:+ "." +:+ p1) sig then
          c ← some_or ErrJWTMalformed (dec_claims p1);
          let now := Unix now in
          if (0 <? EXP c) && (EXP c + skewSec v <? now) then Err ErrJWTExpired
          else if (0 <? IAT c) && (now + skewSec v <? IAT c) then Err ErrJWTNotYetValid
          else Ok c
        else Err ErrJWTBadSignature
      else Err ErrJWTUnsupportedAlg
  | _ => Err ErrJWTMalformed
  end.
End jwt.
End JWT.

(** * The middleware *)

Record Principal := mkPrincipal {
  pr_Usid : string; pr_Channel : string; pr_Site : string; pr_Tier : string; SessionID : string; pr_Cookie : option (list byte) }.

(** The headers of a request the middleware looks at. *)
Record Headers := mkHeaders {
  Authorization : string; HeaderEdgeSID : string; HeaderEdgeUser : string; HeaderEdgeChannel : string;
  HeaderEdgeSite : string; HeaderEdgeTier : string }.

Inductive AuthErr :=
| errMissingUser | errAuthNotImplemented | errMissingAuthHeader | errBadAuthScheme | errInvalidSession | errInvalidJWT | errMissingEdgeHeader.

Definition bearerToken (h : Headers) : res AuthErr string :=
  if decide (Authorization h = "") then Err errMissingAuthHeader
  else if negb (HasPrefix (Authorization h) "Bearer ") then Err errBadAuthScheme
  else
    let tok := TrimSpace (str_drop 7 (Authorization h)) in
    if decide (tok = "") then Err errMissingAuthHeader else Ok tok.

Definition principalFromSession (s : Session) : Principal :=
  mkPrincipal (Usid s) (if decide (p_Channel (s_Profile s) = "") then Channel s else p_Channel (s_Profile s))
    (p_Site (s_Profile s)) (p_Tier (s_Profile s)) (ID s) (Cookie s).

Section middleware.
Context `{JWT.Crypto}.

Record AuthConfig := mkCfg { DevMode : bool; hasStore : bool; JWTVerifier : option JWT.Verifier; TrustEdgeHeaders : bool }.

(** Each mode returns the store after its lookup. *)
Definition lookup_session (st : MemoryStore) (now : Time) (sid : string) : MemoryStore * res AuthErr Principal :=
  match Get st now sid with
  | (st, Ok r) => (st, Ok (principalFromSession (objs st r)))
  | (st, _) => (st, Err errInvalidSession)
  end.

Definition authenticateJWT (cfg : AuthConfig) (v : JWT.Verifier) (st : MemoryStore) (now : Time) (h : Headers)
    : MemoryStore * res AuthErr Principal :=
  match bearerToken h with
  | Ok tok =>
      match JWT.Verify v now tok with
      | Ok c => if hasStore cfg then lookup_session st now (JWT.SID c)
                else (st, Ok (mkPrincipal (JWT.Usid c) (JWT.Chan c) (JWT.Site c) (JWT.Tier c) (JWT.SID c) None))
      | _ => (st, Err errInvalidJWT)
      end
  | Err e => (st, Err e)
  | Panic => (st, Panic)
  end.

Definition authenticateEdgeHeaders (cfg : AuthConfig) (st : MemoryStore) (now : Time) (h : Headers) : MemoryStore * res AuthErr Principal :=
  if decide (HeaderEdgeSID h = "") then (st, Err errMissingEdgeHeader)
  else if negb (hasStore cfg) then (st, Err errAuthNotImplemented)
  else lookup_session st now (HeaderEdgeSID h).

Definition authenticateSession (st : MemoryStore) (now : Time) (h : Headers) : MemoryStore * res AuthErr Principal :=
  match bearerToken h with
  | Ok tok => lookup_session st now tok
  | Err e => (st, Err e)
  | Panic => (st, Panic)
  end.

Definition dev_principal (h : Headers) : res AuthErr Principal :=
  if decide (HeaderEdgeUser h = "") then Err errMissingUser
  else
    let ch := ToUpper (TrimSpace (HeaderEdgeChannel h)) in
    Ok (mkPrincipal (HeaderEdgeUser h) (if decide (ch = "") then "WEB" else ch)
          (ToUpper (TrimSpace (HeaderEdgeSite h))) (ToUpper (TrimSpace (HeaderEdgeTier h))) "" None).

Definition authenticate (cfg : AuthConfig) (st : MemoryStore) (now : Time) (h : Headers) : MemoryStore * res AuthErr Principal :=
  if DevMode cfg then
    match JWTVerifier cfg with
    | Some v => if decide (Authorization h = "") then (st, dev_principal h) else authenticateJWT cfg v st now h
    | None => (st, dev_principal h)
    end
  else if TrustEdgeHeaders cfg then authenticateEdgeHeaders cfg st now h
  else match JWTVerifier cfg with
       | Some v => authenticateJWT cfg v st now h
       | None => if hasStore cfg then authenticateSession st now h else (st, Err errAuthNotImplemented)
       end.

Definition isPublicPath (path : string) : bool :=
  existsb (fun x => bool_decide (path = x)) ["/v1/ping"; "/healthz"; "/readyz"; "/metrics"; "/v1/login"; "/v1/refresh"]
  || HasPrefix path "/v1/internal/".

(** The outcome for the handler: served with or without a principal, or refused. *)
Inductive outcome := Served (p : option Principal) | Refused401 (e : AuthErr).
Definition Auth (cfg : AuthConfig) (st : MemoryStore) (now : Time) (path : string) (h : Headers) : MemoryStore * outcome :=
  if isPublicPath path then (st, Served None)
  else match authenticate cfg st now h with
       | (st, Ok p) => (st, Served (Some p))
       | (st, Err e) => (st, Refused401 e)
       | (st, Panic) => (st, Refused401 errAuthNotImplemented)
       end.

(** * Handlers *)

Record world := mkWorld { w_sessions : MemoryStore; w_refresh : gmap string Refresh.RefreshToken }.
Record LoginResult := mkLogin { lr_sid : string; lr_access : string; lr_refresh : string }.
Inductive HandlerErr := ESign | ERefreshInvalid | ESessionGone | ERefreshStore.

Definition ttl_or (ttl default_ : Z) : Z := if ttl <=? 0 then default_ else ttl.
Definition defaultSessionTTL : Z := 8 * 3600 * ns_per_sec.
Definition defaultAccessTTL : Z := 15 * 60 * ns_per_sec.
Definition defaultRefreshTTL : Z := 8 * 3600 * ns_per_sec.

Record Deps := mkDeps { issuer : JWT.Issuer; SessionTTL : Z; AccessTokenTTL : Z; RefreshTokenTTL : Z }.

(** [finishLogin] with an issuer and a refresh store configured: [r] is the reference
    of the new session object, [sid], [jti] and [rt] the random identifiers, [site] and
    [tier] what the profile resolver gave. *)
Definition finishLogin (d : Deps) (w : world) (now : Time) (channel usid : string) (cookie : option (list byte))
    (lgnIdntCon cifNo site tier : string) (r : ref) (sid jti rt : string) : world * (LoginResult + HandlerErr) :=
  let s := mkSession sid usid channel cookie now (Add now (ttl_or (SessionTTL d) defaultSessionTTL))
             (mkTime (- (62135596800 * ns_per_sec)) 0) lgnIdntCon cifNo (mkProfile channel site tier) usid ∅ in
  let st := Put (mkStore (sessions (w_sessions w)) (upd (objs (w_sessions w)) r s)) now r in
  let w := mkWorld st (w_refresh w) in
  let accessExp := Add now (ttl_or (AccessTokenTTL d) defaultAccessTTL) in
  match JWT.Sign (issuer d) now (Some jti) (JWT.mkClaims sid usid channel site tier 0 (Unix accessExp) "") with
  | Ok access =>
      let exp := Add now (ttl_or (RefreshTokenTTL d) defaultRefreshTTL) in
      match Refresh.Put (w_refresh w) now (Refresh.mkToken rt sid usid channel now exp) with
      | Ok rs => (mkWorld (w_sessions w) rs, inl (mkLogin sid access rt))
      | _ => (w, inr ERefreshStore)
      end
  | _ => (w, inr ESign)
  end.

(** [Refresh]: the token is consumed before anything else is checked. *)
Definition RefreshHandler (d : Deps) (w : world) (now : Time) (token : string) (jti rt : string) : world * (LoginResult + HandlerErr) :=
  let '(rs, old) := Refresh.Consume (w_refresh w) now token in
  let w := mkWorld (w_sessions w) rs in
  match old with
  | Ok old =>
      let '(st, g) := Get (w_sessions w) now (Refresh.SID old) in
      let w := mkWorld st (w_refresh w) in
      match g with
      | Ok r =>
          let sess := objs st r in
          let accessExp := Add now (ttl_or (AccessTokenTTL d) defaultAccessTTL) in
          match JWT.Sign (issuer d) now (Some jti) (JWT.mkClaims (ID sess) (Usid sess) (Channel sess) "" "" 0 (Unix accessExp) "") with
          | Ok access =>
              let exp := Add now (ttl_or (RefreshTokenTTL d) defaultRefreshTTL) in
              match Refresh.Put (w_refresh w) now (Refresh.mkToken rt (ID sess) (Usid sess) (Channel sess) now exp) with
              | Ok rs => (mkWorld (w_sessions w) rs, inl (mkLogin (ID sess) access rt))
              | _ => (w, inr ERefreshStore)
              end
          | _ => (w, inr ESign)
          end
      | _ => (w, inr ESessionGone)
      end
  | _ => (w, inr ERefreshInvalid)
  end.

(** The end of [Logout], after the best-effort call to the engine. *)
Definition logout_stores (w : world) (sid : string) : world :=
  mkWorld (Delete (w_sessions w) sid) (Refresh.DeleteBySID (w_refresh w) sid).1.
End middleware.
