(* ===== verification/AuthLaws.v ===== *)
(** What authentication guarantees: live sessions are not lost to concurrent expiry,
    refresh tokens are single-use, logout is final, tokens verify what was signed,
    and outside development mode no header names the user. *)

From Stdlib Require Import ZArith Lia.
From Stdlib Require Import Strings.Ascii.
From S2P Require Import Prelude GoStrings Dates Auth.
Local Open Scope Z_scope.

(** * Sessions under concurrency *)

(** The atomic operations of the store: critical sections of [Put], [Get], [Delete] and
    the sweeper, and changes of a session's subscriptions. [SFinish] is the second
    section of a [Get] whose lookup found [r] at any earlier moment. *)
Inductive sop :=
| SPut (now : Time) (r : ref) (s : Session) | SFinish (id : string) (r : ref) (now : Time) | SDelete (id : string)
| SSweep (now : Time) | SSubscribe (r : ref) (p : string) | SUnsubscribe (r : ref) (p : string).
Definition sexec (st : MemoryStore) (o : sop) : MemoryStore :=
  match o with
  | SPut now r s => Put (mkStore (sessions st) (upd (objs st) r s)) now r
  | SFinish id r now => (get_finish st id r now).1
  | SDelete id => Delete st id
  | SSweep now => sweepOnce st now
  | SSubscribe r p => mkStore (sessions st) (upd (objs st) r (Subscribe (objs st r) p).1)
  | SUnsubscribe r p => mkStore (sessions st) (upd (objs st) r (Unsubscribe (objs st r) p).1)
  end.

Definition expired_at (e now : Time) : bool := negb (IsZero e) && After now e.

(** Operations that do not end the session [id] held by object [p], expiring at [e]:
    no logout or new login under its identifier, no reuse of its object, and clocks
    before the expiry where an operation compares with them. *)
Definition spares (id : string) (p : ref) (e : Time) (o : sop) : Prop :=
  match o with
  | SPut _ r s => r <> p /\ ID s <> id
  | SDelete id' => id' <> id
  | SFinish _ _ now | SSweep now => expired_at e now = false
  | SSubscribe _ _ | SUnsubscribe _ _ => True
  end.

Lemma upd_eq h r s : upd h r s r = s.
Proof. unfold upd. by rewrite decide_True. Qed.
Lemma upd_ne h r s x : x <> r -> upd h r s x = h x.
Proof. intros. unfold upd. by rewrite decide_False. Qed.

Lemma sexec_spares id p e o st :
  sessions st !! id = Some p -> ExpiresAt (objs st p) = e -> spares id p e o ->
  sessions (sexec st o) !! id = Some p /\ ExpiresAt (objs (sexec st o) p) = e.
Proof.
  intros Hp He Ho. destruct o as [now r s|id' r now|id'|now|r q|r q]; simpl in *.
  - destruct Ho as [N1 N2]. unfold Put. rewrite upd_eq. simpl. rewrite lookup_insert_ne by done.
    rewrite !upd_ne by done. done.
  - unfold get_finish. destruct (Expired (objs st r) now) eqn:E; simpl.
    + destruct (sessions st !! id') as [cur|] eqn:Ec; [|done]. destruct (decide (cur = r)) as [->|]; [|done]. simpl.
      destruct (decide (id' = id)) as [->|N]; [|by rewrite lookup_delete_ne].
      rewrite Ec in Hp. injection Hp as ->. unfold Expired in E. rewrite He in E. unfold expired_at in Ho. congruence.
    + destruct (sessions st !! id') as [cur|] eqn:Ec; [|done]. simpl. split; [done|].
      destruct (decide (p = cur)) as [->|N]; [by rewrite upd_eq|by rewrite upd_ne].
  - by rewrite lookup_delete_ne.
  - split; [|done]. apply map_lookup_filter_Some. split; [done|]. simpl. unfold Expired. by rewrite He.
  - split; [done|]. destruct (decide (p = r)) as [->|N]; [|by rewrite upd_ne]. rewrite upd_eq. unfold Subscribe.
    by destruct (decide _).
  - split; [done|]. destruct (decide (p = r)) as [->|N]; [|by rewrite upd_ne]. rewrite upd_eq. unfold Unsubscribe.
    by destruct (decide _).
Qed.

Lemma run_spares id p e os st :
  sessions st !! id = Some p -> ExpiresAt (objs st p) = e -> Forall (spares id p e) os ->
  sessions (fold_left sexec os st) !! id = Some p /\ ExpiresAt (objs (fold_left sexec os st) p) = e.
Proof.
  intros Hp He F. revert st Hp He. induction F as [|o os Ho F IH]; intros st Hp He; [done|].
  destruct (sexec_spares id p e o st Hp He Ho) as [P1 P2]. by apply IH.
Qed.

(** A live session is never lost: from any store, after any interleaving of the
    critical sections of other calls (including the removal step of a [Get] that found
    an earlier, expired session under the same identifier), as long as nobody logs the
    session out or replaces it and the clocks have not passed its expiry, looking it up
    returns the same object. *)
Theorem session_survives (st : MemoryStore) (id : string) (p : ref) (os : list sop) (now : Time) :
  sessions st !! id = Some p -> Forall (spares id p (ExpiresAt (objs st p))) os ->
  expired_at (ExpiresAt (objs st p)) now = false ->
  (Get (fold_left sexec os st) now id).2 = Ok p.
Proof.
  intros Hp F Hn. destruct (run_spares id p _ os st Hp eq_refl F) as [H1 H2].
  unfold Get, get_read. rewrite H1. unfold get_finish, Expired. rewrite H2. unfold expired_at in Hn. by rewrite Hn.
Qed.

Definition zt : Time := mkTime (- (62135596800 * ns_per_sec)) 0.
Definition demo_session (id user : string) (exp : Z) : Session :=
  mkSession id user "WEB" None (mkTime 0 0) (mkTime exp 0) zt "" "" (mkProfile "WEB" "HQ" "VIP") user ∅.

(** A lookup finds the old session expired, a new login replaces it, and then the
    removal step of the lookup runs. *)
Lemma session_survives_witness :
  let st0 := mkStore {["s1" := 0%nat]} (fun _ => demo_session "s1" "u" 10) in
  let st1 := sexec st0 (SPut (mkTime 20 0) 1 (demo_session "s1" "u" 100)) in
  get_read st0 "s1" = Some 0%nat /\ (Get (fold_left sexec [SFinish "s1" 0 (mkTime 20 0); SSweep (mkTime 30 0)] st1) (mkTime 40 0) "s1").2 = Ok 1%nat.
Proof.
  intros st0 st1. split; [reflexivity|].
  apply (session_survives st1 "s1" 1 [SFinish "s1" 0 (mkTime 20 0); SSweep (mkTime 30 0)] (mkTime 40 0)); [reflexivity| |reflexivity].
  apply Forall_cons_2; [reflexivity|]. apply Forall_cons_2; [reflexivity|]. apply Forall_nil_2.
Defined.

(** * Refresh tokens are single-use *)

Inductive rop :=
| RPut (now : Time) (t : Refresh.RefreshToken) | RConsume (now : Time) (token : string) | RDelete (sid : string) | RSweep (now : Time).
Definition rexec (s : gmap string Refresh.RefreshToken) (o : rop) : gmap string Refresh.RefreshToken * option (string * Refresh.RefreshToken) :=
  match o with
  | RPut now t => (match Refresh.Put s now t with Ok s' => s' | _ => s end, None)
  | RConsume now tok => let '(s, r) := Refresh.Consume s now tok in (s, match r with Ok t => Some (tok, t) | _ => None end)
  | RDelete sid => ((Refresh.DeleteBySID s sid).1, None)
  | RSweep now => (Refresh.sweepOnce s now, None)
  end.
Fixpoint rrun (s : gmap string Refresh.RefreshToken) (os : list rop) : list (string * Refresh.RefreshToken) :=
  match os with
  | [] => []
  | o :: os => let '(s, g) := rexec s o in match g with Some x => x :: rrun s os | None => rrun s os end
  end.

(** How often a token was stored, and how often it was granted. *)
Definition stored (tok : string) (os : list rop) : nat :=
  length (List.filter (fun o => match o with RPut _ t => bool_decide (Refresh.Token t = tok) | _ => false end) os).
Definition granted (tok : string) (l : list (string * Refresh.RefreshToken)) : nat :=
  length (List.filter (fun x => bool_decide (x.1 = tok)) l).
Definition present (s : gmap string Refresh.RefreshToken) (tok : string) : nat := if s !! tok then 1%nat else 0%nat.

(** Each operation, as seen by one token. *)
Lemma rexec_token tok s o :
  (present (rexec s o).1 tok +
   (match (rexec s o).2 with Some x => if decide (x.1 = tok) then 1 else 0 | None => 0 end) <= present s tok + stored tok [o])%nat.
Proof.
  unfold present, stored. destruct o as [now t|now tk|sid|now]; simpl.
  - unfold Refresh.Put. destruct (decide (Refresh.Token t = "")); simpl; [lia|].
    destruct (decide (Refresh.Token t = tok)) as [E|N].
    + rewrite (bool_decide_eq_true_2 _ E), E, lookup_insert_eq. simpl. lia.
    + rewrite (bool_decide_eq_false_2 _ N), lookup_insert_ne by done. simpl. lia.
  - unfold Refresh.Consume. destruct (s !! tk) as [t|] eqn:E; simpl; [|lia].
    destruct (decide (tk = tok)) as [->|N].
    + rewrite lookup_delete_eq, E. destruct (Refresh.Expired t now); simpl; [lia|]. rewrite decide_True by done. lia.
    + rewrite lookup_delete_ne by done. destruct (Refresh.Expired t now); simpl; [lia|]. rewrite decide_False by done. lia.
  - unfold Refresh.DeleteBySID. destruct (decide (sid = "")); simpl; [lia|].
    destruct (filter _ s !! tok) eqn:E; [|lia]. apply map_lookup_filter_Some in E as [-> _]. lia.
  - unfold Refresh.sweepOnce. destruct (filter _ s !! tok) eqn:E; [|lia]. apply map_lookup_filter_Some in E as [-> _]. lia.
Qed.

Lemma rrun_token tok os s : (granted tok (rrun s os) <= present s tok + stored tok os)%nat.
Proof.
  revert s. induction os as [|o os IH]; intros s; simpl; [unfold granted; simpl; lia|].
  pose proof (rexec_token tok s o) as H. destruct (rexec s o) as [s' g]. simpl in H. specialize (IH s').
  assert (stored tok (o :: os) = stored tok [o] + stored tok os)%nat as ->.
  { unfold stored. simpl. destruct o as [? t| | |]; try done. by destruct (bool_decide (Refresh.Token t = tok)). }
  destruct g as [x|]; [|lia]. unfold granted in *. simpl. destruct (decide (x.1 = tok)) as [E|N].
  - rewrite (bool_decide_eq_true_2 _ E). simpl. lia.
  - rewrite (bool_decide_eq_false_2 _ N). lia.
Qed.

(** What is granted is the token asked for and has not expired when it is consumed. *)
Definition keyed (s : gmap string Refresh.RefreshToken) : Prop := map_Forall (fun k t => Refresh.Token t = k) s.
Lemma rexec_keyed s o : keyed s -> keyed (rexec s o).1.
Proof.
  intros K. destruct o as [now t|now tk|sid|now]; simpl.
  - unfold Refresh.Put. destruct (decide _); [done|]. by apply map_Forall_insert_2.
  - unfold Refresh.Consume. destruct (s !! tk); simpl; [|done]. by apply map_Forall_delete.
  - unfold Refresh.DeleteBySID. destruct (decide _); simpl; [done|]. intros k t [Hk _]%map_lookup_filter_Some. by apply K.
  - intros k t [Hk _]%map_lookup_filter_Some. by apply K.
Qed.
Lemma rrun_keyed os s : keyed s -> Forall (fun x => Refresh.Token x.2 = x.1) (rrun s os).
Proof.
  revert s. induction os as [|o os IH]; intros s K; simpl; [constructor|].
  pose proof (rexec_keyed s o K) as K'. destruct (rexec s o) as [s' g] eqn:E. simpl in K'. destruct g as [x|]; [|by apply IH].
  constructor; [|by apply IH]. destruct o as [now t|now tk|sid|now]; simpl in E; try (injection E; done).
  unfold Refresh.Consume in E. destruct (s !! tk) as [t|] eqn:Et; [|done]. destruct (Refresh.Expired t now); [done|].
  injection E as _ <-. simpl. by apply K.
Qed.

(** Refresh tokens are single-use: over any sequence of stores, consumptions,
    logouts and sweeps, in any order, a token is granted at most as often as it was
    stored (once, for the random tokens the handlers make), and what is granted is the
    token that was presented. *)
Theorem refresh_single_use (os : list rop) (tok : string) :
  (granted tok (rrun ∅ os) <= stored tok os)%nat /\ Forall (fun x => Refresh.Token x.2 = x.1) (rrun ∅ os).
Proof.
  split; [|apply rrun_keyed, map_Forall_empty]. pose proof (rrun_token tok os ∅) as H. unfold present in H.
  rewrite lookup_empty in H. exact H.
Qed.

(** * Access tokens *)
Import JWT.

(** What is documented of the codecs and of RSA signatures. *)
Class CryptoLaws `{Crypto} := {
  pub_of : privkey -> pubkey;
  dec_enc_header : forall h, dec_header (enc_header h) = Some h;
  dec_enc_claims : forall c, dec_claims (enc_claims c) = Some c;
  dec_enc_sig : forall s, dec_sig (enc_sig s) = Some s;
  enc_no_dot : forall h c s, any_char (Ascii.eqb ".") (enc_header h) = false /\
    any_char (Ascii.eqb ".") (enc_claims c) = false /\ any_char (Ascii.eqb ".") (enc_sig s) = false;
  sign_verify : forall k t s, rsa_sign k t = Some s -> rsa_verify (pub_of k) t s = true }.

Lemma Split_loop_app tok a b :
  any_char (Ascii.eqb ".") a = false -> Split_loop "." tok (a +:+ String "." b) = (tok +:+ a) :: Split_loop "." "" b.
Proof.
  revert tok. induction a as [|c a IH]; intros tok; [by rewrite str_app_nil_l, str_app_nil_r|]. rewrite str_app_cons.
  cbn [any_char Split_loop]. intros [Hc Ha]%orb_false_iff. rewrite (Ascii.eqb_sym c "."), Hc, IH by done.
  by rewrite <-str_app_assoc.
Qed.
Lemma Split_loop_last tok a : any_char (Ascii.eqb ".") a = false -> Split_loop "." tok a = [tok +:+ a].
Proof.
  revert tok. induction a as [|c a IH]; intros tok; [by rewrite str_app_nil_r|]. cbn [any_char Split_loop].
  intros [Hc Ha]%orb_false_iff. rewrite (Ascii.eqb_sym c "."), Hc, IH by done. by rewrite <-str_app_assoc.
Qed.

Lemma Split_three a b c :
  any_char (Ascii.eqb ".") a = false -> any_char (Ascii.eqb ".") b = false -> any_char (Ascii.eqb ".") c = false ->
  Split ((a +:+ "." +:+ b) +:+ "." +:+ c) "." = [a; b; c].
Proof.
  intros Ha Hb Hc. unfold Split.
  assert ((a +:+ "." +:+ b) +:+ "." +:+ c = a +:+ String "." (b +:+ String "." c)) as -> by (rewrite <-str_app_assoc; reflexivity).
  by rewrite !Split_loop_app, Split_loop_last.
Qed.

(** The claims a token carries: the issue time and identifier are filled in. *)
Definition filled (now : Time) (jti : string) (c : Claims) : Claims :=
  mkClaims (SID c) (Usid c) (Chan c) (Site c) (Tier c) (if IAT c =? 0 then Unix now else IAT c) (EXP c)
    (if decide (JTI c = "") then jti else JTI c).

Section jwt_laws.
Context `{CryptoLaws}.

Lemma Sign_token i now jti c :
  Sign i now (Some jti) c =
  let input := enc_header (mkHeader "RS256" "JWT" (kid i)) +:+ "." +:+ enc_claims (filled now jti c) in
  match rsa_sign (key i) input with None => Err ErrSign | Some sig => Ok (input +:+ "." +:+ enc_sig sig) end.
Proof. unfold Sign, filled. by destruct (decide (JTI c = "")). Qed.

Lemma Verify_signed i v now now' jti c tok :
  Sign i now (Some jti) c = Ok tok -> PublicKey (keys v) (kid i) = Ok (pub_of (key i)) ->
  Verify v now' tok =
    let c' := filled now jti c in
    if (0 <? EXP c') && (EXP c' + skewSec v <? Unix now') then Err ErrJWTExpired
    else if (0 <? IAT c') && (Unix now' + skewSec v <? IAT c') then Err ErrJWTNotYetValid else Ok c'.
Proof.
  rewrite Sign_token. cbv zeta. destruct (rsa_sign _ _) as [sig|] eqn:R; [|done]. intros [= <-] K.
  destruct (enc_no_dot (mkHeader "RS256" "JWT" (kid i)) (filled now jti c) sig) as (D1 & D2 & D3).
  unfold Verify. rewrite Split_three by done. rewrite dec_enc_header. cbn [some_or mbind res_bind Alg Kid].
  rewrite decide_True by done. rewrite K. cbn [mbind res_bind]. rewrite dec_enc_sig. cbn [some_or mbind res_bind].
  by rewrite (sign_verify _ _ _ R), dec_enc_claims.
Qed.
End jwt_laws.

(** Access tokens: a signed token verifies with the signer's key to exactly the
    claims signed (issue time and identifier filled in) from the issue time minus the
    tolerated skew until the expiry plus the skew, both included; outside that window
    the error says on which side. *)
Theorem token_window `{CryptoLaws} (i : Issuer) (v : Verifier) (now now' : Time) (jti tok : string) (c : Claims) :
  Sign i now (Some jti) c = Ok tok -> PublicKey (keys v) (kid i) = Ok (pub_of (key i)) -> 0 < EXP c -> 0 < IAT (filled now jti c) ->
  let c' := filled now jti c in
  (IAT c' - skewSec v <= Unix now' <= EXP c' + skewSec v -> Verify v now' tok = Ok c') /\
  (EXP c' + skewSec v < Unix now' -> Verify v now' tok = Err ErrJWTExpired) /\
  (Unix now' < IAT c' - skewSec v -> Unix now' <= EXP c' + skewSec v -> Verify v now' tok = Err ErrJWTNotYetValid).
Proof.
  intros S K He Hi c'. rewrite (Verify_signed i v now now' jti c tok S K). cbv zeta. fold c'. fold c' in Hi.
  assert (0 < EXP c') by done. rewrite !(proj2 (Z.ltb_lt 0 _)) by lia. simpl. repeat split; intros.
  - by rewrite !(proj2 (Z.ltb_ge _ _)) by lia.
  - by rewrite (proj2 (Z.ltb_lt _ _)) by lia.
  - rewrite (proj2 (Z.ltb_ge _ _)) by lia. by rewrite (proj2 (Z.ltb_lt _ _)) by lia.
Qed.

(** A toy instance: the text is its own code, a signature repeats the key. *)
Definition hex_text {A} `{Countable A} (a : A) : string := to_text a.
#[export] Instance header_eq_dec : EqDecision jwtHeader. Proof. solve_decision. Defined.
#[export] Instance claims_eq_dec : EqDecision Claims. Proof. solve_decision. Defined.
#[export] Instance header_countable : Countable jwtHeader :=
  inj_countable' (fun h => (Alg h, Typ h, Kid h)) (fun '(a, t, k) => mkHeader a t k) ltac:(by intros []).
#[export] Instance claims_countable : Countable Claims :=
  inj_countable' (fun c => (SID c, Usid c, Chan c, Site c, Tier c, IAT c, EXP c, JTI c))
    (fun '(a, b, c, d, e, f, g, h) => mkClaims a b c d e f g h) ltac:(by intros []).

Definition text_bytes (s : string) : list byte := String.list_byte_of_string s.
Definition bytes_text (b : list byte) : string := String.string_of_list_byte b.
#[local] Instance toy : Crypto := {|
  privkey := string; pubkey := string; enc_header := to_text; dec_header := of_text; enc_claims := to_text; dec_claims := of_text;
  enc_sig b := to_text (bytes_text b); dec_sig s := option_map text_bytes (of_text (A := string) s);
  rsa_sign k t := Some (text_bytes (k +:+ t)); rsa_verify k t s := bool_decide (bytes_text s = k +:+ t) |}.

Lemma to_text_no_dot {A} `{Countable A} (a : A) : any_char (Ascii.eqb ".") (to_text a) = false.
Proof. unfold to_text. induction (encode a) as [p IH|p IH|]; simpl; auto. Qed.

#[local] Instance toy_laws : CryptoLaws.
Proof.
  refine {| pub_of := fun k : privkey => (k : pubkey) |}.
  - intros h. apply of_to_text.
  - intros c. apply of_to_text.
  - intros s. simpl. rewrite of_to_text. simpl. unfold text_bytes, bytes_text. by rewrite String.list_byte_of_string_of_list_byte.
  - intros h c s. simpl. by rewrite !to_text_no_dot.
  - intros k t s. simpl. intros [= <-]. apply bool_decide_eq_true. apply String.string_of_list_byte_of_string.
Defined.

Lemma token_window_witness :
  let c := mkClaims "sid" "user" "WEB" "HQ" "VIP" 0 1000 "" in
  let i := mkIssuer "k1" "secret" in let v := NewVerifier (SingleKey (Some "secret")) 0 in
  exists tok, Sign i (mkTime (100 * ns_per_sec) 0) (Some "jti") c = Ok tok /\
    Verify v (mkTime (1030 * ns_per_sec) 0) tok = Ok (mkClaims "sid" "user" "WEB" "HQ" "VIP" 100 1000 "jti") /\
    Verify v (mkTime (1031 * ns_per_sec) 0) tok = Err ErrJWTExpired.
Proof.
  intros c i v. destruct (Sign i (mkTime (100 * ns_per_sec) 0) (Some "jti") c) as [tok|e|] eqn:E; [|discriminate E|discriminate E].
  exists tok. split; [reflexivity|]. split.
  - apply (token_window i v (mkTime (100 * ns_per_sec) 0) (mkTime (1030 * ns_per_sec) 0) "jti" tok c E); [reflexivity|reflexivity|reflexivity|].
    split; vm_compute; discriminate.
  - apply (token_window i v (mkTime (100 * ns_per_sec) 0) (mkTime (1031 * ns_per_sec) 0) "jti" tok c E); reflexivity.
Defined.

(** * Who the request is from *)

(** A token that a known key signed with RS256, within its time window. *)
Definition signed `{Crypto} (v : Verifier) (now : Time) (tok : string) (c : Claims) : Prop :=
  exists p0 p1 p2 hdr pub sig, Split tok "." = [p0; p1; p2] /\ dec_header p0 = Some hdr /\ Alg hdr = "RS256" /\
    PublicKey (keys v) (Kid hdr) = Ok pub /\ dec_sig p2 = Some sig /\ rsa_verify pub (p0 +:+ "." +:+ p1) sig = true /\
    dec_claims p1 = Some c /\ (0 < EXP c -> Unix now <= EXP c + skewSec v) /\ (0 < IAT c -> IAT c <= Unix now + skewSec v).

Lemma Verify_sound `{Crypto} v now tok c : Verify v now tok = Ok c -> signed v now tok c.
Proof.
  unfold signed, Verify. destruct (Split tok ".") as [|p0 [|p1 [|p2 [|]]]]; try done.
  intros V. bind_inv V. destruct (dec_header p0) as [hdr|] eqn:Eh; [|done]. injection E as ->.
  destruct (decide (Alg a = "RS256")) as [Ha|]; [|done]. bind_inv V. bind_inv V.
  destruct (dec_sig p2) as [sig|] eqn:Es; [|done]. injection E0 as ->. destruct (rsa_verify _ _ _) eqn:Ev; [|done].
  bind_inv V. destruct (dec_claims p1) as [cl|] eqn:Ec; [|done]. injection E0 as ->.
  destruct (Z.ltb_spec 0 (EXP a2)), (Z.ltb_spec (EXP a2 + skewSec v) (Unix now)), (Z.ltb_spec 0 (IAT a2)), (Z.ltb_spec (Unix now + skewSec v) (IAT a2));
    simpl in V; try done; injection V as <-; exists p0, p1, p2, a, a0, a1; repeat split; try done; lia.
Qed.

(** A live session of the store. *)
Definition live (st : MemoryStore) (now : Time) (sid : string) (s : Session) : Prop :=
  exists r, sessions st !! sid = Some r /\ objs st r = s /\ Expired s now = false.

Lemma lookup_session_iff st now sid p :
  (lookup_session st now sid).2 = Ok p <-> exists s, live st now sid s /\ p = principalFromSession s.
Proof.
  unfold lookup_session, Get, get_read, live. destruct (sessions st !! sid) as [r|] eqn:E.
  2: { split; [done|]. intros (s & (r & ? & _) & _). congruence. }
  unfold get_finish. destruct (Expired (objs st r) now) eqn:Ex; simpl.
  - split; [done|]. intros (s & (r' & [= <-] & <- & ?) & _). congruence.
  - rewrite E. simpl. rewrite upd_eq. split.
    + intros [= <-]. exists (objs st r). split; [by exists r|done].
    + intros (s & (r' & [= <-] & <- & _) & ->). done.
Qed.

(** Outside development mode, and where edge headers are not trusted, a request is
    who its bearer token says: the answer does not depend on any other header, and a
    request is accepted only with a token that carries a valid RS256 signature of a
    known key within its time window and, where sessions are kept, names a live session
    whose user it becomes; or, without a verifier, with the identifier of a live
    session. Every other request of a non-public path is refused. *)
Theorem bearer_decides `{Crypto} (cfg : AuthConfig) (st : MemoryStore) (now : Time) (h : Headers) :
  DevMode cfg = false -> TrustEdgeHeaders cfg = false ->
  (forall h', Authorization h' = Authorization h -> authenticate cfg st now h' = authenticate cfg st now h) /\
  (forall p, (authenticate cfg st now h).2 = Ok p ->
     exists tok, bearerToken h = Ok tok /\
     match JWTVerifier cfg with
     | Some v => exists c, signed v now tok c /\
         if hasStore cfg then exists s, live st now (SID c) s /\ p = principalFromSession s
         else p = mkPrincipal (Usid c) (Chan c) (Site c) (Tier c) (SID c) None
     | None => exists s, live st now tok s /\ p = principalFromSession s
     end).
Proof.
  intros D T. unfold authenticate. rewrite D, T. split.
  - intros h' E. unfold authenticateJWT, authenticateSession, bearerToken. by rewrite E.
  - intros p. destruct (JWTVerifier cfg) as [v|].
    + unfold authenticateJWT. destruct (bearerToken h) as [tok|e|]; simpl; try done. destruct (Verify v now tok) as [c|e|] eqn:V; simpl; try done.
      intros Hp. exists tok. split; [done|]. exists c. split; [by apply Verify_sound|]. destruct (hasStore cfg); [by apply lookup_session_iff|].
      simpl in Hp. congruence.
    + destruct (hasStore cfg); [|done]. unfold authenticateSession. destruct (bearerToken h) as [tok|e|]; simpl; try done.
      intros Hp. exists tok. split; [done|]. by apply lookup_session_iff.
Qed.

Lemma bearer_decides_witness :
  let cfg := mkCfg false true None false in
  let st := mkStore {["s1" := 0%nat]} (fun _ => demo_session "s1" "alice" 100) in
  let h user := mkHeaders "Bearer s1" "" user "" "" "" in
  authenticate cfg st (mkTime 50 0) (h "mallory") = authenticate cfg st (mkTime 50 0) (h "") /\
  exists tok, bearerToken (h "mallory") = Ok tok /\ exists s, live st (mkTime 50 0) tok s /\ pr_Usid (principalFromSession s) = "alice".
Proof.
  intros cfg st h. destruct (bearer_decides cfg st (mkTime 50 0) (h "") eq_refl eq_refl) as [H1 _].
  destruct (bearer_decides cfg st (mkTime 50 0) (h "mallory") eq_refl eq_refl) as [_ H2].
  split; [apply H1; reflexivity|].
  destruct (H2 (principalFromSession (demo_session "s1" "alice" 100)) eq_refl) as (tok & Ht & s & Hs & Hp).
  exists tok. split; [exact Ht|]. exists s. split; [exact Hs|]. rewrite <-Hp. reflexivity.
Defined.

(** * Logout is final *)
Section logout.
Context `{Crypto} (d : Deps).

(** Requests as the handlers serve them; a login brings a session object of its own,
    and [w_late_put] is the last step of a refresh that overlapped other requests. *)
Inductive wstep : world -> string -> world -> Prop :=
| w_login w now ch u ck lg cif site tier r sid jti rt :
    (forall id r', sessions (w_sessions w) !! id = Some r' -> r' <> r) ->
    wstep w sid (finishLogin d w now ch u ck lg cif site tier r sid jti rt).1
| w_renew w now tok jti rt : wstep w "" (RefreshHandler d w now tok jti rt).1
| w_late_put w tok t : wstep w "" (mkWorld (w_sessions w) (<[tok := t]> (w_refresh w)))
| w_logout w sid : wstep w "" (logout_stores w sid)
| w_get w now sid : wstep w "" (mkWorld (Get (w_sessions w) now sid).1 (w_refresh w))
| w_sweep w now : wstep w "" (mkWorld (sweepOnce (w_sessions w) now) (Refresh.sweepOnce (w_refresh w) now)).

(** Served requests, none of which logs in under the identifier [sid]. *)
Inductive wsteps (sid : string) : world -> world -> Prop :=
| ws_nil w : wsteps sid w w
| ws_cons w l w' w'' : wstep w l w' -> l <> sid -> wsteps sid w' w'' -> wsteps sid w w''.

(** The identifier is gone, and the stored objects carry their identifiers. *)
Definition gone (sid : string) (w : world) : Prop :=
  sessions (w_sessions w) !! sid = None /\
  forall id r, sessions (w_sessions w) !! id = Some r -> ID (objs (w_sessions w) r) = id.

Lemma Get_gone st now id sid :
  (sessions st !! sid = None /\ forall i r, sessions st !! i = Some r -> ID (objs st r) = i) ->
  sessions (Get st now id).1 !! sid = None /\ forall i r, sessions (Get st now id).1 !! i = Some r -> ID (objs (Get st now id).1 r) = i.
Proof.
  intros [N K]. unfold Get, get_read. destruct (sessions st !! id) as [r|] eqn:E; [|done]. unfold get_finish.
  destruct (Expired (objs st r) now); rewrite E; simpl.
  - rewrite decide_True by done. simpl. split; [by apply lookup_delete_None; right|]. intros i r' [_ Hi]%lookup_delete_Some. by apply K.
  - split; [done|]. intros i r' Hi. destruct (decide (r' = r)) as [->|Nr]; [rewrite upd_eq; by apply K|rewrite upd_ne by done; by apply K].
Qed.

Lemma wstep_gone w l w' sid : wstep w l w' -> l <> sid -> gone sid w -> gone sid w'.
Proof.
  intros [w0 now ch u ck lg cif site tier r sid' jti rt Fr|w0 now tok jti rt|w0 tok t|w0 sid'|w0 now sid'|w0 now] Hl G; unfold gone in *.
  - assert (forall x, sessions (w_sessions x) = sessions (Put (mkStore (sessions (w_sessions w0)) (upd (objs (w_sessions w0)) r
       (mkSession sid' u ch ck now (Add now (ttl_or (SessionTTL d) defaultSessionTTL)) (mkTime (- (62135596800 * ns_per_sec)) 0) lg cif
          (mkProfile ch site tier) u ∅))) now r) ->
       objs (w_sessions x) = objs (Put (mkStore (sessions (w_sessions w0)) (upd (objs (w_sessions w0)) r
       (mkSession sid' u ch ck now (Add now (ttl_or (SessionTTL d) defaultSessionTTL)) (mkTime (- (62135596800 * ns_per_sec)) 0) lg cif
          (mkProfile ch site tier) u ∅))) now r) -> gone sid x) as Hx.
    { intros x Es Eo. unfold gone. rewrite Es, Eo. unfold Put. simpl. rewrite upd_eq. simpl. destruct G as [N K].
      split; [by rewrite lookup_insert_ne|]. intros i r' Hi. destruct (decide (i = sid')) as [->|Ni].
      - rewrite lookup_insert_eq in Hi. injection Hi as <-. by rewrite upd_eq.
      - rewrite lookup_insert_ne in Hi by done. pose proof (Fr i r' Hi). rewrite !upd_ne by done. by apply K. }
    apply Hx; unfold finishLogin; destruct (Sign _ _ _ _); try done; destruct (Refresh.Put _ _ _); done.
  - unfold RefreshHandler. destruct (Refresh.Consume _ _ _) as [rs [old|e|]]; simpl; try done.
    pose proof (Get_gone (w_sessions w0) now (Refresh.SID old) sid G) as GG.
    destruct (Get _ _ _) as [st [r|e|]]; simpl in *; try done. destruct (Sign _ _ _ _); simpl; try done. by destruct (Refresh.Put _ _ _).
  - exact G.
  - simpl. destruct G as [N K]. split; [by apply lookup_delete_None; right|]. intros i r' [_ Hi]%lookup_delete_Some. by apply K.
  - by apply Get_gone.
  - simpl. destruct G as [N K]. split; [by apply map_lookup_filter_None; left|]. intros i r' [Hi _]%map_lookup_filter_Some. by apply K.
Qed.
End logout.


Definition demo_deps : Deps (H := toy) := mkDeps (mkIssuer "k1" "secret") 0 0 0.
Definition demo_token (tok sid : string) : Refresh.RefreshToken := Refresh.mkToken tok sid "alice" "WEB" (mkTime 0 0) zt.
Definition demo_world : world := mkWorld (mkStore {["s1" := 0%nat]} (fun _ => demo_session "s1" "alice" 100)) {["t1" := demo_token "t1" "s1"]}.


(** A refresh signs claims without site and tier, which the login had put in: with a
    token renewed once, an edge that only verifies tokens no longer sees a profile. *)
Lemma refresh_drops_profile `{CryptoLaws} d w now now' tok jti rt res v c :
  (RefreshHandler d w now tok jti rt).2 = inl res -> PublicKey (keys v) (kid (issuer d)) = Ok (pub_of (key (issuer d))) ->
  Verify v now' (lr_access res) = Ok c -> ProfileKey c = "".
Proof.
  unfold RefreshHandler. destruct (Refresh.Consume _ _ _) as [rs [old|e|]]; simpl; try done.
  destruct (Get _ _ _) as [st [r|e|]]; simpl; try done. destruct (Sign _ _ _ _) as [access|e|] eqn:S; simpl; try done.
  destruct (Refresh.Put _ _ _); simpl; try done. intros [= <-] K V. simpl in V.
  rewrite (Verify_signed _ v now now' _ _ _ S K) in V. cbv zeta in V. do 2 (case_in V). injection V as <-.
  unfold ProfileKey, filled. simpl. by rewrite orb_true_r.
Qed.
