(* ===== verification/QuoteValidation.v ===== *)
(** The quote validation service (src/internal/price/quote_validation.go and
    quote_validation_swap.go) that matching engines call before they fill an
    order, with its engine allow-list (src/pkg/quoteid/etcd_allowlist.go).

    The handlers run against the interface [QuoteRegistry]; the in-process
    registry with its clock is the instance [memory_registry]. The server's clock
    [s.now] and the registry's are streams of readings, taken in order. Logging
    and the optional Prometheus observations are left out. *)

From Stdlib Require Import ZArith Lia Ascii.
From S2P Require Import Prelude GoStrings Float64 Session Dates GoTime QuoteID Registry.
Local Open Scope Z_scope.

(** * Engine allow-list *)
Definition PermValidate : string := "validate".
Definition PermMarkConsumed : string := "mark_consumed".

Record EngineMeta := mkMeta { em_Permissions : list string; em_ExpiresAt : string; em_Contact : string }.
Definition default_meta : EngineMeta := mkMeta [] "" "".

Definition HasPermission (m : EngineMeta) (op : string) : bool :=
  bool_decide (em_Permissions m = []) || bool_decide (op ∈ em_Permissions m).

Definition ExpiredAt (m : EngineMeta) (t : Z) : bool :=
  if decide (em_ExpiresAt m = "") then false
  else match parse_RFC3339 (em_ExpiresAt m) with
       | None => false
       | Some exp => negb (t <? t_ns exp)
       end.

(** The watcher mirrors the keys below [ew_prefix]; [unmarshal] is the JSON
    decoder. *)
Section watcher.
Context (unmarshal : string -> option EngineMeta).

Definition parseEngineMeta (raw : string) : EngineMeta * bool :=
  match raw with
  | "" => (default_meta, true)
  | String c _ =>
      if negb (Ascii.eqb c "{"%char) then (default_meta, true)
      else match unmarshal raw with Some m => (m, true) | None => (default_meta, false) end
  end.

Record EtcdAllowlistWatcher := mkWatcher { ew_prefix : string; ew_engines : gmap string EngineMeta }.

Definition engineFromKey (w : EtcdAllowlistWatcher) (key : string) : string :=
  if negb (HasPrefix key (ew_prefix w)) then "" else TrimPrefix key (ew_prefix w).

(** The failed parse is only logged: the returned default is stored. *)
Definition put_engine (w : EtcdAllowlistWatcher) (key value : string) : EtcdAllowlistWatcher :=
  let eng := engineFromKey w key in
  if decide (eng = "") then w
  else mkWatcher (ew_prefix w) (<[eng := fst (parseEngineMeta value)]> (ew_engines w)).
Definition delete_engine (w : EtcdAllowlistWatcher) (key : string) : EtcdAllowlistWatcher :=
  let eng := engineFromKey w key in
  if decide (eng = "") then w else mkWatcher (ew_prefix w) (delete eng (ew_engines w)).

Definition NewEtcdAllowlistWatcher (prefix : string) : EtcdAllowlistWatcher :=
  let prefix := if decide (prefix = "") then "wtg/quoteid/engines/" else prefix in
  mkWatcher (if HasSuffix prefix "/" then prefix else prefix +:+ "/") ∅.

(** [snapshotLocked] is the argument of the callback. *)
Definition initialLoad (w : EtcdAllowlistWatcher) (kvs : list (string * string))
    : EtcdAllowlistWatcher * gmap string EngineMeta :=
  let w := fold_left (fun w '(k, v) => put_engine w k v) kvs w in (w, ew_engines w).

Inductive event := EventPut (key value : string) | EventDelete (key : string).
Definition apply_event (w : EtcdAllowlistWatcher) (ev : event) : EtcdAllowlistWatcher :=
  match ev with EventPut k v => put_engine w k v | EventDelete k => delete_engine w k end.

(** [None]: no callback. *)
Definition applyEvents (w : EtcdAllowlistWatcher) (events : list event)
    : EtcdAllowlistWatcher * option (gmap string EngineMeta) :=
  if decide (events = []) then (w, None)
  else let w := fold_left apply_event events w in (w, Some (ew_engines w)).
End watcher.

(** * The registry as the service sees it *)
Inductive RegFail := FailSwapNotFound | Fail (msg : string).
Definition fail_text (e : RegFail) : string :=
  match e with FailSwapNotFound => "quoteid: swap not found" | Fail m => m end.

(** The batch calls answer one result per item, in the order of the items. *)
Class QuoteRegistry (R : Type) := {
  rg_Lookup : R -> string -> (RegFail + LookupResult) * R;
  rg_LookupMany : R -> list string -> (RegFail + list LookupResult) * R;
  rg_MarkConsumed : R -> string -> string -> (RegFail + ConsumeResult) * R;
  rg_MarkConsumedMany : R -> list ConsumeRequest -> (RegFail + list ConsumeResult) * R;
  rg_GetSwap : R -> string -> (RegFail + SwapRecord) * R }.

(** The in-process registry with the readings its clock will give. *)
Record ClockedMemory := mkClocked { cm_mem : MemoryRegistry; cm_now : nat -> Z; cm_reads : nat }.
Definition cm_after (c : ClockedMemory) (m : MemoryRegistry) (k : nat) : ClockedMemory :=
  mkClocked m (cm_now c) (cm_reads c + k).

#[export] Instance memory_registry : QuoteRegistry ClockedMemory := {|
  rg_Lookup c id :=
    (inr (Lookup (cm_mem c) (cm_now c (cm_reads c)) id), cm_after c (cm_mem c) 1);
  rg_LookupMany c ids :=
    (inr (LookupMany (cm_mem c) (imap (fun i id => (id, cm_now c (cm_reads c + i)%nat)) ids)),
     cm_after c (cm_mem c) (length ids));
  rg_MarkConsumed c id consumer :=
    let '(r, m) := MarkConsumed (cm_mem c) (cm_now c (cm_reads c)) (cm_now c (S (cm_reads c))) id consumer in
    (inr r, cm_after c m 2);
  rg_MarkConsumedMany c reqs :=
    let '(rs, m) := MarkConsumedMany (cm_mem c) (cm_now c (cm_reads c)) reqs in (inr rs, cm_after c m 1);
  rg_GetSwap c id :=
    match GetSwap (cm_mem c) (cm_now c (cm_reads c)) id with
    | (Ok sw, m) => (inr sw, cm_after c m 1)
    | (_, m) => (inl FailSwapNotFound, cm_after c m 1)
    end |}.

(** * Messages *)
Inductive ValidationStatus := STATUS_UNSPECIFIED | STATUS_OK | NOT_FOUND | EXPIRED | ALREADY_CONSUMED.
#[export] Instance ValidationStatus_eq_dec : EqDecision ValidationStatus.
Proof. solve_decision. Defined.

Record QuoteRecord := mkPB {
  pb_QuoteId : string; pb_Pair : string; pb_Channel : string; pb_Site : string; pb_Tier : string;
  pb_Tenor : string; pb_Bid : f64; pb_Ask : f64; pb_Issued : Z; pb_ValidUntil : Z;
  pb_Sequence : Z; pb_Issuer : string }.

Definition recordToProto (r : Record_) : QuoteRecord :=
  mkPB (r_QuoteID r) (r_Pair r) (p_Channel (r_Profile r)) (p_Site (r_Profile r)) (p_Tier (r_Profile r))
    (r_Tenor r) (r_Bid r) (r_Ask r) (r_IssuedAt r) (r_ValidUntil r) (r_Sequence r) (r_Issuer r).

Definition ordRejReasonNotFound : Z := 5.
Definition ordRejReasonExpired : Z := 13.
Definition ordRejReasonDuplicate : Z := 6.

Record ValidateResponse := mkVR {
  v_Status : ValidationStatus; v_Record : option QuoteRecord; v_OrdRejReason : Z; v_RejectText : string }.
Record MarkConsumedResponse := mkMR {
  mc_Status : ValidationStatus; mc_Record : option QuoteRecord; mc_ConsumedBy : string;
  mc_OrdRejReason : Z; mc_RejectText : string }.
Record ValidateSwapResponse := mkVS {
  vs_Status : ValidationStatus; vs_Near : option ValidateResponse; vs_Far : option ValidateResponse;
  vs_OrdRejReason : Z; vs_RejectText : string }.
Record ConsumeSwapResponse := mkCS {
  cs_Status : ValidationStatus; cs_Near : option MarkConsumedResponse; cs_Far : option MarkConsumedResponse;
  cs_OrdRejReason : Z; cs_RejectText : string }.

Inductive code := PermissionDenied | Internal | InvalidArgument | Unimplemented.
Definition rpc (A : Type) : Type := ((code * string) + A)%type.

(** * The server *)
Inductive Counter :=
| callsTotal | callsOK | callsNotFound | callsExpired | callsConsumed | callsInternal
| consumeTotal | consumeOK | consumeAlready | consumeNotFound | consumeExpired | consumeInternal
| batchTotal | batchItems | batchConsumeTotal | batchConsumeItems | deniedEngine
| swapValidateTotal | swapValidateOK | swapValidateNotFound | swapValidateExpired
| swapValidateConsumed | swapValidateInternal
| swapConsumeTotal | swapConsumeOK | swapConsumeAlready | swapConsumeNotFound | swapConsumeExpired
| swapConsumeInternal | swapConsumePartialRace.
#[export] Instance Counter_eq_dec : EqDecision Counter.
Proof. solve_decision. Defined.

Definition MaxBatchValidateSize : Z := 1000.
Definition MaxBatchConsumeSize : Z := 1000.

Section server.
Context {R : Type} `{QuoteRegistry R}.

Record QuoteValidationServer := mkServer {
  sv_registry : R;
  sv_allow : option (gmap string EngineMeta);
  sv_swapIdx : bool;
  sv_now : nat -> Z;
  sv_reads : nat;
  sv_count : Counter -> Z }.

Definition NewQuoteValidationServer (r : R) (now : nat -> Z) : QuoteValidationServer :=
  mkServer r None false now 0 (fun _ => 0).

Definition with_registry (s : QuoteValidationServer) (r : R) : QuoteValidationServer :=
  mkServer r (sv_allow s) (sv_swapIdx s) (sv_now s) (sv_reads s) (sv_count s).
Definition SetSwapIndex (s : QuoteValidationServer) : QuoteValidationServer :=
  mkServer (sv_registry s) (sv_allow s) true (sv_now s) (sv_reads s) (sv_count s).
Definition set_allow (s : QuoteValidationServer) (a : option (gmap string EngineMeta)) : QuoteValidationServer :=
  mkServer (sv_registry s) a (sv_swapIdx s) (sv_now s) (sv_reads s) (sv_count s).

(** [s.<counter>.Add(n)] on an [atomic.Uint64]. *)
Definition add_count (k : Counter) (n : Z) (s : QuoteValidationServer) : QuoteValidationServer :=
  mkServer (sv_registry s) (sv_allow s) (sv_swapIdx s) (sv_now s) (sv_reads s)
    (fun k' => if decide (k' = k) then wrap 64 (sv_count s k + n) else sv_count s k').
Definition Add (k : Counter) (s : QuoteValidationServer) : QuoteValidationServer := add_count k 1 s.

Definition read_now (s : QuoteValidationServer) : Z * QuoteValidationServer :=
  (sv_now s (sv_reads s),
   mkServer (sv_registry s) (sv_allow s) (sv_swapIdx s) (sv_now s) (S (sv_reads s)) (sv_count s)).

Definition SetEngineAllowlistMap (s : QuoteValidationServer) (m : gmap string EngineMeta) : QuoteValidationServer :=
  if decide (m = ∅) then set_allow s None else set_allow s (Some m).

Definition SetEngineAllowlist (s : QuoteValidationServer) (engines : list string) : QuoteValidationServer :=
  if decide (engines = []) then set_allow s None
  else SetEngineAllowlistMap s
         (fold_left (fun m e => if decide (e = "") then m else <[e := default_meta]> m) engines ∅).

(** [inl reason]: refused. *)
Definition checkEngine (s : QuoteValidationServer) (engineID op : string)
    : (string + unit) * QuoteValidationServer :=
  match sv_allow s with
  | None => (inr (), s)
  | Some mp =>
      match mp !! engineID with
      | None => (inl "engine_id not in allowlist", s)
      | Some meta =>
          let '(now, s) := read_now s in
          if ExpiredAt meta now then (inl "engine_id expired", s)
          else if negb (HasPermission meta op) then (inl ("engine_id lacks " +:+ op +:+ " permission"), s)
          else (inr (), s)
      end
  end.

Definition permissionDenied {A} (s : QuoteValidationServer) (reason : string) : rpc A * QuoteValidationServer :=
  (inl (PermissionDenied, if decide (reason = "") then "engine_id rejected" else reason), Add deniedEngine s).

Definition registry_error {A} (what : string) (e : RegFail) : rpc A :=
  inl (Internal, what +:+ ": " +:+ fail_text e).

Definition lookupToValidateResponse (s : QuoteValidationServer) (lr : LookupResult)
    : ValidateResponse * QuoteValidationServer :=
  if negb (l_Found lr) then
    (mkVR NOT_FOUND None ordRejReasonNotFound "quote_id not found", Add callsNotFound s)
  else
    let '(now, s) := read_now s in
    let rec := recordToProto (l_Record lr) in
    if negb (ValidAt (l_Record lr) now) then
      (mkVR EXPIRED (Some rec) ordRejReasonExpired "quote_id expired", Add callsExpired s)
    else if l_Consumed lr then
      (mkVR ALREADY_CONSUMED (Some rec) ordRejReasonDuplicate "quote_id already consumed", Add callsConsumed s)
    else (mkVR STATUS_OK (Some rec) 0 "", Add callsOK s).

Definition Validate (s : QuoteValidationServer) (engineID qid : string)
    : rpc ValidateResponse * QuoteValidationServer :=
  let s := Add callsTotal s in
  match checkEngine s engineID PermValidate with
  | (inl reason, s) => permissionDenied s reason
  | (inr _, s) =>
      if decide (qid = "") then
        (inr (mkVR NOT_FOUND None ordRejReasonNotFound "quote_id required"), Add callsNotFound s)
      else
        match rg_Lookup (sv_registry s) qid with
        | (inl e, r) => (registry_error "registry" e, Add callsInternal (with_registry s r))
        | (inr lr, r) =>
            let '(resp, s) := lookupToValidateResponse (with_registry s r) lr in (inr resp, s)
        end
  end.

(** The answer to a consumption; [unknown] is the text of the default case. *)
Definition consume_response (unknown : string) (r : ConsumeResult) : MarkConsumedResponse :=
  let rec := Some (recordToProto (cr_Record r)) in
  match cr_Status r with
  | ConsumeOK => mkMR STATUS_OK rec "" 0 ""
  | ConsumeAlreadyDone =>
      mkMR ALREADY_CONSUMED rec (cr_ConsumedBy r) ordRejReasonDuplicate "quote_id already consumed"
  | ConsumeNotFound => mkMR NOT_FOUND None "" ordRejReasonNotFound "quote_id not found"
  | ConsumeExpired => mkMR EXPIRED rec "" ordRejReasonExpired "quote_id expired"
  | ConsumeStatusUnknown => mkMR STATUS_UNSPECIFIED None "" 0 unknown
  end.
Definition consumeResultToProto : ConsumeResult -> MarkConsumedResponse := consume_response "internal error".
Definition swapConsumeResultToProto : ConsumeResult -> MarkConsumedResponse :=
  consume_response "unknown ConsumeStatus".

Definition consume_counter (st : ConsumeStatus) : Counter :=
  match st with
  | ConsumeOK => consumeOK
  | ConsumeAlreadyDone => consumeAlready
  | ConsumeNotFound => consumeNotFound
  | ConsumeExpired => consumeExpired
  | ConsumeStatusUnknown => consumeInternal
  end.

Definition MarkConsumed (s : QuoteValidationServer) (engineID qid consumerID : string)
    : rpc MarkConsumedResponse * QuoteValidationServer :=
  let s := Add consumeTotal s in
  match checkEngine s engineID PermMarkConsumed with
  | (inl reason, s) => permissionDenied s reason
  | (inr _, s) =>
      if decide (qid = "") then
        (inr (mkMR NOT_FOUND None "" ordRejReasonNotFound "quote_id required"), Add consumeNotFound s)
      else
        match rg_MarkConsumed (sv_registry s) qid consumerID with
        | (inl e, r) => (registry_error "registry" e, Add consumeInternal (with_registry s r))
        | (inr result, r) =>
            (inr (consume_response "unknown ConsumeStatus" result),
             Add (consume_counter (cr_Status result)) (with_registry s r))
        end
  end.

Fixpoint validate_all (s : QuoteValidationServer) (lookups : list LookupResult)
    : list ValidateResponse * QuoteValidationServer :=
  match lookups with
  | [] => ([], s)
  | lr :: lookups =>
      let '(resp, s) := lookupToValidateResponse (Add callsTotal s) lr in
      let '(resps, s) := validate_all s lookups in (resp :: resps, s)
  end.

Definition too_large {A} (size max : Z) : rpc A :=
  inl (InvalidArgument, "batch size " +:+ pretty.pretty size +:+ " exceeds max " +:+ pretty.pretty max).

Definition BatchValidate (s : QuoteValidationServer) (engineID : string) (ids : list string)
    : rpc (list ValidateResponse) * QuoteValidationServer :=
  let s := Add batchTotal s in
  match checkEngine s engineID PermValidate with
  | (inl reason, s) => permissionDenied s reason
  | (inr _, s) =>
      if decide (ids = []) then (inr [], s)
      else if MaxBatchValidateSize <? zlen ids then (too_large (zlen ids) MaxBatchValidateSize, s)
      else
        let s := add_count batchItems (zlen ids) s in
        match rg_LookupMany (sv_registry s) ids with
        | (inl e, r) => (registry_error "registry" e, Add callsInternal (with_registry s r))
        | (inr lookups, r) => let '(resps, s) := validate_all (with_registry s r) lookups in (inr resps, s)
        end
  end.

(** The default case counts nothing but the total. *)
Fixpoint count_consumed (s : QuoteValidationServer) (rs : list ConsumeResult) : QuoteValidationServer :=
  match rs with
  | [] => s
  | r :: rs =>
      let s := if decide (cr_Status r = ConsumeStatusUnknown) then s else Add (consume_counter (cr_Status r)) s in
      count_consumed (Add consumeTotal s) rs
  end.

Definition BatchMarkConsumed (s : QuoteValidationServer) (engineID : string) (items : list ConsumeRequest)
    : rpc (list MarkConsumedResponse) * QuoteValidationServer :=
  let s := Add batchConsumeTotal s in
  match checkEngine s engineID PermMarkConsumed with
  | (inl reason, s) => permissionDenied s reason
  | (inr _, s) =>
      if decide (items = []) then (inr [], s)
      else if MaxBatchConsumeSize <? zlen items then (too_large (zlen items) MaxBatchConsumeSize, s)
      else
        let s := add_count batchConsumeItems (zlen items) s in
        match rg_MarkConsumedMany (sv_registry s) items with
        | (inl e, r) => (registry_error "registry" e, Add consumeInternal (with_registry s r))
        | (inr rs, r) => (inr (map consumeResultToProto rs), count_consumed (with_registry s r) rs)
        end
  end.

(** ** Swaps *)
Definition status_rank (st : ValidationStatus) : Z :=
  match st with
  | NOT_FOUND => 4 | ALREADY_CONSUMED => 3 | EXPIRED => 2 | STATUS_OK => 1 | STATUS_UNSPECIFIED => 0
  end.
Definition worstStatus (a b : ValidationStatus) : ValidationStatus :=
  if status_rank b <=? status_rank a then a else b.

(** Counter, FIX reason and text for the status of the pair of legs. *)
Definition validate_verdict (st : ValidationStatus) : Counter * Z * string :=
  match st with
  | STATUS_OK => (swapValidateOK, 0, "")
  | EXPIRED => (swapValidateExpired, ordRejReasonExpired, "swap leg expired")
  | ALREADY_CONSUMED => (swapValidateConsumed, ordRejReasonDuplicate, "swap leg already consumed")
  | _ => (swapValidateNotFound, ordRejReasonNotFound, "swap leg not found")
  end.

Definition no_index {A} : rpc A := inl (Unimplemented, "SwapIndex 미주입 — mci-price 가 swap 미활성").

Definition ValidateSwap (s : QuoteValidationServer) (engineID swapID : string)
    : rpc ValidateSwapResponse * QuoteValidationServer :=
  let s := Add swapValidateTotal s in
  match checkEngine s engineID PermValidate with
  | (inl reason, s) => permissionDenied s reason
  | (inr _, s) =>
      if negb (sv_swapIdx s) then (no_index, s)
      else if decide (swapID = "") then
        (inr (mkVS NOT_FOUND None None ordRejReasonNotFound "swap_id required"), Add swapValidateNotFound s)
      else
        match rg_GetSwap (sv_registry s) swapID with
        | (inl FailSwapNotFound, r) =>
            (inr (mkVS NOT_FOUND None None ordRejReasonNotFound "swap_id not found"),
             Add swapValidateNotFound (with_registry s r))
        | (inl e, r) => (registry_error "swap index" e, Add swapValidateInternal (with_registry s r))
        | (inr sw, r) =>
            let s := with_registry s r in
            match rg_LookupMany (sv_registry s) [s_NearID sw; s_FarID sw] with
            | (inl e, r) => (registry_error "registry" e, Add swapValidateInternal (with_registry s r))
            | (inr [n; f], r) =>
                let '(nearResp, s) := lookupToValidateResponse (with_registry s r) n in
                let '(farResp, s) := lookupToValidateResponse s f in
                let st := worstStatus (v_Status nearResp) (v_Status farResp) in
                let '(k, reason, text) := validate_verdict st in
                (inr (mkVS st (Some nearResp) (Some farResp) reason text), Add k s)
            | (inr l, r) =>
                (inl (Internal, "lookup len=" +:+ pretty.pretty (zlen l) +:+ " (기대 2)"),
                 Add swapValidateInternal (with_registry s r))
            end
        end
  end.

Definition preValidateToConsumeShape (v : ValidateResponse) : MarkConsumedResponse :=
  mkMR (v_Status v) (v_Record v) "" (v_OrdRejReason v) (v_RejectText v).

Definition pre_verdict (st : ValidationStatus) : Counter * Z * string :=
  match st with
  | EXPIRED => (swapConsumeExpired, ordRejReasonExpired, "swap leg expired")
  | ALREADY_CONSUMED => (swapConsumeAlready, ordRejReasonDuplicate, "swap leg already consumed")
  | _ => (swapConsumeNotFound, ordRejReasonNotFound, "swap leg not found")
  end.

(** The second switch of ConsumeSwap, after the marks. *)
Definition consume_verdict (s : QuoteValidationServer) (st : ValidationStatus)
    : QuoteValidationServer * Z * string :=
  match st with
  | STATUS_OK => (Add swapConsumeOK s, 0, "")
  | EXPIRED => (Add swapConsumeExpired s, ordRejReasonExpired, "swap leg expired")
  | ALREADY_CONSUMED =>
      (Add swapConsumePartialRace (Add swapConsumeAlready s), ordRejReasonDuplicate,
       "swap leg already consumed (partial — race)")
  | _ => (Add swapConsumeNotFound s, ordRejReasonNotFound, "swap leg not found")
  end.

(** Second phase of ConsumeSwap. *)
Definition consume_legs (s : QuoteValidationServer) (sw : SwapRecord) (consumerID : string)
    : rpc ConsumeSwapResponse * QuoteValidationServer :=
  match rg_MarkConsumedMany (sv_registry s) [mkReq (s_NearID sw) consumerID; mkReq (s_FarID sw) consumerID] with
  | (inl e, r) => (registry_error "mark consumed" e, Add swapConsumeInternal (with_registry s r))
  | (inr [n; f], r) =>
      let nearMC := swapConsumeResultToProto n in
      let farMC := swapConsumeResultToProto f in
      let st := worstStatus (mc_Status nearMC) (mc_Status farMC) in
      let '(s, reason, text) := consume_verdict (with_registry s r) st in
      (inr (mkCS st (Some nearMC) (Some farMC) reason text), s)
  | (inr l, r) =>
      (inl (Internal, "mark consumed len=" +:+ pretty.pretty (zlen l)), Add swapConsumeInternal (with_registry s r))
  end.

(** [others] is what other callers do to the shared registry between the
    pre-check and the marks. *)
Definition ConsumeSwap (others : R -> R) (s : QuoteValidationServer) (engineID swapID consumerID : string)
    : rpc ConsumeSwapResponse * QuoteValidationServer :=
  let s := Add swapConsumeTotal s in
  match checkEngine s engineID PermMarkConsumed with
  | (inl reason, s) => permissionDenied s reason
  | (inr _, s) =>
      if negb (sv_swapIdx s) then (no_index, s)
      else if decide (swapID = "") then
        (inr (mkCS NOT_FOUND None None ordRejReasonNotFound "swap_id required"), Add swapConsumeNotFound s)
      else
        match rg_GetSwap (sv_registry s) swapID with
        | (inl FailSwapNotFound, r) =>
            (inr (mkCS NOT_FOUND None None ordRejReasonNotFound "swap_id not found"),
             Add swapConsumeNotFound (with_registry s r))
        | (inl e, r) => (registry_error "swap index" e, Add swapConsumeInternal (with_registry s r))
        | (inr sw, r) =>
            let s := with_registry s r in
            match rg_LookupMany (sv_registry s) [s_NearID sw; s_FarID sw] with
            | (inl e, r) => (registry_error "registry" e, Add swapConsumeInternal (with_registry s r))
            | (inr [n; f], r) =>
                let '(preNear, s) := lookupToValidateResponse (with_registry s r) n in
                let '(preFar, s) := lookupToValidateResponse s f in
                let st := worstStatus (v_Status preNear) (v_Status preFar) in
                if decide (st = STATUS_OK) then
                  consume_legs (with_registry s (others (sv_registry s))) sw consumerID
                else
                  let '(k, reason, text) := pre_verdict st in
                  (inr (mkCS st (Some (preValidateToConsumeShape preNear))
                          (Some (preValidateToConsumeShape preFar)) reason text), Add k s)
            | (inr l, r) =>
                (inl (Internal, "lookup len=" +:+ pretty.pretty (zlen l) +:+ " (기대 2)"),
                 Add swapConsumeInternal (with_registry s r))
            end
        end
  end.

(** [LookupReadonly] and the counters [Stats] publishes. *)
Definition LookupReadonly (s : QuoteValidationServer) (id : string)
    : (RegFail + LookupResult) * QuoteValidationServer :=
  let '(lr, r) := rg_Lookup (sv_registry s) id in (lr, with_registry s r).
Definition stats_counters : list Counter :=
  [callsTotal; callsOK; callsNotFound; callsExpired; callsConsumed; callsInternal;
   consumeTotal; consumeOK; consumeAlready; consumeNotFound; consumeExpired; consumeInternal;
   batchTotal; batchItems; batchConsumeTotal; batchConsumeItems; deniedEngine].
Definition Stats (s : QuoteValidationServer) : list Z := map (sv_count s) stats_counters.
End server.
Arguments QuoteValidationServer R : clear implicits.
