(* ===== verification/QuoteValidationLaws.v ===== *)
(** Theorems about the quote validation service: who may call it, what each call
    answers and changes (an abstract machine over quote statuses that all six
    handlers refine), and when a swap is consumed as a whole. *)

From Stdlib Require Import ZArith Lia.
From S2P Require Import Prelude GoStrings Float64 Session Dates GoTime QuoteID Registry RegistryLaws.
From S2P Require Import QuoteValidation.
Local Open Scope Z_scope.

(** * Access control *)
Inductive Call :=
| CValidate (qid : string)
| CMark (qid consumer : string)
| CBatchValidate (ids : list string)
| CBatchMark (items : list ConsumeRequest)
| CValidateSwap (id : string)
| CConsumeSwap (id consumer : string).

Definition op_of (c : Call) : string :=
  match c with
  | CValidate _ | CBatchValidate _ | CValidateSwap _ => PermValidate
  | _ => PermMarkConsumed
  end.

Definition rpc_map {A B S} (f : A -> B) (p : rpc A * S) : rpc B * S :=
  (match fst p with inl e => inl e | inr a => inr (f a) end, snd p).

Section calls.
Context {R : Type} `{QuoteRegistry R} (others : R -> R).

(** A call, its response reduced to the statuses it carries. *)
Definition call (s : QuoteValidationServer R) (engine : string) (c : Call)
    : rpc (list ValidationStatus) * QuoteValidationServer R :=
  match c with
  | CValidate qid => rpc_map (fun r => [v_Status r]) (Validate s engine qid)
  | CMark qid consumer => rpc_map (fun r => [mc_Status r]) (QuoteValidation.MarkConsumed s engine qid consumer)
  | CBatchValidate ids => rpc_map (map v_Status) (BatchValidate s engine ids)
  | CBatchMark items => rpc_map (map mc_Status) (BatchMarkConsumed s engine items)
  | CValidateSwap id => rpc_map (fun r => [vs_Status r]) (ValidateSwap s engine id)
  | CConsumeSwap id consumer => rpc_map (fun r => [cs_Status r]) (ConsumeSwap others s engine id consumer)
  end.

(** The allow-list as documented: no list admits everyone, otherwise the engine
    is listed, has not expired, and has the permission or no permission list. *)
Definition engine_ok (s : QuoteValidationServer R) (t : Z) (engine op : string) : bool :=
  match sv_allow s with
  | None => true
  | Some mp =>
      match mp !! engine with
      | None => false
      | Some meta => negb (ExpiredAt meta t) && HasPermission meta op
      end
  end.

(** Everything but the counters and the clock position. *)
Definition core (s : QuoteValidationServer R) : R * option (gmap string EngineMeta) * bool * (nat -> Z) :=
  (sv_registry s, sv_allow s, sv_swapIdx s, sv_now s).

Lemma core_eq s s' : core s' = core s ->
  sv_registry s' = sv_registry s /\ sv_allow s' = sv_allow s /\ sv_swapIdx s' = sv_swapIdx s /\
  sv_now s' = sv_now s.
Proof. unfold core. by intros [= -> -> -> ->]. Qed.

Lemma checkEngine_spec s engine op r s' :
  checkEngine s engine op = (r, s') ->
  core s' = core s /\
  engine_ok s (sv_now s (sv_reads s)) engine op = match r with inr _ => true | inl _ => false end.
Proof.
  unfold checkEngine, engine_ok. intros E. destruct (sv_allow s) as [mp|] eqn:Ea; [|by simplify_eq].
  destruct (mp !! engine) as [meta|]; [|by simplify_eq]. cbn in E.
  destruct (ExpiredAt _ _); [by simplify_eq/=|]. destruct (HasPermission _ _); by simplify_eq/=.
Qed.

Lemma gate {A} k (s : QuoteValidationServer R) engine op (body : QuoteValidationServer R -> rpc A * QuoteValidationServer R) :
  (forall s, from_option fst Internal (match fst (body s) with inl e => Some e | inr _ => None end) <> PermissionDenied) ->
  let res := match checkEngine (Add k s) engine op with
             | (inl reason, s) => permissionDenied s reason
             | (inr _, s) => body s
             end in
  ((exists text, fst res = inl (PermissionDenied, text)) <->
   engine_ok s (sv_now s (sv_reads s)) engine op = false) /\
  (engine_ok s (sv_now s (sv_reads s)) engine op = false -> core (snd res) = core s).
Proof.
  intros Hb. destruct (checkEngine (Add k s) engine op) as [[reason|u] s'] eqn:E;
    apply checkEngine_spec in E as [Hc E];
    change (engine_ok (Add k s) ?t engine op) with (engine_ok s t engine op) in E;
    change (sv_now (Add k s) (sv_reads (Add k s))) with (sv_now s (sv_reads s)) in E; cbv zeta; rewrite E.
  - split; [|done]. split; [done|]. intros _. by eexists.
  - split; [|done]. split; [|done]. intros [text Ht]. specialize (Hb s'). by rewrite Ht in Hb.
Qed.

Ltac no_denial := intros; unfold consume_legs, registry_error, too_large, no_index; repeat case_match; simplify_eq/=; try done.

Lemma rpc_map_err {A B S} (f : A -> B) (p : rpc A * S) e : fst (rpc_map f p) = inl e <-> fst p = inl e.
Proof. destruct p as [[?|?] ?]; simpl; split; congruence. Qed.
Lemma rpc_map_snd {A B S} (f : A -> B) (p : rpc A * S) : snd (rpc_map f p) = snd p.
Proof. done. Qed.

(** Access control is complete: whatever the registry behind it, every one of
    the six calls answers PermissionDenied exactly when the engine is not allowed
    the call's permission at the moment of the check (allow-list present, engine
    missing, expired, or without the permission), and then the registry, the
    allow-list and the swap index are untouched. *)
Theorem rbac_enforced s engine c :
  ((exists text, fst (call s engine c) = inl (PermissionDenied, text)) <->
   engine_ok s (sv_now s (sv_reads s)) engine (op_of c) = false) /\
  (engine_ok s (sv_now s (sv_reads s)) engine (op_of c) = false ->
   core (snd (call s engine c)) = core s).
Proof.
  destruct c; unfold call; setoid_rewrite rpc_map_err; rewrite rpc_map_snd; apply gate; no_denial.
Qed.
End calls.

Ltac core_inv H :=
  let Hreg := fresh "Hreg" in let Hallow := fresh "Hallow" in
  let Hidx := fresh "Hidx" in let Hnow := fresh "Hnow" in
  apply core_eq in H as (Hreg & Hallow & Hidx & Hnow).

(** * What the calls answer

    The abstract machine: a status for every quote id. Validation reads it;
    consumption reads it and turns OK into ALREADY_CONSUMED. *)
Definition statuses : Type := string -> ValidationStatus.
Definition consume1 (q : statuses) (id : string) : statuses :=
  fun id' => if decide (id' = id) then match q id with STATUS_OK => ALREADY_CONSUMED | st => st end else q id'.
Fixpoint consume_seq (q : statuses) (ids : list string) : list ValidationStatus * statuses :=
  match ids with
  | [] => ([], q)
  | id :: ids => let '(sts, q') := consume_seq (consume1 q id) ids in (q id :: sts, q')
  end.

(** [sw] names the legs of a swap. *)
Definition spec_call (sw : string -> option (string * string)) (q : statuses) (c : Call)
    : list ValidationStatus * statuses :=
  match c with
  | CValidate id => ([q id], q)
  | CMark id _ => ([q id], consume1 q id)
  | CBatchValidate ids => (map q ids, q)
  | CBatchMark items => consume_seq q (map q_QuoteID items)
  | CValidateSwap id =>
      match sw id with None => ([NOT_FOUND], q) | Some (n, f) => ([worstStatus (q n) (q f)], q) end
  | CConsumeSwap id _ =>
      match sw id with
      | None => ([NOT_FOUND], q)
      | Some (n, f) =>
          if decide (worstStatus (q n) (q f) = STATUS_OK)
          then ([worstStatus (q n) (consume1 q n f)], consume1 (consume1 q n) f)
          else ([worstStatus (q n) (q f)], q)
      end
  end.

(** The statuses of a registry at time [t]. *)
Definition quote_status (m : MemoryRegistry) (t : Z) : statuses := fun id =>
  match live m t id with
  | None => NOT_FOUND
  | Some rec =>
      if negb (ValidAt rec t) then EXPIRED
      else if bool_decide (is_Some (m_consumed m !! id)) then ALREADY_CONSUMED else STATUS_OK
  end.
Definition swap_legs (m : MemoryRegistry) (t : Z) (id : string) : option (string * string) :=
  match m_swaps m !! id with
  | None => None
  | Some sw => if expired m (s_ValidUntil sw) t then None else Some (s_NearID sw, s_FarID sw)
  end.

Definition status_of (st : ConsumeStatus) : ValidationStatus :=
  match st with
  | ConsumeOK => STATUS_OK | ConsumeAlreadyDone => ALREADY_CONSUMED | ConsumeNotFound => NOT_FOUND
  | ConsumeExpired => EXPIRED | ConsumeStatusUnknown => STATUS_UNSPECIFIED
  end.

Lemma consume_response_status text r : mc_Status (consume_response text r) = status_of (cr_Status r).
Proof. unfold consume_response. by destruct (cr_Status r). Qed.

Lemma lookup_status m t id :
  quote_status m t id =
  let lr := Lookup m t id in
  if negb (l_Found lr) then NOT_FOUND
  else if negb (ValidAt (l_Record lr) t) then EXPIRED
  else if l_Consumed lr then ALREADY_CONSUMED else STATUS_OK.
Proof.
  unfold quote_status, live, Lookup, lookupLocked. destruct (m_records m !! id) as [rec|]; [|done].
  by destruct (expired m (r_ValidUntil rec) t).
Qed.

Lemma quote_status_ext m m' t id :
  m_records m' !! id = m_records m !! id -> m_consumed m' !! id = m_consumed m !! id ->
  m_grace m' = m_grace m -> quote_status m' t id = quote_status m t id.
Proof. unfold quote_status, live, expired. by intros -> -> ->. Qed.

(** One consumption at one reading of the clock. *)
Lemma mark_spec m t id c :
  let '(r, m') := Registry.MarkConsumed m t t id c in
  status_of (cr_Status r) = quote_status m t id /\
  (forall id', quote_status m' t id' = consume1 (quote_status m t) id id') /\
  m_swaps m' = m_swaps m /\ m_grace m' = m_grace m.
Proof.
  unfold Registry.MarkConsumed, consume1.
  destruct (m_records m !! id) as [rec|] eqn:Er.
  2:{ simpl. unfold quote_status at 1 4, live. rewrite Er. split_and!; try done.
      intros id'. destruct (decide (id' = id)) as [->|]; [|done]. unfold quote_status, live. by rewrite Er. }
  destruct (expired m (r_ValidUntil rec) t) eqn:Ex.
  { simpl. assert (quote_status m t id = NOT_FOUND) as Q by (unfold quote_status, live; by rewrite Er, Ex).
    rewrite Q. split_and!; try done. intros id'. destruct (decide (id' = id)) as [->|Hne].
    - unfold quote_status, live. simpl. by rewrite lookup_delete_eq.
    - apply quote_status_ext; simpl; rewrite ?lookup_delete_ne; done. }
  assert (quote_status m t id = if negb (ValidAt rec t) then EXPIRED else
    if bool_decide (is_Some (m_consumed m !! id)) then ALREADY_CONSUMED else STATUS_OK) as Q
    by (unfold quote_status, live; by rewrite Er, Ex).
  destruct (ValidAt rec t) eqn:Ev; simpl in Q.
  2:{ simpl. rewrite Q. split_and!; try done. intros id'. by destruct (decide (id' = id)) as [->|]. }
  destruct (m_consumed m !! id) as [prev|] eqn:Ec.
  - rewrite bool_decide_eq_true_2 in Q by eauto. simpl. rewrite Q. split_and!; try done.
    intros id'. by destruct (decide (id' = id)) as [->|].
  - rewrite bool_decide_eq_false_2 in Q by (by intros [? ?]). simpl. rewrite Q. split_and!; try done.
    intros id'. destruct (decide (id' = id)) as [->|Hne].
    + unfold quote_status, live. simpl. rewrite Er.
      change (expired (set_consumed m _) ?v t) with (expired m v t). rewrite Ex, Ev, lookup_insert_eq.
      by rewrite bool_decide_eq_true_2 by eauto.
    + apply quote_status_ext; simpl; rewrite ?lookup_insert_ne; done.
Qed.

Lemma consume_seq_ext q q' ids :
  (forall id, q id = q' id) ->
  fst (consume_seq q ids) = fst (consume_seq q' ids) /\
  forall id, snd (consume_seq q ids) id = snd (consume_seq q' ids) id.
Proof.
  revert q q'. induction ids as [|i ids IH]; intros q q' Hq; [done|]. simpl.
  destruct (IH (consume1 q i) (consume1 q' i)) as [E1 E2].
  { intros id. unfold consume1. by rewrite !Hq. }
  destruct (consume_seq (consume1 q i) ids), (consume_seq (consume1 q' i) ids). simpl in *.
  by rewrite E1, Hq.
Qed.

Lemma mark_many_spec m t reqs :
  let '(rs, m') := MarkConsumedMany m t reqs in
  map (fun r => status_of (cr_Status r)) rs = fst (consume_seq (quote_status m t) (map q_QuoteID reqs)) /\
  (forall id, quote_status m' t id = snd (consume_seq (quote_status m t) (map q_QuoteID reqs)) id) /\
  m_swaps m' = m_swaps m /\ m_grace m' = m_grace m /\ length rs = length reqs.
Proof.
  rewrite MarkConsumedMany_seq. revert m. induction reqs as [|req reqs IH]; intros m; [done|]. simpl.
  pose proof (mark_spec m t (q_QuoteID req) (q_ConsumerID req)) as M.
  destruct (Registry.MarkConsumed _ _ _ _ _) as [r m1]. destruct M as (Hs & Hq & Hw & Hg).
  specialize (IH m1). destruct (mark_seq m1 t reqs) as [rs m2]. destruct IH as (I1 & I2 & I3 & I4 & I5).
  destruct (consume_seq_ext _ _ (map q_QuoteID reqs) Hq) as [E1 E2]. simpl.
  rewrite I1, Hs, E1, I3, I4, I5. destruct (consume_seq (consume1 _ _) _) eqn:Ec. simpl in *.
  split_and!; try done. intros id. by rewrite I2, E2.
Qed.

(** * Refinement *)

(** Every reading of both clocks is [t]. *)
Definition frozen (s : QuoteValidationServer ClockedMemory) (t : Z) : Prop :=
  (forall i, sv_now s i = t) /\ (forall i, cm_now (sv_registry s) i = t).
Definition mem (s : QuoteValidationServer ClockedMemory) : MemoryRegistry := cm_mem (sv_registry s).

Lemma mem_Add k s : mem (Add k s) = mem s.
Proof. done. Qed.

Definition batch_fits (c : Call) : Prop :=
  match c with
  | CBatchValidate ids => zlen ids <= MaxBatchValidateSize
  | CBatchMark items => zlen items <= MaxBatchConsumeSize
  | _ => True
  end.

Lemma respond_spec (s : QuoteValidationServer ClockedMemory) t id :
  (forall i, sv_now s i = t) ->
  let '(resp, s') := lookupToValidateResponse s (Lookup (mem s) t id) in
  v_Status resp = quote_status (mem s) t id /\ core s' = core s.
Proof.
  intros Hn. rewrite lookup_status. unfold lookupToValidateResponse. cbv zeta.
  destruct (l_Found _); simpl; [|done]. rewrite Hn. destruct (ValidAt _ _); simpl; [|done].
  by destruct (l_Consumed _).
Qed.

Lemma validate_all_spec (s : QuoteValidationServer ClockedMemory) t ids m :
  (forall i, sv_now s i = t) -> mem s = m ->
  let '(resps, s') := validate_all s (map (Lookup m t) ids) in
  map v_Status resps = map (quote_status m t) ids /\ core s' = core s.
Proof.
  intros Hn <-. revert s Hn. induction ids as [|id ids IH]; intros s Hn; [done|]. simpl.
  pose proof (respond_spec (Add callsTotal s) t id Hn) as Hr.
  change (mem (Add callsTotal s)) with (mem s) in Hr.
  destruct (lookupToValidateResponse _ _) as [resp s1]. destruct Hr as [Hr Hc].
  change (core (Add callsTotal s)) with (core s) in Hc.
  assert (mem s1 = mem s) as Hm by (unfold mem; unfold core in Hc; congruence).
  assert (sv_now s1 = sv_now s) as Hn1 by (unfold core in Hc; congruence).
  specialize (IH s1 ltac:(by rewrite Hn1)). rewrite Hm in IH.
  destruct (validate_all s1 _) as [resps s2]. destruct IH as [I1 I2]. simpl.
  rewrite Hr, I1. split; congruence.
Qed.

Lemma lookups_frozen (c : ClockedMemory) t ids k :
  (forall i, cm_now c i = t) ->
  LookupMany (cm_mem c) (imap (fun i id => (id, cm_now c (k + i)%nat)) ids) = map (Lookup (cm_mem c) t) ids.
Proof.
  intros Hc. rewrite (imap_ext _ (fun _ id => (id, t))) by (intros; simpl; by rewrite Hc).
  unfold LookupMany. induction ids as [|id ids IH]; [done|]. simpl. f_equal. exact IH.
Qed.

(** A call that passes the gate. *)
Lemma gate_open {A} k (s : QuoteValidationServer ClockedMemory) t engine op
    (body : QuoteValidationServer ClockedMemory -> rpc A * QuoteValidationServer ClockedMemory)
    (P : rpc A * QuoteValidationServer ClockedMemory -> Prop) :
  frozen s t -> engine_ok s t engine op = true ->
  (forall s', core s' = core s -> frozen s' t -> mem s' = mem s -> P (body s')) ->
  P (match checkEngine (Add k s) engine op with
     | (inl reason, s) => permissionDenied s reason
     | (inr _, s) => body s
     end).
Proof.
  intros [Hn Hc] He Hb. destruct (checkEngine (Add k s) engine op) as [r s'] eqn:E.
  apply checkEngine_spec in E as [Hcore E].
  change (core (Add k s)) with (core s) in Hcore.
  change (engine_ok (Add k s) (sv_now s (sv_reads s)) engine op = match r with inr _ => true | inl _ => false end) in E.
  change (engine_ok (Add k s) ?t engine op) with (engine_ok s t engine op) in E. rewrite Hn, He in E.
  destruct r; [done|]. apply Hb; [done|..].
  - unfold core in Hcore. simplify_eq. split; [intros i|intros i]; congruence.
  - unfold mem, core in *. congruence.
Qed.

Definition answers (s : QuoteValidationServer ClockedMemory) (t : Z)
    (p : rpc (list ValidationStatus) * QuoteValidationServer ClockedMemory)
    (spec : list ValidationStatus * statuses) : Prop :=
  fst p = inr (fst spec) /\ (forall id, quote_status (mem (snd p)) t id = snd spec id) /\
  sv_allow (snd p) = sv_allow s /\ m_grace (mem (snd p)) = m_grace (mem s).

Lemma status_absent m t id : m_records m !! id = None -> quote_status m t id = NOT_FOUND.
Proof. unfold quote_status, live. by intros ->. Qed.

Section refines.
Context (s : QuoteValidationServer ClockedMemory) (t : Z) (engine : string).
Context (Hf : frozen s t) (Hwf : m_records (mem s) !! "" = None).

Lemma Validate_refines sw id :
  engine_ok s t engine PermValidate = true ->
  answers s t (call (fun r => r) s engine (CValidate id)) (spec_call sw (quote_status (mem s) t) (CValidate id)).
Proof using Hf Hwf.
  intros He. unfold call, Validate.
  apply (gate_open _ s t engine _ _ (fun p => answers s t (rpc_map _ p) _) Hf He).
  intros s' Hc [Hn Hcl] Hm. core_inv Hc. destruct (decide (id = "")) as [->|Hid].
  - unfold answers. cbn [rpc_map fst snd spec_call v_Status]. rewrite status_absent by done.
    rewrite mem_Add, Hm. done.
  - cbn [rg_Lookup memory_registry]. rewrite Hcl.
    pose proof (respond_spec (with_registry s' (cm_after (sv_registry s') (cm_mem (sv_registry s')) 1)) t id Hn) as Hr.
    change (mem (with_registry s' _)) with (mem s') in Hr. unfold mem in Hr at 1.
    destruct (lookupToValidateResponse _ _) as [resp s2]. destruct Hr as [Hr Hc2]. core_inv Hc2.
    unfold answers. cbn [rpc_map fst snd spec_call]. rewrite Hr, Hm.
    assert (mem s2 = mem s) as -> by (unfold mem; rewrite Hreg0; exact Hm).
    split_and!; [done|done|by rewrite Hallow0|done].
Qed.

Lemma BatchValidate_refines sw ids :
  engine_ok s t engine PermValidate = true -> batch_fits (CBatchValidate ids) ->
  answers s t (call (fun r => r) s engine (CBatchValidate ids))
    (spec_call sw (quote_status (mem s) t) (CBatchValidate ids)).
Proof using Hf.
  intros He Hb. unfold call, BatchValidate.
  apply (gate_open _ s t engine _ _ (fun p => answers s t (rpc_map _ p) _) Hf He).
  intros s' Hc [Hn Hcl] Hm. core_inv Hc. destruct (decide (ids = [])) as [->|Hid].
  { unfold answers. cbn [rpc_map fst snd spec_call map]. by rewrite Hm. }
  simpl in Hb. destruct (Z.ltb_spec MaxBatchValidateSize (zlen ids)); [lia|].
  cbn [rg_LookupMany memory_registry]. rewrite (lookups_frozen _ t) by exact Hcl.
  match goal with |- context [validate_all ?s0 _] =>
    pose proof (validate_all_spec s0 t ids (mem s') Hn eq_refl) as Hv;
    destruct (validate_all s0 _) as [resps s2]; destruct Hv as [Hv Hc2]; core_inv Hc2 end.
  unfold answers. cbn [rpc_map fst snd spec_call]. rewrite Hv, Hm.
  assert (mem s2 = mem s) as -> by (unfold mem; rewrite Hreg0; exact Hm).
  split_and!; [done|done|by rewrite Hallow0|done].
Qed.

Lemma Mark_refines sw id c :
  engine_ok s t engine PermMarkConsumed = true ->
  answers s t (call (fun r => r) s engine (CMark id c)) (spec_call sw (quote_status (mem s) t) (CMark id c)).
Proof using Hf Hwf.
  intros He. unfold call, QuoteValidation.MarkConsumed.
  apply (gate_open _ s t engine _ _ (fun p => answers s t (rpc_map _ p) _) Hf He).
  intros s' Hc [Hn Hcl] Hm. core_inv Hc. destruct (decide (id = "")) as [->|Hid].
  - unfold answers. cbn [rpc_map fst snd spec_call mc_Status]. rewrite mem_Add, Hm.
    pose proof (status_absent _ t "" Hwf) as Q. rewrite Q. split_and!; try done.
    intros id. unfold consume1. rewrite Q. by destruct (decide (id = "")) as [->|].
  - cbn [rg_MarkConsumed memory_registry]. rewrite !Hcl. change (cm_mem (sv_registry s')) with (mem s').
    rewrite Hm. pose proof (mark_spec (mem s) t id c) as M.
    destruct (Registry.MarkConsumed _ _ _ _ _) as [r m']. destruct M as (M1 & M2 & M3 & M4).
    unfold answers. cbn [rpc_map fst snd spec_call]. rewrite consume_response_status, M1. done.
Qed.

Lemma mem_count s0 rs : core (count_consumed (R := ClockedMemory) s0 rs) = core s0.
Proof. revert s0. induction rs as [|r rs IH]; intros s0; [done|]. simpl. rewrite IH. by case_match. Qed.

Lemma BatchMark_refines sw items :
  engine_ok s t engine PermMarkConsumed = true -> batch_fits (CBatchMark items) ->
  answers s t (call (fun r => r) s engine (CBatchMark items))
    (spec_call sw (quote_status (mem s) t) (CBatchMark items)).
Proof using Hf.
  intros He Hb. unfold call, BatchMarkConsumed.
  apply (gate_open _ s t engine _ _ (fun p => answers s t (rpc_map _ p) _) Hf He).
  intros s' Hc [Hn Hcl] Hm. core_inv Hc. destruct (decide (items = [])) as [->|Hid].
  { unfold answers. cbn [rpc_map fst snd spec_call map consume_seq]. by rewrite Hm. }
  simpl in Hb. destruct (Z.ltb_spec MaxBatchConsumeSize (zlen items)); [lia|].
  cbn [rg_MarkConsumedMany memory_registry add_count sv_registry]. rewrite Hcl.
  change (cm_mem (sv_registry s')) with (mem s'). rewrite Hm. pose proof (mark_many_spec (mem s) t items) as M.
  destruct (MarkConsumedMany _ _ _) as [rs m']. destruct M as (M1 & M2 & M3 & M4 & M5).
  match goal with |- context [count_consumed ?s0 rs] => pose proof (mem_count s0 rs) as Hk; core_inv Hk;
    assert (mem (count_consumed s0 rs) = m') as Hm' by (unfold mem; by rewrite Hreg0) end.
  unfold answers. cbn [rpc_map fst snd spec_call]. rewrite Hm', Hallow0. split_and!; try done.
  rewrite <-M1, map_map. f_equal. apply map_ext. intros r. apply consume_response_status.
Qed.

(** The pre-check shared by the swap calls. *)
Lemma swap_lookup s' (swapID : string) :
  frozen s' t -> mem s' = mem s ->
  match swap_legs (mem s) t swapID with
  | None => exists r, rg_GetSwap (sv_registry s') swapID = (inl FailSwapNotFound, r) /\
      m_records (cm_mem r) = m_records (mem s) /\ m_consumed (cm_mem r) = m_consumed (mem s) /\
      m_grace (cm_mem r) = m_grace (mem s)
  | Some (n, f) => exists sw r, rg_GetSwap (sv_registry s') swapID = (inr sw, r) /\
      s_NearID sw = n /\ s_FarID sw = f /\ cm_mem r = mem s /\ forall i, cm_now r i = t
  end.
Proof using Type.
  intros [_ Hcl] Hm. cbn [rg_GetSwap memory_registry]. unfold mem in Hm at 1. rewrite Hm, Hcl.
  unfold swap_legs, GetSwap. destruct (m_swaps (mem s) !! swapID) as [sw|]; [|by eexists].
  destruct (expired _ _ _); [by eexists|]. by eexists _, _.
Qed.

Lemma two_responses s0 n f :
  (forall i, sv_now s0 i = t) -> mem s0 = mem s ->
  let '(rn, s1) := lookupToValidateResponse s0 (Lookup (mem s) t n) in
  let '(rf, s2) := lookupToValidateResponse s1 (Lookup (mem s) t f) in
  v_Status rn = quote_status (mem s) t n /\ v_Status rf = quote_status (mem s) t f /\ core s2 = core s0.
Proof using Type.
  intros Hn Hm. pose proof (respond_spec s0 t n Hn) as Hr. rewrite Hm in Hr.
  destruct (lookupToValidateResponse s0 _) as [rn s1]. destruct Hr as [Hr Hc]. pose proof Hc as Hc'. core_inv Hc'.
  pose proof (respond_spec s1 t f ltac:(by rewrite Hnow)) as Hr2.
  assert (mem s1 = mem s) as Hm1 by (unfold mem; rewrite Hreg; exact Hm). rewrite Hm1 in Hr2.
  destruct (lookupToValidateResponse s1 _) as [rf s2]. destruct Hr2 as [Hr2 Hc2]. by rewrite Hc2.
Qed.
Context (Hswf : m_swaps (mem s) !! "" = None) (Hidx : sv_swapIdx s = true).

Lemma status_frame m : m_records m = m_records (mem s) -> m_consumed m = m_consumed (mem s) ->
  m_grace m = m_grace (mem s) -> forall id, quote_status m t id = quote_status (mem s) t id.
Proof using Type. intros E1 E2 E3 id. apply quote_status_ext; by rewrite ?E1, ?E2. Qed.

Lemma ValidateSwap_refines id :
  engine_ok s t engine PermValidate = true ->
  answers s t (call (fun r => r) s engine (CValidateSwap id))
    (spec_call (swap_legs (mem s) t) (quote_status (mem s) t) (CValidateSwap id)).
Proof using Hf Hidx Hswf.
  intros He. unfold call, ValidateSwap.
  apply (gate_open _ s t engine _ _ (fun p => answers s t (rpc_map _ p) _) Hf He).
  intros s' Hc Hf' Hm. core_inv Hc. rewrite Hidx0, Hidx. cbn [negb].
  pose proof (swap_lookup s' id Hf' Hm) as Hs. unfold answers. cbn [spec_call].
  destruct (decide (id = "")) as [->|Hid].
  { unfold swap_legs. rewrite Hswf. cbn [rpc_map fst snd vs_Status]. by rewrite mem_Add, Hm. }
  destruct (swap_legs (mem s) t id) as [[n f]|].
  - destruct Hs as (sw & r & -> & -> & -> & Hmr & Hcr).
    cbn [rg_LookupMany memory_registry with_registry sv_registry].
    rewrite (lookups_frozen _ t) by exact Hcr. rewrite Hmr. cbn [map].
    match goal with |- context [lookupToValidateResponse ?s0 (Lookup _ _ n)] =>
      pose proof (two_responses s0 n f (proj1 Hf') eq_refl) as H2; unfold mem in H2;
      cbn [with_registry sv_registry cm_after cm_mem] in H2; fold (mem s) in H2 end.
    destruct (lookupToValidateResponse _ _) as [rn s1]. destruct (lookupToValidateResponse _ _) as [rf s2].
    destruct H2 as (-> & -> & Hc2). core_inv Hc2.
    destruct (validate_verdict _) as [[k reason] text]. cbn [rpc_map fst snd vs_Status].
    assert (mem (Add k s2) = mem s) as -> by (unfold mem; cbn; by rewrite Hreg0).
    by split_and!; [| |cbn; rewrite Hallow0|].
  - destruct Hs as (r & -> & E1 & E2 & E3). cbn [rpc_map fst snd vs_Status].
    split_and!; [done|by apply status_frame|done|done].
Qed.

Lemma consume_legs_spec s0 sw c :
  frozen s0 t ->
  let q := quote_status (mem s0) t in
  let '(r, s1) := consume_legs s0 sw c in
  match r with
  | inr resp => cs_Status resp = worstStatus (q (s_NearID sw)) (consume1 q (s_NearID sw) (s_FarID sw))
  | inl _ => False
  end /\
  (forall id, quote_status (mem s1) t id = consume1 (consume1 q (s_NearID sw)) (s_FarID sw) id) /\
  sv_allow s1 = sv_allow s0 /\ m_grace (mem s1) = m_grace (mem s0).
Proof using Type.
  intros [_ Hcl]. unfold consume_legs. cbn [rg_MarkConsumedMany memory_registry]. rewrite Hcl.
  match goal with |- context [MarkConsumedMany _ _ ?l] => pose proof (mark_many_spec (mem s0) t l) as M end.
  change (cm_mem (sv_registry s0)) with (mem s0).
  destruct (MarkConsumedMany _ _ _) as [rs m']. destruct M as (M1 & M2 & M3 & M4 & M5).
  destruct rs as [|rn [|rf [|]]]; try done. cbn in M1. injection M1 as E1 E2.
  unfold swapConsumeResultToProto. rewrite !consume_response_status, E1, E2. cbv zeta.
  destruct (consume_verdict _ _) as [[s1 reason] text] eqn:Ev.
  assert (mem s1 = m' /\ sv_allow s1 = sv_allow s0) as [-> ->]
    by (unfold consume_verdict in Ev; by destruct (worstStatus _ _); simplify_eq/=).
  done.
Qed.

Lemma ConsumeSwap_refines id c :
  engine_ok s t engine PermMarkConsumed = true ->
  answers s t (call (fun r => r) s engine (CConsumeSwap id c))
    (spec_call (swap_legs (mem s) t) (quote_status (mem s) t) (CConsumeSwap id c)).
Proof using Hf Hidx Hswf.
  intros He. unfold call, ConsumeSwap.
  apply (gate_open _ s t engine _ _ (fun p => answers s t (rpc_map _ p) _) Hf He).
  intros s' Hc Hf' Hm. core_inv Hc. rewrite Hidx0, Hidx. cbn [negb].
  pose proof (swap_lookup s' id Hf' Hm) as Hs. unfold answers. cbn [spec_call].
  destruct (decide (id = "")) as [->|Hid].
  { unfold swap_legs. rewrite Hswf. cbn [rpc_map fst snd cs_Status]. by rewrite mem_Add, Hm. }
  destruct (swap_legs (mem s) t id) as [[n f]|].
  2:{ destruct Hs as (r & -> & E1 & E2 & E3). cbn [rpc_map fst snd cs_Status].
      split_and!; [done|by apply status_frame|done|done]. }
  destruct Hs as (sw & r & -> & Hsn & Hsf & Hmr & Hcr).
  cbn [rg_LookupMany memory_registry with_registry sv_registry].
  rewrite (lookups_frozen _ t) by exact Hcr. rewrite Hmr, Hsn, Hsf. cbn [map].
  match goal with |- context [lookupToValidateResponse ?s0 (Lookup _ _ n)] =>
    pose proof (two_responses s0 n f (proj1 Hf') eq_refl) as H2; unfold mem in H2;
    cbn [with_registry sv_registry cm_after cm_mem] in H2; fold (mem s) in H2 end.
  destruct (lookupToValidateResponse _ _) as [rn s1]. destruct (lookupToValidateResponse _ _) as [rf s2].
  destruct H2 as (-> & -> & Hc2). core_inv Hc2.
  assert (mem s2 = mem s) as Hm2 by (unfold mem; by rewrite Hreg0).
  destruct (decide _) as [Ed|Ed].
  - pose proof (consume_legs_spec (with_registry s2 (sv_registry s2)) sw c) as Hl. cbv zeta in Hl.
    change (mem (with_registry s2 _)) with (mem s2) in Hl. rewrite Hm2, Hsn, Hsf in Hl.
    destruct (consume_legs _ _ _) as [res s3].
    destruct Hl as (L1 & L2 & L3 & L4); [split; cbn; [by rewrite Hnow0; apply Hf'|by rewrite Hreg0]|].
    destruct res as [|resp]; [done|]. cbn [rpc_map fst snd]. rewrite L1, L3, L4. cbn. by rewrite Hallow0.
  - destruct (pre_verdict _) as [[k reason] text]. cbn [rpc_map fst snd cs_Status].
    assert (mem (Add k s2) = mem s) as -> by exact Hm2.
    by split_and!; [| |cbn; rewrite Hallow0|].
Qed.
End refines.


Definition ex_mem : MemoryRegistry :=
  set_swaps (PutMany (NewMemoryRegistry 5) [ex_rec "N" 100; ex_rec "F" 100; ex_rec "old" 10])
    {["SW" := mkSwapRecord "SW" "N" "F" 0 100 "A"]}.
Definition ex_server : QuoteValidationServer ClockedMemory :=
  SetEngineAllowlist (SetSwapIndex (NewQuoteValidationServer (mkClocked ex_mem (fun _ => 50) 0) (fun _ => 50)))
    ["eng"].

Definition ex_items : list ConsumeRequest := [mkReq "N" "c"; mkReq "N" "d"; mkReq "old" "c"].

Lemma quote_status_spec m t id : quote_status m t id <> STATUS_UNSPECIFIED.
Proof. unfold quote_status. by repeat case_match. Qed.

Lemma worst_ok a b : a <> STATUS_UNSPECIFIED -> b <> STATUS_UNSPECIFIED ->
  worstStatus a b = STATUS_OK <-> a = STATUS_OK /\ b = STATUS_OK.
Proof. intros. destruct a, b; cbn; split; try done; by intros [? ?]. Qed.

Lemma consume_swap_whole s t engine id c n f :
  frozen s t -> m_swaps (mem s) !! "" = None -> sv_swapIdx s = true ->
  engine_ok s t engine PermMarkConsumed = true ->
  swap_legs (mem s) t id = Some (n, f) -> n <> f ->
  let q := quote_status (mem s) t in
  let '(res, s') := ConsumeSwap (fun r => r) s engine id c in
  match res with
  | inl _ => False
  | inr resp =>
      (cs_Status resp = STATUS_OK <-> q n = STATUS_OK /\ q f = STATUS_OK) /\
      forall i, quote_status (mem s') t i =
        if decide (cs_Status resp = STATUS_OK /\ (i = n \/ i = f)) then ALREADY_CONSUMED else q i
  end.
Proof.
  intros Hf Hs Hi He Hl Hnf. pose proof (ConsumeSwap_refines s t engine Hf Hs Hi id c He) as [A [B _]].
  cbn [call] in A, B. cbv zeta. destruct (ConsumeSwap _ s engine id c) as [[e|resp] s'];
    cbn [rpc_map fst snd spec_call] in A, B; rewrite Hl in A, B; [done|].
  set (q := quote_status (mem s) t) in *.
  assert (worstStatus (q n) (q f) = STATUS_OK <-> q n = STATUS_OK /\ q f = STATUS_OK) as Hw
    by (apply worst_ok; apply quote_status_spec).
  assert (consume1 q n f = q f) as Hqf by (unfold consume1; by rewrite decide_False).
  destruct (decide (worstStatus (q n) (q f) = STATUS_OK)) as [Ew|Ew]; cbn [fst snd] in A, B.
  - injection A as A. rewrite Hqf in A. rewrite A, Ew. split; [tauto|]. apply Hw in Ew as [En Ef].
    intros i. rewrite B. unfold consume1. rewrite En, (decide_False (P := f = n)) by done. rewrite Ef.
    destruct (decide (i = f)) as [->|]; [by rewrite decide_True by auto|].
    destruct (decide (i = n)) as [->|]; [by rewrite decide_True by auto|].
    by rewrite decide_False by tauto.
  - injection A as A. rewrite A. split; [tauto|]. intros i. rewrite B, decide_False by tauto. done.
Qed.

(** A swap is consumed as a whole: when no other caller touches the registry
    during the call, ConsumeSwap answers OK exactly when both legs are OK, then
    both legs are consumed and nothing else changes; with any other answer no
    quote changes status, so no leg is left half-consumed. *)
Theorem consume_swap_atomic s t engine id c n f :
  frozen s t -> m_swaps (mem s) !! "" = None -> sv_swapIdx s = true ->
  engine_ok s t engine PermMarkConsumed = true ->
  swap_legs (mem s) t id = Some (n, f) -> n <> f ->
  let q := quote_status (mem s) t in
  let '(res, s') := ConsumeSwap (fun r => r) s engine id c in
  match res with
  | inl _ => False
  | inr resp =>
      (cs_Status resp = STATUS_OK <-> q n = STATUS_OK /\ q f = STATUS_OK) /\
      forall i, quote_status (mem s') t i =
        if decide (cs_Status resp = STATUS_OK /\ (i = n \/ i = f)) then ALREADY_CONSUMED else q i
  end.
Proof. intros. by apply consume_swap_whole. Qed.

Lemma consume_swap_atomic_witness :
  exists resp s', ConsumeSwap (fun r => r) ex_server "eng" "SW" "c" = (inr resp, s') /\
    cs_Status resp = STATUS_OK /\ quote_status (mem s') 50 "N" = ALREADY_CONSUMED.
Proof.
  pose proof (consume_swap_atomic ex_server 50 "eng" "SW" "c" "N" "F") as W. cbv zeta in W.
  destruct (ConsumeSwap _ _ _ _ _) as [[e|resp] s'];
    [exfalso; apply W; vm_compute; done|]. destruct W as [W1 W2]; [vm_compute; done..|].
  exists resp, s'. split; [done|]. assert (cs_Status resp = STATUS_OK) as E by (apply W1; vm_compute; done).
  split; [done|]. rewrite W2, decide_True by auto. done.
Defined.

(** A swap can be half consumed: ConsumeSwap's comment says that when one leg
    cannot be marked the other is not tried, but both legs go to one
    MarkConsumedMany. If another engine takes the far leg between the pre-check
    and the marks, the call answers ALREADY_CONSUMED and yet the near leg is
    consumed, in the caller's name. *)
Theorem consume_swap_race consumer rival :
  let others r := snd (rg_MarkConsumed r "F" rival) in
  let '(res, s') := ConsumeSwap others ex_server "eng" "SW" consumer in
  (cs_Status <$> (match res with inr r => Some r | inl _ => None end)) = Some ALREADY_CONSUMED /\
  m_consumed (mem s') !! "N" = Some consumer /\ m_consumed (mem s') !! "F" = Some rival.
Proof. vm_compute. done. Qed.

(** * The allow-list mirrors the store *)
Section mirror.
Context (unmarshal : string -> option EngineMeta).

(** What the keys below the prefix say. *)
Definition mirrors (w : EtcdAllowlistWatcher) (kv : gmap string string) : Prop :=
  ew_engines w !! "" = None /\
  forall e, e <> "" -> ew_engines w !! e = (fun v => fst (parseEngineMeta unmarshal v)) <$> kv !! (ew_prefix w +:+ e).

Definition store_event (kv : gmap string string) (ev : event) : gmap string string :=
  match ev with EventPut k v => <[k := v]> kv | EventDelete k => delete k kv end.
Definition event_key (ev : event) : string := match ev with EventPut k _ | EventDelete k => k end.

Lemma engineFromKey_app w e : engineFromKey w (ew_prefix w +:+ e) = e.
Proof. unfold engineFromKey. by rewrite HasPrefix_app, TrimPrefix_app. Qed.

Lemma engineFromKey_other w k e : e <> "" -> engineFromKey w k <> e -> k <> ew_prefix w +:+ e.
Proof. intros He Hk ->. by rewrite engineFromKey_app in Hk. Qed.

Lemma engineFromKey_Some w k : engineFromKey w k <> "" -> k = ew_prefix w +:+ engineFromKey w k.
Proof.
  unfold engineFromKey. destruct (HasPrefix k _) eqn:E; [|done]. intros _.
  apply HasPrefix_iff in E as [x ->]. simpl. by rewrite TrimPrefix_app.
Qed.

Lemma mirrors_event w kv ev :
  mirrors w kv -> mirrors (apply_event unmarshal w ev) (store_event kv ev) /\
  ew_prefix (apply_event unmarshal w ev) = ew_prefix w.
Proof.
  intros [H0 H]. destruct ev as [k v|k]; simpl; unfold put_engine, delete_engine;
    destruct (decide (engineFromKey w k = "")) as [E|E].
  1,3: split; [|done]; split; [done|]; intros e He;
    pose proof (engineFromKey_other w k e He ltac:(congruence));
    rewrite ?lookup_insert_ne, ?lookup_delete_ne by done; auto.
  all: split; [|done]; split; simpl; [by rewrite ?lookup_insert_ne, ?lookup_delete_ne|].
  all: intros e He; destruct (decide (engineFromKey w k = e)) as [<-|Hne].
  1,3: rewrite <-(engineFromKey_Some w k E); by rewrite ?lookup_insert_eq, ?lookup_delete_eq.
  all: pose proof (engineFromKey_other w k e He Hne); rewrite ?lookup_insert_ne, ?lookup_delete_ne by done; auto.
Qed.

(** The allow-list is the store: loaded from the keys under the watcher's
    prefix and fed every change in order, the set of engines and their grants is
    at each point the one the store holds, whatever other keys change. *)
Theorem allowlist_mirrors prefix kvs batches :
  NoDup (map fst kvs) ->
  let w0 := NewEtcdAllowlistWatcher prefix in
  let w := fold_left (fun w evs => fst (applyEvents unmarshal w evs)) batches (fst (initialLoad unmarshal w0 kvs)) in
  mirrors w (fold_left store_event (concat batches) (list_to_map kvs)).
Proof.
  intros Hnd w0.
  assert (forall evs w kv, mirrors w kv ->
    mirrors (fold_left (apply_event unmarshal) evs w) (fold_left store_event evs kv)) as Hev.
  { induction evs as [|ev evs IH]; intros w kv Hw; [done|]. simpl. apply IH. by apply mirrors_event. }
  assert (mirrors (fst (initialLoad unmarshal w0 kvs)) (list_to_map kvs)) as H0.
  { unfold initialLoad. cbn [fst].
    assert (fold_left (fun w '(k, v) => put_engine unmarshal w k v) kvs w0 =
            fold_left (apply_event unmarshal) (map (fun '(k, v) => EventPut k v) kvs) w0) as ->.
    { generalize w0. clear. induction kvs as [|[k v] kvs IH]; intros w; [done|]. apply IH. }
    replace (list_to_map kvs) with (fold_left store_event (map (fun '(k, v) => EventPut k v) kvs) (∅ : gmap string string)).
    - apply Hev. split; [done|]. intros e _. by rewrite lookup_empty.
    - rewrite <-(right_id_L ∅ (∪) (list_to_map kvs)). generalize (∅ : gmap string string).
      induction kvs as [|[k v] kvs IH]; intros m; [simpl; by rewrite (left_id_L ∅ (∪))|].
      simpl. apply NoDup_cons in Hnd as [Hk Hnd]. rewrite IH by done.
      rewrite <-insert_union_r, insert_union_l; [done|]. by apply not_elem_of_list_to_map_1. }
  generalize dependent (fst (initialLoad unmarshal w0 kvs)).
  generalize (list_to_map kvs : gmap string string). clear Hnd.
  induction batches as [|evs batches IH]; intros kv w Hw; [done|]. simpl. rewrite fold_left_app.
  apply IH. unfold applyEvents. destruct (decide (evs = [])) as [->|]; [done|]. by apply Hev.
Qed.

(** Revoking the last engine opens the service: deleting the only key leaves an
    empty snapshot, which SetEngineAllowlistMap stores as no allow-list at all,
    and then every engine id has every permission. *)
Theorem last_revocation_opens {R} (s : QuoteValidationServer R) w e meta t engine op :
  e <> "" -> ew_engines w = {[e := meta]} ->
  exists snap, snd (applyEvents unmarshal w [EventDelete (ew_prefix w +:+ e)]) = Some snap /\
    engine_ok (SetEngineAllowlistMap s snap) t engine op = true.
Proof.
  intros He Hw. unfold applyEvents. rewrite decide_False by done. simpl. eexists. split; [done|].
  unfold delete_engine. rewrite engineFromKey_app, decide_False by done. simpl.
  rewrite Hw, delete_singleton_eq. unfold SetEngineAllowlistMap. by rewrite decide_True.
Qed.
End mirror.

Lemma allowlist_mirrors_witness :
  NoDup (map fst [("wtg/quoteid/engines/e1", ""); ("other/x", "")]) /\
  mirrors (fun _ => None)
    (fold_left (fun w evs => fst (applyEvents (fun _ => None) w evs))
       [[EventPut "wtg/quoteid/engines/e2" "active"]; [EventDelete "wtg/quoteid/engines/e1"]]
       (fst (initialLoad (fun _ => None) (NewEtcdAllowlistWatcher "")
               [("wtg/quoteid/engines/e1", ""); ("other/x", "")])))
    {["other/x" := ""; "wtg/quoteid/engines/e2" := "active"]}.
Proof.
  assert (NoDup (map fst [("wtg/quoteid/engines/e1", ""); ("other/x", "")])) as H
    by (by apply (bool_decide_unpack _)).
  split; [exact H|].
  exact (allowlist_mirrors (fun _ => None) "" [("wtg/quoteid/engines/e1", ""); ("other/x", "")]
    [[EventPut "wtg/quoteid/engines/e2" "active"]; [EventDelete "wtg/quoteid/engines/e1"]] H).
Defined.

Lemma last_revocation_opens_witness :
  exists snap, snd (applyEvents (fun _ => None)
      (mkWatcher "p/" {["eng" := default_meta]}) [EventDelete "p/eng"]) = Some snap /\
    engine_ok (SetEngineAllowlistMap ex_server snap) 50 "stranger" PermMarkConsumed = true.
Proof.
  exact (last_revocation_opens (fun _ => None) ex_server (mkWatcher "p/" {["eng" := default_meta]})
    "eng" default_meta 50 "stranger" PermMarkConsumed ltac:(discriminate) eq_refl).
Defined.
