(* ===== verification/QuoteEndpoints.v ===== *)
(** The quotation endpoints of the price service: spot and forward snapshots
    (src/internal/price/spot_snapshot.go, forward_snapshot.go) and the forward and
    swap locks that issue quote identifiers (forward_lock.go, swap_lock.go).

    A handler is a function of the decoded request and of what it reads: the best
    snapshot, the cross consumer, the pricing table, the clock. A reply is a value
    or an HTTP status with a reason standing for its message; response headers
    are left out. [None] is a price computation that does not end (a cyclic
    complement window). *)

From Stdlib Require Import ZArith QArith Lia.
From Stdlib Require Import Strings.Ascii.
From S2P Require Import Prelude GoStrings Float64 Session Dates GoTime QuoteID Registry Pricing Cross Masters.
From S2P Require Import Bars Best CrossConsumer SwapStore.
Local Open Scope Z_scope.
Local Open Scope wtg_scope.

(** [strings.ReplaceAll(pair, "/", "")]. *)
Definition pair_symbol (pair : string) : string := strip_slash pair.

(** ** Spot price of a pair *)

(** [cross] is the cross consumer with the reading of [LatestCross]. *)
Definition lookupSpotRaw (cross : option (CrossRateConsumer * Z)) (best : BestStats) (pair : string)
    : option (f64 * f64 * string) :=
  match Symbols best !! pair_symbol pair with
  | Some s => Some (BestBid s, BestAsk s, "BEST")
  | None =>
      match cross with
      | Some (c, now) =>
          match LatestCross c pair now with
          | Some (b, a, _, isStale) => if isStale then None else Some (b, a, "CROSS")
          | None => None
          end
      | None => None
      end
  end.
Definition lookupSpotRawForSwap (cross : option (CrossRateConsumer * Z)) (best : BestStats) (pair : string)
    : option (f64 * f64) :=
  '(b, a, _) ← lookupSpotRaw cross best pair; Some (b, a).

Fixpoint dedup_pairs (seen : gset string) (parts : list string) : list string :=
  match parts with
  | [] => []
  | p :: parts =>
      let t := GoStrings.TrimSpace p in
      if bool_decide (t = "") || bool_decide (t ∈ seen) then dedup_pairs seen parts
      else t :: dedup_pairs ({[t]} ∪ seen) parts
  end.
Definition splitPairsCSV (s : string) : list string := dedup_pairs ∅ (Split s ","%char).

(** ** Dates *)
Definition parseValueDate (s : string) : option Time :=
  match parse_date s with
  | Some t => Some t
  | None => startOfDay <$> parse_RFC3339 s
  end.

(** ** Replies *)
Inductive SwapLegErr := errSwapSameLeg | errSwapLegInvert | errSwapLegMissing | errNearDate | errFarDate.
Inductive PutErr := PutTimeout | PutCanceled | PutInvalidRecord | PutOther.
Inductive stage := StNear | StFar | StSwapIndex.
Inductive leg_error := LegDate | LegApply (e : ApplyErr).

Inductive reason :=
| RMethod | RJSON | RRequired | RLegs (e : SwapLegErr) | RProfile | RNoBest | RNoSnapshot | RCrossStale
| RNoTable | RLeg (st : stage) (e : leg_error) | RValueDate (e : leg_error) | RNoRegistry | RPut (st : stage) (e : PutErr).
Inductive reply (A : Type) := HErr (status : Z) (r : reason) | HNoContent | HOk (a : A).
Arguments HErr {A}. Arguments HNoContent {A}. Arguments HOk {A}.

Section endpoints.
Context (LoadLocation : string -> option (Z -> Z)).
(** Orders in which ranges over the table's maps visit them; fuel of the
    business-day search. *)
Context (worder : PricingTable -> list (string * TimeWindowRule))
  (sorder : PricingTable -> list (string * string * Margin)) (fuel : nat).
Context (tenor_iter : gset string -> list string).

Definition price_tenor (tbl : PricingTable) (raw : Quote) (profile : Profile) (tenor : string) (now : Time)
    (customerID : string) : option CustomerQuote :=
  ApplyForCustomer LoadLocation tbl (worder tbl) raw profile tenor now now customerID.
Definition price_date (tbl : PricingTable) (raw : Quote) (profile : Profile) (vd now : Time) (spotDays : Z)
    (customerID : string) : option (res ApplyErr (CustomerQuote * SwapInterpolation)) :=
  ApplyForValueDate LoadLocation tbl (worder tbl) (sorder tbl) fuel raw profile vd now now spotDays customerID.

(** ** Spot snapshot *)
Record SpotSnapshotEntry := mkSpot {
  sp_Pair : string; sp_Bid : f64; sp_Ask : f64; sp_RawBid : f64; sp_RawAsk : f64; sp_Spread : f64;
  sp_RawSpread : f64; sp_Source : string }.
Record SpotSnapshot := mkSpots {
  ss_Profile : string; ss_CustomerID : string; ss_TableVersion : Z; ss_SnapshotTS : Time;
  ss_Spots : list SpotSnapshotEntry; ss_Missing : list string }.

Definition spot_entry (pair : string) (cq : CustomerQuote) (rawBid rawAsk : f64) (source : string) : SpotSnapshotEntry :=
  mkSpot pair (c_Bid cq) (c_Ask cq) rawBid rawAsk (c_Ask cq -f c_Bid cq) (rawAsk -f rawBid) source.

(** [cnow] is the cross reading made for each pair. *)
Fixpoint spot_loop (cross : option CrossRateConsumer) (cnow : string -> Z) (best : BestStats) (tbl : PricingTable)
    (profile : Profile) (now : Time) (customerID : string) (pairs : list string)
    : option (list SpotSnapshotEntry * list string) :=
  match pairs with
  | [] => Some ([], [])
  | pr :: pairs =>
      match lookupSpotRaw ((fun c => (c, cnow pr)) <$> cross) best pr with
      | None =>
          '(spots, missing) ← spot_loop cross cnow best tbl profile now customerID pairs;
          Some (spots, pr :: missing)
      | Some (rawBid, rawAsk, source) =>
          cq ← price_tenor tbl (mkQuote pr rawBid rawAsk now f0 f0) profile TenorSpot now customerID;
          '(spots, missing) ← spot_loop cross cnow best tbl profile now customerID pairs;
          Some (spot_entry pr cq rawBid rawAsk source :: spots, missing)
      end
  end.

Definition SpotSnapshotHandler (best : option BestStats) (cross : option CrossRateConsumer) (cnow : string -> Z)
    (tbl : option PricingTable) (now : Time) (pairStr profileKey customerID : string) : option (reply SpotSnapshot) :=
  if bool_decide (pairStr = "") || bool_decide (profileKey = "") then Some (HErr 400 RRequired)
  else match ParseProfileKey profileKey with
  | Ok profile =>
      match best, tbl with
      | None, _ => Some (HErr 503 RNoBest)
      | _, None => Some (HErr 503 RNoTable)
      | Some best, Some tbl =>
          '(spots, missing) ← spot_loop cross cnow best tbl profile now customerID (splitPairsCSV pairStr);
          Some (HOk (mkSpots profileKey customerID (Version tbl) now spots missing))
      end
  | _ => Some (HErr 400 RProfile)
  end.

(** ** Forward snapshot *)
Record ForwardSnapshotTenor := mkFwdTenor {
  ft_Tenor : string; ft_Bid : f64; ft_Ask : f64; ft_SwapBid : f64; ft_SwapAsk : f64 }.
Record ForwardSnapshot := mkFwd {
  fs_Pair : string; fs_Profile : string; fs_CustomerID : string;
  fs_Spot : f64 * f64 * f64 * f64; fs_Tenors : list ForwardSnapshotTenor; fs_TableVersion : Z; fs_TS : Time }.

Definition forward_tenors (swap : option SwapStore) (pair : string) (spot : CustomerQuote) : list ForwardSnapshotTenor :=
  match swap with
  | None => []
  | Some s =>
      omap (fun tn =>
        (fun eff => mkFwdTenor tn (c_Bid spot +f BidAmount eff) (c_Ask spot +f AskAmount eff)
                      (BidAmount eff) (AskAmount eff)) <$> Effective s pair tn)
        (sort_Strings (Tenors tenor_iter s pair))
  end.

(** The raw price, or the error of its absence. *)
Definition forward_raw (cross : option (CrossRateConsumer * Z)) (best : BestStats) (pair : string)
    : reason + (f64 * f64) :=
  match Symbols best !! pair_symbol pair with
  | Some s => inr (BestBid s, BestAsk s)
  | None =>
      match cross with
      | Some (c, now) =>
          match LatestCross c pair now with
          | None => inl RNoSnapshot
          | Some (b, a, _, isStale) => if isStale then inl RCrossStale else inr (b, a)
          end
      | None => inl RNoSnapshot
      end
  end.

Definition ForwardSnapshotHandler (best : option BestStats) (cross : option (CrossRateConsumer * Z))
    (swap : option SwapStore) (tbl : option PricingTable) (now : Time) (pair profileKey customerID : string)
    : option (reply ForwardSnapshot) :=
  if bool_decide (pair = "") || bool_decide (profileKey = "") then Some (HErr 400 RRequired)
  else match ParseProfileKey profileKey with
  | Ok profile =>
      match best with
      | None => Some (HErr 503 RNoBest)
      | Some best =>
          match forward_raw cross best pair with
          | inl r => Some (HErr 404 r)
          | inr (rawBid, rawAsk) =>
              match tbl with
              | None => Some (HErr 503 RNoTable)
              | Some tbl =>
                  spot ← price_tenor tbl (mkQuote pair rawBid rawAsk now f0 f0) profile TenorSpot now customerID;
                  Some (HOk (mkFwd pair profileKey customerID (c_Bid spot, c_Ask spot, rawBid, rawAsk)
                               (forward_tenors swap pair spot) (Version tbl) now))
              end
          end
      end
  | _ => Some (HErr 400 RProfile)
  end.

(** ** The registry as the locks see it *)
Class LockBackend (R : Type) := {
  lb_Put : R -> Record_ -> option PutErr * R;
  lb_PutSwap : R -> SwapRecord -> option PutErr * R;
  lb_Delete : R -> string -> option PutErr * R }.

Definition zero_interp : SwapInterpolation := mkInterp zero_margin "" "" 0 0 0 f0 false.

(** [buildLegRecord]; the date was parsed before. *)
Definition buildLegRecord (id : string) (cq : CustomerQuote) (profile : Profile) (seq : Z) (issuer : string)
    (issued validUntil : Z) (broken : bool) (interp : SwapInterpolation) (valueDate : string) : Record_ :=
  if broken then
    mkRecord id (c_Pair cq) profile (c_Tenor cq) (c_Bid cq) (c_Ask cq) (UnixNano issued) (UnixNano validUntil) seq issuer
      (match parseValueDate valueDate with Some vd => UnixNano (t_ns vd) | None => 0 end)
      (in_OffsetDays interp) (in_From interp) (in_To interp) (in_Weight interp)
      (BidAmount (in_Margin interp)) (AskAmount (in_Margin interp))
  else
    mkRecord id (c_Pair cq) profile (c_Tenor cq) (c_Bid cq) (c_Ask cq) (UnixNano issued) (UnixNano validUntil) seq issuer
      0 0 "" "" f0 f0 f0.

Definition default_validity (v : Z) : Z := if v <=? 0 then 500 * 1000000 else v.

Section locks.
Context {R : Type} `{LockBackend R}.

(** ** Forward lock *)
Record ForwardLockRequest := mkFwdReq {
  fr_Pair : string; fr_Tenor : string; fr_ValueDate : string; fr_Profile : string; fr_CustomerID : string;
  fr_Side : string }.
(** [fl_Request] stands for the fields echoed from the trimmed request. *)
Record ForwardLockResponse := mkFwdResp {
  fl_Request : ForwardLockRequest; fl_QuoteID : string; fl_Quote : CustomerQuote; fl_RawBid : f64; fl_RawAsk : f64;
  fl_Issued : Z; fl_ValidUntil : Z; fl_TableVersion : Z; fl_Interpolation : option SwapInterpolation }.

Definition trim_forward (q : ForwardLockRequest) : ForwardLockRequest :=
  let tenor := GoStrings.TrimSpace (fr_Tenor q) in
  let vd := GoStrings.TrimSpace (fr_ValueDate q) in
  mkFwdReq (GoStrings.TrimSpace (fr_Pair q)) (if decide (tenor = "" /\ vd = "") then "SPOT" else tenor) vd
    (GoStrings.TrimSpace (fr_Profile q)) (fr_CustomerID q) (fr_Side q).

(** [inl]: the date was refused; otherwise the quote, its interpolation and whether
    it is a broken date. *)
Definition leg_price : Type := (leg_error + CustomerQuote * SwapInterpolation * bool)%type.
Definition price_leg (tbl : PricingTable) (raw : Quote) (profile : Profile) (tenor valueDate : string)
    (spotDays : Z) (now : Time) (customerID : string)
    : option leg_price :=
  if decide (valueDate = "") then
    cq ← price_tenor tbl raw profile tenor now customerID; Some (inr (cq, zero_interp, false))
  else match parseValueDate valueDate with
  | None => Some (inl LegDate)
  | Some vd =>
      r ← price_date tbl raw profile vd now spotDays customerID;
      match r with
      | Ok (cq, interp) => Some (inr (cq, interp, true))
      | Err e => Some (inl (LegApply e))
      | Panic => None
      end
  end.

(** The registration's result is dropped; [gnow] is the generator's reading. *)
Definition ForwardLockHandler (best : option BestStats) (tbl : option PricingTable) (now : Time) (gnow validity : Z)
    (gen : option Generator) (reg : option R) (method : string) (devMode : bool) (req : option ForwardLockRequest)
    : option (reply ForwardLockResponse * option Generator * option R) :=
  let fail (status : Z) (r : reason) := Some (HErr status r, gen, reg) in
  if devMode && bool_decide (method = "OPTIONS") then Some (HNoContent, gen, reg)
  else if negb (bool_decide (method = "POST")) then fail 405 RMethod
  else match req with
  | None => fail 400 RJSON
  | Some req =>
      let req := trim_forward req in
      if bool_decide (fr_Pair req = "") || bool_decide (fr_Profile req = "") then fail 400 RRequired
      else match ParseProfileKey (fr_Profile req), best with
      | Ok profile, Some best =>
          match Symbols best !! pair_symbol (fr_Pair req), tbl with
          | None, _ => fail 404 RNoSnapshot
          | _, None => fail 503 RNoTable
          | Some spot, Some tbl =>
              let raw := mkQuote (fr_Pair req) (BestBid spot) (BestAsk spot) now f0 f0 in
              leg ← price_leg tbl raw profile (fr_Tenor req) (fr_ValueDate req) 2 now (fr_CustomerID req);
              match (leg : leg_price) with
              | inl e => fail 400 (RValueDate e)
              | inr (cq, interp, broken) =>
                  let answer (id : string) (vu : Z) :=
                    mkFwdResp req id cq (BestBid spot) (BestAsk spot) (UnixNano (t_ns now)) vu (Version tbl)
                      (if broken then Some interp else None) in
                  match gen, reg with
                  | Some g, Some r =>
                      let '(id, g) := Next g gnow in
                      let vu := t_ns now + default_validity validity in
                      let rec := buildLegRecord id cq profile (NextSequence g) (g_instance g) (t_ns now) vu
                                   broken interp (fr_ValueDate req) in
                      let '(_, r) := lb_Put r rec in
                      Some (HOk (answer id (UnixNano vu)), Some g, Some r)
                  | _, _ => Some (HOk (answer "" (UnixNano (- (62135596800 * ns_per_sec)))), gen, reg)
                  end
              end
          end
      | Ok _, None => fail 503 RNoBest
      | _, _ => fail 400 RProfile
      end
  end.

(** ** Swap lock *)
Record SwapLeg := mkSwapLeg { sl_Tenor : string; sl_ValueDate : string }.
Record SwapLockRequest := mkSwapReq {
  sr_Pair : string; sr_Near : SwapLeg; sr_Far : SwapLeg; sr_Profile : string; sr_CustomerID : string; sr_Side : string }.

Record AtomicSwapLockMetrics := mkSLM {
  requests : Z; successes : Z; failNear : Z; failFar : Z; failSwapIndex : Z; revokeOK : Z; revokeFail : Z }.
Definition OnRequest (m : AtomicSwapLockMetrics) : AtomicSwapLockMetrics :=
  mkSLM (incr64 (requests m)) (successes m) (failNear m) (failFar m) (failSwapIndex m) (revokeOK m) (revokeFail m).
Definition OnSuccess (m : AtomicSwapLockMetrics) : AtomicSwapLockMetrics :=
  mkSLM (requests m) (incr64 (successes m)) (failNear m) (failFar m) (failSwapIndex m) (revokeOK m) (revokeFail m).
Definition OnPartialFailure (m : AtomicSwapLockMetrics) (st : stage) : AtomicSwapLockMetrics :=
  match st with
  | StNear => mkSLM (requests m) (successes m) (incr64 (failNear m)) (failFar m) (failSwapIndex m) (revokeOK m) (revokeFail m)
  | StFar => mkSLM (requests m) (successes m) (failNear m) (incr64 (failFar m)) (failSwapIndex m) (revokeOK m) (revokeFail m)
  | StSwapIndex => mkSLM (requests m) (successes m) (failNear m) (failFar m) (incr64 (failSwapIndex m)) (revokeOK m) (revokeFail m)
  end.
Definition OnRevoke (m : AtomicSwapLockMetrics) (ok : bool) : AtomicSwapLockMetrics :=
  mkSLM (requests m) (successes m) (failNear m) (failFar m) (failSwapIndex m)
    (if ok then incr64 (revokeOK m) else revokeOK m) (if ok then revokeFail m else incr64 (revokeFail m)).

(** The label of an error in the metrics. *)
Definition classifyErr (e : option PutErr) : string :=
  match e with
  | None => "none" | Some PutTimeout => "timeout" | Some PutCanceled => "canceled"
  | Some PutInvalidRecord => "invalid_record" | Some PutOther => "other"
  end.

Definition revokeLeg (r : R) (id : string) (m : AtomicSwapLockMetrics) : R * AtomicSwapLockMetrics :=
  match lb_Delete r id with
  | (Some _, r) => (r, OnRevoke m false)
  | (None, r) => (r, OnRevoke m true)
  end.

Definition putSwapAtomic (r : R) (near far : Record_) (sw : SwapRecord) (m : AtomicSwapLockMetrics)
    : option (stage * PutErr) * R * AtomicSwapLockMetrics :=
  match lb_Put r near with
  | (Some e, r) => (Some (StNear, e), r, OnPartialFailure m StNear)
  | (None, r) =>
      match lb_Put r far with
      | (Some e, r) =>
          let '(r, m) := revokeLeg r (r_QuoteID near) (OnPartialFailure m StFar) in
          (Some (StFar, e), r, m)
      | (None, r) =>
          match lb_PutSwap r sw with
          | (Some e, r) =>
              let '(r, m) := revokeLeg r (r_QuoteID near) (OnPartialFailure m StSwapIndex) in
              let '(r, m) := revokeLeg r (r_QuoteID far) m in
              (Some (StSwapIndex, e), r, m)
          | (None, r) => (None, r, m)
          end
      end
  end.

Inductive legKindEnum := legKindMissing | legKindTenor | legKindValueDate.
Definition legKind (l : SwapLeg) : legKindEnum :=
  if negb (bool_decide (sl_ValueDate l = "")) then legKindValueDate
  else if negb (bool_decide (sl_Tenor l = "")) then legKindTenor else legKindMissing.

Definition validateSwapLegs (near far : SwapLeg) : option SwapLegErr :=
  match legKind near, legKind far with
  | legKindMissing, _ | _, legKindMissing => Some errSwapLegMissing
  | legKindTenor, legKindTenor => if decide (sl_Tenor near = sl_Tenor far) then Some errSwapSameLeg else None
  | legKindValueDate, legKindValueDate =>
      if decide (sl_ValueDate near = sl_ValueDate far) then Some errSwapSameLeg
      else match parseValueDate (sl_ValueDate near), parseValueDate (sl_ValueDate far) with
           | None, _ => Some errNearDate
           | _, None => Some errFarDate
           | Some nv, Some fv => if negb (Before nv fv) then Some errSwapLegInvert else None
           end
  | _, _ => None
  end.

Definition applyLeg (tbl : PricingTable) (raw : Quote) (profile : Profile) (leg : SwapLeg) (spotDays : Z) (now : Time)
    (customerID : string) : option leg_price :=
  price_leg tbl raw profile (sl_Tenor leg) (sl_ValueDate leg) (if spotDays <=? 0 then 2 else spotDays) now customerID.

Record SwapLegResult := mkLegResult {
  lr_QuoteID : string; lr_Tenor : string; lr_ValueDate : string; lr_Bid : f64; lr_Ask : f64;
  lr_RawBid : f64; lr_RawAsk : f64; lr_SwapBid : f64; lr_SwapAsk : f64; lr_Interpolation : option SwapInterpolation }.
Definition buildLegResult (id : string) (cq : CustomerQuote) (rawBid rawAsk : f64) (valueDate : string) (broken : bool)
    (interp : SwapInterpolation) (isFar : bool) : SwapLegResult :=
  mkLegResult id (c_Tenor cq) valueDate (c_Bid cq) (c_Ask cq) rawBid rawAsk
    (if isFar then BidAmount (in_Margin interp) else f0) (if isFar then AskAmount (in_Margin interp) else f0)
    (if broken then Some interp else None).

Record SwapLockResponse := mkSwapResp {
  sk_SwapID : string; sk_Pair : string; sk_Profile : string; sk_CustomerID : string; sk_Side : string;
  sk_Issued : Z; sk_ValidUntil : Z; sk_TableVersion : Z; sk_Near : SwapLegResult; sk_Far : SwapLegResult;
  sk_BidDiff : f64; sk_AskDiff : f64 }.

Definition trim_leg (l : SwapLeg) : SwapLeg := mkSwapLeg (GoStrings.TrimSpace (sl_Tenor l)) (GoStrings.TrimSpace (sl_ValueDate l)).
Definition trim_swap (q : SwapLockRequest) : SwapLockRequest :=
  mkSwapReq (GoStrings.TrimSpace (sr_Pair q)) (trim_leg (sr_Near q)) (trim_leg (sr_Far q)) (GoStrings.TrimSpace (sr_Profile q))
    (sr_CustomerID q) (sr_Side q).

(** Issue the identifiers and register the two legs and the swap. *)
Definition issue_swap (req : SwapLockRequest) (profile : Profile) (tbl : PricingTable) (rawBid rawAsk : f64)
    (now : Time) (gnow : nat -> Z) (validity : Z) (g : Generator) (r : R) (m : AtomicSwapLockMetrics)
    (near far : CustomerQuote * SwapInterpolation * bool)
    : reply SwapLockResponse * Generator * R * AtomicSwapLockMetrics :=
  let '(nearCQ, nearInterp, nearBroken) := near in
  let '(farCQ, farInterp, farBroken) := far in
  let vu := t_ns now + default_validity validity in
  let issuer := g_instance g in
  let '(nearID, g) := Next g (gnow 0%nat) in
  let nearSeq := NextSequence g in
  let '(farID, g) := Next g (gnow 1%nat) in
  let farSeq := NextSequence g in
  let '(sid, g) := Next g (gnow 2%nat) in
  let swapID := "SW-" +:+ sid in
  let nearRec := buildLegRecord nearID nearCQ profile nearSeq issuer (t_ns now) vu nearBroken nearInterp (sl_ValueDate (sr_Near req)) in
  let farRec := buildLegRecord farID farCQ profile farSeq issuer (t_ns now) vu farBroken farInterp (sl_ValueDate (sr_Far req)) in
  let swapRec := mkSwapRecord swapID nearID farID (UnixNano (t_ns now)) (UnixNano vu) issuer in
  match putSwapAtomic r nearRec farRec swapRec m with
  | (Some (st, e), r, m) => (HErr 503 (RPut st e), g, r, m)
  | (None, r, m) =>
      (HOk (mkSwapResp swapID (sr_Pair req) (sr_Profile req) (sr_CustomerID req) (sr_Side req)
              (UnixNano (t_ns now)) (UnixNano vu) (Version tbl)
              (buildLegResult nearID nearCQ rawBid rawAsk (sl_ValueDate (sr_Near req)) nearBroken nearInterp false)
              (buildLegResult farID farCQ rawBid rawAsk (sl_ValueDate (sr_Far req)) farBroken farInterp true)
              (c_Bid farCQ -f c_Bid nearCQ) (c_Ask farCQ -f c_Ask nearCQ)),
       g, r, OnSuccess m)
  end.

Definition SwapLockHandler (best : option BestStats) (cross : option (CrossRateConsumer * Z)) (tbl : option PricingTable)
    (now : Time) (gnow : nat -> Z) (validity spotDays : Z) (gen : option Generator) (reg : option R)
    (m : AtomicSwapLockMetrics) (method : string) (devMode : bool) (req : option SwapLockRequest)
    : option (reply SwapLockResponse * option Generator * option R * AtomicSwapLockMetrics) :=
  if devMode && bool_decide (method = "OPTIONS") then Some (HNoContent, gen, reg, m)
  else if negb (bool_decide (method = "POST")) then Some (HErr 405 RMethod, gen, reg, m)
  else
    let m := OnRequest m in
    let fail (status : Z) (r : reason) := Some (HErr status r, gen, reg, m) in
    match req with
    | None => fail 400 RJSON
    | Some req =>
        let req := trim_swap req in
        if bool_decide (sr_Pair req = "") || bool_decide (sr_Profile req = "") then fail 400 RRequired
        else match validateSwapLegs (sr_Near req) (sr_Far req), ParseProfileKey (sr_Profile req), best with
        | Some e, _, _ => fail 400 (RLegs e)
        | None, Ok profile, Some best =>
            match lookupSpotRawForSwap cross best (sr_Pair req), tbl with
            | None, _ => fail 404 RNoSnapshot
            | _, None => fail 503 RNoTable
            | Some (rawBid, rawAsk), Some tbl =>
                let raw := mkQuote (sr_Pair req) rawBid rawAsk now f0 f0 in
                near ← applyLeg tbl raw profile (sr_Near req) spotDays now (sr_CustomerID req);
                match (near : leg_price) with
                | inl e => fail 400 (RLeg StNear e)
                | inr near =>
                    far ← applyLeg tbl raw profile (sr_Far req) spotDays now (sr_CustomerID req);
                    match (far : leg_price) with
                    | inl e => fail 400 (RLeg StFar e)
                    | inr far =>
                        match gen, reg with
                        | Some g, Some r =>
                            let '(rep, g, r, m) := issue_swap req profile tbl rawBid rawAsk now gnow validity g r m near far in
                            Some (rep, Some g, Some r, m)
                        | _, _ => fail 503 RNoRegistry
                        end
                    end
                end
            end
        | None, Ok _, None => fail 503 RNoBest
        | None, _, _ => fail 400 RProfile
        end
    end.
End locks.
End endpoints.
