(* ===== verification/QuoteEndpointsLaws.v ===== *)
(** Theorems about the quotation endpoints: a swap lock registers both legs and
    the swap or leaves nothing behind, what it issues can be consumed as one swap
    while it is valid, and what the endpoints quote when a feed has gone stale. *)

From Stdlib Require Import ZArith QArith Lia.
From S2P Require Import Prelude GoStrings Float64 Session Dates GoTime QuoteID Registry RegistryLaws Pricing Cross.
From S2P Require Import Masters Bars Best CrossConsumer SwapStore QuoteValidation QuoteValidationLaws QuoteEndpoints.
Local Open Scope Z_scope.

(** * What a lock needs of the registry *)
Class LockLaws (R : Type) `{LockBackend R} := {
  lb_rec : R -> string -> option Record_;
  lb_swp : R -> string -> option SwapRecord;
  lb_Put_ok : forall r rec r', lb_Put r rec = (None, r') ->
    (forall id, lb_rec r' id = if decide (id = r_QuoteID rec) then Some rec else lb_rec r id) /\
    (forall id, lb_swp r' id = lb_swp r id);
  lb_Put_err : forall r rec e r', lb_Put r rec = (Some e, r') ->
    (forall id, lb_rec r' id = lb_rec r id) /\ (forall id, lb_swp r' id = lb_swp r id);
  lb_PutSwap_ok : forall r sw r', lb_PutSwap r sw = (None, r') ->
    (forall id, lb_rec r' id = lb_rec r id) /\
    (forall id, lb_swp r' id = if decide (id = s_SwapID sw) then Some sw else lb_swp r id);
  lb_PutSwap_err : forall r sw e r', lb_PutSwap r sw = (Some e, r') ->
    (forall id, lb_rec r' id = lb_rec r id) /\ (forall id, lb_swp r' id = lb_swp r id);
  lb_Delete_ok : forall r id r', lb_Delete r id = (None, r') -> id <> "" ->
    (forall i, lb_rec r' i = if decide (i = id) then None else lb_rec r i) /\
    (forall i, lb_swp r' i = lb_swp r i);
  lb_Delete_err : forall r id e r', lb_Delete r id = (Some e, r') -> forall i, lb_swp r' i = lb_swp r i }.

(** The in-process registry: only an invalid record fails. *)
#[export] Instance memory_lock : LockBackend MemoryRegistry := {|
  lb_Put m rec := match Put m rec with Ok m' => (None, m') | _ => (Some PutInvalidRecord, m) end;
  lb_PutSwap m sw := match PutSwap m sw with Ok m' => (None, m') | _ => (Some PutInvalidRecord, m) end;
  lb_Delete m id := (None, Delete m id) |}.

#[export] Program Instance memory_lock_laws : LockLaws MemoryRegistry := {|
  lb_rec m id := m_records m !! id; lb_swp m id := m_swaps m !! id |}.
Next Obligation.
  intros m rec m'. cbn. unfold Put. repeat case_match; try discriminate; intros [= <-]; simplify_eq; cbn.
  split; [|done]. intros id. destruct (decide (id = r_QuoteID rec)) as [->|]; [by rewrite lookup_insert_eq|].
  by rewrite lookup_insert_ne.
Qed.
Next Obligation. intros m rec e m'. cbn. case_match; intros [= <- <-]; done. Qed.
Next Obligation.
  intros m sw m'. cbn. unfold PutSwap. repeat case_match; try discriminate; intros [= <-]; simplify_eq; cbn.
  split; [done|]. intros id. destruct (decide (id = s_SwapID sw)) as [->|]; [by rewrite lookup_insert_eq|].
  by rewrite lookup_insert_ne.
Qed.
Next Obligation. intros m rec e m'. cbn. case_match; intros [= <- <-]; done. Qed.
Next Obligation.
  intros m id m'. cbn. intros [= <-] Hid. unfold Delete. rewrite decide_False by done. cbn. split; [|done].
  intros i. destruct (decide (i = id)) as [->|]; [by rewrite lookup_delete_eq|]. by rewrite lookup_delete_ne.
Qed.
Next Obligation. done. Qed.

(** * All or nothing *)
Section atomic.
Context {R : Type} `{LockLaws R}.

Definition same_view (r r' : R) : Prop :=
  (forall id, lb_rec r' id = lb_rec r id) /\ (forall id, lb_swp r' id = lb_swp r id).

Lemma incr64_ne x : is_uint 64 x -> incr64 x <> x.
Proof.
  unfold is_uint, incr64, wrap. intros [A B] E. destruct (decide (x + 1 = 2 ^ 64)) as [Ex|].
  - rewrite Ex, Z.mod_same in E by lia. lia.
  - rewrite Z.mod_small in E; lia.
Qed.

Lemma revokeLeg_spec r id m r' m' :
  id <> "" -> revokeLeg r id m = (r', m') ->
  (forall i, lb_swp r' i = lb_swp r i) /\
  ((revokeFail m' = revokeFail m /\ forall i, lb_rec r' i = if decide (i = id) then None else lb_rec r i) \/
   revokeFail m' = incr64 (revokeFail m)).
Proof.
  intros Hid. unfold revokeLeg. destruct (lb_Delete r id) as [[e|] r1] eqn:E; intros [= <- <-].
  - split; [by eapply lb_Delete_err|]. by right.
  - apply lb_Delete_ok in E as [E1 E2]; [|done]. split; [done|]. by left.
Qed.

(** A swap lock registers everything or nothing: with fresh identifiers,
    putSwapAtomic either reports success, and then both legs and the swap are
    registered and nothing else changed, or reports the stage that failed, and
    then no swap was added and, unless the revoke-failure counter moved, the
    records are exactly those before the call. For every backend that meets the
    interface's laws. *)
Theorem swap_lock_atomic r near far sw m :
  is_uint 64 (revokeFail m) ->
  r_QuoteID near <> "" -> r_QuoteID far <> "" -> r_QuoteID near <> r_QuoteID far ->
  lb_rec r (r_QuoteID near) = None -> lb_rec r (r_QuoteID far) = None ->
  let '(e, r', m') := putSwapAtomic r near far sw m in
  match e with
  | None =>
      lb_rec r' (r_QuoteID near) = Some near /\ lb_rec r' (r_QuoteID far) = Some far /\
      lb_swp r' (s_SwapID sw) = Some sw /\
      (forall id, id <> r_QuoteID near -> id <> r_QuoteID far -> lb_rec r' id = lb_rec r id) /\
      (forall id, id <> s_SwapID sw -> lb_swp r' id = lb_swp r id)
  | Some _ =>
      (forall id, lb_swp r' id = lb_swp r id) /\
      (revokeFail m' = revokeFail m -> forall id, lb_rec r' id = lb_rec r id)
  end.
Proof.
  intros U Hn Hf Hnf Fn Ff. unfold putSwapAtomic.
  destruct (lb_Put r near) as [[e1|] r1] eqn:E1; [apply lb_Put_err in E1 as [V1 V2]; auto|].
  apply lb_Put_ok in E1 as [V1 S1].
  destruct (lb_Put r1 far) as [[e2|] r2] eqn:E2.
  { apply lb_Put_err in E2 as [V2 S2]. destruct (revokeLeg r2 _ _) as [r3 m3] eqn:E3.
    apply revokeLeg_spec in E3 as [S3 [[M3 V3]|M3]]; [| |done]; (split; [intros; congruence|]); intros Hm id.
    - rewrite V3, V2, V1. by destruct (decide _) as [->|].
    - rewrite M3 in Hm. by apply incr64_ne in Hm. }
  apply lb_Put_ok in E2 as [V2 S2].
  destruct (lb_PutSwap r2 sw) as [[e3|] r3] eqn:E3.
  { apply lb_PutSwap_err in E3 as [V3 S3]. destruct (revokeLeg r3 _ _) as [r4 m4] eqn:E4.
    destruct (revokeLeg r4 _ _) as [r5 m5] eqn:E5.
    apply revokeLeg_spec in E4 as [S4 E4]; [|done]. apply revokeLeg_spec in E5 as [S5 E5]; [|done].
    split; [intros; congruence|]. intros Hm id. simpl in E4.
    destruct E4 as [[M4 V4]|M4], E5 as [[M5 V5]|M5]; rewrite ?M5, ?M4 in Hm.
    - rewrite V5, V4, V3, V2, V1. destruct (decide (id = r_QuoteID far)) as [->|]; [done|].
      by destruct (decide (id = r_QuoteID near)) as [->|].
    - by apply incr64_ne in Hm.
    - by apply incr64_ne in Hm.
    - exfalso. unfold incr64, wrap, is_uint in *. rewrite Zplus_mod_idemp_l in Hm.
      Z.to_euclidean_division_equations; lia. }
  apply lb_PutSwap_ok in E3 as [V3 S3]. split_and!.
  - rewrite V3, V2, V1. by rewrite decide_False, decide_True.
  - rewrite V3, V2. by rewrite decide_True.
  - rewrite S3. by rewrite decide_True.
  - intros id H1 H2. rewrite V3, V2, V1. by rewrite !decide_False.
  - intros id Hid. rewrite S3, decide_False, S2, S1 by done. done.
Qed.
End atomic.

Definition ex_metrics : AtomicSwapLockMetrics := mkSLM 0 0 0 0 0 0 0.
Definition ex_swap_rec : SwapRecord := mkSwapRecord "SW" "N" "F" 0 100 "A".

(** The far leg is refused (expiry not after issue): the near leg is taken back. *)
Lemma swap_lock_atomic_witness :
  let '(e, m', _) := putSwapAtomic (NewMemoryRegistry 5) (ex_rec "N" 100) (ex_rec "F" 0) ex_swap_rec ex_metrics in
  e = Some (StFar, PutInvalidRecord) /\ lb_rec m' "N" = None.
Proof.
  pose proof (swap_lock_atomic (NewMemoryRegistry 5) (ex_rec "N" 100) (ex_rec "F" 0) ex_swap_rec ex_metrics
    ltac:(by vm_compute) ltac:(done) ltac:(done) ltac:(done) eq_refl eq_refl) as W.
  destruct (putSwapAtomic _ _ _ _ _) as [[e m'] mt] eqn:E.
  assert (e = Some (StFar, PutInvalidRecord) /\ mt = mkSLM 0 0 0 1 0 1 0) as [-> ->]
    by (revert E; vm_compute; by intros [= <- _ <-]).
  split; [done|]. by apply (proj2 W eq_refl).
Defined.

(** A backend on which a registration times out after it took effect. *)
Record LateRegistry := mkLate { late_mem : MemoryRegistry; late_after : nat }.
#[export] Instance late_lock : LockBackend LateRegistry := {|
  lb_Put r rec :=
    match Put (late_mem r) rec, late_after r with
    | Ok m', S n => (None, mkLate m' n)
    | Ok m', O => (Some PutTimeout, mkLate m' 0)
    | _, _ => (Some PutInvalidRecord, r)
    end;
  lb_PutSwap r sw := match PutSwap (late_mem r) sw with Ok m' => (None, mkLate m' (late_after r)) | _ => (Some PutInvalidRecord, r) end;
  lb_Delete r id := (None, mkLate (Delete (late_mem r) id) (late_after r)) |}.

(** A leg whose registration times out after taking effect stays: the far leg is
    not revoked (only the near one is), although every revoke succeeded and the
    comment of putSwapAtomic excludes leaked partial state. *)
Theorem timed_out_leg_leaks :
  let '(e, r', m') := putSwapAtomic (mkLate (NewMemoryRegistry 5) 1) (ex_rec "N" 100) (ex_rec "F" 100) ex_swap_rec ex_metrics in
  e = Some (StFar, PutTimeout) /\ revokeFail m' = 0 /\ m_records (late_mem r') !! "F" = Some (ex_rec "F" 100).
Proof. vm_compute. done. Qed.

(** * What a lock issues can be consumed *)
Section consumable.
Context (LoadLocation : string -> option (Z -> Z)) (worder : PricingTable -> list (string * TimeWindowRule))
  (sorder : PricingTable -> list (string * string * Margin)) (fuel : nat).

(** A successful lock got as far as issuing. *)
Lemma SwapLock_issued {R} `{LockBackend R} best cross tbl now gnow validity spotDays gen reg m method dev req resp g' r' m' :
  SwapLockHandler LoadLocation worder sorder fuel best cross tbl now gnow validity spotDays gen reg m method dev req
    = Some (HOk resp, g', r', m') ->
  exists q profile t0 rb ra g r near far g1 r1,
    gen = Some g /\ reg = Some r /\ g' = Some g1 /\ r' = Some r1 /\
    issue_swap q profile t0 rb ra now gnow validity g r (OnRequest m) near far = (HOk resp, g1, r1, m').
Proof.
  unfold SwapLockHandler. destruct (_ && _); [done|]. destruct (negb _); [done|]. cbv zeta.
  destruct req as [req|]; [|done]. destruct (_ || _); [done|]. destruct (validateSwapLegs _ _); [done|].
  destruct (ParseProfileKey _) as [profile| |]; [|done..]. destruct best as [best|]; [|done].
  destruct (lookupSpotRawForSwap _ _ _) as [[rb ra]|]; [|done]. destruct tbl as [t0|]; [|done].
  destruct (applyLeg _ _ _ _ _ _ _ (sr_Near _) _ _ _) as [[e|near]|]; cbn [mbind option_bind]; [done| |done].
  destruct (applyLeg _ _ _ _ _ _ _ (sr_Far _) _ _ _) as [[e|far]|]; cbn [mbind option_bind]; [done| |done].
  destruct gen as [g|]; [|done]. destruct reg as [r|]; [|done].
  destruct (issue_swap _ _ _ _ _ _ _ _ _ _ _ _ _) as [[[rep g1] r1] m1] eqn:E. intros [= -> <- <- <-].
  naive_solver.
Qed.

Lemma next_distinct g n1 n2 : fst (Next g n1) <> fst (Next (snd (Next g n1)) n2).
Proof.
  intros E. cbn [fst snd Next g_seq g_instance] in E. apply id_split in E as [_ E]; [|apply wrap_is_uint; lia..].
  apply (incr64_ne (wrap 64 (g_seq g + 1))); [apply wrap_is_uint; lia|]. by symmetry.
Qed.

(** What a successful issue registers in the in-process registry. *)
Lemma issue_swap_memory q profile t0 rb ra now gnow validity g (r : MemoryRegistry) mt near far resp g1 r1 m' :
  issue_swap q profile t0 rb ra now gnow validity g r mt near far = (HOk resp, g1, r1, m') ->
  let n := lr_QuoteID (sk_Near resp) in let f := lr_QuoteID (sk_Far resp) in
  n <> f /\ m_consumed r1 = m_consumed r /\ m_grace r1 = m_grace r /\ sk_SwapID resp <> "" /\
  (forall id, m_swaps r1 !! id = if decide (id = sk_SwapID resp)
     then Some (mkSwapRecord (sk_SwapID resp) n f (sk_Issued resp) (sk_ValidUntil resp) (g_instance g)) else m_swaps r !! id) /\
  sk_Issued resp = UnixNano (t_ns now) /\ sk_ValidUntil resp = UnixNano (t_ns now + default_validity validity) /\
  forall id, id = n \/ id = f -> exists rec, m_records r1 !! id = Some rec /\
    r_IssuedAt rec = sk_Issued resp /\ r_ValidUntil rec = sk_ValidUntil resp.
Proof.
  unfold issue_swap. destruct near as [[nq ni] nb], far as [[fq fi] fb].
  destruct (Next g (gnow 0%nat)) as [nid g2] eqn:N1. destruct (Next g2 (gnow 1%nat)) as [fid g3] eqn:N2.
  destruct (Next g3 (gnow 2%nat)) as [sid g4] eqn:N3.
  unfold putSwapAtomic, revokeLeg. cbn [lb_Put lb_PutSwap lb_Delete memory_lock].
  assert (nid <> fid) as Hnf
    by (pose proof (next_distinct g (gnow 0%nat) (gnow 1%nat)) as D; rewrite N1 in D; cbn [snd] in D; by rewrite N2 in D).
  set (nrec := buildLegRecord nid nq _ _ _ _ _ _ _ _). set (frec := buildLegRecord fid fq _ _ _ _ _ _ _ _).
  set (srec := mkSwapRecord _ _ _ _ _ _).
  assert (forall id cq pf sq iss ia vu b i vd, r_QuoteID (buildLegRecord id cq pf sq iss ia vu b i vd) = id /\
    r_IssuedAt (buildLegRecord id cq pf sq iss ia vu b i vd) = UnixNano ia /\
    r_ValidUntil (buildLegRecord id cq pf sq iss ia vu b i vd) = UnixNano vu) as HB
    by (intros; unfold buildLegRecord; by case_match).
  destruct (Put r nrec) as [ra1| |] eqn:P1; [|done..].
  destruct (Put ra1 frec) as [ra2| |] eqn:P2; [|done..].
  destruct (PutSwap ra2 srec) as [ra3| |] eqn:P3; [|done..].
  intros [= <- <- <- <-]. cbn [sk_Near sk_Far lr_QuoteID buildLegResult sk_SwapID sk_Issued sk_ValidUntil].
  unfold Put in P1, P2. unfold PutSwap in P3. repeat case_match; simplify_eq.
  cbn [m_consumed m_grace m_swaps m_records set_records set_swaps s_SwapID].
  assert (r_QuoteID nrec = nid) as -> by apply HB. assert (r_QuoteID frec = fid) as -> by apply HB.
  split_and!; try done.
  - intros id. unfold srec. cbn [s_SwapID]. destruct (decide (id = _)) as [->|]; [by rewrite lookup_insert_eq|].
    by rewrite lookup_insert_ne.
  - intros id [-> | ->].
    + rewrite lookup_insert_ne, lookup_insert_eq by done. exists nrec. split; [done|]. by apply HB.
    + rewrite lookup_insert_eq. exists frec. split; [done|]. by apply HB.
Qed.

Lemma fresh_ok m t id rec :
  m_records m !! id = Some rec -> m_consumed m !! id = None -> 0 <= m_grace m -> is_int64 t ->
  r_IssuedAt rec <= t < r_ValidUntil rec -> quote_status m t id = STATUS_OK.
Proof.
  intros Hr Hc Hg Ht Hv. unfold quote_status, live, expired, After, time_add. rewrite Hr.
  rewrite (proj2 (Z.ltb_ge _ _)) by lia. unfold ValidAt, UnixNano. rewrite wrap64_small by done.
  rewrite (proj2 (Z.leb_le _ _)), (proj2 (Z.ltb_lt _ _)) by lia. simpl. by rewrite Hc.
Qed.

(** C18. What a swap lock hands out can be traded: after SwapLockHandler answered
    with a swap id at time [now], an allowed engine that calls ConsumeSwap with it
    at any instant before the announced expiry is answered OK and both legs are
    consumed, provided the identifiers were not consumed before and no other
    caller interferes. *)
Theorem locked_swap_consumable best cross tbl now gnow validity spotDays g (m : MemoryRegistry) mt method dev req
    resp g' m' mt' s t engine consumer :
  SwapLockHandler LoadLocation worder sorder fuel best cross tbl now gnow validity spotDays (Some g) (Some m) mt method dev req
    = Some (HOk resp, g', Some m', mt') ->
  m_consumed m !! lr_QuoteID (sk_Near resp) = None -> m_consumed m !! lr_QuoteID (sk_Far resp) = None ->
  0 <= m_grace m -> m_swaps m !! "" = None ->
  is_int64 (t_ns now) -> is_int64 (t_ns now + default_validity validity) ->
  t_ns now <= t < t_ns now + default_validity validity ->
  mem s = m' -> frozen s t -> sv_swapIdx s = true -> engine_ok s t engine PermMarkConsumed = true ->
  exists r s', ConsumeSwap (fun r => r) s engine (sk_SwapID resp) consumer = (inr r, s') /\
    cs_Status r = STATUS_OK /\
    quote_status (mem s') t (lr_QuoteID (sk_Near resp)) = ALREADY_CONSUMED /\
    quote_status (mem s') t (lr_QuoteID (sk_Far resp)) = ALREADY_CONSUMED.
Proof.
  intros Hl Hcn Hcf Hg Hw I1 I2 Ht Hm Hf Hi He.
  apply SwapLock_issued in Hl as (q & pf & t0 & rb & ra & g0 & r0 & near & far & g1 & r1 & [= <-] & [= <-] & _ & [= ->] & E).
  apply issue_swap_memory in E as (Hnf & Hc & Hgr & Hsw & Hs & Hia & Hvu & Hrec). unfold UnixNano in *.
  rewrite wrap64_small in Hia by done. rewrite wrap64_small in Hvu by done.
  set (n := lr_QuoteID (sk_Near resp)) in *. set (f := lr_QuoteID (sk_Far resp)) in *.
  assert (is_int64 t) as It by (unfold is_int64 in *; lia).
  assert (forall id, id = n \/ id = f -> quote_status (mem s) t id = STATUS_OK) as Hok.
  { intros id Hid. destruct (Hrec id Hid) as (rec & R1 & R2 & R3). rewrite Hm.
    eapply fresh_ok; [done| |by rewrite Hgr|done|by rewrite R2, R3, Hia, Hvu]. rewrite Hc. by destruct Hid as [-> | ->]. }
  assert (swap_legs (mem s) t (sk_SwapID resp) = Some (n, f)) as Hlegs.
  { unfold swap_legs. rewrite Hm, Hs, decide_True by done. unfold expired, After, time_add. cbn [s_ValidUntil s_NearID s_FarID].
    by rewrite Hgr, Hvu, (proj2 (Z.ltb_ge _ _)) by lia. }
  assert (m_swaps (mem s) !! "" = None) as Hw' by (by rewrite Hm, Hs, decide_False).
  pose proof (consume_swap_whole s t engine (sk_SwapID resp) consumer n f Hf Hw' Hi He Hlegs Hnf) as W. cbv zeta in W.
  destruct (ConsumeSwap _ _ _ _ _) as [[e|r] s']; [done|]. destruct W as [W1 W2].
  assert (cs_Status r = STATUS_OK) as Hr by (apply W1; split; apply Hok; auto).
  exists r, s'. split; [done|]. split; [done|]. rewrite !W2, !decide_True by auto. done.
Qed.
End consumable.

(** * Stale feeds *)
Lemma recompute_loop_stale ms now quotes acc n :
  Forall (fun sq => stale ms now sq = true) quotes -> recompute_loop ms now quotes acc n = (acc, n).
Proof. intros F. revert acc n. induction F as [|sq quotes Hs F IH]; intros acc n; simpl; [done|]. by rewrite Hs. Qed.

(** A dead feed is quoted at zero: when every source of a symbol has gone stale,
    the snapshot keeps the symbol with a zero best, and the spot price lookup of
    the snapshot and lock endpoints returns bid 0 and ask 0 as a BEST price (the
    cross price, however fresh, is not consulted), instead of no price. *)
Theorem stale_feed_quotes_zero iter b rnow now cross pair m :
  (forall m, iter m ≡ₚ (map_to_list m).*2) ->
  cache b !! pair_symbol pair = Some m ->
  map_Forall (fun _ sq => stale (maxStaleness b) (rnow (pair_symbol pair)) sq = true) m ->
  lookupSpotRaw cross (Best.Stats iter b rnow now) pair = Some (f0, f0, "BEST").
Proof.
  intros Hi Hc Hs. unfold lookupSpotRaw, Best.Stats. cbn [Symbols]. rewrite map_lookup_imap, Hc. simpl.
  unfold symbol_stat, recomputeLocked. rewrite recompute_loop_stale; [done|].
  rewrite Hi. apply Forall_fmap, Forall_forall. intros [k sq] Hk. apply elem_of_map_to_list in Hk. by apply (Hs k).
Qed.

Definition ex_stale : BestConsumer :=
  mkBest 30 {["USDKRW" := {["SMB" := mkSQ (f_of_Z 1300) (f_of_Z 1301) f0 f0 0]}]} 0 (mkDedupOpt false f0 ∅) ∅ 0 0 0 ∅.

Lemma stale_feed_quotes_zero_witness :
  lookupSpotRaw None (Best.Stats (fun m => (map_to_list m).*2) ex_stale (fun _ => 100) 100) "USD/KRW" = Some (f0, f0, "BEST").
Proof.
  apply (stale_feed_quotes_zero (fun m => (map_to_list m).*2) ex_stale (fun _ => 100) 100 None "USD/KRW"
    {["SMB" := mkSQ (f_of_Z 1300) (f_of_Z 1301) f0 f0 0]}); [done|done|].
  apply map_Forall_singleton. vm_compute. reflexivity.
Defined.

(** Inverted tenors pass: the check of the leg order compares value dates only, so
    a swap whose near leg is a month and far leg a week is accepted. *)
Theorem inverted_tenors_accepted :
  validateSwapLegs (mkSwapLeg "1M" "") (mkSwapLeg "1W" "") = None /\
  validateSwapLegs (mkSwapLeg "" "2026-06-15") (mkSwapLeg "" "2026-06-08") = Some errSwapLegInvert.
Proof. vm_compute. done. Qed.

Definition ex_best : BestStats :=
  mkBST {["USDKRW" := mkBSS 1 ["SMB"] ∅ (f_of_Z 1300) (f_of_Z 1302) false]} 0 (mkBDS false f0 0 0 0).
Definition ex_lock : option (reply SwapLockResponse * option Generator * option MemoryRegistry * AtomicSwapLockMetrics) :=
  SwapLockHandler (fun _ => None) (fun _ => []) (fun _ => []) 10 (Some ex_best) None (Some (s_p NewStore))
    (mkTime 1000 0) (fun _ => 1000) 50 2 (Some (NewGenerator "A")) (Some (NewMemoryRegistry 5)) ex_metrics "POST" false
    (Some (mkSwapReq " USD/KRW" (mkSwapLeg "SPOT" "") (mkSwapLeg "1M" "") "WEB.HQ.VIP" "" "buy_sell")).
Definition ex_locked : MemoryRegistry :=
  match ex_lock with Some (_, _, Some m, _) => m | _ => NewMemoryRegistry 5 end.
Definition ex_resp : SwapLockResponse :=
  match ex_lock with
  | Some (HOk r, _, _, _) => r
  | _ => mkSwapResp "" "" "" "" "" 0 0 0 (mkLegResult "" "" "" f0 f0 f0 f0 f0 f0 None)
           (mkLegResult "" "" "" f0 f0 f0 f0 f0 f0 None) f0 f0
  end.
Definition ex_engine : QuoteValidationServer ClockedMemory :=
  SetSwapIndex (NewQuoteValidationServer (mkClocked ex_locked (fun _ => 1010) 0) (fun _ => 1010)).

Lemma locked_swap_consumable_witness :
  sk_SwapID ex_resp = "SW-A-0-3" /\
  exists r s', ConsumeSwap (fun r => r) ex_engine "e" (sk_SwapID ex_resp) "c" = (inr r, s') /\ cs_Status r = STATUS_OK.
Proof.
  split; [vm_compute; reflexivity|].
  destruct (locked_swap_consumable (fun _ => None) (fun _ => []) (fun _ => []) 10 (Some ex_best) None (Some (s_p NewStore))
    (mkTime 1000 0) (fun _ => 1000) 50 2 (NewGenerator "A") (NewMemoryRegistry 5) ex_metrics "POST" false
    (Some (mkSwapReq " USD/KRW" (mkSwapLeg "SPOT" "") (mkSwapLeg "1M" "") "WEB.HQ.VIP" "" "buy_sell"))
    ex_resp (Some (mkGenerator "A" 3)) ex_locked (mkSLM 1 1 0 0 0 0 0) ex_engine 1010 "e" "c") as (r & s' & A & B & _);
    [vm_compute; done..|].
  exists r, s'. split; [exact A|exact B].
Defined.
