(* ===== verification/Fanout.v ===== *)
(** Customer quotes of the price service: the registry of connected customers
    (src/internal/price/customer_registry.go), the catalogue of active profiles
    (etcd_profiles.go) and the consumer that prices every tick for every profile
    and customer, gives each quote an identifier and publishes it
    (pricing_consumer.go).

    A publisher is an interface of the consumer: what is handed to it is the list
    of [sent] values, and whether it reports an error is a parameter. A range over
    a map visits its entries in the order of [iter]. *)

From Stdlib Require Import ZArith QArith Lia.
From S2P Require Import Prelude GoStrings Float64 Session Dates QuoteID Registry Pricing Bars Best CrossConsumer SwapStore.
From S2P Require Import Algo QuoteValidation QuoteEndpoints.
Local Open Scope Z_scope.

(** * Connected customers *)
Record customerReg := mkCReg { cg_profile : Profile; cg_sources : gset string }.
Record CustomerRegistry := mkCustomers {
  cu_entries : gmap string customerReg; cu_count : Z; cu_srcCount : Z }.
Definition NewCustomerRegistry : CustomerRegistry := mkCustomers ∅ 0 0.

Definition has_sources (r : customerReg) : bool := negb (bool_decide (cg_sources r = ∅)).

(** The atomic additions that follow a change of the entries; each is a step of
    its own. *)
Inductive delta := AddCount (n : Z) | AddSrc (n : Z).
Definition add_delta (r : CustomerRegistry) (d : delta) : CustomerRegistry :=
  match d with
  | AddCount n => mkCustomers (cu_entries r) (wrap64 (cu_count r + n)) (cu_srcCount r)
  | AddSrc n => mkCustomers (cu_entries r) (cu_count r) (wrap64 (cu_srcCount r + n))
  end.

Definition register_swap (r : CustomerRegistry) (customerID : string) (profile : Profile) (sources : list string)
    : CustomerRegistry * list delta :=
  if decide (customerID = "") then (r, [])
  else
    let reg := mkCReg profile (nonempty_set sources) in
    (mkCustomers (<[customerID := reg]> (cu_entries r)) (cu_count r) (cu_srcCount r),
     match cu_entries r !! customerID with
     | None => AddCount 1 :: (if has_sources reg then [AddSrc 1] else [])
     | Some prev =>
         if has_sources prev && negb (has_sources reg) then [AddSrc (-1)]
         else if negb (has_sources prev) && has_sources reg then [AddSrc 1] else []
     end).
Definition unregister_swap (r : CustomerRegistry) (customerID : string) : CustomerRegistry * list delta :=
  if decide (customerID = "") then (r, [])
  else match cu_entries r !! customerID with
       | None => (r, [])
       | Some prev =>
           (mkCustomers (delete customerID (cu_entries r)) (cu_count r) (cu_srcCount r),
            AddCount (-1) :: (if has_sources prev then [AddSrc (-1)] else []))
       end.

Definition RegisterWithSources (r : CustomerRegistry) (customerID : string) (profile : Profile) (sources : list string)
    : CustomerRegistry :=
  let '(r, ds) := register_swap r customerID profile sources in fold_left add_delta ds r.
Definition Register (r : CustomerRegistry) (customerID : string) (profile : Profile) : CustomerRegistry :=
  RegisterWithSources r customerID profile [].
Definition Unregister (r : CustomerRegistry) (customerID : string) : CustomerRegistry :=
  let '(r, ds) := unregister_swap r customerID in fold_left add_delta ds r.

Definition Count (r : CustomerRegistry) : Z := cu_count r.
Definition SourceSubscriberCount (r : CustomerRegistry) : Z := cu_srcCount r.
Definition Customer_Lookup (r : CustomerRegistry) (customerID : string) : option Profile :=
  if decide (customerID = "") then None else cg_profile <$> cu_entries r !! customerID.

Section ranges.
Context (iter : gmap string customerReg -> list (string * customerReg)).
Definition Range (r : CustomerRegistry) : list (string * Profile) :=
  map (fun '(id, reg) => (id, cg_profile reg)) (iter (cu_entries r)).
Definition RangeForSource (r : CustomerRegistry) (source : string) : list (string * Profile) :=
  if decide (source = "") then []
  else map (fun '(id, reg) => (id, cg_profile reg)) (filter (fun '(_, reg) => source ∈ cg_sources reg) (iter (cu_entries r))).
Definition Customer_Snapshot (r : CustomerRegistry) : list (string * Profile) := Range r.
End ranges.

(** * Active profiles *)
Section profiles.
Context (unmarshal : string -> option Profile) (piter : gmap string Profile -> list Profile).

Record EtcdProfileSource := mkProfiles {
  ps_prefix : string; ps_entries : gmap string Profile; ps_snap : list Profile }.

Definition rebuildSnapshot (s : EtcdProfileSource) : EtcdProfileSource :=
  mkProfiles (ps_prefix s) (ps_entries s) (piter (ps_entries s)).
Definition put_profile (s : EtcdProfileSource) (key value : string) : EtcdProfileSource :=
  match unmarshal value with
  | None => s
  | Some p => mkProfiles (ps_prefix s) (<[key := p]> (ps_entries s)) (ps_snap s)
  end.
Definition profile_event (s : EtcdProfileSource) (ev : QuoteValidation.event) : EtcdProfileSource :=
  match ev with
  | EventPut k v => put_profile s k v
  | EventDelete k => mkProfiles (ps_prefix s) (delete k (ps_entries s)) (ps_snap s)
  end.
Definition Profiles_applyEvents (s : EtcdProfileSource) (events : list QuoteValidation.event) : EtcdProfileSource :=
  if decide (events = []) then s else rebuildSnapshot (fold_left profile_event events s).
(** [kvs]: the answer of the first Get; [None] is its error. *)
Definition NewEtcdProfileSource (prefix : string) (kvs : option (list (string * string))) : option EtcdProfileSource :=
  let prefix := if decide (prefix = "") then "wtg/price/profiles/" else prefix in
  let prefix := if HasSuffix prefix "/" then prefix else prefix +:+ "/" in
  kvs ← kvs;
  Some (rebuildSnapshot (fold_left (fun s '(k, v) => put_profile s k v) kvs (mkProfiles prefix ∅ []))).
Definition ActiveProfiles (s : EtcdProfileSource) : list Profile := ps_snap s.
End profiles.

(** * The consumer *)

(** A customer quote as published: [CustomerQuote] with the fields set after
    pricing. *)
Record IssuedQuote := mkIssued {
  iq_quote : CustomerQuote; iq_QuoteID : string; iq_ValidUntil : Time; iq_Source : string }.

Inductive dest := ToProfile | ToCustomer (id : string).
Record sent := mkSent { se_dest : dest; se_profile : Profile; se_quote : IssuedQuote }.

Record PricingCounters := mkPCC {
  ticksIn : Z; ticksDropped : Z; quotesPublished : Z; publishErrors : Z; quoteRegErrors : Z;
  profilesSkipped : Z; customerQuotesPublished : Z; customerPublishErrors : Z; bufferDropped : Z }.

(** [CookerBodyDecoder]: bid, ask and sizes; the JSON one. *)
Definition JSONCookerDecoder (unmarshal : list byte -> option JSONEnvelope) (body : list byte)
    : option (f64 * f64 * f64 * f64) :=
  match DecodeJSONEnvelope unmarshal body with
  | Ok env => Some (e_Bid env, e_Ask env, e_BidSize env, e_AskSize env)
  | _ => None
  end.

Section consumer.
Context {R : Type} `{LockBackend R}.
Context (LoadLocation : string -> option (Z -> Z)) (worder : PricingTable -> list (string * TimeWindowRule)).
Context (decoder : list byte -> option (f64 * f64 * f64 * f64)).
Context (iter : gmap string customerReg -> list (string * customerReg)).
(** Whether the publisher reports an error for what it is given. *)
Context (fails : sent -> bool).

(** [pc_buf]: the channel of the asynchronous mode with its capacity. *)
Record PricingConsumer := mkPC {
  pc_tenor : string; pc_gen : option Generator; pc_reg : option R; pc_validity : Z;
  pc_buf : option (nat * list Tick); pc_n : PricingCounters }.

Definition NewPricingConsumer (tenor : string) (gen : option Generator) (reg : option R) (validity bufSize : Z) : PricingConsumer :=
  mkPC (if decide (tenor = "") then TenorSpot else tenor) gen reg (default_validity validity)
    (if 0 <? bufSize then Some (Z.to_nat bufSize, []) else None) (mkPCC 0 0 0 0 0 0 0 0 0).

Definition set_n (c : PricingConsumer) (n : PricingCounters) : PricingConsumer :=
  mkPC (pc_tenor c) (pc_gen c) (pc_reg c) (pc_validity c) (pc_buf c) n.
Definition set_ids (c : PricingConsumer) (g : Generator) (r : R) : PricingConsumer :=
  mkPC (pc_tenor c) (Some g) (Some r) (pc_validity c) (pc_buf c) (pc_n c).
Definition set_buf (c : PricingConsumer) (b : option (nat * list Tick)) : PricingConsumer :=
  mkPC (pc_tenor c) (pc_gen c) (pc_reg c) (pc_validity c) b (pc_n c).

Definition count_in (n : PricingCounters) : PricingCounters :=
  mkPCC (incr64 (ticksIn n)) (ticksDropped n) (quotesPublished n) (publishErrors n) (quoteRegErrors n)
    (profilesSkipped n) (customerQuotesPublished n) (customerPublishErrors n) (bufferDropped n).
Definition count_dropped (n : PricingCounters) : PricingCounters :=
  mkPCC (ticksIn n) (incr64 (ticksDropped n)) (quotesPublished n) (publishErrors n) (quoteRegErrors n)
    (profilesSkipped n) (customerQuotesPublished n) (customerPublishErrors n) (bufferDropped n).
Definition count_regerr (n : PricingCounters) : PricingCounters :=
  mkPCC (ticksIn n) (ticksDropped n) (quotesPublished n) (publishErrors n) (incr64 (quoteRegErrors n))
    (profilesSkipped n) (customerQuotesPublished n) (customerPublishErrors n) (bufferDropped n).
Definition count_skipped (n : PricingCounters) : PricingCounters :=
  mkPCC (ticksIn n) (ticksDropped n) (quotesPublished n) (publishErrors n) (quoteRegErrors n)
    (incr64 (profilesSkipped n)) (customerQuotesPublished n) (customerPublishErrors n) (bufferDropped n).
Definition count_buffer (n : PricingCounters) : PricingCounters :=
  mkPCC (ticksIn n) (ticksDropped n) (quotesPublished n) (publishErrors n) (quoteRegErrors n)
    (profilesSkipped n) (customerQuotesPublished n) (customerPublishErrors n) (incr64 (bufferDropped n)).
Definition count_publish (d : dest) (err : bool) (n : PricingCounters) : PricingCounters :=
  match d with
  | ToProfile =>
      mkPCC (ticksIn n) (ticksDropped n) (if err then quotesPublished n else incr64 (quotesPublished n))
        (if err then incr64 (publishErrors n) else publishErrors n) (quoteRegErrors n)
        (profilesSkipped n) (customerQuotesPublished n) (customerPublishErrors n) (bufferDropped n)
  | ToCustomer _ =>
      mkPCC (ticksIn n) (ticksDropped n) (quotesPublished n) (publishErrors n) (quoteRegErrors n)
        (profilesSkipped n) (if err then customerQuotesPublished n else incr64 (customerQuotesPublished n))
        (if err then incr64 (customerPublishErrors n) else customerPublishErrors n) (bufferDropped n)
  end.

(** [gnow] is the generator's clock reading. *)
Definition attachQuoteID (c : PricingConsumer) (cq : CustomerQuote) (prof : Profile) (source : string) (gnow : Z)
    : IssuedQuote * PricingConsumer :=
  match pc_gen c, pc_reg c with
  | Some g, Some r =>
      let '(id, g) := Next g gnow in
      let validUntil := mkTime (t_ns (c_TS cq) + pc_validity c) (t_off (c_TS cq)) in
      let rec := mkRecord id (c_Pair cq) prof (c_Tenor cq) (c_Bid cq) (c_Ask cq)
                   (UnixNano (t_ns (c_TS cq))) (UnixNano (t_ns validUntil)) (NextSequence g) (g_instance g)
                   0 0 "" "" f0 f0 f0 in
      let '(e, r) := lb_Put r rec in
      let c := set_ids c g r in
      (mkIssued cq id validUntil source,
       match e with Some _ => set_n c (count_regerr (pc_n c)) | None => c end)
  | _, _ => (mkIssued cq "" zero_time source, c)
  end.

Definition publish (c : PricingConsumer) (d : dest) (prof : Profile) (cq : CustomerQuote) (source : string) (gnow : Z)
    : PricingConsumer * sent :=
  let '(q, c) := attachQuoteID c cq prof source gnow in
  let ev := mkSent d prof q in
  (set_n c (count_publish d (fails ev) (pc_n c)), ev).

(** [clk] gives the readings for each quote: the wall clock (used when the tick
    has no time) and the generator's. *)
Fixpoint profile_loop (c : PricingConsumer) (tbl : PricingTable) (raw : Quote) (sink : option (string -> bool))
    (profiles : list Profile) (clk : nat -> Time * Z) : option (PricingConsumer * list sent) :=
  match profiles with
  | [] => Some (c, [])
  | prof :: profiles =>
      if match sink with Some has => negb (has (Key prof)) | None => false end then
        profile_loop (set_n c (count_skipped (pc_n c))) tbl raw sink profiles (fun i => clk (S i))
      else
        cq ← ApplyAt LoadLocation tbl (worder tbl) raw prof (pc_tenor c) (q_TS raw) (fst (clk O));
        let '(c, ev) := publish c ToProfile prof cq "" (snd (clk O)) in
        '(c, evs) ← profile_loop c tbl raw sink profiles (fun i => clk (S i));
        Some (c, ev :: evs)
  end.

Fixpoint customer_loop (c : PricingConsumer) (tbl : PricingTable) (raw : Quote) (source : string)
    (customers : list (string * Profile)) (clk : nat -> Time * Z) : option (PricingConsumer * list sent) :=
  match customers with
  | [] => Some (c, [])
  | (id, prof) :: customers =>
      cq ← ApplyForCustomer LoadLocation tbl (worder tbl) raw prof (pc_tenor c) (q_TS raw) (fst (clk O)) id;
      let '(c, ev) := publish c (ToCustomer id) prof cq source (snd (clk O)) in
      '(c, evs) ← customer_loop c tbl raw source customers (fun i => clk (S i));
      Some (c, ev :: evs)
  end.

(** The raw quote of a tick: its symbol is registered and active and its body
    decodes. *)
Definition raw_quote (symbols : symbolMapData) (t : Tick) : option Quote :=
  let '(p, active, found) := SymbolMap_Lookup symbols (tk_Symbol t) in
  if negb found || negb active then None
  else '(bid, ask, bs, as_) ← decoder (tk_Body t); Some (mkQuote p bid ask (tk_Received t) bs as_).

(** [customers] is the registry when the customer publisher is configured. *)
Definition processTick (c : PricingConsumer) (symbols : symbolMapData) (tbl : PricingTable) (profiles : list Profile)
    (sink : option (string -> bool)) (customers : option CustomerRegistry) (t : Tick) (clk : nat -> Time * Z)
    : option (PricingConsumer * list sent) :=
  match raw_quote symbols t with
  | None => Some (set_n c (count_dropped (pc_n c)), [])
  | Some raw =>
      '(c, evs) ← profile_loop c tbl raw sink profiles clk;
      '(c, evs') ← match customers with
                   | Some reg =>
                       if 0 <? Count reg then
                         customer_loop c tbl raw "" (Range iter reg) (fun i => clk (length profiles + i)%nat)
                       else Some (c, [])
                   | None => Some (c, [])
                   end;
      Some (c, evs ++ evs')
  end.

Definition Pricing_OnTick (c : PricingConsumer) (symbols : symbolMapData) (tbl : PricingTable) (profiles : list Profile)
    (sink : option (string -> bool)) (customers : option CustomerRegistry) (t : option Tick) (clk : nat -> Time * Z)
    : option (PricingConsumer * list sent) :=
  match t with
  | None => Some (c, [])
  | Some t =>
      let c := set_n c (count_in (pc_n c)) in
      match pc_buf c with
      | Some (cap, q) =>
          if (length q <? cap)%nat then Some (set_buf c (Some (cap, q ++ [t])), [])
          else Some (set_n c (count_buffer (pc_n c)), [])
      | None => processTick c symbols tbl profiles sink customers t clk
      end
  end.

(** One round of the worker: [None] when the channel is empty. *)
Definition worker_step (c : PricingConsumer) (symbols : symbolMapData) (tbl : PricingTable) (profiles : list Profile)
    (sink : option (string -> bool)) (customers : option CustomerRegistry) (clk : nat -> Time * Z)
    : option (option (PricingConsumer * list sent)) :=
  match pc_buf c with
  | Some (cap, t :: q) => Some (processTick (set_buf c (Some (cap, q))) symbols tbl profiles sink customers t clk)
  | _ => None
  end.

(** Quotes of one source, for the customers that asked for it. *)
Definition OnRawSourceTick (c : PricingConsumer) (symbols : symbolMapData) (tbl : PricingTable)
    (customers : option CustomerRegistry) (t : option Tick) (clk : nat -> Time * Z) : option (PricingConsumer * list sent) :=
  match t, customers with
  | Some t, Some reg =>
      if SourceSubscriberCount reg =? 0 then Some (c, [])
      else if isSynth (tk_Source t) || bool_decide (tk_Source t = "") then Some (c, [])
      else match raw_quote symbols t with
           | None => Some (c, [])
           | Some raw => customer_loop c tbl raw (tk_Source t) (RangeForSource iter reg (tk_Source t)) clk
           end
  | _, _ => Some (c, [])
  end.

Definition PricingConsumer_Stats (c : PricingConsumer) (customers : option CustomerRegistry) : PricingCounters * Z * Z * Z :=
  (pc_n c, match customers with Some r => Count r | None => 0 end,
   match pc_buf c with Some (cap, _) => Z.of_nat cap | None => 0 end,
   match pc_buf c with Some (_, q) => zlen q | None => 0 end).
End consumer.
Arguments PricingConsumer : clear implicits.

(** Several publishers: all are called, the last error is the result. *)
Definition Multi_PublishQuote {E} (publishers : list (Profile -> IssuedQuote -> option E)) (p : Profile) (q : IssuedQuote)
    : option E :=
  fold_left (fun last pub => match pub p q with Some e => Some e | None => last end) publishers None.
