(* ===== verification/FanoutLaws.v ===== *)
(** Theorems about the fan-out of customer quotes: the counters of the customer
    registry agree with its entries in every interleaving, every published quote
    is honoured by the registry until it expires, and the asynchronous buffer
    processes or counts every tick. *)

From Stdlib Require Import ZArith QArith Lia.
From S2P Require Import Prelude GoStrings Float64 Session Dates QuoteID Registry RegistryLaws Pricing Bars Best.
From S2P Require Import CrossConsumer SwapStore Algo QuoteValidation QuoteEndpoints QuoteEndpointsLaws Fanout.
Local Open Scope Z_scope.

(** * Customer counters *)

(** Goroutines of several connections: changes of the entries, and the additions
    they still owe, in any order. *)
Inductive sched := SRegister (id : string) (p : Profile) (sources : list string) | SUnregister (id : string) | SAdd (i : nat).
Definition exec1 (s : CustomerRegistry * list delta) (e : sched) : CustomerRegistry * list delta :=
  let '(r, due) := s in
  match e with
  | SRegister id p src => let '(r, ds) := register_swap r id p src in (r, due ++ ds)
  | SUnregister id => let '(r, ds) := unregister_swap r id in (r, due ++ ds)
  | SAdd i => match due !! i with Some d => (add_delta r d, delete i due) | None => (r, due) end
  end.
Definition exec (s : CustomerRegistry * list delta) (es : list sched) : CustomerRegistry * list delta :=
  fold_left exec1 es s.

Definition dcount (d : delta) : Z := match d with AddCount n => n | AddSrc _ => 0 end.
Definition dsrc (d : delta) : Z := match d with AddCount _ => 0 | AddSrc n => n end.
Definition owed (f : delta -> Z) (l : list delta) : Z := foldr (fun d n => f d + n) 0 l.
Definition with_sources (r : CustomerRegistry) : Z :=
  Z.of_nat (size (filter (fun '(_, reg) => has_sources reg = true) (cu_entries r))).

Lemma owed_app f l l' : owed f (l ++ l') = owed f l + owed f l'.
Proof. induction l; simpl; lia. Qed.
Lemma owed_delete f l i d : l !! i = Some d -> owed f (delete i l) = owed f l - f d.
Proof.
  revert i. induction l as [|x l IH]; intros [|i] E; simpl in *; [done..| |].
  - injection E as ->. lia.
  - rewrite (IH i E). lia.
Qed.

Lemma wrap64_add x n : wrap64 (wrap64 x + n) = wrap64 (x + n).
Proof. unfold wrap64. f_equal. divmod_lia. Qed.

Definition counts_inv (s : CustomerRegistry * list delta) : Prop :=
  let '(r, due) := s in
  cu_count r = wrap64 (Z.of_nat (size (cu_entries r)) - owed dcount due) /\
  cu_srcCount r = wrap64 (with_sources r - owed dsrc due).

Lemma has_sources_insert (m : gmap string customerReg) id reg :
  Z.of_nat (size (filter (fun '(_, g) => has_sources g = true) (<[id := reg]> m)))
  = Z.of_nat (size (filter (fun '(_, g) => has_sources g = true) (delete id m))) + Z.b2z (has_sources reg).
Proof.
  rewrite <-insert_delete_eq. destruct (has_sources reg) eqn:E.
  - rewrite map_filter_insert_True, map_size_insert_None; [simpl; lia| |done].
    apply map_lookup_filter_None. left. by rewrite lookup_delete_eq.
  - rewrite map_filter_insert_not'; [simpl; lia|by rewrite E|]. intros y. by rewrite lookup_delete_eq.
Qed.
Lemma has_sources_delete (m : gmap string customerReg) id prev : m !! id = Some prev ->
  Z.of_nat (size (filter (fun '(_, g) => has_sources g = true) (delete id m)))
  = Z.of_nat (size (filter (fun '(_, g) => has_sources g = true) m)) - Z.b2z (has_sources prev).
Proof. intros E. rewrite <-(insert_id m id prev E) at 2. rewrite has_sources_insert. lia. Qed.

Lemma counts_step s e : counts_inv s -> counts_inv (exec1 s e).
Proof.
  destruct s as [r due], e as [id p src|id|i]; intros [A B]; cbn [exec1].
  - unfold register_swap. case_decide; [by rewrite app_nil_r|]. set (reg := mkCReg p _).
    unfold counts_inv, with_sources. cbn [cu_entries cu_count cu_srcCount]. rewrite A, B, !owed_app, has_sources_insert.
    unfold with_sources. destruct (cu_entries r !! id) as [prev|] eqn:E.
    + rewrite (has_sources_delete _ _ _ E), map_size_insert_Some by (by rewrite E).
      destruct (has_sources prev), (has_sources reg); simpl; split; f_equal; lia.
    + rewrite map_size_insert_None, delete_id by done.
      destruct (has_sources reg); simpl; split; f_equal; lia.
  - unfold unregister_swap. case_decide; [by rewrite app_nil_r|].
    destruct (cu_entries r !! id) as [prev|] eqn:E; [|by rewrite app_nil_r].
    unfold counts_inv, with_sources. cbn [cu_entries cu_count cu_srcCount].
    rewrite A, B, !owed_app, (has_sources_delete _ _ _ E), map_size_delete_Some by (by rewrite E).
    assert (size (cu_entries r) <> 0%nat) by (intros Z%map_size_empty_inv; by rewrite Z in E).
    unfold with_sources. destruct (has_sources prev); simpl; split; f_equal; lia.
  - destruct (due !! i) as [d|] eqn:E; [|done]. unfold counts_inv.
    rewrite !(owed_delete _ _ _ _ E). unfold with_sources in *.
    destruct d; cbn [add_delta cu_entries cu_count cu_srcCount dcount dsrc]; rewrite A, B, ?wrap64_add; split; f_equal; lia.
Qed.

Lemma counts_exec es s : counts_inv s -> counts_inv (exec s es).
Proof. revert s. induction es as [|e es IH]; intros s I; simpl; [done|]. apply IH, counts_step, I. Qed.

(** The customer counters are exact: whatever the interleaving of
    registrations and removals of the same or of different customers with the
    atomic additions they make afterwards, once every addition is made Count is
    the number of registered customers and SourceSubscriberCount the number of
    those that asked for single sources; in particular a gate that reads zero
    never hides a registered customer for good. *)
Theorem customer_counts es r :
  exec (NewCustomerRegistry, []) es = (r, []) -> Z.of_nat (size (cu_entries r)) < 2 ^ 63 ->
  Count r = Z.of_nat (size (cu_entries r)) /\ SourceSubscriberCount r = with_sources r.
Proof.
  intros E Hs. pose proof (counts_exec es (NewCustomerRegistry, []) ltac:(done)) as H.
  rewrite E in H. destruct H as [A B]. unfold Count, SourceSubscriberCount. rewrite A, B. simpl. rewrite !Z.sub_0_r.
  assert (size (filter (fun '(_, reg) => has_sources reg = true) (cu_entries r)) <= size (cu_entries r))%nat
    by apply map_size_filter.
  unfold with_sources. rewrite !wrap64_small; unfold is_int64; lia.
Qed.

Definition ex_profile : Profile := mkProfile "WEB" "HQ" "VIP".
(** A reconnection that overtakes the removal's additions. *)
Definition ex_sched : list sched :=
  [SRegister "c" ex_profile ["SMB"]; SAdd 0; SUnregister "c"; SRegister "c" ex_profile []; SAdd 3; SAdd 1; SAdd 0; SAdd 0].
Lemma customer_counts_witness :
  let r := fst (exec (NewCustomerRegistry, []) ex_sched) in Count r = 1 /\ SourceSubscriberCount r = 0.
Proof.
  destruct (customer_counts ex_sched (fst (exec (NewCustomerRegistry, []) ex_sched)) ltac:(vm_compute; reflexivity)
    ltac:(vm_compute; reflexivity)) as [A B]. cbv zeta. rewrite A, B. split; vm_compute; reflexivity.
Defined.

(** * Published quotes are honoured *)

(** What else happens to the registry, at the clock readings given. *)
Inductive regop :=
| OpMark (now1 now2 : Z) (id consumer : string)
| OpMarkMany (now : Z) (reqs : list ConsumeRequest)
| OpSweep (now : Z)
| OpGet (now : Z) (id : string).
Definition apply_op (m : MemoryRegistry) (o : regop) : MemoryRegistry :=
  match o with
  | OpMark n1 n2 id c => snd (Registry.MarkConsumed m n1 n2 id c)
  | OpMarkMany n reqs => snd (MarkConsumedMany m n reqs)
  | OpSweep n => snd (Registry.Sweep m n)
  | OpGet n id => snd (Registry.Get m n id)
  end.
(** The grace test reads the clock first. *)
Definition op_before (T : Z) (o : regop) : Prop :=
  match o with OpMark n _ _ _ | OpMarkMany n _ | OpSweep n | OpGet n _ => n <= T end.

Lemma not_expired m vu now T : 0 <= m_grace m -> now <= T -> T < vu -> expired m vu now = false.
Proof. intros. unfold expired, After, time_add. apply Z.ltb_ge. lia. Qed.

Lemma mark_grace m n1 n2 i c : m_grace (snd (Registry.MarkConsumed m n1 n2 i c)) = m_grace m.
Proof. unfold Registry.MarkConsumed. repeat case_match; done. Qed.

Lemma mark_keeps m n1 n2 i c id rec T :
  0 <= m_grace m -> n1 <= T -> m_records m !! id = Some rec -> T < r_ValidUntil rec ->
  m_records (snd (Registry.MarkConsumed m n1 n2 i c)) !! id = Some rec.
Proof.
  intros G Hn Hr Hv. unfold Registry.MarkConsumed. destruct (m_records m !! i) as [rec'|] eqn:E; [|done].
  destruct (expired m _ _) eqn:Ex; [|repeat case_match; done]. simpl.
  destruct (decide (i = id)) as [->|]; [|by rewrite lookup_delete_ne].
  rewrite Hr in E. injection E as <-. by rewrite (not_expired _ _ _ T) in Ex.
Qed.

Lemma op_grace m o : m_grace (apply_op m o) = m_grace m.
Proof.
  destruct o as [n1 n2 i c|n reqs|n|n i]; simpl.
  - apply mark_grace.
  - rewrite MarkConsumedMany_seq. revert m. induction reqs as [|q reqs IH]; intros m; [done|]. simpl.
    pose proof (mark_grace m n n (q_QuoteID q) (q_ConsumerID q)). destruct (Registry.MarkConsumed _ _ _ _ _) as [r1 m1].
    specialize (IH m1). destruct (mark_seq m1 n reqs) as [rs m2]. simpl in *. congruence.
  - apply (Sweep_lookup m n "").
  - unfold Registry.Get. repeat case_match; done.
Qed.

Lemma op_keeps T m o id rec :
  0 <= m_grace m -> op_before T o -> m_records m !! id = Some rec -> T < r_ValidUntil rec ->
  m_records (apply_op m o) !! id = Some rec.
Proof.
  intros G Ho Hr Hv. destruct o as [n1 n2 i c|n reqs|n|n i]; simpl in *.
  - by eapply mark_keeps.
  - rewrite MarkConsumedMany_seq. revert m G Hr. induction reqs as [|q reqs IH]; intros m G Hr; [done|]. simpl.
    pose proof (mark_keeps m n n (q_QuoteID q) (q_ConsumerID q) id rec T G Ho Hr Hv) as K.
    pose proof (mark_grace m n n (q_QuoteID q) (q_ConsumerID q)) as Gm.
    destruct (Registry.MarkConsumed _ _ _ _ _) as [r1 m1]. simpl in K, Gm.
    specialize (IH m1 ltac:(lia) K). by destruct (mark_seq m1 n reqs) as [rs m2].
  - destruct (Sweep_lookup m n id) as (A & _ & _). rewrite A. unfold RegistryLaws.stale. rewrite Hr.
    by rewrite (not_expired _ _ _ T).
  - unfold Registry.Get, get_read, get_evict. destruct (m_records m !! i) as [rec'|] eqn:E; [|done].
    destruct (expired m _ _) eqn:Ex; [|done]. simpl.
    destruct (decide (i = id)) as [->|]; [|by rewrite lookup_delete_ne].
    rewrite Hr in E. injection E as <-. by rewrite (not_expired _ _ _ T) in Ex.
Qed.

Section honoured.
Context (LoadLocation : string -> option (Z -> Z)) (worder : PricingTable -> list (string * TimeWindowRule)).
Context (decoder : list byte -> option (f64 * f64 * f64 * f64)).
Context (iter : gmap string customerReg -> list (string * customerReg)) (fails : sent -> bool).

(** The life of the consumer: ticks, rounds of the worker, ticks of single
    sources, each with the tables it reads, and the other users of the registry. *)
Inductive event :=
| ETick (symbols : symbolMapData) (tbl : PricingTable) (profiles : list Profile) (sink : option (string -> bool))
    (customers : option CustomerRegistry) (t : option Tick) (clk : nat -> Time * Z)
| EWorker (symbols : symbolMapData) (tbl : PricingTable) (profiles : list Profile) (sink : option (string -> bool))
    (customers : option CustomerRegistry) (clk : nat -> Time * Z)
| ESource (symbols : symbolMapData) (tbl : PricingTable) (customers : option CustomerRegistry) (t : option Tick)
    (clk : nat -> Time * Z)
| EOp (o : regop).

Definition step (c : PricingConsumer MemoryRegistry) (e : event) : option (PricingConsumer MemoryRegistry * list sent) :=
  match e with
  | ETick sy tb ps sk cu t clk => Pricing_OnTick LoadLocation worder decoder iter fails c sy tb ps sk cu t clk
  | EWorker sy tb ps sk cu clk =>
      default (Some (c, [])) (worker_step LoadLocation worder decoder iter fails c sy tb ps sk cu clk)
  | ESource sy tb cu t clk => OnRawSourceTick LoadLocation worder decoder iter fails c sy tb cu t clk
  | EOp o => Some (mkPC (pc_tenor c) (pc_gen c) ((fun m => apply_op m o) <$> pc_reg c) (pc_validity c) (pc_buf c) (pc_n c), [])
  end.
Fixpoint run (c : PricingConsumer MemoryRegistry) (es : list event) : option (PricingConsumer MemoryRegistry * list sent) :=
  match es with
  | [] => Some (c, [])
  | e :: es => '(c, out) ← step c e; '(c, out') ← run c es; Some (c, out ++ out')
  end.

Context (T validity seq0 : Z) (inst : string).
Context (HV : 0 < validity).

(** Instants of a tick fit [UnixNano]. *)
Definition tick_ok (t : Tick) : Prop := is_int64 (t_ns (tk_Received t)) /\ is_int64 (t_ns (tk_Received t) + validity).
Definition event_ok (e : event) : Prop :=
  match e with
  | ETick _ _ _ _ _ (Some t) _ | ESource _ _ _ (Some t) _ => tick_ok t
  | EOp o => op_before T o
  | _ => True
  end.

(** The record an issued quote must have. *)
Definition record_of (ev : sent) (rec : Record_) : Prop :=
  let q := iq_quote (se_quote ev) in
  r_Pair rec = c_Pair q /\ r_Profile rec = se_profile ev /\ r_Tenor rec = c_Tenor q /\
  r_Bid rec = c_Bid q /\ r_Ask rec = c_Ask q /\ r_IssuedAt rec = t_ns (c_TS q) /\
  r_ValidUntil rec = t_ns (iq_ValidUntil (se_quote ev)).

Definition issued_as (j : nat) (ev : sent) : Prop :=
  exists ms, iq_QuoteID (se_quote ev) = inst +:+ "-" +:+ FormatInt ms +:+ "-" +:+ FormatUint (wrap 64 (seq0 + 1 + Z.of_nat j)).

Definition good (c : PricingConsumer MemoryRegistry) (out : list sent) : Prop :=
  exists g m, pc_gen c = Some g /\ pc_reg c = Some m /\ pc_validity c = validity /\
    g_instance g = inst /\ g_seq g = wrap 64 (seq0 + Z.of_nat (length out)) /\ 0 <= m_grace m /\
    (forall cap q, pc_buf c = Some (cap, q) -> Forall tick_ok q) /\
    forall j ev, out !! j = Some ev -> issued_as j ev /\
      (T < t_ns (iq_ValidUntil (se_quote ev)) ->
       exists rec, m_records m !! iq_QuoteID (se_quote ev) = Some rec /\ record_of ev rec).

Lemma good_set_n c n out : good c out -> good (set_n c n) out.
Proof. done. Qed.

Lemma seq_distinct (i j : nat) : Z.of_nat i < 2 ^ 64 -> Z.of_nat j < 2 ^ 64 -> i <> j ->
  wrap 64 (seq0 + 1 + Z.of_nat i) <> wrap 64 (seq0 + 1 + Z.of_nat j).
Proof.
  intros Hi Hj Hne E. unfold wrap in E.
  assert ((Z.of_nat i - Z.of_nat j) mod 2 ^ 64 = 0) as M.
  { replace (Z.of_nat i - Z.of_nat j) with ((seq0 + 1 + Z.of_nat i) - (seq0 + 1 + Z.of_nat j)) by lia.
    by rewrite Zminus_mod, E, Z.sub_diag. }
  apply Z.mod_divide in M as [k M]; [|lia]. nia.
Qed.

Lemma issued_distinct i j ev ev' : Z.of_nat i < 2 ^ 64 -> Z.of_nat j < 2 ^ 64 -> i <> j ->
  issued_as i ev -> issued_as j ev' -> iq_QuoteID (se_quote ev) <> iq_QuoteID (se_quote ev').
Proof.
  intros Hi Hj Hne [ms ->] [ms' ->] E. apply id_split in E as [_ E]; [|apply wrap_is_uint; lia..].
  by apply (seq_distinct i j).
Qed.

Lemma publish_good c d prof cq src gnow c' ev out :
  publish fails c d prof cq src gnow = (c', ev) -> is_int64 (t_ns (c_TS cq)) -> is_int64 (t_ns (c_TS cq) + validity) ->
  Z.of_nat (length out) < 2 ^ 64 -> good c out -> good c' (out ++ [ev]).
Proof using HV.
  intros E I1 I2 Hlen (g & m & Hg & Hm & Hv & Hi & Hs & Gr & Hb & Ho). unfold publish, attachQuoteID in E.
  rewrite Hg, Hm, Hv in E. destruct (Next g gnow) as [id g'] eqn:N.
  assert (g_instance g' = inst /\ g_seq g' = wrap 64 (seq0 + 1 + Z.of_nat (length out)) /\
    id = inst +:+ "-" +:+ FormatInt (UnixMilli gnow) +:+ "-" +:+ FormatUint (wrap 64 (seq0 + 1 + Z.of_nat (length out))))
    as (Gi & Gs & Gid).
  { unfold Next in N. injection N as <- <-. cbn [g_instance g_seq].
    assert (wrap 64 (g_seq g + 1) = wrap 64 (seq0 + 1 + Z.of_nat (length out))) as ->; [|by rewrite Hi].
    rewrite Hs. unfold wrap. rewrite Zplus_mod_idemp_l. f_equal. lia. }
  cbn [lb_Put memory_lock t_ns] in E. unfold UnixNano in E. rewrite !wrap64_small in E by done.
  match type of E with context [Put m ?r] => set (rec := r) in * end.
  assert (Put m rec = Ok (set_records m (<[id := rec]> (m_records m)))) as P.
  { unfold Put. rewrite (proj2 (Z.leb_gt _ _)) by (unfold rec; simpl; lia). rewrite decide_False; [done|].
    cbn [r_QuoteID rec]. intros Z. rewrite Gid in Z. by destruct inst. }
  rewrite P in E. injection E as <- <-.
  set (ev := mkSent d prof _).
  assert (issued_as (length out) ev) as Iev by (exists (UnixMilli gnow); exact Gid).
  exists g', (set_records m (<[id := rec]> (m_records m))). cbn [pc_gen pc_reg pc_validity pc_buf set_n set_ids].
  split_and!; try done.
  { rewrite Gs, length_app. f_equal. simpl. lia. }
  intros j ev' Hj. apply lookup_app_Some in Hj as [Hj|[Hge Hj]].
  - destruct (Ho j ev' Hj) as [A B]. split; [done|]. intros HT. destruct (B HT) as (r' & R1 & R2). exists r'.
    split; [|done]. cbn [m_records set_records]. rewrite lookup_insert_ne; [done|].
    apply lookup_lt_Some in Hj. change id with (iq_QuoteID (se_quote ev)).
    eapply issued_distinct; [| | |exact Iev|exact A]; lia.
  - apply list_lookup_singleton_Some in Hj as [Hj <-]. replace j with (length out) by lia. split; [done|].
    intros _. exists rec. cbn [m_records set_records se_quote iq_QuoteID ev]. by rewrite lookup_insert_eq.
Qed.

Lemma apply_TS tbl raw prof tenor now wall id cq :
  ApplyForCustomer LoadLocation tbl (worder tbl) raw prof tenor now wall id = Some cq -> c_TS cq = q_TS raw.
Proof. unfold ApplyForCustomer. intros (aw & _ & [= <-])%bind_Some. done. Qed.

Lemma profile_loop_good tbl raw sink ps clk c c' evs out :
  is_int64 (t_ns (q_TS raw)) -> is_int64 (t_ns (q_TS raw) + validity) ->
  profile_loop LoadLocation worder fails c tbl raw sink ps clk = Some (c', evs) ->
  Z.of_nat (length (out ++ evs)) <= 2 ^ 64 -> good c out -> good c' (out ++ evs).
Proof using HV.
  intros I1 I2. revert clk c evs out. induction ps as [|p ps IH]; intros clk c evs out E Hl G; cbn [profile_loop] in E.
  { injection E as <- <-. by rewrite app_nil_r. }
  destruct (match sink with Some _ => _ | None => _ end); [by eapply IH; [exact E| |]|].
  apply bind_Some in E as (cq & Ec & E). apply apply_TS in Ec.
  destruct (publish fails c ToProfile p cq "" (snd (clk O))) as [c1 ev] eqn:P.
  apply bind_Some in E as ([c2 evs2] & E2 & [= <- <-]).
  rewrite length_app in Hl. simpl in Hl.
  rewrite cons_middle, app_assoc. eapply IH; [exact E2|rewrite !length_app; simpl; lia|].
  eapply publish_good; [exact P|by rewrite Ec..|lia|done].
Qed.

Lemma customer_loop_good tbl raw src cs clk c c' evs out :
  is_int64 (t_ns (q_TS raw)) -> is_int64 (t_ns (q_TS raw) + validity) ->
  customer_loop LoadLocation worder fails c tbl raw src cs clk = Some (c', evs) ->
  Z.of_nat (length (out ++ evs)) <= 2 ^ 64 -> good c out -> good c' (out ++ evs).
Proof using HV.
  intros I1 I2. revert clk c evs out. induction cs as [|[i p] cs IH]; intros clk c evs out E Hl G; cbn [customer_loop] in E.
  { injection E as <- <-. by rewrite app_nil_r. }
  apply bind_Some in E as (cq & Ec & E). apply apply_TS in Ec.
  destruct (publish fails c (ToCustomer i) p cq src (snd (clk O))) as [c1 ev] eqn:P.
  apply bind_Some in E as ([c2 evs2] & E2 & [= <- <-]).
  rewrite length_app in Hl. simpl in Hl.
  rewrite cons_middle, app_assoc. eapply IH; [exact E2|rewrite !length_app; simpl; lia|].
  eapply publish_good; [exact P|by rewrite Ec..|lia|done].
Qed.

Lemma raw_quote_TS sy t raw : raw_quote decoder sy t = Some raw -> q_TS raw = tk_Received t.
Proof.
  unfold raw_quote. destruct (SymbolMap_Lookup sy (tk_Symbol t)) as [[p a] f]. case_match; [done|].
  intros ([[[b k] bs] ks] & _ & [= <-])%bind_Some. done.
Qed.

Lemma processTick_good c sy tb ps sk cu t clk c' evs out :
  tick_ok t -> processTick LoadLocation worder decoder iter fails c sy tb ps sk cu t clk = Some (c', evs) ->
  Z.of_nat (length (out ++ evs)) <= 2 ^ 64 -> good c out -> good c' (out ++ evs).
Proof using HV.
  intros [I1 I2] E Hl G. unfold processTick in E. destruct (raw_quote decoder sy t) as [raw|] eqn:Er.
  2:{ injection E as <- <-. by rewrite app_nil_r. }
  apply raw_quote_TS in Er. rewrite <-Er in I1, I2.
  apply bind_Some in E as ([c1 e1] & E1 & E). apply bind_Some in E as ([c2 e2] & E2 & [= <- <-]).
  rewrite app_assoc in *. rewrite !length_app in Hl.
  assert (good c1 (out ++ e1)) as G1 by (eapply profile_loop_good; [..|exact G]; [done|done|exact E1|rewrite length_app; lia]).
  destruct cu as [reg|]; [destruct (0 <? Count reg)|]; [|injection E2 as <- <-; by rewrite app_nil_r..].
  eapply customer_loop_good; [..|exact G1]; [done|done|exact E2|rewrite !length_app; lia].
Qed.

Lemma step_good c e c' evs out :
  event_ok e -> step c e = Some (c', evs) -> Z.of_nat (length (out ++ evs)) <= 2 ^ 64 -> good c out -> good c' (out ++ evs).
Proof using HV.
  destruct e as [sy tb ps sk cu t clk|sy tb ps sk cu clk|sy tb cu t clk|o]; intros Hok E Hl G; cbn [step] in E.
  - unfold Pricing_OnTick in E. destruct t as [t|]; [|injection E as <- <-; by rewrite app_nil_r].
    cbn [pc_buf set_n] in E. destruct (pc_buf c) as [[cap q]|] eqn:Hq; [|by eapply processTick_good].
    destruct (length q <? cap)%nat; injection E as <- <-; rewrite app_nil_r; [|done].
    destruct G as (g & m & ? & ? & ? & ? & ? & ? & Hb & ?). exists g, m. split_and!; try done.
    intros cap' q' [= <- <-]. apply Forall_app. split; [by eapply Hb|]. by constructor.
  - unfold worker_step in E. destruct (pc_buf c) as [[cap [|t q]]|] eqn:Hq; try (injection E as <- <-; by rewrite app_nil_r).
    destruct G as (g & m & ? & ? & ? & ? & ? & ? & Hb & ?). pose proof (Hb _ _ Hq) as F. apply Forall_cons in F as [Ft Fq].
    eapply processTick_good; [exact Ft|exact E|done|]. exists g, m. split_and!; try done. by intros cap' q' [= <- <-].
  - unfold OnRawSourceTick in E. destruct t as [t|]; [|injection E as <- <-; by rewrite app_nil_r].
    destruct cu as [reg|]; [|injection E as <- <-; by rewrite app_nil_r].
    destruct (_ =? 0); [injection E as <- <-; by rewrite app_nil_r|].
    destruct (_ || _); [injection E as <- <-; by rewrite app_nil_r|].
    destruct (raw_quote decoder sy t) as [raw|] eqn:Er; [|injection E as <- <-; by rewrite app_nil_r].
    apply raw_quote_TS in Er. destruct Hok as [I1 I2]. rewrite <-Er in I1, I2. by eapply customer_loop_good.
  - injection E as <- <-. rewrite app_nil_r. destruct G as (g & m & Hg & Hm & ? & ? & ? & Gr & Hb & Ho).
    exists g, (apply_op m o). cbn [pc_gen pc_reg pc_validity pc_buf]. rewrite Hm. split_and!; try done; [by rewrite op_grace|].
    intros j ev Hj. destruct (Ho j ev Hj) as [A B]. split; [done|]. intros HT. destruct (B HT) as (rec & R1 & R2).
    exists rec. split; [|done]. eapply op_keeps; [done..|]. destruct R2 as (_ & _ & _ & _ & _ & _ & ->). done.
Qed.

Lemma run_good es c c' evs out :
  Forall event_ok es -> run c es = Some (c', evs) -> Z.of_nat (length (out ++ evs)) <= 2 ^ 64 -> good c out -> good c' (out ++ evs).
Proof using HV.
  intros F. revert c evs out. induction F as [|e es He F IH]; intros c evs out E Hl G; cbn [run] in E.
  { injection E as <- <-. by rewrite app_nil_r. }
  apply bind_Some in E as ([c1 e1] & E1 & E). apply bind_Some in E as ([c2 e2] & E2 & [= <- <-]).
  rewrite app_assoc in *. eapply IH; [exact E2|done|]. rewrite length_app in Hl.
  eapply step_good; [done|exact E1|lia|done].
Qed.
End honoured.


(** Two ticks for one profile and one customer, the first quote consumed and the
    registry swept in between. *)
Definition ex_clk (_ : nat) : Time * Z := (mkTime 0 0, 1000000).
Definition ex_dec (_ : list byte) : option (f64 * f64 * f64 * f64) := Some (f_of_Z 1300, f_of_Z 1301, f1, f1).
Definition ex_syms : symbolMapData := SymbolMap_Replace [mkSymbol "USDKRW" "USD/KRW" true].
Definition ex_tk (ts : Z) : Tick := mkTick 1 "USDKRW" 1 0 0 0 [] (mkTime ts 0) SourceBest.
Definition ex_life : list event :=
  [ETick ex_syms (s_p NewStore) [ex_profile] None (Some (Register NewCustomerRegistry "c" ex_profile)) (Some (ex_tk 1000)) ex_clk;
   EOp (OpMark 1010 1010 "A-1-1" "e"); EOp (OpSweep 1020);
   ETick ex_syms (s_p NewStore) [ex_profile] None None (Some (ex_tk 1030)) ex_clk].
Definition ex_run : option (PricingConsumer MemoryRegistry * list sent) :=
  run (fun _ => None) (fun _ => []) ex_dec map_to_list (fun _ => false)
    (NewPricingConsumer "" (Some (NewGenerator "A")) (Some (NewMemoryRegistry 5)) 100 0) ex_life.
Definition ex_out : list sent := match ex_run with Some (_, out) => out | None => [] end.

