(* ===== verification/Hub.v ===== *)
(** The streams of the price service to its edges (src/internal/price/grpc.go):
    ticks, profile quotes, bars and customer quotes each go to the subscribers of
    their stream through a bounded channel per subscriber; a subscriber whose
    channel is full is cut off. Customers are registered through a stream of
    messages, and queues that fill up are reported at most once a minute.

    Subscribers are shared objects: the table refers to them by identifier, a
    publication works on a copy of the table's identifiers, and an object lives on
    after it was taken out of the table. Sending on a closed channel panics. *)

From Stdlib Require Import ZArith QArith Lia.
From S2P Require Import Prelude GoStrings Float64 Session Dates QuoteID Pricing Bars Best Fanout.
Local Open Scope Z_scope.
Local Open Scope wtg_scope.

(** * One stream *)
Section hub.
Context {M F : Type} (passes : F -> M -> bool).

Record subscriber := mkSubscriber {
  sb_filter : F; sb_srvID : string; sb_out : list M; sb_closed : bool }.

(** [hb_objs]: the subscriber objects; [hb_ids]: those in the table. *)
Record hub := mkHub { hb_cap : nat; hb_objs : gmap Z subscriber; hb_ids : gset Z }.
Definition empty_hub (cap : nat) : hub := mkHub cap ∅ ∅.

Definition set_obj (h : hub) (id : Z) (s : subscriber) : hub := mkHub (hb_cap h) (<[id := s]> (hb_objs h)) (hb_ids h).

(** The first part of a Subscribe call. *)
Definition subscribe (h : hub) (id : Z) (f : F) (srvID : string) : hub :=
  mkHub (hb_cap h) (<[id := mkSubscriber f srvID [] false]> (hb_objs h)) ({[id]} ∪ hb_ids h).
Definition remove (h : hub) (id : Z) : hub := mkHub (hb_cap h) (hb_objs h) (hb_ids h ∖ {[id]}).
Definition hub_count (h : hub) : Z := Z.of_nat (size (hb_ids h)).

(** One subscriber of the loop of a publication; the second result is the queue
    length after a send, for the backpressure check. *)
Definition visit (h : hub) (m : M) (id : Z) : res Empty_set (hub * option Z) :=
  match hb_objs h !! id with
  | None => Ok (h, None)
  | Some s =>
      if negb (passes (sb_filter s) m) then Ok (h, None)
      else if sb_closed s then Panic
      else if (length (sb_out s) <? hb_cap h)%nat then
        Ok (set_obj h id (mkSubscriber (sb_filter s) (sb_srvID s) (sb_out s ++ [m]) false), Some (zlen (sb_out s) + 1))
      else Ok (remove (set_obj h id (mkSubscriber (sb_filter s) (sb_srvID s) (sb_out s) true)) id, None)
  end.

(** A whole publication with no other in between; the pairs are the sends made. *)
Fixpoint visit_all (h : hub) (m : M) (ids : list Z) : res Empty_set (hub * list (Z * Z)) :=
  match ids with
  | [] => Ok (h, [])
  | id :: ids =>
      '(h, sent) ← visit h m id;
      '(h, l) ← visit_all h m ids;
      Ok (h, match sent with Some n => (id, n) :: l | None => l end)
  end.

(** The loop of a Subscribe call takes one message; [None] is its end with the
    error of a cut-off subscriber. *)
Inductive recv_result := Received (m : M) | SlowConsumer | Waits.
Definition recv (h : hub) (id : Z) : recv_result * hub :=
  match hb_objs h !! id with
  | None => (Waits, h)
  | Some s =>
      match sb_out s with
      | m :: out => (Received m, set_obj h id (mkSubscriber (sb_filter s) (sb_srvID s) out (sb_closed s)))
      | [] => if sb_closed s then (SlowConsumer, remove h id) else (Waits, h)
      end
  end.
End hub.
Arguments subscriber : clear implicits.
Arguments hub : clear implicits.
Arguments recv_result : clear implicits.

(** * Messages *)
Record pbTick := mkPbTick {
  pt_MarketId : Z; pt_Symbol : string; pt_SeqNum : Z; pt_Mask : Z; pt_Type : Z; pt_Flag : Z;
  pt_Body : list byte; pt_Received : Z }.
Definition tickToProto (t : Tick) : pbTick :=
  mkPbTick (tk_MarketID t) (tk_Symbol t) (tk_SeqNum t) (tk_Mask t) (tk_Type t) (tk_Flag t) (tk_Body t)
    (UnixNano (t_ns (tk_Received t))).

Record pbBar := mkPbBar {
  pr_Pair : string; pr_Tf : string; pr_Opened : Z; pr_Closed : Z; pr_prices : list f64; pr_TickCount : Z }.
Definition wrap32 (z : Z) : Z := (z + 2 ^ 31) mod 2 ^ 32 - 2 ^ 31.
Definition barToProto (b : Bar) : pbBar :=
  mkPbBar (b_Pair b) (b_TF b) (UnixNano (t_ns (OpenedAt b))) (UnixNano (t_ns (ClosedAt b)))
    [OpenBid b; OpenAsk b; HighBid b; HighAsk b; LowBid b; LowAsk b; CloseBid b; CloseAsk b] (wrap32 (TickCount b)).

Record pbQuote := mkPbQuote {
  pq_Pair : string; pq_Channel : string; pq_Site : string; pq_Tier : string; pq_Tenor : string;
  pq_Bid : f64; pq_Ask : f64; pq_Ts : Z; pq_RawBid : f64; pq_RawAsk : f64; pq_BidSize : f64; pq_AskSize : f64;
  pq_TableVersion : Z; pq_QuoteId : string; pq_Source : string; pq_ValidUntil : Z; pq_CustomerId : string }.
Definition customerQuoteToProto (p : Profile) (q : IssuedQuote) : pbQuote :=
  let cq := iq_quote q in
  mkPbQuote (c_Pair cq) (p_Channel p) (p_Site p) (p_Tier p) (c_Tenor cq) (c_Bid cq) (c_Ask cq)
    (UnixNano (t_ns (c_TS cq))) (c_RawBid cq) (c_RawAsk cq) (c_BidSize cq) (c_AskSize cq) (c_TableVersion cq)
    (iq_QuoteID q) (iq_Source q)
    (if IsZero (iq_ValidUntil q) then 0 else UnixNano (t_ns (iq_ValidUntil q))) "".
Definition with_customer (id : string) (q : pbQuote) : pbQuote :=
  mkPbQuote (pq_Pair q) (pq_Channel q) (pq_Site q) (pq_Tier q) (pq_Tenor q) (pq_Bid q) (pq_Ask q) (pq_Ts q)
    (pq_RawBid q) (pq_RawAsk q) (pq_BidSize q) (pq_AskSize q) (pq_TableVersion q) (pq_QuoteId q) (pq_Source q)
    (pq_ValidUntil q) id.

(** * Filters: an empty set lets everything pass *)
Definition in_filter (set : gset string) (x : string) : bool := bool_decide (set = ∅) || bool_decide (x ∈ set).
Definition tick_passes (symbols : gset string) (t : pbTick) : bool := in_filter symbols (pt_Symbol t).
Definition bar_passes (f : gset string * gset string) (b : pbBar) : bool := in_filter (fst f) (pr_Tf b) && in_filter (snd f) (pr_Pair b).
Definition profile_of (q : pbQuote) : string := Key (mkProfile (pq_Channel q) (pq_Site q) (pq_Tier q)).
Definition quote_passes (f : gset string * gset string) (q : pbQuote) : bool :=
  in_filter (fst f) (profile_of q) && in_filter (snd f) (pq_Pair q).
Definition customer_passes (customerIDs : gset string) (q : pbQuote) : bool := in_filter customerIDs (pq_CustomerId q).

(** * The server *)
Record GRPCServer := mkGRPC {
  gs_bufSz : nat; gs_nextSubID : Z;
  gs_subscribers : hub pbTick (gset string);
  gs_quoteSubscribers : hub pbQuote (gset string * gset string);
  gs_barSubscribers : hub pbBar (gset string * gset string);
  gs_customerQSubscribers : hub pbQuote (gset string);
  gs_customers : CustomerRegistry }.

Definition NewGRPCServer (bufSize : Z) : GRPCServer :=
  let n := Z.to_nat (if bufSize <=? 0 then 1024 else bufSize) in
  mkGRPC n 0 (empty_hub n) (empty_hub n) (empty_hub n) (empty_hub n) NewCustomerRegistry.

Definition set_ticks (g : GRPCServer) (h : hub pbTick (gset string)) : GRPCServer :=
  mkGRPC (gs_bufSz g) (gs_nextSubID g) h (gs_quoteSubscribers g) (gs_barSubscribers g) (gs_customerQSubscribers g) (gs_customers g).
Definition set_quotes (g : GRPCServer) (h : hub pbQuote (gset string * gset string)) : GRPCServer :=
  mkGRPC (gs_bufSz g) (gs_nextSubID g) (gs_subscribers g) h (gs_barSubscribers g) (gs_customerQSubscribers g) (gs_customers g).
Definition set_bars (g : GRPCServer) (h : hub pbBar (gset string * gset string)) : GRPCServer :=
  mkGRPC (gs_bufSz g) (gs_nextSubID g) (gs_subscribers g) (gs_quoteSubscribers g) h (gs_customerQSubscribers g) (gs_customers g).
Definition set_customerQ (g : GRPCServer) (h : hub pbQuote (gset string)) : GRPCServer :=
  mkGRPC (gs_bufSz g) (gs_nextSubID g) (gs_subscribers g) (gs_quoteSubscribers g) (gs_barSubscribers g) h (gs_customers g).

(** [nextSubID.Add(1)] *)
Definition next_id (g : GRPCServer) : Z * GRPCServer :=
  let n := incr64 (gs_nextSubID g) in
  (n, mkGRPC (gs_bufSz g) n (gs_subscribers g) (gs_quoteSubscribers g) (gs_barSubscribers g) (gs_customerQSubscribers g) (gs_customers g)).

Definition Subscribe (g : GRPCServer) (symbols : list string) (subscriberID : string) : Z * GRPCServer :=
  let '(id, g) := next_id g in (id, set_ticks g (subscribe (gs_subscribers g) id (list_to_set symbols) subscriberID)).
Definition SubscribeQuote (g : GRPCServer) (profiles pairs : list string) (subscriberID : string) : Z * GRPCServer :=
  let '(id, g) := next_id g in
  (id, set_quotes g (subscribe (gs_quoteSubscribers g) id (list_to_set profiles, list_to_set pairs) subscriberID)).
Definition SubscribeBar (g : GRPCServer) (tfs pairs : list string) (subscriberID : string) : Z * GRPCServer :=
  let '(id, g) := next_id g in
  (id, set_bars g (subscribe (gs_barSubscribers g) id (list_to_set tfs, list_to_set pairs) subscriberID)).
Definition SubscribeCustomerQuote (g : GRPCServer) (customerIDs : list string) (subscriberID : string) : Z * GRPCServer :=
  let '(id, g) := next_id g in
  (id, set_customerQ g (subscribe (gs_customerQSubscribers g) id (list_to_set customerIDs) subscriberID)).

Section publications.
Context (iter : gset Z -> list Z).

Definition fan_out {M F} (passes : F -> M -> bool) (h : hub M F) (m : M) : res Empty_set (hub M F * list (Z * Z)) :=
  visit_all passes h m (iter (hb_ids h)).

Definition GRPC_OnTick (g : GRPCServer) (t : option Tick) : res Empty_set GRPCServer :=
  match t with
  | None => Ok g
  | Some t => '(h, _) ← fan_out tick_passes (gs_subscribers g) (tickToProto t); Ok (set_ticks g h)
  end.
Definition PublishQuote (g : GRPCServer) (p : Profile) (q : IssuedQuote) : res Empty_set GRPCServer :=
  '(h, _) ← fan_out quote_passes (gs_quoteSubscribers g) (customerQuoteToProto p q); Ok (set_quotes g h).
Definition PublishBar (g : GRPCServer) (b : option Bar) : res Empty_set GRPCServer :=
  match b with
  | None => Ok g
  | Some b => '(h, _) ← fan_out bar_passes (gs_barSubscribers g) (barToProto b); Ok (set_bars g h)
  end.
Definition PublishCustomerQuote (g : GRPCServer) (customerID : string) (p : Profile) (q : IssuedQuote) : res Empty_set GRPCServer :=
  '(h, _) ← fan_out customer_passes (gs_customerQSubscribers g) (with_customer customerID (customerQuoteToProto p q)); Ok (set_customerQ g h).

Definition HasQuoteSubscribers (g : GRPCServer) (profileKey : string) : bool :=
  existsb (fun id => match hb_objs (gs_quoteSubscribers g) !! id with
                     | Some s => in_filter (fst (sb_filter s)) profileKey
                     | None => false
                     end) (iter (hb_ids (gs_quoteSubscribers g))).
End publications.

(** * Registration of customers *)
Inductive RegOp := OP_REGISTER | OP_UNREGISTER | OP_OTHER.
Record CustomerRegistration := mkCustReq { cq_Op : RegOp; cq_CustomerId : string; cq_ProfileKey : string; cq_Sources : list string }.
Inductive AckErr := EmptyCustomer | InvalidProfile | UnknownOp.
Definition CustomerAck : Type := (string * option AckErr)%type.

(** One message of a stream that owns [owned]. *)
Definition register_msg (r : CustomerRegistry) (owned : gset string) (req : CustomerRegistration)
    : CustomerAck * CustomerRegistry * gset string :=
  let cid := cq_CustomerId req in
  match cq_Op req with
  | OP_REGISTER =>
      if decide (cid = "") then ((cid, Some EmptyCustomer), r, owned)
      else match ParseProfileKey (cq_ProfileKey req) with
           | Ok profile => ((cid, None), RegisterWithSources r cid profile (cq_Sources req), {[cid]} ∪ owned)
           | _ => ((cid, Some InvalidProfile), r, owned)
           end
  | OP_UNREGISTER =>
      if decide (cid ∈ owned) then ((cid, None), Unregister r cid, owned ∖ {[cid]}) else ((cid, None), r, owned)
  | OP_OTHER => ((cid, Some UnknownOp), r, owned)
  end.
(** The end of a stream, however it comes. *)
Definition register_end (siter : gset string -> list string) (r : CustomerRegistry) (owned : gset string) : CustomerRegistry :=
  fold_left Unregister (siter owned) r.

(** * Backpressure *)
Definition backpressureRatio : f64 := lit (8 # 10).
Definition backpressureInterval : Z := 60 * ns_per_sec.
Definition backpressureHistoryCap : nat := 100.

Record BackpressureEvent := mkBP { bp_TS : Z; bp_SubID : Z; bp_SrvID : string; bp_Kind : string; bp_Depth : Z; bp_Cap : Z }.
Record backpressure := mkBPS {
  bg_gate : gmap (string * Z) Z; bg_total : Z; bg_hist : list BackpressureEvent }.

Definition recordBackpressureEvent (b : backpressure) (ev : BackpressureEvent) : backpressure :=
  mkBPS (bg_gate b) (incr64 (bg_total b))
    (if (length (bg_hist b) <? backpressureHistoryCap)%nat then bg_hist b ++ [ev] else tail (bg_hist b) ++ [ev]).
Definition SnapshotBackpressureStats (b : backpressure) : Z * nat * list BackpressureEvent :=
  (bg_total b, backpressureHistoryCap, rev (bg_hist b)).

Definition under_pressure (queueLen queueCap : Z) : bool :=
  negb ((queueCap =? 0) || (f_of_Z queueLen <f (backpressureRatio *f f_of_Z queueCap))).

Definition set_gate (b : backpressure) (k : string * Z) (now : Z) : backpressure :=
  mkBPS (<[k := now]> (bg_gate b)) (bg_total b) (bg_hist b).
(** [LoadOrStore]: the entry of a key seen for the first time; [false] when it
    was there. The key is the kind and the number of the subscriber. *)
Definition gate_enter (b : backpressure) (ev : BackpressureEvent) : backpressure * bool :=
  let k := (bp_Kind ev, bp_SubID ev) in
  match bg_gate b !! k with
  | None => (recordBackpressureEvent (set_gate b k (UnixNano (bp_TS ev))) ev, true)
  | Some _ => (b, false)
  end.
Definition gate_open (last : Z) (ev : BackpressureEvent) : bool :=
  negb (wrap64 (UnixNano (bp_TS ev) - last) <? backpressureInterval).
(** [CompareAndSwap(last, now)] *)
Definition gate_cas (b : backpressure) (last : Z) (ev : BackpressureEvent) : backpressure * bool :=
  let k := (bp_Kind ev, bp_SubID ev) in
  if decide (bg_gate b !! k = Some last)
  then (recordBackpressureEvent (set_gate b k (UnixNano (bp_TS ev))) ev, true) else (b, false).

Definition checkBackpressure (b : backpressure) (ev : BackpressureEvent) : backpressure :=
  if negb (under_pressure (bp_Depth ev) (bp_Cap ev)) then b
  else match gate_enter b ev with
       | (b, true) => b
       | (b, false) =>
           let last := default 0 (bg_gate b !! (bp_Kind ev, bp_SubID ev)) in
           if gate_open last ev then fst (gate_cas b last ev) else b
       end.

(** * Diagnosis *)
Record SubscriberInfo := mkInfo { si_ID : Z; si_sets : list (gset string); si_SrvID : string; si_Depth : Z; si_Cap : Z }.
Definition hub_info {M F} (iter : gset Z -> list Z) (sets : F -> list (gset string)) (h : hub M F) : list SubscriberInfo :=
  omap (fun id => (fun s => mkInfo id (sets (sb_filter s)) (sb_srvID s) (zlen (sb_out s)) (Z.of_nat (hb_cap h))) <$> hb_objs h !! id)
    (iter (hb_ids h)).
Definition SubscribersSnapshot (iter : gset Z -> list Z) (g : GRPCServer) : list (list SubscriberInfo) :=
  [hub_info iter (fun s => [s]) (gs_subscribers g); hub_info iter (fun f => [fst f; snd f]) (gs_quoteSubscribers g);
   hub_info iter (fun f => [fst f; snd f]) (gs_barSubscribers g); hub_info iter (fun s => [s]) (gs_customerQSubscribers g)].
