(* ===== verification/HubLaws.v ===== *)
(** Theorems about the streams of the price service: with one publisher a stream
    delivers every matching message once and in order to each subscriber that
    keeps up, and cuts off the others without losing what they were sent; with
    two publishers it can panic. Customer registrations follow their streams, and
    backpressure reports of a queue are a minute apart. *)

From Stdlib Require Import ZArith QArith Lia.
From S2P Require Import Prelude GoStrings Float64 Session Dates QuoteID Pricing Bars Best Fanout FanoutLaws Hub.
Local Open Scope Z_scope.

(** * Delivery *)
Section delivery.
Context {M F : Type} (passes : F -> M -> bool).
(** The order in which publication [n] visits the table. *)
Context (iter : nat -> gset Z -> list Z) (iter_perm : forall n X, iter n X ≡ₚ elements X).
(** How many publications may be in progress at once. *)
Context (limit : nat).

(** [sy_work]: publications in progress with the subscribers still to visit.
    For the statement: what each stream has sent to its client, all messages
    published, and how many had been when a subscriber joined. *)
Record sys := mkSys {
  sy_hub : hub M F; sy_work : list (M * list Z);
  sy_recv : gmap Z (list M); sy_pub : list M; sy_from : gmap Z nat }.
Definition init (cap : nat) : sys := mkSys (empty_hub cap) [] ∅ [] ∅.

Inductive sched := SSub (id : Z) (f : F) (srvID : string) | SUnsub (id : Z) | SBegin (m : M) | SVisit (k : nat) | SRecv (id : Z).

Definition exec1 (s : sys) (e : sched) : res Empty_set sys :=
  match e with
  | SSub id f srv =>
      if decide (is_Some (hb_objs (sy_hub s) !! id)) then Ok s
      else Ok (mkSys (subscribe (sy_hub s) id f srv) (sy_work s) (sy_recv s) (sy_pub s)
                 (<[id := length (sy_pub s)]> (sy_from s)))
  | SUnsub id => Ok (mkSys (remove (sy_hub s) id) (sy_work s) (sy_recv s) (sy_pub s) (sy_from s))
  | SBegin m =>
      if (length (sy_work s) <? limit)%nat
      then Ok (mkSys (sy_hub s) (sy_work s ++ [(m, iter (length (sy_pub s)) (hb_ids (sy_hub s)))]) (sy_recv s)
                 (sy_pub s ++ [m]) (sy_from s))
      else Ok s
  | SVisit k =>
      match sy_work s !! k with
      | Some (m, id :: ids) =>
          '(h, _) ← visit passes (sy_hub s) m id;
          Ok (mkSys h (<[k := (m, ids)]> (sy_work s)) (sy_recv s) (sy_pub s) (sy_from s))
      | Some (m, []) => Ok (mkSys (sy_hub s) (delete k (sy_work s)) (sy_recv s) (sy_pub s) (sy_from s))
      | None => Ok s
      end
  | SRecv id =>
      match recv (sy_hub s) id with
      | (Received m, h) =>
          Ok (mkSys h (sy_work s) (<[id := default [] (sy_recv s !! id) ++ [m]]> (sy_recv s)) (sy_pub s) (sy_from s))
      | (_, h) => Ok (mkSys h (sy_work s) (sy_recv s) (sy_pub s) (sy_from s))
      end
  end.
Fixpoint exec (s : sys) (es : list sched) : res Empty_set sys :=
  match es with [] => Ok s | e :: es => s ← exec1 s e; exec s es end.

(** What a subscriber was sent, the queued part included. *)
Definition got (s : sys) (id : Z) (sb : subscriber M F) : list M := default [] (sy_recv s !! id) ++ sb_out sb.
Definition matching (f : F) (l : list M) : list M := filter (fun m => passes f m = true) l.
Definition todo (s : sys) : list Z := match sy_work s with (_, l) :: _ => l | [] => [] end.

(** [k] messages published since it joined have been decided for [id]; all of
    them while it is in the table. *)
Definition delivered (s : sys) (id : Z) (sb : subscriber M F) : Prop :=
  exists k from, sy_from s !! id = Some from /\ (from + k <= length (sy_pub s))%nat /\
    got s id sb = matching (sb_filter sb) (take k (drop from (sy_pub s))) /\
    (id ∈ hb_ids (sy_hub s) \/ id ∈ todo s ->
     (from + k + (if decide (id ∈ todo s) then 1 else 0) = length (sy_pub s))%nat).

Definition open_obj (s : sys) (id : Z) : Prop :=
  exists sb, hb_objs (sy_hub s) !! id = Some sb /\ sb_closed sb = false.
Definition inv (s : sys) : Prop :=
  (sy_work s = [] \/ exists m l, sy_work s = [(m, l)] /\ last (sy_pub s) = Some m) /\
  NoDup (todo s) /\ (forall id, id ∈ todo s \/ id ∈ hb_ids (sy_hub s) -> open_obj s id) /\
  (forall id, hb_objs (sy_hub s) !! id = None -> sy_recv s !! id = None) /\
  (forall id sb, hb_objs (sy_hub s) !! id = Some sb -> delivered s id sb).

Lemma inv_init cap : inv (init cap).
Proof using.
  split; [by left|]. split; [constructor|]. split; [|split; [done|]].
  - intros id [H|H]; [by apply not_elem_of_nil in H|by apply not_elem_of_empty in H].
  - intros id sb H. by simpl in H.
Qed.

Lemma inv_sub s id f srv : hb_objs (sy_hub s) !! id = None -> inv s ->
  inv (mkSys (subscribe (sy_hub s) id f srv) (sy_work s) (sy_recv s) (sy_pub s) (<[id := length (sy_pub s)]> (sy_from s))).
Proof.
  intros Hn (W & N & Op & R & D).
  assert (id ∉ todo s) as Ht by (intros Hi; destruct (Op id (or_introl Hi)) as (sb & E & _); congruence).
  split; [done|]. split; [done|]. split; [|split].
  - intros i Hi. unfold open_obj. cbn [sy_hub hb_objs subscribe]. destruct (decide (i = id)) as [->|].
    + rewrite lookup_insert_eq. eauto.
    + rewrite lookup_insert_ne by done. apply Op. destruct Hi as [Hi|Hi]; [by left|right]. cbn in Hi. set_solver.
  - intros i E. cbn [sy_hub hb_objs subscribe] in E. apply lookup_insert_None in E as [E _]. by apply R.
  - intros i sb E. cbn [sy_hub hb_objs subscribe] in E. destruct (decide (i = id)) as [->|Hne].
    + rewrite lookup_insert_eq in E. injection E as <-. exists 0%nat, (length (sy_pub s)). cbn [sy_from sy_pub sy_hub].
      rewrite lookup_insert_eq. split_and!; [done|lia|unfold got; cbn; by rewrite (R id Hn)|].
      intros _. change (todo _) with (todo s). rewrite decide_False by done. lia.
    + rewrite lookup_insert_ne in E by done. destruct (D i sb E) as (k & from & A & B & C & G). exists k, from.
      cbn [sy_from sy_pub sy_hub]. rewrite lookup_insert_ne by done. split_and!; [done..|].
      intros [Hi|Hi]; apply G; [left|by right]. cbn in Hi. set_solver.
Qed.

Lemma inv_unsub s id : inv s -> inv (mkSys (remove (sy_hub s) id) (sy_work s) (sy_recv s) (sy_pub s) (sy_from s)).
Proof.
  intros (W & N & Op & R & D). split; [done|]. split; [done|]. split; [|split; [done|]].
  - intros i [Hi|Hi]; apply Op; [by left|right]. cbn in Hi. set_solver.
  - intros i sb E. destruct (D i sb E) as (k & from & A & B & C & G). exists k, from. split_and!; [done..|].
    intros [Hi|Hi]; apply G; [left|by right]. cbn in Hi. set_solver.
Qed.

Lemma inv_begin s m : sy_work s = [] -> inv s ->
  inv (mkSys (sy_hub s) [(m, iter (length (sy_pub s)) (hb_ids (sy_hub s)))] (sy_recv s) (sy_pub s ++ [m]) (sy_from s)).
Proof using iter_perm.
  intros W0 (W & N & Op & R & D). set (s' := mkSys _ _ _ _ _).
  assert (forall i, i ∈ todo s' <-> i ∈ hb_ids (sy_hub s)) as Ht by (intros i; cbn; by rewrite iter_perm, elem_of_elements).
  assert (todo s = []) as T0 by (unfold todo; by rewrite W0).
  split; [right; eexists _, _; split; [done|]; apply last_snoc|]. split; [|split; [|split; [done|]]].
  - cbn. rewrite iter_perm. apply NoDup_elements.
  - intros i Hi. apply Op. right. destruct Hi as [Hi|Hi]; [by apply Ht|done].
  - intros i sb E. destruct (D i sb E) as (k & from & A & B & C & G). exists k, from. cbn [sy_from sy_pub sy_hub s'].
    rewrite length_app. split_and!; [done|simpl; lia| |].
    + rewrite drop_app_le, take_app_le by (rewrite ?length_drop; lia). done.
    + intros Hi. assert (i ∈ hb_ids (sy_hub s)) as Hm by (destruct Hi as [Hi|Hi]; [done|by apply Ht]).
      rewrite decide_True by (by apply Ht). specialize (G (or_introl Hm)). rewrite T0, decide_False in G by set_solver.
      simpl. lia.
Qed.

Lemma inv_done s m : sy_work s = [(m, [])] -> inv s -> inv (mkSys (sy_hub s) [] (sy_recv s) (sy_pub s) (sy_from s)).
Proof.
  intros W0 (W & N & Op & R & D). assert (todo s = []) as T0 by (unfold todo; by rewrite W0).
  split; [by left|]. split; [constructor|]. split; [|split; [done|]].
  - intros i [Hi|Hi]; [set_solver|]. apply Op. by right.
  - intros i sb E. destruct (D i sb E) as (k & from & A & B & C & G). exists k, from. rewrite T0 in G. by split_and!.
Qed.

(** The next subscriber of the only publication. *)
Lemma take_drop_last (l : list M) from k m : last l = Some m -> (from + k + 1 = length l)%nat ->
  take (k + 1) (drop from l) = take k (drop from l) ++ [m].
Proof.
  intros Hl Hk. apply last_Some in Hl as [l' ->]. rewrite length_app in Hk. simpl in Hk.
  rewrite drop_app_le by lia. rewrite (take_app_le (drop from l') [m] k) by (rewrite length_drop; lia).
  rewrite take_ge by (rewrite length_app, length_drop; simpl; lia).
  rewrite take_ge; [done|rewrite length_drop; lia].
Qed.

(** A visit either leaves the object alone, sends, or cuts it off. *)
Lemma visit_cases (h : hub M F) m id sb : hb_objs h !! id = Some sb -> sb_closed sb = false ->
  exists h' n, visit passes h m id = Ok (h', n) /\
    ((passes (sb_filter sb) m = false /\ h' = h) \/
     (passes (sb_filter sb) m = true /\
      h' = set_obj h id (mkSubscriber (sb_filter sb) (sb_srvID sb) (sb_out sb ++ [m]) false)) \/
     (passes (sb_filter sb) m = true /\
      h' = remove (set_obj h id (mkSubscriber (sb_filter sb) (sb_srvID sb) (sb_out sb) true)) id)).
Proof.
  intros E C. unfold visit. rewrite E, C. destruct (passes _ m); simpl; [|eauto 10].
  destruct (_ <? _)%nat; eauto 10.
Qed.

Lemma inv_visit s m id ids : sy_work s = [(m, id :: ids)] -> inv s ->
  exists h n, visit passes (sy_hub s) m id = Ok (h, n) /\
    inv (mkSys h [(m, ids)] (sy_recv s) (sy_pub s) (sy_from s)).
Proof.
  intros W0 (W & N & Op & R & D). assert (todo s = id :: ids) as T0 by (unfold todo; by rewrite W0).
  destruct W as [W|(m' & l' & W & L)]; [congruence|]. rewrite W0 in W. injection W as <- <-.
  rewrite T0 in N. apply NoDup_cons in N as [Hnin N].
  destruct (Op id) as (sb & E & C); [left; rewrite T0; set_solver|].
  destruct (D id sb E) as (k & from & A & B & Cg & G).
  specialize (G ltac:(right; rewrite T0; set_solver)). rewrite decide_True in G by (rewrite T0; set_solver).
  destruct (visit_cases (sy_hub s) m id sb E C) as (h & n & Ev & Hcase). exists h, n. split; [done|].
  assert (forall i, i <> id -> hb_objs h !! i = hb_objs (sy_hub s) !! i /\ (i ∈ hb_ids h <-> i ∈ hb_ids (sy_hub s))) as Hot.
  { intros i Hi. destruct Hcase as [[_ ->]|[[_ ->]|[_ ->]]]; [done| |]; cbn; rewrite lookup_insert_ne by done; set_solver. }
  assert (exists sb', hb_objs h !! id = Some sb' /\ sb_filter sb' = sb_filter sb /\
    ((sb_closed sb' = false /\ default [] (sy_recv s !! id) ++ sb_out sb' = matching (sb_filter sb) (take (k + 1) (drop from (sy_pub s))))
     \/ (id ∉ hb_ids h /\ sb_out sb' = sb_out sb))) as (sb' & E' & Ef & Hsb).
  { unfold got, matching in *. rewrite (take_drop_last _ _ _ m L G), filter_app. cbn [app].
    destruct Hcase as [[Hp ->]|[[Hp ->]|[Hp ->]]].
    - exists sb. split_and!; [done..|]. left. split; [done|]. rewrite filter_cons_False, filter_nil, app_nil_r by (by rewrite Hp). done.
    - eexists. cbn [hb_objs set_obj]. rewrite lookup_insert_eq. split_and!; [done..|]. left. split; [done|]. cbn [sb_out sb_filter].
      rewrite app_assoc, Cg, filter_cons_True, filter_nil by done. done.
    - eexists. cbn [hb_objs hb_ids set_obj remove]. rewrite lookup_insert_eq. split_and!; [done..|]. right. split; [set_solver|done]. }
  split; [right; eauto|]. split; [done|]. split; [|split].
  - intros i Hi. unfold open_obj. cbn [sy_hub]. destruct (decide (i = id)) as [->|Hne].
    + destruct Hi as [Hi|Hi]; [done|]. destruct Hsb as [[? _]|[? _]]; [eauto|done].
    + destruct (Hot i Hne) as [-> Hi']. apply Op. rewrite T0. cbn in Hi. set_solver.
  - intros i Hi. cbn [sy_hub sy_recv] in *. destruct (decide (i = id)) as [->|Hne]; [congruence|]. apply R. by rewrite <-(proj1 (Hot i Hne)).
  - intros i sb0 E0. cbn [sy_hub] in E0. destruct (decide (i = id)) as [->|Hne].
    + rewrite E' in E0. injection E0 as <-. destruct Hsb as [[Hc Hg]|[Hr Ho]].
      * exists (k + 1)%nat, from. cbn. rewrite Ef. split_and!; [done|lia|exact Hg|]. intros _. rewrite decide_False by done. lia.
      * exists k, from. cbn. rewrite Ef. split_and!; [done|lia|unfold got in *; cbn; by rewrite Ho|]. by intros [Hi|Hi].
    + destruct (Hot i Hne) as [E1 Hi]. rewrite E1 in E0. destruct (D i sb0 E0) as (k0 & f0 & A0 & B0 & C0 & G0).
      exists k0, f0. split_and!; [done..|]. cbn. rewrite Hi. rewrite T0 in G0.
      rewrite (decide_ext (i ∈ ids) (i ∈ id :: ids)) by set_solver. intros Hor. apply G0. set_solver.
Qed.

Lemma inv_recv s id h m : recv (sy_hub s) id = (Received m, h) -> inv s ->
  inv (mkSys h (sy_work s) (<[id := default [] (sy_recv s !! id) ++ [m]]> (sy_recv s)) (sy_pub s) (sy_from s)).
Proof.
  unfold recv. destruct (hb_objs (sy_hub s) !! id) as [sb|] eqn:E; [|done].
  destruct (sb_out sb) as [|m' out] eqn:Eo; [by case_match|]. intros [= -> <-] (W & N & Op & R & D).
  split; [done|]. split; [done|]. split; [|split].
  - intros i Hi. unfold open_obj. cbn. destruct (Op i Hi) as (sb1 & E1 & C1). destruct (decide (i = id)) as [->|].
    + rewrite E in E1. injection E1 as <-. rewrite lookup_insert_eq. eauto.
    + rewrite lookup_insert_ne by done. eauto.
  - intros i Hi. cbn in *. apply lookup_insert_None in Hi as [Hi Hne]. rewrite lookup_insert_ne by done. by apply R.
  - intros i sb1 E1. cbn in E1. destruct (decide (i = id)) as [->|Hne].
    + rewrite lookup_insert_eq in E1. injection E1 as <-. destruct (D id sb E) as (k & from & A & B & C & G). exists k, from.
      split_and!; [done..| |exact G]. unfold got in *. cbn. rewrite lookup_insert_eq. cbn. rewrite <-app_assoc. cbn. by rewrite <-Eo.
    + rewrite lookup_insert_ne in E1 by done. destruct (D i sb1 E1) as (k & from & A & B & C & G). exists k, from.
      split_and!; [done..| |exact G]. unfold got in *. cbn. by rewrite lookup_insert_ne.
Qed.

Lemma inv_exec1 s e : limit = 1%nat -> inv s -> exists s', exec1 s e = Ok s' /\ inv s'.
Proof using iter_perm.
  intros Hl I. destruct e as [id f srv|id|m|k|id]; cbn [exec1].
  - case_decide as Hd; [eauto|]. eexists. split; [done|]. apply inv_sub; [|done]. by apply eq_None_not_Some.
  - eexists. split; [done|]. by apply inv_unsub.
  - rewrite Hl. destruct (Nat.ltb_spec (length (sy_work s)) 1) as [H1|]; [|eauto].
    assert (sy_work s = []) as W0 by (apply nil_length_inv; lia). rewrite W0. eexists. split; [done|]. by apply inv_begin.
  - destruct (sy_work s !! k) as [[m [|id ids]]|] eqn:E; [| |eauto]; pose proof I as (W & _);
      (destruct W as [W|(m' & l' & W & _)]; [by rewrite W in E|]); rewrite W in *;
      apply list_lookup_singleton_Some in E as [-> [= -> ->]].
    + eexists. split; [done|]. by eapply inv_done.
    + destruct (inv_visit s m id ids W I) as (h & n & -> & I'). cbn. eauto.
  - destruct (recv (sy_hub s) id) as [[m| |] h] eqn:E; (eexists; split; [done|]).
    + by eapply inv_recv.
    + unfold recv in E. repeat case_match; simplify_eq. by apply inv_unsub.
    + assert (h = sy_hub s) as -> by (unfold recv in E; repeat case_match; simplify_eq; done). by destruct s.
Qed.

Lemma inv_exec s es : limit = 1%nat -> inv s -> exists s', exec s es = Ok s' /\ inv s'.
Proof using iter_perm.
  intros Hl. revert s. induction es as [|e es IH]; intros s I; cbn [exec]; [eauto|].
  destruct (inv_exec1 s e Hl I) as (s1 & -> & I1). cbn. by apply IH.
Qed.

(** Only its own end or an overflow takes a subscriber out of the table. *)
Definition stays (id : Z) (s : sys) : Prop :=
  forall sb, hb_objs (sy_hub s) !! id = Some sb -> sb_closed sb = false -> id ∈ hb_ids (sy_hub s).
Lemma visit_stays (h : hub M F) m i id h' n sb : visit passes h m i = Ok (h', n) ->
  (forall sb, hb_objs h !! id = Some sb -> sb_closed sb = false -> id ∈ hb_ids h) ->
  hb_objs h' !! id = Some sb -> sb_closed sb = false -> id ∈ hb_ids h'.
Proof.
  intros Ev P E C. unfold visit in Ev. repeat case_match; simplify_eq; cbn in *; try by eapply P.
  - destruct (decide (i = id)) as [->|]; [by eapply P|]. rewrite lookup_insert_ne in E by done. by eapply P.
  - destruct (decide (i = id)) as [->|].
    + rewrite lookup_insert_eq in E. injection E as <-. done.
    + rewrite lookup_insert_ne in E by done. specialize (P _ E C). set_solver.
Qed.
Lemma stays_exec1 id s e s' : e <> SUnsub id -> exec1 s e = Ok s' -> stays id s -> stays id s'.
Proof.
  intros Hne E P sb Es Cs. destruct e as [i f srv|i|m|k|i]; cbn [exec1] in E.
  - case_decide; injection E as <-; [by eapply P|]. cbn in *. destruct (decide (i = id)) as [->|]; [set_solver|].
    rewrite lookup_insert_ne in Es by done. specialize (P _ Es Cs). set_solver.
  - injection E as <-. cbn in *. specialize (P _ Es Cs). set_solver.
  - case_match; injection E as <-; by eapply P.
  - destruct (sy_work s !! k) as [[m [|i ids]]|]; [injection E as <-; by eapply P| |injection E as <-; by eapply P].
    bind_inv E. destruct a as [h n]. injection E as <-. cbn in *. by eapply visit_stays.
  - destruct (recv (sy_hub s) i) as [r h] eqn:Er. unfold recv in Er.
    assert (id ∈ hb_ids h) as Hh.
    { assert (hb_objs h !! id = Some sb) as Eh by (by destruct r; injection E as <-). clear E Es.
      repeat case_match; simplify_eq; cbn in *; try by eapply P.
      - specialize (P _ Eh Cs). destruct (decide (i = id)) as [->|]; [congruence|set_solver].
      - destruct (decide (i = id)) as [->|]; [|rewrite lookup_insert_ne in Eh by done; by eapply P].
        rewrite lookup_insert_eq in Eh. injection Eh as <-. by eapply P. }
    by destruct r; injection E as <-.
Qed.
Lemma stays_exec id es s s' : SUnsub id ∉ es -> exec s es = Ok s' -> stays id s -> stays id s'.
Proof.
  revert s. induction es as [|e es IH]; intros s Hn E P; cbn [exec] in E; [by injection E as <-|].
  apply not_elem_of_cons in Hn as [Hn1 Hn2]. bind_inv E. eapply IH; [done|exact E|]. eapply stays_exec1; [by apply not_eq_sym|done..].
Qed.
End delivery.

(** C15. A stream delivers exactly once and isolates slow subscribers: with one
    publication at a time, in every interleaving of publications, subscriptions,
    disconnections and reads, no publication panics, and what a subscriber was
    sent (the queued part included) is the messages of its filter published since
    it joined, each once and in order, up to the point where it left or its own
    queue overflowed; a subscriber that does neither has been sent all of them,
    whatever the others do. *)
Theorem stream_exactly_once {M F} (passes : F -> M -> bool) iter cap es :
  (forall n X, iter n X ≡ₚ elements X) ->
  exists s, exec passes iter 1 (init cap) es = Ok s /\
    forall id sb, hb_objs (sy_hub s) !! id = Some sb ->
      exists from k, sy_from s !! id = Some from /\
        got s id sb = matching passes (sb_filter sb) (take k (drop from (sy_pub s))) /\
        (sb_closed sb = false -> SUnsub id ∉ es -> sy_work s = [] ->
         got s id sb = matching passes (sb_filter sb) (drop from (sy_pub s))).
Proof.
  intros Hi. destruct (inv_exec passes iter Hi 1 (init cap) es eq_refl (inv_init passes cap)) as (s & E & I).
  exists s. split; [done|]. intros id sb Es. destruct I as (_ & _ & _ & _ & D).
  destruct (D id sb Es) as (k & from & A & B & C & G). exists from, k. split_and!; [done..|].
  intros Hc Hu Hw. assert (id ∈ hb_ids (sy_hub s)) as Hin
    by (eapply stays_exec; [exact Hi|exact Hu|exact E|by intros ? ?|exact Es|done]).
  specialize (G (or_introl Hin)). unfold todo in G. rewrite Hw, decide_False in G by set_solver.
  rewrite C. f_equal. apply take_ge. rewrite length_drop. lia.
Qed.

Definition ex_tick (sym : string) (n : Z) : pbTick := mkPbTick 1 sym n 0 0 0 [] n.
Definition ex_es : list (@sched pbTick (gset string)) :=
  [SSub 1 {["USDKRW"]} "edge-1"; SSub 2 ∅ "edge-2"; SBegin (ex_tick "USDKRW" 1); SVisit 0; SRecv 1; SVisit 0; SVisit 0;
   SBegin (ex_tick "EURUSD" 2); SVisit 0; SVisit 0; SVisit 0; SRecv 1; SBegin (ex_tick "USDKRW" 3); SVisit 0; SVisit 0; SVisit 0].
Definition ex_elements (_ : nat) (X : gset Z) : list Z := elements X.
Definition ex_s : @sys pbTick (gset string) :=
  match exec tick_passes ex_elements 1 (init 1) ex_es with Ok s => s | _ => init 1 end.
(** Subscriber 2 never reads and is cut off; subscriber 1 has both its ticks. *)
Lemma stream_exactly_once_witness :
  hb_ids (sy_hub ex_s) = {[1]} /\
  forall sb, hb_objs (sy_hub ex_s) !! 1 = Some sb -> sb_closed sb = false ->
    got ex_s 1 sb = matching tick_passes (sb_filter sb) (sy_pub ex_s).
Proof.
  destruct (stream_exactly_once tick_passes ex_elements 1 ex_es ltac:(done)) as (s & E & W).
  assert (s = ex_s) as -> by (unfold ex_s; by rewrite E).
  split; [vm_compute; reflexivity|]. intros sb Es Hc. destruct (W 1 sb Es) as (from & k & Hf & _ & Hg).
  assert (sy_from ex_s !! 1 = Some 0%nat) as C by (vm_compute; reflexivity).
  rewrite C in Hf. injection Hf as <-. apply (Hg Hc); [|vm_compute; reflexivity].
  unfold ex_es. rewrite !not_elem_of_cons. repeat (split; [discriminate|]). apply not_elem_of_nil.
Defined.

(** Two publications at once can bring the service down: a subscriber's queue is
    full, both copied the table, the first closes the queue, the second sends on
    the closed channel. *)
Theorem concurrent_publications_panic :
  exec tick_passes ex_elements 2 (init 1)
    [SSub 1 ∅ "edge"; SBegin (ex_tick "USDKRW" 1); SVisit 0; SVisit 0;
     SBegin (ex_tick "USDKRW" 2); SBegin (ex_tick "USDKRW" 3); SVisit 0; SVisit 1] = Panic.
Proof. vm_compute. reflexivity. Qed.

(** * Pruned profiles *)

Lemma visit_all_none {M F} (passes : F -> M -> bool) (h : hub M F) m ids :
  Forall (fun id => forall s, hb_objs h !! id = Some s -> passes (sb_filter s) m = false) ids ->
  visit_all passes h m ids = Ok (h, []).
Proof.
  intros Hf. induction Hf as [|id ids Hid Hf IH]; [done|]. simpl. unfold visit at 1.
  destruct (hb_objs h !! id) as [s|] eqn:E; [rewrite (Hid s eq_refl)|]; simpl; by rewrite IH.
Qed.

(** Skipping a profile without subscribers changes nothing: when
    HasQuoteSubscribers says no, publishing a quote of that profile would have
    reached nobody. *)
Theorem pruning_invisible iter g p q :
  HasQuoteSubscribers iter g (Key p) = false -> PublishQuote iter g p q = Ok g.
Proof.
  intros Hs. unfold PublishQuote, fan_out. rewrite visit_all_none.
  { simpl. by destruct g. }
  apply Forall_forall. intros id Hid s Es. unfold quote_passes, profile_of. cbn [customerQuoteToProto pq_Channel pq_Site pq_Tier].
  destruct p as [ch si ti]. apply andb_false_iff. left. cbn [p_Channel p_Site p_Tier].
  destruct (in_filter (fst (sb_filter s)) (Key (mkProfile ch si ti))) eqn:E; [|done]. exfalso.
  assert (HasQuoteSubscribers iter g (Key (mkProfile ch si ti)) = true) as K; [|by rewrite K in Hs].
  unfold HasQuoteSubscribers. apply existsb_exists. exists id. rewrite Es. split; [by apply list_elem_of_In|done].
Qed.

(** * Customer streams *)
Definition registers (cid : string) (req : CustomerRegistration) : Prop :=
  cq_Op req = OP_REGISTER /\ cq_CustomerId req = cid /\ cid <> "" /\ exists p, ParseProfileKey (cq_ProfileKey req) = Ok p.

Fixpoint run_stream (r : CustomerRegistry) (owned : gset string) (reqs : list CustomerRegistration)
    : CustomerRegistry * gset string :=
  match reqs with
  | [] => (r, owned)
  | req :: reqs => let '(_, r, owned) := register_msg r owned req in run_stream r owned reqs
  end.

Lemma add_delta_entries ds r : cu_entries (fold_left add_delta ds r) = cu_entries r.
Proof. revert r. induction ds as [|d ds IH]; intros r; [done|]. simpl. rewrite IH. by destruct d. Qed.
Lemma Register_entries r cid p src : cid <> "" ->
  cu_entries (RegisterWithSources r cid p src) = <[cid := mkCReg p (Algo.nonempty_set src)]> (cu_entries r).
Proof. intros H. unfold RegisterWithSources, register_swap. rewrite decide_False by done. by rewrite add_delta_entries. Qed.
Lemma Unregister_entries r cid : cid <> "" -> cu_entries (Unregister r cid) = delete cid (cu_entries r).
Proof.
  intros H. unfold Unregister, unregister_swap. rewrite decide_False by done.
  destruct (cu_entries r !! cid) eqn:E; rewrite add_delta_entries; [done|]. by rewrite delete_id.
Qed.

Lemma Unregister_all l r cid : "" ∉ l ->
  cu_entries (fold_left Unregister l r) !! cid = if decide (cid ∈ l) then None else cu_entries r !! cid.
Proof.
  revert r. induction l as [|x l IH]; intros r Hn; simpl; [done|]. apply not_elem_of_cons in Hn as [H1 H2].
  rewrite IH, Unregister_entries by (done || by apply not_eq_sym). destruct (decide (cid = x)) as [->|Hne].
  - rewrite lookup_delete_eq, (decide_True (P:=x ∈ x :: l)) by set_solver. by case_decide.
  - rewrite lookup_delete_ne by done. by rewrite (decide_ext (cid ∈ x :: l) (cid ∈ l)) by set_solver.
Qed.

(** [reqs]: the messages handled so far. *)
Definition stream_inv (r0 r : CustomerRegistry) (owned : gset string) (reqs : list CustomerRegistration) : Prop :=
  "" ∉ owned /\ forall cid,
    (cid ∈ owned -> Exists (registers cid) reqs) /\
    (cid ∉ owned -> Exists (registers cid) reqs -> cu_entries r !! cid = None) /\
    (~ Exists (registers cid) reqs -> cu_entries r !! cid = cu_entries r0 !! cid).

Lemma Exists_snoc {A} (P : A -> Prop) l x : Exists P (l ++ [x]) <-> Exists P l \/ P x.
Proof. rewrite Exists_app, Exists_cons, Exists_nil. tauto. Qed.

Lemma register_msg_inv r0 r owned done_ req ack r' owned' :
  register_msg r owned req = (ack, r', owned') -> stream_inv r0 r owned done_ -> stream_inv r0 r' owned' (done_ ++ [req]).
Proof.
  intros E [Hn Hi].
  assert (forall b, ~ registers (cq_CustomerId req) req -> registers b req -> False) as Hno
    by (intros b H1 H2; pose proof H2 as (_ & <- & _); done).
  assert (forall r1, cu_entries r1 = cu_entries r -> ~ registers (cq_CustomerId req) req -> stream_inv r0 r1 owned (done_ ++ [req])) as Keep.
  { intros r1 E1 Hr. split; [done|]. intros cid. rewrite Exists_snoc, E1. specialize (Hno cid Hr). specialize (Hi cid). tauto. }
  unfold register_msg in E. destruct (cq_Op req) eqn:Eo.
  - destruct (decide (cq_CustomerId req = "")) as [Ee|Ee]; [injection E as <- <- <-; apply Keep; [done|]; by intros (_ & _ & ? & _)|].
    destruct (ParseProfileKey (cq_ProfileKey req)) as [p| |] eqn:Ep;
      [|injection E as <- <- <-; apply Keep; [done|]; intros (_ & _ & _ & ? & ?); congruence..].
    injection E as <- <- <-. split; [set_solver|]. intros cid. rewrite Exists_snoc, Register_entries by done.
    assert (registers (cq_CustomerId req) req) as Hr by (split_and!; eauto). specialize (Hi cid).
    destruct (decide (cid = cq_CustomerId req)) as [->|Hne]; [split_and!; [by right|set_solver|tauto]|].
    assert (~ registers cid req) by (intros (_ & ? & _); congruence). rewrite lookup_insert_ne by done.
    assert (cid ∈ {[cq_CustomerId req]} ∪ owned <-> cid ∈ owned) as -> by set_solver. tauto.
  - assert (~ registers (cq_CustomerId req) req) as Hr by (intros (? & _); congruence).
    destruct (decide (cq_CustomerId req ∈ owned)) as [Hin|]; injection E as <- <- <-; [|by apply Keep].
    assert (cq_CustomerId req <> "") as Hne by (intros Z; by rewrite Z in Hin).
    split; [set_solver|]. intros cid. rewrite Exists_snoc, Unregister_entries by done. specialize (Hno cid Hr). specialize (Hi cid).
    destruct (decide (cid = cq_CustomerId req)) as [->|]; [rewrite lookup_delete_eq; split_and!; [set_solver|done|tauto]|].
    rewrite lookup_delete_ne by done.
    assert (cid ∈ owned ∖ {[cq_CustomerId req]} <-> cid ∈ owned) as -> by set_solver. tauto.
  - injection E as <- <- <-. apply Keep; [done|]. intros (? & _). congruence.
Qed.

Lemma run_stream_inv r0 r owned done_ reqs : stream_inv r0 r owned done_ ->
  stream_inv r0 (fst (run_stream r owned reqs)) (snd (run_stream r owned reqs)) (done_ ++ reqs).
Proof.
  revert r owned done_. induction reqs as [|req reqs IH]; intros r owned done_ I; simpl; [by rewrite app_nil_r|].
  destruct (register_msg r owned req) as [[ack r1] o1] eqn:E. rewrite cons_middle, app_assoc.
  apply IH. by eapply register_msg_inv.
Qed.

(** A registration stream leaves nothing behind: when it ends, however it ends,
    the customers it registered are gone and every other customer is as it was.
    (For one stream alone.) *)
Theorem registration_stream_cleans siter r reqs cid :
  (forall X, siter X ≡ₚ elements X) ->
  let '(r1, owned) := run_stream r ∅ reqs in
  let r2 := register_end siter r1 owned in
  (Exists (registers cid) reqs -> Customer_Lookup r2 cid = None) /\
  (~ Exists (registers cid) reqs -> Customer_Lookup r2 cid = Customer_Lookup r cid).
Proof.
  intros Hs. pose proof (run_stream_inv r r ∅ [] reqs) as I. destruct (run_stream r ∅ reqs) as [r1 owned]. cbn in I.
  destruct I as [Hn I].
  { split; [set_solver|]. intros c. rewrite Exists_nil. split_and!; [set_solver|done..]. }
  destruct (I cid) as (A & B & C). unfold Customer_Lookup, register_end. destruct (decide (cid = "")) as [|Hne]; [done|].
  rewrite Unregister_all by (rewrite Hs, elem_of_elements; done).
  rewrite (decide_ext (cid ∈ siter owned) (cid ∈ owned)) by (by rewrite Hs, elem_of_elements).
  destruct (decide (cid ∈ owned)) as [Hi|Hi]; split; [done| |intros He; by rewrite B|intros He; by rewrite C].
  intros He. by destruct (He (A Hi)).
Qed.

(** A customer connected through two edges is dropped when one of them leaves:
    the second stream still owns the customer and was acknowledged, but the
    registry has lost it and no quote is made for it. *)
Theorem shared_customer_dropped :
  let reg := mkCustReq OP_REGISTER "c" "WEB.HQ.VIP" [] in
  let '(ack1, r1, own1) := register_msg NewCustomerRegistry ∅ reg in
  let '(ack2, r2, own2) := register_msg r1 ∅ reg in
  let r3 := register_end elements r2 own1 in
  ack2 = ("c", None) /\ "c" ∈ own2 /\ Customer_Lookup r3 "c" = None /\ Count r3 = 0.
Proof. vm_compute. repeat split; reflexivity. Qed.

(** * Backpressure reports *)

(** Publications of any number of goroutines: each enters the gate, reads its
    time and swaps it; [bi_flight] are those between two steps. *)
Record bp_sys := mkBPSys { bi_state : backpressure; bi_flight : list (BackpressureEvent * option Z); bi_warned : list BackpressureEvent }.
Inductive bp_sched := BEnter (ev : BackpressureEvent) | BLoad (i : nat) | BSwap (i : nat).
Definition bp_key (ev : BackpressureEvent) : string * Z := (bp_Kind ev, bp_SubID ev).

Definition bp_exec1 (s : bp_sys) (e : bp_sched) : bp_sys :=
  match e with
  | BEnter ev =>
      if negb (under_pressure (bp_Depth ev) (bp_Cap ev)) then s
      else match gate_enter (bi_state s) ev with
           | (b, true) => mkBPSys b (bi_flight s) (bi_warned s ++ [ev])
           | (b, false) => mkBPSys b (bi_flight s ++ [(ev, None)]) (bi_warned s)
           end
  | BLoad i =>
      match bi_flight s !! i with
      | Some (ev, None) =>
          let last := default 0 (bg_gate (bi_state s) !! bp_key ev) in
          if gate_open last ev then mkBPSys (bi_state s) (<[i := (ev, Some last)]> (bi_flight s)) (bi_warned s)
          else mkBPSys (bi_state s) (delete i (bi_flight s)) (bi_warned s)
      | _ => s
      end
  | BSwap i =>
      match bi_flight s !! i with
      | Some (ev, Some last) =>
          match gate_cas (bi_state s) last ev with
          | (b, true) => mkBPSys b (delete i (bi_flight s)) (bi_warned s ++ [ev])
          | (b, false) => mkBPSys b (delete i (bi_flight s)) (bi_warned s)
          end
      | _ => s
      end
  end.
Definition bp_exec (s : bp_sys) (es : list bp_sched) : bp_sys := fold_left bp_exec1 es s.
Definition bp_init : bp_sys := mkBPSys (mkBPS ∅ 0 []) [] [].

Definition of_key (k : string * Z) (l : list BackpressureEvent) : list BackpressureEvent := filter (fun ev => bp_key ev = k) l.
(** Neighbours are a minute apart, in 64-bit arithmetic. *)
Fixpoint spaced (l : list BackpressureEvent) : Prop :=
  match l with
  | a :: (b :: _) as l' => backpressureInterval <= wrap64 (UnixNano (bp_TS b) - UnixNano (bp_TS a)) /\ spaced l'
  | _ => True
  end.

Lemma spaced_snoc l a b : spaced (l ++ [a]) -> backpressureInterval <= wrap64 (UnixNano (bp_TS b) - UnixNano (bp_TS a)) ->
  spaced (l ++ [a; b]).
Proof.
  intros Hs Hab. induction l as [|x [|y l] IH]; [done| |].
  - destruct Hs as [Hs _]. done.
  - destruct Hs as [H1 H2]. split; [done|]. by apply IH.
Qed.

(** The last [n] elements. *)
Definition lastn {A} (n : nat) (l : list A) : list A := drop (length l - n) l.

(** The gate holds the time of the last report; a swap in flight waits a minute. *)
Definition bp_inv (s : bp_sys) : Prop :=
  (forall k, match bg_gate (bi_state s) !! k with
             | None => of_key k (bi_warned s) = []
             | Some last => exists l ev, of_key k (bi_warned s) = l ++ [ev] /\ UnixNano (bp_TS ev) = last
             end) /\
  (forall k, spaced (of_key k (bi_warned s))) /\
  Forall (fun '(ev, o) => match o with Some last => gate_open last ev = true | None => True end) (bi_flight s) /\
  bg_hist (bi_state s) = lastn backpressureHistoryCap (bi_warned s) /\
  bg_total (bi_state s) = wrap 64 (zlen (bi_warned s)).

Lemma hist_push (h : list BackpressureEvent) ev w n : (0 < n)%nat -> h = lastn n w ->
  (if (length h <? n)%nat then h ++ [ev] else tail h ++ [ev]) = lastn n (w ++ [ev]).
Proof.
  intros Hn ->. unfold lastn. rewrite length_drop, length_app. simpl. destruct (Nat.ltb_spec (length w - (length w - n)) n).
  - replace (length w - n)%nat with 0%nat by lia. replace (length w + 1 - n)%nat with 0%nat by lia. done.
  - rewrite drop_app_le by lia. f_equal. replace (length w + 1 - n)%nat with (S (length w - n)) by lia.
    rewrite <-Nat.add_1_r, <-drop_drop. by destruct (drop (length w - n) w).
Qed.

(** A report that finds the gate empty or a minute old keeps the invariant. *)
Lemma bp_warn s ev fl :
  bp_inv s -> (forall p, p ∈ fl -> p ∈ bi_flight s) ->
  (forall last, bg_gate (bi_state s) !! bp_key ev = Some last -> gate_open last ev = true) ->
  bp_inv (mkBPSys (recordBackpressureEvent (set_gate (bi_state s) (bp_key ev) (UnixNano (bp_TS ev))) ev) fl (bi_warned s ++ [ev])).
Proof.
  intros (G & S & Fl & Hh & Ht) Hfl Hopen. split_and!.
  - intros k. cbn [bi_state bi_warned recordBackpressureEvent set_gate bg_gate]. unfold of_key. rewrite filter_app.
    destruct (decide (k = bp_key ev)) as [->|Hne].
    + rewrite lookup_insert_eq, filter_cons_True, filter_nil by done. eauto.
    + rewrite lookup_insert_ne, filter_cons_False, filter_nil, app_nil_r by done. apply G.
  - intros k. cbn [bi_warned]. unfold of_key. rewrite filter_app. destruct (decide (bp_key ev = k)) as [<-|Hne].
    + rewrite filter_cons_True, filter_nil by done. specialize (G (bp_key ev)). specialize (S (bp_key ev)).
      destruct (bg_gate (bi_state s) !! bp_key ev) as [last|] eqn:E.
      * destruct G as (l & e0 & El & <-). unfold of_key in *. rewrite El in *. rewrite <-app_assoc. apply spaced_snoc; [done|].
        specialize (Hopen _ eq_refl). unfold gate_open in Hopen. apply negb_true_iff, Z.ltb_ge in Hopen. done.
      * unfold of_key in G. by rewrite G.
    + rewrite filter_cons_False, filter_nil, app_nil_r by done. apply S.
  - rewrite Forall_forall in *. intros p Hp. apply Fl, Hfl, Hp.
  - cbn [bi_state recordBackpressureEvent set_gate bg_hist bi_warned]. apply hist_push; [unfold backpressureHistoryCap; lia|done].
  - cbn [bi_state recordBackpressureEvent set_gate bg_total bi_warned]. rewrite Ht.
    assert (zlen (bi_warned s ++ [ev]) = zlen (bi_warned s) + 1) as -> by (rewrite length_app; simpl; lia).
    unfold incr64, wrap. by rewrite Zplus_mod_idemp_l.
Qed.

Lemma delete_subset {A} i (l : list A) p : p ∈ delete i l -> p ∈ l.
Proof. intros H. by eapply sublist_subseteq, H; apply sublist_delete. Qed.

Lemma bp_step s e : bp_inv s -> bp_inv (bp_exec1 s e).
Proof.
  intros I. pose proof I as (G & S & Fl & Hh & Ht). destruct e as [ev|i|i]; cbn [bp_exec1].
  - destruct (negb _); [done|]. unfold gate_enter. change (bp_Kind ev, bp_SubID ev) with (bp_key ev).
    destruct (bg_gate (bi_state s) !! bp_key ev) eqn:E; [|apply bp_warn; [done..|congruence]].
    split_and!; [done..| |done|done]. apply Forall_app. split; [done|]. by constructor.
  - destruct (bi_flight s !! i) as [[ev [l|]]|] eqn:E; [done| |done]. destruct (gate_open _ ev) eqn:Eo.
    + split_and!; [done..| |done|done]. apply Forall_insert; done.
    + split_and!; [done..| |done|done]. rewrite Forall_forall in *. intros p Hp. apply Fl. by eapply delete_subset.
  - destruct (bi_flight s !! i) as [[ev [l|]]|] eqn:E; [|done..]. unfold gate_cas.
    change (bp_Kind ev, bp_SubID ev) with (bp_key ev). case_decide as Hd.
    + apply bp_warn; [done|intros p; apply delete_subset|]. rewrite Hd. intros ? [= <-].
      rewrite Forall_forall in Fl. apply (Fl (ev, Some l)). by eapply list_elem_of_lookup_2.
    + split_and!; [done..| |done|done]. rewrite Forall_forall in *. intros p Hp. apply Fl. by eapply delete_subset.
Qed.

(** Backpressure reports are rationed: whatever the interleaving of the
    publications that find queues filling up, two successive reports of the same
    queue are at least a minute apart by the clocks that made them, the total
    counts every report and the history is the last hundred of them. *)
Theorem backpressure_rationed es :
  let s := bp_exec bp_init es in
  (forall k, spaced (of_key k (bi_warned s))) /\
  bg_total (bi_state s) = wrap 64 (zlen (bi_warned s)) /\
  snd (SnapshotBackpressureStats (bi_state s)) = rev (lastn backpressureHistoryCap (bi_warned s)).
Proof.
  assert (forall s, bp_inv s -> bp_inv (bp_exec s es)) as H.
  { induction es as [|e es' IH]; intros s I; simpl; [done|]. apply IH, bp_step, I. }
  destruct (H bp_init) as (_ & S & _ & Hh & Ht).
  { split_and!; [by intros k|by intros k|constructor|done|done]. }
  cbv zeta. split_and!; [done..|]. cbn. by rewrite Hh.
Qed.
