(* ===== verification/Ingest.v ===== *)
(** How ticks enter the price service (src/internal/price/server.go): from the
    broker (decoder.go, with the producer side src/pkg/quote/pushdata.go) or from a
    stream of a forwarder (PublishTick of grpc.go), a body of one or several
    envelopes becomes ticks for the consumers, without duplicates of a second
    relay. Beside them the warm-up gate (readiness.go), the latency counters
    (latency.go), the market gate (market_status.go) and the branch margin
    (customer_margin_http.go).

    [encoding/json] is a pair of parameters; clock readings are arguments. *)

From Stdlib Require Import ZArith QArith Lia.
From S2P Require Import Prelude Codec Frame GoStrings Float64 Session Dates QuoteID Pricing Bars Feed Best.
Local Open Scope Z_scope.
Local Open Scope wtg_scope.

(** * Push data *)
Definition LSymb : nat := 20.
Definition MaxPushLen : nat := 1512.
Definition PushmsgSize : nat := 4 + LSymb + 4 + 1 + 1 + 2 + MaxPushLen.
Definition PushdataSize : nat := 8 + PushmsgSize.

(** [binary.BigEndian.PutUint64] and [Uint64]. *)
Definition putU64 (v : Z) : list byte := putU32 (Z.shiftr v 32) ++ putU32 v.
Definition getU64 (b : list byte) : Z := Z.lor (Z.shiftl (getU32 (sub 0 4 b)) 32) (getU32 (sub 4 4 b)).

Inductive PushErr := ErrPushdataPayloadTooLong | ErrTooShortPushData.

Record PushdataOptions := mkPush {
  po_MarketID : Z; po_SeqNum : Z; po_Symbol : list byte; po_Mask : Z; po_Type : Z; po_Flag : Z }.

(** The fields in front of the body; [copy] stops at the end of the field. *)
Definition push_header (o : PushdataOptions) (bodyLen : nat) (buf : list byte) : list byte :=
  let buf := blit 0 (putU64 (po_MarketID o)) buf in
  let buf := blit 8 (putU32 (po_SeqNum o)) buf in
  let buf := blit 12 (take LSymb (po_Symbol o)) buf in
  let buf := blit 32 (putU32 (po_Mask o)) buf in
  let buf := blit 36 [z2b (po_Type o)] buf in
  let buf := blit 37 [z2b (po_Flag o)] buf in
  blit 38 (putU16 (Z.of_nat bodyLen)) buf.

Definition EncodePushdata (o : PushdataOptions) (payload : list byte) : res PushErr (list byte) :=
  if (MaxPushLen <? length payload)%nat then Err ErrPushdataPayloadTooLong
  else Ok (blit 40 payload (push_header o (length payload) (replicate PushdataSize x00))).

(** A tick as decoded: the symbol and the body are bytes. *)
Record PushTick := mkPushTick {
  pd_MarketID : Z; pd_Symbol : list byte; pd_SeqNum : Z; pd_Mask : Z; pd_Type : Z; pd_Flag : Z; pd_Body : list byte }.

Definition DecodePushData (raw : list byte) : res PushErr PushTick :=
  if (length raw <? PushdataSize)%nat then Err ErrTooShortPushData
  else
    let msgl := Z.to_nat (getU16 (sub 38 2 raw)) in
    let msgl := if (MaxPushLen <? msgl)%nat then MaxPushLen else msgl in
    let msgl := if (length raw <? 40 + msgl)%nat then Z.to_nat (wrap 16 (zlen raw - 40)) else msgl in
    body ← (if (0 <? msgl)%nat then slice 40 (40 + Z.of_nat msgl) raw else Ok []);
    Ok (mkPushTick (getU64 (sub 0 8 raw)) (trimNul (sub 12 LSymb raw)) (getU32 (sub 8 4 raw)) (getU32 (sub 32 4 raw))
          (byte_at raw 36) (byte_at raw 37) body).

(** [EncodePushData] of the price service cuts the body instead of refusing it. *)
Definition EncodePushData (t : PushTick) : list byte :=
  let bodyLen := if (MaxPushLen <? length (pd_Body t))%nat then MaxPushLen else length (pd_Body t) in
  let o := mkPush (pd_MarketID t) (pd_SeqNum t) (pd_Symbol t) (pd_Mask t) (pd_Type t) (pd_Flag t) in
  blit 40 (take bodyLen (pd_Body t)) (push_header o bodyLen (replicate PushdataSize x00)).

Section envelopes.
Context (unmarshal : list byte -> option JSONEnvelope) (unmarshal_array : list byte -> option (list JSONEnvelope)).
Context (marshal : JSONEnvelope -> option (list byte)) (marshal_array : list JSONEnvelope -> option (list byte)).

Definition bytes_of (s : string) : list byte := String.list_byte_of_string s.

Inductive PushV1Err := PushJSON | PushEmpty | PushWire (e : PushErr).
Definition EncodePushdataV1 (env : JSONEnvelope) : res PushV1Err (list byte) :=
  match marshal env with
  | None => Err PushJSON
  | Some body =>
      match EncodePushdata (mkPush 0 (wrap 32 (e_Seq env)) (bytes_of (e_Sym env)) 0 0 0) body with
      | Ok b => Ok b | Err e => Err (PushWire e) | Panic => Panic
      end
  end.
Definition EncodePushdataBatch (envs : list JSONEnvelope) : res PushV1Err (list byte) :=
  match envs with
  | [] => Err PushEmpty
  | first :: _ =>
      match marshal_array envs with
      | None => Err PushJSON
      | Some body =>
          match EncodePushdata (mkPush 0 (wrap 32 (e_Seq first)) (bytes_of (e_Sym first)) 0 0 0) body with
          | Ok b => Ok b | Err e => Err (PushWire e) | Panic => Panic
          end
      end
  end.

Definition json_space (b : byte) : bool := bool_decide (b ∈ [x20; x09; x0d; x0a]).
Fixpoint skip_space (l : list byte) : list byte :=
  match l with b :: l' => if json_space b then skip_space l' else l | [] => [] end.

Definition ParseEnvelopes (body : list byte) : res EnvErr (list JSONEnvelope) :=
  match skip_space (TrimRight_nul body) with
  | [] => Err ErrEnvelopeEmpty
  | x5b :: _ as b => match unmarshal_array b with Some arr => Ok arr | None => Err ErrEnvelopeJSON end
  | b => env ← DecodeJSONEnvelope unmarshal b; Ok [env]
  end.

(** * Warm-up gate *)
Record readiness := mkReady { rd_start : Z; rd_warmup : Z; rd_maxWarmup : Z; rd_ticks : Z; rd_ready : bool }.
Definition newReadiness (warmup maxWarmup now : Z) : readiness := mkReady now warmup maxWarmup 0 false.
Definition markTick (r : readiness) : readiness :=
  mkReady (rd_start r) (rd_warmup r) (rd_maxWarmup r) (wrap64 (rd_ticks r + 1)) (rd_ready r).
Definition isReady (r : readiness) (now : Z) : bool * readiness :=
  if rd_ready r then (true, r)
  else
    let elapsed := Sub now (rd_start r) in
    if ((rd_warmup r <=? elapsed) && (0 <? rd_ticks r)) || (rd_maxWarmup r <=? elapsed)
    then (true, mkReady (rd_start r) (rd_warmup r) (rd_maxWarmup r) (rd_ticks r) true)
    else (false, r).

(** * Latency *)
Record LatencyTracker := mkLat {
  lt_count : Z; lt_sumNs : Z; lt_maxNs : Z; lt_negative : Z;
  lt_1ms : Z; lt_10ms : Z; lt_100ms : Z; lt_1s : Z; lt_ge1s : Z }.
Definition zero_latency : LatencyTracker := mkLat 0 0 0 0 0 0 0 0 0.
Definition ms : Z := 1000000.
Definition Observe (t : LatencyTracker) (producerTS : Time) (now : Z) : LatencyTracker :=
  if IsZero producerTS then t
  else
    let d := Sub now (t_ns producerTS) in
    if d <? 0 then mkLat (lt_count t) (lt_sumNs t) (lt_maxNs t) (incr64 (lt_negative t)) (lt_1ms t) (lt_10ms t) (lt_100ms t) (lt_1s t) (lt_ge1s t)
    else
      let bump (here : bool) (x : Z) := if here then incr64 x else x in
      mkLat (incr64 (lt_count t)) (wrap 64 (lt_sumNs t + d)) (if d <=? lt_maxNs t then lt_maxNs t else d) (lt_negative t)
        (bump (d <? ms) (lt_1ms t)) (bump ((ms <=? d) && (d <? 10 * ms)) (lt_10ms t))
        (bump ((10 * ms <=? d) && (d <? 100 * ms)) (lt_100ms t)) (bump ((100 * ms <=? d) && (d <? ns_per_sec)) (lt_1s t))
        (bump (ns_per_sec <=? d) (lt_ge1s t)).
(** (count, average, maximum) in nanoseconds, then the last two in milliseconds. *)
Definition Latency_Snapshot (t : LatencyTracker) : Z * Z * Z * f64 * f64 :=
  let avg := if 0 <? lt_count t then lt_sumNs t / lt_count t else 0 in
  (lt_count t, avg, lt_maxNs t, f_of_Z avg /f f_of_Z 1000000, f_of_Z (lt_maxNs t) /f f_of_Z 1000000).

(** * The server *)
Record Server := mkServer_ {
  sv_conflation : Conflation; sv_dedup : option tickDedup; sv_ready : readiness; sv_latency : LatencyTracker;
  totalRecv : Z; totalMatch : Z; totalDrop : Z; totalTicks : Z }.
Definition NewServer (dedup : bool) (warmup maxWarmup now : Z) : Server :=
  mkServer_ NewConflation (if dedup then Some newTickDedup else None) (newReadiness warmup maxWarmup now) zero_latency 0 0 0 0.

Definition count_drop (s : Server) : Server :=
  mkServer_ (sv_conflation s) (sv_dedup s) (sv_ready s) (sv_latency s) (totalRecv s) (totalMatch s) (incr64 (totalDrop s)) (totalTicks s).
Definition set_dedup (s : Server) (d : option tickDedup) : Server :=
  mkServer_ (sv_conflation s) d (sv_ready s) (sv_latency s) (totalRecv s) (totalMatch s) (totalDrop s) (totalTicks s).
Definition observe (s : Server) (env : JSONEnvelope) (ingress : Z) : Server :=
  mkServer_ (sv_conflation s) (sv_dedup s) (markTick (sv_ready s)) (Observe (sv_latency s) (e_TS env) ingress)
    (totalRecv s) (totalMatch s) (totalDrop s) (totalTicks s).
Definition dispatch (s : Server) (t : Tick) : Server :=
  mkServer_ (fst (Conflation_Update (sv_conflation s) (Some t))) (sv_dedup s) (sv_ready s) (sv_latency s)
    (totalRecv s) (totalMatch s) (totalDrop s) (incr64 (totalTicks s)).

(** The tick of one envelope; [now] is the reading for [Received]. *)
Definition sub_tick (base : Tick) (env : JSONEnvelope) (body : list byte) (now : Z) : Tick :=
  let seqNum := wrap 32 (e_Seq env) in
  mkTick (tk_MarketID base) (e_Sym env) (if seqNum =? 0 then tk_SeqNum base else seqNum) (tk_Mask base) (tk_Type base)
    (tk_Flag base) body (mkTime now 0) (e_Src env).

(** One envelope: the tick handed to the consumers, if any. *)
Definition ingest_one (s : Server) (base : Tick) (env : JSONEnvelope) (ingress now : Z) : Server * option Tick :=
  let '(s, dup) := match sv_dedup s with
                   | Some d => let '(d, dup) := seen d (e_Src env) (e_Seq env) in (set_dedup s (Some d), dup)
                   | None => (s, false)
                   end in
  if dup then (count_drop s, None)
  else
    let s := observe s env ingress in
    match marshal env with
    | None => (count_drop s, None)
    | Some body => let t := sub_tick base env body now in (dispatch s t, Some t)
    end.
Fixpoint ingest_loop (s : Server) (base : Tick) (envs : list JSONEnvelope) (ingress : Z) (clk : nat -> Z) : Server * list Tick :=
  match envs with
  | [] => (s, [])
  | env :: envs =>
      let '(s, t) := ingest_one s base env ingress (clk O) in
      let '(s, ts) := ingest_loop s base envs ingress (fun i => clk (S i)) in (s, option_list t ++ ts)
  end.
(** The ticks handed to every consumer, in order. *)
Definition IngestEnvelopes (s : Server) (body : list byte) (base : Tick) (ingress : Z) (clk : nat -> Z) : Server * list Tick :=
  match ParseEnvelopes body with
  | Ok envs => ingest_loop s base envs ingress clk
  | _ => (count_drop s, [])
  end.

Definition FCCast : Z := 4.
Definition FCPush : Z := 13.
(** The fields of a broadcast the handler reads. *)
Record Unsolicited := mkUnsol { un_Func : Z; un_Exchange : option string; un_Body : list byte }.

Definition base_tick (t : PushTick) (now : Z) : Tick :=
  mkTick (pd_MarketID t) (String.string_of_list_byte (pd_Symbol t)) (pd_SeqNum t) (pd_Mask t) (pd_Type t) (pd_Flag t)
    (pd_Body t) (mkTime now 0) "".
Definition handleUnsolicited (s : Server) (exchange : string) (msg : Unsolicited) (received ingress : Z) (clk : nat -> Z)
    : res PushErr (Server * list Tick) :=
  if negb (bool_decide (un_Func msg = FCCast \/ un_Func msg = FCPush)) then Ok (s, [])
  else if negb (bool_decide (exchange = "")) && negb (bool_decide (un_Exchange msg = Some exchange)) then Ok (s, [])
  else
    let s := mkServer_ (sv_conflation s) (sv_dedup s) (sv_ready s) (sv_latency s) (totalRecv s) (incr64 (totalMatch s)) (totalDrop s) (totalTicks s) in
    match DecodePushData (un_Body msg) with
    | Ok t => Ok (IngestEnvelopes s (pd_Body t) (base_tick t received) ingress clk)
    | Err _ => Ok (count_drop s, [])
    | Panic => Panic
    end.
(** One message of the subscription loop. *)
Definition subscribe_step (s : Server) (exchange : string) (msg : Unsolicited) (received ingress : Z) (clk : nat -> Z)
    : res PushErr (Server * list Tick) :=
  handleUnsolicited (mkServer_ (sv_conflation s) (sv_dedup s) (sv_ready s) (sv_latency s) (incr64 (totalRecv s)) (totalMatch s)
                       (totalDrop s) (totalTicks s)) exchange msg received ingress clk.

(** ** A forwarder's stream (PublishTick) *)
Record publish_stream := mkPubS { ps_accepted : Z; ps_dropped : Z; ps_lastAck : Z }.
Definition ackEvery : Z := 100.
Definition ackInterval : Z := ns_per_sec.
(** [None]: no acknowledgement; [snow], [anow], [lnow] are the readings for the
    interval test, the acknowledgement and [lastAck]. *)
Definition publish_msg (s : Server) (p : publish_stream) (msg : Tick) (ingress : Z) (clk : nat -> Z) (snow anow lnow : Z)
    : Server * list Tick * publish_stream * option (Z * Z * Z) :=
  if decide (tk_Body msg = []) then (s, [], mkPubS (ps_accepted p) (incr64 (ps_dropped p)) (ps_lastAck p), None)
  else
    let base := mkTick (tk_MarketID msg) (tk_Symbol msg) (tk_SeqNum msg) (tk_Mask msg) (wrap 8 (tk_Type msg)) (wrap 8 (tk_Flag msg))
                  [] zero_time "" in
    let '(s, ts) := IngestEnvelopes s (tk_Body msg) base ingress clk in
    let acc := incr64 (ps_accepted p) in
    if (acc mod ackEvery =? 0) || (ackInterval <=? Sub snow (ps_lastAck p))
    then (s, ts, mkPubS acc (ps_dropped p) lnow, Some (acc, ps_dropped p, UnixNano anow))
    else (s, ts, mkPubS acc (ps_dropped p) (ps_lastAck p), None).
End envelopes.

(** * Market gate *)
(** [None]: no best consumer (503); otherwise the market, whether it is open and
    the number of active symbols. *)
Definition MarketStatusHandler (stats : option BestStats) (market pair : string) : option (string * bool * Z) :=
  st ← stats;
  let active := size (filter (fun '(sym, s) => (pair = "" \/ sym = pair) /\ 0 < ActiveSources s) (Symbols st)) in
  Some (if decide (market = "") then "BEST" else market, bool_decide (0 < Z.of_nat active), Z.of_nat active).

(** * Branch margin *)
Record CustomerMarginResponse := mkCMR {
  cm_CustomerID : string; cm_Pair : string; cm_Pdcd : string; cm_Dcd : string;
  cm_BidMargin : f64; cm_AskMargin : f64; cm_HQBid : f64; cm_HQAsk : f64; cm_Found : bool }.
(** The built-in [max] on floats: NaN if an argument is NaN. *)
Definition fmax0 (x : f64) : f64 := match x with NaN => NaN | _ => if x <=f f0 then f0 else x end.
Definition CustomerMarginHandler (tbl : option PricingTable) (cust pair pdcd : string) : CustomerMarginResponse :=
  let pdcd := if decide (pdcd = "") then "SPT" else pdcd in
  match tbl with
  | Some tbl =>
      if decide (cust = "") then mkCMR cust pair pdcd "1" f0 f0 f0 f0 false
      else
        let '(hb, ha) := match HQMargin tbl !! (pair, "", "") with Some hq => (BidAmount hq, AskAmount hq) | None => (f0, f0) end in
        match List.find (fun r => bool_decide (cu_CustomerID r = cust) && (bool_decide (cu_Pair r = "") || bool_decide (cu_Pair r = pair)))
                (CustomerMargin tbl) with
        | Some r => mkCMR cust pair pdcd "1" (fmax0 (cu_BidDelta r -f hb)) (fmax0 (cu_AskDelta r -f ha)) hb ha true
        | None => mkCMR cust pair pdcd "1" f0 f0 hb ha false
        end
  | None => mkCMR cust pair pdcd "1" f0 f0 f0 f0 false
  end.
