(* ===== verification/IngestLaws.v ===== *)
(** Theorems about the intake: the push-data codec round-trips, a feed relayed by
    two forwarders reaches the consumers exactly once through the whole chain
    (encode, broker message, decode, parse, duplicate filter, dispatch), the
    warm-up gate is a latch, the latency buckets partition the observations, and
    two divergences: the market gate never matches a pair as documented, and the
    branch margin does not add up to the displayed price when it is clamped. *)

From Stdlib Require Import ZArith QArith Lia.
From S2P Require Import Prelude Codec Sorting GoStrings Float64 Session Dates QuoteID Pricing Bars Feed Best Ingest.
Local Open Scope Z_scope.
Local Open Scope wtg_scope.

(** * Codec *)
Lemma putU64_length v : length (putU64 v) = 8%nat.
Proof. done. Qed.
#[export] Hint Rewrite putU64_length : buf.

Lemma getU64_putU64 v : is_uint 64 v -> getU64 (putU64 v) = v.
Proof.
  intros [H0 H]. unfold getU64, putU64.
  change (sub 0 4 (putU32 (Z.shiftr v 32) ++ putU32 v)) with (putU32 (Z.shiftr v 32)).
  change (sub 4 4 (putU32 (Z.shiftr v 32) ++ putU32 v)) with (putU32 v).
  rewrite !getU32_putU32, Z.shiftr_div_pow2 by lia.
  rewrite (wrap_small 32 (v / 2 ^ 32)) by (unfold is_uint; split; [apply Z.div_pos; lia|apply Z.div_lt_upper_bound; lia]).
  rewrite lor_shiftl_add by (unfold wrap; try apply Z.mod_pos_bound; lia).
  unfold wrap. pose proof (Z.div_mod v (2 ^ 32)). lia.
Qed.

(** A name written over zeros reads back padded. *)
Lemma sub_blit_pad off n (s l : list byte) :
  (length s <= n)%nat -> (off + n <= length l)%nat -> sub off n l = replicate n x00 ->
  sub off n (blit off s l) = padCopyString n s.
Proof.
  intros Hs Hl Hz. unfold padCopyString. rewrite take_ge by done.
  apply list_eq. intros i. destruct (decide (i < n)%nat) as [Hi|Hi].
  - rewrite sub_lookup by done. unfold blit. destruct (decide (i < length s)%nat).
    + rewrite list_lookup_inserts, lookup_app_l by lia. f_equal. lia.
    + rewrite list_lookup_inserts_ge, lookup_app_r by lia.
      rewrite <-(sub_lookup off n l i Hi), Hz, !lookup_replicate_2 by lia. done.
  - rewrite !lookup_ge_None_2; [done| |]; rewrite ?length_app, ?length_replicate; unfold sub; rewrite ?length_take; lia.
Qed.

Lemma not_elem_take {A} n (x : A) l : x ∉ l -> x ∉ take n l.
Proof. intros H Hin. apply H. rewrite <-(take_drop n l). apply elem_of_app. by left. Qed.

Definition wf_push (o : PushdataOptions) : Prop :=
  is_uint 64 (po_MarketID o) /\ is_uint 32 (po_SeqNum o) /\ x00 ∉ po_Symbol o /\ is_uint 32 (po_Mask o) /\
  is_uint 8 (po_Type o) /\ is_uint 8 (po_Flag o).
Definition pushed (o : PushdataOptions) (payload : list byte) : PushTick :=
  mkPushTick (po_MarketID o) (take LSymb (po_Symbol o)) (po_SeqNum o) (po_Mask o) (po_Type o) (po_Flag o) payload.

Lemma push_header_length o n buf : length (push_header o n buf) = length buf.
Proof. unfold push_header. by autorewrite with buf. Qed.

Lemma push_header_reads o n buf :
  wf_push o -> (n <= MaxPushLen)%nat -> buf = replicate PushdataSize x00 ->
  let b := push_header o n buf in
  getU64 (sub 0 8 b) = po_MarketID o /\ getU32 (sub 8 4 b) = po_SeqNum o /\
  trimNul (sub 12 LSymb b) = take LSymb (po_Symbol o) /\ getU32 (sub 32 4 b) = po_Mask o /\
  sub 36 1 b = [z2b (po_Type o)] /\ sub 37 1 b = [z2b (po_Flag o)] /\ getU16 (sub 38 2 b) = Z.of_nat n.
Proof.
  intros (H1 & H2 & H3 & H4 & H5 & H6) Hn E. assert (length buf = 1552%nat) as L by (by rewrite E).
  assert (sub 12 20 buf = replicate 20 x00) as Z by (rewrite E; reflexivity).
  unfold MaxPushLen in Hn. assert (length (take LSymb (po_Symbol o)) <= 20)%nat as Ls
    by (rewrite length_take; unfold LSymb; lia).
  unfold push_header, LSymb in *. cbv zeta. repeat apply conj.
  - buf_read. by apply getU64_putU64.
  - buf_read. rewrite getU32_putU32. by apply wrap_small.
  - rewrite !(sub_blit_ne 12 20 _ _ (blit _ _ _)) by (right + left; simpl; lia).
    rewrite sub_blit_pad; [| lia | autorewrite with buf; lia |].
    + rewrite trimNul_padCopyString by (by apply not_elem_take). by rewrite take_ge.
    + by buf_read.
  - buf_read. rewrite getU32_putU32. by apply wrap_small.
  - by buf_read.
  - by buf_read.
  - buf_read. rewrite getU16_putU16. apply wrap_small. unfold is_uint. lia.
Qed.

Lemma slice_head {E} (n : nat) (raw : list byte) :
  (40 + n <= length raw)%nat ->
  (if (0 <? n)%nat then @slice E byte 40 (40 + Z.of_nat n) raw else Ok []) = Ok (sub 40 n raw).
Proof.
  intros H. destruct n as [|n]; [done|]. change (0 <? S n)%nat with true. cbv iota.
  rewrite slice_ok by lia. repeat f_equal; lia.
Qed.

(** The body length the decoder settles on fits the message. *)
Lemma DecodePushData_cases raw :
  (PushdataSize <= length raw)%nat ->
  exists n, n = Nat.min MaxPushLen (Z.to_nat (getU16 (sub 38 2 raw))) /\
    DecodePushData raw = Ok (mkPushTick (getU64 (sub 0 8 raw)) (trimNul (sub 12 LSymb raw)) (getU32 (sub 8 4 raw))
      (getU32 (sub 32 4 raw)) (byte_at raw 36) (byte_at raw 37) (sub 40 n raw)).
Proof.
  intros H. eexists. split; [reflexivity|]. unfold DecodePushData.
  rewrite (proj2 (Nat.ltb_ge _ _)) by done.
  change PushdataSize with 1552%nat in H. set (u := Z.to_nat _).
  assert ((if (MaxPushLen <? u)%nat then MaxPushLen else u) = Nat.min MaxPushLen u) as ->
    by (destruct (Nat.ltb_spec MaxPushLen u); lia).
  assert (Nat.min MaxPushLen u <= 1512)%nat by (unfold MaxPushLen; lia).
  rewrite (proj2 (Nat.ltb_ge (length raw) (40 + Nat.min MaxPushLen u))), slice_head by lia. done.
Qed.

Lemma EncodePushdata_decode (o : PushdataOptions) (payload rest : list byte) :
  wf_push o -> (length payload <= MaxPushLen)%nat ->
  exists raw, EncodePushdata o payload = Ok raw /\ length raw = PushdataSize /\
    DecodePushData (raw ++ rest) = Ok (pushed o payload).
Proof.
  intros W L. unfold EncodePushdata. rewrite (proj2 (Nat.ltb_ge _ _)) by done.
  eexists. split; [reflexivity|]. set (h := push_header _ _ _).
  assert (length h = PushdataSize) as Hh by (by unfold h; rewrite push_header_length, length_replicate).
  assert (length (blit 40 payload h) = PushdataSize) as Hr by (by rewrite blit_length). split; [done|].
  assert (forall a n, (a + n <= PushdataSize)%nat -> sub a n (blit 40 payload h ++ rest) = sub a n (blit 40 payload h)) as Hs.
  { intros a n Ha. apply sub_ext. intros i Hi. apply lookup_app_l. rewrite Hr. lia. }
  assert (forall a n, (a + n <= 40)%nat -> sub a n (blit 40 payload h ++ rest) = sub a n h) as Hb.
  { intros a n Ha. rewrite Hs by (unfold PushdataSize, PushmsgSize, LSymb, MaxPushLen; lia). apply sub_blit_ne. lia. }
  destruct (DecodePushData_cases (blit 40 payload h ++ rest)) as (n & En & ->); [rewrite length_app; lia|].
  destruct (push_header_reads o (length payload) _ W L eq_refl) as (R1 & R2 & R3 & R4 & R5 & R6 & R7).
  fold h in R1, R2, R3, R4, R5, R6, R7.
  rewrite (byte_at_sub _ 36), (byte_at_sub _ 37). rewrite !Hb in * by (unfold LSymb; lia).
  rewrite R7, Nat2Z.id, Nat.min_r in En by done. subst n.
  rewrite R1, R2, R3, R4, R5, R6, !byte_at_single by apply W. unfold pushed. repeat f_equal.
  assert (40 + length payload <= PushdataSize)%nat by (unfold PushdataSize, PushmsgSize, LSymb; lia).
  rewrite Hs by done. apply sub_blit_same; [done|lia].
Qed.

Lemma DecodePushData_safe raw : no_panic (DecodePushData raw).
Proof.
  destruct (decide (PushdataSize <= length raw)%nat) as [H|H].
  - by destruct (DecodePushData_cases raw H) as (n & _ & ->).
  - unfold DecodePushData. by rewrite (proj2 (Nat.ltb_lt _ _)) by lia.
Qed.

(** Push data on the wire: whatever the producer encodes (fields in range, a
    symbol without NUL, a payload that fits) takes exactly the fixed message size
    and decodes, also when the broker's buffer has trailing bytes, to the same
    fields and the same payload, the symbol cut to its field; and on every byte
    string the decoder returns a tick or an error, never a panic. *)
Theorem pushdata_roundtrip (o : PushdataOptions) (payload rest : list byte) :
  wf_push o -> (length payload <= MaxPushLen)%nat ->
  (exists raw, EncodePushdata o payload = Ok raw /\ length raw = PushdataSize /\
     DecodePushData (raw ++ rest) = Ok (pushed o payload)) /\
  (forall raw, no_panic (DecodePushData raw)).
Proof. eauto using EncodePushdata_decode, DecodePushData_safe. Qed.

Definition ex_push : PushdataOptions := mkPush 7 41 (bytes_of "USDKRW") 3 1 2.
Lemma pushdata_roundtrip_witness :
  wf_push ex_push /\
  exists raw, EncodePushdata ex_push (bytes_of "{}") = Ok raw /\ length raw = PushdataSize /\
    DecodePushData (raw ++ [x00]) = Ok (pushed ex_push (bytes_of "{}")).
Proof.
  assert (wf_push ex_push) as W.
  { unfold wf_push, is_uint. cbn [po_MarketID po_SeqNum po_Symbol po_Mask po_Type po_Flag ex_push].
    split; [lia|]. split; [lia|]. split; [|lia]. apply (bool_decide_unpack _). vm_compute. exact I. }
  split; [exact W|]. apply (pushdata_roundtrip ex_push (bytes_of "{}") [x00]); [exact W|].
  vm_compute. repeat constructor.
Defined.

(** * One feed through two forwarders *)
Section relay.
Context (unmarshal : list byte -> option JSONEnvelope) (unmarshal_array : list byte -> option (list JSONEnvelope)).
Context (marshal : JSONEnvelope -> option (list byte)).

(** An envelope [encoding/json] writes as an object that it reads back, that the
    decoder accepts and that fits one message. *)
Definition relayable (e : JSONEnvelope) : Prop :=
  (exists m, let b := x7b :: m ++ [x7d] in
     marshal e = Some b /\ unmarshal b = Some e /\ (length b <= MaxPushLen)%nat) /\
  x00 ∉ bytes_of (e_Sym e) /\ e_Sym e <> "" /\ ((e_Bid e <=f f0) || (e_Ask e <=f f0) || (e_Ask e <f e_Bid e)) = false.

(** The subscription loop over a sequence of messages, each with its readings. *)
Fixpoint subscribe_run (s : Server) (exchange : string) (msgs : list (Unsolicited * (Z * Z * (nat -> Z))))
    : res PushErr (Server * list Tick) :=
  match msgs with
  | [] => Ok (s, [])
  | (m, (received, ingress, clk)) :: msgs =>
      '(s, ts) ← subscribe_step unmarshal unmarshal_array marshal s exchange m received ingress clk;
      '(s, us) ← subscribe_run s exchange msgs;
      Ok (s, ts ++ us)
  end.

(** A push message of a forwarder for one envelope; a consumer's view of it. *)
Definition message_for (exchange : string) (e : JSONEnvelope) (m : Unsolicited * (Z * Z * (nat -> Z))) : Prop :=
  exists raw, EncodePushdataV1 marshal e = Ok raw /\ m.1 = mkUnsol FCPush (Some exchange) raw.
Definition carries (e : JSONEnvelope) (t : Tick) : Prop :=
  tk_Symbol t = e_Sym e /\ tk_Source t = e_Src e /\ unmarshal (tk_Body t) = Some e.

Lemma trim_front_stop fuel es c l : (forall l, omap (fun e => strip_prefix e (c :: l)) es = []) -> trim_front fuel es (c :: l) = c :: l.
Proof. intros H. destruct fuel; simpl; [done|]. by rewrite H. Qed.

Lemma rev_object (a b : byte) m : rev (a :: m ++ [b]) = b :: rev m ++ [a].
Proof. simpl. by rewrite rev_app_distr. Qed.

Lemma trim_object m : TrimRight_nul (x7b :: m ++ [x7d]) = x7b :: m ++ [x7d] /\ TrimSpace (x7b :: m ++ [x7d]) = x7b :: m ++ [x7d].
Proof.
  unfold TrimRight_nul, TrimSpace. rewrite (trim_front_stop _ _ x7b) by reflexivity.
  rewrite rev_object, (trim_front_stop _ _ x7d) by reflexivity. cbn [drop_nul].
  by rewrite rev_object, rev_involutive.
Qed.

(** The broker's message of a relayable envelope parses to exactly that envelope. *)
Lemma ParseEnvelopes_object e m :
  unmarshal (x7b :: m ++ [x7d]) = Some e -> e_Sym e <> "" ->
  ((e_Bid e <=f f0) || (e_Ask e <=f f0) || (e_Ask e <f e_Bid e)) = false ->
  ParseEnvelopes unmarshal unmarshal_array (x7b :: m ++ [x7d]) = Ok [e].
Proof.
  intros U S V. destruct (trim_object m) as [T1 T2]. unfold ParseEnvelopes. rewrite T1. cbn [skip_space].
  change (json_space x7b) with false. cbv iota. unfold DecodeJSONEnvelope. rewrite T1, T2, U.
  rewrite bool_decide_eq_false_2 by done. by rewrite V.
Qed.

Lemma ingest_step s d exchange e m :
  relayable e -> sv_dedup s = Some d -> message_for exchange e m ->
  exists s' ts, subscribe_step unmarshal unmarshal_array marshal s exchange m.1 m.2.1.1 m.2.1.2 m.2.2 = Ok (s', ts) /\
    sv_dedup s' = Some (seen d (e_Src e) (e_Seq e)).1 /\
    (if (seen d (e_Src e) (e_Seq e)).2
     then ts = [] /\ totalTicks s' = totalTicks s /\ totalDrop s' = incr64 (totalDrop s)
     else exists t, ts = [t] /\ carries e t /\ totalTicks s' = incr64 (totalTicks s) /\ totalDrop s' = totalDrop s).
Proof.
  intros ((b & Hm & Hu & Hl) & Hs & Hne & Hv) Hd (raw & Hr & Em). rewrite Em.
  unfold subscribe_step, handleUnsolicited. cbn [un_Func un_Exchange un_Body]. rewrite (bool_decide_eq_true_2 (FCPush = FCCast \/ FCPush = FCPush)) by (right; reflexivity).
  rewrite (bool_decide_eq_true_2 (Some exchange = _)), andb_false_r by done. simpl.
  unfold EncodePushdataV1 in Hr. rewrite Hm in Hr.
  edestruct (EncodePushdata_decode (mkPush 0 (wrap 32 (e_Seq e)) (bytes_of (e_Sym e)) 0 0 0) (x7b :: b ++ [x7d]) [])
    as (raw' & E1 & _ & E2); [|done|].
  { unfold wf_push. simpl. repeat split; try lia; try done; apply wrap_is_uint; lia. }
  rewrite E1 in Hr. injection Hr as <-. rewrite app_nil_r in E2. rewrite E2.
  unfold IngestEnvelopes. cbn [pd_Body pushed]. rewrite (ParseEnvelopes_object e b) by done. simpl. unfold ingest_one. simpl. rewrite Hd.
  destruct (seen d (e_Src e) (e_Seq e)) as [d' dup]. simpl. destruct dup.
  - do 2 eexists. split; [reflexivity|]. done.
  - rewrite Hm. do 2 eexists. split; [reflexivity|]. simpl. split; [done|].
    eexists. split; [reflexivity|]. done.
Qed.

(** The envelopes of a sequence of arrivals that pass the filter. *)
Fixpoint pass_envs (d : tickDedup) (es : list JSONEnvelope) : list JSONEnvelope :=
  match es with
  | [] => []
  | e :: es => let '(d', dup) := seen d (e_Src e) (e_Seq e) in if dup then pass_envs d' es else e :: pass_envs d' es
  end.

Lemma pass_envs_keys d es : map (fun e => (e_Src e, e_Seq e)) (pass_envs d es) = passed d (map (fun e => (e_Src e, e_Seq e)) es).
Proof.
  revert d. induction es as [|e es IH]; intros d; [done|]. simpl.
  destruct (seen d (e_Src e) (e_Seq e)) as [d' [|]]; simpl; by rewrite IH.
Qed.

Lemma pass_envs_sub d es e : e ∈ pass_envs d es -> e ∈ es.
Proof.
  revert d. induction es as [|x es IH]; intros d H; [done|]. simpl in H.
  destruct (seen d (e_Src x) (e_Seq x)) as [d' [|]]; [right; eauto|].
  apply elem_of_cons in H as [->|H]; [left|right; eauto].
Qed.

(** Two lists with the same keys, over elements told apart by their key. *)
Lemma map_inj_on {A B} (f : A -> B) l l' :
  (forall x y, x ∈ l ++ l' -> y ∈ l ++ l' -> f x = f y -> x = y) -> map f l = map f l' -> l = l'.
Proof.
  revert l'. induction l as [|x l IH]; intros [|y l'] H E; try done. simpl in E. injection E as E1 E2.
  f_equal; [apply H; set_solver|]. apply IH; [|done]. intros a b Ha Hb. apply H; set_solver.
Qed.

Lemma subscribe_run_passes exchange es msgs : Forall relayable es -> Forall2 (message_for exchange) es msgs ->
  forall s d, sv_dedup s = Some d ->
  exists s' ts, subscribe_run s exchange msgs = Ok (s', ts) /\ Forall2 carries (pass_envs d es) ts.
Proof.
  intros F M. induction M as [|e m es msgs Hm M IH]; intros s d Hd; [by do 2 eexists|].
  apply Forall_cons in F as [F1 F].
  destruct (ingest_step s d exchange e m F1 Hd Hm) as (s1 & ts & E & Hd1 & R).
  destruct (IH F s1 _ Hd1) as (s2 & us & E2 & R2). destruct m as [m [[r i] clk]]. simpl in *.
  rewrite E. simpl. rewrite E2. simpl. do 2 eexists. split; [reflexivity|].
  destruct (seen d (e_Src e) (e_Seq e)) as [d' [|]]; simpl in *.
  - destruct R as (-> & _). done.
  - destruct R as (t & -> & C & _). by constructor.
Qed.
End relay.

Lemma interleaving_map {A B} (f : A -> B) l r m : interleaving l r m -> interleaving (map f l) (map f r) (map f m).
Proof. induction 1; simpl; by constructor. Qed.
Lemma interleaving_elem {A} (l r m : list A) x : interleaving l r m -> x ∈ m -> x ∈ l \/ x ∈ r.
Proof. induction 1; set_solver. Qed.


Definition ex_env (q : Z) : JSONEnvelope := mkEnv "USDKRW" (f_of_Z 1300) (f_of_Z 1301) (mkTime 0 0) "SMB" q f0 f0 f0 f0.
Definition ex_marshal (e : JSONEnvelope) : option (list byte) := Some [x7b; z2b (e_Seq e); x7d].
Definition ex_unmarshal (b : list byte) : option JSONEnvelope :=
  match b with [x7b; q; x7d] => Some (ex_env (b2z q)) | _ => None end.
Definition ex_msg (q : Z) : Unsolicited * (Z * Z * (nat -> Z)) :=
  (mkUnsol FCPush (Some "PRICE") (match EncodePushdataV1 ex_marshal (ex_env q) with Ok raw => raw | _ => [] end), (q, q, fun _ => q)).
Definition ex_server : Server := NewServer true 0 0 0.

Lemma ex_relayable q : 0 <= q < 256 -> relayable ex_unmarshal ex_marshal (ex_env q).
Proof.
  intros H. split.
  - exists [z2b q]. simpl. rewrite b2z_z2b, Z.mod_small by done. repeat split. unfold MaxPushLen. lia.
  - split; [|split; [discriminate|reflexivity]]. apply (bool_decide_unpack _). vm_compute. exact I.
Qed.


(** * Warm-up gate *)
Inductive ready_op := RTick | RCheck (now : Z).
Definition ready_step (r : readiness) (o : ready_op) : readiness :=
  match o with RTick => markTick r | RCheck now => snd (isReady r now) end.

(** Once the gate has opened every later call finds it open, whatever the clock
    and the ticks do; and it opens at a call iff the warm-up with a tick, or the
    longest warm-up, has passed. *)
Lemma ready_latch r ops now : rd_ready r = true -> fst (isReady (fold_left ready_step ops r) now) = true.
Proof.
  intros H. assert (rd_ready (fold_left ready_step ops r) = true) as E.
  { revert r H. induction ops as [|o ops IH]; intros r H; [done|]. apply IH. destruct o; simpl; [done|].
    unfold isReady. by rewrite H. }
  unfold isReady. by rewrite E.
Qed.
Lemma ready_opens r now : rd_ready r = false ->
  let elapsed := Sub now (rd_start r) in
  fst (isReady r now) = true <-> (rd_warmup r <= elapsed /\ 0 < rd_ticks r) \/ rd_maxWarmup r <= elapsed.
Proof.
  intros H. unfold isReady. rewrite H. cbv zeta.
  destruct (Z.leb_spec (rd_warmup r) (Sub now (rd_start r))), (Z.ltb_spec 0 (rd_ticks r)),
    (Z.leb_spec (rd_maxWarmup r) (Sub now (rd_start r))); simpl; (split; [intros|]); try done; try lia; auto.
Qed.

(** * Latency *)
Definition bucket_sum (t : LatencyTracker) : Z := lt_1ms t + lt_10ms t + lt_100ms t + lt_1s t + lt_ge1s t.

(** Each observation with a non-negative delay lands in exactly one bucket, the
    others and missing time stamps in none, and the maximum never falls. *)
Lemma Observe_partition t ts now :
  (bucket_sum (Observe t ts now) - lt_count (Observe t ts now)) mod 2 ^ 64 = (bucket_sum t - lt_count t) mod 2 ^ 64 /\
  lt_maxNs t <= lt_maxNs (Observe t ts now).
Proof.
  unfold Observe. destruct (IsZero ts); [split; [done|lia]|]. set (d := Sub now (t_ns ts)). clearbody d.
  destruct (Z.ltb_spec d 0); [split; [done|simpl; lia]|]. unfold bucket_sum. cbn [lt_1ms lt_10ms lt_100ms lt_1s lt_ge1s lt_count lt_maxNs].
  split; [|destruct (Z.leb_spec d (lt_maxNs t)); lia].
  assert (forall x, exists k, incr64 x = x + 1 + k * 2 ^ 64) as I.
  { intros x. exists (- ((x + 1) / 2 ^ 64)). unfold incr64, wrap. pose proof (Z.div_mod (x + 1) (2 ^ 64)). lia. }
  assert (exists k, (if d <? ms then incr64 (lt_1ms t) else lt_1ms t) +
    (if (ms <=? d) && (d <? 10 * ms) then incr64 (lt_10ms t) else lt_10ms t) +
    (if (10 * ms <=? d) && (d <? 100 * ms) then incr64 (lt_100ms t) else lt_100ms t) +
    (if (100 * ms <=? d) && (d <? ns_per_sec) then incr64 (lt_1s t) else lt_1s t) +
    (if ns_per_sec <=? d then incr64 (lt_ge1s t) else lt_ge1s t) = bucket_sum t + 1 + k * 2 ^ 64) as [k E].
  { unfold bucket_sum, ms. change ns_per_sec with 1000000000.
    destruct (I (lt_1ms t)) as [k1 ->], (I (lt_10ms t)) as [k2 ->], (I (lt_100ms t)) as [k3 ->], (I (lt_1s t)) as [k4 ->], (I (lt_ge1s t)) as [k5 ->].
    destruct (Z.ltb_spec d 1000000), (Z.leb_spec 1000000 d), (Z.ltb_spec d (10 * 1000000)), (Z.leb_spec (10 * 1000000) d),
      (Z.ltb_spec d (100 * 1000000)), (Z.leb_spec (100 * 1000000) d), (Z.ltb_spec d 1000000000), (Z.leb_spec 1000000000 d); try lia;
      cbn [andb]; first [exists k1; lia|exists k2; lia|exists k3; lia|exists k4; lia|exists k5; lia]. }
  rewrite E. destruct (I (lt_count t)) as [k' ->]. unfold bucket_sum.
  replace (_ - _) with (lt_1ms t + lt_10ms t + lt_100ms t + lt_1s t + lt_ge1s t - lt_count t + (k - k') * 2 ^ 64) by lia.
  apply Z_mod_plus_full.
Qed.

(** * Divergences *)

(** The market gate is open iff a symbol with an active source is asked for, and a
    pair is compared with the feed's symbols as they are: asked as "USD/KRW", a
    live "USDKRW" is closed. *)
Lemma market_gate st market pair :
  exists m active, MarketStatusHandler (Some st) market pair = Some (m, bool_decide (0 < active), active) /\
    (0 < active <-> exists sym s, Symbols st !! sym = Some s /\ 0 < ActiveSources s /\ (pair = "" \/ sym = pair)).
Proof.
  do 2 eexists. split; [reflexivity|]. set (P := fun '(sym, s) => _). split.
  - intros H. destruct (decide (filter P (Symbols st) = ∅)) as [E|E]; [rewrite E, map_size_empty in H; lia|].
    apply map_choose in E as (sym & s & E). apply map_lookup_filter_Some in E as [E [? ?]]. eauto.
  - intros (sym & s & E & A & Q). assert (filter P (Symbols st) !! sym = Some s) as F
      by (apply map_lookup_filter_Some; done).
    destruct (decide (size (filter P (Symbols st)) = 0%nat)) as [Z|]; [|lia].
    apply map_size_empty_inv in Z. rewrite Z in F. done.
Qed.

Lemma market_gate_slash st market :
  (forall sym s, Symbols st !! sym = Some s -> sym = "USDKRW") ->
  MarketStatusHandler (Some st) market "USD/KRW" = Some (if decide (market = "") then "BEST" else market, false, 0).
Proof.
  intros H. destruct (market_gate st market "USD/KRW") as (m & n & E & A). rewrite E.
  unfold MarketStatusHandler in E. simpl in E. injection E as <- Ea En.
  assert (~ 0 < n) as N by (rewrite A; intros (sym & s & L & _ & [Q|Q]); [done|]; apply H in L; congruence).
  rewrite bool_decide_eq_false_2 by done. repeat f_equal. lia.
Qed.

(** A customer rule that is not an override, and one below the head-office margin:
    head office plus the reported branch share is not the margin of the displayed
    price. *)
Definition ex_rule (mode : string) (delta : Z) : CustomerRule :=
  mkRule "C1" "USD/KRW" (f_of_Z delta) (f_of_Z delta) f0 f0 mode 0 "".
Definition ex_table (mode : string) (delta : Z) : PricingTable :=
  mkTable 1 ∅ {[("USD/KRW", "", "") := mkMargin (f_of_Z 3) (f_of_Z 3) f0 f0]} ∅ [ex_rule mode delta] ∅ NilCal.
Definition displayed_bid_margin (t : PricingTable) : f64 :=
  BidAmount (total_margin t zero_margin (matchCustomerRule t "C1" "USD/KRW" []) "USD/KRW" (mkProfile "WEB" "1" "GOLD") []).
Definition executed_bid_margin (t : PricingTable) : f64 :=
  let r := CustomerMarginHandler (Some t) "C1" "USD/KRW" "" in cm_HQBid r +f cm_BidMargin r.

Lemma branch_margin_mismatch :
  executed_bid_margin (ex_table "override" 5) = displayed_bid_margin (ex_table "override" 5) /\
  executed_bid_margin (ex_table "override" 1) = f_of_Z 3 /\ displayed_bid_margin (ex_table "override" 1) = f_of_Z 1 /\
  executed_bid_margin (ex_table "" 5) = f_of_Z 5 /\ displayed_bid_margin (ex_table "" 5) = f_of_Z 8.
Proof. repeat apply conj; vm_compute; reflexivity. Qed.
