(* ===== verification/EdgeCustomers.v ===== *)
(** The registration of connected customers by the edge (customerRegManager of
    src/internal/edge/price/customer_reg.go): connections of a customer are counted
    with the sources they ask for, and every change is queued for the stream to the
    price service, whose end of it is [Hub.register_msg].

    A call is two steps, as in the code: the table under its lock, then the queue
    after the lock is released. Iteration orders of maps are parameters.

    The laws follow the definitions. *)

From Stdlib Require Import ZArith QArith Lia.
From S2P Require Import Prelude GoStrings Float64 Session Dates QuoteID Pricing Bars Best Algo Fanout Hub FanoutLaws HubLaws.
Local Open Scope Z_scope.
Local Open Scope wtg_scope.

Record custRegState := mkCustState { cs_profileKey : string; cs_conns : Z; cs_srcRefs : gmap string Z }.
Record customerRegManager := mkRegMgr {
  rm_active : gmap string custRegState; rm_queue : list CustomerRegistration; rm_sendRate : Z;
  totalRegistered : Z; totalUnregistered : Z; totalAckOK : Z; totalAckErr : Z; totalReconnects : Z; totalThrottled : Z }.
Definition queueCap : nat := 1024.
Definition newCustomerRegManager (sendRatePerSec : Z) : customerRegManager :=
  mkRegMgr ∅ [] (if sendRatePerSec <? 0 then 0 else sendRatePerSec) 0 0 0 0 0 0.

Definition set_active (m : customerRegManager) (a : gmap string custRegState) : customerRegManager :=
  mkRegMgr a (rm_queue m) (rm_sendRate m) (totalRegistered m) (totalUnregistered m) (totalAckOK m) (totalAckErr m) (totalReconnects m) (totalThrottled m).
Definition set_queue (m : customerRegManager) (q : list CustomerRegistration) : customerRegManager :=
  mkRegMgr (rm_active m) q (rm_sendRate m) (totalRegistered m) (totalUnregistered m) (totalAckOK m) (totalAckErr m) (totalReconnects m) (totalThrottled m).

Section manager.
(** The orders of [range st.srcRefs] and [range m.active]. *)
Context (siter : gset string -> list string).
Context (citer : gmap string custRegState -> list (string * custRegState)).

Definition sourcesUnion (st : custRegState) : list string :=
  if decide (cs_srcRefs st = ∅) then [] else siter (dom (cs_srcRefs st)).

Definition register_req (cid : string) (st : custRegState) : CustomerRegistration :=
  mkCustReq OP_REGISTER cid (cs_profileKey st) (sourcesUnion st).
Definition unregister_req (cid : string) : CustomerRegistration := mkCustReq OP_UNREGISTER cid "" [].

Definition add_ref (refs : gmap string Z) (src : string) : gmap string Z :=
  if decide (src = "") then refs else <[src := default 0 (refs !! src) + 1]> refs.
Definition drop_ref (refs : gmap string Z) (src : string) : gmap string Z :=
  if decide (src = "") then refs
  else let n := default 0 (refs !! src) in
       if 0 <? n then (if n - 1 =? 0 then delete src refs else <[src := n - 1]> refs) else refs.

(** What a call does under the lock, and the message it then enqueues. *)
Definition Register_locked (m : customerRegManager) (customerID profileKey : string) (sources : list string)
    : customerRegManager * option CustomerRegistration :=
  if bool_decide (customerID = "") || bool_decide (profileKey = "") then (m, None)
  else
    let st := default (mkCustState profileKey 0 ∅) (rm_active m !! customerID) in
    let st := mkCustState profileKey (cs_conns st + 1) (fold_left add_ref sources (cs_srcRefs st)) in
    (set_active m (<[customerID := st]> (rm_active m)), Some (register_req customerID st)).

Definition Unregister_locked (m : customerRegManager) (customerID : string) (sources : list string)
    : customerRegManager * option CustomerRegistration :=
  if decide (customerID = "") then (m, None)
  else match rm_active m !! customerID with
       | None => (m, None)
       | Some st =>
           let st := mkCustState (cs_profileKey st) (cs_conns st - 1) (fold_left drop_ref sources (cs_srcRefs st)) in
           if cs_conns st <=? 0 then (set_active m (delete customerID (rm_active m)), Some (unregister_req customerID))
           else (set_active m (<[customerID := st]> (rm_active m)), Some (register_req customerID st))
       end.

(** A full queue drops the message. *)
Definition enqueue (m : customerRegManager) (reg : CustomerRegistration) : customerRegManager :=
  if (length (rm_queue m) <? queueCap)%nat then set_queue m (rm_queue m ++ [reg]) else m.
Definition enqueue_opt (r : customerRegManager * option CustomerRegistration) : customerRegManager :=
  match r with (m, Some reg) => enqueue m reg | (m, None) => m end.

Definition Register (m : customerRegManager) (customerID profileKey : string) (sources : list string) : customerRegManager :=
  enqueue_opt (Register_locked m customerID profileKey sources).
Definition Unregister (m : customerRegManager) (customerID : string) (sources : list string) : customerRegManager :=
  enqueue_opt (Unregister_locked m customerID sources).

(** ** The stream *)

(** The start of [streamOnce] re-registers what is active. *)
Definition heal (m : customerRegManager) : customerRegManager :=
  fold_left (fun m '(cid, st) => enqueue m (register_req cid st)) (citer (rm_active m)) m.

(** One message of the send loop: what is sent, if the queue has one. *)
Definition send_next (m : customerRegManager) : customerRegManager * option CustomerRegistration :=
  match rm_queue m with
  | [] => (m, None)
  | reg :: q =>
      let throttled := if 0 <? rm_sendRate m then incr64 (totalThrottled m) else totalThrottled m in
      (mkRegMgr (rm_active m) q (rm_sendRate m)
         (match cq_Op reg with OP_REGISTER => incr64 (totalRegistered m) | _ => totalRegistered m end)
         (match cq_Op reg with OP_UNREGISTER => incr64 (totalUnregistered m) | _ => totalUnregistered m end)
         (totalAckOK m) (totalAckErr m) (totalReconnects m) throttled, Some reg)
  end.
(** [stream.Send] fails: the message is gone and the counters stay. *)
Definition send_fails (m : customerRegManager) : customerRegManager :=
  match rm_queue m with
  | [] => m
  | _ :: q =>
      let throttled := if 0 <? rm_sendRate m then incr64 (totalThrottled m) else totalThrottled m in
      mkRegMgr (rm_active m) q (rm_sendRate m) (totalRegistered m) (totalUnregistered m) (totalAckOK m) (totalAckErr m)
        (totalReconnects m) throttled
  end.
Definition receive_ack (m : customerRegManager) (ack : CustomerAck) : customerRegManager :=
  let ok := bool_decide (snd ack = None) in
  mkRegMgr (rm_active m) (rm_queue m) (rm_sendRate m) (totalRegistered m) (totalUnregistered m)
    (if ok then incr64 (totalAckOK m) else totalAckOK m) (if ok then totalAckErr m else incr64 (totalAckErr m))
    (totalReconnects m) (totalThrottled m).

(** The waits between attempts of [streamLoop]. *)
Definition backoff0 : Z := 500 * 1000000.
Definition backoffMax : Z := 10 * ns_per_sec.
Definition next_backoff (b : Z) : Z := if backoffMax <? b * 2 then backoffMax else b * 2.
Definition count_reconnect (m : customerRegManager) : customerRegManager :=
  mkRegMgr (rm_active m) (rm_queue m) (rm_sendRate m) (totalRegistered m) (totalUnregistered m) (totalAckOK m) (totalAckErr m)
    (incr64 (totalReconnects m)) (totalThrottled m).

(** (registered, unregistered, ack ok, ack error, reconnects, active, throttled, rate) *)
Definition Manager_Stats (m : customerRegManager) : Z * Z * Z * Z * Z * Z * Z * Z :=
  (totalRegistered m, totalUnregistered m, totalAckOK m, totalAckErr m, totalReconnects m,
   Z.of_nat (size (rm_active m)), totalThrottled m, rm_sendRate m).
End manager.

(** * Laws
    Theorems about customer registrations: through connections that come and go, a
    stream that breaks and is opened again and messages that are lost with it, the
    price service ends up with exactly the customers connected to the edge and the
    sources they ask for; and three ways in which the code leaves that. *)

(** * Reference counts *)
Definition ref_count (n : Z) : option Z := if 0 <? n then Some n else None.

Lemma add_refs l refs src : NoDup l -> "" ∉ l ->
  fold_left add_ref l refs !! src = if decide (src ∈ l) then Some (default 0 (refs !! src) + 1) else refs !! src.
Proof.
  intros N. revert refs. induction N as [|x l Hx N IH]; intros refs E; simpl; [done|].
  apply not_elem_of_cons in E as [E1 E2]. rewrite IH by done. unfold add_ref. rewrite (decide_False (P := x = "")) by done.
  destruct (decide (src = x)) as [->|Hne].
  - rewrite (decide_False (P := x ∈ l)), (decide_True (P := x ∈ x :: l)) by set_solver. by rewrite lookup_insert_eq.
  - rewrite lookup_insert_ne by done. by rewrite (decide_ext (src ∈ x :: l) (src ∈ l)) by set_solver.
Qed.

Lemma drop_refs l refs src n : NoDup l -> "" ∉ l -> refs !! src = ref_count n -> 0 <= n ->
  fold_left drop_ref l refs !! src = if decide (src ∈ l) then ref_count (n - 1) else ref_count n.
Proof.
  intros N. revert refs n. induction N as [|x l Hx N IH]; intros refs n E Hr H0; simpl; [done|].
  apply not_elem_of_cons in E as [E1 E2]. unfold drop_ref at 2. rewrite (decide_False (P := x = "")) by done.
  destruct (decide (src = x)) as [->|Hne].
  - rewrite Hr. rewrite (decide_True (P := x ∈ x :: l)) by set_solver.
    assert (forall refs', refs' !! x = ref_count (n - 1) -> fold_left drop_ref l refs' !! x = ref_count (n - 1)) as K.
    { intros refs' R. destruct (Z.leb_spec 1 n).
      - rewrite (IH refs' (n - 1)) by (done || lia). by rewrite decide_False.
      - rewrite (IH refs' 0); [|done| |lia]; [by rewrite decide_False; [unfold ref_count; rewrite !(proj2 (Z.ltb_ge 0 _)) by lia|]|].
        rewrite R. unfold ref_count. by rewrite !(proj2 (Z.ltb_ge 0 _)) by lia. }
    apply K. unfold ref_count in *. destruct (Z.ltb_spec 0 n); cbn [default from_option id].
    + rewrite (proj2 (Z.ltb_lt 0 n)) by lia. destruct (Z.eqb_spec (n - 1) 0) as [->|].
      * by rewrite lookup_delete_eq.
      * rewrite lookup_insert_eq, (proj2 (Z.ltb_lt 0 (n - 1))) by lia. done.
    + cbn. rewrite Hr, (proj2 (Z.ltb_ge 0 (n - 1))) by lia. done.
  - rewrite (IH _ n); [by rewrite (decide_ext (src ∈ x :: l) (src ∈ l)) by set_solver|done| |done].
    rewrite <-Hr. repeat case_match; rewrite ?lookup_delete_ne, ?lookup_insert_ne by done; done.
Qed.

(** * The edge, its stream and the price service *)
Record conn := mkConn { cn_cid : string; cn_key : string; cn_sources : list string }.

Section system.
Context (siter : gset string -> list string) (siter_perm : forall X, siter X ≡ₚ elements X).
Context (citer : gmap string custRegState -> list (string * custRegState)) (citer_perm : forall m, citer m ≡ₚ map_to_list m).

(** [sy_live]: the customers the open stream owns; for the statement: the open
    connections, and whether a full queue has dropped a message. *)
Record sys := mkSys {
  sy_mgr : customerRegManager; sy_up : CustomerRegistry; sy_live : option (gset string);
  sy_conns : list conn; sy_lost : bool }.
Definition init (rate : Z) : sys := mkSys (newCustomerRegManager rate) NewCustomerRegistry None [] false.

Inductive event := Connect (c : conn) | Disconnect (i : nat) | OpenStream | SendNext | SendFails | EndStream.

Definition full (m : customerRegManager) : bool := negb (length (rm_queue m) <? queueCap)%nat.
Definition end_stream (s : sys) (m : customerRegManager) : sys :=
  match sy_live s with
  | Some owned => mkSys (count_reconnect m) (register_end siter (sy_up s) owned) None (sy_conns s) (sy_lost s)
  | None => s
  end.

Definition exec1 (s : sys) (e : event) : sys :=
  match e with
  | Connect c =>
      mkSys (EdgeCustomers.Register siter (sy_mgr s) (cn_cid c) (cn_key c) (cn_sources c)) (sy_up s) (sy_live s) (sy_conns s ++ [c])
        (sy_lost s || full (sy_mgr s))
  | Disconnect i =>
      match sy_conns s !! i with
      | Some c =>
          mkSys (EdgeCustomers.Unregister siter (sy_mgr s) (cn_cid c) (siter (nonempty_set (cn_sources c)))) (sy_up s) (sy_live s)
            (delete i (sy_conns s)) (sy_lost s || full (sy_mgr s))
      | None => s
      end
  | OpenStream =>
      match sy_live s with
      | None => mkSys (heal siter citer (sy_mgr s)) (sy_up s) (Some ∅) (sy_conns s)
                  (sy_lost s || (queueCap <? length (rm_queue (sy_mgr s)) + size (rm_active (sy_mgr s)))%nat)
      | Some _ => s
      end
  | SendNext =>
      match sy_live s, send_next (sy_mgr s) with
      | Some owned, (m, Some reg) =>
          let '(ack, up, owned) := register_msg (sy_up s) owned reg in
          mkSys (receive_ack m ack) up (Some owned) (sy_conns s) (sy_lost s)
      | _, _ => s
      end
  | SendFails => match rm_queue (sy_mgr s) with [] => s | _ => end_stream s (send_fails (sy_mgr s)) end
  | EndStream => end_stream s (sy_mgr s)
  end.
Definition exec (s : sys) (es : list event) : sys := fold_left exec1 es s.

Context (prof : string -> Profile).
(** A connection of a customer with one profile; its sources as the query lists
    them. *)
Definition conn_ok (c : conn) : Prop :=
  cn_cid c <> "" /\ cn_key c <> "" /\ ParseProfileKey (cn_key c) = Ok (prof (cn_cid c)) /\ NoDup (cn_sources c) /\ "" ∉ cn_sources c.
Definition event_ok (e : event) : Prop := match e with Connect c => conn_ok c | _ => True end.

Definition of_customer (cid : string) (l : list conn) : list conn := filter (fun c => cn_cid c = cid) l.
Definition asking (cid src : string) (l : list conn) : Z := zlen (filter (fun c => src ∈ cn_sources c) (of_customer cid l)).

(** ** The table against the connections *)
Definition counted (l : list conn) (cid : string) (a : option custRegState) : Prop :=
  match a with
  | None => of_customer cid l = []
  | Some st => cs_conns st = zlen (of_customer cid l) /\ 0 < cs_conns st /\ ParseProfileKey (cs_profileKey st) = Ok (prof cid) /\
      forall src, cs_srcRefs st !! src = ref_count (asking cid src l)
  end.

Lemma of_customer_snoc cid l c : of_customer cid (l ++ [c]) = of_customer cid l ++ (if decide (cn_cid c = cid) then [c] else []).
Proof. unfold of_customer. rewrite filter_app, filter_cons, filter_nil. by case_decide. Qed.

Lemma counted_connect l c a : conn_ok c -> counted l (cn_cid c) a ->
  let st := default (mkCustState (cn_key c) 0 ∅) a in
  counted (l ++ [c]) (cn_cid c) (Some (mkCustState (cn_key c) (cs_conns st + 1) (fold_left add_ref (cn_sources c) (cs_srcRefs st)))).
Proof.
  intros (H1 & H2 & H3 & H4 & H5) C. unfold counted. cbn [cs_conns cs_profileKey cs_srcRefs].
  unfold asking. rewrite of_customer_snoc, decide_True, length_app by done.
  assert (cs_conns (default (mkCustState (cn_key c) 0 ∅) a) = zlen (of_customer (cn_cid c) l) /\
    forall src, cs_srcRefs (default (mkCustState (cn_key c) 0 ∅) a) !! src = ref_count (asking (cn_cid c) src l)) as [Cn Cr].
  { destruct a as [st|]; simpl; [by destruct C as (? & _ & _ & ?)|]. unfold asking. simpl in C. rewrite C. done. }
  rewrite Cn. split; [simpl; lia|]. split; [lia|]. split; [done|]. intros src.
  rewrite add_refs by done. rewrite Cr, filter_app, length_app, filter_cons, filter_nil. unfold asking.
  set (n := length (filter _ (of_customer _ l))). destruct (decide (src ∈ cn_sources c)); simpl.
  - unfold ref_count. destruct (Z.ltb_spec 0 (Z.of_nat n)); simpl; rewrite (proj2 (Z.ltb_lt 0 _)) by lia; f_equal; lia.
  - by rewrite Nat.add_0_r.
Qed.

Lemma of_customer_delete l i c cid : l !! i = Some c ->
  of_customer cid l ≡ₚ (if decide (cn_cid c = cid) then [c] else []) ++ of_customer cid (delete i l).
Proof.
  intros H. unfold of_customer. rewrite (delete_Permutation l i c H) at 1. rewrite filter_cons. by case_decide.
Qed.

Lemma asking_delete l i c cid src : l !! i = Some c ->
  asking cid src l = (if decide (cn_cid c = cid /\ src ∈ cn_sources c) then 1 else 0) + asking cid src (delete i l).
Proof.
  intros H. unfold asking. rewrite (of_customer_delete l i c cid H), filter_app, length_app.
  destruct (decide (cn_cid c = cid)); [rewrite filter_cons, filter_nil|]; repeat case_decide; simpl; try lia; tauto.
Qed.

Lemma sources_elems c : conn_ok c -> forall x, x ∈ siter (nonempty_set (cn_sources c)) <-> x ∈ cn_sources c.
Proof using siter_perm.
  intros (_ & _ & _ & _ & E) x. rewrite siter_perm, elem_of_elements. unfold nonempty_set.
  rewrite elem_of_list_to_set, list_elem_of_filter. split; [tauto|]. intros Hx. split; [|done]. by intros ->.
Qed.

Lemma counted_disconnect l i c st : conn_ok c -> l !! i = Some c -> counted l (cn_cid c) (Some st) ->
  let st' := mkCustState (cs_profileKey st) (cs_conns st - 1) (fold_left drop_ref (siter (nonempty_set (cn_sources c))) (cs_srcRefs st)) in
  counted (delete i l) (cn_cid c) (if cs_conns st' <=? 0 then None else Some st').
Proof using siter_perm.
  intros Hc Hi (C1 & C2 & C3 & C4). cbn [cs_conns].
  pose proof (of_customer_delete l i c (cn_cid c) Hi) as P. rewrite decide_True in P by done.
  apply Permutation_length in P. simpl in P. destruct (Z.leb_spec (cs_conns st - 1) 0) as [L|L]; simpl.
  - apply nil_length_inv. lia.
  - split; [lia|]. split; [lia|]. split; [done|]. intros src.
    pose proof (asking_delete l i c (cn_cid c) src Hi) as A.
    rewrite (drop_refs _ _ src (asking (cn_cid c) src l));
      [|rewrite siter_perm; apply NoDup_elements|rewrite (sources_elems c Hc); apply Hc|apply C4|unfold asking; lia].
    rewrite (decide_ext (src ∈ siter _) (src ∈ cn_sources c)) by (by apply sources_elems).
    destruct (decide (src ∈ cn_sources c)).
    + rewrite decide_True in A by done. f_equal. lia.
    + rewrite decide_False in A by tauto. f_equal. lia.
Qed.

(** ** The queue against the table *)
Definition agrees (a : option custRegState) (cid : string) (reg : CustomerRegistration) : Prop :=
  reg = match a with Some st => register_req siter cid st | None => unregister_req cid end.
Definition last_for (cid : string) (q : list CustomerRegistration) : option CustomerRegistration :=
  last (filter (fun r => cq_CustomerId r = cid) q).
Definition wanted (cid : string) (a : option custRegState) : option customerReg :=
  (fun st => mkCReg (prof cid) (dom (cs_srcRefs st))) <$> a.

(** The price service catches up with the table once it has read the queue. *)
Definition caught_up (s : sys) : Prop := forall cid, cid <> "" ->
  let a := rm_active (sy_mgr s) !! cid in
  match last_for cid (rm_queue (sy_mgr s)) with
  | Some reg => agrees a cid reg
  | None => is_Some (sy_live s) -> cu_entries (sy_up s) !! cid = wanted cid a
  end.
Definition owns (s : sys) : Prop :=
  "" ∉ dom (cu_entries (sy_up s)) /\ default ∅ (sy_live s) = dom (cu_entries (sy_up s)).

Definition inv (s : sys) : Prop :=
  Forall conn_ok (sy_conns s) /\
  (forall cid, counted (sy_conns s) cid (rm_active (sy_mgr s) !! cid)) /\
  Forall (fun r => cq_CustomerId r <> "") (rm_queue (sy_mgr s)) /\
  owns s /\ (sy_lost s = false -> caught_up s).

Lemma last_reg_snoc cid q reg : last_for cid (q ++ [reg]) = if decide (cq_CustomerId reg = cid) then Some reg else last_for cid q.
Proof. unfold last_for. rewrite filter_app, filter_cons, filter_nil. case_decide; [apply last_snoc|by rewrite app_nil_r]. Qed.
Lemma last_for_cons cid q reg : last_for cid (reg :: q) =
  match last_for cid q with Some r => Some r | None => if decide (cq_CustomerId reg = cid) then Some reg else None end.
Proof.
  unfold last_for. rewrite filter_cons. case_decide; [|by destruct (last _)]. destruct (filter _ q) eqn:E; [done|].
  rewrite last_cons_cons. by destruct (last (c :: l)) eqn:L; [|apply last_None in L].
Qed.

Lemma enqueue_queue m reg : rm_active (enqueue m reg) = rm_active m /\
  (full m = false -> rm_queue (enqueue m reg) = rm_queue m ++ [reg]) /\
  (Forall (fun r => cq_CustomerId r <> "") (rm_queue m) -> cq_CustomerId reg <> "" ->
   Forall (fun r => cq_CustomerId r <> "") (rm_queue (enqueue m reg))).
Proof.
  unfold enqueue, full. destruct (length (rm_queue m) <? queueCap)%nat; simpl; repeat split; try done.
  intros F H. apply Forall_app. split; [done|]. by constructor.
Qed.

(** A change of one customer's entry together with its message. *)
Lemma inv_change s cid a' reg conns' m' :
  inv s -> cid <> "" -> agrees a' cid reg -> Forall conn_ok conns' ->
  rm_active m' = partial_alter (fun _ => a') cid (rm_active (sy_mgr s)) -> rm_queue m' = rm_queue (sy_mgr s) ->
  counted conns' cid a' -> (forall c, c <> cid -> of_customer c conns' = of_customer c (sy_conns s)) ->
  inv (mkSys (enqueue m' reg) (sy_up s) (sy_live s) conns' (sy_lost s || full (sy_mgr s))).
Proof using.
  intros (H1 & H2 & H3 & H4 & H5) Hc Ag F Ea Eq C Hne.
  assert (cq_CustomerId reg = cid) as Er by (rewrite Ag; by destruct a').
  destruct (enqueue_queue m' reg) as (E1 & E2 & E3).
  split; [done|]. split; [|split; [|split; [done|]]].
  - intros c. cbn [sy_mgr sy_conns]. rewrite E1, Ea. destruct (decide (c = cid)) as [->|N].
    + by rewrite lookup_partial_alter_eq.
    + rewrite lookup_partial_alter_ne by done. specialize (H2 c). unfold counted, asking in *. rewrite Hne by done. done.
  - cbn [sy_mgr]. apply E3; [by rewrite Eq|by rewrite Er].
  - cbn [sy_lost]. intros [L Fu]%orb_false_iff c Hc'. cbn [sy_mgr sy_live sy_up].
    rewrite E2 by (unfold full in *; by rewrite Eq). rewrite last_reg_snoc, E1, Ea, Er, Eq.
    destruct (decide (cid = c)) as [<-|N].
    + by rewrite lookup_partial_alter_eq.
    + rewrite lookup_partial_alter_ne by done. apply (H5 L c Hc').
Qed.

Lemma inv_connect s c : inv s -> conn_ok c -> inv (exec1 s (Connect c)).
Proof using.
  intros I Hc. pose proof I as (H1 & H2 & _). pose proof Hc as (N1 & N2 & _). simpl.
  unfold EdgeCustomers.Register, Register_locked. rewrite !bool_decide_eq_false_2 by done. simpl.
  pose proof (counted_connect _ _ _ Hc (H2 (cn_cid c))) as C'. cbv zeta in C'.
  eapply inv_change; [done|exact N1| | | | |exact C'|]; [reflexivity| |reflexivity|reflexivity|].
  - apply Forall_app. split; [done|]. by constructor.
  - intros c' N. rewrite of_customer_snoc, decide_False by done. apply app_nil_r.
Qed.

Lemma of_customer_delete_ne l i c cid : l !! i = Some c -> cn_cid c <> cid -> of_customer cid (delete i l) = of_customer cid l.
Proof using.
  intros H N. rewrite <-(take_drop_middle l i c H) at 2. rewrite delete_take_drop. unfold of_customer.
  rewrite !filter_app, filter_cons, decide_False by done. done.
Qed.

Lemma inv_disconnect s i : inv s -> inv (exec1 s (Disconnect i)).
Proof using siter_perm.
  intros I. pose proof I as (H1 & H2 & _). simpl. destruct (sy_conns s !! i) as [c|] eqn:Hi; [|done].
  pose proof (Forall_lookup_1 _ _ _ _ H1 Hi) as Hc. pose proof Hc as (N1 & _).
  unfold EdgeCustomers.Unregister, Unregister_locked. rewrite decide_False by done.
  pose proof (H2 (cn_cid c)) as C. destruct (rm_active (sy_mgr s) !! cn_cid c) as [st|] eqn:Ea.
  2:{ simpl in C. pose proof (of_customer_delete _ _ _ (cn_cid c) Hi) as P. rewrite decide_True, C in P by done.
      by apply Permutation_nil_cons in P. }
  pose proof (counted_disconnect _ _ _ _ Hc Hi C) as C'. cbn [cs_conns] in *.
  destruct (cs_conns st - 1 <=? 0); (eapply inv_change; [done|exact N1| | | | |exact C'|];
    [reflexivity|by apply Forall_delete|reflexivity|reflexivity|]); intros c' N; by apply (of_customer_delete_ne _ _ c).
Qed.

Lemma heal_list l m : (length (rm_queue m) + length l <= queueCap)%nat ->
  fold_left (fun m '(cid, st) => enqueue m (register_req siter cid st)) l m
  = set_queue m (rm_queue m ++ map (fun '(cid, st) => register_req siter cid st) l).
Proof using.
  revert m. induction l as [|[cid st] l IH]; intros m H; simpl in *.
  - rewrite app_nil_r. by destruct m.
  - unfold enqueue at 2. rewrite (proj2 (Nat.ltb_lt _ _)) by lia.
    rewrite IH by (simpl; rewrite length_app; simpl; lia). simpl. by rewrite <-app_assoc.
Qed.
Lemma heal_any l m : Forall (fun '(cid, _) => cid <> "") l -> Forall (fun r => cq_CustomerId r <> "") (rm_queue m) ->
  let m' := fold_left (fun m '(cid, st) => enqueue m (register_req siter cid st)) l m in
  rm_active m' = rm_active m /\ Forall (fun r => cq_CustomerId r <> "") (rm_queue m').
Proof using.
  intros F. revert m. induction F as [|[cid st] l Hc F IH]; intros m Q; simpl; [done|].
  destruct (enqueue_queue m (register_req siter cid st)) as (E1 & _ & E3). rewrite <-E1. apply IH. auto.
Qed.

Lemma last_const {A} (l : list A) y : (forall x, x ∈ l -> x = y) -> l <> [] -> last l = Some y.
Proof using.
  intros H N. destruct (last l) as [x|] eqn:E; [|by apply last_None in E].
  f_equal. apply H. by apply last_Some_elem_of.
Qed.

Lemma last_for_heal cid (m : gmap string custRegState) :
  last_for cid (map (fun '(cid, st) => register_req siter cid st) (citer m)) = register_req siter cid <$> m !! cid.
Proof using citer_perm.
  assert (forall c st, (c, st) ∈ citer m <-> m !! c = Some st) as El by (intros; by rewrite citer_perm, elem_of_map_to_list).
  unfold last_for. destruct (m !! cid) as [st|] eqn:E; simpl.
  - apply last_const.
    + intros r [<- Hr]%list_elem_of_filter. apply list_elem_of_fmap in Hr as ([c st'] & -> & Hr). apply El in Hr. simpl in *. congruence.
    + intros N. apply El in E. apply (list_elem_of_fmap_2 (fun '(cid, st) => register_req siter cid st)) in E.
      assert (register_req siter cid st ∈ filter (fun r => cq_CustomerId r = cid) (map (fun '(cid, st) => register_req siter cid st) (citer m))) as X
        by (by apply list_elem_of_filter). rewrite N in X. by apply elem_of_nil in X.
  - destruct (filter _ _) as [|r l] eqn:F; [done|]. exfalso.
    assert (r ∈ r :: l) as X by (by left). rewrite <-F in X. apply list_elem_of_filter in X as [X1 X2].
    apply list_elem_of_fmap in X2 as ([c st] & -> & X2). apply El in X2. simpl in X1. congruence.
Qed.

Lemma inv_open s : inv s -> inv (exec1 s OpenStream).
Proof using citer_perm.
  intros I. pose proof I as (H1 & H2 & H3 & [H4 H4'] & H5). simpl. destruct (sy_live s) as [o|] eqn:El; [exact I|].
  assert (Forall (fun '(cid, _) => cid <> "") (citer (rm_active (sy_mgr s)))) as Fc.
  { rewrite citer_perm. apply Forall_forall. intros [cid st] Hin%elem_of_map_to_list ->.
    pose proof (H2 "") as C. rewrite Hin in C. destruct C as (C1 & C2 & _).
    destruct (of_customer "" (sy_conns s)) as [|c l] eqn:Eo; [simpl in C1; lia|].
    assert (c ∈ of_customer "" (sy_conns s)) as X by (rewrite Eo; by left). apply list_elem_of_filter in X as [X1 X2].
    rewrite Forall_forall in H1. by destruct (H1 _ X2). }
  destruct (heal_any _ _ Fc H3) as [Ha Hq]. fold (heal siter citer (sy_mgr s)) in Ha, Hq.
  split; [done|]. cbn [sy_mgr sy_conns sy_up sy_live sy_lost]. split; [by rewrite Ha|]. split; [done|].
  split; [by split|]. intros [L Fu]%orb_false_iff cid Hc. cbn [sy_mgr sy_live sy_up]. rewrite Ha.
  assert (length (citer (rm_active (sy_mgr s))) = size (rm_active (sy_mgr s))) as Ls by (by rewrite citer_perm, length_map_to_list).
  unfold heal. rewrite heal_list by (apply Nat.ltb_ge in Fu; lia). cbn [rm_queue set_queue].
  unfold last_for. rewrite filter_app, last_app. fold (last_for cid (map (fun '(cid, st) => register_req siter cid st) (citer (rm_active (sy_mgr s))))).
  rewrite last_for_heal. fold (last_for cid (rm_queue (sy_mgr s))).
  pose proof (H5 L cid Hc) as A. destruct (rm_active (sy_mgr s) !! cid) as [st|] eqn:Ea; simpl; [done|].
  destruct (last_for cid (rm_queue (sy_mgr s))); [done|]. intros _. apply not_elem_of_dom. rewrite <-H4'. apply not_elem_of_empty.
Qed.

(** One message on the price service's side. *)
Lemma register_msg_effect up owned reg ack up' owned' :
  register_msg up owned reg = (ack, up', owned') -> cq_CustomerId reg <> "" ->
  "" ∉ dom (cu_entries up) -> owned = dom (cu_entries up) ->
  "" ∉ dom (cu_entries up') /\ owned' = dom (cu_entries up') /\
  (forall c, c <> cq_CustomerId reg -> cu_entries up' !! c = cu_entries up !! c) /\
  (cq_Op reg = OP_UNREGISTER -> cu_entries up' !! cq_CustomerId reg = None) /\
  (forall p, cq_Op reg = OP_REGISTER -> ParseProfileKey (cq_ProfileKey reg) = Ok p ->
     cu_entries up' !! cq_CustomerId reg = Some (mkCReg p (nonempty_set (cq_Sources reg)))).
Proof using.
  intros E Hc Hn Ho. clear - E Hc Hn Ho. unfold register_msg in E. destruct (cq_Op reg) eqn:Op.
  - rewrite decide_False in E by done. destruct (ParseProfileKey (cq_ProfileKey reg)) as [p| |] eqn:Ep;
      injection E as <- <- <-; try (split_and!; try done; congruence).
    rewrite Register_entries, dom_insert_L by done. subst owned. split_and!; [set_solver|done| |done|].
    + intros c N. by rewrite lookup_insert_ne.
    + intros p' _ [= <-]. apply lookup_insert_eq.
  - destruct (decide (cq_CustomerId reg ∈ owned)) as [Hi|Hi]; injection E as <- <- <-.
    + rewrite Unregister_entries, dom_delete_L by done. subst owned. split_and!; [set_solver|done| | |done].
      * intros c N. by rewrite lookup_delete_ne.
      * intros _. apply lookup_delete_eq.
    + split_and!; try done. intros _. apply not_elem_of_dom. by rewrite <-Ho.
  - injection E as <- <- <-. split_and!; try done; congruence.
Qed.

Lemma union_dom st : (forall src, cs_srcRefs st !! src <> None -> src <> "") ->
  nonempty_set (sourcesUnion siter st) = dom (cs_srcRefs st).
Proof using siter_perm.
  intros H. unfold sourcesUnion, nonempty_set. case_decide as E; [by rewrite E, dom_empty_L|].
  apply set_eq. intros x. rewrite elem_of_list_to_set, list_elem_of_filter, siter_perm, elem_of_elements. split; [by intros [_ ?]|].
  intros Hx. split; [|done]. apply H. apply elem_of_dom in Hx as [y ->]. done.
Qed.

Lemma counted_sources l cid st : Forall conn_ok l -> counted l cid (Some st) -> forall src, cs_srcRefs st !! src <> None -> src <> "".
Proof using.
  intros F (_ & _ & _ & C) src H ->. apply H. rewrite C. unfold ref_count, asking.
  destruct (filter _ (of_customer cid l)) as [|c t] eqn:E; [done|]. exfalso.
  assert (c ∈ c :: t) as X by (by left). rewrite <-E in X. apply list_elem_of_filter in X as [X1 X2].
  apply list_elem_of_filter in X2 as [_ X2]. rewrite Forall_forall in F. by destruct (F _ X2) as (_ & _ & _ & _ & ?).
Qed.

(** A message that agrees with the table brings its customer up to date. *)
Lemma agreeing_msg s up owned reg ack up' owned' :
  inv s -> register_msg up owned reg = (ack, up', owned') -> cq_CustomerId reg <> "" ->
  "" ∉ dom (cu_entries up) -> owned = dom (cu_entries up) ->
  agrees (rm_active (sy_mgr s) !! cq_CustomerId reg) (cq_CustomerId reg) reg ->
  cu_entries up' !! cq_CustomerId reg = wanted (cq_CustomerId reg) (rm_active (sy_mgr s) !! cq_CustomerId reg).
Proof using siter_perm.
  intros (H1 & H2 & _) E Hc Hn Ho Ag. destruct (register_msg_effect _ _ _ _ _ _ E Hc Hn Ho) as (_ & _ & _ & U & R).
  specialize (H2 (cq_CustomerId reg)). set (cid := cq_CustomerId reg) in *. unfold agrees in Ag.
  destruct (rm_active (sy_mgr s) !! cid) as [st|]; simpl.
  - destruct H2 as (C1 & C2 & C3 & C4). rewrite (R (prof cid)); [|by rewrite Ag|by rewrite Ag].
    rewrite Ag. cbn [cq_Sources register_req]. rewrite union_dom; [done|].
    apply (counted_sources (sy_conns s) cid); [done|]. by split_and!.
  - apply U. by rewrite Ag.
Qed.

Lemma inv_send s : inv s -> inv (exec1 s SendNext).
Proof using siter_perm.
  intros I. pose proof I as (H1 & H2 & H3 & [H4 H4'] & H5). simpl. destruct (sy_live s) as [owned|] eqn:El; [|exact I].
  unfold send_next. destruct (rm_queue (sy_mgr s)) as [|reg q] eqn:Eq; [exact I|].
  destruct (register_msg (sy_up s) owned reg) as [[ack up'] owned'] eqn:E.
  apply Forall_cons in H3 as [H3 H3'].
  destruct (register_msg_effect _ _ _ _ _ _ E H3 H4 H4') as (D1 & D2 & Ne & _).
  split; [done|]. split; [done|]. split; [done|]. split; [by split|].
  intros L cid Hc. specialize (H5 L cid Hc). cbn [sy_mgr sy_live sy_up sy_lost receive_ack rm_active rm_queue] in *.
  rewrite Eq, last_for_cons in H5. destruct (last_for cid q) as [r|] eqn:Lq; [done|]. intros _.
  destruct (decide (cq_CustomerId reg = cid)) as [<-|N].
  - by apply (agreeing_msg s (sy_up s) owned reg ack up' owned').
  - rewrite Ne by done. apply H5. rewrite El. eauto.
Qed.

Lemma register_end_empty s owned : owns s -> sy_live s = Some owned -> cu_entries (register_end siter (sy_up s) owned) = ∅.
Proof using siter_perm.
  intros [O1 O2] El. rewrite El in O2. simpl in O2. subst owned. apply map_empty. intros cid. unfold register_end.
  rewrite Unregister_all by (rewrite siter_perm, elem_of_elements; done).
  case_decide as D; [done|]. apply not_elem_of_dom. intros Hd. apply D. by rewrite siter_perm, elem_of_elements.
Qed.

Lemma inv_end s m : inv s -> rm_active m = rm_active (sy_mgr s) ->
  (rm_queue m = rm_queue (sy_mgr s) \/ exists reg, rm_queue (sy_mgr s) = reg :: rm_queue m) -> inv (end_stream s m).
Proof using siter_perm.
  intros I Ea Eq. unfold end_stream. destruct (sy_live s) as [owned|] eqn:El; [|exact I].
  pose proof I as (H1 & H2 & H3 & H4 & H5). pose proof (register_end_empty s owned H4 El) as Em.
  split; [done|]. cbn [sy_mgr sy_conns sy_up sy_live sy_lost count_reconnect rm_active rm_queue]. split; [by rewrite Ea|].
  split; [destruct Eq as [->|[reg Eq]]; [done|]; rewrite Eq in H3; by apply Forall_cons in H3 as [_ H3]|].
  split; [split; cbn [sy_up sy_live]; rewrite Em, dom_empty_L; [apply not_elem_of_empty|done]|].
  intros L cid Hc. specialize (H5 L cid Hc). cbn [sy_mgr sy_live sy_up count_reconnect rm_active rm_queue] in *. rewrite Ea.
  destruct (last_for cid (rm_queue m)) as [r|] eqn:Lq; [|by intros [? ?]].
  destruct Eq as [Eq|[reg Eq]]; rewrite ?Eq, ?last_for_cons, ?Lq in H5; [rewrite <-Eq, Lq in H5|]; done.
Qed.

Lemma cust_inv_exec1 s e : event_ok e -> inv s -> inv (exec1 s e).
Proof using siter_perm citer_perm.
  intros Ok I. destruct e.
  - by apply inv_connect.
  - by apply inv_disconnect.
  - by apply inv_open.
  - by apply inv_send.
  - simpl. destruct (rm_queue (sy_mgr s)) as [|reg q] eqn:Eq; [done|]. apply inv_end; [done| |].
    + unfold send_fails. by rewrite Eq.
    + right. exists reg. unfold send_fails. by rewrite Eq.
  - apply inv_end; auto.
Qed.

Lemma cust_inv_exec es s : Forall event_ok es -> inv s -> inv (exec s es).
Proof using siter_perm citer_perm. intros F. revert s. induction F; intros s I; simpl; auto using cust_inv_exec1. Qed.

Lemma cust_inv_init rate : inv (init rate).
Proof using.
  split; [constructor|]. split; [intros cid; done|]. split; [constructor|].
  split; [split; simpl; [rewrite dom_empty_L; apply not_elem_of_empty|by rewrite dom_empty_L]|]. intros _ cid _. simpl. by intros [? ?].
Qed.
End system.

(** Sending what is queued: nothing else changes, and it empties the queue. *)
Lemma drain siter citer s owned : sy_live s = Some owned ->
  let s' := exec siter citer s (replicate (length (rm_queue (sy_mgr s))) SendNext) in
  rm_queue (sy_mgr s') = [] /\ sy_live s' <> None /\ sy_conns s' = sy_conns s /\ sy_lost s' = sy_lost s /\
  rm_active (sy_mgr s') = rm_active (sy_mgr s).
Proof.
  remember (rm_queue (sy_mgr s)) as q eqn:Eq. revert s owned Eq. induction q as [|reg q IH]; intros s owned Eq El; simpl.
  - rewrite <-Eq, El. done.
  - rewrite El. unfold send_next. rewrite <-Eq. destruct (register_msg (sy_up s) owned reg) as [[ack up] o].
    set (s1 := mkSys (receive_ack _ ack) up (Some o) (sy_conns s) (sy_lost s)). exact (IH s1 o eq_refl eq_refl).
Qed.

Definition asked_sources (l : list conn) : gset string := list_to_set (mjoin (map cn_sources l)).

Lemma counted_entry prof l cid a : Forall (conn_ok prof) l -> counted prof l cid a ->
  wanted prof cid a = match of_customer cid l with [] => None | _ => Some (mkCReg (prof cid) (asked_sources (of_customer cid l))) end.
Proof.
  intros F C. destruct a as [st|]; simpl in *; [|by rewrite C]. destruct C as (C1 & C2 & _ & C4).
  destruct (of_customer cid l) as [|c t] eqn:E; [simpl in C1; lia|]. rewrite <-E. do 2 f_equal. apply set_eq. intros src.
  rewrite elem_of_dom, C4. unfold asked_sources, ref_count, asking. rewrite elem_of_list_to_set, list_elem_of_join, E.
  rewrite <-E. split.
  - intros [n Hn]. destruct (filter _ (of_customer cid l)) as [|d u] eqn:Ef; [done|].
    assert (d ∈ d :: u) as X by (by left). rewrite <-Ef in X. apply list_elem_of_filter in X as [X1 X2].
    exists (cn_sources d). split; [done|]. by apply list_elem_of_fmap_2.
  - intros (srcs & X1 & (d & -> & X2)%list_elem_of_fmap).
    assert (d ∈ filter (fun c => src ∈ cn_sources c) (of_customer cid l)) as X by (by apply list_elem_of_filter).
    destruct (filter _ (of_customer cid l)); [by apply elem_of_nil in X|]. rewrite (proj2 (Z.ltb_lt _ _)); [eauto|simpl; lia].
Qed.


Definition ex_prof (_ : string) : Profile := mkProfile "WEB" "BRANCH" "VIP".
Definition ex_conn (srcs : list string) : conn := mkConn "C1" "WEB.BRANCH.VIP" srcs.
Definition ex_events : list event :=
  [Connect (ex_conn ["SMB"]); OpenStream; Connect (ex_conn ["KMB"; "SMB"]); SendNext; SendFails; Disconnect 0].


(** * Where it fails *)

(** The last connection closes while another opens: the two messages are queued in
    the other order than the table changed, and a customer who is connected is
    dropped by the price service for good. *)
Theorem register_race_drops_customer :
  let m := EdgeCustomers.Register elements (newCustomerRegManager 0) "C1" "WEB.BRANCH.VIP" [] in
  let '(m, r1) := Unregister_locked elements m "C1" [] in
  let '(m, r2) := Register_locked elements m "C1" "WEB.BRANCH.VIP" [] in
  let m := enqueue_opt (enqueue_opt (m, r2), r1) in
  (exists st, rm_active m !! "C1" = Some st /\ cs_conns st = 1) /\
  Customer_Lookup (fst (run_stream NewCustomerRegistry ∅ (rm_queue m))) "C1" = None.
Proof. vm_compute. split; [|reflexivity]. eexists. split; reflexivity. Qed.

(** A source named twice in one connection is counted twice and released once: it
    stays registered when only a connection without sources is left. *)
Theorem duplicate_source_leaks :
  let m := EdgeCustomers.Register elements (newCustomerRegManager 0) "C1" "WEB.BRANCH.VIP" ["SMB"; "SMB"] in
  let m := EdgeCustomers.Register elements m "C1" "WEB.BRANCH.VIP" [] in
  let m := EdgeCustomers.Unregister elements m "C1" (elements (nonempty_set ["SMB"; "SMB"])) in
  exists r, cu_entries (fst (run_stream NewCustomerRegistry ∅ (rm_queue m))) !! "C1" = Some r /\ "SMB" ∈ cg_sources r.
Proof.
  cbv zeta. eexists. split; [vm_compute; reflexivity|]. apply (bool_decide_unpack _). vm_compute. exact I.
Qed.
