(* ===== verification/EdgePrice.v ===== *)
(** The WebSocket edge of the price service (src/internal/edge/price): connections
    with their pair filters and bounded queues (registry.go), the guards of a
    subscription (pair_validator.go, customer_pair_policy.go, gateSubscribe), quiet
    pairs (liveness.go), the control messages, the handlers of upstream streams
    (server.go, krx_upstream.go) and the operator's endpoints (admin.go).

    Connections are shared objects, named by number; the registry holds numbers.
    Payloads are the values that are written as JSON. The orders in which maps are
    ranged over, [encoding/json] on upstream bytes and clock readings are
    parameters. The backpressure check that follows a send is given the sends a
    call returns. *)

From Stdlib Require Import ZArith QArith Ascii Lia.
From S2P Require Import Prelude GoStrings Strconv Float64 Session Dates QuoteID Pricing Bars Best Algo QuoteValidation Fanout Hub EdgeCustomers.
Local Open Scope Z_scope.
Local Open Scope wtg_scope.

(** * Payloads *)
Record KrxEvent := mkKrx { kx_Type : string; kx_AssetClass : string; kx_Symbol : string; kx_Ts : Z; kx_Payload : list byte }.
Record LegacyEnvelope := mkLegacy { lg_TS : string; lg_Feed : string; lg_Seq : Z; lg_Symbol : string; lg_Entries : list (string * f64) }.
Inductive Payload :=
| PTick (t : pbTick) | PLegacy (l : LegacyEnvelope) | PQuote (q : pbQuote) | PQuoteV2 (q : pbQuote)
| PKrx (raw : list byte) | PKrxV2 (ev : KrxEvent)
| PReject (rejected : list string) | PEcho (items : option (list string)) | PError (code : string)
| PStale (pair : string) (threshold_sec : Z) | PFresh (pair : string) | PRevoked (pair : string).

(** JSON members, in the order they are written. *)
Inductive jval := JString (s : string) | JFloat (x : f64) | JInt (z : Z) | JObject (l : list (string * jval)).
Definition omit_f (k : string) (x : f64) : list (string * jval) := if x ==f f0 then [] else [(k, JFloat x)].
Definition omit_s (k s : string) : list (string * jval) := if decide (s = "") then [] else [(k, JString s)].
Definition omit_z (k : string) (z : Z) : list (string * jval) := if z =? 0 then [] else [(k, JInt z)].
(** [json.Marshal] refuses a float that is not finite. *)
Definition json_float (x : f64) : bool := match x with Fin _ _ => true | _ => false end.
Definition quote_marshals (q : pbQuote) : bool :=
  forallb json_float [pq_Bid q; pq_Ask q; pq_BidSize q; pq_AskSize q; pq_RawBid q; pq_RawAsk q].

Definition encodeCustomerQuoteJSON (q : pbQuote) : option (list (string * jval)) :=
  if quote_marshals q then
    Some ([("type", JString "quote"); ("pair", JString (pq_Pair q)); ("chan", JString (pq_Channel q)); ("site", JString (pq_Site q));
           ("tier", JString (pq_Tier q)); ("tenor", JString (pq_Tenor q)); ("bid", JFloat (pq_Bid q)); ("ask", JFloat (pq_Ask q))]
          ++ omit_f "bid_size" (pq_BidSize q) ++ omit_f "ask_size" (pq_AskSize q) ++ [("ts_unix_nano", JInt (pq_Ts q))]
          ++ omit_f "raw_bid" (pq_RawBid q) ++ omit_f "raw_ask" (pq_RawAsk q) ++ [("v", JInt (pq_TableVersion q))]
          ++ omit_s "quote_id" (pq_QuoteId q) ++ omit_z "valid_until_unix_nano" (pq_ValidUntil q)
          ++ omit_s "customer_id" (pq_CustomerId q) ++ omit_s "source" (pq_Source q))
  else None.
Definition encodeCustomerQuoteV2 (q : pbQuote) : option (list (string * jval)) :=
  if quote_marshals q then
    Some [("ev", JInt 2); ("type", JString "fx.quote"); ("asset_class", JString "FX"); ("symbol", JString (pq_Pair q));
          ("ts_unix_nano", JInt (pq_Ts q));
          ("data", JObject ([("bid", JFloat (pq_Bid q)); ("ask", JFloat (pq_Ask q))]
            ++ omit_f "bid_size" (pq_BidSize q) ++ omit_f "ask_size" (pq_AskSize q) ++ omit_f "raw_bid" (pq_RawBid q)
            ++ omit_f "raw_ask" (pq_RawAsk q)
            ++ [("tenor", JString (pq_Tenor q)); ("chan", JString (pq_Channel q)); ("site", JString (pq_Site q));
                ("tier", JString (pq_Tier q)); ("v", JInt (pq_TableVersion q))]
            ++ omit_s "quote_id" (pq_QuoteId q) ++ omit_z "valid_until_unix_nano" (pq_ValidUntil q)
            ++ omit_s "customer_id" (pq_CustomerId q) ++ omit_s "source" (pq_Source q)))]
  else None.
(** [PQuote q] and [PQuoteV2 q] stand for the two encodings of [q]. *)
Definition encodeQuoteVariants (q : pbQuote) : option (Payload * option Payload) :=
  match encodeCustomerQuoteJSON q with
  | None => None
  | Some _ => Some (PQuote q, (fun _ => PQuoteV2 q) <$> encodeCustomerQuoteV2 q)
  end.
Definition encodeKrxVariants (json_raw_ok : list byte -> bool) (ev : KrxEvent) : Payload * option Payload :=
  (PKrx (kx_Payload ev), if json_raw_ok (kx_Payload ev) then Some (PKrxV2 ev) else None).

Record legacyProbe := mkProbe { pb_Sym : string; pb_Bid : f64; pb_Ask : f64; pb_Src : string; pb_Seq : Z; pb_TS : string }.
Definition encodeTickLegacyJSON (json_valid : list byte -> bool) (probe : list byte -> option legacyProbe) (t : pbTick)
    : option Payload :=
  if bool_decide (pt_Body t = []) || negb (json_valid (pt_Body t)) then None
  else match probe (pt_Body t) with
       | None => None
       | Some p =>
           Some (PLegacy (mkLegacy (pb_TS p) (pb_Src p) (pb_Seq p) (pb_Sym p)
             ((if pb_Bid p ==f f0 then [] else [("bid", pb_Bid p)]) ++ (if pb_Ask p ==f f0 then [] else [("ask", pb_Ask p)]))))
       end.

(** * A connection *)
Record Subscriber := mkSubr {
  su_profileKey : string; su_customerID : string; su_sources : gset string; su_ev : Z;
  su_send : list Payload; su_cap : nat; su_closed : bool; su_pairs : option (gset string) }.
Inductive SendErr := ErrSubClosed | ErrSendQueueFull.

Definition set_send (s : Subscriber) (q : list Payload) : Subscriber :=
  mkSubr (su_profileKey s) (su_customerID s) (su_sources s) (su_ev s) q (su_cap s) (su_closed s) (su_pairs s).
Definition set_pairs (s : Subscriber) (ps : option (gset string)) : Subscriber :=
  mkSubr (su_profileKey s) (su_customerID s) (su_sources s) (su_ev s) (su_send s) (su_cap s) (su_closed s) ps.
Definition set_closed (s : Subscriber) : Subscriber :=
  mkSubr (su_profileKey s) (su_customerID s) (su_sources s) (su_ev s) (su_send s) (su_cap s) true (su_pairs s).

Definition NewSubscriber (profileKey customerID : string) (sources : list string) (ev sendQueueSize : Z) : Subscriber :=
  mkSubr profileKey customerID (nonempty_set sources) ev [] (Z.to_nat (if sendQueueSize <=? 0 then 256 else sendQueueSize)) false None.

Definition MatchesSource (s : Subscriber) (source : string) : bool :=
  if decide (source = "") then bool_decide (su_sources s = ∅) else bool_decide (source ∈ su_sources s).
Definition MatchesPair (s : Subscriber) (pair : string) : bool :=
  match su_pairs s with None => true | Some ps => bool_decide (pair ∈ ps) end.
Definition SubscribePairs (s : Subscriber) (pairs : list string) : Subscriber :=
  match pairs with
  | [] => s
  | _ => set_pairs s (Some (default ∅ (su_pairs s) ∪ nonempty_set pairs))
  end.
Definition UnsubscribePairs (s : Subscriber) (pairs : list string) : Subscriber :=
  match pairs, su_pairs s with
  | [], _ | _, None => s
  | _, Some ps => let ps := ps ∖ list_to_set pairs in set_pairs s (if decide (ps = ∅) then None else Some ps)
  end.
Definition SubscribedPairs (s : Subscriber) : option (list string) := (fun ps => sort_Strings (elements ps)) <$> su_pairs s.

Definition Send (s : Subscriber) (p : Payload) : Subscriber * option SendErr :=
  if su_closed s then (s, Some ErrSubClosed)
  else if (length (su_send s) <? su_cap s)%nat then (set_send s (su_send s ++ [p]), None)
  else (s, Some ErrSendQueueFull).
(** The payload [SendVersioned] chooses. *)
Definition versioned (v1 : Payload) (v2 : option Payload) (s : Subscriber) : Payload :=
  match v2 with Some v2 => if 2 <=? su_ev s then v2 else v1 | None => v1 end.
Definition SendVersioned (s : Subscriber) (v1 : Payload) (v2 : option Payload) : Subscriber * option SendErr :=
  Send s (versioned v1 v2 s).

(** * Guards *)
Definition Validator_Add (v : gset string) (pairs : list string) : gset string := v ∪ nonempty_set pairs.
Definition Validator_Remove (v : gset string) (pairs : list string) : gset string := v ∖ list_to_set pairs.
Definition IsAllowed (v : gset string) (pair : string) : bool := bool_decide (pair ∈ v).
Definition AllowedSnapshot (v : gset string) : list string := sort_Strings (elements v).

Definition AllowedFor (p : gmap string (list string)) (customerID : string) : option (list string) := p !! customerID.
Definition Policy_Replace (m : gmap string (list string)) : gmap string (list string) := sort_Strings <$> m.
(** The pairs of [Set]: trimmed, not empty, the first of equal ones. *)
Fixpoint clean_pairs (seen : gset string) (pairs : list string) : list string :=
  match pairs with
  | [] => []
  | p :: pairs =>
      let p := GoStrings.TrimSpace p in
      if bool_decide (p = "") || bool_decide (p ∈ seen) then clean_pairs seen pairs
      else p :: clean_pairs ({[p]} ∪ seen) pairs
  end.
Definition Policy_Set (m : gmap string (list string)) (customerID : string) (pairs : list string) : gmap string (list string) :=
  <[customerID := sort_Strings (clean_pairs ∅ pairs)]> m.
Definition Policy_Delete (m : gmap string (list string)) (customerID : string) : gmap string (list string) := delete customerID m.

Section pair_watcher.
Context (unmarshal : string -> option (list string)) (prefix : string).
Definition load_pair (m : gmap string (list string)) (kv : string * string) : gmap string (list string) :=
  let cid := TrimPrefix (fst kv) prefix in
  if decide (cid = "") then m
  else match unmarshal (snd kv) with Some pairs => <[cid := pairs]> m | None => m end.
(** The initial load of [Start]. *)
Definition Watcher_Start (kvs : list (string * string)) : gmap string (list string) := Policy_Replace (fold_left load_pair kvs ∅).
Definition pair_event (m : gmap string (list string)) (ev : QuoteValidation.event) : gmap string (list string) :=
  let key := match ev with EventPut k _ | EventDelete k => k end in
  let cid := TrimPrefix key prefix in
  if decide (cid = "") then m
  else match ev with
       | EventPut _ v => match unmarshal v with Some pairs => Policy_Set m cid pairs | None => m end
       | EventDelete _ => Policy_Delete m cid
       end.
End pair_watcher.

(** The catalogue of instruments (src/pkg/instrument), as far as routing needs it. *)
Record Instrument := mkInstr { in_Symbol : string; in_AssetClass : string; in_Market : string; in_Upstream : string; in_Active : bool }.
Definition Catalog_Replace (items : list Instrument) : gmap string Instrument :=
  fold_left (fun m it => <[in_Symbol it := it]> m) items ∅.
Definition Route (c : gmap string Instrument) (symbol : string) : option string :=
  it ← c !! symbol; if in_Active it then Some (in_Upstream it) else None.
Fixpoint RouteAll (c : gmap string Instrument) (symbols : list string) : gmap string (list string) * list string :=
  match symbols with
  | [] => (∅, [])
  | s :: symbols =>
      let '(by_up, unknown) := RouteAll c symbols in
      match Route c s with
      | None => (by_up, s :: unknown)
      | Some up => (<[up := s :: default [] (by_up !! up)]> by_up, unknown)
      end
  end.

(** * Quiet pairs *)
Record pairLiveness := mkLive { pl_lastTS : gmap string Z; pl_stale : gset string }.
Definition newPairLiveness : pairLiveness := mkLive ∅ ∅.
Definition Liveness_Update (l : pairLiveness) (pair : string) (ts : Z) : pairLiveness * bool :=
  if decide (pair = "") then (l, false)
  else (mkLive (<[pair := ts]> (pl_lastTS l)) (pl_stale l ∖ {[pair]}), bool_decide (pair ∈ pl_stale l)).
Definition newly_stale (l : pairLiveness) (now threshold : Z) (e : string * Z) : bool :=
  negb (bool_decide (fst e ∈ pl_stale l)) && (threshold <? Sub now (snd e)).
Definition ScanForStale (liter : gmap string Z -> list (string * Z)) (l : pairLiveness) (now threshold : Z)
    : pairLiveness * list string :=
  let newly := map fst (filter (fun e => newly_stale l now threshold e = true) (liter (pl_lastTS l))) in
  (mkLive (pl_lastTS l) (pl_stale l ∪ list_to_set newly), newly).
Definition Liveness_Snapshot (liter : gmap string Z -> list (string * Z)) (l : pairLiveness) : list (string * Z * bool) :=
  map (fun '(pr, ts) => (pr, ts, bool_decide (pr ∈ pl_stale l))) (liter (pl_lastTS l)).

(** * The server *)
Record Edge := mkEdge {
  ed_objs : gmap Z Subscriber; ed_subs : gset Z; ed_nextID : Z; ed_sent : Z; ed_dropped : Z;
  ed_validator : option (gset string); ed_catalog : option (gmap string Instrument);
  ed_policy : option (gmap string (list string)); ed_mgr : option customerRegManager; ed_live : option pairLiveness;
  totalRejectedPairs : Z; totalStaleSent : Z; totalFreshSent : Z; edge_totalRecv : Z; totalKrxRecv : Z }.

Definition set_objs (e : Edge) (o : gmap Z Subscriber) : Edge :=
  mkEdge o (ed_subs e) (ed_nextID e) (ed_sent e) (ed_dropped e) (ed_validator e) (ed_catalog e) (ed_policy e) (ed_mgr e) (ed_live e)
    (totalRejectedPairs e) (totalStaleSent e) (totalFreshSent e) (edge_totalRecv e) (totalKrxRecv e).
Definition set_subs (e : Edge) (s : gset Z) : Edge :=
  mkEdge (ed_objs e) s (ed_nextID e) (ed_sent e) (ed_dropped e) (ed_validator e) (ed_catalog e) (ed_policy e) (ed_mgr e) (ed_live e)
    (totalRejectedPairs e) (totalStaleSent e) (totalFreshSent e) (edge_totalRecv e) (totalKrxRecv e).
Definition set_totals (e : Edge) (sent dropped : Z) : Edge :=
  mkEdge (ed_objs e) (ed_subs e) (ed_nextID e) sent dropped (ed_validator e) (ed_catalog e) (ed_policy e) (ed_mgr e) (ed_live e)
    (totalRejectedPairs e) (totalStaleSent e) (totalFreshSent e) (edge_totalRecv e) (totalKrxRecv e).
Definition set_validator (e : Edge) (v : option (gset string)) : Edge :=
  mkEdge (ed_objs e) (ed_subs e) (ed_nextID e) (ed_sent e) (ed_dropped e) v (ed_catalog e) (ed_policy e) (ed_mgr e) (ed_live e)
    (totalRejectedPairs e) (totalStaleSent e) (totalFreshSent e) (edge_totalRecv e) (totalKrxRecv e).
Definition set_mgr (e : Edge) (m : option customerRegManager) : Edge :=
  mkEdge (ed_objs e) (ed_subs e) (ed_nextID e) (ed_sent e) (ed_dropped e) (ed_validator e) (ed_catalog e) (ed_policy e) m (ed_live e)
    (totalRejectedPairs e) (totalStaleSent e) (totalFreshSent e) (edge_totalRecv e) (totalKrxRecv e).
Definition set_live (e : Edge) (l : option pairLiveness) : Edge :=
  mkEdge (ed_objs e) (ed_subs e) (ed_nextID e) (ed_sent e) (ed_dropped e) (ed_validator e) (ed_catalog e) (ed_policy e) (ed_mgr e) l
    (totalRejectedPairs e) (totalStaleSent e) (totalFreshSent e) (edge_totalRecv e) (totalKrxRecv e).
Definition set_counts (e : Edge) (rejected stale fresh recv krx : Z) : Edge :=
  mkEdge (ed_objs e) (ed_subs e) (ed_nextID e) (ed_sent e) (ed_dropped e) (ed_validator e) (ed_catalog e) (ed_policy e) (ed_mgr e) (ed_live e)
    rejected stale fresh recv krx.

(** The parts of [NewServer] kept here; the manager and the catalogue are attached
    by [Start]. *)
Definition NewServer (seedPairs : list string) (staleThreshold : Z) : Edge :=
  mkEdge ∅ ∅ 0 0 0 (match seedPairs with [] => None | _ => Some (Validator_Add ∅ seedPairs) end) None None None
    (if 0 <? staleThreshold then Some newPairLiveness else None) 0 0 0 0 0.

Section server.
(** Orders of maps and sets. *)
Context (iter : gset Z -> list Z) (siter : gset string -> list string) (liter : gmap string Z -> list (string * Z)).

(** [Close] with the [OnClose] of the subscription handler. *)
Definition Close (e : Edge) (id : Z) : Edge :=
  match ed_objs e !! id with
  | None => e
  | Some s =>
      if su_closed s then e
      else
        let e := set_subs (set_objs e (<[id := set_closed s]> (ed_objs e))) (ed_subs e ∖ {[id]}) in
        if decide (su_customerID s = "") then e
        else match ed_mgr e with
             | Some m => set_mgr e (Some (EdgeCustomers.Unregister siter m (su_customerID s) (siter (su_sources s))))
             | None => e
             end
  end.

(** ** Fan-out *)

(** One subscriber of a fan-out: the depth of its queue when it was sent to. A full
    queue closes the connection if [isolate]. *)
Definition send_one (isolate : bool) (pay : Subscriber -> Payload) (e : Edge) (id : Z) : Edge * option Z :=
  match ed_objs e !! id with
  | None => (e, None)
  | Some s =>
      match Send s (pay s) with
      | (s, None) => (set_objs e (<[id := s]> (ed_objs e)), Some (zlen (su_send s)))
      | (_, Some ErrSendQueueFull) => (if isolate then Close e id else e, None)
      | (_, Some ErrSubClosed) => (e, None)
      end
  end.
(** The sends (number and depth) and the number of drops. *)
Fixpoint send_all (isolate : bool) (pay : Subscriber -> Payload) (e : Edge) (ids : list Z) : Edge * list (Z * Z) * Z :=
  match ids with
  | [] => (e, [], 0)
  | id :: ids =>
      let '(e, d) := send_one isolate pay e id in
      let '(e, sends, drops) := send_all isolate pay e ids in
      match d with Some d => (e, (id, d) :: sends, drops) | None => (e, sends, drops + 1) end
  end.
(** The subscribers of the copy made under the lock. *)
Definition selected (e : Edge) (sel : Subscriber -> bool) : list Z :=
  filter (fun id => from_option sel false (ed_objs e !! id) = true) (iter (ed_subs e)).
Definition count_totals (r : Edge * list (Z * Z) * Z) : Edge * list (Z * Z) * Z :=
  let '(e, sends, drops) := r in
  (set_totals e (wrap 64 (ed_sent e + zlen sends)) (wrap 64 (ed_dropped e + drops)), sends, drops).

Definition Broadcast (e : Edge) (p : Payload) : Edge * list (Z * Z) * Z :=
  count_totals (send_all true (fun _ => p) e (selected e (fun _ => true))).
(** Not counted, and a full queue is left alone. *)
Definition BroadcastForPair (e : Edge) (pair : string) (p : Payload) : Edge * list (Z * Z) * Z :=
  if decide (pair = "") then (e, [], 0)
  else send_all false (fun _ => p) e (selected e (fun s => MatchesPair s pair)).
Definition BroadcastBySymbolV (e : Edge) (symbol : string) (v1 : Payload) (v2 : option Payload) : Edge * list (Z * Z) * Z :=
  if decide (symbol = "") then (e, [], 0)
  else count_totals (send_all true (versioned v1 v2) e (selected e (fun s => MatchesPair s symbol))).

Definition pair_passes (s : Subscriber) (pair : string) : bool := bool_decide (pair = "") || MatchesPair s pair.
Definition profile_sel (profileKey pair : string) (s : Subscriber) : bool :=
  bool_decide (su_profileKey s = profileKey) && MatchesSource s "" && pair_passes s pair.
Definition customer_sel (customerID pair source : string) (s : Subscriber) : bool :=
  bool_decide (su_customerID s = customerID) && MatchesSource s source && pair_passes s pair.
Definition SendByProfileV (e : Edge) (profileKey pair : string) (v1 : Payload) (v2 : option Payload) : Edge * list (Z * Z) * Z :=
  if decide (profileKey = "") then (e, [], 0)
  else count_totals (send_all true (versioned v1 v2) e (selected e (profile_sel profileKey pair))).
Definition SendByProfile (e : Edge) (profileKey pair : string) (p : Payload) : Edge * list (Z * Z) * Z :=
  if decide (profileKey = "") then (e, [], 0)
  else count_totals (send_all true (fun _ => p) e (selected e (profile_sel profileKey pair))).
Definition SendByCustomerIDV (e : Edge) (customerID pair source : string) (v1 : Payload) (v2 : option Payload)
    : Edge * list (Z * Z) * Z :=
  if decide (customerID = "") then (e, [], 0)
  else count_totals (send_all true (versioned v1 v2) e (selected e (customer_sel customerID pair source))).
Definition SendByCustomerID (e : Edge) (customerID pair source : string) (p : Payload) : Edge * list (Z * Z) * Z :=
  if decide (customerID = "") then (e, [], 0)
  else count_totals (send_all true (fun _ => p) e (selected e (customer_sel customerID pair source))).

Fixpoint revoke_all (e : Edge) (pair : string) (ids : list Z) : Edge * Z :=
  match ids with
  | [] => (e, 0)
  | id :: ids =>
      match ed_objs e !! id with
      | Some s =>
          if bool_decide (pair ∈ default ∅ (su_pairs s)) then
            let '(e, n) := revoke_all (set_objs e (<[id := UnsubscribePairs s [pair]]> (ed_objs e))) pair ids in (e, n + 1)
          else revoke_all e pair ids
      | None => revoke_all e pair ids
      end
  end.
Definition RevokePairFromAll (e : Edge) (pair : string) : Edge * Z :=
  if decide (pair = "") then (e, 0) else revoke_all e pair (iter (ed_subs e)).
Definition CloseAll (e : Edge) : Edge := fold_left Close (iter (ed_subs e)) e.
Definition Registry_Count (e : Edge) : Z := Z.of_nat (size (ed_subs e)).
Definition Registry_Stats (e : Edge) : Z * Z * Z := (Registry_Count e, ed_sent e, ed_dropped e).
Record SubInfo := mkSubInfo {
  sn_ID : Z; sn_ProfileKey : string; sn_CustomerID : string; sn_Ev : Z; sn_Depth : Z; sn_Cap : Z; sn_Pairs : option (list string); sn_Closed : bool }.
Definition SnapshotInfo (id : Z) (s : Subscriber) : SubInfo :=
  mkSubInfo id (su_profileKey s) (su_customerID s) (su_ev s) (zlen (su_send s)) (Z.of_nat (su_cap s)) (SubscribedPairs s) (su_closed s).
Definition Registry_Snapshot (e : Edge) : list SubInfo := omap (fun id => SnapshotInfo id <$> ed_objs e !! id) (iter (ed_subs e)).

(** ** Upstream messages *)
Definition sendFreshNotification (e : Edge) (pair : string) : Edge :=
  let '(e, sends, _) := BroadcastForPair e pair (PFresh pair) in
  set_counts e (totalRejectedPairs e) (totalStaleSent e) (wrap 64 (totalFreshSent e + zlen sends)) (edge_totalRecv e) (totalKrxRecv e).
Definition sendStaleNotification (e : Edge) (pair : string) (threshold : Z) : Edge :=
  let '(e, sends, _) := BroadcastForPair e pair (PStale pair (Z.quot threshold ns_per_sec)) in
  set_counts e (totalRejectedPairs e) (wrap 64 (totalStaleSent e + zlen sends)) (totalFreshSent e) (edge_totalRecv e) (totalKrxRecv e).

(** The pair of an upstream quote is allowed and alive. *)
Definition note_quote (e : Edge) (pair : string) (now : Z) : Edge :=
  let e := set_validator e ((fun v => Validator_Add v [pair]) <$> ed_validator e) in
  match ed_live e with
  | None => e
  | Some l =>
      let '(l, became) := Liveness_Update l pair now in
      let e := set_live e (Some l) in
      if became then sendFreshNotification e pair else e
  end.
(** One message of [consumeQuoteOnce] and of [consumeCustomerQuoteOnce]. *)
Definition consumeQuote (e : Edge) (q : pbQuote) (now : Z) : Edge :=
  match encodeQuoteVariants q with
  | None => e
  | Some (v1, v2) =>
      let profKey := pq_Channel q +:+ "." +:+ pq_Site q +:+ "." +:+ pq_Tier q in
      (SendByProfileV (note_quote e (pq_Pair q) now) profKey (pq_Pair q) v1 v2).1.1
  end.
Definition consumeCustomerQuote (e : Edge) (q : pbQuote) (now : Z) : Edge :=
  match encodeQuoteVariants q with
  | None => e
  | Some (v1, v2) => (SendByCustomerIDV (note_quote e (pq_Pair q) now) (pq_CustomerId q) (pq_Pair q) (pq_Source q) v1 v2).1.1
  end.
Definition consumeTick (json_valid : list byte -> bool) (probe : list byte -> option legacyProbe) (legacy : bool) (e : Edge) (t : pbTick) : Edge :=
  let e := set_counts e (totalRejectedPairs e) (totalStaleSent e) (totalFreshSent e) (incr64 (edge_totalRecv e)) (totalKrxRecv e) in
  match (if legacy then encodeTickLegacyJSON json_valid probe t else Some (PTick t)) with
  | Some p => (Broadcast e p).1.1
  | None => e
  end.
Definition consumeKrx (json_raw_ok : list byte -> bool) (e : Edge) (ev : KrxEvent) : Edge :=
  let e := set_counts e (totalRejectedPairs e) (totalStaleSent e) (totalFreshSent e) (edge_totalRecv e) (incr64 (totalKrxRecv e)) in
  let '(v1, v2) := encodeKrxVariants json_raw_ok ev in (BroadcastBySymbolV e (kx_Symbol ev) v1 v2).1.1.
(** One tick of the scanner. *)
Definition stale_scan (e : Edge) (now threshold : Z) : Edge :=
  match ed_live e with
  | Some l =>
      if threshold <=? 0 then e
      else let '(l, newly) := ScanForStale liter l now threshold in
           fold_left (fun e pair => sendStaleNotification e pair threshold) newly (set_live e (Some l))
  | None => e
  end.

(** ** Control messages *)
Record controlRequest := mkControl { ct_Type : string; ct_Symbols : list string; ct_Pairs : list string }.
Fixpoint dedup (seen : gset string) (l : list string) : list string :=
  match l with [] => [] | v :: l => if decide (v ∈ seen) then dedup seen l else v :: dedup ({[v]} ∪ seen) l end.
Definition items (c : controlRequest) : list string :=
  match ct_Pairs c, ct_Symbols c with
  | [], symbols => symbols
  | pairs, [] => pairs
  | pairs, symbols => dedup ∅ (symbols ++ pairs)
  end.

(** The verdict on one pair. *)
Definition gate_one (e : Edge) (allowed : option (list string)) (p : string) : bool :=
  if decide (p = "") then false
  else if bool_decide (is_Some (c ← ed_catalog e; Route c p)) then true
  else if negb (from_option (fun v => IsAllowed v p) true (ed_validator e)) then false
  else match allowed with Some l => bool_decide (p ∈ l) | None => true end.
Definition gateSubscribe (e : Edge) (s : Subscriber) (pairs : list string) : list string * list string :=
  let allowed := if decide (su_customerID s = "") then None else pol ← ed_policy e; AllowedFor pol (su_customerID s) in
  (filter (fun p => gate_one e allowed p = true) pairs, filter (fun p => gate_one e allowed p = false) pairs).

(** A reply is dropped when the queue is full. *)
Definition reply (e : Edge) (id : Z) (p : Payload) : Edge :=
  match ed_objs e !! id with Some s => set_objs e (<[id := fst (Send s p)]> (ed_objs e)) | None => e end.
Definition echo (e : Edge) (id : Z) : Edge :=
  match ed_objs e !! id with Some s => reply e id (PEcho (SubscribedPairs s)) | None => e end.

(** [None]: the data is not JSON of this shape. *)
Definition handleControlMessage (e : Edge) (id : Z) (req : option controlRequest) : Edge :=
  match req, ed_objs e !! id with
  | None, _ => reply e id (PError "bad_request")
  | _, None => e
  | Some req, Some s =>
      if bool_decide (ct_Type req = "subscribe") then
        let '(accepted, rejected) := gateSubscribe e s (items req) in
        let e := set_objs e (<[id := SubscribePairs s accepted]> (ed_objs e)) in
        let e := match rejected with
                 | [] => e
                 | _ => reply (set_counts e (wrap 64 (totalRejectedPairs e + zlen rejected)) (totalStaleSent e) (totalFreshSent e)
                                 (edge_totalRecv e) (totalKrxRecv e)) id (PReject rejected)
                 end in
        echo e id
      else if bool_decide (ct_Type req = "unsubscribe") then
        echo (set_objs e (<[id := UnsubscribePairs s (items req)]> (ed_objs e))) id
      else reply e id (PError "unknown_type")
  end.

(** ** Connections *)
Definition parse_sources (src : string) : list string :=
  let raw := GoStrings.TrimSpace src in
  if decide (raw = "") then [] else filter (fun v => v <> "") (map GoStrings.TrimSpace (Split raw ","%char)).
Definition parse_ev (s : string) : Z := match Atoi s with (v, true) => if 0 <=? v then v else 0 | _ => 0 end.

(** The identity of a request and what it asks for; [None]: refused as
    unauthorised. *)
Definition new_subscriber (e : Edge) (usid profile query_profile src ev : string) (customerStream : bool) (queueSize : Z) : option Subscriber :=
  if decide (usid = "") then None
  else
    let profileKey := if decide (profile = "") then query_profile else profile in
    let customerID :=
      if negb (bool_decide (profileKey = "")) &&
         ((customerStream && bool_decide (is_Some (ed_mgr e))) || bool_decide (is_Some (ed_policy e)))
      then usid else "" in
    Some (NewSubscriber profileKey customerID (parse_sources src) (parse_ev ev) queueSize).
(** After the upgrade the handler adds the connection, then announces it. *)
Definition accept (e : Edge) (s : Subscriber) : Edge * Z :=
  let id := incr64 (ed_nextID e) in
  (mkEdge (<[id := s]> (ed_objs e)) ({[id]} ∪ ed_subs e) id (ed_sent e) (ed_dropped e) (ed_validator e) (ed_catalog e) (ed_policy e)
     (ed_mgr e) (ed_live e) (totalRejectedPairs e) (totalStaleSent e) (totalFreshSent e) (edge_totalRecv e) (totalKrxRecv e), id).
Definition announce (e : Edge) (s : Subscriber) (sources : list string) : Edge :=
  if decide (su_customerID s = "") then e
  else match ed_mgr e with
       | Some m => set_mgr e (Some (EdgeCustomers.Register siter m (su_customerID s) (su_profileKey s) sources))
       | None => e
       end.
Definition subscribeHandler (e : Edge) (usid profile query_profile src ev : string) (customerStream : bool) (queueSize : Z) : Edge * option Z :=
  match new_subscriber e usid profile query_profile src ev customerStream queueSize with
  | None => (e, None)
  | Some s => let '(e, id) := accept e s in (announce e s (parse_sources src), Some id)
  end.

(** One message of the write loop; a failed write closes. *)
Definition write_next (e : Edge) (id : Z) (ok : bool) : Edge * option Payload :=
  match ed_objs e !! id with
  | Some s =>
      if su_closed s then (e, None)
      else match su_send s with
           | [] => (e, None)
           | p :: q => let e := set_objs e (<[id := set_send s q]> (ed_objs e)) in
                       if ok then (e, Some p) else (Close e id, None)
           end
  | None => (e, None)
  end.

(** ** Operator endpoints *)
Definition adminDisallowPair (e : Edge) (pair : string) : option (Edge * Z) :=
  if decide (pair = "") then None
  else
    let e := set_validator e ((fun v => Validator_Remove v [pair]) <$> ed_validator e) in
    let '(e, affected) := RevokePairFromAll e pair in
    Some ((BroadcastForPair e pair (PRevoked pair)).1.1, affected).
Definition adminAllowPair (e : Edge) (pair : string) : option Edge :=
  if decide (pair = "") then None
  else Some (set_validator e ((fun v => Validator_Add v [pair]) <$> ed_validator e)).
End server.

(** * Backpressure

    Unlike the price service's check the entry of a queue seen for the first time
    is published with 0 and set by a second step. *)
Definition gate_publish (b : backpressure) (ev : BackpressureEvent) : backpressure * bool :=
  let k := (bp_Kind ev, bp_SubID ev) in
  match bg_gate b !! k with None => (set_gate b k 0, true) | Some _ => (b, false) end.
Definition gate_first (b : backpressure) (ev : BackpressureEvent) : backpressure :=
  recordBackpressureEvent (set_gate b (bp_Kind ev, bp_SubID ev) (UnixNano (bp_TS ev))) ev.
Definition edge_checkBackpressure (b : backpressure) (ev : BackpressureEvent) : backpressure :=
  if negb (under_pressure (bp_Depth ev) (bp_Cap ev)) then b
  else match gate_publish b ev with
       | (b, true) => gate_first b ev
       | (b, false) =>
           let last := default 0 (bg_gate b !! (bp_Kind ev, bp_SubID ev)) in
           if gate_open last ev then fst (gate_cas b last ev) else b
       end.
