(* ===== verification/EdgePriceLaws.v ===== *)
(** Theorems about the edge: quotes reach only the connections they are addressed
    to, whatever clients, operators and upstream streams do; notices about quiet
    pairs alternate; and the ways in which its guards are passed by. *)

From Stdlib Require Import ZArith QArith Lia.
From S2P Require Import Prelude GoStrings Strconv Float64 Session Dates QuoteID Pricing Bars Best Algo QuoteValidation Fanout Hub HubLaws.
From S2P Require Import EdgeCustomers EdgePrice.
Local Open Scope Z_scope.
Local Open Scope wtg_scope.

(** * Addressing *)

(** What a connection is for: fixed when it is made. *)
Definition attrs (s : Subscriber) : string * string * gset string * Z := (su_profileKey s, su_customerID s, su_sources s, su_ev s).
Definition quote_profile (q : pbQuote) : string := pq_Channel q +:+ "." +:+ pq_Site q +:+ "." +:+ pq_Tier q.

(** A quote of the connection's profile, without a choice of sources; or one of its
    customer, from the sources chosen. *)
Definition addressed (s : Subscriber) (q : pbQuote) : Prop :=
  (su_profileKey s = quote_profile q /\ su_sources s = ∅) \/
  (su_customerID s <> "" /\ su_customerID s = pq_CustomerId q /\ MatchesSource s (pq_Source q) = true).
Definition addressed_payload (s : Subscriber) (p : Payload) : Prop :=
  match p with PQuote q => addressed s q | PQuoteV2 q => addressed s q /\ 2 <= su_ev s | _ => True end.
Definition all_addressed (e : Edge) : Prop := map_Forall (fun _ s => Forall (addressed_payload s) (su_send s)) (ed_objs e).

Lemma addressed_attrs s s' p : attrs s = attrs s' -> addressed_payload s p -> addressed_payload s' p.
Proof.
  unfold attrs. intros [= E1 E2 E3 E4]. destruct p; simpl; try done; unfold addressed, MatchesSource;
    rewrite <-?E1, <-?E2, <-?E3, <-?E4; done.
Qed.

(** [s'] is [s] with at most [p] added to its queue, and messages taken out. *)
Definition evolves (P : Payload -> Prop) (s s' : Subscriber) : Prop :=
  attrs s' = attrs s /\ forall p, p ∈ su_send s' -> p ∈ su_send s \/ P p.
Lemma evolves_refl P s : evolves P s s.
Proof. split; auto. Qed.
Lemma evolves_ok P s s' : evolves P s s' -> (forall p, P p -> addressed_payload s p) ->
  Forall (addressed_payload s) (su_send s) -> Forall (addressed_payload s') (su_send s').
Proof.
  intros [E H] HP F. rewrite Forall_forall in *. intros p Hp. apply (addressed_attrs s); [done|].
  destruct (H p Hp); auto.
Qed.

Lemma all_addressed_insert e id s s' P : all_addressed e -> ed_objs e !! id = Some s -> evolves P s s' ->
  (forall p, P p -> addressed_payload s p) -> all_addressed (set_objs e (<[id := s']> (ed_objs e))).
Proof.
  intros H Hi Ev HP i x. simpl. destruct (decide (i = id)) as [->|N].
  - rewrite lookup_insert_eq. intros [= <-]. eapply evolves_ok; eauto.
  - rewrite lookup_insert_ne by done. apply H.
Qed.

Section laws.
Context (iter : gset Z -> list Z) (siter : gset string -> list string) (liter : gmap string Z -> list (string * Z)).
#[local] Abbreviation Close := (Close siter).
#[local] Abbreviation send_one := (send_one siter).
#[local] Abbreviation send_all := (send_all siter).

Lemma Close_objs e id : ed_objs (Close e id) = ed_objs e \/
  exists s, ed_objs e !! id = Some s /\ ed_objs (Close e id) = <[id := set_closed s]> (ed_objs e).
Proof.
  unfold EdgePrice.Close. destruct (ed_objs e !! id) as [s|] eqn:E; [|by left]. destruct (su_closed s); [by left|].
  right. exists s. split; [done|]. case_decide; [done|]. simpl. by destruct (ed_mgr e).
Qed.
Lemma all_addressed_objs e e' : ed_objs e' = ed_objs e -> all_addressed e -> all_addressed e'.
Proof. unfold all_addressed. by intros ->. Qed.
Lemma Close_addressed e id : all_addressed e -> all_addressed (Close e id).
Proof.
  intros H. destruct (Close_objs e id) as [E|(s & Hs & E)]; [by apply (all_addressed_objs e)|].
  apply (all_addressed_objs (set_objs e (<[id := set_closed s]> (ed_objs e)))); [done|].
  apply (all_addressed_insert e id s _ (fun _ => False)); [done|done| |done]. split; [done|]. by left.
Qed.
Lemma Close_attrs e id i : attrs <$> ed_objs (Close e id) !! i = attrs <$> ed_objs e !! i.
Proof.
  destruct (Close_objs e id) as [->|(s & Hs & ->)]; [done|]. destruct (decide (i = id)) as [->|N].
  - rewrite lookup_insert_eq, Hs. done.
  - by rewrite lookup_insert_ne.
Qed.

Definition pay_ok (pay : Subscriber -> Payload) (s : Subscriber) : Prop := forall s', attrs s' = attrs s -> addressed_payload s' (pay s').

Lemma send_one_spec b pay e id e' d : send_one b pay e id = (e', d) -> all_addressed e ->
  (forall s, ed_objs e !! id = Some s -> pay_ok pay s) ->
  all_addressed e' /\ forall i, attrs <$> ed_objs e' !! i = attrs <$> ed_objs e !! i.
Proof.
  intros E H P. unfold EdgePrice.send_one in E. destruct (ed_objs e !! id) as [s|] eqn:Es; [|by injection E as <- <-].
  specialize (P s eq_refl). unfold Send in E. destruct (su_closed s); [by injection E as <- <-|].
  destruct (length (su_send s) <? su_cap s)%nat.
  - injection E as <- <-. split.
    + apply (all_addressed_insert e id s _ (fun p => p = pay s)); [done|done| |by intros p ->; apply P].
      split; [done|]. simpl. intros p. rewrite elem_of_app, list_elem_of_singleton. tauto.
    + intros i. simpl. destruct (decide (i = id)) as [->|N]; [by rewrite lookup_insert_eq, Es|by rewrite lookup_insert_ne].
  - injection E as <- <-. destruct b; [|done]. split; [by apply Close_addressed|apply Close_attrs].
Qed.

Lemma send_all_addressed b pay ids e : all_addressed e ->
  (forall id s, id ∈ ids -> ed_objs e !! id = Some s -> pay_ok pay s) -> all_addressed (send_all b pay e ids).1.1.
Proof.
  revert e. induction ids as [|id ids IH]; intros e H P; simpl; [done|].
  destruct (send_one b pay e id) as [e1 d] eqn:E.
  destruct (send_one_spec _ _ _ _ _ _ E H) as [H1 A1]; [intros s Hs; apply (P id s); [by left|done]|].
  specialize (IH e1 H1). destruct (send_all b pay e1 ids) as [[e2 sends] drops]. simpl in *.
  assert (all_addressed e2) as H2.
  { apply IH. intros i s Hi Hs. specialize (A1 i). rewrite Hs in A1. destruct (ed_objs e !! i) as [s0|] eqn:E0; [|done].
    simpl in A1. injection A1 as A1'. assert (attrs s = attrs s0) as A2 by (unfold attrs; congruence).
    intros s' Es'. apply (P i s0); [by right|done|congruence]. }
  by destruct d.
Qed.

Lemma selected_in e sel id s : id ∈ selected iter e sel -> ed_objs e !! id = Some s -> sel s = true.
Proof. intros [H _]%list_elem_of_filter E. by rewrite E in H. Qed.

(** A fan-out of [pay] to the connections [sel] chooses. *)
Lemma fanout_addressed b pay sel e : all_addressed e -> (forall s, sel s = true -> pay_ok pay s) ->
  all_addressed (send_all b pay e (selected iter e sel)).1.1.
Proof. intros H P. apply send_all_addressed; [done|]. intros id s Hi Hs. apply P. by eapply selected_in. Qed.

Lemma count_totals_addressed r : all_addressed r.1.1 -> all_addressed (count_totals r).1.1.
Proof. by destruct r as [[e sends] drops]. Qed.

Lemma versioned_ok v1 v2 s : addressed_payload s v1 ->
  (forall p, v2 = Some p -> 2 <= su_ev s -> addressed_payload s p) -> pay_ok (versioned v1 v2) s.
Proof.
  intros H1 H2 s' E. apply (addressed_attrs s); [done|]. unfold attrs in E. injection E as _ _ _ Ev. unfold versioned.
  destruct v2 as [p|]; [|done]. rewrite Ev. destruct (Z.leb_spec 2 (su_ev s)); auto.
Qed.

Lemma quote_variants_ok q v1 v2 s : encodeQuoteVariants q = Some (v1, v2) -> addressed s q -> pay_ok (versioned v1 v2) s.
Proof.
  unfold encodeQuoteVariants, encodeCustomerQuoteJSON, encodeCustomerQuoteV2. destruct (quote_marshals q); [|done].
  intros [= <- <-] A.
  apply versioned_ok; [done|]. intros p [= <-] L. done.
Qed.

(** Notices are for everybody. *)
Lemma notice_ok p s : (forall s, addressed_payload s p) -> pay_ok (fun _ => p) s.
Proof. by intros H s' _. Qed.

Lemma for_pair_addressed e pr p : (forall s, addressed_payload s p) -> all_addressed e ->
  all_addressed (BroadcastForPair iter siter e pr p).1.1.
Proof.
  intros H A. unfold BroadcastForPair. case_decide; [done|]. apply fanout_addressed; [done|]. intros s _. by apply notice_ok.
Qed.
Lemma fresh_addressed e pr : all_addressed e -> all_addressed (sendFreshNotification iter siter e pr).
Proof.
  intros A. unfold sendFreshNotification. pose proof (for_pair_addressed e pr (PFresh pr) ltac:(done) A) as H.
  by destruct (BroadcastForPair _ _ _ _ _) as [[e' ?] ?].
Qed.
Lemma stale_addressed e pr thr : all_addressed e -> all_addressed (sendStaleNotification iter siter e pr thr).
Proof.
  intros A. unfold sendStaleNotification. pose proof (for_pair_addressed e pr (PStale pr (Z.quot thr ns_per_sec)) ltac:(done) A) as H.
  by destruct (BroadcastForPair _ _ _ _ _) as [[e' ?] ?].
Qed.
Lemma note_quote_addressed e pr now : all_addressed e -> all_addressed (note_quote iter siter e pr now).
Proof.
  intros A. unfold note_quote. simpl. destruct (ed_live e) as [l|]; [|done].
  destruct (Liveness_Update l pr now) as [l' []]; [|done]. by apply fresh_addressed.
Qed.

(** ** Everything that can happen *)
Context (json_valid json_raw_ok : list byte -> bool) (probe : list byte -> option legacyProbe).

Inductive op :=
| OAccept (usid profile query_profile src ev : string) (customerStream : bool) (queueSize : Z)
| OAnnounce (id : Z) (sources : list string)
| OControl (id : Z) (req : option controlRequest)
| OQuote (q : pbQuote) (now : Z) | OCustomerQuote (q : pbQuote) (now : Z)
| OTick (legacy : bool) (t : pbTick) | OKrx (ev : KrxEvent)
| OScan (now threshold : Z) | OWrite (id : Z) (ok : bool) | OClose (id : Z) | OCloseAll
| ODisallow (pair : string) | OAllow (pair : string).

(** The new state and what was written to a client. *)
Definition exec1 (e : Edge) (o : op) : Edge * list (Z * Payload) :=
  match o with
  | OAccept usid profile qp src ev cs size =>
      (match new_subscriber e usid profile qp src ev cs size with Some s => fst (accept e s) | None => e end, [])
  | OAnnounce id sources => (match ed_objs e !! id with Some s => announce siter e s sources | None => e end, [])
  | OControl id req => (handleControlMessage e id req, [])
  | OQuote q now => (consumeQuote iter siter e q now, [])
  | OCustomerQuote q now => (consumeCustomerQuote iter siter e q now, [])
  | OTick legacy t => (consumeTick iter siter json_valid probe legacy e t, [])
  | OKrx ev => (consumeKrx iter siter json_raw_ok e ev, [])
  | OScan now threshold => (stale_scan iter siter liter e now threshold, [])
  | OWrite id ok => let '(e, p) := write_next siter e id ok in (e, match p with Some p => [(id, p)] | None => [] end)
  | OClose id => (EdgePrice.Close siter e id, [])
  | OCloseAll => (CloseAll iter siter e, [])
  | ODisallow pr => (match adminDisallowPair iter siter e pr with Some (e, _) => e | None => e end, [])
  | OAllow pr => (default e (adminAllowPair e pr), [])
  end.
Fixpoint exec (e : Edge) (os : list op) : Edge * list (Z * Payload) :=
  match os with
  | [] => (e, [])
  | o :: os => let '(e, w) := exec1 e o in let '(e, w') := exec e os in (e, w ++ w')
  end.

Lemma consumeQuote_addressed e q now : all_addressed e -> all_addressed (consumeQuote iter siter e q now).
Proof.
  intros A. unfold consumeQuote. destruct (encodeQuoteVariants q) as [[v1 v2]|] eqn:E; [|done].
  unfold SendByProfileV. case_decide as D; [by apply note_quote_addressed|].
  apply count_totals_addressed, fanout_addressed; [by apply note_quote_addressed|].
  intros s [[H1 H2]%andb_true_iff _]%andb_true_iff. apply (quote_variants_ok q v1 v2 s E). left.
  apply bool_decide_eq_true in H1. unfold MatchesSource in H2. rewrite decide_True in H2 by done.
  by apply bool_decide_eq_true in H2.
Qed.
Lemma consumeCustomerQuote_addressed e q now : all_addressed e -> all_addressed (consumeCustomerQuote iter siter e q now).
Proof.
  intros A. unfold consumeCustomerQuote. destruct (encodeQuoteVariants q) as [[v1 v2]|] eqn:E; [|done].
  unfold SendByCustomerIDV. case_decide as D; [by apply note_quote_addressed|].
  apply count_totals_addressed, fanout_addressed; [by apply note_quote_addressed|].
  intros s [[H1 H2]%andb_true_iff _]%andb_true_iff. apply (quote_variants_ok q v1 v2 s E). right.
  apply bool_decide_eq_true in H1. split; [by rewrite H1|done].
Qed.
Lemma consumeTick_addressed lg e t : all_addressed e -> all_addressed (consumeTick iter siter json_valid probe lg e t).
Proof.
  intros A. unfold consumeTick. destruct (if lg then encodeTickLegacyJSON json_valid probe t else Some (PTick t)) as [p|] eqn:E; [|done].
  apply count_totals_addressed, fanout_addressed; [done|]. intros s _. apply notice_ok. intros s0.
  destruct lg; [|by injection E as <-]. unfold encodeTickLegacyJSON in E. destruct (_ || _); [done|].
  destruct (probe _); [|done]. by injection E as <-.
Qed.
Lemma consumeKrx_addressed e ev : all_addressed e -> all_addressed (consumeKrx iter siter json_raw_ok e ev).
Proof.
  intros A. unfold consumeKrx, BroadcastBySymbolV. simpl. case_decide; [done|].
  apply count_totals_addressed, fanout_addressed; [done|]. intros s _. apply versioned_ok; [done|].
  intros p. destruct (json_raw_ok _); [|done]. by intros [= <-] _.
Qed.
Lemma reply_addressed e id p : (forall s, addressed_payload s p) -> all_addressed e -> all_addressed (reply e id p).
Proof.
  intros H A. unfold reply. destruct (ed_objs e !! id) as [s|] eqn:E; [|done].
  apply (all_addressed_insert e id s _ (fun x => x = p)); [done|done| |by intros x ->].
  unfold Send. destruct (su_closed s); [apply evolves_refl|]. destruct (_ <? _)%nat; [|apply evolves_refl].
  split; [done|]. simpl. intros x. rewrite elem_of_app, list_elem_of_singleton. tauto.
Qed.
Lemma echo_addressed e id : all_addressed e -> all_addressed (echo e id).
Proof. intros A. unfold echo. destruct (ed_objs e !! id); [|done]. by apply reply_addressed. Qed.

Lemma set_pairs_addressed e id s ps : all_addressed e -> ed_objs e !! id = Some s ->
  all_addressed (set_objs e (<[id := set_pairs s ps]> (ed_objs e))).
Proof. intros A E. apply (all_addressed_insert e id s _ (fun _ => False)); [done|done| |done]. split; [done|]. by left. Qed.
Lemma SubscribePairs_eq s ps : exists x, SubscribePairs s ps = set_pairs s x.
Proof. destruct ps; simpl; [exists (su_pairs s); by destruct s|eauto]. Qed.
Lemma UnsubscribePairs_eq s ps : exists x, UnsubscribePairs s ps = set_pairs s x.
Proof. unfold UnsubscribePairs. destruct ps, (su_pairs s) eqn:E; eauto; exists (su_pairs s); by destruct s. Qed.

Lemma control_addressed e id req : all_addressed e -> all_addressed (handleControlMessage e id req).
Proof.
  intros A. unfold handleControlMessage. destruct req as [req|]; [|by apply reply_addressed].
  destruct (ed_objs e !! id) as [s|] eqn:E; [|done]. case_bool_decide.
  - destruct (gateSubscribe e s (items req)) as [acc rej]. apply echo_addressed.
    destruct (SubscribePairs_eq s acc) as [x ->]. pose proof (set_pairs_addressed e id s x A E) as A1.
    destruct rej; [done|]. by apply reply_addressed.
  - case_bool_decide; [|by apply reply_addressed]. apply echo_addressed.
    destruct (UnsubscribePairs_eq s (items req)) as [x ->]. by apply set_pairs_addressed.
Qed.

Lemma revoke_addressed pr ids e : all_addressed e -> all_addressed (revoke_all e pr ids).1.
Proof.
  revert e. induction ids as [|id ids IH]; intros e A; cbn [revoke_all]; [done|].
  destruct (ed_objs e !! id) as [s|] eqn:E; [|by apply IH].
  case_bool_decide; [|by apply IH]. destruct (UnsubscribePairs_eq s [pr]) as [x ->].
  specialize (IH _ (set_pairs_addressed e id s x A E)). by destruct (revoke_all _ pr ids).
Qed.
Lemma disallow_addressed e pr e' n : adminDisallowPair iter siter e pr = Some (e', n) -> all_addressed e -> all_addressed e'.
Proof.
  unfold adminDisallowPair, RevokePairFromAll. case_decide; [done|].
  intros E A. set (e0 := set_validator e _) in E. pose proof (revoke_addressed pr (iter (ed_subs e0)) e0 A) as A1.
  destruct (revoke_all e0 pr (iter (ed_subs e0))) as [e1 k]. injection E as <- <-. by apply for_pair_addressed.
Qed.
Lemma scan_addressed e now thr : all_addressed e -> all_addressed (stale_scan iter siter liter e now thr).
Proof.
  intros A. unfold stale_scan. destruct (ed_live e) as [l|]; [|done]. destruct (thr <=? 0); [done|].
  destruct (ScanForStale liter l now thr) as [l' newly]. assert (all_addressed (set_live e (Some l'))) as A1 by done.
  revert A1. generalize (set_live e (Some l')). induction newly as [|pr newly IH]; intros e1 A1; simpl; [done|].
  apply IH. by apply stale_addressed.
Qed.
Lemma closeAll_addressed e : all_addressed e -> all_addressed (CloseAll iter siter e).
Proof.
  unfold CloseAll. generalize (iter (ed_subs e)). intros l. revert e.
  induction l as [|id l IH]; intros e A; simpl; [done|]. apply IH. by apply Close_addressed.
Qed.
Lemma write_addressed e id ok e' p : write_next siter e id ok = (e', p) -> all_addressed e -> all_addressed e' /\
  forall x, p = Some x -> exists s, ed_objs e !! id = Some s /\ addressed_payload s x.
Proof.
  unfold write_next. intros E A. destruct (ed_objs e !! id) as [s|] eqn:Es; [|by injection E as <- <-].
  destruct (su_closed s); [by injection E as <- <-|]. destruct (su_send s) as [|x q] eqn:Eq; [by injection E as <- <-|].
  assert (all_addressed (set_objs e (<[id := set_send s q]> (ed_objs e)))) as A1.
  { apply (all_addressed_insert e id s _ (fun _ => False)); [done|done| |done]. split; [done|]. simpl. rewrite Eq. intros p' H. left. by right. }
  destruct ok; injection E as <- <-; split; [done| |by apply Close_addressed|done].
  intros y [= <-]. exists s. split; [done|]. pose proof (A id s Es) as F. simpl in F. rewrite Eq in F. by apply Forall_cons in F as [F _].
Qed.
Lemma accept_addressed e s : su_send s = [] -> all_addressed e -> all_addressed (fst (accept e s)).
Proof. intros Hs A. unfold all_addressed, accept. simpl. apply map_Forall_insert_2; [rewrite Hs; constructor|done]. Qed.

Lemma exec1_addressed e o : all_addressed e -> all_addressed (fst (exec1 e o)).
Proof.
  intros A. destruct o; simpl; auto using control_addressed, consumeQuote_addressed, consumeCustomerQuote_addressed,
    consumeTick_addressed, consumeKrx_addressed, scan_addressed, Close_addressed, closeAll_addressed.
  - destruct (new_subscriber _ _ _ _ _ _ _ _) as [s|] eqn:E; [|done]. apply accept_addressed; [|done].
    unfold new_subscriber in E. case_decide; [done|]. by injection E as <-.
  - destruct (ed_objs e !! id) as [s|]; [|done]. unfold announce. case_decide; [done|]. by destruct (ed_mgr e).
  - destruct (write_next siter e id ok) as [e1 p] eqn:E. by apply (write_addressed _ _ _ _ _ E).
  - destruct (adminDisallowPair iter siter e pair) as [[e1 n]|] eqn:E; [|done]. by apply (disallow_addressed _ _ _ _ E).
  - unfold adminAllowPair. by case_decide.
Qed.

Lemma exec_addressed os e : all_addressed e -> all_addressed (fst (exec e os)).
Proof.
  revert e. induction os as [|o os IH]; intros e A; simpl; [done|]. pose proof (exec1_addressed e o A) as A1.
  destruct (exec1 e o) as [e1 w]. specialize (IH e1 A1). by destruct (exec e1 os).
Qed.
End laws.

(** C27. No quote goes to a connection it is not for: over every sequence of
    connections, control messages, upstream quotes and ticks, operator calls,
    notices, writes and closes, whatever the iteration orders, a quote written to a
    client is one of the connection's profile (and the connection chose no
    sources), or one of its customer from the sources it chose; and the second
    envelope version is written only to a connection that asked for it. *)
Theorem quotes_addressed (iter : gset Z -> list Z) (siter : gset string -> list string)
    (liter : gmap string Z -> list (string * Z)) (json_valid json_raw_ok : list byte -> bool)
    (probe : list byte -> option legacyProbe) (e0 : Edge) (os : list op) (o : op) (id : Z) (p : Payload) :
  ed_objs e0 = ∅ ->
  let e := fst (exec iter siter liter json_valid json_raw_ok probe e0 os) in
  (id, p) ∈ snd (exec1 iter siter liter json_valid json_raw_ok probe e o) ->
  exists s, ed_objs e !! id = Some s /\
    match p with
    | PQuote q => addressed s q
    | PQuoteV2 q => addressed s q /\ 2 <= su_ev s
    | _ => True
    end.
Proof.
  intros H0 e W. assert (all_addressed e) as A
    by (apply exec_addressed; unfold all_addressed; rewrite H0; apply map_Forall_empty).
  destruct o; simpl in W; try (by apply elem_of_nil in W).
  destruct (write_next siter e id0 ok) as [e1 x] eqn:E. destruct (write_addressed siter _ _ _ _ _ E A) as [_ H].
  destruct x as [x|]; [|by apply elem_of_nil in W]. apply list_elem_of_singleton in W as [= -> ->].
  destruct (H _ eq_refl) as (s & Hs & Ha). exists s. by destruct x.
Qed.

Definition ex_q (cid src : string) : pbQuote :=
  mkPbQuote "USD/KRW" "WEB" "HQ" "VIP" "SPOT" (f_of_Z 1300) (f_of_Z 1302) 7 f0 f0 f0 f0 1 "" src 0 cid.
Definition ex_edge : Edge := set_mgr (NewServer ["USD/KRW"] 0) (Some (newCustomerRegManager 0)).
Definition ex_ops : list op :=
  [OAccept "C1" "WEB.HQ.VIP" "" "SMB" "2" true 0; OAccept "C2" "WEB.HQ.VIP" "" "" "" true 0;
   OQuote (ex_q "" "") 5; OCustomerQuote (ex_q "C1" "SMB") 6].
#[local] Abbreviation ex_step := (exec1 elements elements map_to_list (fun _ => true) (fun _ => true) (fun _ => None)).
#[local] Abbreviation ex_run := (exec elements elements map_to_list (fun _ => true) (fun _ => true) (fun _ => None)).

Lemma quotes_addressed_witness :
  snd (ex_step (fst (ex_run ex_edge ex_ops)) (OWrite 1 true)) = [(1, PQuoteV2 (ex_q "C1" "SMB"))] /\
  snd (ex_step (fst (ex_run ex_edge ex_ops)) (OWrite 2 true)) = [(2, PQuote (ex_q "" ""))] /\
  exists s, ed_objs (fst (ex_run ex_edge ex_ops)) !! 1 = Some s /\ addressed s (ex_q "C1" "SMB") /\ 2 <= su_ev s.
Proof.
  assert (snd (ex_step (fst (ex_run ex_edge ex_ops)) (OWrite 1 true)) = [(1, PQuoteV2 (ex_q "C1" "SMB"))]) as E
    by (vm_compute; reflexivity).
  split; [exact E|]. split; [vm_compute; reflexivity|].
  apply (quotes_addressed elements elements map_to_list (fun _ => true) (fun _ => true) (fun _ => None) ex_edge ex_ops (OWrite 1 true)
    1 (PQuoteV2 (ex_q "C1" "SMB"))); [reflexivity|].
  rewrite E. by left.
Defined.

(** The members of an encoding, those of the nested data included. *)
Definition member (l : list (string * jval)) (k : string) : option jval := snd <$> List.find (fun e => bool_decide (fst e = k)) l.
Definition member_v2 (l : list (string * jval)) (k : string) : option jval :=
  match member l "data" with Some (JObject d) => member d k | _ => None end.

Lemma member_app l l' k : member (l ++ l') k = match member l k with Some v => Some v | None => member l' k end.
Proof. unfold member. induction l as [|x l IH]; simpl; [done|]. by case_bool_decide. Qed.
Lemma member_omit_f k x k' : member (omit_f k x) k' = if decide (k = k') then (if x ==f f0 then None else Some (JFloat x)) else None.
Proof. unfold omit_f, member. destruct (x ==f f0); simpl; [by case_decide|]. case_bool_decide; by case_decide. Qed.
Lemma member_omit_s k x k' : member (omit_s k x) k' = if decide (k = k') then (if decide (x = "") then None else Some (JString x)) else None.
Proof. unfold omit_s, member. destruct (decide (x = "")); simpl; [by case_decide|]. case_bool_decide; by case_decide. Qed.
Lemma member_omit_z k x k' : member (omit_z k x) k' = if decide (k = k') then (if x =? 0 then None else Some (JInt x)) else None.
Proof. unfold omit_z, member. destruct (x =? 0); simpl; [by case_decide|]. case_bool_decide; by case_decide. Qed.

Lemma member_cons x k l : member (x :: l) k = if decide (fst x = k) then Some (snd x) else member l k.
Proof. unfold member. simpl. case_bool_decide; by case_decide. Qed.
Lemma member_v2_data a b c d e x k :
  member_v2 [("ev", a); ("type", b); ("asset_class", c); ("symbol", d); ("ts_unix_nano", e); ("data", JObject x)] k = member x k.
Proof. reflexivity. Qed.
Ltac members := repeat rewrite ?member_cons, ?member_app, ?member_omit_f, ?member_omit_s, ?member_omit_z; vm_compute; reflexivity.

(** The two encodings of a quote say the same: every member of the legacy one but
    its discriminator and name of the pair is in the data, or the header, of the
    other with the same value. *)
Lemma variants_agree q l1 l2 : encodeCustomerQuoteJSON q = Some l1 -> encodeCustomerQuoteV2 q = Some l2 ->
  member l1 "pair" = member l2 "symbol" /\ member l1 "ts_unix_nano" = member l2 "ts_unix_nano" /\
  Forall (fun k => member l1 k = member_v2 l2 k)
    ["chan"; "site"; "tier"; "tenor"; "bid"; "ask"; "bid_size"; "ask_size"; "raw_bid"; "raw_ask"; "v"; "quote_id";
     "valid_until_unix_nano"; "customer_id"; "source"].
Proof.
  unfold encodeCustomerQuoteJSON, encodeCustomerQuoteV2. destruct (quote_marshals q); [|done]. intros [= <-] [= <-].
  split; [reflexivity|]. split; [members|].
  set (l1 := cons _ _). set (l2 := cons _ _).
  assert (forall k, member l1 k = member_v2 l2 k \/ k = "type" \/ k = "pair" \/ k = "ts_unix_nano") as K.
  { intros k. unfold l1, l2. rewrite member_v2_data. repeat rewrite ?member_cons, ?member_app, ?member_omit_f, ?member_omit_s, ?member_omit_z.
    cbn [fst snd]. repeat match goal with |- context [decide (?a = k)] =>
      destruct (decide (a = k)) as [<-|?]; [first [left; reflexivity|right; auto]|] end. by left. }
  clearbody l1 l2. apply Forall_forall. intros k Hk. destruct (K k) as [E|[E|[E|E]]]; [exact E| | |];
    rewrite E in Hk; exfalso; revert Hk; apply (bool_decide_unpack _); vm_compute; exact I.
Qed.

(** * Notices about quiet pairs *)
Section quiet.
Context (liter : gmap string Z -> list (string * Z)) (liter_perm : forall m, liter m ≡ₚ map_to_list m) (threshold : Z).

Inductive live_op := LQuote (pair : string) (ts : Z) | LScan (now : Z).
(** The notices of an operation: [(pair, true)] is stale, [(pair, false)] fresh. *)
Definition live_step (l : pairLiveness) (o : live_op) : pairLiveness * list (string * bool) :=
  match o with
  | LQuote pr ts => let '(l, became) := Liveness_Update l pr ts in (l, if became then [(pr, false)] else [])
  | LScan now => let '(l, newly) := ScanForStale liter l now threshold in (l, map (fun pr => (pr, true)) newly)
  end.
Fixpoint live_run (l : pairLiveness) (os : list live_op) : pairLiveness * list (string * bool) :=
  match os with
  | [] => (l, [])
  | o :: os => let '(l, n) := live_step l o in let '(l, n') := live_run l os in (l, n ++ n')
  end.

Definition notices_of (pr : string) (l : list (string * bool)) : list bool := map snd (filter (fun n => fst n = pr) l).
(** [true; false; true; ...] or the same from [false]. *)
Fixpoint alternates (b : bool) (l : list bool) : Prop :=
  match l with [] => True | x :: l => x = b /\ alternates (negb b) l end.
Definition ends (b : bool) (l : list bool) : bool := if Nat.even (length l) then b else negb b.

Lemma ends_cons b x l : ends b (x :: l) = ends (negb b) l.
Proof.
  unfold ends. cbn [length]. rewrite Nat.even_succ, <-Nat.negb_even. destruct (Nat.even (length l)); simpl; by rewrite ?negb_involutive.
Qed.
Lemma alternates_app b l l' : alternates b l -> alternates (ends b l) l' -> alternates b (l ++ l').
Proof.
  revert b. induction l as [|x l IH]; intros b; [done|]. rewrite ends_cons. intros [-> A] B. split; [done|]. by apply IH.
Qed.
Lemma ends_app b l l' : ends b (l ++ l') = ends (ends b l) l'.
Proof. unfold ends. rewrite length_app, Nat.even_add. destruct (Nat.even (length l)), (Nat.even (length l')); simpl; by rewrite ?negb_involutive. Qed.

Lemma notices_of_app pr l l' : notices_of pr (l ++ l') = notices_of pr l ++ notices_of pr l'.
Proof. unfold notices_of. by rewrite filter_app, map_app. Qed.

Definition is_stale (l : pairLiveness) (pr : string) : bool := bool_decide (pr ∈ pl_stale l).

Lemma NoDup_filter_keys {A B} (P : A * B -> Prop) `{!forall x, Decision (P x)} (l : list (A * B)) :
  NoDup (map fst l) -> NoDup (map fst (filter P l)).
Proof using.
  induction l as [|x l IH]; intros N; [done|]. apply NoDup_cons in N as [N1 N2]. rewrite filter_cons. case_decide; [|auto].
  simpl. constructor; [|auto]. intros Hx. apply N1. apply list_elem_of_fmap in Hx as (y & -> & [_ Hy]%list_elem_of_filter).
  by apply list_elem_of_fmap_2.
Qed.

(** The pairs a scan reports, each once: those not reported and silent for longer
    than the threshold. *)
Lemma scan_reports l now pr : let newly := (ScanForStale liter l now threshold).2 in NoDup newly /\
  (pr ∈ newly <-> pr ∉ pl_stale l /\ exists ts, pl_lastTS l !! pr = Some ts /\ threshold < Sub now ts).
Proof using liter_perm.
  simpl. split.
  - apply NoDup_filter_keys. rewrite liter_perm. apply NoDup_fst_map_to_list.
  - rewrite list_elem_of_fmap. setoid_rewrite list_elem_of_filter. setoid_rewrite liter_perm.
    unfold newly_stale. split.
    + intros ([p ts] & -> & [H1 H2]%andb_true_iff & H3). simpl in *. apply elem_of_map_to_list in H3. apply negb_true_iff, bool_decide_eq_false in H1.
      split; [done|]. exists ts. split; [done|]. lia.
    + intros (H1 & ts & H2 & H3). exists (pr, ts). split; [done|]. simpl. rewrite bool_decide_eq_false_2 by done.
      split; [simpl; lia|]. by apply elem_of_map_to_list.
Qed.

Lemma notices_scan pr ps : NoDup ps -> notices_of pr (map (fun p => (p, true)) ps) = if decide (pr ∈ ps) then [true] else [].
Proof using.
  intros N. clear - N. unfold notices_of. induction N as [|p ps Hp N IH]; simpl; [done|]. rewrite filter_cons. simpl.
  destruct (decide (p = pr)) as [->|Ne]; simpl; rewrite IH.
  - rewrite decide_False, decide_True by set_solver. done.
  - by rewrite (decide_ext (pr ∈ p :: ps) (pr ∈ ps)) by set_solver.
Qed.

Lemma live_step_notices l o l' n pr : live_step l o = (l', n) ->
  alternates (negb (is_stale l pr)) (notices_of pr n) /\ negb (is_stale l' pr) = ends (negb (is_stale l pr)) (notices_of pr n).
Proof using liter_perm.
  intros E. destruct o as [p ts|now]; simpl in E.
  - unfold Liveness_Update in E. destruct (decide (p = "")); [injection E as <- <-; done|].
    case_bool_decide as D; injection E as <- <-; unfold is_stale, notices_of; simpl; [rewrite filter_cons; simpl|];
      destruct (decide (p = pr)) as [->|Ne]; simpl; unfold ends; simpl;
      rewrite ?(bool_decide_ext (pr ∈ pl_stale l ∖ {[p]}) (pr ∈ pl_stale l)) by set_solver; try done.
    + rewrite (bool_decide_eq_true_2 (pr ∈ pl_stale l)), bool_decide_eq_false_2 by set_solver. done.
    + rewrite !bool_decide_eq_false_2 by set_solver. done.
  - injection E as <- <-. destruct (scan_reports l now pr) as [N R]. simpl in N, R.
    rewrite notices_scan by done. unfold is_stale. simpl. case_decide as D; unfold ends; simpl.
    + rewrite bool_decide_eq_false_2 by (by apply R). rewrite bool_decide_eq_true_2 by set_solver. done.
    + split; [done|]. f_equal. apply bool_decide_ext. set_solver.
Qed.

Lemma live_run_notices os l l' n pr : live_run l os = (l', n) ->
  alternates (negb (is_stale l pr)) (notices_of pr n) /\ negb (is_stale l' pr) = ends (negb (is_stale l pr)) (notices_of pr n).
Proof using liter_perm.
  revert l n. induction os as [|o os IH]; intros l n E; simpl in E; [injection E as <- <-; done|].
  destruct (live_step l o) as [l1 n1] eqn:E1. destruct (live_run l1 os) as [l2 n2] eqn:E2. injection E as <- <-.
  destruct (live_step_notices _ _ _ _ pr E1) as [A1 B1]. destruct (IH _ _ E2) as [A2 B2]. rewrite B1 in A2, B2.
  rewrite notices_of_app, ends_app. split; [by apply alternates_app|done].
Qed.
End quiet.

(** Notices about a quiet pair: over every sequence of quotes and scans, the
    notices of each pair alternate, a stale one first; a scan reports a pair
    exactly when it is not already reported and its last quote is older than the
    threshold, and the pair's recorded state is what the last notice said. *)
Theorem quiet_notices_alternate (liter : gmap string Z -> list (string * Z)) (threshold : Z) (os : list live_op)
    (pr : string) (l : pairLiveness) (n : list (string * bool)) :
  (forall m, liter m ≡ₚ map_to_list m) -> live_run liter threshold newPairLiveness os = (l, n) ->
  alternates true (notices_of pr n) /\
  (pr ∈ pl_stale l <-> last (notices_of pr n) = Some true) /\
  (forall now, pr ∈ (ScanForStale liter l now threshold).2 <->
     last (notices_of pr n) <> Some true /\ exists ts, pl_lastTS l !! pr = Some ts /\ threshold < Sub now ts).
Proof.
  intros Hl E. destruct (live_run_notices liter Hl threshold os _ _ _ pr E) as [A B].
  unfold is_stale in A, B. cbn [newPairLiveness pl_stale] in A, B. rewrite (bool_decide_eq_false_2 (pr ∈ ∅)) in A, B by set_solver. simpl in A, B.
  assert (pr ∈ pl_stale l <-> last (notices_of pr n) = Some true) as S.
  { assert (forall b l, alternates b l -> last l = match l with [] => None | _ => Some (negb (ends b l)) end) as L.
    { intros b l0. revert b. induction l0 as [|x [|y l0] IH]; intros b; [done|by intros [-> _]; unfold ends; simpl; rewrite negb_involutive|].
      intros [-> A']. by rewrite last_cons_cons, (IH _ A'), (ends_cons b b). }
    rewrite (L true) by done. destruct (notices_of pr n) as [|x t] eqn:En.
    - unfold ends in B. simpl in B. apply negb_true_iff, bool_decide_eq_false in B. done.
    - rewrite <-B, negb_involutive. split; [intros H; by rewrite bool_decide_eq_true_2|].
      intros [= H]. by apply bool_decide_eq_true in H. }
  split; [done|]. split; [done|]. intros now. rewrite <-S. by apply scan_reports.
Qed.

Definition ex_quiet : list live_op :=
  [LQuote "USD/KRW" 0; LScan 5; LScan 20; LScan 30; LQuote "USD/KRW" 40; LScan 60].
Lemma quiet_notices_alternate_witness :
  notices_of "USD/KRW" (live_run map_to_list 10 newPairLiveness ex_quiet).2 = [true; false; true] /\
  alternates true (notices_of "USD/KRW" (live_run map_to_list 10 newPairLiveness ex_quiet).2).
Proof.
  split; [vm_compute; reflexivity|].
  refine (proj1 (quiet_notices_alternate map_to_list 10 ex_quiet "USD/KRW" (live_run map_to_list 10 newPairLiveness ex_quiet).1
    (live_run map_to_list 10 newPairLiveness ex_quiet).2 (fun m => reflexivity _) (surjective_pairing _))).
Defined.

(** * Guards *)

(** What a subscription may add to a filter: symbols of the catalogue, or pairs the
    operator allows and, for a customer with a list, on the list. *)
Lemma gate_sound e s pairs p : p ∈ fst (gateSubscribe e s pairs) ->
  p ∈ pairs /\ p <> "" /\
  ((exists c up, ed_catalog e = Some c /\ Route c p = Some up) \/
   ((forall v, ed_validator e = Some v -> p ∈ v) /\
    (forall pol l, su_customerID s <> "" -> ed_policy e = Some pol -> AllowedFor pol (su_customerID s) = Some l -> p ∈ l))).
Proof.
  unfold gateSubscribe. simpl. intros [G H]%list_elem_of_filter. split; [done|]. unfold gate_one in G.
  destruct (decide (p = "")); [done|]. split; [done|]. case_bool_decide as C.
  - left. destruct C as [up C]. destruct (ed_catalog e) as [c|]; [|done]. eauto.
  - right. destruct (from_option _ true (ed_validator e)) eqn:V; [|done]. simpl in G. split.
    + intros v Ev. rewrite Ev in V. by apply bool_decide_eq_true in V.
    + intros pol l Hc Ep Ea. rewrite decide_False, Ep in G by done. simpl in G. rewrite Ea in G. by apply bool_decide_eq_true in G.
Qed.

(** A connection that names no pair, or only pairs that are refused, keeps the
    filter that matches every pair. *)
Lemma refused_subscription_matches_all e id s req :
  ed_objs e !! id = Some s -> su_pairs s = None -> ct_Type req = "subscribe" -> fst (gateSubscribe e s (items req)) = [] ->
  exists s', ed_objs (handleControlMessage e id (Some req)) !! id = Some s' /\ forall p, MatchesPair s' p = true.
Proof.
  intros Hs Hp Ht Hg. unfold handleControlMessage. rewrite Hs, Ht. destruct (gateSubscribe e s (items req)) as [acc rej].
  simpl in Hg. subst acc. simpl.
  assert (forall e p, (exists x, ed_objs e !! id = Some x /\ su_pairs x = None) -> exists x, ed_objs (reply e id p) !! id = Some x /\ su_pairs x = None) as K.
  { intros e1 p (x & Hx & Hn). unfold reply. rewrite Hx. simpl. rewrite lookup_insert_eq. eexists. split; [done|].
    unfold Send. destruct (su_closed x); [done|]. by destruct (_ <? _)%nat. }
  assert (exists x, ed_objs (set_objs e (<[id := s]> (ed_objs e))) !! id = Some x /\ su_pairs x = None) as K0
    by (simpl; rewrite lookup_insert_eq; eauto).
  assert (forall e, (exists x, ed_objs e !! id = Some x /\ su_pairs x = None) -> exists x, ed_objs (echo e id) !! id = Some x /\ forall p, MatchesPair x p = true) as Ke.
  { intros e1 H. pose proof H as (x & Hx & _). unfold echo. rewrite Hx. destruct (K e1 (PEcho (SubscribedPairs x)) H) as (y & Hy & Hn).
    exists y. split; [done|]. intros p. unfold MatchesPair. by rewrite Hn. }
  apply Ke. destruct rej; [done|]. by apply K.
Qed.

(** A customer barred from every pair asks for one, is refused, and is then sent
    the customer's quotes of that pair. *)
Definition ex_barred : Edge :=
  mkEdge ∅ ∅ 0 0 0 (Some {["USD/KRW"]}) None (Some {["C1" := []]}) (Some (newCustomerRegManager 0)) None 0 0 0 0 0.
Definition ex_ask (pair : string) : op := OControl 1 (Some (mkControl "subscribe" [pair] [])).
Definition queue_of (e : Edge) (id : Z) : list Payload := match ed_objs e !! id with Some s => su_send s | None => [] end.

Theorem refused_customer_is_sent :
  queue_of (fst (ex_run ex_barred
    [OAccept "C1" "WEB.HQ.VIP" "" "" "" true 0; ex_ask "USD/KRW"; OCustomerQuote (ex_q "C1" "") 5])) 1
  = [PReject ["USD/KRW"]; PEcho None; PQuote (ex_q "C1" "")].
Proof. vm_compute. reflexivity. Qed.

(** The operator disallows the only pair a connection subscribes to: the connection
    is put back to matching every pair, so it is told, and still sent, quotes of the
    pair; a connection that had other pairs too is not told. The next quote of the
    pair also allows it again. *)
Definition ex_disallowed : Edge :=
  fst (ex_run ex_edge
    [OAccept "C1" "WEB.HQ.VIP" "" "" "" false 0; ex_ask "USD/KRW"; OAccept "C2" "WEB.HQ.VIP" "" "" "" false 0;
     OAllow "EUR/USD"; OControl 2 (Some (mkControl "subscribe" ["USD/KRW"; "EUR/USD"] []));
     ODisallow "USD/KRW"; OQuote (ex_q "" "") 5]).
Theorem disallowed_pair_still_sent :
  queue_of ex_disallowed 1 = [PEcho (Some ["USD/KRW"]); PRevoked "USD/KRW"; PQuote (ex_q "" "")] /\
  queue_of ex_disallowed 2 = [PEcho (Some ["EUR/USD"; "USD/KRW"])] /\
  ((fun v => IsAllowed v "USD/KRW") <$> ed_validator ex_disallowed) = Some true.
Proof. repeat apply conj; vm_compute; reflexivity. Qed.

(** A symbol of the catalogue passes although the operator has disallowed it. *)
Theorem catalogue_overrides_operator :
  let e := mkEdge ∅ ∅ 0 0 0 (Some ∅) (Some (Catalog_Replace [mkInstr "USD/KRW" "FX" "OTC" "fx" true])) (Some {["C1" := []]}) None None 0 0 0 0 0 in
  gateSubscribe e (NewSubscriber "WEB.HQ.VIP" "C1" [] 0 0) ["USD/KRW"] = (["USD/KRW"], []).
Proof. vm_compute. reflexivity. Qed.

(** The same stored list gives one policy when it is loaded at the start and
    another when it arrives as an event. *)
Definition ex_pairs (v : string) : option (list string) := if decide (v = "x") then Some [" USD/KRW"] else None.
Theorem load_and_event_differ :
  AllowedFor (Watcher_Start ex_pairs "p/" [("p/C1", "x")]) "C1" = Some [" USD/KRW"] /\
  AllowedFor (pair_event ex_pairs "p/" ∅ (EventPut "p/C1" "x")) "C1" = Some ["USD/KRW"].
Proof. split; vm_compute; reflexivity. Qed.

(** A connection closed as slow before its customer is announced leaves the
    customer registered without a connection. *)
Definition ex_slow : pbTick := mkPbTick 1 "USDKRW" 1 0 0 0 [] 0.
Theorem closed_before_announced_leaks :
  let e := fst (ex_run ex_edge [OAccept "C1" "WEB.HQ.VIP" "" "" "" true 1; OTick false ex_slow; OTick false ex_slow; OAnnounce 1 []]) in
  ed_subs e = ∅ /\ (m ← ed_mgr e; rm_active m !! "C1") = Some (mkCustState "WEB.HQ.VIP" 1 ∅).
Proof. split; vm_compute; reflexivity. Qed.

(** Two goroutines find the same queue full for the first time: both warn, in the
    same instant. (In the price service this cannot happen:
    [HubLaws.backpressure_rationed].) *)
Definition ex_full : BackpressureEvent := mkBP 1700000000000000000 1 "WEB.HQ.VIP" "ws" 9 10.
Theorem edge_backpressure_warns_twice :
  let '(b, first) := gate_publish (mkBPS ∅ 0 []) ex_full in
  let '(b, second) := gate_publish b ex_full in
  let last := default 0 (bg_gate b !! ("ws", 1)) in
  first = true /\ second = false /\ gate_open last ex_full = true /\
  bg_hist (gate_first (fst (gate_cas b last ex_full)) ex_full) = [ex_full; ex_full].
Proof. vm_compute. repeat split. Qed.
