(* ===== verification/Client.v ===== *)
(** The broker client (src/pkg/mymq/client.go, reconnect.go): the read loop that
    cuts the byte stream into frames, the table of requests waiting for a reply,
    delivery of broadcasts, the defaults of outgoing frames, heartbeats, the end of
    a connection and the supervisor that opens a new one.

    A call is a sequence of steps that interleave with the read loop, the
    supervisor and [Close]; every connection has a number, its generation. zlib,
    the outcome of writes and clock readings are parameters. *)

From Stdlib Require Import ZArith QArith Qround Lia.
From S2P Require Import Prelude Codec Frame FrameLaws Lzo Handshake GoStrings Strconv Float64 Dates Best.
Local Open Scope Z_scope.
Local Open Scope wtg_scope.

(** * The read loop *)
Inductive read_end :=
| WaitsFor (rest : list byte)   (** [io.ReadFull] needs more bytes *)
| BadLength (len : Z)
| TooLarge (len : Z).

(** The frames dispatched and why the loop stops: [fuel] rounds, of which each
    takes at least four bytes. *)
Fixpoint read_loop (fuel : nat) (stream : list byte) : res FrameErr (list DecodedFrame * read_end) :=
  match fuel with
  | O => Ok ([], WaitsFor stream)
  | S fuel =>
      if (length stream <? 4)%nat then Ok ([], WaitsFor stream)
      else
        let len := getU32 (sub 0 4 stream) in
        if len <? 4 then Ok ([], BadLength len)
        else if len =? 4 then read_loop fuel (drop 4 stream)
        else if MaxMsgSize <? len then Ok ([], TooLarge len)
        else if zlen stream <? len then Ok ([], WaitsFor stream)
        else
          let n := Z.to_nat len in
          match DecodeFrame (take n stream) with
          | Ok df => '(dfs, e) ← read_loop fuel (drop n stream); Ok (df :: dfs, e)
          | Err _ => read_loop fuel (drop n stream)
          | Panic => Panic
          end
  end.
Definition readLoop (stream : list byte) : res FrameErr (list DecodedFrame * read_end) := read_loop (S (length stream)) stream.

Definition writeHeartbeat : list byte := putU32 4.

(** * Outgoing frames *)
Definition FCCntl : Z := 1.
Definition FCCast : Z := 4.
Definition FCPush : Z := 13.
Definition FCSignal : Z := 14.
Definition SubBindService : Z := 15.
Definition DirIoctl : Z := 0.
Definition DirPublish : Z := 5.
Definition KeySend : Z := 83.
Definition is_broadcast (f : Z) : bool := (f =? FCCast) || (f =? FCPush) || (f =? FCSignal).

Definition set_chan (i : FrameInput) (c : list byte) : FrameInput :=
  mkFrameInput (fi_func i) (fi_subc i) (fi_dirf i) (fi_keyc i) (fi_msgf i) (fi_ctlf i) (fi_xchg i) (fi_rkey i) (fi_ckey i) (fi_clid i)
    (fi_wkey i) c (fi_traceID i) (fi_navis i) (fi_errn i) (fi_errMsg i) (fi_pkey i) (fi_nkey i) (fi_cookie i) (fi_body i).
Definition set_dirf (i : FrameInput) (d : Z) : FrameInput :=
  mkFrameInput (fi_func i) (fi_subc i) d (fi_keyc i) (fi_msgf i) (fi_ctlf i) (fi_xchg i) (fi_rkey i) (fi_ckey i) (fi_clid i)
    (fi_wkey i) (fi_chan i) (fi_traceID i) (fi_navis i) (fi_errn i) (fi_errMsg i) (fi_pkey i) (fi_nkey i) (fi_cookie i) (fi_body i).
Definition set_navis (i : FrameInput) (ns : list Navi) : FrameInput :=
  mkFrameInput (fi_func i) (fi_subc i) (fi_dirf i) (fi_keyc i) (fi_msgf i) (fi_ctlf i) (fi_xchg i) (fi_rkey i) (fi_ckey i) (fi_clid i)
    (fi_wkey i) (fi_chan i) (fi_traceID i) ns (fi_errn i) (fi_errMsg i) (fi_pkey i) (fi_nkey i) (fi_cookie i) (fi_body i).
Definition set_ckey (i : FrameInput) (k : Z) : FrameInput :=
  mkFrameInput (fi_func i) (fi_subc i) (fi_dirf i) (fi_keyc i) (fi_msgf i) (fi_ctlf i) (fi_xchg i) (fi_rkey i) k (fi_clid i)
    (fi_wkey i) (fi_chan i) (fi_traceID i) (fi_navis i) (fi_errn i) (fi_errMsg i) (fi_pkey i) (fi_nkey i) (fi_cookie i) (fi_body i).

(** [copy] into a fixed array of zeros. *)
Definition origin_navi (scid : Z) : Navi := mkNavi (replicate LXchg x00) (replicate LRkey x00) scid 0 0 0 0.
Definition dest_navi (xchg rkey : list byte) : Navi := mkNavi (padCopyString LXchg xchg) (padCopyString LRkey rkey) 0 0 0 0 0.
Definition applyDefaults (whoamiSc : Z) (chanCode : list byte) (i : FrameInput) : FrameInput :=
  let i := if decide (fi_chan i = replicate 4 x00) then set_chan i chanCode else i in
  if is_broadcast (fi_func i) then (if fi_dirf i =? 0 then set_dirf i DirPublish else i)
  else if bool_decide (fi_navis i = []) && (negb (bool_decide (fi_xchg i = [])) || negb (bool_decide (fi_rkey i = [])))
  then set_navis i [origin_navi whoamiSc; dest_navi (fi_xchg i) (fi_rkey i)]
  else i.

(** ["%s-%02d"]. *)
Definition effectiveApplName (applName : string) (instance : Z) : string :=
  if instance <=? 0 then applName
  else applName +:+ "-" +:+ (if instance <? 10 then "0" else "") +:+ Itoa instance.

(** A control command: the other fields are the zero values. *)
Definition control_request (subc ckey : Z) (body : list byte) : FrameInput :=
  mkFrameInput FCCntl subc DirIoctl KeySend 0 0 [] [] ckey 0 (replicate 8 x00) (replicate 4 x00) (replicate 16 x00)
    [] 0 [] [] [] None body.
Inductive BindErr := ErrBindRkey | ErrBindExchange.
Definition bind_request (exchange rkey : list byte) : res BindErr FrameInput :=
  if bool_decide (rkey = []) || (LRkey <? length rkey)%nat then Err ErrBindRkey
  else if (16 <? length exchange)%nat then Err ErrBindExchange
  else Ok (control_request SubBindService 0 (bindServiceBody exchange rkey)).

(** * Handshakes *)
Definition SubConnect : Z := 10.
Definition SubDeclareSession : Z := 11.
Definition ErrBroker : Z := 1001.
Definition declare_request (applName : string) (instance : Z) (user extIP : list byte) (extPort pid ckey : Z) : FrameInput :=
  control_request SubDeclareSession ckey
    (EncodeDeclareSessionRequest (mkDSReq (String.list_byte_of_string (effectiveApplName applName instance)) user pid extIP extPort)).
Record QueueOptions := mkQueue {
  q_ExchangeName : list byte; q_ExchangeType : Z; q_Name : list byte; q_Flags : Z; q_Attr : Z; q_Size : Z; q_ExportDomain : list byte }.
Definition connect_request (applName : string) (instance : Z) (user extIP : list byte) (extPort pid ckey : Z) (q : QueueOptions) : FrameInput :=
  control_request SubConnect ckey
    (encodeConnectRequest
       (mkConnReq [] 0 user pid (String.list_byte_of_string (effectiveApplName applName instance)) [] extIP extPort
          (q_ExchangeName q) (q_ExchangeType q) (q_Name q) (q_Flags q) (q_Attr q) (q_Size q) (q_ExportDomain q))).

Inductive HandshakeErr := ErrRefused (errn : Z) (msg : list byte) | ErrResponse (e : FrameErr).
(** The session a reply opens; [errn], [body]: the fields of the reply. *)
Definition declare_reply (errn : Z) (errMsg body : list byte) : res HandshakeErr DeclareSessionResponse :=
  if negb (errn =? 0) then Err (ErrRefused errn errMsg)
  else match DecodeDeclareSessionResponse body with Ok r => Ok r | Err e => Err (ErrResponse e) | Panic => Panic end.
Definition session_of_connect (r : ConnectResponse) : DeclareSessionResponse :=
  mkDSResp (cr_socketID r) 0 (cr_connectionID r) (cr_routing0 r) (cr_routing1 r) (cr_broadcast r) (cr_logSuffix r)
    (cr_heartbeat r) (cr_compressMethod r) (cr_compressSize r).
Definition connect_reply (errn : Z) (errMsg body : list byte) : res HandshakeErr (DeclareSessionResponse * ConnectResponse) :=
  if negb (errn =? 0) then Err (ErrRefused errn errMsg)
  else match decodeConnectResponse body with
       | Ok r => Ok (session_of_connect r, r) | Err e => Err (ErrResponse e) | Panic => Panic end.

(** * The client *)
Inductive Reply := RFrame (df : DecodedFrame) (body : list byte) | RAborted.
(** [AsError]: the error of a reply, [cause] the notice of a lost connection. *)
Definition reply_AsError (cause : list byte) (r : Reply) : option (Z * list byte) :=
  let '(errn, msg) :=
    match r with RFrame df _ => (h_errn (df_header df), df_errMsg df) | RAborted => (ErrBroker, cause) end in
  if (errn =? 0) && bool_decide (msg = []) then None else Some (errn, msg).
(** The outcome of [BindService] once its call has returned. *)
Definition bind_outcome (r : Reply) : bool :=
  match r with RFrame df _ => h_errn (df_header df) =? 0 | RAborted => false end.
Record Unsolicited := mkUnsolicited { us_frame : DecodedFrame; us_prefix : option BroadcastHeader; us_body : list byte }.

(** [cl_chans]: the reply channels, each with room for one; [cl_done]: the
    generations whose read loop has ended. *)
Record Client := mkClient {
  cl_gen : nat; cl_conn : bool; cl_done : gset nat; cl_closed : bool; cl_closing : bool; cl_reconnecting : bool;
  cl_pending : gmap Z nat; cl_chans : gmap nat (list Reply); cl_nextCkey : Z;
  cl_sub : list Unsolicited; cl_subCap : nat; cl_subClosed : bool; cl_subDrops : Z }.
Definition new_client (subBufferSize : nat) : Client :=
  mkClient 0 true ∅ false false false ∅ ∅ 0 [] (if (subBufferSize =? 0)%nat then 256%nat else subBufferSize) false 0.

Definition set_pending (c : Client) (p : gmap Z nat) : Client :=
  mkClient (cl_gen c) (cl_conn c) (cl_done c) (cl_closed c) (cl_closing c) (cl_reconnecting c) p (cl_chans c) (cl_nextCkey c)
    (cl_sub c) (cl_subCap c) (cl_subClosed c) (cl_subDrops c).
Definition set_chans (c : Client) (h : gmap nat (list Reply)) : Client :=
  mkClient (cl_gen c) (cl_conn c) (cl_done c) (cl_closed c) (cl_closing c) (cl_reconnecting c) (cl_pending c) h (cl_nextCkey c)
    (cl_sub c) (cl_subCap c) (cl_subClosed c) (cl_subDrops c).
Definition set_sub (c : Client) (q : list Unsolicited) (drops : Z) : Client :=
  mkClient (cl_gen c) (cl_conn c) (cl_done c) (cl_closed c) (cl_closing c) (cl_reconnecting c) (cl_pending c) (cl_chans c) (cl_nextCkey c)
    q (cl_subCap c) (cl_subClosed c) drops.
Definition set_flags (c : Client) (closed closing reconnecting : bool) : Client :=
  mkClient (cl_gen c) (cl_conn c) (cl_done c) closed closing reconnecting (cl_pending c) (cl_chans c) (cl_nextCkey c)
    (cl_sub c) (cl_subCap c) (cl_subClosed c) (cl_subDrops c).

(** The counter skips 0. *)
Definition nextCorrelation (c : Client) : Z * Client :=
  let v := wrap 32 (cl_nextCkey c + 1) in
  let v := if v =? 0 then 1 else v in
  (v, mkClient (cl_gen c) (cl_conn c) (cl_done c) (cl_closed c) (cl_closing c) (cl_reconnecting c) (cl_pending c) (cl_chans c) v
        (cl_sub c) (cl_subCap c) (cl_subClosed c) (cl_subDrops c)).

(** ** Incoming frames *)
Section incoming.
Context (inflate : list byte -> option (list byte)).
Definition decompressBody (df : DecodedFrame) : res Empty_set (list byte) :=
  if (df_bodyZipf df =? ZipfNone) || bool_decide (df_body df = []) then Ok (df_body df)
  else match Decompress inflate (df_body df) (df_bodyZipf df) with
       | Some (Ok plain) => Ok plain
       | Some Panic => Panic
       | _ => Ok (df_body df)
       end.

(** A send on a closed channel panics. *)
Definition deliverUnsolicited (c : Client) (df : DecodedFrame) : res Empty_set Client :=
  let '(prefix, out) :=
    if is_broadcast (h_func (df_header df)) then
      match SplitBroadcast (df_body df) with Ok (Some h, payload) => (Some h, payload) | _ => (None, df_body df) end
    else (None, df_body df) in
  if cl_subClosed c then Panic
  else if (length (cl_sub c) <? cl_subCap c)%nat then Ok (set_sub c (cl_sub c ++ [mkUnsolicited df prefix out]) (cl_subDrops c))
  else Ok (set_sub c (cl_sub c) (incr64 (cl_subDrops c))).

(** [None]: the send on the reply channel waits for room. *)
Definition dispatch (c : Client) (df : DecodedFrame) : res Empty_set (option Client) :=
  body ← decompressBody df;
  let ckey := h_ckey (df_header df) in
  match (if ckey =? 0 then None else cl_pending c !! ckey) with
  | Some ch =>
      let buf := default [] (cl_chans c !! ch) in
      if (0 <? length buf)%nat then Ok None
      else Ok (Some (set_chans (set_pending c (delete ckey (cl_pending c))) (<[ch := [RFrame df body]]> (cl_chans c))))
  | None => c ← deliverUnsolicited c df; Ok (Some c)
  end.
End incoming.

(** ** The end of a connection *)
Definition abort_chan (h : gmap nat (list Reply)) (ch : nat) : gmap nat (list Reply) :=
  match default [] (h !! ch) with [] => <[ch := [RAborted]]> h | _ => h end.
Definition failPending (c : Client) : Client :=
  set_pending (set_chans c (fold_left abort_chan (map snd (map_to_list (cl_pending c))) (cl_chans c))) ∅.
(** One round of its [Range]: the send, which the deletion [forget] follows. *)
Definition fail_send (c : Client) (k : Z) : Client :=
  match cl_pending c !! k with Some ch => set_chans c (abort_chan (cl_chans c) ch) | None => c end.
(** The read loop of generation [g] ends: its [doneCh] is closed. *)
Definition end_read (c : Client) (g : nat) : Client :=
  mkClient (cl_gen c) (cl_conn c) ({[g]} ∪ cl_done c) (cl_closed c) (cl_closing c) (cl_reconnecting c) (cl_pending c) (cl_chans c)
    (cl_nextCkey c) (cl_sub c) (cl_subCap c) (cl_subClosed c) (cl_subDrops c).
Definition close_sub (c : Client) : res Empty_set Client :=
  if cl_subClosed c then Panic
  else Ok (mkClient (cl_gen c) (cl_conn c) (cl_done c) (cl_closed c) (cl_closing c) (cl_reconnecting c) (cl_pending c) (cl_chans c)
             (cl_nextCkey c) (cl_sub c) (cl_subCap c) true (cl_subDrops c)).
Definition Close (c : Client) : res Empty_set Client :=
  if cl_closed c then Ok c
  else
    let c := mkClient (cl_gen c) false (cl_done c) true true (cl_reconnecting c) (cl_pending c) (cl_chans c)
               (cl_nextCkey c) (cl_sub c) (cl_subCap c) (cl_subClosed c) (cl_subDrops c) in
    close_sub (failPending c).

(** ** Calls *)
Inductive CallErr := ErrClientClosed | ErrReconnecting | ErrEncode (e : FrameErr) | ErrWrite | ErrContext | ErrRead.
Inductive call_pc :=
| AtStore                       (** admitted, the table not yet entered *)
| AtWrite                       (** in the table *)
| AtWait (written : nat)        (** sent on a connection, [doneCh] not yet read *)
| Waiting (written done : nat)  (** in the [select] *)
| Returned (r : res CallErr Reply).
Record call := mkCall { ca_key : Z; ca_pc : call_pc }.

(** The guards of [Call] and the key. *)
Definition call_begin (c : Client) (ckey : Z) : Client * call :=
  if cl_closed c then (c, mkCall ckey (Returned (Err ErrClientClosed)))
  else if cl_reconnecting c then (c, mkCall ckey (Returned (Err ErrReconnecting)))
  else if ckey =? 0 then let '(k, c) := nextCorrelation c in (c, mkCall k AtStore)
  else (c, mkCall ckey AtStore).
(** The channel of call [id] is numbered as the call. *)
Definition call_store (c : Client) (id : nat) (k : Z) : Client * call :=
  (set_chans (set_pending c (<[k := id]> (cl_pending c))) (<[id := []]> (cl_chans c)), mkCall k AtWrite).
Definition forget (c : Client) (k : Z) : Client := set_pending c (delete k (cl_pending c)).
(** [encode]: the error of [EncodeFrame], [wrote]: whether the write succeeded. *)
Definition call_write (c : Client) (k : Z) (encode : option FrameErr) (wrote : bool) : Client * call :=
  match encode with
  | Some e => (forget c k, mkCall k (Returned (Err (ErrEncode e))))
  | None =>
      if cl_closed c || negb (cl_conn c) then (forget c k, mkCall k (Returned (Err ErrClientClosed)))
      else if wrote then (c, mkCall k (AtWait (cl_gen c)))
      else (forget c k, mkCall k (Returned (Err ErrWrite)))
  end.
Definition call_wait (c : Client) (k : Z) (w : nat) : call := mkCall k (Waiting w (cl_gen c)).
Inductive arm := ArmReply | ArmContext | ArmDone.
(** One arm of the [select], if it is ready; [reconnect]: [opts.Reconnect != nil]. *)
Definition call_select (reconnect : bool) (c : Client) (id : nat) (k : Z) (d : nat) (a : arm) : option (Client * call) :=
  match a with
  | ArmReply =>
      match default [] (cl_chans c !! id) with
      | r :: rest => Some (set_chans c (<[id := rest]> (cl_chans c)), mkCall k (Returned (Ok r)))
      | [] => None
      end
  | ArmContext => Some (forget c k, mkCall k (Returned (Err ErrContext)))
  | ArmDone =>
      if bool_decide (d ∈ cl_done c)
      then Some (forget c k, mkCall k (Returned (Err (if reconnect && negb (cl_closing c) then ErrReconnecting else ErrRead))))
      else None
  end.

(** ** The supervisor *)
Record ReconnectOptions := mkReconnect { ro_InitialBackoff : Z; ro_MaxBackoff : Z; ro_BackoffFactor : f64; ro_MaxAttempts : Z }.
Definition effective (r : ReconnectOptions) : ReconnectOptions :=
  mkReconnect (if ro_InitialBackoff r <=? 0 then ns_per_sec else ro_InitialBackoff r)
    (if ro_MaxBackoff r <=? 0 then 30 * ns_per_sec else ro_MaxBackoff r)
    (if ro_BackoffFactor r <=f f1 then f_of_Z 2 else ro_BackoffFactor r) (ro_MaxAttempts r).
(** [time.Duration(x)]: outside int64 the result is the machine's, [overflow]. *)
Definition f_trunc (x : f64) : option Z :=
  match x with Fin neg mag => Some (let z := Qfloor mag in if neg then - z else z) | _ => None end.
Definition Duration_of (overflow : Z) (x : f64) : Z :=
  match f_trunc x with Some z => if (- 2 ^ 63 <=? z) && (z <? 2 ^ 63) then z else overflow | None => overflow end.
Definition nextBackoff (overflow cur : Z) (rc : ReconnectOptions) : Z :=
  let next := Duration_of overflow (f_of_Z cur *f ro_BackoffFactor rc) in
  if ro_MaxBackoff rc <? next then ro_MaxBackoff rc else next.

(** Where the supervisor is. *)
Inductive sup_pc := SWatch | SBackoff (attempt backoff : Z) | STry (attempt backoff : Z) | SEnded.
(** The connection has ended. *)
Definition sup_lost (c : Client) (rc : ReconnectOptions) (attempt : Z) : Client * sup_pc :=
  if cl_closing c then (c, SEnded)
  else let c := failPending c in
       (set_flags c (cl_closed c) (cl_closing c) true, SBackoff attempt (ro_InitialBackoff rc)).
(** The head of the inner loop. *)
Definition sup_attempt (c : Client) (rc : ReconnectOptions) (attempt backoff : Z) : res Empty_set (Client * sup_pc) :=
  let attempt := attempt + 1 in
  if (0 <? ro_MaxAttempts rc) && (ro_MaxAttempts rc <? attempt) then
    c ← close_sub (set_flags c true (cl_closing c) false); Ok (c, SEnded)
  else Ok (c, STry attempt backoff).
(** After the wait: [closing] ends it; [dialed]: the new connection replaces the
    old one, [shaken]: the handshake succeeded. *)
Definition sup_try (overflow : Z) (c : Client) (rc : ReconnectOptions) (attempt backoff : Z) (dialed shaken : bool) : Client * sup_pc :=
  if cl_closing c then (c, SEnded)
  else if negb dialed then (c, SBackoff attempt (nextBackoff overflow backoff rc))
  else
    let c := mkClient (S (cl_gen c)) true (cl_done c) (cl_closed c) (cl_closing c) (cl_reconnecting c) (cl_pending c) (cl_chans c)
               (cl_nextCkey c) (cl_sub c) (cl_subCap c) (cl_subClosed c) (cl_subDrops c) in
    if shaken then (set_flags c (cl_closed c) (cl_closing c) false, SWatch)
    else (c, SBackoff attempt (nextBackoff overflow backoff rc)).

(** ** Interleavings *)
(** The steps of the callers, the read loop, the supervisor, [Close] and the
    subscriber, in any order. The sends and deletions of [failPending] are steps of
    their own; the flags change as [Close] and the supervisor change them. *)
Inductive ev :=
| EBegin | EStore (id : nat) | EWrite (id : nat) (encode : option FrameErr) (wrote : bool) | EWait (id : nat)
| ESelect (id : nat) (a : arm)
| EDispatch (df : DecodedFrame) | EEndRead (g : nat) | EFailSend (k : Z) | EFailDelete (k : Z)
| ELost | EExhausted | ESwap | EShaken | EClosing | EConnNil | ECloseSub | EReceive.
Record world := mkWorld { w_client : Client; w_calls : list call }.
Definition set_conn (c : Client) (gen : nat) (conn : bool) : Client :=
  mkClient gen conn (cl_done c) (cl_closed c) (cl_closing c) (cl_reconnecting c) (cl_pending c) (cl_chans c)
    (cl_nextCkey c) (cl_sub c) (cl_subCap c) (cl_subClosed c) (cl_subDrops c).
Definition put_call (w : world) (id : nat) (r : Client * call) : world := mkWorld r.1 (<[id := r.2]> (w_calls w)).

(** [None]: the step is not enabled, or panics. *)
Definition exec (inflate : list byte -> option (list byte)) (reconnect : bool) (w : world) (e : ev) : option world :=
  let c := w_client w in
  let with_client c := Some (mkWorld c (w_calls w)) in
  match e with
  | EBegin => let '(c, k) := call_begin c 0 in Some (mkWorld c (w_calls w ++ [k]))
  | EStore id =>
      match w_calls w !! id with Some (mkCall k AtStore) => Some (put_call w id (call_store c id k)) | _ => None end
  | EWrite id encode wrote =>
      match w_calls w !! id with Some (mkCall k AtWrite) => Some (put_call w id (call_write c k encode wrote)) | _ => None end
  | EWait id =>
      match w_calls w !! id with Some (mkCall k (AtWait g)) => Some (put_call w id (c, call_wait c k g)) | _ => None end
  | ESelect id a =>
      match w_calls w !! id with
      | Some (mkCall k (Waiting g d)) => r ← call_select reconnect c id k d a; Some (put_call w id r)
      | _ => None
      end
  | EDispatch df => match dispatch inflate c df with Ok (Some c) => with_client c | _ => None end
  | EEndRead g => with_client (end_read c g)
  | EFailSend k => with_client (fail_send c k)
  | EFailDelete k => with_client (forget c k)
  | ELost => with_client (set_flags c (cl_closed c) (cl_closing c) true)
  | EExhausted => with_client (set_flags c true (cl_closing c) false)
  | EShaken => with_client (set_flags c (cl_closed c) (cl_closing c) false)
  | EClosing => with_client (set_flags c true true (cl_reconnecting c))
  | ESwap => with_client (set_conn c (S (cl_gen c)) true)
  | EConnNil => with_client (set_conn c (cl_gen c) false)
  | ECloseSub => match close_sub c with Ok c => with_client c | _ => None end
  | EReceive => with_client (set_sub c (tail (cl_sub c)) (cl_subDrops c))
  end.
Fixpoint exec_all (inflate : list byte -> option (list byte)) (reconnect : bool) (w : world) (es : list ev) : option world :=
  match es with [] => Some w | e :: es => w ← exec inflate reconnect w e; exec_all inflate reconnect w es end.

(** ** Heartbeats *)
Definition heartbeatInterval (override heartbeat : Z) : Z :=
  if 0 <? override then override else if 0 <? heartbeat then wrap64 (heartbeat * ns_per_sec) else 0.
Inductive beat := BeatDead | BeatSkip | BeatSend.
(** One tick; [time.Unix(0, n)] is never the zero time. *)
Definition heartbeat_tick (interval now lastRecv lastSent : Z) : beat :=
  if wrap64 (2 * interval) <? Sub now lastRecv then BeatDead
  else if Sub now lastSent <? interval then BeatSkip
  else BeatSend.
