(* ===== verification/ClientLaws.v ===== *)
(** Laws of the broker client (Client): the frames a peer sends are the frames the
    read loop dispatches, wherever the stream is cut; each call gets its own reply
    in every interleaving; the waits between reconnections; the sends on the closed
    subscription channel. *)

From Stdlib Require Import ZArith QArith Lia.
From S2P Require Import Prelude Codec Frame FrameLaws Lzo Handshake Float64 Dates Best Client.
Local Open Scope Z_scope.
Local Open Scope wtg_scope.

(** * The stream *)
(** What a peer writes: heartbeats and frames. *)
Inductive wire_item := IBeat | IFrame (i : FrameInput).
Definition sendable (i : FrameInput) : Prop := encodable i /\ wf_input i /\ index_fits i.
Definition item_ok (it : wire_item) : Prop := match it with IBeat => True | IFrame i => sendable i end.
Definition item_bytes (it : wire_item) : list byte :=
  match it with
  | IBeat => writeHeartbeat
  | IFrame i => match EncodeFrame i with Ok b => b | _ => [] end
  end.
Definition item_views (it : wire_item) : list DecodedFrame := match it with IBeat => [] | IFrame i => [frame_view i] end.

Lemma item_frame i : sendable i -> item_bytes (IFrame i) = frame_bytes i.
Proof. intros (He & _). unfold item_bytes. by rewrite EncodeFrame_eq. Qed.

Lemma frame_decodes i : sendable i -> DecodeFrame (frame_bytes i) = Ok (frame_view i).
Proof.
  intros (He & Hw & Ho). destruct (szoff_sections i He Ho) as (? & ? & ?).
  rewrite (DecodeFrame_assembled i _ _ _ He Hw) by eassumption. done.
Qed.

Lemma frame_size_bounds i : encodable i -> Z.of_nat (frame_size i) <= MaxMsgSize /\ (HdrSize <= frame_size i)%nat.
Proof. intros He. pose proof (off_bounds i He). unfold MaxMsgSize in *. destruct He. intuition lia. Qed.

(** The length prefix of a frame is its size. *)
Lemma frame_prefix i : sendable i -> getU32 (sub 0 4 (frame_bytes i)) = Z.of_nat (frame_size i).
Proof.
  intros (He & Hw & _). pose proof (frame_size_bounds i He) as [Hb Hh].
  assert (sub 0 4 (frame_bytes i) = sub 0 4 (sub 0 HdrSize (frame_bytes i))) as ->.
  { unfold sub. rewrite !drop_0, take_take. done. }
  rewrite frame_bytes_header.
  pose proof (header_reads_writes (sub 0 HdrSize (frame_area i)) (frame_hdr i)) as R.
  change (getU32 (sub offLength 4 (header_writes (sub 0 HdrSize (frame_area i)) (frame_hdr i))) = Z.of_nat (frame_size i)).
  apply (f_equal h_length) in R; [|rewrite sub_length; rewrite ?frame_area_length; lia|by apply frame_hdr_wf].
  unfold header_reads in R. cbn [h_length] in R. rewrite R. unfold frame_hdr. cbn [h_length].
  apply wrap_small. unfold is_uint, MaxMsgSize in *. norm_pow. lia.
Qed.

Lemma sub_prefix_app n (l k : list byte) : (n <= length l)%nat -> sub 0 n (l ++ k) = sub 0 n l.
Proof. intros H. unfold sub. rewrite !drop_0. by apply take_app_le. Qed.

(** One round of the loop on a whole frame. *)
Lemma read_loop_frame fuel i rest :
  sendable i ->
  read_loop (S fuel) (frame_bytes i ++ rest) = '(dfs, e) ← read_loop fuel rest; Ok (frame_view i :: dfs, e).
Proof.
  intros Hi. pose proof (frame_size_bounds i (proj1 Hi)) as [Hb Hh]. pose proof (frame_bytes_length i) as Hl.
  unfold HdrSize in Hh. cbn [read_loop]. rewrite length_app, Hl.
  rewrite (proj2 (Nat.ltb_ge _ _)) by lia. cbv zeta.
  rewrite sub_prefix_app by lia. rewrite frame_prefix by done.
  rewrite (proj2 (Z.ltb_ge _ _)), (proj2 (Z.eqb_neq _ _)), !(proj2 (Z.ltb_ge _ _)) by lia.
  rewrite Nat2Z.id, take_app_length', drop_app_length' by done. by rewrite frame_decodes.
Qed.

Lemma read_loop_beat fuel rest : read_loop (S fuel) (writeHeartbeat ++ rest) = read_loop fuel rest.
Proof. reflexivity. Qed.

(** A strict prefix of an item makes the loop wait. *)
Lemma read_loop_prefix fuel it n :
  item_ok it -> (n < length (item_bytes it))%nat ->
  read_loop fuel (take n (item_bytes it)) = Ok ([], WaitsFor (take n (item_bytes it))).
Proof.
  intros Hi Hn. destruct fuel as [|fuel]; [done|]. cbn [read_loop].
  destruct (Nat.ltb_spec (length (take n (item_bytes it))) 4) as [|H4]; [done|]. rewrite length_take_le in H4 by lia.
  destruct it as [|i]; [change (length (item_bytes IBeat)) with 4%nat in Hn; lia|].
  rewrite item_frame in * by done. pose proof (frame_size_bounds i (proj1 Hi)) as [Hb Hh].
  rewrite frame_bytes_length in Hn. cbv zeta.
  replace (sub 0 4 (take n (frame_bytes i))) with (sub 0 4 (frame_bytes i)).
  2: { unfold sub. rewrite !drop_0, take_take. f_equal. lia. }
  rewrite frame_prefix by done. unfold HdrSize in Hh.
  rewrite (proj2 (Z.ltb_ge _ _)), (proj2 (Z.eqb_neq _ _)), (proj2 (Z.ltb_ge MaxMsgSize _)) by lia.
  rewrite (proj2 (Z.ltb_lt _ _)); [done|]. rewrite length_take_le; rewrite ?frame_bytes_length; lia.
Qed.

Lemma item_bytes_pos it : item_ok it -> (0 < length (item_bytes it))%nat.
Proof.
  destruct it as [|i]; intros Hi; [change (length (item_bytes IBeat)) with 4%nat; lia|].
  rewrite item_frame by done. pose proof (frame_size_bounds i (proj1 Hi)) as [_ Hh].
  rewrite frame_bytes_length. unfold HdrSize in Hh. lia.
Qed.

Lemma read_loop_items its it n fuel :
  Forall item_ok its -> item_ok it -> (n < length (item_bytes it))%nat ->
  (length (concat (map item_bytes its)) <= fuel)%nat ->
  read_loop fuel (concat (map item_bytes its) ++ take n (item_bytes it))
    = Ok (concat (map item_views its), WaitsFor (take n (item_bytes it))).
Proof.
  intros Hits Hi Hn. revert fuel. induction Hits as [|x its Hx Hits IH]; intros fuel Hf; [by apply read_loop_prefix|].
  cbn [map concat] in *. rewrite length_app in Hf. pose proof (item_bytes_pos x Hx).
  destruct fuel as [|fuel]; [lia|]. rewrite <-app_assoc. destruct x as [|i].
  - cbn [item_bytes item_views]. rewrite read_loop_beat, IH by lia. done.
  - cbn [item_views]. rewrite item_frame, read_loop_frame, IH by (done || lia). done.
Qed.

(** C35. Round trip of the connection's byte stream: a peer that writes encodable
    frames and heartbeats in any order makes the read loop dispatch exactly the
    frames' contents, each once and in the order written, and skip the heartbeats;
    wherever the stream is cut inside the next item, the loop has dispatched
    everything before it and waits with the bytes of that item kept. *)
Theorem stream_roundtrip (its : list wire_item) (next : wire_item) (cut : nat) :
  Forall item_ok its -> item_ok next -> (cut < length (item_bytes next))%nat ->
  readLoop (concat (map item_bytes its) ++ take cut (item_bytes next))
    = Ok (concat (map item_views its), WaitsFor (take cut (item_bytes next))).
Proof.
  intros Hits Hi Hn. unfold readLoop. apply read_loop_items; [done..|]. rewrite length_app. lia.
Qed.

Lemma stream_roundtrip_witness :
  readLoop (concat (map item_bytes [IFrame ex_input; IBeat; IFrame ex_input]) ++ take 3 (item_bytes IBeat))
    = Ok ([frame_view ex_input; frame_view ex_input], WaitsFor [x00; x00; x00]).
Proof.
  apply (stream_roundtrip [IFrame ex_input; IBeat; IFrame ex_input] IBeat 3).
  - apply Forall_cons; split; [exact ex_input_ok|]. apply Forall_cons; split; [exact I|].
    apply Forall_cons; split; [exact ex_input_ok|apply Forall_nil_2].
  - exact I.
  - apply (bool_decide_unpack _). vm_compute. exact I.
Defined.

(** Whatever bytes arrive, the loop does not panic. *)
Lemma readLoop_safe stream : no_panic (readLoop stream).
Proof.
  unfold readLoop. generalize (S (length stream)) as fuel. intros fuel. revert stream.
  induction fuel as [|fuel IH]; intros stream; [done|]. cbn [read_loop]. cbv zeta.
  repeat (case_if; [by auto|]). pose proof (DecodeFrame_safe (take (Z.to_nat (getU32 (sub 0 4 stream))) stream)) as D.
  destruct (DecodeFrame _) as [df|e|]; [|by auto|done]. apply no_panic_bind; [by auto|]. by intros [].
Qed.

(** * Calls and replies *)
(** A call that is over has left the table with its own deletions; the abort
    replies reach only calls in it. *)
Definition reply_for (inflate : list byte -> option (list byte)) (seen : list ev) (k : Z) (r : Reply) : Prop :=
  match r with
  | RFrame df body => h_ckey (df_header df) = k /\ k <> 0 /\ decompressBody inflate df = Ok body /\ EDispatch df ∈ seen
  | RAborted => True
  end.

Section replies.
Context (inflate : list byte -> option (list byte)) (reconnect : bool).

Record replies_inv (seen : list ev) (w : world) : Prop := {
  ri_next : 0 <= cl_nextCkey (w_client w) <= Z.of_nat (length (w_calls w));
  ri_keys : forall id k pc, w_calls w !! id = Some (mkCall k pc) -> k <> 0 -> 1 <= k <= cl_nextCkey (w_client w);
  ri_unique : forall i j k pc pc', w_calls w !! i = Some (mkCall k pc) -> w_calls w !! j = Some (mkCall k pc') -> k <> 0 -> i = j;
  ri_begun : forall id pc, w_calls w !! id = Some (mkCall 0 pc) -> exists e, pc = Returned (Err e);
  ri_pending : forall k id, cl_pending (w_client w) !! k = Some id ->
    k <> 0 /\ (exists pc, w_calls w !! id = Some (mkCall k pc)) /\
    (default [] (cl_chans (w_client w) !! id) = [] \/ default [] (cl_chans (w_client w) !! id) = [RAborted]);
  ri_chans : forall id r rest, cl_chans (w_client w) !! id = Some (r :: rest) ->
    rest = [] /\ exists k pc, w_calls w !! id = Some (mkCall k pc) /\ reply_for inflate seen k r;
  ri_returned : forall id k r, w_calls w !! id = Some (mkCall k (Returned (Ok r))) -> reply_for inflate seen k r }.

Lemma reply_for_mono seen e k r : reply_for inflate seen k r -> reply_for inflate (seen ++ [e]) k r.
Proof. destruct r; simpl; [|done]. intros (? & ? & ? & ?). rewrite elem_of_app. auto. Qed.

Lemma replies_inv_mono seen e w : replies_inv seen w -> replies_inv (seen ++ [e]) w.
Proof.
  intros []. split; try done.
  - intros id r rest H. destruct (ri_chans0 _ _ _ H) as (-> & k & pc & ? & ?). eauto 10 using reply_for_mono.
  - eauto using reply_for_mono.
Qed.

(** The invariant sees of the client only the table, the channels and the counter. *)
Lemma replies_inv_client seen c c' calls :
  cl_pending c' = cl_pending c -> cl_chans c' = cl_chans c -> cl_nextCkey c' = cl_nextCkey c ->
  replies_inv seen (mkWorld c calls) -> replies_inv seen (mkWorld c' calls).
Proof. intros E1 E2 E3 []. split; simpl in *; rewrite ?E1, ?E2, ?E3; done. Qed.

Lemma replies_inv_forget seen c calls k :
  replies_inv seen (mkWorld c calls) -> replies_inv seen (mkWorld (forget c k) calls).
Proof.
  intros []. split; simpl in *; try done. intros k' id. rewrite lookup_delete_Some. intros [_ H]. by apply ri_pending0.
Qed.

Lemma replies_inv_fail_send seen c calls k :
  replies_inv seen (mkWorld c calls) -> replies_inv seen (mkWorld (fail_send c k) calls).
Proof.
  intros []. unfold fail_send. simpl in *. destruct (cl_pending c !! k) as [ch|] eqn:E; [|by split].
  destruct (ri_pending0 _ _ E) as (K0 & (pc & Hc) & B).
  unfold abort_chan. destruct (default [] (cl_chans c !! ch)) eqn:Eb; [|by split].
  split; simpl; try done.
  - intros k' id Hk. destruct (ri_pending0 _ _ Hk) as (? & ? & ?). split_and!; [done..|].
    destruct (decide (id = ch)) as [->|]; [by rewrite lookup_insert_eq; right|by rewrite lookup_insert_ne].
  - intros id r rest. destruct (decide (id = ch)) as [->|]; [|rewrite lookup_insert_ne by done; apply ri_chans0].
    rewrite lookup_insert_eq. intros [= <- <-]. split; [done|]. by exists k, pc.
Qed.

(** A call that keeps its key moves on. *)
Lemma replies_inv_move seen c calls id k pc pc' :
  replies_inv seen (mkWorld c calls) -> calls !! id = Some (mkCall k pc) -> k <> 0 ->
  (forall r, pc' = Returned (Ok r) -> reply_for inflate seen k r) ->
  replies_inv seen (mkWorld c (<[id := mkCall k pc']> calls)).
Proof.
  intros [] Hid K0 Hr. simpl in *.
  assert (forall j k' q, <[id := mkCall k pc']> calls !! j = Some (mkCall k' q) ->
            (j = id /\ k' = k /\ q = pc') \/ (j <> id /\ calls !! j = Some (mkCall k' q))) as L.
  { intros j k' q. rewrite list_lookup_insert_Some. intros [(-> & [= -> ->] & _)|[? ?]]; auto. }
  assert (forall j k' q, calls !! j = Some (mkCall k' q) -> exists q', <[id := mkCall k pc']> calls !! j = Some (mkCall k' q')) as F.
  { intros j k' q Hj. destruct (decide (j = id)) as [->|]; [|rewrite list_lookup_insert_ne by done; eauto].
    rewrite list_lookup_insert_eq by (by eapply lookup_lt_Some). simplify_eq. eauto. }
  split; simpl.
  - by rewrite length_insert.
  - intros j k' q [(-> & -> & ->)|[_ H]]%L; eauto.
  - intros i j k' q q' [(-> & -> & ->)|[? H]]%L [(-> & ? & ?)|[? H']]%L; subst; eauto.
  - intros j q [(-> & ? & ->)|[_ H]]%L; [by subst|eauto].
  - intros k' j Hk. destruct (ri_pending0 _ _ Hk) as (? & (q & ?) & ?). split_and!; eauto.
  - intros j r rest Hj. destruct (ri_chans0 _ _ _ Hj) as (-> & k' & q & ? & ?).
    destruct (F _ _ _ ltac:(eassumption)). eauto 10.
  - intros j k' r [(-> & -> & <-)|[_ H]]%L; eauto.
Qed.

Lemma replies_inv_begin seen c calls k :
  replies_inv seen (mkWorld c calls) -> Z.of_nat (length calls) < 2 ^ 32 - 1 ->
  forall c', call_begin c 0 = (c', k) -> replies_inv seen (mkWorld c' (calls ++ [k])).
Proof.
  intros Hinv HN c' Hb. pose proof Hinv as []. simpl in *.
  assert (forall j x, (calls ++ [k]) !! j = Some x -> calls !! j = Some x \/ (j = length calls /\ x = k)) as L.
  { intros j x. rewrite lookup_snoc_Some. naive_solver. }
  assert (forall j x, calls !! j = Some x -> (calls ++ [k]) !! j = Some x) as F.
  { intros j x ?. rewrite lookup_app_l by (by eapply lookup_lt_Some). done. }
  assert ((exists e, k = mkCall 0 (Returned (Err e)) /\ c' = c) \/
          (k = mkCall (cl_nextCkey c + 1) AtStore /\ cl_pending c' = cl_pending c /\ cl_chans c' = cl_chans c /\
           cl_nextCkey c' = cl_nextCkey c + 1)) as D.
  { unfold call_begin, nextCorrelation in Hb.
    destruct (cl_closed c); [left; injection Hb as <- <-; eauto|].
    destruct (cl_reconnecting c); [left; injection Hb as <- <-; eauto|]. simpl in Hb.
    rewrite wrap_small, (proj2 (Z.eqb_neq _ _)) in Hb by (unfold is_uint; lia). right. by injection Hb as <- <-. }
  destruct D as [(e & -> & ->)|(-> & E1 & E2 & E3)]; split; simpl; rewrite ?length_app, ?E1, ?E2, ?E3; simpl; try lia.
  - intros id q pc [?|[_ [= -> ->]]]%L; [eauto|done].
  - intros i j q pc pc' [?|[-> Ei]]%L [?|[-> Ej]]%L Q0; simplify_eq; eauto; done.
  - intros id pc [?|[_ [= ->]]]%L; eauto.
  - intros q id Hq. destruct (ri_pending0 _ _ Hq) as (? & (pc & ?) & ?). eauto.
  - intros id r rest Hr. destruct (ri_chans0 _ _ _ Hr) as (-> & q & pc & ? & ?). eauto 10.
  - intros id q r [?|[_ [=]]]%L; eauto.
  - intros id q pc [H|[_ [= -> ->]]]%L Q0; [|lia]. specialize (ri_keys0 _ _ _ H Q0). lia.
  - intros i j q pc pc' [H|[-> Ei]]%L [H'|[-> Ej]]%L Q0; simplify_eq; eauto.
    + specialize (ri_keys0 _ _ _ H Q0). lia.
    + specialize (ri_keys0 _ _ _ H' Q0). lia.
  - intros id pc [?|[_ [= ? ->]]]%L; [eauto|lia].
  - intros q id Hq. destruct (ri_pending0 _ _ Hq) as (? & (pc & ?) & ?). eauto.
  - intros id r rest Hr. destruct (ri_chans0 _ _ _ Hr) as (-> & q & pc & ? & ?). eauto 10.
  - intros id q r [?|[_ [=]]]%L; eauto.
Qed.

Lemma replies_inv_chan seen c calls id k pc buf p :
  replies_inv seen (mkWorld c calls) -> calls !! id = Some (mkCall k pc) ->
  (forall r rest, buf = r :: rest -> rest = [] /\ reply_for inflate seen k r) ->
  (forall k' id', p !! k' = Some id' ->
     (cl_pending c !! k' = Some id' \/ k' = k /\ k <> 0 /\ id' = id) /\ (id' = id -> buf = [] \/ buf = [RAborted])) ->
  replies_inv seen (mkWorld (set_chans (set_pending c p) (<[id := buf]> (cl_chans c))) calls).
Proof.
  intros [] Hid Hb Hp. simpl in *. split; simpl; try done.
  - intros k' id' Hk. destruct (Hp _ _ Hk) as [Q B]. destruct (decide (id' = id)) as [->|].
    + rewrite lookup_insert_eq. simpl. destruct Q as [Q|(-> & ? & _)]; [|by eauto].
      destruct (ri_pending0 _ _ Q) as (? & ? & _). auto.
    + rewrite lookup_insert_ne by done. destruct Q as [Q|(_ & _ & ?)]; [by apply ri_pending0|done].
  - intros j r rest. destruct (decide (j = id)) as [->|]; [|rewrite lookup_insert_ne by done; apply ri_chans0].
    rewrite lookup_insert_eq. intros [= ->]. destruct (Hb _ _ eq_refl). eauto.
Qed.

Lemma replies_inv_dispatch seen c calls df c' :
  replies_inv seen (mkWorld c calls) -> dispatch inflate c df = Ok (Some c') ->
  replies_inv (seen ++ [EDispatch df]) (mkWorld c' calls).
Proof.
  intros Hinv Hd. unfold dispatch in Hd. destruct (decompressBody inflate df) as [body| |] eqn:Eb; [|done..].
  cbn [mbind res_bind] in Hd.
  destruct (if h_ckey (df_header df) =? 0 then None else cl_pending c !! h_ckey (df_header df)) as [ch|] eqn:Ep.
  - destruct (0 <? length _)%nat; [done|]. injection Hd as <-.
    destruct (h_ckey (df_header df) =? 0); [done|]. destruct (ri_pending _ _ Hinv _ _ Ep) as (K0 & (pc & Hc) & B).
    eapply replies_inv_chan; [by apply replies_inv_mono|exact Hc| |].
    + intros r rest [= <- <-]. split; [done|]. simpl. split_and!; [done..|]. apply elem_of_app; right; left.
    + intros k' id'. rewrite lookup_delete_Some. intros [Hne Hk]. split; [by left|]. intros ->.
      destruct (ri_pending _ _ Hinv _ _ Hk) as (_ & (pc' & Hc') & _). simpl in *. simplify_eq.
  - unfold deliverUnsolicited in Hd. destruct (if is_broadcast _ then _ else _) as [prefix out].
    destruct (cl_subClosed c); [done|]. apply replies_inv_mono.
    destruct (_ <? cl_subCap c)%nat; injection Hd as <-; (eapply replies_inv_client; [..|exact Hinv]; done).
Qed.

Lemma replies_inv_exec seen w e w' :
  replies_inv seen w -> Z.of_nat (length (w_calls w)) < 2 ^ 32 - 1 -> exec inflate reconnect w e = Some w' ->
  replies_inv (seen ++ [e]) w'.
Proof.
  destruct w as [c calls]. intros Hinv HN He. pose proof (replies_inv_mono seen e _ Hinv) as Hm.
  assert (forall id k pc, calls !! id = Some (mkCall k pc) -> (forall e, pc <> Returned (Err e)) -> k <> 0) as NZ.
  { intros id k pc H Hpc ->. destruct (ri_begun _ _ Hinv _ _ H) as (x & ->). by apply (Hpc x). }
  destruct e; cbn [exec w_client w_calls] in He.
  all: try (injection He as <-; (eapply replies_inv_client; [..|exact Hm]; done)).
  - destruct (call_begin c 0) as [c' k] eqn:Eb. injection He as <-. by eapply replies_inv_begin.
  - destruct (calls !! id) as [[k []]|] eqn:Ec; try done. injection He as <-. unfold call_store, put_call. simpl.
    eapply replies_inv_move; [|exact Ec|by eapply NZ|done].
    eapply replies_inv_chan; [exact Hm|exact Ec|done|]. intros k' id'. rewrite lookup_insert_Some.
    intros [[<- <-]|[? ?]]; (split; [|auto]); [right|by left]. split_and!; [done| |done]. by eapply NZ.
  - destruct (calls !! id) as [[k []]|] eqn:Ec; try done. injection He as <-. unfold call_write, put_call.
    assert (k <> 0) as K0 by (by eapply NZ).
    repeat case_match; simpl; (eapply replies_inv_move; [|exact Ec|exact K0|done]); auto using replies_inv_forget.
  - destruct (calls !! id) as [[k []]|] eqn:Ec; try done. injection He as <-. unfold call_wait, put_call. simpl.
    eapply replies_inv_move; [exact Hm|exact Ec|by eapply NZ|done].
  - destruct (calls !! id) as [[k []]|] eqn:Ec; try done. assert (k <> 0) as K0 by (by eapply NZ).
    destruct (call_select _ _ _ _ _ _) as [[c' k']|] eqn:Es; [|done]. injection He as <-. unfold put_call. simpl.
    destruct a; simpl in Es.
    + destruct (cl_chans c !! id) as [[|r rest]|] eqn:Eb; try done. injection Es as <- <-.
      destruct (ri_chans _ _ Hm _ _ _ Eb) as (-> & k' & pc & Hc & Hr). simpl in Hc. simplify_eq.
      eapply replies_inv_move; [|exact Ec|exact K0|intros ? [= <-]; exact Hr].
      eapply replies_inv_client;
        [..|apply (replies_inv_chan _ c calls id k _ [] (cl_pending c) Hm Ec); [done|by auto]]; done.
    + injection Es as <- <-. eapply replies_inv_move; [by apply replies_inv_forget|exact Ec|exact K0|done].
    + case_match; [|done]. injection Es as <- <-.
      eapply replies_inv_move; [by apply replies_inv_forget|exact Ec|exact K0|done].
  - destruct (dispatch inflate c df) as [[c'|]| |] eqn:Ed; try done. injection He as <-. by eapply replies_inv_dispatch.
  - injection He as <-. by apply replies_inv_fail_send.
  - injection He as <-. by apply replies_inv_forget.
  - unfold close_sub in He. destruct (cl_subClosed c); [done|]. injection He as <-.
    eapply replies_inv_client; [..|exact Hm]; done.
Qed.
End replies.

Lemma exec_calls_grow inflate reconnect w e w' :
  exec inflate reconnect w e = Some w' -> (length (w_calls w) <= length (w_calls w'))%nat.
Proof.
  destruct w as [c calls]. destruct e; cbn [exec w_client w_calls]; unfold put_call.
  all: try (intros [= <-]; done).
  - destruct (call_begin c 0). intros [= <-]. simpl. rewrite length_app. lia.
  - destruct (calls !! id) as [[? []]|]; try done. intros [= <-]. simpl. by rewrite length_insert.
  - destruct (calls !! id) as [[? []]|]; try done. intros [= <-]. simpl. by rewrite length_insert.
  - destruct (calls !! id) as [[? []]|]; try done. intros [= <-]. simpl. by rewrite length_insert.
  - destruct (calls !! id) as [[? []]|]; try done. destruct (call_select _ _ _ _ _ _); [|done].
    intros [= <-]. simpl. by rewrite length_insert.
  - destruct (dispatch _ _ _) as [[]| |]; try done. by intros [= <-].
  - destruct (close_sub c); try done. by intros [= <-].
Qed.

Lemma exec_all_calls_grow inflate reconnect w es w' :
  exec_all inflate reconnect w es = Some w' -> (length (w_calls w) <= length (w_calls w'))%nat.
Proof.
  revert w. induction es as [|e es IH]; intros w He; cbn [exec_all] in He; [by injection He as ->|].
  destruct (exec inflate reconnect w e) as [w1|] eqn:E; [|done].
  pose proof (exec_calls_grow _ _ _ _ _ E). specialize (IH w1 He). lia.
Qed.

Lemma replies_inv_run inflate reconnect es seen w w' :
  replies_inv inflate seen w -> exec_all inflate reconnect w es = Some w' ->
  Z.of_nat (length (w_calls w')) < 2 ^ 32 - 1 ->
  replies_inv inflate (seen ++ es) w'.
Proof.
  revert seen w. induction es as [|e es IH]; intros seen w Hinv He HN; cbn [exec_all] in He.
  - injection He as ->. by rewrite app_nil_r.
  - destruct (exec inflate reconnect w e) as [w1|] eqn:E1; [|done]. cbn [mbind option_bind] in He.
    pose proof (exec_calls_grow _ _ _ _ _ E1) as G1.
    pose proof (exec_all_calls_grow _ _ _ _ _ He) as G2.
    replace (seen ++ e :: es) with ((seen ++ [e]) ++ es) by (by rewrite <-app_assoc).
    apply (IH (seen ++ [e]) w1); [eapply replies_inv_exec; [exact Hinv|lia|exact E1]|done|done].
Qed.

Lemma replies_inv_new inflate n : replies_inv inflate [] (mkWorld (new_client n) []).
Proof. split; simpl; try done. Qed.

(** C11. Replies are correlated in every interleaving: whatever the order in which
    callers, the read loop, the supervisor, [Close] and the subscriber take their
    steps, over reconnections too, a call that returns a frame returns one that the
    broker sent with that call's own correlation key, decompressed, and no other
    call has that key; and the read loop can wait to hand over a reply only when
    the call's channel already holds the notice that the connection was lost. Holds
    for callers that leave the key to the client, up to the 2^32 - 1 keys there are. *)
Theorem replies_correlated (inflate : list byte -> option (list byte)) (reconnect : bool) (size : nat) (es : list ev) (w : world) :
  exec_all inflate reconnect (mkWorld (new_client size) []) es = Some w ->
  Z.of_nat (length (w_calls w)) < 2 ^ 32 - 1 ->
  (forall id k df body, w_calls w !! id = Some (mkCall k (Returned (Ok (RFrame df body)))) ->
     h_ckey (df_header df) = k /\ EDispatch df ∈ es /\ decompressBody inflate df = Ok body /\
     forall j pc, w_calls w !! j = Some (mkCall k pc) -> j = id) /\
  (forall df, dispatch inflate (w_client w) df = Ok None ->
     exists id, cl_pending (w_client w) !! h_ckey (df_header df) = Some id /\ cl_chans (w_client w) !! id = Some [RAborted]).
Proof.
  intros He HN. pose proof (replies_inv_run _ _ _ [] _ _ (replies_inv_new inflate size) He HN) as Hinv. simpl in Hinv.
  split.
  - intros id k df body Hid. destruct (ri_returned _ _ _ Hinv _ _ _ Hid) as (Hk & K0 & Hb & Hs). split_and!; [done..|].
    intros j pc Hj. by eapply (ri_unique _ _ _ Hinv).
  - intros df Hd. unfold dispatch in Hd. destruct (decompressBody inflate df) as [body| |]; [|done..]. cbn [mbind res_bind] in Hd.
    destruct (h_ckey (df_header df) =? 0); [by destruct (deliverUnsolicited _ _)|].
    destruct (cl_pending (w_client w) !! h_ckey (df_header df)) as [id|] eqn:Ep; [|by destruct (deliverUnsolicited _ _)].
    exists id. split; [done|]. destruct (ri_pending _ _ _ Hinv _ _ Ep) as (_ & _ & [B|B]); rewrite B in Hd; [done|].
    by destruct (cl_chans (w_client w) !! id); simpl in B; subst.
Qed.

(** The replies to two calls, in the other order. *)
#[local] Abbreviation reply_to k := (frame_view (set_ckey ex_input k)).
#[local] Abbreviation two_calls :=
  ([EBegin; EBegin; EStore 0; EStore 1; EWrite 1 None true; EWrite 0 None true; EWait 0; EWait 1;
    EDispatch (reply_to 2); EDispatch (reply_to 1); ESelect 0 ArmReply; ESelect 1 ArmReply])%nat.

Lemma replies_correlated_witness :
  h_ckey (df_header (reply_to 1)) = 1.
Proof.
  destruct (exec_all (fun _ => None) true (mkWorld (new_client 0) []) two_calls) as [w|] eqn:E;
    [|exfalso; vm_compute in E; discriminate E].
  refine (proj1 (proj1 (replies_correlated (fun _ => None) true 0 two_calls w E _) 0%nat 1 (reply_to 1) (fi_body ex_input) _)).
  - vm_compute in E. injection E as <-. reflexivity.
  - vm_compute in E. injection E as <-. vm_compute. reflexivity.
Defined.

(** [failPending] is the sends and deletions of the entries, one after another. *)
Lemma fail_entries c l :
  NoDup (map fst l) -> (forall k ch, (k, ch) ∈ l -> cl_pending c !! k = Some ch) ->
  fold_left (fun c k => forget (fail_send c k) k) (map fst l) c
    = set_pending (set_chans c (fold_left abort_chan (map snd l) (cl_chans c))) (foldr delete (cl_pending c) (rev (map fst l))).
Proof.
  revert c. induction l as [|[k ch] l IH]; intros c Hn Hl; cbn [map fold_left fst snd rev]; [by destruct c|].
  apply NoDup_cons in Hn as [Hk Hn]. rewrite IH; [|done|].
  - unfold fail_send. rewrite (Hl k ch) by left. rewrite foldr_app. done.
  - intros k' ch' Hin. unfold fail_send. rewrite (Hl k ch) by left. cbn [forget set_pending cl_pending set_chans].
    rewrite lookup_delete_ne; [by apply Hl; right|]. intros ->. apply Hk. by apply (list_elem_of_fmap_2 fst) in Hin.
Qed.

Lemma foldr_delete_all (p : gmap Z nat) ks : (forall k, is_Some (p !! k) -> k ∈ ks) -> foldr delete p ks = ∅.
Proof.
  intros H. apply map_eq. intros k. rewrite lookup_empty. assert (forall q : gmap Z nat, (q !! k = None \/ k ∈ ks) -> foldr delete q ks !! k = None) as G.
  { clear H. induction ks as [|x ks IH]; intros q [Hq|Hk]; cbn [foldr]; [done|by apply not_elem_of_nil in Hk|..].
    - apply lookup_delete_None. auto.
    - apply lookup_delete_None. apply elem_of_cons in Hk as [->|Hk]; auto. }
  apply G. destruct (p !! k) eqn:E; [right; apply H; eauto|by left].
Qed.

Lemma failPending_steps c :
  failPending c = fold_left (fun c k => forget (fail_send c k) k) (map fst (map_to_list (cl_pending c))) c.
Proof.
  rewrite fail_entries; [|apply NoDup_fst_map_to_list|by intros k ch; rewrite elem_of_map_to_list].
  unfold failPending. rewrite foldr_delete_all; [done|]. intros k [ch Hk]. 
  apply list_elem_of_In. rewrite <-in_rev. apply list_elem_of_In. change k with (k, ch).1. apply (list_elem_of_fmap_2 fst).
  by apply elem_of_map_to_list.
Qed.

(** * The waits between reconnections *)
Fixpoint waits (overflow : Z) (rc : ReconnectOptions) (b : Z) (n : nat) : list Z :=
  match n with O => [] | S n => b :: waits overflow rc (nextBackoff overflow b rc) n end.

(** The defaults: one second, doubled up to thirty. *)
Lemma default_waits overflow :
  let rc := effective (mkReconnect 0 0 f0 0) in
  waits overflow rc (ro_InitialBackoff rc) 8 = map (fun s => s * ns_per_sec) [1; 2; 4; 8; 16; 30; 30; 30].
Proof. vm_compute. reflexivity. Qed.

Lemma nextBackoff_le overflow b rc : nextBackoff overflow b rc <= ro_MaxBackoff rc.
Proof. unfold nextBackoff. case_if; bool_lia. Qed.

(** Options that wait longer at first than at most: the first wait is the longer. *)
Lemma first_wait_unbounded :
  let rc := effective (mkReconnect (60 * ns_per_sec) 0 f0 0) in
  waits 0 rc (ro_InitialBackoff rc) 2 = [60 * ns_per_sec; 30 * ns_per_sec].
Proof. vm_compute. reflexivity. Qed.

(** A tick declares the connection dead exactly after two silent intervals, and
    otherwise sends unless something was sent within one. *)
Lemma heartbeat_decision interval now recv sent :
  0 < interval < 2 ^ 61 -> 0 <= recv <= now -> 0 <= sent <= now -> now < 2 ^ 62 ->
  heartbeat_tick interval now recv sent =
    if 2 * interval <? now - recv then BeatDead else if now - sent <? interval then BeatSkip else BeatSend.
Proof.
  intros Hi Hr Hs Hn. unfold heartbeat_tick, Best.Sub. norm_pow. rewrite wrap64_small by (unfold is_int64; norm_pow; lia).
  rewrite !Z.min_r, !Z.max_r by lia. done.
Qed.

(** * Defects *)
(** The comment of [dispatch] says that a compressed body is decompressed; a
    broadcast is delivered as it came, its prefix unread. *)
Lemma broadcast_left_compressed :
  let plain := replicate 3 x41 in
  let inflate := fun _ => Some plain in
  let packed := [x00; x00; x00; x03; x78; x9c] in
  let df := let v := frame_view (mkFrameInput FCCast 0 0 0 0 0 [] [] 7 0 (replicate 8 x00) (replicate 4 x00) (replicate 16 x00)
                                   [] 0 [] [] [] None packed) in
            mkDecodedFrame (df_header v) (df_navis v) (df_errMsg v) (df_pkey v) (df_nkey v) (df_cookie v) (df_body v) ZipfZlib in
  decompressBody inflate df = Ok plain /\
  (exists c, dispatch inflate (new_client 0) df = Ok (Some c) /\ map us_body (cl_sub c) = [packed]) /\
  (exists c, dispatch inflate (call_store (new_client 0) 0 7).1 df = Ok (Some c) /\ cl_chans c !! 0%nat = Some [RFrame df plain]).
Proof. vm_compute. split; [done|]. split; eexists; done. Qed.

(** A frame read while [Close] runs is sent on the closed channel. *)
Lemma close_races_dispatch inflate c c' df :
  Close c = Ok c' -> cl_closed c = false -> df_bodyZipf df = ZipfNone -> dispatch inflate c' df = Panic.
Proof.
  unfold Close. intros Hc E0 Hz. rewrite E0 in Hc. unfold close_sub in Hc. destruct (cl_subClosed _) in Hc; [done|]. injection Hc as <-.
  unfold dispatch, decompressBody. rewrite Hz. cbn -[deliverUnsolicited].
  rewrite lookup_empty. replace (if h_ckey (df_header df) =? 0 then None else None) with (@None nat) by (by case_if).
  unfold deliverUnsolicited. by destruct (if is_broadcast _ then _ else _).
Qed.

(** [Close] during the supervisor's last attempt, then its next round: the channel is
    closed twice. *)
Lemma exhausted_after_close_panics rc c c' attempt backoff :
  Close c = Ok c' -> cl_closed c = false -> 0 < ro_MaxAttempts rc <= attempt -> sup_attempt c' rc attempt backoff = Panic.
Proof.
  unfold Close. intros Hc E0 Ha. rewrite E0 in Hc. unfold close_sub in Hc. destruct (cl_subClosed _) in Hc; [done|]. injection Hc as <-.
  unfold sup_attempt. rewrite (proj2 (Z.ltb_lt _ _)), (proj2 (Z.ltb_lt _ _)) by lia. done.
Qed.

(** * What a call writes *)
(** Every function but the broadcasts: the broker reads the caller's key, and with
    a routing given the origin to answer to and the destination. *)
Lemma call_addressed whoami chan i k :
  sendable (applyDefaults whoami chan (set_ckey i k)) -> is_broadcast (fi_func i) = false -> fi_navis i = [] -> fi_rkey i <> [] ->
  exists frame, EncodeFrame (applyDefaults whoami chan (set_ckey i k)) = Ok frame /\
  exists df, DecodeFrame frame = Ok df /\ h_ckey (df_header df) = k /\ df_body df = fi_body i /\
    df_navis df = [origin_navi whoami; dest_navi (fi_xchg i) (fi_rkey i)].
Proof.
  intros Hs Hb Hn Hr. eexists. split; [by apply EncodeFrame_eq, Hs|]. eexists. split; [by apply frame_decodes|].
  unfold applyDefaults. destruct (decide _); cbn [set_ckey set_chan fi_func fi_navis fi_rkey fi_xchg];
    rewrite Hb, Hn, (bool_decide_false (fi_rkey i = [])) by done; rewrite orb_true_r; done.
Qed.

(** A broadcast goes out without route entries, as the broker's fan-out needs. *)
Lemma broadcast_published whoami chan i :
  is_broadcast (fi_func i) = true -> fi_dirf i = 0 ->
  fi_dirf (applyDefaults whoami chan i) = DirPublish /\ fi_navis (applyDefaults whoami chan i) = fi_navis i.
Proof.
  intros Hb Hd. unfold applyDefaults.
  destruct (decide _); cbn [set_chan fi_func fi_dirf fi_navis]; rewrite Hb, Hd; done.
Qed.
