(* ===== verification/Push.v ===== *)
(** The push service (src/internal/push, src/pkg/push/multiclient.go) and its edge
    (src/internal/edge/push): the registry of WebSocket connections by user, the
    dispatcher that takes broker broadcasts and HTTP pushes, the gRPC stream to the
    edges and the client that spreads pushes over several instances.

    A connection has its send queue and what its write loop has written. The steps
    of the handlers, the write loops and the dispatcher interleave; the dispatcher
    copies the receivers and then sends to them one by one. JSON is a parameter, as
    are the iteration orders of maps. The edge's registry and connections are the
    same code as the service's. *)

From Stdlib Require Import ZArith QArith Lia Ascii.
From S2P Require Import Prelude Codec Frame Handshake GoStrings Best HashRing Client.
Local Open Scope Z_scope.
Local Open Scope wtg_scope.

Abbreviation payload := (list byte).

(** * Messages *)
Definition trimNulString (b : list byte) : string := String.string_of_list_byte (trimNul b).
Definition LogonIDString (h : BroadcastHeader) : string := trimNulString (bh_logonID h).
Definition ExchangeString (h : BroadcastHeader) : string := trimNulString (bh_exchange h).
Definition ChanString (h : BroadcastHeader) : string := trimNulString (bh_chan h).

(** The fields of [mymq.Unsolicited] the service reads. *)
Record Message := mkMessage { me_func : Z; me_subc : Z; me_prefix : option BroadcastHeader; me_body : list byte }.
Definition of_unsolicited (u : Unsolicited) : Message :=
  mkMessage (h_func (df_header (us_frame u))) (h_subc (df_header (us_frame u))) (us_prefix u) (us_body u).
(** The addressee; empty: everyone. *)
Definition logon_of (m : Message) : string := match me_prefix m with Some h => LogonIDString h | None => "" end.

Record WSEnvelope := mkEnvelope {
  we_func : Z; we_subc : Z; we_exchange : string; we_channel : string; we_logonID : string; we_data : list byte }.
Record PushMessage := mkPushMessage {
  pm_func : Z; pm_subc : Z; pm_exchange : string; pm_channel : string; pm_logonId : string; pm_data : list byte; pm_received : Z }.
Record wsPush := mkWsPush {
  wp_func : Z; wp_subc : Z; wp_exchange : string; wp_channel : string; wp_logonID : string; wp_data : list byte; wp_received : Z }.

Section envelopes.
Context (json_Valid : list byte -> bool) (json_string : list byte -> option (list byte)).
Context (marshal : WSEnvelope -> option payload) (marshal_ws : wsPush -> option payload).

(** The body as it is, or as a JSON string. *)
Definition envelope_data (body : list byte) : option (list byte) :=
  if bool_decide (body = []) then Some [] else if json_Valid body then Some body else json_string body.
Definition buildEnvelope (m : Message) : option payload :=
  let '(ex, ch, lg) := match me_prefix m with
    | Some h => (ExchangeString h, ChanString h, LogonIDString h) | None => ("", "", "") end in
  data ← envelope_data (me_body m);
  marshal (mkEnvelope (me_func m) (me_subc m) ex ch lg data).
Definition unsolicitedToProto (now : Z) (m : Message) : PushMessage :=
  let '(ex, ch, lg) := match me_prefix m with
    | Some h => (ExchangeString h, ChanString h, LogonIDString h) | None => ("", "", "") end in
  mkPushMessage (me_func m) (me_subc m) ex ch lg (me_body m) now.
Definition encodePushJSON (m : PushMessage) : option payload :=
  data ← envelope_data (pm_data m);
  marshal_ws (mkWsPush (pm_func m) (pm_subc m) (pm_exchange m) (pm_channel m) (pm_logonId m) data (pm_received m)).
End envelopes.

(** * Connections *)
(** [cn_written], [cn_writer]: what the write loop has written, whether it runs;
    [cn_added], [cn_removed]: how far the handler and the winner of [Close] are. *)
Record Connection := mkConnection {
  cn_logonID : string; cn_channel : string; cn_send : list payload; cn_cap : nat; cn_closed : bool;
  cn_written : list payload; cn_writer : bool; cn_added : bool; cn_removed : bool }.
Definition NewConnection (logonID channel : string) (sendQueueSize : Z) : Connection :=
  mkConnection logonID channel [] (Z.to_nat (if sendQueueSize <=? 0 then 256 else sendQueueSize)) false [] true false false.
Definition set_send (c : Connection) (q w : list payload) : Connection :=
  mkConnection (cn_logonID c) (cn_channel c) q (cn_cap c) (cn_closed c) w (cn_writer c) (cn_added c) (cn_removed c).
Definition set_closed (c : Connection) : Connection :=
  mkConnection (cn_logonID c) (cn_channel c) (cn_send c) (cn_cap c) true (cn_written c) (cn_writer c) (cn_added c) (cn_removed c).
Definition set_stages (c : Connection) (writer added removed : bool) : Connection :=
  mkConnection (cn_logonID c) (cn_channel c) (cn_send c) (cn_cap c) (cn_closed c) (cn_written c) writer added removed.

Inductive SendErr := ErrConnClosed | ErrSendQueueFull.
Definition conn_Send (c : Connection) (p : payload) : res SendErr Connection :=
  if cn_closed c then Err ErrConnClosed
  else if (length (cn_send c) <? cn_cap c)%nat then Ok (set_send c (cn_send c ++ [p]) (cn_written c))
  else Err ErrSendQueueFull.

(** * The registry *)
Record Registry := mkRegistry { rg_conns : gmap nat Connection; rg_byUsid : gmap string (list nat) }.
Definition set_conn (r : Registry) (id : nat) (c : Connection) : Registry := mkRegistry (<[id := c]> (rg_conns r)) (rg_byUsid r).
Definition conns_of (r : Registry) (usid : string) : list nat := default [] (rg_byUsid r !! usid).

Definition Add (r : Registry) (id : nat) (c : Connection) : res Empty_set Registry :=
  if bool_decide (cn_logonID c = "") then Panic
  else Ok (mkRegistry (<[id := set_stages c (cn_writer c) true (cn_removed c)]> (rg_conns r))
             (<[cn_logonID c := conns_of r (cn_logonID c) ++ [id]]> (rg_byUsid r))).
Fixpoint remove_first (id : nat) (l : list nat) : list nat :=
  match l with [] => [] | x :: l => if decide (x = id) then l else x :: remove_first id l end.
Definition Remove (r : Registry) (id : nat) (c : Connection) : Registry :=
  let rest := remove_first id (conns_of r (cn_logonID c)) in
  mkRegistry (rg_conns r)
    (if bool_decide (rest = []) then delete (cn_logonID c) (rg_byUsid r) else <[cn_logonID c := rest]> (rg_byUsid r)).

(** [Close]: only the first closes; its [onClose] removes the connection. *)
Definition close_conn (r : Registry) (id : nat) (c : Connection) : Registry :=
  if cn_closed c then r
  else let c := set_closed c in
       set_conn (Remove r id c) id (set_stages c (cn_writer c) (cn_added c) true).

(** The body of both fan-out loops; a full queue closes the connection. *)
Definition send_to (p : payload) (st : Registry * Z * Z) (id : nat) : Registry * Z * Z :=
  let '(r, sent, failed) := st in
  match rg_conns r !! id with
  | None => st
  | Some c =>
      match conn_Send c p with
      | Ok c => (set_conn r id c, sent + 1, failed)
      | Err ErrSendQueueFull => (close_conn r id c, sent, failed + 1)
      | _ => (r, sent, failed + 1)
      end
  end.
Definition all_conns (r : Registry) (order : list string) : list nat := concat (map (conns_of r) order).
Definition FanoutToUser (r : Registry) (usid : string) (p : payload) : Registry * Z * Z :=
  fold_left (send_to p) (conns_of r usid) (r, 0, 0).
Definition FanoutBroadcast (r : Registry) (order : list string) (p : payload) : Registry * Z * Z :=
  fold_left (send_to p) (all_conns r order) (r, 0, 0).
Definition Registry_Count (r : Registry) : Z := map_fold (fun _ l n => n + zlen l) 0 (rg_byUsid r).
Definition UserCount (r : Registry) : nat := size (rg_byUsid r).
Definition ConnsForUser (r : Registry) (usid : string) : list nat := conns_of r usid.
Definition close_id (r : Registry) (id : nat) : Registry :=
  match rg_conns r !! id with Some c => close_conn r id c | None => r end.
Definition CloseAll (r : Registry) (order : list string) : Registry := fold_left close_id (all_conns r order) r.

(** * The gRPC stream to the edges *)
Record pushSubscriber := mkPushSubscriber { ps_out : list PushMessage; ps_srvID : string }.
Record GRPCServer := mkGRPCServer { gs_bufSz : nat; gs_subscribers : gmap Z pushSubscriber; gs_ended : gmap Z pushSubscriber; gs_nextSubID : Z }.
Definition NewGRPCServer (bufSize : Z) : GRPCServer :=
  mkGRPCServer (Z.to_nat (if bufSize <=? 0 then 1024 else bufSize)) ∅ ∅ 0.
(** The stream opens; [gs_ended]: queues closed as slow, drained before the stream
    ends with its error. *)
Definition grpc_subscribe (g : GRPCServer) (srvID : string) : GRPCServer * Z :=
  let id := incr64 (gs_nextSubID g) in
  (mkGRPCServer (gs_bufSz g) (<[id := mkPushSubscriber [] srvID]> (gs_subscribers g)) (gs_ended g) id, id).
Definition removeSubscriber (g : GRPCServer) (id : Z) : GRPCServer :=
  mkGRPCServer (gs_bufSz g) (delete id (gs_subscribers g)) (gs_ended g) (gs_nextSubID g).
Definition grpc_send_to (pb : PushMessage) (g : GRPCServer) (id : Z) : GRPCServer :=
  match gs_subscribers g !! id with
  | None => g
  | Some s =>
      if (length (ps_out s) <? gs_bufSz g)%nat
      then mkGRPCServer (gs_bufSz g) (<[id := mkPushSubscriber (ps_out s ++ [pb]) (ps_srvID s)]> (gs_subscribers g)) (gs_ended g) (gs_nextSubID g)
      else removeSubscriber (mkGRPCServer (gs_bufSz g) (gs_subscribers g) (<[id := s]> (gs_ended g)) (gs_nextSubID g)) id
  end.
Definition OnUnsolicited (g : GRPCServer) (order : list Z) (now : Z) (m : Message) : GRPCServer :=
  if is_broadcast (me_func m) then fold_left (grpc_send_to (unsolicitedToProto now m)) order g else g.
Definition SubscriberCount (g : GRPCServer) : nat := size (gs_subscribers g).

(** * The dispatcher *)
Record Stats := mkStats {
  st_Received : Z; st_Delivered : Z; st_Dropped : Z; st_DropUnsupp : Z; st_DropEnvelope : Z; st_DropUnknownUser : Z;
  st_DropNoBroadcast : Z; st_SendFailed : Z; st_RecvBroker : Z; st_RecvHTTP : Z; st_DropInjectFull : Z }.
Record Dispatcher := mkDispatcher { di_registry : Registry; di_grpc : option GRPCServer; di_inject : list Message; di_stats : Stats }.
Definition zero_stats : Stats := mkStats 0 0 0 0 0 0 0 0 0 0 0.
Definition injectCap : nat := 256.
Definition NewDispatcher (grpc : option GRPCServer) : Dispatcher := mkDispatcher (mkRegistry ∅ ∅) grpc [] zero_stats.

Definition Inject (d : Dispatcher) (m : Message) : Dispatcher * bool :=
  if (length (di_inject d) <? injectCap)%nat
  then (mkDispatcher (di_registry d) (di_grpc d) (di_inject d ++ [m]) (di_stats d), true)
  else let s := di_stats d in
       (mkDispatcher (di_registry d) (di_grpc d) (di_inject d)
          (mkStats (st_Received s) (st_Delivered s) (st_Dropped s) (st_DropUnsupp s) (st_DropEnvelope s) (st_DropUnknownUser s)
             (st_DropNoBroadcast s) (st_SendFailed s) (st_RecvBroker s) (st_RecvHTTP s) (incr64 (st_DropInjectFull s))), false).

(** How one message ends. *)
Inductive outcome := Unsupported | NoEnvelope | Fanned (broadcast : bool) (sent failed : Z).
Definition add64 (a b : Z) : Z := wrap 64 (a + b).
Definition count_outcome (s : Stats) (o : outcome) : Stats :=
  let drop (b : bool) := if b then incr64 (st_Dropped s) else st_Dropped s in
  let on (b : bool) v := if b then incr64 v else v in
  match o with
  | Unsupported =>
      mkStats (incr64 (st_Received s)) (st_Delivered s) (drop true) (incr64 (st_DropUnsupp s)) (st_DropEnvelope s) (st_DropUnknownUser s)
        (st_DropNoBroadcast s) (st_SendFailed s) (st_RecvBroker s) (st_RecvHTTP s) (st_DropInjectFull s)
  | NoEnvelope =>
      mkStats (incr64 (st_Received s)) (st_Delivered s) (drop true) (st_DropUnsupp s) (incr64 (st_DropEnvelope s)) (st_DropUnknownUser s)
        (st_DropNoBroadcast s) (st_SendFailed s) (st_RecvBroker s) (st_RecvHTTP s) (st_DropInjectFull s)
  | Fanned b sent failed =>
      let none := negb (0 <? sent) in
      mkStats (incr64 (st_Received s)) (if 0 <? sent then add64 (st_Delivered s) sent else st_Delivered s) (drop none)
        (st_DropUnsupp s) (st_DropEnvelope s) (on (none && negb b) (st_DropUnknownUser s)) (on (none && b) (st_DropNoBroadcast s))
        (if 0 <? failed then add64 (st_SendFailed s) failed else st_SendFailed s) (st_RecvBroker s) (st_RecvHTTP s) (st_DropInjectFull s)
  end.
Definition count_source (s : Stats) (http : bool) : Stats :=
  mkStats (st_Received s) (st_Delivered s) (st_Dropped s) (st_DropUnsupp s) (st_DropEnvelope s) (st_DropUnknownUser s)
    (st_DropNoBroadcast s) (st_SendFailed s) (if http then st_RecvBroker s else incr64 (st_RecvBroker s))
    (if http then incr64 (st_RecvHTTP s) else st_RecvHTTP s) (st_DropInjectFull s).

Section handling.
Context (json_Valid : list byte -> bool) (json_string : list byte -> option (list byte)).
Context (marshal : WSEnvelope -> option payload) (marshal_ws : wsPush -> option payload).

(** [users], [subs]: the iteration orders of the registry's and the stream's maps. *)
Definition fan_out (r : Registry) (users : list string) (target : string) (p : payload) : Registry * Z * Z :=
  if bool_decide (target = "") then FanoutBroadcast r users p else FanoutToUser r target p.
Definition handle (users : list string) (subs : list Z) (now : Z) (d : Dispatcher) (m : Message) : Dispatcher :=
  if negb (is_broadcast (me_func m))
  then mkDispatcher (di_registry d) (di_grpc d) (di_inject d) (count_outcome (di_stats d) Unsupported)
  else
    let grpc := (fun g => OnUnsolicited g subs now m) <$> di_grpc d in
    match buildEnvelope json_Valid json_string marshal m with
    | None => mkDispatcher (di_registry d) grpc (di_inject d) (count_outcome (di_stats d) NoEnvelope)
    | Some p =>
        let '(r, sent, failed) := fan_out (di_registry d) users (logon_of m) p in
        mkDispatcher r grpc (di_inject d) (count_outcome (di_stats d) (Fanned (bool_decide (logon_of m = "")) sent failed))
    end.
(** One round of [Run]: a broker message, or the oldest injected one. *)
Definition Run_broker (users : list string) (subs : list Z) (now : Z) (d : Dispatcher) (m : Message) : Dispatcher :=
  handle users subs now (mkDispatcher (di_registry d) (di_grpc d) (di_inject d) (count_source (di_stats d) false)) m.
Definition Run_injected (users : list string) (subs : list Z) (now : Z) (d : Dispatcher) : option Dispatcher :=
  match di_inject d with
  | [] => None
  | m :: rest => Some (handle users subs now (mkDispatcher (di_registry d) (di_grpc d) rest (count_source (di_stats d) true)) m)
  end.

(** ** The edge *)
Record EdgePush := mkEdgePush { ep_registry : Registry; ep_recv : Z; ep_delivered : Z; ep_dropped : Z }.
Definition edge_dispatch (users : list string) (s : EdgePush) (m : PushMessage) : EdgePush :=
  let recv := incr64 (ep_recv s) in
  match encodePushJSON json_Valid json_string marshal_ws m with
  | None => mkEdgePush (ep_registry s) recv (ep_delivered s) (ep_dropped s)
  | Some p =>
      let '(r, sent, _) := fan_out (ep_registry s) users (pm_logonId m) p in
      if 0 <? sent then mkEdgePush r recv (add64 (ep_delivered s) sent) (ep_dropped s)
      else mkEdgePush r recv (ep_delivered s) (incr64 (ep_dropped s))
  end.
End handling.
Definition push_backoff0 : Z := 500 * 1000000.
Definition push_next_backoff (b : Z) : Z := let b := 2 * b in if 10 * 1000000000 <? b then 10 * 1000000000 else b.

(** * Pushes over HTTP *)
Record HTTPPushRequest := mkPushReq { hr_User : string; hr_Func : Z; hr_Subc : Z; hr_Data : list byte }.
Record HTTPPushResponse := mkPushResp { hp_Injected : bool; hp_Func : Z; hp_Subc : Z; hp_User : string; hp_BodySize : Z }.
Inductive push_answer := Unauthorized | BadJSON | InjectFull | Injected (r : HTTPPushResponse).
Definition SubBroadcast : Z := 50.
Definition SubPush : Z := 54.
Definition push_codes (req : HTTPPushRequest) : Z * Z :=
  let user := negb (bool_decide (hr_User req = "")) in
  (if hr_Func req =? 0 then (if user then FCPush else FCCast) else hr_Func req,
   if hr_Subc req =? 0 then (if user then SubPush else SubBroadcast) else hr_Subc req).
Definition null_payload : list byte := [x6e; x75; x6c; x6c].
Definition push_message (req : HTTPPushRequest) : Message :=
  let '(fn, subc) := push_codes req in
  let z n := replicate n x00 in
  mkMessage fn subc
    (Some (mkBcast (z 24%nat) (z 16%nat) (z 16%nat) (z 16%nat) (padCopyString 16 (String.list_byte_of_string (hr_User req))) fn subc 0 0))
    (if bool_decide (hr_Data req = []) then null_payload else hr_Data req).
(** [got]: the secret's header; [decoded]: the body, if it is JSON of the request. *)
Definition HTTPPushHandler (secret : string) (d : Dispatcher) (got : string) (decoded : option HTTPPushRequest) : Dispatcher * push_answer :=
  if negb (bool_decide (secret = "")) && negb (bool_decide (got = secret)) then (d, Unauthorized)
  else match decoded with
       | None => (d, BadJSON)
       | Some req =>
           let m := push_message req in
           match Inject d m with
           | (d, false) => (d, InjectFull)
           | (d, true) => (d, Injected (mkPushResp true (me_func m) (me_subc m) (hr_User req) (zlen (me_body m))))
           end
       end.

(** * Several instances *)
Record MultiClient := mkMultiClient { mc_endpoints : list string; mc_errCount : list Z; mc_ring : option HashRing }.
Definition NewMultiClient (sort_Slice : list ringNode -> list ringNode) (eps : list string) (vnodes : Z) : option MultiClient :=
  match eps with
  | [] => None
  | _ => Some (mkMultiClient eps (replicate (length eps) 0) (if 0 <? vnodes then NewRing sha1Hash sort_Slice eps vnodes else None))
  end.
(** FNV-1a over the bytes of the name. *)
Definition fnv32a (s : string) : Z :=
  fold_left (fun h b => wrap 32 (Z.lxor h b * 16777619)) (bytes_of_string s) 2166136261.
Definition userIndex (user : string) (n : nat) : nat :=
  if (n =? 0)%nat then 0%nat else Z.to_nat (fnv32a user mod Z.of_nat n).
Definition IndexForUser (m : MultiClient) (user : string) : nat :=
  match mc_ring m with Some r => Lookup sha1Hash (Some r) user | None => userIndex user (length (mc_endpoints m)) end.
Definition count_err (m : MultiClient) (i : nat) : MultiClient :=
  mkMultiClient (mc_endpoints m) (alter incr64 i (mc_errCount m)) (mc_ring m).
(** [answers]: whether the push to each instance succeeds. The result: the
    instances tried and whether the caller gets a result. *)
Definition MultiPush (m : MultiClient) (user : string) (answers : nat -> bool) : MultiClient * list nat * bool :=
  if bool_decide (user = "") then
    let all := seq 0 (length (mc_endpoints m)) in
    (fold_left count_err (filter (fun i => negb (answers i)) all) m, all, existsb answers all)
  else
    let i := IndexForUser m user in
    (if answers i then m else count_err m i, [i], answers i).

(** * Interleavings *)
(** The handler of a subscription opens a connection and adds it; [Close] marks it
    and removes it; the write loop writes or fails and ends; the dispatcher copies
    the receivers ([EvSnap]) and sends to the next of them ([EvSend]). *)
Inductive ev :=
| EvOpen (logonID channel : string) (size : Z) | EvAdd (id : nat)
| EvClose (id : nat) | EvRemove (id : nat)
| EvWrite (id : nat) (ok : bool) | EvStop (id : nat)
| EvSnap (users : list string) (target : string) (p : payload) | EvSend.
Record world := mkWorld { w_reg : Registry; w_next : nat; w_fan : payload * list nat }.
Definition world0 : world := mkWorld (mkRegistry ∅ ∅) 0 ([], []).

(** An order in which [range] may visit the registry. *)
Definition ranges (r : Registry) (users : list string) : bool :=
  bool_decide (NoDup users) && bool_decide (list_to_set users = dom (rg_byUsid r)).
Definition receivers (r : Registry) (users : list string) (target : string) : list nat :=
  if bool_decide (target = "") then all_conns r users else conns_of r target.
Definition exec (w : world) (e : ev) : option world :=
  let r := w_reg w in
  let at_conn id (f : Connection -> option Registry) :=
    c ← rg_conns r !! id; r ← f c; Some (mkWorld r (w_next w) (w_fan w)) in
  match e with
  | EvOpen l ch n => Some (mkWorld (set_conn r (w_next w) (NewConnection l ch n)) (S (w_next w)) (w_fan w))
  | EvAdd id => at_conn id (fun c => if cn_added c then None else match Add r id c with Ok r => Some r | _ => None end)
  | EvClose id => at_conn id (fun c => if cn_closed c then None else Some (set_conn r id (set_closed c)))
  | EvRemove id => at_conn id (fun c =>
      if cn_closed c && negb (cn_removed c)
      then Some (set_conn (Remove r id c) id (set_stages c (cn_writer c) (cn_added c) true)) else None)
  | EvWrite id ok => at_conn id (fun c =>
      match cn_send c with
      | p :: q => if negb (cn_writer c) then None
                  else if ok then Some (set_conn r id (set_send c q (cn_written c ++ [p])))
                  else Some (set_conn r id (set_stages (set_send c q (cn_written c)) false (cn_added c) (cn_removed c)))
      | [] => None
      end)
  | EvStop id => at_conn id (fun c => if cn_closed c then Some (set_conn r id (set_stages c false (cn_added c) (cn_removed c))) else None)
  | EvSnap users target p =>
      match w_fan w with
      | (_, []) => if ranges r users then Some (mkWorld r (w_next w) (p, receivers r users target)) else None
      | _ => None
      end
  | EvSend =>
      match w_fan w with
      | (p, id :: rest) => Some (mkWorld (send_to p (r, 0, 0) id).1.1 (w_next w) (p, rest))
      | _ => None
      end
  end.
Fixpoint exec_all (w : world) (es : list ev) : option world :=
  match es with [] => Some w | e :: es => w ← exec w e; exec_all w es end.
