(* ===== verification/PushLaws.v ===== *)
(** Laws of the push service (Push): every connection is written exactly the messages
    addressed to it, in order, in every interleaving; the counters; HTTP pushes and
    several instances; defects found. *)

From Stdlib Require Import ZArith QArith Lia.
From S2P Require Import Prelude Codec Frame Handshake GoStrings Best HashRing Client Push.
Local Open Scope Z_scope.
Local Open Scope wtg_scope.

(** * Delivery *)
(** The messages a connection is owed: those for everyone or for its user whose
    receivers were copied after it was added. *)
Definition addressed (target logonID : string) : bool := bool_decide (target = "") || bool_decide (target = logonID).
Definition owed_step (id : nat) (logonID : string) (st : bool * list payload) (e : ev) : bool * list payload :=
  match e with
  | EvAdd j => if decide (j = id) then (true, st.2) else st
  | EvSnap _ target p => if st.1 && addressed target logonID then (st.1, st.2 ++ [p]) else st
  | _ => st
  end.
Definition owed_state (id : nat) (logonID : string) (es : list ev) : bool * list payload :=
  fold_left (owed_step id logonID) es (false, []).
Definition owed (id : nat) (logonID : string) (es : list ev) : list payload := (owed_state id logonID es).2.
(** The message being fanned out, if the connection is still to come. *)
Definition in_flight (fan : payload * list nat) (id : nat) : list payload := if bool_decide (id ∈ fan.2) then [fan.1] else [].
Definition live (c : Connection) : bool := negb (cn_closed c) && cn_writer c.

Definition conn_ok (es : list ev) (fan : payload * list nat) (id : nat) (c : Connection) : Prop :=
  (owed_state id (cn_logonID c) es).1 = cn_added c /\
  cn_written c `prefix_of` owed id (cn_logonID c) es /\
  (cn_writer c = true -> cn_written c ++ cn_send c `prefix_of` owed id (cn_logonID c) es) /\
  (live c = true -> owed id (cn_logonID c) es = cn_written c ++ cn_send c ++ in_flight fan id).

Record push_inv (es : list ev) (w : world) : Prop := {
  pi_fresh : forall id c, rg_conns (w_reg w) !! id = Some c -> (id < w_next w)%nat;
  pi_unopened : forall id l, (w_next w <= id)%nat -> owed_state id l es = (false, []);
  pi_lists : forall u l, rg_byUsid (w_reg w) !! u = Some l ->
    NoDup l /\ forall id, id ∈ l -> exists c, rg_conns (w_reg w) !! id = Some c /\ cn_logonID c = u /\ cn_added c = true;
  pi_reg : forall id c, rg_conns (w_reg w) !! id = Some c -> cn_added c = true -> cn_closed c = false ->
    id ∈ conns_of (w_reg w) (cn_logonID c);
  pi_fan : NoDup (w_fan w).2 /\ forall id, id ∈ (w_fan w).2 -> exists c, rg_conns (w_reg w) !! id = Some c /\ cn_added c = true;
  pi_conn : forall id c, rg_conns (w_reg w) !! id = Some c -> conn_ok es (w_fan w) id c }.

Lemma owed_state_snoc id l es e : owed_state id l (es ++ [e]) = owed_step id l (owed_state id l es) e.
Proof. unfold owed_state. by rewrite fold_left_app. Qed.

(** Steps that neither add nor copy owe nothing new. *)
Definition quiet (e : ev) : bool := match e with EvAdd _ | EvSnap _ _ _ => false | _ => true end.
Lemma owed_state_quiet id l es e : quiet e = true -> owed_state id l (es ++ [e]) = owed_state id l es.
Proof. rewrite owed_state_snoc. by destruct e. Qed.

Lemma push_inv_quiet es e w : quiet e = true -> push_inv es w -> push_inv (es ++ [e]) w.
Proof.
  intros Hq []. split; try done.
  - intros. rewrite owed_state_quiet by done. eauto.
  - intros id c H. unfold conn_ok, owed. rewrite owed_state_quiet by done. by apply pi_conn0.
Qed.

(** A connection changes and the fan-out may leave it. *)
Lemma push_inv_conn es r n p fan fan' id c c' :
  push_inv es (mkWorld r n (p, fan)) -> rg_conns r !! id = Some c ->
  cn_logonID c' = cn_logonID c -> cn_added c' = cn_added c -> (cn_closed c' = false -> cn_closed c = false) ->
  NoDup fan' -> (forall j, j ∈ fan' -> j ∈ fan) -> (forall j, j <> id -> j ∈ fan -> j ∈ fan') ->
  (conn_ok es (p, fan) id c -> conn_ok es (p, fan') id c') ->
  push_inv es (mkWorld (set_conn r id c') n (p, fan')).
Proof.
  intros [] Hid El Ea Ecl Hn Hs Hk Hok. simpl in *. split; simpl; try done.
  - intros j x. rewrite lookup_insert_Some. intros [[<- _]|[_ H]]; eauto.
  - intros u l H. destruct (pi_lists0 _ _ H) as [? L]. split; [done|]. intros j Hj. destruct (L j Hj) as (x & Hx & ? & ?).
    destruct (decide (j = id)) as [->|]; [|exists x; by rewrite lookup_insert_ne].
    exists c'. rewrite lookup_insert_eq. simplify_eq. by rewrite El, Ea.
  - intros j x. rewrite lookup_insert_Some. unfold conns_of. simpl. intros [[<- <-]|[_ H]] Ha Hc; [|by eapply pi_reg0].
    rewrite El. apply pi_reg0; [done| |by apply Ecl]. by rewrite <-Ea.
  - destruct pi_fan0 as [_ F]. split; [done|]. intros j Hj. destruct (F j (Hs j Hj)) as (x & Hx & Hax).
    destruct (decide (j = id)) as [->|]; [|exists x; by rewrite lookup_insert_ne].
    exists c'. rewrite lookup_insert_eq. simplify_eq. by rewrite Ea.
  - intros j x. rewrite lookup_insert_Some. intros [[<- <-]|[Hne H]]; [by apply Hok, pi_conn0|].
    pose proof (pi_conn0 _ _ H) as (O1 & O2 & O3 & O4). split_and!; [done..|]. intros Hl. rewrite (O4 Hl). unfold in_flight. simpl.
    do 2 f_equal. rewrite (bool_decide_ext (j ∈ fan) (j ∈ fan')); [done|]. split; auto.
Qed.

Lemma elem_of_remove_first id j l : j <> id -> j ∈ l -> j ∈ remove_first id l.
Proof.
  intros Hne. induction l as [|x l IH]; [done|]. simpl. rewrite elem_of_cons. intros [->|H]; destruct (decide (x = id)); subst; try done.
  - by left.
  - right. auto.
Qed.
Lemma remove_first_sub id l : remove_first id l `sublist_of` l.
Proof. induction l as [|x l IH]; simpl; [done|]. destruct (decide (x = id)); by constructor. Qed.

Lemma Remove_conns r id c u :
  conns_of (Remove r id c) u = if bool_decide (u = cn_logonID c) then remove_first id (conns_of r u) else conns_of r u.
Proof.
  unfold Remove, conns_of. simpl. case_bool_decide as E.
  - destruct (decide (u = cn_logonID c)) as [->|].
    + rewrite lookup_delete_eq, bool_decide_true by done. by rewrite E.
    + rewrite lookup_delete_ne, bool_decide_false by done. done.
  - destruct (decide (u = cn_logonID c)) as [->|].
    + by rewrite lookup_insert_eq, bool_decide_true.
    + by rewrite lookup_insert_ne, bool_decide_false.
Qed.

(** A closed connection leaves the registry. *)
Lemma push_inv_remove es r n fan id c :
  push_inv es (mkWorld r n fan) -> rg_conns r !! id = Some c -> cn_closed c = true -> push_inv es (mkWorld (Remove r id c) n fan).
Proof.
  intros [] Hid Hc. simpl in *. split; simpl; try done.
  - intros u l Hl. assert (conns_of (Remove r id c) u = l) as E by (unfold conns_of; simpl; by rewrite Hl).
    rewrite Remove_conns in E. destruct (rg_byUsid r !! u) as [l0|] eqn:El0.
    + destruct (pi_lists0 _ _ El0) as [N L]. unfold conns_of in E. rewrite El0 in E. simpl in E.
      assert (l `sublist_of` l0) as S by (subst l; destruct (bool_decide (u = _)); [apply remove_first_sub|done]).
      split; [by eapply sublist_NoDup|]. intros j Hj. apply L.
      eapply elem_of_submseteq; [exact Hj|by apply sublist_submseteq].
    + unfold conns_of in E. rewrite El0 in E. simpl in E. assert (l = []) as -> by (rewrite <-E; by destruct (bool_decide (u = _))).
      split; [apply NoDup_nil_2|]. intros j Hj. by apply not_elem_of_nil in Hj.
  - intros j x Hx Ha Hcl. rewrite Remove_conns. pose proof (pi_reg0 j x Hx Ha Hcl) as R. unfold conns_of in *. simpl in R.
    destruct (decide (j = id)) as [->|]; [simplify_eq; congruence|].
    destruct (bool_decide (_ = cn_logonID c)); [by apply elem_of_remove_first|done].
Qed.

Lemma owed_unadded id l es : (owed_state id l es).1 = false -> (owed_state id l es).2 = [].
Proof.
  unfold owed_state. induction es as [|e es IH] using rev_ind; [done|]. rewrite fold_left_app. simpl.
  destruct (fold_left _ es _) as [a q] eqn:E. simpl in *. unfold owed_step.
  destruct e; simpl; try exact IH; [by destruct (decide _)|]. destruct a; simpl; [by destruct (addressed _ _)|exact IH].
Qed.

Lemma push_inv_open es r n fan l ch size :
  push_inv es (mkWorld r n fan) -> push_inv es (mkWorld (set_conn r n (NewConnection l ch size)) (S n) fan).
Proof.
  intros []. simpl in *. assert (rg_conns r !! n = None) as Hn.
  { destruct (rg_conns r !! n) eqn:E; [|done]. apply pi_fresh0 in E. lia. }
  assert (forall j x, rg_conns r !! j = Some x -> j <> n) as Hne by (intros j x H ->; congruence).
  split; simpl.
  - intros j x. rewrite lookup_insert_Some. intros [[<- _]|[_ H]]; [lia|]. apply pi_fresh0 in H. lia.
  - intros j l' Hj. apply pi_unopened0. lia.
  - intros u q H. destruct (pi_lists0 _ _ H) as [? L]. split; [done|]. intros j Hj. destruct (L j Hj) as (x & Hx & ?).
    exists x. rewrite lookup_insert_ne; [done|]. symmetry. by eapply Hne.
  - intros j x. rewrite lookup_insert_Some. intros [[<- <-]|[_ H]]; [done|]. by apply pi_reg0.
  - destruct pi_fan0 as [? F]. split; [done|]. intros j Hj. destruct (F j Hj) as (x & Hx & ?).
    exists x. rewrite lookup_insert_ne; [done|]. symmetry. by eapply Hne.
  - intros j x. rewrite lookup_insert_Some. intros [[<- <-]|[_ H]]; [|by apply pi_conn0].
    unfold conn_ok, owed. simpl. rewrite pi_unopened0 by lia. simpl. split_and!; try done.
    intros _. unfold in_flight. rewrite bool_decide_false; [done|]. intros Hj. apply pi_fan0 in Hj as (x & Hx & _). congruence.
Qed.

(** The lists of the registry once a connection is added. *)
Lemma added_lists r id c u q :
  (forall u l, rg_byUsid r !! u = Some l ->
     NoDup l /\ forall id, id ∈ l -> exists c, rg_conns r !! id = Some c /\ cn_logonID c = u /\ cn_added c = true) ->
  rg_conns r !! id = Some c -> cn_added c = false ->
  <[cn_logonID c := conns_of r (cn_logonID c) ++ [id]]> (rg_byUsid r) !! u = Some q ->
  NoDup q /\ forall j, j ∈ q -> exists x, <[id := set_stages c (cn_writer c) true (cn_removed c)]> (rg_conns r) !! j = Some x /\
    cn_logonID x = u /\ cn_added x = true.
Proof.
  intros L Hid Ha. assert (forall u q, rg_byUsid r !! u = Some q -> id ∉ q) as Hnot.
  { intros v q' Hq Hin. destruct (proj2 (L _ _ Hq) id Hin) as (x & ? & _ & ?). congruence. }
  assert (forall u q j, rg_byUsid r !! u = Some q -> j ∈ q ->
    exists x, <[id := set_stages c (cn_writer c) true (cn_removed c)]> (rg_conns r) !! j = Some x /\ cn_logonID x = u /\ cn_added x = true) as K.
  { intros v q' j Hq Hj. destruct (proj2 (L _ _ Hq) j Hj) as (x & Hx & Hu & Hax). exists x. rewrite lookup_insert_ne; [done|]. congruence. }
  rewrite lookup_insert_Some. intros [[<- <-]|[_ Hq]]; [|split; [by eapply L|eauto]].
  unfold conns_of. destruct (rg_byUsid r !! cn_logonID c) as [q0|] eqn:Eq; simpl.
  - split.
    + apply NoDup_app. split_and!; [by eapply L| |apply NoDup_singleton]. intros j Hj ->%list_elem_of_singleton. by apply (Hnot _ _ Eq).
    + intros j. rewrite elem_of_app, list_elem_of_singleton. intros [Hj| ->]; [eauto|]. eexists. by rewrite lookup_insert_eq.
  - split; [apply NoDup_singleton|]. intros j ->%list_elem_of_singleton. eexists. by rewrite lookup_insert_eq.
Qed.

Lemma push_inv_add es r n fan id c r' :
  push_inv es (mkWorld r n fan) -> rg_conns r !! id = Some c -> cn_added c = false -> Add r id c = Ok r' ->
  push_inv (es ++ [EvAdd id]) (mkWorld r' n fan).
Proof.
  intros [] Hid Ha Hadd. unfold Add in Hadd. case_bool_decide; [done|]. injection Hadd as <-. simpl in *.
  split; simpl.
  - intros j x. rewrite lookup_insert_Some. intros [[<- _]|[_ H']]; eauto.
  - intros j l Hj. rewrite owed_state_snoc, pi_unopened0 by done. simpl. destruct (decide (id = j)) as [->|]; [|done].
    apply pi_fresh0 in Hid. lia.
  - intros u q. by apply added_lists.
  - intros j x. rewrite lookup_insert_Some. unfold conns_of. simpl. intros [[<- <-]|[Hne Hx]] Hax Hcx; simpl.
    + rewrite lookup_insert_eq. simpl. apply elem_of_app. right. by left.
    + pose proof (pi_reg0 _ _ Hx Hax Hcx) as R. unfold conns_of in *. simpl in R.
      destruct (decide (cn_logonID x = cn_logonID c)) as [E|]; [|by rewrite lookup_insert_ne].
      rewrite E in *. rewrite lookup_insert_eq. simpl. apply elem_of_app. by left.
  - destruct pi_fan0 as [? F]. split; [done|]. intros j Hj. destruct (F j Hj) as (x & Hx & ?).
    exists x. rewrite lookup_insert_ne; [done|]. intros ->. congruence.
  - intros j x. rewrite lookup_insert_Some. unfold conn_ok, owed. rewrite owed_state_snoc. simpl. intros [[<- <-]|[Hne Hx]].
    + destruct (pi_conn0 _ _ Hid) as (O1 & O2 & O3 & O4). rewrite decide_True by done. simpl. done.
    + rewrite decide_False by done. by apply pi_conn0.
Qed.

(** ** The copy of the receivers *)
Lemma all_conns_NoDup r users :
  (forall u l, rg_byUsid r !! u = Some l ->
     NoDup l /\ forall id, id ∈ l -> exists c, rg_conns r !! id = Some c /\ cn_logonID c = u /\ cn_added c = true) ->
  NoDup users -> NoDup (all_conns r users).
Proof.
  intros L Hn. unfold all_conns. induction Hn as [|u users Hu Hn IH]; [apply NoDup_nil_2|]. cbn [map concat].
  assert (forall v j, j ∈ conns_of r v -> exists c, rg_conns r !! j = Some c /\ cn_logonID c = v) as K.
  { intros v j. unfold conns_of. destruct (rg_byUsid r !! v) as [l|] eqn:El; [|by intros ?%not_elem_of_nil].
    intros Hj. destruct (proj2 (L _ _ El) j Hj) as (c & ? & ? & _). eauto. }
  apply NoDup_app. split_and!; [|  |exact IH].
  - unfold conns_of. destruct (rg_byUsid r !! u) eqn:El; [by eapply L|apply NoDup_nil_2].
  - intros j Hj Hin. destruct (K u j Hj) as (c & Hc & <-). apply list_elem_of_In, in_concat in Hin as (l & Hl & Hjl).
    apply in_map_iff in Hl as (v & <- & Hv). apply list_elem_of_In in Hjl. destruct (K v j Hjl) as (c' & Hc' & <-).
    rewrite Hc in Hc'. injection Hc' as <-. apply Hu. by apply list_elem_of_In.
Qed.

Lemma elem_of_all_conns r users j : j ∈ all_conns r users <-> exists u, u ∈ users /\ j ∈ conns_of r u.
Proof.
  unfold all_conns. rewrite (list_elem_of_In (concat _)), in_concat. split.
  - intros (l & (u & <- & Hu)%in_map_iff & Hj). exists u. by rewrite !list_elem_of_In.
  - intros (u & Hu & Hj). exists (conns_of r u). rewrite in_map_iff. apply list_elem_of_In in Hu. apply list_elem_of_In in Hj. eauto.
Qed.

Lemma receivers_added es r n fan users target j :
  push_inv es (mkWorld r n fan) -> j ∈ receivers r users target ->
  exists c, rg_conns r !! j = Some c /\ cn_added c = true /\ addressed target (cn_logonID c) = true.
Proof.
  intros [] Hj. simpl in *.
  assert (forall v, j ∈ conns_of r v -> exists c, rg_conns r !! j = Some c /\ cn_logonID c = v /\ cn_added c = true) as K.
  { intros v. unfold conns_of. destruct (rg_byUsid r !! v) as [l|] eqn:El; [|by intros ?%not_elem_of_nil]. by eapply pi_lists0. }
  unfold receivers, addressed in *. case_bool_decide as E.
  - apply elem_of_all_conns in Hj as (u & _ & Hj). destruct (K u Hj) as (c & ? & ? & ?). exists c. done.
  - destruct (K target Hj) as (c & ? & <- & ?). exists c. by rewrite (bool_decide_true (_ = _)).
Qed.

Lemma receivers_live es r n fan users target j c :
  push_inv es (mkWorld r n fan) -> ranges r users = true -> rg_conns r !! j = Some c -> live c = true ->
  bool_decide (j ∈ receivers r users target) = cn_added c && addressed target (cn_logonID c).
Proof.
  intros Hinv Hr Hc [Hcl _]%andb_true_iff. apply negb_true_iff in Hcl. apply eq_bool_prop_intro.
  rewrite bool_decide_spec, andb_True. split.
  - intros Hj. destruct (receivers_added _ _ _ _ _ _ _ Hinv Hj) as (x & Hx & Ha & Hd). simplify_eq. by rewrite Ha, Hd.
  - intros [Ha Hd]. apply Is_true_true in Ha, Hd. pose proof (pi_reg _ _ Hinv _ _ Hc Ha Hcl) as R. simpl in R.
    unfold receivers, addressed in *. case_bool_decide as E; simpl in Hd.
    + apply elem_of_all_conns. exists (cn_logonID c). split; [|done]. apply andb_true_iff in Hr as [_ Hr%bool_decide_eq_true].
      apply (elem_of_list_to_set (C := gset string)). rewrite Hr. apply elem_of_dom. unfold conns_of in R.
      destruct (rg_byUsid r !! cn_logonID c); [done|]. by apply not_elem_of_nil in R.
    + apply bool_decide_eq_true in Hd. by subst.
Qed.

Lemma push_inv_snap es r n q users target p :
  push_inv es (mkWorld r n (q, [])) -> ranges r users = true ->
  push_inv (es ++ [EvSnap users target p]) (mkWorld r n (p, receivers r users target)).
Proof.
  intros Hinv Hr. pose proof Hinv as []. simpl in *. split; simpl; try done.
  - intros j l Hj. by rewrite owed_state_snoc, pi_unopened0.
  - split; [|intros j Hj; destruct (receivers_added _ _ _ _ _ _ _ Hinv Hj) as (c & ? & ? & _); eauto].
    apply andb_true_iff in Hr as [Hn%bool_decide_eq_true _]. unfold receivers. case_bool_decide; [by apply all_conns_NoDup|].
    unfold conns_of. destruct (rg_byUsid r !! target) eqn:El; [by eapply pi_lists0|apply NoDup_nil_2].
  - intros j c Hc. destruct (pi_conn0 _ _ Hc) as (O1 & O2 & O3 & O4). unfold conn_ok, owed in *. rewrite owed_state_snoc. simpl.
    rewrite O1. assert (forall l : list payload, l `prefix_of` (owed_state j (cn_logonID c) es).2 ->
      l `prefix_of` (if cn_added c && addressed target (cn_logonID c)
        then (cn_added c, (owed_state j (cn_logonID c) es).2 ++ [p]) else owed_state j (cn_logonID c) es).2) as P.
    { intros l Hl. destruct (cn_added c && _); [|done]. simpl. by apply prefix_app_r. }
    split_and!; [by destruct (cn_added c && _)|by apply P|by auto|].
    intros Hl. unfold in_flight. simpl. rewrite (receivers_live _ _ _ _ _ _ _ _ Hinv Hr Hc Hl).
    specialize (O4 Hl). unfold in_flight in O4. simpl in O4. rewrite app_nil_r in O4.
    destruct (cn_added c && _); simpl; rewrite O4; [by rewrite app_assoc|by rewrite app_nil_r].
Qed.

(** ** Steps *)
(** A connection that is not live any more is owed nothing further. *)
Lemma conn_ok_dead es fan fan' id c c' :
  live c' = false -> cn_logonID c' = cn_logonID c -> cn_added c' = cn_added c -> cn_written c' = cn_written c ->
  (cn_writer c' = true -> cn_writer c = true /\ cn_send c' = cn_send c) -> conn_ok es fan id c -> conn_ok es fan' id c'.
Proof.
  intros Hl E1 E2 E3 E4 (O1 & O2 & O3 & O4). unfold conn_ok. rewrite E1, E2, E3, Hl. split_and!; [done..| |done].
  intros W. destruct (E4 W) as [W' ->]. auto.
Qed.

Lemma push_inv_send es r n p id rest :
  push_inv es (mkWorld r n (p, id :: rest)) -> push_inv es (mkWorld (send_to p (r, 0, 0) id).1.1 n (p, rest)).
Proof.
  intros Hinv. destruct (pi_fan _ _ Hinv) as [Hn F]. simpl in Hn, F. apply NoDup_cons in Hn as [Hid Hn].
  destruct (F id) as (c & Hc & Ha); [by left|]. unfold send_to. rewrite Hc.
  assert (forall c', cn_logonID c' = cn_logonID c -> cn_added c' = cn_added c -> (cn_closed c' = false -> cn_closed c = false) ->
    (conn_ok es (p, id :: rest) id c -> conn_ok es (p, rest) id c') -> push_inv es (mkWorld (set_conn r id c') n (p, rest))) as U.
  { intros c' E1 E2 E3 Hok. eapply push_inv_conn; [exact Hinv|exact Hc|done..| | |exact Hok].
    - intros j Hj. by right.
    - intros j Hne. rewrite elem_of_cons. tauto. }
  assert (forall c', cn_closed c' = true -> cn_written c' = cn_written c -> cn_send c' = cn_send c -> cn_writer c' = cn_writer c ->
    cn_logonID c' = cn_logonID c -> cn_added c' = cn_added c -> push_inv es (mkWorld (set_conn r id c') n (p, rest))) as V.
  { intros c' E1 E2 E3 E4 E5 E6. apply U; [done..|congruence|]. apply conn_ok_dead; [by unfold live; rewrite E1|done..|].
    rewrite E3, E4. auto. }
  unfold conn_Send. destruct (cn_closed c) eqn:Ecl.
  - simpl. replace r with (set_conn r id c); [by apply V|]. unfold set_conn. rewrite insert_id by done. by destruct r.
  - destruct (_ <? cn_cap c)%nat; simpl.
    + apply U; [done..|]. unfold conn_ok, live, in_flight. simpl. rewrite Ecl, (bool_decide_true (id ∈ id :: rest)), (bool_decide_false (id ∈ rest)) by (done || left).
      simpl. intros (O1 & O2 & O3 & O4). split_and!; [done..|intros W; rewrite (O4 W), app_assoc; done|].
      intros W. rewrite (O4 W). by rewrite <-!app_assoc.
    + unfold close_conn. rewrite Ecl. unfold Remove, conns_of. cbn [set_closed cn_logonID].
      pose proof (V (set_closed c) eq_refl eq_refl eq_refl eq_refl eq_refl eq_refl) as H1.
      apply (push_inv_remove _ _ _ _ id (set_closed c)) in H1; [|apply lookup_insert_eq|done].
      apply (push_inv_conn _ _ _ _ rest rest id (set_closed c) (set_stages (set_closed c) (cn_writer c) (cn_added c) true)) in H1;
        [|apply lookup_insert_eq|done..].
      unfold set_conn, Remove, conns_of in *. cbn [rg_conns rg_byUsid set_closed cn_logonID] in *. by rewrite insert_insert_eq in H1.
Qed.

Lemma push_inv_exec es w e w' : push_inv es w -> exec w e = Some w' -> push_inv (es ++ [e]) w'.
Proof.
  destruct w as [r n [p fan]]. intros Hinv He.
  assert (forall id c c', rg_conns r !! id = Some c -> cn_logonID c' = cn_logonID c -> cn_added c' = cn_added c ->
    (cn_closed c' = false -> cn_closed c = false) -> (conn_ok es (p, fan) id c -> conn_ok es (p, fan) id c') ->
    push_inv es (mkWorld (set_conn r id c') n (p, fan))) as U.
  { intros. eapply push_inv_conn; [exact Hinv|eassumption..|apply (pi_fan _ _ Hinv)|done|done|done]. }
  destruct e; cbn [exec w_reg w_next w_fan] in He.
  - injection He as <-. apply push_inv_quiet; [done|]. by apply push_inv_open.
  - destruct (rg_conns r !! id) as [c|] eqn:Hc; [|done]. simpl in He. destruct (cn_added c) eqn:Ea; [done|].
    destruct (Add r id c) as [r'| |] eqn:Eadd; [|done..]. injection He as <-. by eapply push_inv_add.
  - destruct (rg_conns r !! id) as [c|] eqn:Hc; [|done]. simpl in He. destruct (cn_closed c) eqn:Ecl; [done|]. injection He as <-.
    apply push_inv_quiet; [done|]. eapply U; [exact Hc|done..|]. by apply conn_ok_dead.
  - destruct (rg_conns r !! id) as [c|] eqn:Hc; [|done]. simpl in He. destruct (cn_closed c) eqn:Ecl; [|done].
    destruct (cn_removed c); [done|]. injection He as <-. apply push_inv_quiet; [done|].
    eapply push_inv_conn; [by apply (push_inv_remove _ _ _ _ id c)|exact Hc|done..|apply (pi_fan _ _ Hinv)|done|done|done].
  - destruct (rg_conns r !! id) as [c|] eqn:Hc; [|done]. simpl in He. destruct (cn_send c) as [|x q] eqn:Eq; [done|].
    destruct (cn_writer c) eqn:Ew; [|done]. apply push_inv_quiet; [done|]. destruct ok; injection He as <-.
    + eapply U; [exact Hc|done..|]. unfold conn_ok, live. simpl. rewrite Eq, Ew, <-!app_assoc. simpl.
      intros (O1 & O2 & O3 & O4). split_and!; try done. apply (prefix_app_l _ _ q). rewrite <-app_assoc. by apply O3.
    + eapply U; [exact Hc|done..|]. apply conn_ok_dead; try done; apply andb_false_r.
  - destruct (rg_conns r !! id) as [c|] eqn:Hc; [|done]. simpl in He. destruct (cn_closed c) eqn:Ecl; [|done]. injection He as <-.
    apply push_inv_quiet; [done|]. eapply U; [exact Hc|done..|]. apply conn_ok_dead; try done; apply andb_false_r.
  - destruct fan; [|done]. destruct (ranges r users) eqn:Er; [|done]. injection He as <-. by eapply push_inv_snap.
  - destruct fan as [|id rest]; [done|]. injection He as <-. apply push_inv_quiet; [done|]. by apply push_inv_send.
Qed.

Lemma push_inv_run es0 w0 es w : push_inv es0 w0 -> exec_all w0 es = Some w -> push_inv (es0 ++ es) w.
Proof.
  revert es0 w0. induction es as [|e es IH]; intros es0 w0 Hinv He; cbn [exec_all] in He; [by injection He as ->; rewrite app_nil_r|].
  destruct (exec w0 e) as [w1|] eqn:E1; [|done]. replace (es0 ++ e :: es) with ((es0 ++ [e]) ++ es) by (by rewrite <-app_assoc).
  apply (IH _ w1); [by eapply push_inv_exec|done].
Qed.

Lemma push_inv_world0 : push_inv [] world0.
Proof.
  split; simpl; try done. split; [apply NoDup_nil_2|]. intros id H. by apply not_elem_of_nil in H.
Qed.

(** C9. Exactly-once delivery to every connection: in every interleaving of
    subscriptions, closes, write loops and fan-outs, what a connection has been
    written is, in order and without gap or repetition, a beginning of the messages
    addressed to it (to its user or to everyone) since it was added; and while it is
    open and writing, what is written, what is queued and the message being fanned
    out are exactly those messages. So the closing of a slow or lost connection
    takes nothing from any other. *)
Theorem push_exactly_once (es : list ev) (w : world) :
  exec_all world0 es = Some w ->
  forall id c, rg_conns (w_reg w) !! id = Some c ->
  cn_written c `prefix_of` owed id (cn_logonID c) es /\
  (live c = true -> owed id (cn_logonID c) es = cn_written c ++ cn_send c ++ in_flight (w_fan w) id).
Proof.
  intros He id c Hc. pose proof (push_inv_run [] _ _ _ push_inv_world0 He) as Hinv.
  destruct (pi_conn _ _ Hinv _ _ Hc) as (_ & O2 & _ & O4). auto.
Qed.

(** Two users; the second's queue of one overflows while the first is served. *)
#[local] Abbreviation ex_run :=
  ([EvOpen "kim" "WEB" 4; EvAdd 0; EvOpen "lee" "WEB" 1; EvAdd 1;
    EvSnap ["kim"; "lee"] "" [x01]; EvSend; EvSend; EvWrite 0 true;
    EvSnap ["lee"; "kim"] "" [x02]; EvSend; EvSend; EvSnap ["kim"] "kim" [x03]])%nat.

Lemma push_exactly_once_witness :
  exists c, cn_logonID c = "kim" /\ owed 0 "kim" ex_run = cn_written c ++ cn_send c ++ [[x03]] /\ cn_written c = [[x01]].
Proof.
  destruct (exec_all world0 ex_run) as [w|] eqn:E; [|exfalso; vm_compute in E; discriminate E].
  destruct (rg_conns (w_reg w) !! 0%nat) as [c|] eqn:Ec; [|exfalso; vm_compute in E; injection E as <-; vm_compute in Ec; discriminate Ec].
  exists c.
  assert (cn_logonID c = "kim" /\ live c = true /\ in_flight (w_fan w) 0 = [[x03]] /\ cn_written c = [[x01]]) as (El & Hl & Hf & Hw).
  { vm_compute in E. injection E as <-. vm_compute in Ec. injection Ec as <-. vm_compute. auto. }
  split; [exact El|]. split; [|exact Hw].
  pose proof (proj2 (push_exactly_once ex_run w E 0%nat c Ec) Hl) as H. rewrite El, Hf in H. exact H.
Defined.

(** ** The sequential fan-outs are those steps *)
Lemma exec_all_app w es es' : exec_all w (es ++ es') = w ← exec_all w es; exec_all w es'.
Proof. revert w. induction es as [|e es IH]; intros w; [done|]. simpl. destruct (exec w e); [apply IH|done]. Qed.

Lemma send_to_reg p r a b a' b' id : (send_to p (r, a, b) id).1.1 = (send_to p (r, a', b') id).1.1.
Proof. unfold send_to. destruct (rg_conns r !! id) as [c|]; [|done]. by destruct (conn_Send c p) as [|[]|]. Qed.

Lemma fan_steps p r n l a b :
  exec_all (mkWorld r n (p, l)) (replicate (length l) EvSend) = Some (mkWorld (fold_left (send_to p) l (r, a, b)).1.1 n (p, [])).
Proof.
  revert r a b. induction l as [|id l IH]; intros r a b; [done|]. cbn [length replicate exec_all exec w_fan w_reg w_next mbind option_bind].
  destruct (send_to p (r, a, b) id) as [[r' a'] b'] eqn:E. cbn [fold_left]. rewrite E.
  rewrite (send_to_reg p r 0 0 a b id), E. apply IH.
Qed.

Lemma fan_out_steps r n q users target p :
  ranges r users = true ->
  exec_all (mkWorld r n (q, [])) (EvSnap users target p :: replicate (length (receivers r users target)) EvSend)
    = Some (mkWorld (fan_out r users target p).1.1 n (p, [])).
Proof.
  intros Hr. cbn [exec_all exec w_fan w_reg w_next]. rewrite Hr. cbn [mbind option_bind].
  rewrite (fan_steps _ _ _ _ 0 0). unfold fan_out, receivers, FanoutBroadcast, FanoutToUser. by case_bool_decide.
Qed.

(** * The counters *)
(** What the comments of the counters promise. *)
Definition balanced (s : Stats) : Prop :=
  st_Received s = wrap 64 (st_RecvBroker s + st_RecvHTTP s) /\
  st_Dropped s = wrap 64 (st_DropUnsupp s + st_DropEnvelope s + st_DropUnknownUser s + st_DropNoBroadcast s).

Lemma handle_balanced jv js ma users subs now d m http :
  balanced (di_stats d) ->
  balanced (di_stats (handle jv js ma users subs now (mkDispatcher (di_registry d) (di_grpc d) (di_inject d) (count_source (di_stats d) http)) m)).
Proof.
  intros [H1 H2].
  assert (forall o, balanced (count_outcome (count_source (di_stats d) http) o)) as B.
  { intros o. destruct (di_stats d). unfold balanced, count_source, count_outcome, incr64, wrap in *. simpl in *. subst.
    destruct http, o as [| |b x y]; try (destruct (0 <? x)); try destruct b; simpl; split; divmod_lia. }
  unfold handle. destruct (negb _); [exact (B Unsupported)|]. destruct (buildEnvelope _ _ _ _); [|exact (B NoEnvelope)].
  destruct (fan_out _ _ _ _) as [[? x] y]. exact (B (Fanned _ x y)).
Qed.

(** * The stream to the edges *)
(** A message is queued to every edge that has room; the others' streams end, with
    what they had queued kept for them to drain. *)
Lemma OnUnsolicited_fans g order now m :
  is_broadcast (me_func m) = true -> NoDup order ->
  forall id, gs_subscribers (OnUnsolicited g order now m) !! id =
    (s ← gs_subscribers g !! id;
     if bool_decide (id ∈ order) then
       if (length (ps_out s) <? gs_bufSz g)%nat then Some (mkPushSubscriber (ps_out s ++ [unsolicitedToProto now m]) (ps_srvID s)) else None
     else Some s).
Proof.
  intros Hb Hn id. unfold OnUnsolicited. rewrite Hb. revert g. induction Hn as [|x order Hx Hn IH]; intros g; cbn [fold_left].
  - rewrite bool_decide_false by apply not_elem_of_nil. by destruct (gs_subscribers g !! id).
  - rewrite IH. unfold grpc_send_to. destruct (gs_subscribers g !! x) as [s|] eqn:Es; [|].
    + destruct (decide (id = x)) as [->|Hne].
      * rewrite (bool_decide_true (x ∈ x :: order)), (bool_decide_false (x ∈ order)) by (done || left). rewrite Es. simpl.
        destruct (_ <? _)%nat eqn:El; simpl; [by rewrite lookup_insert_eq|by rewrite lookup_delete_eq].
      * replace (bool_decide (id ∈ x :: order)) with (bool_decide (id ∈ order)) by (apply bool_decide_ext; rewrite elem_of_cons; tauto).
        destruct (_ <? _)%nat; simpl; [by rewrite lookup_insert_ne|by rewrite lookup_delete_ne].
    + destruct (decide (id = x)) as [->|Hne]; [by rewrite Es|].
      by replace (bool_decide (id ∈ x :: order)) with (bool_decide (id ∈ order)) by (apply bool_decide_ext; rewrite elem_of_cons; tauto).
Qed.

(** * Pushes over HTTP *)
(** A push names the user it reaches when the name fits the prefix's field. *)
Lemma push_addresses_user req :
  (length (String.list_byte_of_string (hr_User req)) <= 16)%nat -> x00 ∉ String.list_byte_of_string (hr_User req) ->
  logon_of (push_message req) = hr_User req.
Proof.
  intros Hl H0. unfold push_message, logon_of. destruct (push_codes req) as [fn subc]. simpl. unfold LogonIDString, trimNulString. simpl.
  rewrite trimNul_padCopyString, take_ge by done. apply String.string_of_list_byte_of_string.
Qed.

(** A longer name is cut: the push goes to another user and the answer repeats the
    name that was asked for. *)
Lemma long_user_misaddressed :
  let req := mkPushReq "dealer-seoul-0001-backup" 0 0 [] in
  logon_of (push_message req) = "dealer-seoul-000" /\
  (HTTPPushHandler "" (NewDispatcher None) "" (Some req)).2 = Injected (mkPushResp true FCPush SubPush "dealer-seoul-0001-backup" 4).
Proof. vm_compute. done. Qed.

(** A code that is none of the broadcasts is accepted and then dropped. *)
Lemma accepted_then_dropped jv js ma :
  let req := mkPushReq "kim" 1 0 [] in
  let d := (HTTPPushHandler "" (NewDispatcher None) "" (Some req)).1 in
  (exists r, (HTTPPushHandler "" (NewDispatcher None) "" (Some req)).2 = Injected r /\ hp_Injected r = true) /\
  (st_DropUnsupp <$> (di_stats <$> Run_injected jv js ma [] [] 0 d)) = Some 1.
Proof. vm_compute. split; [eexists; done|done]. Qed.

(** * Several instances *)
Lemma userIndex_lt user n : (0 < n)%nat -> (userIndex user n < n)%nat.
Proof.
  intros Hn. unfold userIndex. rewrite (proj2 (Nat.eqb_neq _ _)) by lia.
  pose proof (Z.mod_pos_bound (fnv32a user) (Z.of_nat n)). lia.
Qed.

(** Without a ring a user's push goes to one existing instance, everyone's to all. *)
Lemma MultiPush_targets m user answers :
  mc_ring m = None -> mc_endpoints m <> [] ->
  (MultiPush m user answers).1.2 =
    if bool_decide (user = "") then seq 0 (length (mc_endpoints m)) else [userIndex user (length (mc_endpoints m))].
Proof. intros Hr _. unfold MultiPush, IndexForUser. rewrite Hr. by case_bool_decide. Qed.

(** * Defects *)
(** The handler adds the connection after its loops have started: closed in between,
    it stays in the registry. *)
Lemma added_after_close_leaks :
  exists w, exec_all world0 [EvOpen "kim" "WEB" 4; EvClose 0; EvRemove 0; EvAdd 0] = Some w /\
  conns_of (w_reg w) "kim" = [0%nat] /\ (forall c, rg_conns (w_reg w) !! 0%nat = Some c -> cn_closed c = true /\ cn_removed c = true).
Proof.
  eexists. split; [vm_compute; reflexivity|]. split; [reflexivity|]. intros c H. vm_compute in H. injection H as <-. done.
Qed.

(** [totalDeliver] is described as one per message delivered; it counts sends. *)
Lemma delivered_counts_sends s : st_Delivered s = 0 -> st_Delivered (count_outcome s (Fanned true 3 0)) = 3.
Proof. intros H. simpl. rewrite H. done. Qed.

(** [dropUnknownUser] is described as a user without connections; a user whose
    connections are all full counts too. *)
Lemma full_user_counts_unknown s sent failed :
  sent = 0 -> failed = 1 -> st_DropUnknownUser (count_outcome s (Fanned false sent failed)) = incr64 (st_DropUnknownUser s).
Proof. by intros -> ->. Qed.
