(* ===== verification/Fix.v ===== *)
(** The FIX edges (src/internal/edge/fix, src/internal/edge/md): counterparties and
    their watcher, logon, orders mapped to envelopes and forwarded, execution reports
    back to the session, market-data requests answered from the quote cache.

    A FIX message is its type and the map of its body's tags; the engine that
    frames messages and runs sessions, the name it gives a session, decimal
    arithmetic, JSON and the backend's answers are parameters.

    The laws follow the definitions. *)

From Stdlib Require Import ZArith QArith Lia Ascii.
From S2P Require Import Prelude GoStrings Strconv Float64 Best.
Local Open Scope Z_scope.
Local Open Scope wtg_scope.

(** * Counterparties *)
(** The fields of both edges' documents. *)
Record Counterparty := mkCounterparty {
  cp_Password : string; cp_Channel : string; cp_Site : string; cp_Tier : string; cp_Usid : string; cp_OrderAlias : string;
  cp_MdReqRoleSet : list string }.
Definition AllowsMD (c : Counterparty) : bool :=
  existsb (fun r => bool_decide (ToUpper (GoStrings.TrimSpace r) = "MD")) (cp_MdReqRoleSet c).

Abbreviation policy := (gmap string Counterparty).
Definition policy_Lookup (p : policy) (cid : string) : option Counterparty := p !! cid.
Definition policy_Replace (m : policy) : policy := m.
Definition policy_Set (p : policy) (cid : string) (c : Counterparty) : policy := <[cid := c]> p.
Definition policy_Delete (p : policy) (cid : string) : policy := delete cid p.

Section watcher.
(** [decode]: the JSON document; [accepts]: every counterparty for orders, those
    with the role for market data. *)
Context (decode : list byte -> option Counterparty) (accepts : Counterparty -> bool) (prefix : string).
Definition cid_of (key : string) : string := TrimPrefix key prefix.
Definition load_one (m : policy) (kv : string * list byte) : policy :=
  let cid := cid_of kv.1 in
  if bool_decide (cid = "") then m
  else match decode kv.2 with Some c => if accepts c then <[cid := c]> m else m | None => m end.
Definition Watcher_Start (kvs : list (string * list byte)) : policy := policy_Replace (fold_left load_one kvs ∅).
Inductive event := EvPut (key : string) (value : list byte) | EvDelete (key : string).
Definition watch_event (p : policy) (e : event) : policy :=
  match e with
  | EvPut key v =>
      let cid := cid_of key in
      if bool_decide (cid = "") then p
      else match decode v with
           | Some c => if accepts c then policy_Set p cid c else policy_Delete p cid
           | None => p
           end
  | EvDelete key => let cid := cid_of key in if bool_decide (cid = "") then p else policy_Delete p cid
  end.
End watcher.
Definition watch_backoff (b : Z) : Z := if b <? 30 * 1000000000 then 2 * b else b.

(** * Orders *)
Abbreviation body := (gmap Z string).
Definition tagClOrdID : Z := 11.
Definition tagOrderID : Z := 37.
Definition tagOrderQty : Z := 38.
Definition tagOrdType : Z := 40.
Definition tagOrigClOrdID : Z := 41.
Definition tagPrice : Z := 44.
Definition tagSide : Z := 54.
Definition tagSymbol : Z := 55.
Definition tagText : Z := 58.
Definition tagTimeInForce : Z := 59.
Definition tagOrdRejReason : Z := 103.
Definition tagQuoteID : Z := 117.
Definition tagPassword : Z := 554.

Record OrderEnvelope := mkOrder {
  oe_Op : string; oe_ClientOrderID : string; oe_Symbol : string; oe_Side : string; oe_Qty : f64; oe_OrdType : string;
  oe_Price : f64; oe_TIF : string; oe_QuoteID : string; oe_OrigClientOrderID : string; oe_OrderID : string;
  oe_RawFix : gmap string string }.
Inductive MapErr := Missing (tag : Z) | Unsupported (tag : Z) (v : string) | LimitWithoutPrice.

Definition tif_name (v : string) : string :=
  if decide (v = "0") then "day" else if decide (v = "1") then "gtc" else if decide (v = "3") then "ioc" else if decide (v = "4") then "fok" else "".
Definition side_name (v : string) : res MapErr string :=
  if decide (v = "1") then Ok "buy" else if decide (v = "2") then Ok "sell" else Err (Unsupported tagSide v).
(** The tags are positive, so their texts are distinct. *)
Definition extractRawFix (b : body) : gmap string string :=
  list_to_map (map (fun kv => (Itoa kv.1, kv.2)) (map_to_list b)).
Definition required (b : body) (tag : Z) : res MapErr string := match b !! tag with Some v => Ok v | None => Err (Missing tag) end.
Definition optional (b : body) (tag : Z) : string := default "" (b !! tag).

Section mapping.
(** The field's decimal, as [Float64] gives it; [None]: not a number. *)
Context (decimal : string -> option f64).
Definition number (b : body) (tag : Z) : option f64 := v ← b !! tag; decimal v.
Definition required_number (b : body) (tag : Z) : res MapErr f64 := match number b tag with Some x => Ok x | None => Err (Missing tag) end.

Definition mapNewOrderSingle (b : body) : res MapErr OrderEnvelope :=
  cl ← required b tagClOrdID;
  sym ← required b tagSymbol;
  side ← required b tagSide;
  side ← side_name side;
  qty ← required_number b tagOrderQty;
  ot ← required b tagOrdType;
  '(ot, px) ← (if decide (ot = "1") then Ok ("market", f0)
               else if decide (ot = "2") then match number b tagPrice with Some p => Ok ("limit", p) | None => Err LimitWithoutPrice end
               else Err (Unsupported tagOrdType ot));
  Ok (mkOrder "new" cl sym side qty ot px (match b !! tagTimeInForce with Some t => tif_name t | None => "" end)
        (optional b tagQuoteID) "" "" (extractRawFix b)).
Definition mapOrderCancelRequest (b : body) : res MapErr OrderEnvelope :=
  orig ← required b tagOrigClOrdID;
  cl ← required b tagClOrdID;
  side ← required b tagSide;
  side ← side_name side;
  Ok (mkOrder "cancel" cl (optional b tagSymbol) side (default f0 (number b tagOrderQty)) "" f0 "" "" orig (optional b tagOrderID) (extractRawFix b)).
Definition mapOrderCancelReplaceRequest (b : body) : res MapErr OrderEnvelope :=
  orig ← required b tagOrigClOrdID;
  cl ← required b tagClOrdID;
  side ← required b tagSide;
  side ← side_name side;
  ot ← required b tagOrdType;
  '(ot, px) ← (if decide (ot = "1") then Ok ("market", f0)
               else if decide (ot = "2") then Ok ("limit", default f0 (number b tagPrice))
               else Err (Unsupported tagOrdType ot));
  Ok (mkOrder "replace" cl (optional b tagSymbol) side (default f0 (number b tagOrderQty)) ot px
        (match b !! tagTimeInForce with Some t => tif_name t | None => "" end) (optional b tagQuoteID) orig (optional b tagOrderID) (extractRawFix b)).
End mapping.

(** * Sessions *)
Record SessionID := mkSession { se_BeginString : string; se_SenderCompID : string; se_TargetCompID : string }.
Record Principal := mkPrincipal {
  pr_SenderCompID : string; pr_Usid : string; pr_Channel : string; pr_Site : string; pr_Tier : string; pr_OrderAlias : string }.
Record Stats := mkStats {
  fs_LogonOK : Z; fs_LogonReject : Z; fs_OrdersReceived : Z; fs_OrdersForwarded : Z; fs_OrdersRejected : Z;
  fs_ExecReportSent : Z; fs_ExecReportRejected : Z }.
(** [fa_sent]: the orders the backend was given. *)
Record fixApp := mkFixApp {
  fa_policy : policy; fa_active : gmap string Principal; fa_stats : Stats; fa_sent : list (SessionID * Principal * OrderEnvelope) }.
Inductive Reject := UnknownCounterparty | WrongPassword | NotAuthenticated | UnsupportedType (t : string) | Unmapped (e : MapErr) | ForwardFailed.
Record Message := mkMessage { ms_type : option string; ms_body : body }.

Definition set_active (a : fixApp) (m : gmap string Principal) (s : Stats) : fixApp := mkFixApp (fa_policy a) m s (fa_sent a).
Definition count_logon (s : Stats) (ok : bool) : Stats :=
  mkStats (if ok then incr64 (fs_LogonOK s) else fs_LogonOK s) (if ok then fs_LogonReject s else incr64 (fs_LogonReject s))
    (fs_OrdersReceived s) (fs_OrdersForwarded s) (fs_OrdersRejected s) (fs_ExecReportSent s) (fs_ExecReportRejected s).
Definition count_orders (s : Stats) (received forwarded rejected : bool) : Stats :=
  let on (b : bool) v := if b then incr64 v else v in
  mkStats (fs_LogonOK s) (fs_LogonReject s) (on received (fs_OrdersReceived s)) (on forwarded (fs_OrdersForwarded s))
    (on rejected (fs_OrdersRejected s)) (fs_ExecReportSent s) (fs_ExecReportRejected s).
Definition count_report (s : Stats) (sent : bool) : Stats :=
  mkStats (fs_LogonOK s) (fs_LogonReject s) (fs_OrdersReceived s) (fs_OrdersForwarded s) (fs_OrdersRejected s)
    (if sent then incr64 (fs_ExecReportSent s) else fs_ExecReportSent s) (if sent then fs_ExecReportRejected s else incr64 (fs_ExecReportRejected s)).

(** The counterparty's identity in the system. *)
Definition principal_of (target : string) (c : Counterparty) : Principal :=
  mkPrincipal target (if bool_decide (cp_Usid c = "") then target else cp_Usid c)
    (if bool_decide (cp_Channel c = "") then "FIX" else cp_Channel c) (cp_Site c) (cp_Tier c) (cp_OrderAlias c).
(** The decision of a logon. *)
Definition authenticate (p : policy) (target : string) (password : option string) : res Reject Principal :=
  match policy_Lookup p target with
  | None => Err UnknownCounterparty
  | Some c =>
      if negb (bool_decide (cp_Password c = "")) && negb (bool_decide (password = Some (cp_Password c))) then Err WrongPassword
      else Ok (principal_of target c)
  end.

Section sessions.
Context (sid_String : SessionID -> string) (decimal : string -> option f64).
Definition FromAdmin (a : fixApp) (m : Message) (sid : SessionID) : fixApp * option Reject :=
  if bool_decide (ms_type m = Some "A") then
    match authenticate (fa_policy a) (se_TargetCompID sid) (ms_body m !! tagPassword) with
    | Ok p => (set_active a (<[sid_String sid := p]> (fa_active a)) (fa_stats a), None)
    | Err e => (set_active a (fa_active a) (count_logon (fa_stats a) false), Some e)
    | Panic => (a, None)
    end
  else (a, None).
Definition OnLogon (a : fixApp) (sid : SessionID) : fixApp := set_active a (fa_active a) (count_logon (fa_stats a) true).
Definition OnLogout (a : fixApp) (sid : SessionID) : fixApp := set_active a (delete (sid_String sid) (fa_active a)) (fa_stats a).

Definition map_message (t : string) (b : body) : option (res MapErr OrderEnvelope) :=
  if decide (t = "D") then Some (mapNewOrderSingle decimal b)
  else if decide (t = "F") then Some (mapOrderCancelRequest decimal b)
  else if decide (t = "G") then Some (mapOrderCancelReplaceRequest decimal b)
  else None.
(** [backend]: [None] without a forwarder, else whether the backend took the order. *)
Definition FromApp (backend : option bool) (a : fixApp) (m : Message) (sid : SessionID) : fixApp * option Reject :=
  match ms_type m with
  | None => (a, None)
  | Some t =>
      match fa_active a !! sid_String sid with
      | None => (a, Some NotAuthenticated)
      | Some p =>
          match map_message t (ms_body m) with
          | None => (a, Some (UnsupportedType t))
          | Some (Ok env) =>
              match backend with
              | None => (set_active a (fa_active a) (count_orders (fa_stats a) true false false), None)
              | Some ok =>
                  (mkFixApp (fa_policy a) (fa_active a) (count_orders (fa_stats a) true ok (negb ok)) (fa_sent a ++ [(sid, p, env)]),
                   if ok then None else Some ForwardFailed)
              end
          | Some (Err e) => (set_active a (fa_active a) (count_orders (fa_stats a) false false true), Some (Unmapped e))
          | Some Panic => (a, None)
          end
      end
  end.
(** The alias an order is routed by, and the headers of the request. *)
Definition forward_alias (p : Principal) : string := if bool_decide (pr_OrderAlias p = "") then "FIX_NEW_ORDER" else pr_OrderAlias p.
Definition forward_headers (p : Principal) : list (string * string) :=
  [("X-WTG-Edge-User", pr_Usid p); ("X-WTG-Edge-Channel", pr_Channel p); ("X-WTG-Edge-Site", pr_Site p); ("X-WTG-Edge-Tier", pr_Tier p)].
End sessions.

(** * Execution reports *)
Record ExecReportPayload := mkExec {
  ex_Target : string; ex_OrderID : string; ex_ClientOrderID : string; ex_ExecID : string; ex_ExecType : string; ex_OrdStatus : string;
  ex_Side : string; ex_Symbol : string; ex_LeavesQty : f64; ex_CumQty : f64; ex_AvgPx : f64; ex_LastPx : f64; ex_LastQty : f64;
  ex_OrdRejReason : string; ex_Text : string }.
Inductive ExecErr := NeedsTarget | NeedsOrderID | NeedsExecID | NeedsExecType | NeedsOrdStatus | NeedsSide | BadSide (s : string) | SessionInactive | SendFailed.
Definition exec_Validate (p : ExecReportPayload) : option ExecErr :=
  if bool_decide (ex_Target p = "") then Some NeedsTarget
  else if bool_decide (ex_OrderID p = "") then Some NeedsOrderID
  else if bool_decide (ex_ExecID p = "") then Some NeedsExecID
  else if bool_decide (ex_ExecType p = "") then Some NeedsExecType
  else if bool_decide (ex_OrdStatus p = "") then Some NeedsOrdStatus
  else if bool_decide (ex_Side p = "") then Some NeedsSide
  else None.
Definition sideToFIX (s : string) : res ExecErr string :=
  if decide (s = "buy" \/ s = "BUY" \/ s = "B") then Ok "1"
  else if decide (s = "sell" \/ s = "SELL" \/ s = "S") then Ok "2" else Err (BadSide s).
Definition mapOrdRejReason (errn : string) : string * string :=
  if decide (errn = "") then ("", "")
  else if decide (errn = "1029") then ("99", "quote id expired")
  else if decide (errn = "1030") then ("2", "kill switch active")
  else if decide (errn = "1031") then ("3", "order exceeds limit")
  else if decide (errn = "1032") then ("1", "unknown symbol")
  else if decide (errn = "1033") then ("6", "duplicate order")
  else if decide (errn = "1034") then ("13", "incorrect quantity")
  else if decide (errn = "1035") then ("11", "unsupported order characteristic")
  else if decide (errn = "1036") then ("8", "stale order (too late)")
  else if decide (errn = "1037") then ("5", "unknown order")
  else ("99", "unmapped errn=" +:+ errn).
Definition IsRejection (execType ordStatus : string) : bool := bool_decide (execType = "8") || bool_decide (ordStatus = "8").

Section reports.
(** [fixed x n]: the decimal of [x] with [n] places. *)
Context (fixed : f64 -> Z -> string).
Definition set_if (b : bool) (tag : Z) (v : string) (m : body) : body := if b then <[tag := v]> m else m.
Definition report_body (p : ExecReportPayload) (side : string) : body :=
  <[37 := ex_OrderID p]> (<[17 := ex_ExecID p]> (<[150 := ex_ExecType p]> (<[39 := ex_OrdStatus p]> (<[54 := side]>
  (<[151 := fixed (ex_LeavesQty p) 0]> (<[14 := fixed (ex_CumQty p) 0]> (<[6 := fixed (ex_AvgPx p) 5]> ∅))))))).
Definition buildExecutionReport (p : ExecReportPayload) : res ExecErr body :=
  match exec_Validate p with
  | Some e => Err e
  | None =>
      side ← sideToFIX (ex_Side p);
      let m := report_body p side in
      let m := set_if (negb (bool_decide (ex_Symbol p = ""))) tagSymbol (ex_Symbol p) m in
      let m := set_if (negb (bool_decide (ex_ClientOrderID p = ""))) tagClOrdID (ex_ClientOrderID p) m in
      let m := set_if (f0 <f ex_LastPx p) 31 (fixed (ex_LastPx p) 5) m in
      let m := set_if (f0 <f ex_LastQty p) 32 (fixed (ex_LastQty p) 0) m in
      let '(reason, text) := mapOrdRejReason (ex_OrdRejReason p) in
      let text := if bool_decide (ex_Text p = "") then text else ex_Text p in
      let m := set_if (negb (bool_decide (reason = ""))) tagOrdRejReason reason m in
      Ok (set_if (negb (bool_decide (text = ""))) tagText text m)
  end.
(** [send]: whether the engine queues the message. *)
Definition SendExecReport (sid_String : SessionID -> string) (self : string) (send : bool) (a : fixApp) (p : ExecReportPayload)
  : fixApp * res ExecErr (SessionID * body) :=
  match exec_Validate p with
  | Some e => (a, Err e)
  | None =>
      let sid := mkSession "FIX.4.4" self (ex_Target p) in
      let fail e := (set_active a (fa_active a) (count_report (fa_stats a) false), Err e) in
      match fa_active a !! sid_String sid with
      | None => fail SessionInactive
      | Some _ =>
          match buildExecutionReport p with
          | Ok m => if send then (set_active a (fa_active a) (count_report (fa_stats a) true), Ok (sid, m)) else fail SendFailed
          | Err e => fail e
          | Panic => (a, Panic)
          end
      end
  end.
End reports.
Inductive report_answer := RUnauthorized | RBadJSON | RInvalid (e : ExecErr) | RUnavailable (e : ExecErr) | RSent.
Definition ExecReportHandler (fixed : f64 -> Z -> string) (sid_String : SessionID -> string) (self secret got : string) (send : bool)
    (a : fixApp) (decoded : option ExecReportPayload) : fixApp * report_answer :=
  if negb (bool_decide (secret = "")) && negb (bool_decide (got = secret)) then (a, RUnauthorized)
  else match decoded with
       | None => (a, RBadJSON)
       | Some p =>
           match exec_Validate p with
           | Some e => (a, RInvalid e)
           | None => match SendExecReport fixed sid_String self send a p with
                     | (a, Ok _) => (a, RSent) | (a, Err e) => (a, RUnavailable e) | (a, Panic) => (a, RSent)
                     end
           end
       end.

(** * Market data *)
Record CustomerQuote := mkCQ { cq_pair : string; cq_profile : string; cq_bid : f64; cq_ask : f64 }.
Record StaticQuote := mkStatic { sq_Bid : f64; sq_Ask : f64; sq_Scale : Z; sq_Size : f64 }.
Record ParsedMDR := mkMDR { mr_MDReqID : string; mr_SubReqType : string; mr_Symbols : list string }.
Inductive MdrErr := NeedsMDReqID | NeedsSubscription | NeedsSymbols | EmptySymbols | SymbolMissing (i : nat).
(** The request's fields; the group: the symbol of each row, if it has one. *)
Record MarketDataRequest := mkRequest { rq_MDReqID : option string; rq_SubReqType : option string; rq_NoRelatedSym : option (list (option string)) }.
Fixpoint symbols_of (i : nat) (rows : list (option string)) : res MdrErr (list string) :=
  match rows with
  | [] => Ok []
  | Some s :: rows =>
      if bool_decide (GoStrings.TrimSpace s = "") then Err (SymbolMissing i) else rest ← symbols_of (S i) rows; Ok (s :: rest)
  | None :: _ => Err (SymbolMissing i)
  end.
Definition ParseMDR (r : MarketDataRequest) : res MdrErr ParsedMDR :=
  match rq_MDReqID r with
  | None => Err NeedsMDReqID
  | Some id =>
      match rq_SubReqType r with
      | None => Err NeedsSubscription
      | Some t =>
          match rq_NoRelatedSym r with
          | None => Err NeedsSymbols
          | Some [] => Err EmptySymbols
          | Some rows => syms ← symbols_of 0 rows; Ok (mkMDR id t syms)
          end
      end
  end.
Definition pairScale (pair : string) : Z :=
  match Split pair "/" with
  | [_; q] => let q := ToUpper (GoStrings.TrimSpace q) in
              if decide (q ∈ ["JPY"; "KRW"; "CNY"; "TWD"; "IDR"; "VND"]) then 2 else 4
  | _ => 4
  end.
(** The entries: type, price with its places, size. *)
Record Snapshot := mkSnapshot { sn_MDReqID : string; sn_Symbol : string; sn_entries : list (string * (f64 * Z) * f64) }.
Definition BuildSnapshot (id sym : string) (q : StaticQuote) : Snapshot :=
  mkSnapshot id sym [("0", (sq_Bid q, sq_Scale q), sq_Size q); ("1", (sq_Ask q, sq_Scale q), sq_Size q)].
Definition BuildSnapshotFromCustomerQuote (id : string) (c : CustomerQuote) : Snapshot :=
  BuildSnapshot id (cq_pair c) (mkStatic (cq_bid c) (cq_ask c) (pairScale (cq_pair c)) (f_of_Z 1000000)).

(** The quote cache of the upstream stream. *)
Abbreviation quote_cache := (gmap string CustomerQuote).
Definition cache_quote (c : quote_cache) (q : CustomerQuote) : quote_cache := <[cq_pair q := q]> c.
Record mdApp := mkMdApp {
  md_active : gmap string Principal; md_upstream : option quote_cache; md_static : gmap string StaticQuote;
  md_received : Z; md_rejected : Z; md_sent : Z; md_missing : Z }.
(** [sends]: whether the engine takes the snapshot of a symbol. *)
Definition tryBuildSnapshot (a : mdApp) (sends : string -> bool) (id sym : string) : mdApp * option Snapshot :=
  let out s := if sends sym
    then (mkMdApp (md_active a) (md_upstream a) (md_static a) (md_received a) (md_rejected a) (incr64 (md_sent a)) (md_missing a), Some s)
    else (a, None) in
  match (c ← md_upstream a; c !! sym) with
  | Some q => out (BuildSnapshotFromCustomerQuote id q)
  | None =>
      match md_static a !! sym with
      | Some q => out (BuildSnapshot id sym q)
      | None => (mkMdApp (md_active a) (md_upstream a) (md_static a) (md_received a) (md_rejected a) (md_sent a) (incr64 (md_missing a)), None)
      end
  end.
Fixpoint answer_symbols (a : mdApp) (sends : string -> bool) (id : string) (syms : list string) : mdApp * list Snapshot :=
  match syms with
  | [] => (a, [])
  | s :: syms =>
      let '(a, o) := tryBuildSnapshot a sends id s in
      let '(a, rest) := answer_symbols a sends id syms in
      (a, match o with Some x => x :: rest | None => rest end)
  end.
Inductive MdReject := MdNotAuthenticated | MdUnsupported (t : string) | MdBad (e : MdrErr).
Definition md_FromApp (sid_String : SessionID -> string) (sends : string -> bool) (a : mdApp) (t : option string) (r : MarketDataRequest)
    (sid : SessionID) : mdApp * list Snapshot * option MdReject :=
  match t with
  | None => (a, [], None)
  | Some t =>
      match md_active a !! sid_String sid with
      | None => (a, [], Some MdNotAuthenticated)
      | Some _ =>
          if negb (bool_decide (t = "V")) then (a, [], Some (MdUnsupported t))
          else
            let a := mkMdApp (md_active a) (md_upstream a) (md_static a) (incr64 (md_received a)) (md_rejected a) (md_sent a) (md_missing a) in
            match ParseMDR r with
            | Ok p => let '(a, out) := answer_symbols a sends (mr_MDReqID p) (mr_Symbols p) in (a, out, None)
            | Err e => (mkMdApp (md_active a) (md_upstream a) (md_static a) (md_received a) (incr64 (md_rejected a)) (md_sent a) (md_missing a), [], Some (MdBad e))
            | Panic => (a, [], None)
            end
      end
  end.

(** * Laws
    Laws of the FIX edges (Fix): orders reach the backend only under the identity
    their session logged on with; the counterparty table follows the store; message
    mapping; execution reports; defects found. *)

(** * Sessions *)
(** The engine's callbacks, changes of the counterparty table and reports, in any
    order. *)
Inductive fix_ev :=
| FAdmin (m : Message) (sid : SessionID) | FLogon (sid : SessionID) | FLogout (sid : SessionID)
| FApp (backend : option bool) (m : Message) (sid : SessionID)
| FPolicy (p : policy) | FReport (send : bool) (p : ExecReportPayload).

Section sessions.
Context (sid_String : SessionID -> string) (decimal : string -> option f64) (fixed : f64 -> Z -> string) (self : string).
Definition fix_step (a : fixApp) (e : fix_ev) : fixApp :=
  match e with
  | FAdmin m sid => (FromAdmin sid_String a m sid).1
  | FLogon sid => OnLogon a sid
  | FLogout sid => OnLogout sid_String a sid
  | FApp backend m sid => (FromApp sid_String decimal backend a m sid).1
  | FPolicy p => mkFixApp p (fa_active a) (fa_stats a) (fa_sent a)
  | FReport send p => (SendExecReport fixed sid_String self send a p).1
  end.
Definition fix_app0 (p : policy) : fixApp := mkFixApp p ∅ (mkStats 0 0 0 0 0 0 0) [].
Definition fix_run (p : policy) (es : list fix_ev) : fixApp := fold_left fix_step es (fix_app0 p).

(** The session named [key] logged on in [es] with the password of the counterparty
    registered under its name at that moment, if that has one, is known as [pr] and has
    not logged out since. *)
Definition logged_on (p0 : policy) (es : list fix_ev) (key : string) (pr : Principal) : Prop :=
  exists pre m sid mid, es = pre ++ FAdmin m sid :: mid /\ sid_String sid = key /\ ms_type m = Some "A" /\
    (exists c, fa_policy (fix_run p0 pre) !! se_TargetCompID sid = Some c /\
       (cp_Password c = "" \/ ms_body m !! tagPassword = Some (cp_Password c)) /\ pr = principal_of (se_TargetCompID sid) c) /\
    forall sid', FLogout sid' ∈ mid -> sid_String sid' <> key.

Lemma authenticate_ok p target pw pr :
  authenticate p target pw = Ok pr -> exists c, p !! target = Some c /\ (cp_Password c = "" \/ pw = Some (cp_Password c)) /\ pr = principal_of target c.
Proof.
  unfold authenticate, policy_Lookup. destruct (p !! target) as [c|]; [|done].
  destruct (bool_decide (cp_Password c = "")) eqn:E1, (bool_decide (pw = Some (cp_Password c))) eqn:E2; simpl; try done; intros [= <-]; exists c;
    (split; [done|]); (split; [|done]).
  1-2: left; by apply bool_decide_eq_true in E1.
  right. by apply bool_decide_eq_true in E2.
Qed.
Lemma fix_run_snoc p0 es e : fix_run p0 (es ++ [e]) = fix_step (fix_run p0 es) e.
Proof. unfold fix_run. by rewrite fold_left_app. Qed.

Lemma logged_on_snoc p0 es e key pr :
  logged_on p0 es key pr -> (forall sid, e = FLogout sid -> sid_String sid <> key) -> logged_on p0 (es ++ [e]) key pr.
Proof.
  intros (pre & m & sid & mid & -> & K & T & A & N) He. exists pre, m, sid, (mid ++ [e]).
  rewrite <-app_assoc. split_and!; try done. intros sid'. rewrite elem_of_app, list_elem_of_singleton. intros [H|H]; eauto.
Qed.

(** Steps other than logons and logouts leave the sessions. *)
Lemma fix_step_active a e :
  match e with FAdmin _ _ | FLogout _ => True | _ => fa_active (fix_step a e) = fa_active a end.
Proof.
  destruct e as [| | |backend m sid| |send p]; try done; cbn [fix_step].
  - unfold FromApp. destruct (ms_type m); [|done]. destruct (fa_active a !! _); [|done].
    destruct (map_message _ _ _) as [[]|]; try done. by destruct backend.
  - unfold SendExecReport. destruct (exec_Validate p); [done|]. destruct (fa_active a !! _); [|done].
    destruct (buildExecutionReport _ _); try done. by destruct send.
Qed.

Lemma active_logged_on p0 es key pr : fa_active (fix_run p0 es) !! key = Some pr -> logged_on p0 es key pr.
Proof.
  revert key pr. induction es as [|e es IH] using rev_ind; [done|]. intros key pr. rewrite fix_run_snoc. intros H.
  pose proof (fix_step_active (fix_run p0 es) e) as Ha.
  destruct e as [m sid| |sid| | |]; try (rewrite Ha in H; apply logged_on_snoc; [by apply IH|done]).
  - cbn [fix_step] in H. unfold FromAdmin in H. case_bool_decide as Et; [|apply logged_on_snoc; [by apply IH|done]].
    destruct (authenticate _ _ _) as [p| |] eqn:Eauth; [|apply logged_on_snoc; [by apply IH|done]..].
    simpl in H. apply lookup_insert_Some in H as [[K <-]|[_ H]]; [|apply logged_on_snoc; [by apply IH|done]].
    exists es, m, sid, []. split_and!; try done; [by apply authenticate_ok|]. intros ? ?%not_elem_of_nil. done.
  - cbn [fix_step] in H. unfold OnLogout in H. simpl in H. apply lookup_delete_Some in H as [K H].
    apply logged_on_snoc; [by apply IH|]. by intros ? [= <-].
Qed.

Lemma sent_step a e x :
  x ∈ fa_sent (fix_step a e) -> x ∈ fa_sent a \/
  exists ok m t, e = FApp (Some ok) m x.1.1 /\ fa_active a !! sid_String x.1.1 = Some x.1.2 /\ ms_type m = Some t /\
    map_message decimal t (ms_body m) = Some (Ok x.2).
Proof.
  destruct e as [m sid|sid|sid|backend m sid|p|send p]; cbn [fix_step]; try (by left).
  - unfold FromAdmin. destruct (bool_decide _); [|by left]. destruct (authenticate _ _ _); by left.
  - unfold FromApp. destruct (ms_type m) as [t|] eqn:Et; [|by left]. destruct (fa_active a !! _) as [p|] eqn:Ea; [|by left].
    destruct (map_message decimal t (ms_body m)) as [[env|e|]|] eqn:Em; try (by left). destruct backend as [ok|]; [|by left].
    simpl. rewrite elem_of_app, list_elem_of_singleton. intros [H| ->]; [by left|]. right. by exists ok, m, t.
  - unfold SendExecReport. destruct (exec_Validate p); [by left|]. destruct (fa_active a !! _); [|by left].
    destruct (buildExecutionReport _ _); try (by left). destruct send; by left.
Qed.

(** C14. Attribution of FIX orders: over any sequence of logons, logouts, orders,
    changes of the counterparty table and reports, every order handed to the
    backend is the mapping of a message of a session that had logged on, and not
    logged out since, with the password of a counterparty registered at that
    moment, and carries exactly that counterparty's identity. *)
Theorem fix_orders_attributed (p0 : policy) (es : list fix_ev) (sid : SessionID) (pr : Principal) (env : OrderEnvelope) :
  (sid, pr, env) ∈ fa_sent (fix_run p0 es) ->
  exists before ok m after, es = before ++ FApp (Some ok) m sid :: after /\
    (exists t, ms_type m = Some t /\ map_message decimal t (ms_body m) = Some (Ok env)) /\
    logged_on p0 before (sid_String sid) pr.
Proof.
  induction es as [|e es IH] using rev_ind; [intros H; by apply not_elem_of_nil in H|]. rewrite fix_run_snoc. intros H.
  apply sent_step in H as [H|(ok & m & t & -> & Ha & Ht & Hm)].
  - destruct (IH H) as (before & ok & m & after & -> & ? & ?). exists before, ok, m, (after ++ [e]). by rewrite <-app_assoc.
  - exists es, ok, m, []. split_and!; [done|eauto|]. by apply active_logged_on.
Qed.
End sessions.

(** A logon, a new order and a revoked counterparty. *)
#[local] Abbreviation ex_cp := (mkCounterparty "s3cret" "" "HQ" "VIP" "" "" []).
#[local] Abbreviation ex_sid := (mkSession "FIX.4.4" "WTG" "ECN_X").
#[local] Abbreviation ex_logon := (Fix.mkMessage (Some "A") {[ 554 := "s3cret" ]}).
#[local] Abbreviation ex_order :=
  (Fix.mkMessage (Some "D") (<[11 := "c1"]> (<[55 := "USD/KRW"]> (<[54 := "1"]> (<[38 := "1000"]> {[ 40 := "1" ]}))))).
#[local] Abbreviation ex_fix_run := [FAdmin ex_logon ex_sid; FApp (Some true) ex_order ex_sid].

Lemma fix_orders_attributed_witness :
  exists before ok m after, ex_fix_run = before ++ FApp (Some ok) m ex_sid :: after /\
    (exists t, ms_type m = Some t /\ map_message (fun _ => Some f1) t (ms_body m) =
       Some (Ok (mkOrder "new" "c1" "USD/KRW" "buy" f1 "market" f0 "" "" "" "" (extractRawFix (ms_body ex_order))))) /\
    logged_on se_TargetCompID (fun _ => Some f1) (fun _ _ => "") "WTG" {[ "ECN_X" := ex_cp ]} before "ECN_X" (principal_of "ECN_X" ex_cp).
Proof.
  apply (fix_orders_attributed se_TargetCompID (fun _ => Some f1) (fun _ _ => "") "WTG" {[ "ECN_X" := ex_cp ]} ex_fix_run ex_sid
           (principal_of "ECN_X" ex_cp)
           (mkOrder "new" "c1" "USD/KRW" "buy" f1 "market" f0 "" "" "" "" (extractRawFix (ms_body ex_order)))).
  left.
Defined.

(** * The counterparty table *)
(** The store under the prefix, by counterparty. *)
Definition store_event (prefix : string) (s : gmap string (list byte)) (e : event) : gmap string (list byte) :=
  match e with
  | EvPut k v => if bool_decide (cid_of prefix k = "") then s else <[cid_of prefix k := v]> s
  | EvDelete k => if bool_decide (cid_of prefix k = "") then s else delete (cid_of prefix k) s
  end.
Definition put_ok (decode : list byte -> option Counterparty) (e : event) : Prop :=
  match e with EvPut _ v => is_Some (decode v) | EvDelete _ => True end.
(** What the table should be: the documents that decode and are accepted. *)
Definition view (decode : list byte -> option Counterparty) (accepts : Counterparty -> bool) (s : gmap string (list byte)) : policy :=
  omap (fun v => c ← decode v; if accepts c then Some c else None) s.

Lemma watch_event_view decode accepts prefix s e :
  put_ok decode e ->
  watch_event decode accepts prefix (view decode accepts s) e = view decode accepts (store_event prefix s e).
Proof.
  intros Hp. unfold view. destruct e as [k v|k]; cbn [watch_event store_event].
  - case_bool_decide; [done|]. destruct Hp as [c Hc]. rewrite Hc. destruct (accepts c) eqn:Ea.
    + symmetry. apply omap_insert_Some. by rewrite Hc; simpl; rewrite Ea.
    + symmetry. apply omap_insert_None. by rewrite Hc; simpl; rewrite Ea.
  - case_bool_decide; [done|]. symmetry. apply omap_delete.
Qed.

(** After any documents that decode and deletions, the table is that of the store. *)
Lemma policy_follows_store decode accepts prefix s es :
  Forall (put_ok decode) es ->
  fold_left (watch_event decode accepts prefix) es (view decode accepts s)
    = view decode accepts (fold_left (store_event prefix) es s).
Proof.
  intros Hes. revert s. induction Hes as [|e es He Hes IH]; intros s; [done|]. cbn [fold_left].
  rewrite watch_event_view by done. apply IH.
Qed.

(** A document that does not decode keeps the old counterparty until a restart. *)
Lemma bad_put_keeps_old decode accepts prefix p k v :
  decode v = None -> watch_event decode accepts prefix p (EvPut k v) = p.
Proof. intros Hd. cbn [watch_event]. case_bool_decide; [done|]. by rewrite Hd. Qed.

(** The wait between retries ends above its bound. *)
Lemma watch_backoff_exceeds : Nat.iter 6 watch_backoff 1000000000 = 32 * 1000000000.
Proof. reflexivity. Qed.

(** * Mapping *)
(** A new order is mapped exactly when it has its identifier, symbol, a known side,
    a quantity and a known type with a price for a limit. *)
Lemma mapNewOrderSingle_ok decimal b :
  (exists env, mapNewOrderSingle decimal b = Ok env) <->
  is_Some (b !! tagClOrdID) /\ is_Some (b !! tagSymbol) /\ (b !! tagSide = Some "1" \/ b !! tagSide = Some "2") /\
  is_Some (number decimal b tagOrderQty) /\
  (b !! tagOrdType = Some "1" \/ b !! tagOrdType = Some "2" /\ is_Some (number decimal b tagPrice)).
Proof.
  unfold mapNewOrderSingle, required, required_number, side_name.
  destruct (b !! tagClOrdID) as [cl|]; simpl; [|split; [by intros [? ?]|by intros ([? ?] & _)]].
  destruct (b !! tagSymbol) as [sym|]; simpl; [|split; [by intros [? ?]|by intros (_ & [? ?] & _)]].
  destruct (b !! tagSide) as [side|]; simpl; [|split; [by intros [? ?]|by intros (_ & _ & [?|?] & _)]].
  assert (forall x : res MapErr string, (x = Ok "buy" /\ side = "1" \/ x = Ok "sell" /\ side = "2" \/ (side <> "1" /\ side <> "2" /\ exists e, x = Err e)) ->
    ((exists env, (x ≫= fun s => qty ← match number decimal b tagOrderQty with Some q => Ok q | None => Err (Missing tagOrderQty) end;
      ot ← match b !! tagOrdType with Some v => Ok v | None => Err (Missing tagOrdType) end;
      '(ot, px) ← (if decide (ot = "1") then Ok ("market", f0)
        else if decide (ot = "2") then match number decimal b tagPrice with Some p => Ok ("limit", p) | None => Err LimitWithoutPrice end
        else Err (Unsupported tagOrdType ot));
      Ok (mkOrder "new" cl sym s qty ot px (match b !! tagTimeInForce with Some t => tif_name t | None => "" end)
        (optional b tagQuoteID) "" "" (extractRawFix b))) = Ok env) <->
    (side = "1" \/ side = "2") /\ is_Some (number decimal b tagOrderQty) /\
    (b !! tagOrdType = Some "1" \/ b !! tagOrdType = Some "2" /\ is_Some (number decimal b tagPrice)))) as K.
  { intros x Hx. destruct Hx as [[-> ->]|[[-> ->]|(N1 & N2 & e & ->)]]; simpl.
    3: { split; [by intros [? ?]|]. by intros ([?|?] & _). }
    all: destruct (number decimal b tagOrderQty) as [q|]; simpl; [|split; [by intros [? ?]|by intros (_ & [? ?] & _)]];
      destruct (b !! tagOrdType) as [ot|]; simpl; [|split; [by intros [? ?]|by intros (_ & _ & [?|[? _]])]];
      destruct (decide (ot = "1")) as [->|]; simpl; [split; eauto 10|];
      destruct (decide (ot = "2")) as [->|]; simpl; [|split; [by intros [? ?]|intros (_ & _ & [[= ?]|[[= ?] _]]); done]];
      destruct (number decimal b tagPrice); simpl; (split; [intros [? ?]; naive_solver|intros (_ & _ & [[=]|[_ [? ?]]]); eauto || done]). }
  rewrite K.
  - naive_solver.
  - destruct (decide (side = "1")); [by left|]. destruct (decide (side = "2")); [by right; left|]. right. right. eauto.
Qed.

(** The side of an order comes back in its execution reports. *)
Lemma side_roundtrip v s : side_name v = Ok s -> sideToFIX s = Ok v.
Proof.
  unfold side_name. destruct (decide (v = "1")) as [->|]; [by intros [= <-]|].
  destruct (decide (v = "2")) as [->|]; [by intros [= <-]|done].
Qed.

(** * Execution reports *)
(** A report is sent only to a session that is logged on, and always carries the
    engine's reason for a rejection. *)
Lemma report_sent fixed sid_String self send a p a' sid m :
  SendExecReport fixed sid_String self send a p = (a', Ok (sid, m)) ->
  is_Some (fa_active a !! sid_String sid) /\ se_TargetCompID sid = ex_Target p /\ m !! 37 = Some (ex_OrderID p) /\
  m !! 17 = Some (ex_ExecID p) /\ (ex_OrdRejReason p <> "" -> m !! tagOrdRejReason = Some (mapOrdRejReason (ex_OrdRejReason p)).1).
Proof.
  unfold SendExecReport. destruct (exec_Validate p) eqn:Ev; [done|].
  destruct (fa_active a !! _) as [pr|] eqn:Ea; [|done]. destruct (buildExecutionReport fixed p) as [m'| |] eqn:Eb; [|done..].
  destruct send; [|done]. intros [= <- <- <-]. rewrite Ea. split; [done|]. split; [done|].
  unfold buildExecutionReport in Eb. rewrite Ev in Eb. destruct (sideToFIX (ex_Side p)) as [side| |]; [|done..]. simpl in Eb.
  destruct (mapOrdRejReason (ex_OrdRejReason p)) as [reason text] eqn:Er. injection Eb as <-.
  assert (forall b t v (k : Z) mm, t <> k -> set_if b t v mm !! k = mm !! k) as S by (intros [] ? ? ? ? ?; simpl; [by rewrite lookup_insert_ne|done]).
  split; [rewrite !S by done; unfold report_body; by simplify_map_eq|]. split; [rewrite !S by done; unfold report_body; by simplify_map_eq|].
  intros Hne. rewrite S by done. unfold mapOrdRejReason in Er. rewrite decide_False in Er by done.
  assert (reason <> "") as Hr by (repeat case_decide; by simplify_eq).
  unfold set_if at 1. rewrite (bool_decide_false (reason = "")) by done. apply lookup_insert_eq.
Qed.

(** * Defects *)
(** The cache of quotes has one entry per pair: the quote of whichever profile came
    last answers every counterparty. *)
Lemma md_answers_other_profile c q q' id a sends :
  cq_pair q' = cq_pair q -> md_upstream a = Some (cache_quote (cache_quote c q) q') -> sends (cq_pair q) = true ->
  (tryBuildSnapshot a sends id (cq_pair q)).2 = Some (BuildSnapshotFromCustomerQuote id q').
Proof.
  intros Ep Hu Hs. unfold tryBuildSnapshot, cache_quote in *. rewrite Hu. simpl. rewrite Ep, lookup_insert_eq, Hs. done.
Qed.

(** A counterparty removed from the table still trades on its open session. *)
Lemma revoked_still_trades :
  let run := fix_run se_TargetCompID (fun _ => Some f1) (fun _ _ => "") "WTG" {[ "ECN_X" := ex_cp ]} in
  length (fa_sent (run [FAdmin ex_logon ex_sid; FPolicy ∅; FApp (Some true) ex_order ex_sid])) = 1%nat.
Proof. vm_compute. reflexivity. Qed.
