(* ===== verification/TxAudit.v ===== *)
(** What the transaction endpoint records about its calls
    (src/internal/api/handlers/tx_ring.go, recent_tx.go, alias_metrics.go): the ring
    of recent transactions and its query, the statistics per alias and tier. *)

From Stdlib Require Import ZArith QArith Lia Ascii.
From S2P Require Import Prelude Sorting GoStrings Strconv GoTime Float64 Dates Ring.
Local Open Scope Z_scope.
Local Open Scope wtg_scope.

(** * The ring of recent transactions *)
Record TxEntry := mkTxEntry {
  te_TS : Time; te_Usid : string; te_Channel : string; te_Tier : string; te_Alias : string; te_Exchange : string; te_RoutingKey : string;
  te_HTTPStatus : Z; te_BrokerErrn : Z; te_LatencyMs : f64; te_RequestID : string; te_TraceIDHex : string; te_IsBulk : bool }.
Definition zero_entry : TxEntry := mkTxEntry (mkTime (- (62135596800 * ns_per_sec)) 0) "" "" "" "" "" "" 0 0 f0 "" "" false.
Record TxRing := mkTxRing { tr_entries : list TxEntry; tr_idx : Z; tr_full : bool }.

Definition NewTxRing (capacity : Z) : TxRing :=
  let capacity := if capacity <=? 0 then 1000 else capacity in
  mkTxRing (replicate (Z.to_nat capacity) zero_entry) 0 false.
Definition ring_append (r : TxRing) (e : TxEntry) : TxRing :=
  let idx := (tr_idx r + 1) mod zlen (tr_entries r) in
  mkTxRing (<[Z.to_nat (tr_idx r) := e]> (tr_entries r)) idx (tr_full r || (idx =? 0)).
(** The methods accept a nil ring. *)
Definition Append (r : option TxRing) (e : TxEntry) : option TxRing := option_map (fun r => ring_append r e) r.
Definition ring_size (r : TxRing) : Z := if tr_full r then zlen (tr_entries r) else tr_idx r.
Definition Size (r : option TxRing) : Z := match r with Some r => ring_size r | None => 0 end.
Definition Cap (r : option TxRing) : Z := match r with Some r => zlen (tr_entries r) | None => 0 end.
(** [pos := (r.idx - 1 - i + len(r.entries)) % len(r.entries)]. *)
Definition snapshot_pos (r : TxRing) (i : nat) : Z := (tr_idx r - 1 - Z.of_nat i + zlen (tr_entries r)) `rem` zlen (tr_entries r).
Definition Snapshot (r : option TxRing) (limit : Z) : list TxEntry :=
  match r with
  | None => []
  | Some r =>
      if limit <? 0 then []
      else
        let size := ring_size r in
        let limit := if (limit =? 0) || (size <? limit) then size else limit in
        map (fun i => nth (Z.to_nat (snapshot_pos r i)) (tr_entries r) zero_entry) (seq 0 (Z.to_nat limit))
  end.

(** [strings.Contains]. *)
Fixpoint Contains (s sub : string) : bool :=
  HasPrefix s sub || match s with EmptyString => false | String _ s => Contains s sub end.
(** The query of [RecentTx]. *)
Record TxQuery := mkTxQuery { tx_limit : string; tx_usid : string; tx_alias : string; tx_errn : string; tx_bulk : string }.
Definition query_keeps (q : TxQuery) (e : TxEntry) : bool :=
  let fUsid := ToLower (TrimSpace (tx_usid q)) in
  let fAlias := ToLower (TrimSpace (tx_alias q)) in
  negb (negb (bool_decide (fUsid = "")) && negb (Contains (ToLower (te_Usid e)) fUsid)) &&
  negb (negb (bool_decide (fAlias = "")) && negb (Contains (ToLower (te_Alias e)) fAlias)) &&
  negb (bool_decide (tx_errn q = "1") && (te_BrokerErrn e =? 0) && (te_HTTPStatus e <? 400)) &&
  negb (bool_decide (tx_bulk q = "1") && negb (te_IsBulk e)) &&
  negb (bool_decide (tx_bulk q = "0") && te_IsBulk e).
(** [None]: the ring is off, status 503. *)
Definition RecentTx (r : option TxRing) (q : TxQuery) : option (list TxEntry * Z * Z) :=
  match r with
  | None => None
  | Some _ =>
      let limit := (Atoi (tx_limit q)).1 in
      Some (List.filter (query_keeps q) (Snapshot r limit), Size r, Cap r)
  end.

(** * Statistics per alias and tier *)
Notation aliasTierKey := (string * string)%type.
Record aliasStat := mkStat { calls : Z; errors : Z; sumNs : Z; maxNs : Z; lastUnix : Z }.
Notation AliasMetrics := (gmap aliasTierKey aliasStat).
Definition metric_key (alias tier : string) : aliasTierKey :=
  (if decide (alias = "") then "__raw__" else alias, if decide (tier = "") then "__notier__" else tier).
Definition stat_record (st : aliasStat) (latency : Z) (isError : bool) (unix : Z) : aliasStat :=
  let ns := wrap 64 latency in
  mkStat (wrap 64 (calls st + 1)) (if isError then wrap 64 (errors st + 1) else errors st) (wrap 64 (sumNs st + ns))
    (if ns <=? maxNs st then maxNs st else ns) unix.
Record call := mkCall { c_alias : string; c_tier : string; c_latency : Z; c_err : bool; c_unix : Z }.
Definition RecordCall (m : option AliasMetrics) (c : call) : option AliasMetrics :=
  option_map (fun m =>
    let key := metric_key (c_alias c) (c_tier c) in
    <[key := stat_record (default (mkStat 0 0 0 0 0) (m !! key)) (c_latency c) (c_err c) (c_unix c)]> m) m.

Record AliasStatSnapshot := mkSnap {
  as_Alias : string; as_Tier : string; as_Calls : Z; as_Errors : Z; as_AvgLatencyMs : f64; as_MaxLatencyMs : f64; as_ErrorRatePct : f64;
  as_LastCallUnix : Z }.
Definition f_1e6 : f64 := lit 1000000.
Definition f_100 : f64 := lit 100.
Definition snap_of (kv : aliasTierKey * aliasStat) : AliasStatSnapshot :=
  let st := kv.2 in
  mkSnap kv.1.1 kv.1.2 (calls st) (errors st)
    (if 0 <? calls st then fdiv (fdiv (f_of_Z (sumNs st)) (f_of_Z (calls st))) f_1e6 else f0)
    (fdiv (f_of_Z (maxNs st)) f_1e6)
    (if 0 <? calls st then fmul (fdiv (f_of_Z (errors st)) (f_of_Z (calls st))) f_100 else f0)
    (lastUnix st).
(** The inner loop swaps unless it breaks: more calls first, then alias, then tier. *)
Definition snap_after (a b : AliasStatSnapshot) : bool :=
  if as_Calls b <? as_Calls a then false
  else if (as_Calls a =? as_Calls b) &&
          (String.ltb (as_Alias a) (as_Alias b) ||
           bool_decide (as_Alias a = as_Alias b) && negb (String.ltb (as_Tier b) (as_Tier a)))
       then false else true.
(** [order]: the order in which the map is iterated. *)
Definition MetricsSnapshot (order : list (aliasTierKey * aliasStat) -> list (aliasTierKey * aliasStat)) (m : option AliasMetrics)
  : list AliasStatSnapshot :=
  match m with None => [] | Some m => insertion_sort snap_after (map snap_of (order (map_to_list m))) end.

(** * Laws *)
(** The cells of the ring that are in use hold the end of the log. *)
Definition ring_holds (r : TxRing) (log : list TxEntry) : Prop :=
  0 < zlen (tr_entries r) /\ tr_idx r = zlen log mod zlen (tr_entries r) /\ tr_full r = (zlen (tr_entries r) <=? zlen log) /\
  forall n, zlen log - zlen (tr_entries r) <= Z.of_nat n -> (n < length log)%nat ->
    tr_entries r !! Z.to_nat (Z.of_nat n mod zlen (tr_entries r)) = log !! n.

Lemma NewTxRing_holds c : ring_holds (NewTxRing c) [].
Proof.
  unfold ring_holds, NewTxRing. cbv zeta. simpl. rewrite length_replicate. case_if.
  - repeat split; try done. intros n _ ?. lia.
  - apply Z.leb_gt in E. rewrite Z2Nat.id by lia. split; [lia|]. rewrite Zmod_0_l. split; [done|]. split; [by rewrite (proj2 (Z.leb_gt _ _)) by lia|].
    intros n _ ?. lia.
Qed.

Lemma mod_window a b c : 0 < c -> a < b < a + c -> a mod c <> b mod c.
Proof.
  intros Hc Hab E. assert ((b - a) mod c = 0) as E0 by (rewrite Zminus_mod, E, Z.sub_diag; apply Zmod_0_l).
  rewrite Z.mod_small in E0; lia.
Qed.

Lemma ring_append_holds r log e : ring_holds r log -> ring_holds (ring_append r e) (log ++ [e]).
Proof.
  intros (Hc & Hi & Hf & Hl). unfold ring_holds, ring_append. cbv zeta. simpl. rewrite length_insert, length_app. simpl.
  set (c := zlen (tr_entries r)) in *. split; [done|].
  assert ((tr_idx r + 1) mod c = (Z.of_nat (length log + 1)) mod c) as Ei.
  { rewrite Hi, Zplus_mod_idemp_l. f_equal. lia. }
  split; [done|]. split.
  - rewrite Ei, Hf. destruct (Z.leb_spec c (zlen log)); simpl; [by rewrite (proj2 (Z.leb_le _ _)) by lia|].
    destruct (Z.eqb_spec (Z.of_nat (length log + 1) mod c) 0) as [E0|E0].
    + rewrite (proj2 (Z.leb_le _ _)); [done|]. destruct (Z.le_gt_cases c (Z.of_nat (length log + 1))); [lia|].
      rewrite Z.mod_small in E0 by lia. lia.
    + rewrite (proj2 (Z.leb_gt _ _)); [done|]. destruct (Z.le_gt_cases c (Z.of_nat (length log + 1))); [|lia].
      replace (Z.of_nat (length log + 1)) with c in E0 by lia. rewrite Z_mod_same_full in E0. done.
  - intros n Hn Hlt. destruct (decide (n = length log)) as [->|Hne].
    + rewrite <-Hi, list_lookup_insert_eq; [|pose proof (Z.mod_pos_bound (zlen log) c Hc); lia]. symmetry. by apply list_lookup_middle.
    + rewrite lookup_app_l by lia. rewrite list_lookup_insert_ne; [apply Hl; lia|]. rewrite Hi. intros E.
      apply (mod_window (Z.of_nat n) (zlen log) c); [done|lia|]. pose proof (Z.mod_pos_bound (zlen log) c Hc).
      pose proof (Z.mod_pos_bound (Z.of_nat n) c Hc). lia.
Qed.

Lemma ring_holds_all c es : ring_holds (fold_left ring_append es (NewTxRing c)) es.
Proof.
  induction es as [|e es IH] using rev_ind; [apply NewTxRing_holds|]. rewrite fold_left_app. by apply ring_append_holds.
Qed.
Lemma ring_append_cap r e : zlen (tr_entries (ring_append r e)) = zlen (tr_entries r).
Proof. unfold ring_append. simpl. by rewrite length_insert. Qed.

Lemma ring_size_holds r log : ring_holds r log -> ring_size r = Z.min (zlen (tr_entries r)) (zlen log).
Proof.
  intros (Hc & Hi & Hf & _). unfold ring_size. rewrite Hf. destruct (Z.leb_spec (zlen (tr_entries r)) (zlen log)); [lia|].
  rewrite Hi, Z.mod_small; lia.
Qed.

Lemma snapshot_pos_holds r log i :
  ring_holds r log -> (Z.of_nat i < ring_size r)%Z ->
  snapshot_pos r i = (Z.of_nat (length log - 1 - i)) mod zlen (tr_entries r).
Proof.
  intros Hr Hs. rewrite (ring_size_holds _ _ Hr) in Hs. destruct Hr as (Hc & Hi & _). unfold snapshot_pos.
  set (c := zlen (tr_entries r)) in *. pose proof (Z.mod_pos_bound (zlen log) c Hc).
  rewrite Z.rem_mod_nonneg by lia. rewrite Hi.
  replace (zlen log mod c - 1 - Z.of_nat i + c) with (zlen log mod c + (c - 1 - Z.of_nat i)) by lia. rewrite Zplus_mod_idemp_l.
  replace (zlen log + (c - 1 - Z.of_nat i)) with (Z.of_nat (length log - 1 - i) + 1 * c) by lia. by rewrite Z_mod_plus_full.
Qed.

Lemma snapshot_newest r log limit :
  ring_holds r log -> 0 <= limit ->
  Snapshot (Some r) limit =
  take (Z.to_nat (if (limit =? 0) || (ring_size r <? limit) then ring_size r else limit)) (reverse log).
Proof.
  intros Hr Hl. pose proof (ring_size_holds _ _ Hr) as Es. unfold Snapshot. rewrite (proj2 (Z.ltb_ge _ _)) by done. cbv zeta.
  set (n := Z.to_nat (if _ : bool then _ else _)).
  assert (n <= Z.to_nat (ring_size r))%nat as Hn.
  { unfold n. destruct (Z.eqb_spec limit 0), (Z.ltb_spec (ring_size r) limit); simpl; lia. }
  apply list_eq. intros i. rewrite list_lookup_fmap. destruct (decide (i < n)%nat) as [Hi|Hi].
  2: { rewrite (lookup_ge_None_2 (seq 0 n)) by (rewrite length_seq; lia). simpl. symmetry. apply lookup_ge_None_2.
       rewrite length_take. lia. }
  rewrite (lookup_seq_lt 0 n i Hi). simpl. rewrite lookup_take_lt by done.
  pose proof Hr as (Hc & _ & _ & Hlog). rewrite (snapshot_pos_holds r log) by (done || lia).
  assert (i < length log)%nat as Hil by lia. rewrite reverse_lookup by done.
  replace (length log - S i)%nat with (length log - 1 - i)%nat by lia. rewrite <-Hlog by lia.
  destruct (nth_lookup_or_length (tr_entries r) (Z.to_nat (Z.of_nat (length log - 1 - i) mod zlen (tr_entries r))) zero_entry) as [E|E]; [done|].
  pose proof (Z.mod_pos_bound (Z.of_nat (length log - 1 - i)) (zlen (tr_entries r)) Hc). lia.
Qed.

Lemma NewTxRing_cap c es :
  zlen (tr_entries (fold_left ring_append es (NewTxRing c))) = if c <=? 0 then 1000 else c.
Proof.
  induction es as [|e es IH] using rev_ind; [|by rewrite fold_left_app; cbn [fold_left]; rewrite ring_append_cap].
  simpl. unfold NewTxRing. cbv zeta. simpl. rewrite length_replicate. case_if; lia.
Qed.

(** Refinement. The ring of recent transactions is the end of the list of all
    transactions: after any entries were appended to a ring of any capacity (1000 when
    none was asked for), a snapshot is the newest of them, newest first, as many as were
    asked for, the whole ring holds or were ever appended, whichever is least (0 asks
    for all); the reported size is the number held. *)
Theorem recent_tx_refines c es limit :
  0 <= limit ->
  let cap := if c <=? 0 then 1000 else c in
  let r := fold_left Append es (Some (NewTxRing c)) in
  let held := Z.min cap (zlen es) in
  Snapshot r limit = take (Z.to_nat (if limit =? 0 then held else Z.min limit held)) (reverse es) /\ Size r = held /\ Cap r = cap.
Proof.
  intros Hl. cbv zeta.
  assert (fold_left Append es (Some (NewTxRing c)) = Some (fold_left ring_append es (NewTxRing c))) as ->.
  { generalize (NewTxRing c). induction es as [|e es IH]; intros r; [done|]. simpl. by rewrite IH. }
  pose proof (ring_holds_all c es) as Hr. rewrite (snapshot_newest _ _ _ Hr Hl). unfold Size, Cap.
  rewrite (ring_size_holds _ _ Hr), NewTxRing_cap. split; [|done]. do 2 f_equal.
  destruct (Z.eqb_spec limit 0); simpl; [done|]. destruct (Z.ltb_spec (Z.min (if c <=? 0 then 1000 else c) (zlen es)) limit); lia.
Qed.

Definition entry_of (usid : string) : TxEntry := mkTxEntry (mkTime 0 0) usid "" "" "" "" "" 200 0 f0 "" "" false.
Lemma recent_tx_refines_witness :
  (Snapshot (fold_left Append (map entry_of ["a"; "b"; "c"; "d"]) (Some (NewTxRing 3))) 2 = map entry_of ["d"; "c"] /\
   Size (fold_left Append (map entry_of ["a"; "b"; "c"; "d"]) (Some (NewTxRing 3))) = 3).
Proof.
  destruct (recent_tx_refines 3 (map entry_of ["a"; "b"; "c"; "d"]) 2 ltac:(lia)) as (H1 & H2 & _). split; [exact H1|exact H2].
Defined.

(** ** The statistics *)
Definition stats_of (cs : list call) : option AliasMetrics := fold_left RecordCall cs (Some ∅).
Definition of_key (key : aliasTierKey) (cs : list call) : list call := filter (fun c => metric_key (c_alias c) (c_tier c) = key) cs.
Definition max_of (cs : list call) : Z := foldr Z.max 0 (map (fun c => wrap 64 (c_latency c)) cs).
Definition stat_of (cs : list call) : aliasStat :=
  mkStat (wrap 64 (zlen cs)) (wrap 64 (zlen (filter (fun c => c_err c = true) cs)))
    (wrap 64 (foldr (fun c n => c_latency c + n) 0 cs)) (max_of cs) (match last cs with Some c => c_unix c | None => 0 end).

Lemma wrap_add_l w a b : wrap w (wrap w a + b) = wrap w (a + b).
Proof. apply Zplus_mod_idemp_l. Qed.
Lemma wrap_add_r w a b : wrap w (a + wrap w b) = wrap w (a + b).
Proof. apply Zplus_mod_idemp_r. Qed.

Lemma stat_record_snoc cs c : stat_record (stat_of cs) (c_latency c) (c_err c) (c_unix c) = stat_of (cs ++ [c]).
Proof.
  unfold stat_record, stat_of, max_of. cbv zeta. cbn [calls errors sumNs maxNs].
  rewrite last_snoc, filter_app, !length_app, map_app, !foldr_app. cbn [map foldr]. f_equal.
  - rewrite wrap_add_l. f_equal. simpl. lia.
  - set (n := length (filter _ cs)).
    replace (length (filter (fun c => c_err c = true) [c])) with (if c_err c then 1%nat else 0%nat) by (unfold filter; simpl; by destruct (c_err c)).
    destruct (c_err c); [rewrite wrap_add_l; f_equal; lia|f_equal; lia].
  - rewrite wrap_add_l, wrap_add_r. f_equal. rewrite Z.add_0_r. induction cs as [|d cs IH]; simpl; lia.
  - pose proof (wrap_is_uint 64 (c_latency c) ltac:(lia)) as [Hw _].
    rewrite Z.max_l by done. assert (forall l, foldr Z.max (wrap 64 (c_latency c)) l = Z.max (foldr Z.max 0 l) (wrap 64 (c_latency c))) as ->.
    { induction l as [|x l IH]; simpl; lia. }
    destruct (Z.leb_spec (wrap 64 (c_latency c)) (foldr Z.max 0 (map (fun c => wrap 64 (c_latency c)) cs))); lia.
Qed.

Lemma of_key_snoc key cs c :
  of_key key (cs ++ [c]) = if decide (metric_key (c_alias c) (c_tier c) = key) then of_key key cs ++ [c] else of_key key cs.
Proof. unfold of_key. rewrite filter_app. unfold filter at 2. simpl. destruct (decide _); [done|by rewrite app_nil_r]. Qed.

(** The statistics of a key are the number, failures, total and greatest latency of
    the calls recorded under it; keys without a call are not listed. *)
Lemma stats_count cs : exists m, stats_of cs = Some m /\
  forall key, m !! key = if decide (of_key key cs = []) then None else Some (stat_of (of_key key cs)).
Proof.
  induction cs as [|c cs IH] using rev_ind; [by exists ∅|].
  destruct IH as (m & Em & Hm). unfold stats_of in *. rewrite fold_left_app, Em. cbn [fold_left RecordCall option_map].
  eexists; split; [done|]. intros key. rewrite of_key_snoc. destruct (decide (_ = key)) as [<-|Hne].
  - rewrite lookup_insert_eq, decide_False by (by destruct (of_key _ cs)). f_equal. rewrite <-stat_record_snoc. f_equal.
    rewrite Hm. destruct (decide _) as [->|]; [|done]. done.
  - by rewrite lookup_insert_ne.
Qed.

Definition snap_le (a b : AliasStatSnapshot) : Prop :=
  as_Calls b < as_Calls a \/
  as_Calls a = as_Calls b /\
    (as_Alias a <> as_Alias b /\ String.le (as_Alias a) (as_Alias b) \/ as_Alias a = as_Alias b /\ String.le (as_Tier a) (as_Tier b)).
Lemma snap_le_trans a b c : snap_le a b -> snap_le b c -> snap_le a c.
Proof.
  intros [H1|[E1 [[N1 L1]|[A1 T1]]]] [H2|[E2 [[N2 L2]|[A2 T2]]]]; unfold snap_le; try (left; lia); right; (split; [lia|]).
  - left. assert (String.le (as_Alias a) (as_Alias c)) as L by (by transitivity (as_Alias b)). split; [|done]. intros E. apply N1.
    apply (anti_symm String.le); [done|]. by rewrite E.
  - rewrite <-A2. by left.
  - rewrite A1. by left.
  - right. split; [congruence|]. by transitivity (as_Tier b).
Qed.
Lemma snap_after_false a b : snap_after a b = false -> snap_le a b.
Proof.
  unfold snap_after, snap_le. destruct (Z.ltb_spec (as_Calls b) (as_Calls a)); [by left|].
  destruct (Z.eqb_spec (as_Calls a) (as_Calls b)); [|done]. simpl. destruct (String.ltb (as_Alias a) (as_Alias b)) eqn:El; simpl.
  - intros _. right. split; [done|]. destruct (decide (as_Alias a = as_Alias b)) as [E|]; [|left; split; [done|by apply ltb_true_le]].
    rewrite E in El. unfold String.ltb in El. pose proof (String.compare_antisym (as_Alias b) (as_Alias b)) as Ea.
    by destruct (String.compare (as_Alias b) (as_Alias b)).
  - case_bool_decide; [|done]. simpl. destruct (String.ltb (as_Tier b) (as_Tier a)) eqn:Et; [done|]. intros _. right.
    split; [done|]. right. split; [done|]. by apply ltb_false_le.
Qed.
Lemma snap_after_true a b : snap_after a b = true -> snap_le b a.
Proof.
  unfold snap_after, snap_le. destruct (Z.ltb_spec (as_Calls b) (as_Calls a)); [done|].
  destruct (Z.eqb_spec (as_Calls a) (as_Calls b)); [|by left; lia]. simpl. destruct (String.ltb (as_Alias a) (as_Alias b)) eqn:El; [done|]. simpl.
  right. split; [done|]. case_bool_decide as Ea; simpl in *.
  - right. split; [done|]. destruct (String.ltb (as_Tier b) (as_Tier a)) eqn:Et; [by apply ltb_true_le|done].
  - left. split; [congruence|]. by apply ltb_false_le.
Qed.

(** The report is sorted, busiest first, and does not depend on the order in which the
    map is iterated. *)
Lemma MetricsSnapshot_deterministic o1 o2 m :
  (forall l, o1 l ≡ₚ l) -> (forall l, o2 l ≡ₚ l) ->
  MetricsSnapshot o1 m = MetricsSnapshot o2 m /\ StronglySorted snap_le (MetricsSnapshot o1 m).
Proof.
  intros P1 P2. destruct m as [m|]; [|split; [done|constructor]]. unfold MetricsSnapshot.
  pose proof (insertion_sort_sorted snap_after snap_le snap_le_trans snap_after_false snap_after_true) as S. split; [|apply S].
  apply (StronglySorted_unique_strong snap_le); [|apply S..|].
  - intros a b Ha Hb L1 L2. rewrite !insertion_sort_perm, P1 in Ha. rewrite insertion_sort_perm, P2 in Hb.
    apply list_elem_of_fmap in Ha as ([[a1 a2] sa] & -> & Ha%elem_of_map_to_list).
    apply list_elem_of_fmap in Hb as ([[b1 b2] sb] & -> & Hb%elem_of_map_to_list).
    destruct L1 as [?|[? [[N L1]|[A1 T1]]]], L2 as [?|[? [[N' L2]|[A2 T2]]]]; cbn [as_Alias as_Tier as_Calls snap_of fst snd] in *; try lia; try congruence.
    + exfalso. apply N. by apply (anti_symm String.le).
    + subst b1. assert (a2 = b2) as -> by (by apply (anti_symm String.le)). by replace sa with sb by congruence.
  - by rewrite !insertion_sort_perm, P1, P2.
Qed.
