(* ===== verification/Tx.v ===== *)
(** The transaction endpoint (src/internal/api/handlers/transaction.go, bulk.go,
    wire.go, idempotency.go, tx_ring.go, src/internal/api/transform/envelope.go): how
    a request passes the duplicate filter, the operational policy, alias resolution
    and the service layouts to the broker, and how the answer comes back.

    A request is handled in two steps, before and after the broker's answer; the
    steps of different requests interleave on the idempotency store. JSON, the body
    hash, the broker's answers and the text codecs of the layouts are parameters. *)

From Stdlib Require Import ZArith QArith Lia Ascii.
From S2P Require Import Prelude Codec Frame Handshake GoStrings Strconv GoTime Float64 Dates Best Policy Routing SvcIO Idempotency Client TxAudit.
Local Open Scope Z_scope.
Local Open Scope wtg_scope.

(** * Envelopes *)
Record Envelope := mkEnv {
  en_Alias : string; en_Exchange : string; en_RoutingKey : string; en_Keyc : string; en_Pkey : string; en_Nkey : string;
  en_Data : list byte; en_Header : object; en_Errn : Z; en_Errm : string }.
(** Raw mode: the target is in the headers, the message is the body. *)
Definition raw_envelope (alias exchange rkey : string) : Envelope := mkEnv alias exchange rkey "" "" "" [] [] 0 "".
Inductive EnvErr := EAliasOrKey | EAliasTooLong | ERkeyTooLong | EXchgTooLong | EPageTooLong.
Definition ValidateRequest (e : Envelope) : option EnvErr :=
  if bool_decide (en_Alias e = "") && bool_decide (en_RoutingKey e = "") then Some EAliasOrKey
  else if (64 <? String.length (en_Alias e))%nat then Some EAliasTooLong
  else if bool_decide (en_Alias e = "") && (LRkey <? String.length (en_RoutingKey e))%nat then Some ERkeyTooLong
  else if bool_decide (en_Alias e = "") && (LXchg <? String.length (en_Exchange e))%nat then Some EXchgTooLong
  else if (LSkey <? String.length (en_Pkey e))%nat || (LSkey <? String.length (en_Nkey e))%nat then Some EPageTooLong
  else None.
Definition KeyPrev : Z := 80.
Definition KeyNext : Z := 78.
Definition keycValue (e : Envelope) : Z :=
  match en_Keyc e with
  | String c _ =>
      if Ascii.eqb c "P" || Ascii.eqb c "p" then KeyPrev
      else if Ascii.eqb c "N" || Ascii.eqb c "n" then KeyNext else KeySend
  | EmptyString => KeySend
  end.
Definition FCTran : Z := 10.
Definition SubTranMsg : Z := 0.
Definition DirForward : Z := 1.
Definition bytes (s : string) : list byte := String.list_byte_of_string s.

(** * Broker errors *)
(** [BErr]: an engine or broker code; [BContext]: the call's context ended. *)
Inductive broker_err := BErr (errn : Z) (msg : string) | BReconnecting | BClosed | BContext | BOther.
Definition ErrAuth : Z := 1020.
Definition ErrTimeout : Z := 1021.
Definition ErrSvcTimeout : Z := 1029.
Definition ErrNoSvc : Z := 1027.
Definition ErrTooBig : Z := 1013.
Definition ErrBadArg : Z := 1010.
Definition mapBrokerError (e : broker_err) : Z * string :=
  match e with
  | BErr n _ =>
      if n =? ErrAuth then (401, "auth")
      else if (n =? ErrTimeout) || (n =? ErrSvcTimeout) then (504, "timeout")
      else if n =? ErrNoSvc then (400, "no_service")
      else if n =? ErrTooBig then (413, "too_big")
      else if n =? ErrBadArg then (400, "bad_argument")
      else (422, "broker_error")
  | BReconnecting => (503, "reconnecting")
  | BClosed => (503, "broker_unavailable")
  | BContext | BOther => (500, "internal")
  end.
(** The fields of a reply. *)
Record BrokerReply := mkBrokerReply { br_Errn : Z; br_ErrMsg : string; br_Body : list byte }.
Definition AsError (r : BrokerReply) : option broker_err :=
  if (br_Errn r =? 0) && bool_decide (br_ErrMsg r = "") then None else Some (BErr (br_Errn r) (br_ErrMsg r)).

(** * Service layouts *)
Record SvcSpec := mkSpec { sp_HeaderFields : list Field; sp_Input : list Field; sp_Output : list Field }.
Definition ctypForChannel (channel : string) : string :=
  let c := ToUpper (GoStrings.TrimSpace channel) in
  if decide (c = "EMP") then "E" else if decide (c = "HTS") then "1" else if decide (c = "MTS") then "2"
  else if decide (c = "WTS") then "3" else if decide (c = "SPI") then "S" else "A".
Definition wireHeaderDefaults (rkey usid channel : string) : object :=
  [("trxc", VStr rkey); ("usid", VStr usid); ("ctyp", VStr (ctypForChannel channel)); ("cont", VStr "H"); ("rtyp", VStr "M"); ("ltyp", VStr "KR")].
(** The client's header over the defaults, but for the fields the server sets. *)
Definition overlay_one (enforce : bool) (hdr : object) (kv : string * value) : object :=
  if (bool_decide (kv.1 = "usid") && enforce) || bool_decide (kv.1 = "trxc") || bool_decide (kv.1 = "ctyp") then hdr
  else obj_set hdr kv.1 kv.2.
Definition wire_header (rkey enforceUsid channel : string) (client : object) : object :=
  let usid := if bool_decide (enforceUsid = "") then match obj_get client "usid" with Some (VStr s) => s | _ => "" end else enforceUsid in
  fold_left (overlay_one (negb (bool_decide (enforceUsid = "")))) client (wireHeaderDefaults rkey usid channel).
Definition is_array (f : Field) : bool := negb (Repeat f =? 0) && has_children f.
Fixpoint obj_del (m : object) (k : string) : object :=
  match m with [] => [] | (k', v) :: m => if decide (k' = k) then obj_del m k else (k', v) :: obj_del m k end.
(** The rows under ["_irec"] go to the first array of the layout. *)
Definition place_irec (spec : SvcSpec) (obj : object) : object :=
  match obj_get obj "_irec" with
  | None => obj
  | Some irec =>
      let obj := match find is_array (sp_Input spec) with
                 | Some f => match obj_get obj (Name f) with Some _ => obj | None => obj_set obj (Name f) irec end
                 | None => obj
                 end in
      obj_del obj "_irec"
  end.

(** The code of other packages the endpoint calls: [fmt]'s quoting, [encoding/json] on
    the symbol probe, a text, an object, a reply; the text codecs of the layouts; the
    body hash; the bytes of a written response. *)
Class Codecs := {
  fmt_q : string -> string;
  json_symbol : list byte -> string;
  json_text : list byte -> option (list byte);
  json_object : list byte -> option object;
  json_Valid : list byte -> bool;
  json_string : list byte -> list byte;
  json_marshal : object -> option (list byte);
  wire_chars : string -> list (list byte);
  utf8_Valid : list byte -> bool;
  euckr_decode : list byte -> option string;
  FormatFloat : f64 -> string;
  Sprint : value -> string;
  sha256 : list byte -> Hash }.

Section tx.
Context {R : Type} `{Registry R}.
Context `{Codecs}.

(** A JSON text is sent as its contents, anything else as it is. *)
Definition DataBytes (data : list byte) : list byte :=
  if bool_decide (data = []) then [] else match json_text data with Some s => s | None => data end.
Inductive BuildErr := EInvalid (e : EnvErr) | EUnknownAlias.
Definition BuildFrame (e : Envelope) (trace : list byte) (reg : option R) : res BuildErr FrameInput :=
  match ValidateRequest e with
  | Some x => Err (EInvalid x)
  | None =>
      '(xchg, rkey) ← (if bool_decide (en_Alias e = "") then Ok (en_Exchange e, en_RoutingKey e)
                       else match Resolve reg (en_Alias e) with
                            | Ok rule => Ok (Routing.Exchange rule, Routing.RoutingKey rule)
                            | Err _ => Err EUnknownAlias
                            | Panic => Panic
                            end);
      Ok (mkFrameInput FCTran SubTranMsg DirForward (keycValue e) 0 0 (bytes xchg) (bytes rkey) 0 0 (replicate 8 x00) (replicate 4 x00)
            (TraceIDFromHex trace) [] 0 [] (bytes (en_Pkey e)) (bytes (en_Nkey e)) None (DataBytes (en_Data e)))
  end.
Definition FromReply (r : BrokerReply) : Envelope :=
  mkEnv "" "" "" "" "" ""
    (if bool_decide (br_Body r = []) then [] else if json_Valid (br_Body r) then br_Body r else json_string (br_Body r))
    [] (br_Errn r) (br_ErrMsg r).

(** [None]: the body stays as it is. *)
Definition wireBuildBody (specs : option (gmap string SvcSpec)) (rkey usid channel : string) (hdr : object) (data : list byte)
  : option (list byte * SvcSpec) :=
  if bool_decide (rkey = "") || bool_decide (data = []) then None
  else
    specs ← specs;
    obj ← json_object data;
    spec ← specs !! rkey;
    Some (SerializeWithHeader wire_chars FormatFloat Sprint (sp_HeaderFields spec) (wire_header rkey usid channel hdr) (sp_Input spec) (place_irec spec obj), spec).
Definition wireParseReply (spec : SvcSpec) (body : list byte) : res unit (option object * object) :=
  DeserializeWithHeader utf8_Valid euckr_decode (sp_HeaderFields spec) (sp_Output spec) body.

(** * One request *)
Record Deps := mkDeps { dp_routes : option R; dp_policy : option Engine; dp_specs : option (gmap string SvcSpec); dp_idem : bool }.
(** [tq_env]: the JSON body, if it is an envelope; in raw mode the envelope of the
    headers. [tq_key]: the idempotency header. *)
Record TxRequest := mkTx {
  tq_usid : string; tq_channel : string; tq_cookie : option Cookie; tq_raw : bool; tq_env : option Envelope; tq_body : list byte;
  tq_key : string; tq_trace : list byte }.
Inductive Response :=
| RError (status : Z) (code : string) (errn : Z)
| REnvelope (status : Z) (e : Envelope)
| RRaw (errn : Z) (body : list byte)
| RCached (r : CachedReply)
| RPanic.
(** The status the client sees; [RPanic] is answered by the recovery middleware. *)
Definition status_of (r : Response) : Z :=
  match r with RError s _ _ => s | REnvelope s _ => s | RRaw _ _ => 200 | RCached c => StatusCode c | RPanic => 500 end.
(** The status the handler wrote: the capturing writer starts at 200. *)
Definition captured_status (r : Response) : Z := match r with RPanic => 200 | _ => status_of r end.

Inductive plan := Answer (r : Response) | ToBroker (f : FrameInput) (spec : option SvcSpec).
Definition set_body (f : FrameInput) (c : option Cookie) (b : list byte) : FrameInput :=
  mkFrameInput (fi_func f) (fi_subc f) (fi_dirf f) (fi_keyc f) (fi_msgf f) (fi_ctlf f) (fi_xchg f) (fi_rkey f) (fi_ckey f) (fi_clid f)
    (fi_wkey f) (fi_chan f) (fi_traceID f) (fi_navis f) (fi_errn f) (fi_errMsg f) (fi_pkey f) (fi_nkey f) c b.
Definition policy_blocks (d : Deps) (now : Time) (q : TxRequest) (e : Envelope) : option Response :=
  match dp_policy d with
  | None => None
  | Some eng =>
      let dec := Check fmt_q eng now
        (Policy.mkRequest (tq_usid q) (tq_channel q) (en_Alias e) (en_Exchange e) (en_RoutingKey e) (json_symbol (en_Data e))) in
      if Allowed dec then None
      else Some (RError (if decide (Reason dec = ReasonKillSwitch \/ Reason dec = ReasonMaintenance) then 503 else 403) (Reason dec) 0)
  end.
(** From the policy to the broker's frame. *)
Definition plan_tx (d : Deps) (now : Time) (q : TxRequest) (e : Envelope) : plan :=
  match policy_blocks d now q e with
  | Some r => Answer r
  | None =>
      match BuildFrame e (tq_trace q) (dp_routes d) with
      | Err EUnknownAlias => Answer (RError 404 "unknown_alias" 0)
      | Err (EInvalid _) => Answer (RError 400 "build_frame" 0)
      | Panic => Answer RPanic
      | Ok f =>
          if tq_raw q then ToBroker (set_body f (tq_cookie q) (tq_body q)) None
          else
            let rkey := String.string_of_list_byte (fi_rkey f) in
            match wireBuildBody (dp_specs d) rkey (tq_usid q) (tq_channel q) (en_Header e) (en_Data e) with
            | Some (b, spec) => ToBroker (set_body f (tq_cookie q) b) (Some spec)
            | None => ToBroker (set_body f (tq_cookie q) (fi_body f)) None
            end
      end
  end.
(** From the broker's answer to the response. *)
Definition respond (raw : bool) (spec : option SvcSpec) (answer : res broker_err BrokerReply) : Response :=
  match answer with
  | Ok r =>
      if raw then
        match AsError r with
        | Some err => if bool_decide (br_Body r = []) then RError (mapBrokerError err).1 "" (br_Errn r) else RRaw (br_Errn r) (br_Body r)
        | None => RRaw (br_Errn r) (br_Body r)
        end
      else
        match AsError r with
        | Some err => REnvelope (mapBrokerError err).1 (FromReply r)
        | None =>
            match spec with
            | None => REnvelope 200 (FromReply r)
            | Some spec =>
                match wireParseReply spec (br_Body r) with
                | Ok (hdr, out) =>
                    let e := FromReply r in
                    REnvelope 200 (mkEnv "" "" "" "" "" "" (match json_marshal out with Some b => b | None => en_Data e end)
                                     (default [] hdr) (en_Errn e) (en_Errm e))
                | Err _ => REnvelope 200 (FromReply r)
                | Panic => RPanic
                end
            end
        end
  | Err err => RError (mapBrokerError err).1 (mapBrokerError err).2 (match err with BErr n _ => n | _ => 0 end)
  | Panic => RPanic
  end.

(** * The duplicate filter *)
(** [render]: the bytes of the body a response writes. *)
Context (render : Response -> list byte).
Inductive reserved := Handled (r : Response) | Proceed (key : option string).
Definition reserveIdempotency (d : Deps) (now : Z) (s : MemoryStore) (q : TxRequest) : MemoryStore * reserved :=
  if negb (dp_idem d) || bool_decide (tq_key q = "") then (s, Proceed None)
  else
    let k := MakeKey (tq_usid q) (tq_key q) in
    match Reserve s now k (sha256 (tq_body q)) with
    | (s, (StatusCached, Some c)) => (s, Handled (RCached c))
    | (s, (StatusConflict, _)) => (s, Handled (RError 409 "idempotency_conflict" 0))
    | (s, (StatusInFlight, _)) => (s, Handled (RError 409 "idempotency_in_flight" 0))
    | (s, _) => (s, Proceed (Some k))
    end.
(** What the deferred function does with the response. *)
Definition settle (now : Z) (s : MemoryStore) (key : option string) (r : Response) : MemoryStore :=
  match key with
  | None => s
  | Some k => if 500 <=? captured_status r then Rollback s k
              else Commit s now k (mkReply (captured_status r) (match r with RPanic => [] | _ => render r end))
  end.

(** A request: answered, or working for its key. *)
Inductive phase := Replied (r : Response) | Working (key : option string) (raw : bool) (p : plan).
Definition tx_arrive (d : Deps) (now : Time) (s : MemoryStore) (q : TxRequest) : MemoryStore * phase :=
  if bool_decide (tq_usid q = "") then (s, Replied (RError 401 "unauthorized" 0))
  else match tq_env q with
       | None => (s, Replied (RError 400 "bad_json" 0))
       | Some e =>
           match ValidateRequest e with
           | Some _ => (s, Replied (RError 400 "validation" 0))
           | None =>
               match reserveIdempotency d (t_ns now) s q with
               | (s, Handled r) => (s, Replied r)
               | (s, Proceed key) => (s, Working key (tq_raw q) (plan_tx d now q e))
               end
           end
       end.
Definition tx_finish (now : Z) (s : MemoryStore) (key : option string) (raw : bool) (p : plan) (answer : res broker_err BrokerReply)
  : MemoryStore * Response :=
  let r := match p with Answer r => r | ToBroker _ spec => respond raw spec answer end in
  (settle now s key r, r).

(** * What a request records *)
(** The argument of [recordAlias], and the status and error number of [recordTx], on the
    paths that call them. A request answered before the broker is called is counted but
    not entered in the ring; one refused for its form is not counted either. *)
Record recorded := mkRec { rec_alias : option bool; rec_tx : option (Z * Z) }.
Definition arrive_records (ph : phase) : recorded :=
  match ph with
  | Replied (RCached c) => mkRec (Some (400 <=? StatusCode c)) None
  | Replied (RError 409 _ _) => mkRec (Some true) None
  | Working _ _ (Answer RPanic) => mkRec None None
  | Working _ _ (Answer _) => mkRec (Some true) None
  | _ => mkRec None None
  end.
Definition answer_records (raw : bool) (answer : res broker_err BrokerReply) : recorded :=
  match answer with
  | Ok r =>
      match AsError r with
      | Some err =>
          if raw && negb (bool_decide (br_Body r = [])) then mkRec (Some (negb (br_Errn r =? 0))) (Some (200, br_Errn r))
          else mkRec (Some true) (Some ((mapBrokerError err).1, br_Errn r))
      | None => mkRec (Some (raw && negb (br_Errn r =? 0))) (Some (200, if raw then br_Errn r else 0))
      end
  | Err err => mkRec (Some true) (Some ((mapBrokerError err).1, 0))
  | Panic => mkRec None None
  end.
(** [callStart], [ts]: when the call began and when it is recorded. *)
Definition tx_entry (q : TxRequest) (e : Envelope) (tier rid : string) (callStart ts : Time) (status errn : Z) (bulk : bool) : TxEntry :=
  mkTxEntry ts (tq_usid q) (tq_channel q) tier (en_Alias e) (en_Exchange e) (en_RoutingKey e) status errn
    (fdiv (f_of_Z (t_ns ts - t_ns callStart)) f_1e6) rid (String.string_of_list_byte (tq_trace q)) bulk.

(** * Bulk requests *)
Record BulkItemResult := mkItem { bi_Status : Z; bi_Envelope : option Envelope; bi_Error : string }.
Definition bulkMaxItems : nat := 100.
Inductive BulkErr := EmptyItems | TooManyItems.
Definition bulk_check (items : list Envelope) : option BulkErr :=
  if (length items =? 0)%nat then Some EmptyItems else if (bulkMaxItems <? length items)%nat then Some TooManyItems else None.
Definition item_plan (d : Deps) (now : Time) (q : TxRequest) (e : Envelope) : res BulkItemResult FrameInput :=
  match ValidateRequest e with
  | Some _ => Err (mkItem 400 None "validation")
  | None =>
      match policy_blocks d now q e with
      | Some r => Err (mkItem (status_of r) None (match r with RError _ c _ => c | _ => "" end))
      | None =>
          match BuildFrame e (tq_trace q) (dp_routes d) with
          | Err EUnknownAlias => Err (mkItem 404 None "unknown_alias")
          | Err (EInvalid _) => Err (mkItem 400 None "build_frame")
          | Panic => Panic
          | Ok f => Ok (set_body f (tq_cookie q) (fi_body f))
          end
      end
  end.
Definition item_answer (answer : res broker_err BrokerReply) : res unit BulkItemResult :=
  match answer with
  | Ok r =>
      match AsError r with
      | Some err => Ok (mkItem (mapBrokerError err).1 (Some (FromReply r)) "")
      | None => Ok (mkItem 200 (Some (FromReply r)) "")
      end
  | Err err => Ok (mkItem (mapBrokerError err).1 None (mapBrokerError err).2)
  | Panic => Panic
  end.
(** The broker answers each frame in turn. *)
Context {B : Type} (call : B -> FrameInput -> B * res broker_err BrokerReply).
Definition processBulkItem (d : Deps) (now : Time) (q : TxRequest) (b : B) (e : Envelope) : B * res unit BulkItemResult :=
  match item_plan d now q e with
  | Err r => (b, Ok r)
  | Panic => (b, Panic)
  | Ok f => let '(b, a) := call b f in (b, item_answer a)
  end.
Definition item_failed (r : BulkItemResult) : bool :=
  negb (bool_decide (bi_Error r = "")) || match bi_Envelope r with Some e => negb (en_Errn e =? 0) | None => false end.
Definition not_attempted : BulkItemResult := mkItem 0 None "not_attempted".
(** [clock i]: the time at which item [i] is checked. *)
Fixpoint bulk_loop (d : Deps) (clock : nat -> Time) (q : TxRequest) (stop : bool) (i : nat) (firstErr : bool) (b : B) (items : list Envelope)
  : B * res unit (list BulkItemResult) :=
  match items with
  | [] => (b, Ok [])
  | e :: items =>
      if firstErr && stop then
        let '(b, rs) := bulk_loop d clock q stop (S i) firstErr b items in (b, rs ← rs; Ok (not_attempted :: rs))
      else
        match processBulkItem d (clock i) q b e with
        | (b, Ok r) => let '(b, rs) := bulk_loop d clock q stop (S i) (firstErr || item_failed r) b items in (b, rs ← rs; Ok (r :: rs))
        | (b, _) => (b, Panic)
        end
  end.
End tx.

(** * Many requests *)
(** Requests arrive and finish in any order; [w_calls]: the idempotency keys of the
    calls the broker was given. *)
Section world.
Context {R : Type} `{Registry R}.
Context `{Codecs}.
Context (render : Response -> list byte).
Inductive tx_ev := TArrive (d : @Deps R) (now : Time) (q : TxRequest) | TFinish (i : nat) (now : Z) (answer : res broker_err BrokerReply).
Record tx_world := mkTxWorld { w_store : MemoryStore; w_reqs : list phase; w_calls : list (option string) }.
Definition calls_of (ph : phase) : list (option string) :=
  match ph with Working key _ (ToBroker _ _) => [key] | _ => [] end.
Definition tx_step (w : tx_world) (e : tx_ev) : tx_world :=
  match e with
  | TArrive d now q =>
      let '(s, ph) := tx_arrive d now (w_store w) q in
      mkTxWorld s (w_reqs w ++ [ph]) (w_calls w ++ calls_of ph)
  | TFinish i now answer =>
      match w_reqs w !! i with
      | Some (Working key raw p) =>
          let '(s, r) := tx_finish render now (w_store w) key raw p answer in
          mkTxWorld s (<[i := Replied r]> (w_reqs w)) (w_calls w)
      | _ => w
      end
  end.
Definition tx_run (s : MemoryStore) (es : list tx_ev) : tx_world := fold_left tx_step es (mkTxWorld s [] []).
End world.
