(* ===== verification/TxLaws.v ===== *)
(** Laws of the transaction endpoint (Tx): a request submitted twice under one key
    reaches the broker once; the fields of the common header the server sets cannot
    be forged; bulk requests; the record of recent transactions; defects found. *)

From Stdlib Require Import ZArith QArith Lia Ascii.
From S2P Require Import Prelude Codec Frame Handshake GoStrings Strconv GoTime Float64 Dates Best Policy Routing SvcIO SvcIOLaws Idempotency Client TxAudit Tx.
Local Open Scope Z_scope.
Local Open Scope wtg_scope.

(** * Duplicates *)
Section once.
Context {R : Type} `{Registry R}.
Context `{Codecs}.
Context (render : Response -> list byte).
#[local] Abbreviation step := (tx_step render).
#[local] Abbreviation run := (tx_run render).

(** The calls made under a key. *)
Definition calls_under (k : string) (w : tx_world) : nat := length (filter (fun x => x = Some k) (w_calls w)).
Definition works (k : string) (w : tx_world) (i : nat) : Prop := exists raw p, w_reqs w !! i = Some (Working (Some k) raw p).
Definition ev_in (t0 t1 : Z) (e : @tx_ev R) : Prop :=
  match e with TArrive _ now _ => t0 <= t_ns now <= t1 | TFinish _ now _ => t0 <= now <= t1 end.
Definition no_failure (w : tx_world) : Prop := forall i r, w_reqs w !! i = Some (Replied r) -> captured_status r < 500.

(** The key is unused, led by one request, or answered. *)
Inductive key_state (k : string) (deadline : Z) (w : tx_world) : Prop :=
| KUnused : entries (w_store w) !! k = None -> (forall i, ~ works k w i) -> calls_under k w = 0%nat -> key_state k deadline w
| KLed e i : entries (w_store w) !! k = Some e -> reply e = None -> deadline <= expires e -> works k w i ->
    (forall j, works k w j -> j = i) -> (calls_under k w <= 1)%nat -> key_state k deadline w
| KAnswered e r : entries (w_store w) !! k = Some e -> reply e = Some r -> deadline <= expires e ->
    (forall i, ~ works k w i) -> (calls_under k w <= 1)%nat -> key_state k deadline w.

Lemma Reserve_frame s now key h k : key <> k -> entries (Reserve s now key h).1 !! k = entries s !! k.
Proof.
  intros Hne. unfold Reserve. destruct (entries s !! key) as [e|] eqn:E; [|simpl; by rewrite lookup_insert_ne].
  case_if; [simpl; by rewrite lookup_insert_ne, lookup_delete_ne|]. case_if; [done|]. by destruct (reply e).
Qed.
Lemma settle_other now s key r k : key <> Some k -> entries (settle render now s key r) !! k = entries s !! k.
Proof.
  intros Hne. destruct key as [k'|]; [|done]. assert (k' <> k) by congruence. cbn [settle]. case_if.
  - unfold Rollback. destruct (entries s !! k') as [e|]; [|done]. destruct (reply e); [done|]. simpl. by rewrite lookup_delete_ne.
  - unfold Commit. destruct (entries s !! k'); simpl; by rewrite lookup_insert_ne.
Qed.
Lemma settle_ttl now s key r : ttl (settle render now s key r) = ttl s.
Proof.
  destruct key as [k'|]; [|done]. cbn [settle]. case_if; [|unfold Commit; by destruct (entries s !! k')].
  unfold Rollback. destruct (entries s !! k') as [e|]; [|done]. by destruct (reply e).
Qed.

Lemma Reserve_cases s now k h s1 st c :
  Reserve s now k h = (s1, (st, c)) -> (st <> StatusMiss -> s1 = s) /\ (st = StatusCached -> is_Some c).
Proof.
  unfold Reserve. cbv zeta. destruct (entries s !! k) as [e0|]; [|by intros [= <- <- <-]].
  destruct (expires e0 <? now); [by intros [= <- <- <-]|]. destruct (negb _); [by intros [= <- <- <-]|].
  destruct (reply e0); by intros [= <- <- <-].
Qed.

(** What an arrival does to the store and which request it starts. *)
Lemma arrive_cases d now s q s' ph :
  tx_arrive d now s q = (s', ph) ->
  ttl s' = ttl s /\
  (s' = s /\ (exists r, ph = Replied r) \/ s' = s /\ (exists raw p, ph = Working None raw p) \/
   exists k c, Reserve s (t_ns now) k (sha256 (tq_body q)) = (s', (StatusMiss, c)) /\ exists raw p, ph = Working (Some k) raw p).
Proof.
  unfold tx_arrive. case_bool_decide; [intros [= <- <-]; eauto 10|]. destruct (tq_env q) as [e|]; [|intros [= <- <-]; eauto 10].
  destruct (ValidateRequest e); [intros [= <- <-]; eauto 10|]. unfold reserveIdempotency.
  case_if; [intros [= <- <-]; eauto 10|].
  pose proof (Reserve_ttl s (t_ns now) (MakeKey (tq_usid q) (tq_key q)) (sha256 (tq_body q))) as Ht.
  destruct (Reserve s (t_ns now) _ _) as [s1 [st c]] eqn:Er. simpl in Ht.
  destruct (Reserve_cases _ _ _ _ _ _ _ Er) as [Hs Hc].
  destruct st; [|destruct c as [c|]; [|by destruct (Hc eq_refl)]|..]; intros [= <- <-]; split; try done.
  - right. right. eauto 10.
  - left. split; [by apply Hs|eauto].
  - left. split; [by apply Hs|eauto].
  - left. split; [by apply Hs|eauto].
Qed.

Lemma calls_under_app k s reqs calls more s' reqs' :
  calls_under k (mkTxWorld s' reqs' (calls ++ more)) = (calls_under k (mkTxWorld s reqs calls) + length (filter (fun x => x = Some k) more))%nat.
Proof. unfold calls_under. simpl. by rewrite filter_app, length_app. Qed.

Lemma works_snoc k s reqs calls ph s' calls' i :
  works k (mkTxWorld s' (reqs ++ [ph]) calls') i <->
  works k (mkTxWorld s reqs calls) i \/ (i = length reqs /\ exists raw p, ph = Working (Some k) raw p).
Proof.
  unfold works. simpl. split.
  - intros (raw & p & H'). rewrite lookup_snoc_Some in H'. destruct H' as [[? ?]|[? ?]]; eauto 10.
  - intros [(raw & p & H')|[-> (raw & p & ->)]]; exists raw, p; [|by rewrite lookup_snoc_Some; right].
    rewrite lookup_app_l; [done|]. by eapply lookup_lt_Some.
Qed.

(** An arrival that does not lead the key. *)
Lemma key_state_follow k dl s reqs calls s' ph :
  key_state k dl (mkTxWorld s reqs calls) -> entries s' !! k = entries s !! k ->
  (forall raw p, ph <> Working (Some k) raw p) -> key_state k dl (mkTxWorld s' (reqs ++ [ph]) (calls ++ calls_of ph)).
Proof.
  intros Hk Es Hph.
  assert (forall i, works k (mkTxWorld s' (reqs ++ [ph]) (calls ++ calls_of ph)) i <-> works k (mkTxWorld s reqs calls) i) as W.
  { intros i. rewrite (works_snoc k s reqs calls). split; [|by left]. intros [?|[_ (raw & p & ->)]]; [done|]. by destruct (Hph raw p). }
  assert (calls_under k (mkTxWorld s' (reqs ++ [ph]) (calls ++ calls_of ph)) = calls_under k (mkTxWorld s reqs calls)) as C.
  { rewrite (calls_under_app k s reqs). destruct ph as [r|[k'|] raw []]; simpl; try lia; unfold filter; simpl; try lia.
    destruct (decide (Some k' = Some k)) as [[= ->]|]; [by destruct (Hph raw (ToBroker f spec))|simpl; lia]. }
  destruct Hk as [E Hw Hc|e i E Hr Hd Wi Hu Hc|e r E Hr Hd Hw Hc]; simpl in *.
  - apply KUnused; simpl; [congruence|intros i ?%W; by eapply Hw|lia].
  - eapply (KLed _ _ _ e i); simpl; [congruence|done|done|by apply W|intros j ?%W; auto|lia].
  - eapply (KAnswered _ _ _ e r); simpl; [congruence|done|done|intros i ?%W; by eapply Hw|lia].
Qed.

Lemma key_state_arrive k t0 s reqs calls d now q :
  key_state k (t0 + ttl s) (mkTxWorld s reqs calls) -> t0 <= t_ns now <= t0 + ttl s ->
  key_state k (t0 + ttl s) (step (mkTxWorld s reqs calls) (TArrive d now q)) /\ ttl (w_store (step (mkTxWorld s reqs calls) (TArrive d now q))) = ttl s.
Proof.
  intros Hk Ht. cbn [tx_step w_store w_reqs w_calls].
  destruct (tx_arrive d now s q) as [s' ph] eqn:Ea. destruct (arrive_cases _ _ _ _ _ _ Ea) as [Httl C]. simpl. split; [|done].
  destruct C as [[-> (r & ->)]|[[-> (raw & p & ->)]|(k' & c & Er & raw & p & ->)]].
  - by eapply key_state_follow.
  - by eapply key_state_follow.
  - destruct (decide (k' = k)) as [->|Hne].
    2: { eapply key_state_follow; [done| |by intros ? ? [= ]]. by rewrite <-(Reserve_frame s (t_ns now) k' (sha256 (tq_body q)) k), Er. }
    assert (entries s !! k = None) as En.
    { destruct Hk as [|e i E Hr Hd|e r E Hr Hd]; [done|..]; simpl in *;
        rewrite (Reserve_live _ _ _ _ _ E) in Er by lia; rewrite Hr in Er; by destruct (negb _) in Er. }
    destruct (Reserve_miss _ _ _ _ _ _ Er) as [Es _].
    destruct Hk as [_ Hw Hc|e i E|e r E]; simpl in *; [|congruence..].
    eapply (KLed _ _ _ _ (length reqs)); simpl; [exact Es|done|simpl; lia| | |].
    + apply (works_snoc k s reqs calls). right. eauto.
    + intros j. rewrite (works_snoc k s reqs calls). intros [Hj|[-> _]]; [by destruct (Hw j)|done].
    + rewrite (calls_under_app k s reqs), Hc. destruct p; simpl; unfold filter; simpl; [lia|]. destruct (decide _); simpl; lia.
Qed.

Lemma works_replied k s reqs calls s' i r j :
  works k (mkTxWorld s' (<[i := Replied r]> reqs) calls) j <-> works k (mkTxWorld s reqs calls) j /\ (j <> i \/ (length reqs <= i)%nat).
Proof.
  unfold works. simpl. destruct (decide (j = i)) as [->|Hne].
  - destruct (decide (i < length reqs)%nat) as [Hl|Hl].
    + rewrite list_lookup_insert_eq by done. split; [by intros (? & ? & [=])|]. intros [_ [?|?]]; [done|lia].
    + rewrite list_insert_ge by lia. split; [|naive_solver]. intros (? & ? & Hx%lookup_lt_Some). lia.
  - rewrite list_lookup_insert_ne by done. naive_solver.
Qed.

Lemma key_state_finish k t0 s reqs calls i now answer :
  key_state k (t0 + ttl s) (mkTxWorld s reqs calls) -> t0 <= now <= t0 + ttl s ->
  no_failure (step (mkTxWorld s reqs calls) (TFinish i now answer)) ->
  key_state k (t0 + ttl s) (step (mkTxWorld s reqs calls) (TFinish i now answer)) /\
  ttl (w_store (step (mkTxWorld s reqs calls) (TFinish i now answer))) = ttl s.
Proof.
  intros Hk Ht Hnf. cbn [tx_step w_store w_reqs w_calls] in *. destruct (reqs !! i) as [[r|key raw p]|] eqn:Ei; [by simpl..| |by simpl].
  unfold tx_finish in *. set (r := match p with Answer r => r | ToBroker _ spec => _ end) in *. simpl in *. rewrite settle_ttl. split; [|done].
  assert (i < length reqs)%nat as Hi by (by eapply lookup_lt_Some).
  assert (captured_status r < 500) as Hr by (apply (Hnf i); simpl; by rewrite list_lookup_insert_eq).
  destruct (decide (key = Some k)) as [->|Hne].
  - assert (works k (mkTxWorld s reqs calls) i) as Wi by (unfold works; eauto).
    destruct Hk as [_ Hw _|e i' E Hre Hd _ Hu Hc|e c E _ _ Hw _]; [by destruct (Hw i)| |by destruct (Hw i)]. simpl in E.
    cbn [settle]. rewrite (proj2 (Z.leb_gt _ _)) by lia. unfold Commit. rewrite E.
    eapply KAnswered; simpl; [apply lookup_insert_eq|done|simpl; lia| |exact Hc].
    intros j. rewrite (works_replied k s). intros [Hj [?|?]]; [|lia]. apply Hu in Hj. apply Hu in Wi. congruence.
  - assert (forall j, works k (mkTxWorld (settle render now s key r) (<[i:=Replied r]> reqs) calls) j <-> works k (mkTxWorld s reqs calls) j) as W.
    { intros j. rewrite (works_replied k s). split; [by intros [? _]|]. intros Hj. split; [done|]. left. intros ->.
      destruct Hj as (? & ? & Hx). simpl in Hx. congruence. }
    destruct Hk as [E Hw Hc|e i' E Hre Hd Wi Hu Hc|e c E Hre Hd Hw Hc]; simpl in *.
    + apply KUnused; simpl; [by rewrite settle_other|intros j ?%W; by eapply Hw|exact Hc].
    + eapply (KLed _ _ _ e i'); simpl; [by rewrite settle_other|done|done|by apply W|intros j ?%W; auto|exact Hc].
    + eapply (KAnswered _ _ _ e c); simpl; [by rewrite settle_other|done|done|intros j ?%W; by eapply Hw|exact Hc].
Qed.

(** A reply is final. *)
Lemma replied_persists w e i r : w_reqs w !! i = Some (Replied r) -> w_reqs (step w e) !! i = Some (Replied r).
Proof.
  intros Hi. destruct e as [d now q|j now a]; cbn [tx_step].
  - destruct (tx_arrive d now (w_store w) q) as [s ph]. simpl. by apply lookup_app_l_Some.
  - destruct (w_reqs w !! j) as [[|key raw p]|] eqn:Ej; [done| |done]. unfold tx_finish. simpl.
    rewrite list_lookup_insert_ne; [done|]. intros ->. congruence.
Qed.
Lemma no_failure_prefix w es : no_failure (fold_left step es w) -> no_failure w.
Proof.
  revert w. induction es as [|e es IH]; intros w Hn; [done|]. apply IH in Hn. intros i r Hi. by eapply Hn, replied_persists.
Qed.

Lemma key_state_run k t0 d es w :
  key_state k (t0 + d) w -> ttl (w_store w) = d -> Forall (ev_in t0 (t0 + d)) es -> no_failure (fold_left step es w) ->
  key_state k (t0 + d) (fold_left step es w).
Proof.
  revert w. induction es as [|e es IH]; intros w Hk Ht He Hn; [done|].
  apply Forall_cons in He as [He1 He]. pose proof (no_failure_prefix (step w e) es Hn) as Hn1. destruct w as [s reqs calls]. simpl in Ht. subst d.
  assert (key_state k (t0 + ttl s) (step (mkTxWorld s reqs calls) e) /\ ttl (w_store (step (mkTxWorld s reqs calls) e)) = ttl s) as [Hk1 Ht1].
  { destruct e; [by apply key_state_arrive|by apply key_state_finish]. }
  by apply IH.
Qed.

End once.

(** * The common header *)
Lemma overlay_keeps enforce client hdr k :
  (k = "usid" /\ enforce = true) \/ k = "trxc" \/ k = "ctyp" -> obj_get (fold_left (overlay_one enforce) client hdr) k = obj_get hdr k.
Proof.
  intros Hk. revert hdr. induction client as [|[k' v] client IH]; intros hdr; [done|]. simpl. rewrite IH. unfold overlay_one. simpl.
  destruct ((bool_decide (k' = "usid") && enforce) || bool_decide (k' = "trxc") || bool_decide (k' = "ctyp")) eqn:E; [done|].
  rewrite obj_get_set. destruct (decide (k' = k)) as [->|]; [|done]. exfalso.
  destruct Hk as [[-> ->]|[->| ->]]; by vm_compute in E.
Qed.
Lemma overlay_absent enforce client hdr k : k ∉ client.*1 -> obj_get (fold_left (overlay_one enforce) client hdr) k = obj_get hdr k.
Proof.
  revert hdr. induction client as [|[k' v'] client IH]; intros hdr Hk; [done|]. simpl in *. apply not_elem_of_cons in Hk as [Hne Hk].
  rewrite IH by done. unfold overlay_one. simpl. case_if; [done|]. rewrite obj_get_set. by rewrite decide_False by congruence.
Qed.
Lemma overlay_present enforce client hdr k v :
  k <> "usid" -> k <> "trxc" -> k <> "ctyp" -> NoDup client.*1 -> (k, v) ∈ client ->
  obj_get (fold_left (overlay_one enforce) client hdr) k = Some v.
Proof.
  intros N1 N2 N3. revert hdr. induction client as [|[k' v'] client IH]; intros hdr Hnd Hin; [by apply not_elem_of_nil in Hin|].
  simpl in Hnd. apply NoDup_cons in Hnd as [Hk' Hnd]. apply elem_of_cons in Hin as [[= <- <-]|Hin]; [|simpl; by apply IH].
  cbn [fold_left]. rewrite overlay_absent by done. unfold overlay_one. simpl. rewrite !bool_decide_eq_false_2 by done. simpl.
  rewrite obj_get_set. by rewrite decide_True.
Qed.

(** Safety. Whatever header a logged-on client sends with a request that is laid out
    by the service's schema, the user, transaction code and access channel of the common
    header are the session's, the routing key and the code of the session's channel; any
    other field is the client's if it gave one and the default if it did not. *)
Theorem header_not_forged rkey usid channel client :
  usid <> "" -> NoDup client.*1 ->
  let h := wire_header rkey usid channel client in
  obj_get h "usid" = Some (VStr usid) /\ obj_get h "trxc" = Some (VStr rkey) /\ obj_get h "ctyp" = Some (VStr (ctypForChannel channel)) /\
  (forall k v, k <> "usid" -> k <> "trxc" -> k <> "ctyp" -> (k, v) ∈ client -> obj_get h k = Some v) /\
  (forall k, k ∉ client.*1 -> obj_get h k = obj_get (wireHeaderDefaults rkey usid channel) k).
Proof.
  intros Hu Hnd. unfold wire_header. rewrite (bool_decide_eq_false_2 _ Hu). cbv zeta.
  repeat split; [by rewrite overlay_keeps by auto..| |].
  - intros k v N1 N2 N3 Hin. by apply overlay_present.
  - intros k Hk. by apply overlay_absent.
Qed.
Lemma header_not_forged_witness :
  obj_get (wire_header "W1101T01" "kim" "EMP" [("usid", VStr "root"); ("ctyp", VStr "A"); ("ltyp", VStr "EN")]) "usid" = Some (VStr "kim") /\
  obj_get (wire_header "W1101T01" "kim" "EMP" [("usid", VStr "root"); ("ctyp", VStr "A"); ("ltyp", VStr "EN")]) "ltyp" = Some (VStr "EN").
Proof.
  destruct (header_not_forged "W1101T01" "kim" "EMP" [("usid", VStr "root"); ("ctyp", VStr "A"); ("ltyp", VStr "EN")]) as (Hu & _ & _ & Hk & _).
  - discriminate.
  - apply (bool_decide_unpack _). vm_compute. exact I.
  - split; [exact Hu|]. apply Hk; [discriminate..|]. do 2 right. left.
Defined.

(** * Bulk requests *)
Section bulk.
Context {R : Type} `{Registry R} `{Codecs} {B : Type} (call : B -> FrameInput -> B * res broker_err BrokerReply).
Context (d : @Deps R) (clock : nat -> Time) (q : TxRequest).
#[local] Abbreviation loop := (bulk_loop call d clock q).

(** All items, one after the other. *)
Fixpoint attempt (i : nat) (b : B) (items : list Envelope) : B * res unit (list BulkItemResult) :=
  match items with
  | [] => (b, Ok [])
  | e :: items =>
      match processBulkItem call d (clock i) q b e with
      | (b, Ok r) => let '(b, rs) := attempt (S i) b items in (b, rs ← rs; Ok (r :: rs))
      | (b, _) => (b, Panic)
      end
  end.
Definition then_skipped (n : nat) (p : B * res unit (list BulkItemResult)) : B * res unit (list BulkItemResult) :=
  (p.1, rs ← p.2; Ok (rs ++ replicate n not_attempted)).

Lemma bulk_halted i b items : loop true i true b items = (b, Ok (replicate (length items) not_attempted)).
Proof. revert i. induction items as [|e items IH]; intros i; simpl; [done|]. by rewrite IH. Qed.
Lemma bulk_continues i first b items : loop false i first b items = attempt i b items.
Proof.
  revert i first b. induction items as [|e items IH]; intros i first b; simpl; [done|]. rewrite andb_false_r.
  destruct (processBulkItem call d (clock i) q b e) as [b' [r| |]]; [|done..]. by rewrite IH.
Qed.
Lemma bulk_stops i b items : exists xs ys, items = xs ++ ys /\
  loop true i false b items = then_skipped (length ys) (attempt i b xs) /\
  (forall b' rs, attempt i b xs = (b', Ok rs) ->
     Forall (fun r => item_failed r = false) (take (length rs - 1) rs) /\ (ys <> [] -> exists r, last rs = Some r /\ item_failed r = true)).
Proof.
  revert i b. induction items as [|e items IH]; intros i b.
  { exists [], []. split; [done|]. split; [done|]. intros b' rs [= <- <-]. by split. }
  simpl. destruct (processBulkItem call d (clock i) q b e) as [b' p] eqn:Ep. destruct p as [r|u|].
  2-3: exists (e :: items), []; split; [by rewrite app_nil_r|]; split; [simpl; by rewrite Ep|]; intros ? ?; simpl; by rewrite Ep.
  destruct (item_failed r) eqn:Er; simpl.
  - rewrite bulk_halted. exists [e], items. split; [done|]. simpl. rewrite Ep. split; [done|]. intros ? ? [= <- <-].
    split; [constructor|]. intros _. by exists r.
  - destruct (IH (S i) b') as (xs & ys & -> & E & Hr). exists (e :: xs), ys. split; [done|]. simpl. rewrite Ep, E.
    destruct (attempt (S i) b' xs) as [b2 [rs| |]]; unfold then_skipped; simpl; (split; [done|]); [|done..]. intros b3 rs' [= <- <-].
    destruct (Hr _ _ eq_refl) as [Hf Hl]. destruct rs as [|r' rs].
    + split; [constructor|]. intros Hy. by destruct (Hl Hy) as (? & ? & _).
    + replace (length (r :: r' :: rs) - 1)%nat with (S (length (r' :: rs) - 1)) by (simpl; lia). split; [by constructor|done].
Qed.

(** Functional. The items of a bulk request are handed to the broker one after the
    other in the order of the request, and the results are in that order. Without
    stop_on_error every item is attempted whatever became of the ones before it. With it
    a first part is attempted in which only the last item may have failed, the rest is
    reported as not attempted and does not reach the broker, and there is a rest only
    behind a failure. *)
Theorem bulk_in_order stop b items : exists xs ys, items = xs ++ ys /\
  loop stop 0 false b items = then_skipped (length ys) (attempt 0 b xs) /\
  (stop = false -> ys = []) /\
  (stop = true -> forall b' rs, attempt 0 b xs = (b', Ok rs) ->
     Forall (fun r => item_failed r = false) (take (length rs - 1) rs) /\ (ys <> [] -> exists r, last rs = Some r /\ item_failed r = true)).
Proof.
  destruct stop.
  - destruct (bulk_stops 0 b items) as (xs & ys & -> & E & Hr). exists xs, ys. split; [done|]. split; [done|]. split; [done|]. intros _. exact Hr.
  - exists items, []. rewrite bulk_continues, app_nil_r. split; [done|]. split; [|done]. unfold then_skipped.
    destruct (attempt 0 b items) as [b' [rs| |]]; simpl; [by rewrite app_nil_r|done..].
Qed.
End bulk.

(** * A concrete gateway *)
#[local] Instance plain : Codecs := {|
  fmt_q s := s; json_symbol _ := ""; json_text _ := None; json_object _ := Some []; json_Valid _ := true; json_string b := b;
  json_marshal _ := Some []; wire_chars s := map (fun c => [byte_of_ascii c]) (String.list_ascii_of_string s); utf8_Valid _ := true;
  euckr_decode _ := None; FormatFloat _ := ""; Sprint _ := ""; sha256 b := b |}.
Definition at_sec (n : Z) : Time := mkTime (n * 1000000000) 0.
Definition route_buy : Mem.InMemoryRegistry := {["buy" := mkRule "buy" "ORDER" "NEW" true "" (at_sec 0) ""]}.
Definition gateway (pol : option Engine) (specs : option (gmap string SvcSpec)) : Deps := mkDeps (Some route_buy) pol specs true.
Definition order (key : string) (e : Envelope) : TxRequest := mkTx "kim" "WTS" None false (Some e) [x31] key [].
Definition by_alias : Envelope := mkEnv "buy" "" "" "" "" "" [x31] [] 0 "".
Definition by_key : Envelope := mkEnv "" "ORDER" "NEW" "" "" "" [x31] [] 0 "".
Definition store5m : MemoryStore := NewMemoryStore (mkOptions 0).
#[local] Abbreviation run0 := (tx_run (R := Mem.InMemoryRegistry) (fun _ => [])).
#[local] Abbreviation kim_k := "kim|k".
Definition ok_reply : res broker_err BrokerReply := Ok (mkBrokerReply 0 "" [x32]).

Example one_call_one_cached :
  let w := run0 store5m [TArrive (gateway None None) (at_sec 1) (order "k" by_alias); TArrive (gateway None None) (at_sec 2) (order "k" by_alias);
     TFinish 0 2500000000 ok_reply; TArrive (gateway None None) (at_sec 3) (order "k" by_alias)] in
  w_calls w = [Some kim_k] /\ map (fun p => match p with Replied r => status_of r | _ => 0 end) (w_reqs w) = [200; 409; 200].
Proof. by vm_compute. Qed.

(** ** Defects *)
(** A time-out of the engine is a server error, gives the key up, and the retry is a
    second order. *)
Lemma timeout_executes_twice :
  calls_under kim_k (run0 store5m [TArrive (gateway None None) (at_sec 1) (order "k" by_alias);
    TFinish 0 2000000000 (Err (BErr ErrTimeout "")); TArrive (gateway None None) (at_sec 3) (order "k" by_alias)]) = 2%nat.
Proof. by vm_compute. Qed.

(** The policy tests the routing key of the request, not the one its alias stands for. *)
Definition blocks_new : Engine := rebuildSetsLocked (set_state NewEngine (with_lists zero_state [] ["NEW"])).
Lemma alias_passes_blocked_key :
  (exists r, plan_tx (gateway (Some blocks_new) None) (at_sec 1) (order "" by_key) by_key = Answer r /\ status_of r = 403) /\
  exists f, plan_tx (gateway (Some blocks_new) None) (at_sec 1) (order "" by_alias) by_alias = ToBroker f None /\ fi_rkey f = bytes "NEW".
Proof. split; eexists; by vm_compute. Qed.
(** No symbol is looked for in a raw request: the list of blocked symbols does not apply. *)
Lemma raw_passes_blocked_symbols `{Codecs} d now q e eng :
  dp_policy d = Some eng -> en_Data e = [] -> json_symbol [] = "" ->
  forall syms, policy_blocks d now q e =
    policy_blocks (mkDeps (dp_routes d) (Some (mkEngine (state eng) syms (blockedRkeys eng) (onChange eng) (suppressChange eng))) (dp_specs d) (dp_idem d)) now q e
    (R := Mem.InMemoryRegistry).
Proof. intros E Hd Hs syms. unfold policy_blocks. rewrite E, Hd, Hs. unfold Check, check_kill. simpl. done. Qed.

(** The target of a raw request is in headers the key's hash does not cover: the same
    bytes under the same key for another service are answered from the first. *)
Definition raw_order (alias : string) : TxRequest := mkTx "kim" "WTS" None true (Some (raw_envelope alias "ORDER" "")) [x31] "k" [].
Lemma raw_target_not_in_key :
  let w := run0 store5m [TArrive (gateway None None) (at_sec 1) (raw_order "buy"); TFinish 0 2000000000 ok_reply;
    TArrive (gateway None None) (at_sec 3) (raw_order "sell")] in
  w_reqs w !! 1%nat = Some (Replied (RCached (mkReply 200 []))) /\ w_calls w = [Some kim_k].
Proof. by vm_compute. Qed.

(** A panic behind the reservation, here on a reply with an absurd row count, is answered
    with status 500 but remembered as an empty success. *)
Definition bad_count_spec : SvcSpec :=
  mkSpec [] [] [mkField "cnt" "char" 15 1 "" [] ""; mkField "rows" "struct" 0 (-1) "" [mkField "x" "char" 1 1 "" [] ""] "cnt"].
Lemma panic_remembered_as_success :
  let w := run0 store5m [TArrive (gateway None (Some {["NEW" := bad_count_spec]})) (at_sec 1) (order "k" by_alias);
    TFinish 0 2000000000 (Ok (mkBrokerReply 0 "" (bytes "999999999999999"))); TArrive (gateway None None) (at_sec 3) (order "k" by_alias)] in
  w_reqs w = [Replied RPanic; Replied (RCached (mkReply 200 []))] /\ status_of RPanic = 500.
Proof. by vm_compute. Qed.

(** The page keys of a reply are not passed on. *)
Lemma FromReply_drops_page_keys `{Codecs} r : en_Pkey (FromReply r) = "" /\ en_Nkey (FromReply r) = "".
Proof. done. Qed.
(** A call cut off by its own deadline is an internal error, not a time-out. *)
Lemma deadline_is_internal `{Codecs} raw spec : respond raw spec (Err BContext) = RError 500 "internal" 0.
Proof. done. Qed.
(** An error reply without a number has a failure status but does not stop a bulk
    request. *)
Lemma bulk_ignores_text_errors `{Codecs} msg body :
  msg <> "" -> exists r, item_answer (Ok (mkBrokerReply 0 msg body)) = Ok r /\ bi_Status r = 422 /\ item_failed r = false.
Proof.
  intros Hm. unfold item_answer, AsError. simpl. rewrite bool_decide_eq_false_2 by done. by eexists.
Qed.
