(* ===== verification/Krx.v ===== *)
(** The exchange's messages (src/pkg/krx): fixed-width records of trades, order books,
    instrument masters and settlement prices of futures and bonds. *)

From Stdlib Require Import ZArith QArith Lia Ascii.
From S2P Require Import Prelude Codec GoStrings Strconv Float64 FloatText Best.
Local Open Scope Z_scope.
Local Open Scope wtg_scope.

(** * Records *)
Definition nHogaLevel : nat := 5.
Record FutTrade := mkFutTrade {
  ft_Kind : string; ft_Code : string; ft_Time : string; ft_BasePrc : f64; ft_Open : f64; ft_High : f64; ft_Low : f64;
  ft_Last : f64; ft_PrevClose : f64; ft_Diff : f64; ft_Rate : f64; ft_Sign : string; ft_Settle : f64; ft_FinalSettle : f64;
  ft_SettleCd : string; ft_Bs : string; ft_Tvol : Z; ft_Tamt : f64; ft_Cprc : f64; ft_Cvol : Z; ft_NearPrc : f64; ft_FarPrc : f64;
  ft_UpLimit : f64; ft_DnLimit : f64; ft_PrevTradePrc : f64; ft_Cdiff : f64; ft_Crate : f64; ft_Csign : string }.
Record BookLevel := mkBookLevel {
  bl_Prc : f64; bl_Vol : Z; bl_Cnt : Z }.
Record FutBook := mkFutBook {
  fb_Kind : string; fb_Code : string; fb_Time : string; fb_AskTot : Z; fb_BidTot : Z; fb_AskCnt : Z; fb_BidCnt : Z;
  fb_ExpPrc : f64; fb_ExpVol : Z; fb_Ask : list BookLevel; fb_Bid : list BookLevel }.
Record BondTrade := mkBondTrade {
  bt_Kind : string; bt_Code : string; bt_Time : string; bt_Last : f64; bt_Yield : f64; bt_Diff : f64; bt_Rate : f64;
  bt_Sign : string; bt_YDiff : f64; bt_YRate : f64; bt_YSign : string; bt_Open : f64; bt_High : f64; bt_Low : f64;
  bt_OYield : f64; bt_HYield : f64; bt_LYield : f64; bt_Cvol : Z; bt_Camt : f64; bt_Tvol : Z; bt_Tamt : f64 }.
Record BondLevel := mkBondLevel {
  nl_Prc : f64; nl_Vol : Z; nl_Yld : f64 }.
Record BondBook := mkBondBook {
  bb_Kind : string; bb_Code : string; bb_Date : string; bb_Time : string; bb_AskTot : Z; bb_BidTot : Z; bb_Ask : list BondLevel;
  bb_Bid : list BondLevel }.
Record FutMaster := mkFutMaster {
  fm_Kind : string; fm_Code : string; fm_ShortCode : string; fm_Name : string; fm_NameFull : string; fm_OptType : string;
  fm_Underlying : string; fm_UnderlyingCd : string; fm_ListDate : string; fm_LastTradeDate : string; fm_Expiry : string;
  fm_Strike : f64; fm_ExerciseType : string; fm_AtmType : string; fm_BasePrc : f64; fm_PrevClose : f64; fm_UpLimit : f64;
  fm_DnLimit : f64; fm_Unit : f64; fm_Mult : f64; fm_PrevOI : Z; fm_IV : f64; fm_Halt : bool }.
Record BondMaster := mkBondMaster {
  bm_Kind : string; bm_Code : string; bm_Name : string; bm_BondType : string; bm_ListStatus : string; bm_Guarantee : string;
  bm_InterestMethod : string; bm_ListDate : string; bm_IssueDate : string; bm_RedeemDate : string; bm_IssueRate : f64;
  bm_CouponRate : f64; bm_IssueAmt : f64; bm_ListAmt : f64; bm_BasePrc : f64; bm_PrevCouponDate : string;
  bm_NextCouponDate : string; bm_Halt : bool }.
Record FutSettle := mkFutSettle {
  fs_Kind : string; fs_Code : string; fs_Settle : f64; fs_SettleCd : string; fs_FinalSettle : f64; fs_FinalSettleCd : string }.

(** * Fields *)
Inductive KrxErr := ErrLength | ErrTR.
(** [b[off:off+n]] panics beyond the end. *)
Definition fstr (b : list byte) (off n : nat) : res KrxErr string :=
  if (length b <? off + n)%nat then Panic else Ok (String.string_of_list_byte (Best.TrimSpace (sub off n b))).
Definition ffloat (b : list byte) (off n : nat) : res KrxErr f64 :=
  s ← fstr b off n; Ok (if bool_decide (s = "") then f0 else match ParseFloat s with Some v => v | None => f0 end).
(** [strconv.ParseInt(s, 10, 64)] is [Atoi] on a 64-bit machine. *)
Definition fint (b : list byte) (off n : nat) : res KrxErr Z :=
  s ← fstr b off n; Ok (if bool_decide (s = "") then 0 else match Atoi s with (v, true) => v | _ => 0 end).
Fixpoint mapR {E A B} (f : A -> res E B) (l : list A) : res E (list B) :=
  match l with [] => Ok [] | a :: l => x ← f a; xs ← mapR f l; Ok (x :: xs) end.
Definition isHalt (s : string) : bool :=
  let s := String.string_of_list_byte (Best.TrimSpace (String.list_byte_of_string s)) in
  negb (bool_decide (s = "") || bool_decide (s = "0") || bool_decide (s = "N") || bool_decide (s = "정상")).

(** The change of [cur] against [ref]: difference, percentage, sign. *)
Definition f_hundred : f64 := lit 100.
Definition PriceDiff (cur ref : f64) : f64 * f64 * string :=
  if (cur <=f f0) || (ref <=f f0) || (cur ==f ref) then (f0, f0, " ")
  else
    let diff := cur -f ref in
    let rate := diff /f ref *f f_hundred in
    (diff, rate, if f0 <f rate then "+" else if rate <f f0 then "-" else " ").

(** * Decoders *)
Definition SZA306F : nat := 173.
Definition DecodeA306F (b : list byte) : res KrxErr FutTrade :=
  if (length b <? SZA306F)%nat then Err ErrLength
  else
    tr ← fstr b 0 5;
    if negb (bool_decide (tr = "A306F")) then Err ErrTR
    else
      last ← ffloat b 47 9;
      pprc ← ffloat b 110 9;
      vCode ← fstr b 17 12;
      vTime ← fstr b 35 12;
      vOpen ← ffloat b 83 9;
      vHigh ← ffloat b 92 9;
      vLow ← ffloat b 101 9;
      vBs ← fstr b 153 1;
      vTvol ← fint b 119 12;
      vTamt ← ffloat b 131 22;
      vCvol ← fint b 56 9;
      vNearPrc ← ffloat b 65 9;
      vFarPrc ← ffloat b 74 9;
      vUpLimit ← ffloat b 154 9;
      vDnLimit ← ffloat b 163 9;
      let '(cdiff, crate, csign) := PriceDiff last pprc in
      Ok (mkFutTrade "fut.trade" vCode vTime f0 vOpen vHigh vLow last f0 f0 f0 "" f0 f0 "" vBs vTvol vTamt last vCvol vNearPrc
         vFarPrc vUpLimit vDnLimit pprc cdiff crate csign).

Definition SZA301K : nat := 223.
Definition DecodeA301K (b : list byte) : res KrxErr BondTrade :=
  if (length b <? SZA301K)%nat then Err ErrLength
  else
    tr ← fstr b 0 5;
    if negb (bool_decide (tr = "A301K")) then Err ErrTR
    else
      vCode ← fstr b 17 12;
      vTime ← fstr b 29 12;
      vLast ← ffloat b 41 11;
      vYield ← ffloat b 92 13;
      vOpen ← ffloat b 105 11;
      vHigh ← ffloat b 116 11;
      vLow ← ffloat b 127 11;
      vOYield ← ffloat b 138 13;
      vHYield ← ffloat b 151 13;
      vLYield ← ffloat b 164 13;
      vCvol ← fint b 52 10;
      vCamt ← ffloat b 70 22;
      vTvol ← fint b 177 15;
      vTamt ← ffloat b 192 22;
      Ok (mkBondTrade "bond.trade" vCode vTime vLast vYield f0 f0 "" f0 f0 "" vOpen vHigh vLow vOYield vHYield vLYield vCvol
         vCamt vTvol vTamt).

Definition SZMaster : nat := 1318.
Definition DecodeA006F (b : list byte) : res KrxErr FutMaster :=
  if (length b <? SZMaster)%nat then Err ErrLength
  else
    tr ← fstr b 0 5;
    if negb (bool_decide (tr = "A006F")) then Err ErrTR
    else
      vCode ← fstr b 27 12;
      vShortCode ← fstr b 57 9;
      vName ← fstr b 146 40;
      vNameFull ← fstr b 66 80;
      vOptType ← fstr b 45 1;
      vUnderlying ← fstr b 408 3;
      vUnderlyingCd ← fstr b 543 12;
      vListDate ← fstr b 309 8;
      vLastTradeDate ← fstr b 438 8;
      vExpiry ← fstr b 457 8;
      vStrike ← ffloat b 465 18;
      vExerciseType ← fstr b 411 1;
      vAtmType ← fstr b 730 1;
      vBasePrc ← ffloat b 397 11;
      vPrevClose ← ffloat b 748 11;
      vUpLimit ← ffloat b 331 11;
      vDnLimit ← ffloat b 364 11;
      vUnit ← ffloat b 484 22;
      vMult ← ffloat b 506 22;
      vPrevOI ← fint b 825 12;
      vIV ← ffloat b 859 11;
      vHalt ← (s ← fstr b 689 1; Ok (isHalt s));
      Ok (mkFutMaster "fut.master" vCode vShortCode vName vNameFull vOptType vUnderlying vUnderlyingCd vListDate vLastTradeDate
         vExpiry vStrike vExerciseType vAtmType vBasePrc vPrevClose vUpLimit vDnLimit vUnit vMult vPrevOI vIV vHalt).

Definition SZBondMaster : nat := 308.
Definition DecodeA001B (b : list byte) : res KrxErr BondMaster :=
  if (length b <? SZBondMaster)%nat then Err ErrLength
  else
    tr ← fstr b 0 5;
    if negb (bool_decide (tr = "A001B")) then Err ErrTR
    else
      vCode ← fstr b 27 12;
      vName ← fstr b 47 40;
      vBondType ← fstr b 45 2;
      vListStatus ← fstr b 130 1;
      vGuarantee ← fstr b 137 1;
      vInterestMethod ← fstr b 138 2;
      vListDate ← fstr b 140 8;
      vIssueDate ← fstr b 148 8;
      vRedeemDate ← fstr b 156 8;
      vIssueRate ← ffloat b 172 13;
      vCouponRate ← ffloat b 185 14;
      vIssueAmt ← ffloat b 208 22;
      vListAmt ← ffloat b 230 22;
      vBasePrc ← ffloat b 294 11;
      vPrevCouponDate ← fstr b 276 8;
      vNextCouponDate ← fstr b 284 8;
      vHalt ← (s ← fstr b 275 1; Ok (isHalt s));
      Ok (mkBondMaster "bond.master" vCode vName vBondType vListStatus vGuarantee vInterestMethod vListDate vIssueDate
         vRedeemDate vIssueRate vCouponRate vIssueAmt vListAmt vBasePrc vPrevCouponDate vNextCouponDate vHalt).

Definition SZH306F : nat := 53.
Definition DecodeH306F (b : list byte) : res KrxErr FutSettle :=
  if (length b <? SZH306F)%nat then Err ErrLength
  else
    tr ← fstr b 0 5;
    if negb (bool_decide (tr = "H306F")) then Err ErrTR
    else
      vCode ← fstr b 5 12;
      vSettle ← ffloat b 23 18;
      vSettleCd ← fstr b 41 2;
      vFinalSettle ← ffloat b 43 8;
      vFinalSettleCd ← fstr b 51 1;
      Ok (mkFutSettle "fut.settle" vCode vSettle vSettleCd vFinalSettle vFinalSettleCd).

Definition SZB606F : nat := 324.
Definition b606fHogaSz : nat := 46.
(** One row of the table: the ask and the bid level. *)
Definition futLevel (b : list byte) (i : nat) : res KrxErr (BookLevel * BookLevel) :=
  let o := (47 + i * b606fHogaSz)%nat in
  sprc ← ffloat b (o + 0) 9; svol ← fint b (o + 18) 9; scnt ← fint b (o + 36) 5;
  bprc ← ffloat b (o + 9) 9; bvol ← fint b (o + 27) 9; bcnt ← fint b (o + 41) 5;
  Ok (mkBookLevel sprc svol scnt, mkBookLevel bprc bvol bcnt).
Definition DecodeB606F (b : list byte) : res KrxErr FutBook :=
  if (length b <? SZB606F)%nat then Err ErrLength
  else
    tr ← fstr b 0 5;
    if negb (bool_decide (tr = "B606F")) then Err ErrTR
    else
      vCode ← fstr b 17 12;
      vTime ← fstr b 35 12;
      vAskTot ← fint b 277 9;
      vBidTot ← fint b 286 9;
      vAskCnt ← fint b 295 5;
      vBidCnt ← fint b 300 5;
      vExpPrc ← ffloat b 305 9;
      vExpVol ← fint b 314 9;
      levels ← mapR (futLevel b) (seq 0 nHogaLevel);
      Ok (mkFutBook "fut.book" vCode vTime vAskTot vBidTot vAskCnt vBidCnt vExpPrc vExpVol (map fst levels) (map snd levels)).

Definition SZB601K : nat := 462.
Definition b601kHogaSz : nat := 78.
Definition bondLevel (b : list byte) (i : nat) : res KrxErr (BondLevel * BondLevel) :=
  let o := (41 + i * b601kHogaSz)%nat in
  sprc ← ffloat b (o + 0) 11; svol ← fint b (o + 22) 15; syld ← ffloat b (o + 52) 13;
  bprc ← ffloat b (o + 11) 11; bvol ← fint b (o + 37) 15; byld ← ffloat b (o + 65) 13;
  Ok (mkBondLevel sprc svol syld, mkBondLevel bprc bvol byld).
Definition DecodeB601K (b : list byte) : res KrxErr BondBook :=
  if (length b <? SZB601K)%nat then Err ErrLength
  else
    tr ← fstr b 0 5;
    if negb (bool_decide (tr = "B601K")) then Err ErrTR
    else
      vCode ← fstr b 17 12;
      vTime ← fstr b 29 12;
      vAskTot ← fint b 431 15;
      vBidTot ← fint b 446 15;
      levels ← mapR (bondLevel b) (seq 0 nHogaLevel);
      Ok (mkBondBook "bond.book" vCode "" vTime vAskTot vBidTot (map fst levels) (map snd levels)).

(** * Every message is decoded or refused *)
Lemma fstr_ok b off n : (off + n <= length b)%nat -> exists s, fstr b off n = Ok s.
Proof. intros H. unfold fstr. rewrite (proj2 (Nat.ltb_ge _ _)) by done. eauto. Qed.
Lemma ffloat_ok b off n : (off + n <= length b)%nat -> exists v, ffloat b off n = Ok v.
Proof. intros H. unfold ffloat. destruct (fstr_ok b off n H) as [s ->]. simpl. eauto. Qed.
Lemma fint_ok b off n : (off + n <= length b)%nat -> exists v, fint b off n = Ok v.
Proof. intros H. unfold fint. destruct (fstr_ok b off n H) as [s ->]. simpl. eauto. Qed.
Lemma fstr_safe b off n : (off + n <= length b)%nat -> no_panic (fstr b off n).
Proof. intros H. by destruct (fstr_ok b off n H) as [s ->]. Qed.
Lemma ffloat_safe b off n : (off + n <= length b)%nat -> no_panic (ffloat b off n).
Proof. intros H. by destruct (ffloat_ok b off n H) as [s ->]. Qed.
Lemma fint_safe b off n : (off + n <= length b)%nat -> no_panic (fint b off n).
Proof. intros H. by destruct (fint_ok b off n H) as [s ->]. Qed.
Lemma mapR_safe {E A B} (f : A -> res E B) l : (forall a, a ∈ l -> no_panic (f a)) -> no_panic (mapR f l).
Proof.
  induction l as [|a l IH]; intros H; [done|]. simpl. apply no_panic_bind; [apply H; left|]. intros x _.
  apply no_panic_bind; [|done]. apply IH. intros b Hb. apply H. by right.
Qed.
(** Reads the fields of a message of known length, one after the other. *)
Ltac fields :=
  repeat first
    [ apply no_panic_bind; [first [apply fstr_safe; lia | apply ffloat_safe; lia | apply fint_safe; lia]|intros ? _]
    | apply no_panic_bind; [apply no_panic_bind; [apply fstr_safe; lia|intros ? _; apply no_panic_ok]|intros ? _]
    | apply no_panic_ok ].
Ltac decoder_safe :=
  case_if; [done|]; match goal with H : Nat.ltb _ _ = false |- _ => apply Nat.ltb_ge in H end;
  apply no_panic_bind; [apply fstr_safe; lia|intros tr _]; case_if; [done|]; fields.

Lemma DecodeA306F_safe b : no_panic (DecodeA306F b).
Proof. unfold DecodeA306F, SZA306F. decoder_safe. destruct (PriceDiff a a0) as [[? ?] ?]. done. Qed.
Lemma DecodeA301K_safe b : no_panic (DecodeA301K b).
Proof. unfold DecodeA301K, SZA301K. decoder_safe. Qed.
Lemma DecodeA006F_safe b : no_panic (DecodeA006F b).
Proof. unfold DecodeA006F, SZMaster. decoder_safe. Qed.
Lemma DecodeA001B_safe b : no_panic (DecodeA001B b).
Proof. unfold DecodeA001B, SZBondMaster. decoder_safe. Qed.
Lemma DecodeH306F_safe b : no_panic (DecodeH306F b).
Proof. unfold DecodeH306F, SZH306F. decoder_safe. Qed.
Lemma futLevel_safe b i : (i < 5)%nat -> (SZB606F <= length b)%nat -> no_panic (futLevel b i).
Proof. unfold futLevel, SZB606F, b606fHogaSz. intros Hi Hb. fields. Qed.
Lemma DecodeB606F_safe b : no_panic (DecodeB606F b).
Proof.
  unfold DecodeB606F. case_if; [done|]. apply Nat.ltb_ge in E. pose proof E as E'. unfold SZB606F in E.
  apply no_panic_bind; [apply fstr_safe; lia|intros tr _]. case_if; [done|]. fields.
  apply no_panic_bind; [|done]. apply mapR_safe. intros i [_ Hi]%elem_of_seq. by apply futLevel_safe.
Qed.
Lemma bondLevel_safe b i : (i < 5)%nat -> (SZB601K <= length b)%nat -> no_panic (bondLevel b i).
Proof. unfold bondLevel, SZB601K, b601kHogaSz. intros Hi Hb. fields. Qed.
Lemma DecodeB601K_safe b : no_panic (DecodeB601K b).
Proof.
  unfold DecodeB601K. case_if; [done|]. apply Nat.ltb_ge in E. pose proof E as E'. unfold SZB601K in E.
  apply no_panic_bind; [apply fstr_safe; lia|intros tr _]. case_if; [done|]. fields.
  apply no_panic_bind; [|done]. apply mapR_safe. intros i [_ Hi]%elem_of_seq. by apply bondLevel_safe.
Qed.
