(* ===== verification/KrxShm.v ===== *)
(** The shared-memory tables of the exchange's market data (src/pkg/krxshm, all but the
    mapping of files) and the hub that fills them from the feed (src/internal/pricekrx):
    futures and bonds, one entry per instrument, sorted by code for the readers' binary
    search. *)

From Stdlib Require Import ZArith QArith Lia Ascii.
From S2P Require Import Prelude Sorting Codec GoStrings Strconv Float64 FloatText Best Krx.
Local Open Scope Z_scope.
Local Open Scope wtg_scope.

(** * The mapped region *)
(** A byte slice, sparse: cells that were never written hold what the file held. *)
Record Shm := mkShm { shm_len : Z; shm_cells : Z -> byte }.
Fixpoint put_bytes (f : Z -> byte) (off : Z) (bs : list byte) : Z -> byte :=
  match bs with [] => f | b :: bs => put_bytes (fun i => if i =? off then b else f i) (off + 1) bs end.
(** A store panics beyond the end. *)
Definition put (m : Shm) (off : Z) (bs : list byte) : res unit Shm :=
  if (off <? 0) || (shm_len m <? off + zlen bs) then Panic else Ok (mkShm (shm_len m) (put_bytes (shm_cells m) off bs)).
Definition read (m : Shm) (off : Z) (n : nat) : list byte := map (fun i => shm_cells m (off + Z.of_nat i)) (seq 0 n).
(** A list of stores, offsets from [base]. *)
Fixpoint puts (m : Shm) (base : Z) (ws : list (Z * list byte)) : res unit Shm :=
  match ws with [] => Ok m | (o, bs) :: ws => m ← put m (base + o) bs; puts m base ws end.

(** [binary.LittleEndian]. *)
Definition le_bytes (n : nat) (v : Z) : list byte := map (fun i => z2b (Z.shiftr v (8 * Z.of_nat i))) (seq 0 n).
Definition putF64 (v : f64) : list byte := le_bytes 8 (Float64bits v).
Definition putU64 (v : Z) : list byte := le_bytes 8 v.
Definition putU32 (v : Z) : list byte := le_bytes 4 v.
(** [putFixed]: cut or filled with zero bytes. *)
Definition putFixed (n : nat) (s : string) : list byte :=
  let b := String.list_byte_of_string s in take n b ++ replicate (n - length b) x00.
Definition putByte (s : string) : list byte := match s with "" => [x20] | String c _ => [byte_of_ascii c] end.

(** * The tables *)
Record Table := mkTable { tb_size : Z; tb_max : nat; tb_base : Z; tb_stride : Z; tb_name : Z; tb_nameLen : nat }.
Definition mfsise : Table := mkTable 44957040 400 128 112112 12 9.
Definition mbsise : Table := mkTable 69843536 500 128 139408 16 40.
Definition stdCdLen : nat := 12.
Definition offMaxN : Z := 32.
Definition offUseN : Z := 36.
Definition entryOff (t : Table) (i : nat) : Z := tb_base t + Z.of_nat i * tb_stride t.

Record Quote := mkQuote {
  q_Code : string; q_ShortCode : string; q_BasePrc : f64; q_Open : f64; q_High : f64; q_Low : f64; q_Last : f64; q_PrevClose : f64; q_Diff : f64;
  q_Settle : f64; q_FinalSettle : f64; q_Rate : f64; q_AccVol : Z; q_Sign : string; q_SettleCd : string; q_Halt : bool }.
Definition offFsise : Z := 2048.
Definition quote_writes (q : Quote) : list (Z * list byte) :=
  [(0, putF64 (q_BasePrc q)); (8, putF64 (q_Open q)); (16, putF64 (q_High q)); (24, putF64 (q_Low q)); (32, putF64 (q_Last q));
   (64, putF64 (q_PrevClose q)); (72, putF64 (q_Diff q)); (80, putF64 (q_Settle q)); (88, putF64 (q_FinalSettle q));
   (40, putU64 (q_AccVol q)); (96, putU32 (Float32bits (q_Rate q))); (100, putFixed 2 (q_SettleCd q)); (103, putByte (q_Sign q));
   (105, [if q_Halt q then x59 else x20])].
Record Level := mkLevel { l_Prc : f64; l_Vol : Z; l_Cnt : Z }.
Record Book := mkBook { k_Code : string; k_AskTot : Z; k_BidTot : Z; k_AskCnt : Z; k_BidCnt : Z; k_ExpPrc : f64; k_ExpVol : Z; k_Ask : list Level; k_Bid : list Level }.
Definition offFhoga : Z := 2272.
Definition NHoga : nat := 5.
Definition level_writes (o : Z) (l : Level) : list (Z * list byte) := [(o, putF64 (l_Prc l)); (o + 8, putU64 (l_Vol l)); (o + 16, putU64 (l_Cnt l))].
Definition row_writes {A} (f : Z -> A -> list (Z * list byte)) (ask bid : list A) (j : nat) : list (Z * list byte) :=
  match ask !! j with Some l => f (64 + Z.of_nat j * 24) l | None => [] end ++
  match bid !! j with Some l => f (184 + Z.of_nat j * 24) l | None => [] end.
Definition book_writes (b : Book) : list (Z * list byte) :=
  [(16, putU64 (k_AskTot b)); (24, putU64 (k_BidTot b)); (32, putU64 (k_AskCnt b)); (40, putU64 (k_BidCnt b)); (48, putF64 (k_ExpPrc b)); (56, putU64 (k_ExpVol b))] ++
  flat_map (row_writes level_writes (k_Ask b) (k_Bid b)) (seq 0 NHoga).

Record BondQuote := mkBondQuote {
  bq_Code : string; bq_BasePrc : f64; bq_Last : f64; bq_Diff : f64; bq_Yield : f64; bq_OYield : f64; bq_HYield : f64; bq_LYield : f64; bq_PrevClose : f64;
  bq_PrevYield : f64; bq_Rate : f64; bq_AccVol : Z; bq_Sign : string }.
Definition bOffBsise : Z := 592.
Definition bond_writes (q : BondQuote) : list (Z * list byte) :=
  [(0, putF64 (bq_BasePrc q)); (32, putF64 (bq_Last q)); (40, putF64 (bq_OYield q)); (48, putF64 (bq_HYield q)); (56, putF64 (bq_LYield q));
   (64, putF64 (bq_Yield q)); (72, putU64 (bq_AccVol q)); (96, putF64 (bq_PrevClose q)); (104, putF64 (bq_PrevYield q)); (112, putF64 (bq_Diff q));
   (120, putU32 (Float32bits (bq_Rate q))); (124, putByte (bq_Sign q))].
Record BLevel := mkBLevel { bl_Prc : f64; bl_Vol : Z; bl_Yld : f64 }.
Record BBook := mkBBook { kb_Code : string; kb_AskTot : Z; kb_BidTot : Z; kb_Ask : list BLevel; kb_Bid : list BLevel }.
Definition bOffBhoga : Z := 784.
Definition blevel_writes (o : Z) (l : BLevel) : list (Z * list byte) := [(o, putF64 (bl_Prc l)); (o + 8, putU64 (bl_Vol l)); (o + 16, putF64 (bl_Yld l))].
Definition bbook_writes (b : BBook) : list (Z * list byte) :=
  [(16, putU64 (kb_AskTot b)); (24, putU64 (kb_BidTot b))] ++ flat_map (row_writes blevel_writes (kb_Ask b) (kb_Bid b)) (seq 0 NHoga).

(** * The writer of a table *)
Record Writer := mkWriter { w_buf : Shm; w_slot : gmap string nat }.
Inductive ShmErr := ErrBuffer | ErrTooMany | ErrNotLaid.
Definition NewWriter (t : Table) (buf : Shm) : res ShmErr Writer :=
  if shm_len buf <? tb_size t then Err ErrBuffer else Ok (mkWriter buf ∅).
Definition lift {A} (r : res unit A) : res ShmErr A := match r with Ok a => Ok a | _ => Panic end.
Fixpoint slots_from (i : nat) (l : list string) : gmap string nat :=
  match l with [] => ∅ | c :: l => <[c := i]> (slots_from (S i) l) end.
Fixpoint write_codes (t : Table) (m : Shm) (codes : gmap string string) (i : nat) (l : list string) : res unit Shm :=
  match l with
  | [] => Ok m
  | c :: l =>
      m ← put m (entryOff t i) (putFixed stdCdLen c);
      m ← put m (entryOff t i + tb_name t) (putFixed (tb_nameLen t) (default "" (codes !! c)));
      write_codes t m codes (S i) l
  end.
(** The keys of [codes], sorted. *)
Definition code_list (codes : gmap string string) : list string := sort_Strings (map_to_list codes).*1.
Definition Layout (t : Table) (w : Writer) (codes : gmap string string) : res ShmErr Writer :=
  let l := code_list codes in
  if (tb_max t <? length l)%nat then Err ErrTooMany
  else
    m ← lift (write_codes t (w_buf w) codes 0 l);
    m ← lift (put m offMaxN (putU32 (Z.of_nat (tb_max t))));
    m ← lift (put m offUseN (putU32 (zlen l)));
    Ok (mkWriter m (slots_from 0 l)).
Definition Has (w : Writer) (code : string) : bool := bool_decide (is_Some (w_slot w !! code)).
(** An update in place at an offset of the entry. *)
Definition poke (t : Table) (w : Writer) (code : string) (off : Z) (ws : list (Z * list byte)) : res ShmErr Writer :=
  match w_slot w !! code with
  | None => Err ErrNotLaid
  | Some i => m ← lift (puts (w_buf w) (entryOff t i + off) ws); Ok (mkWriter m (w_slot w))
  end.
Definition Update (w : Writer) (q : Quote) : res ShmErr Writer := poke mfsise w (q_Code q) offFsise (quote_writes q).
Definition UpdateBook (w : Writer) (b : Book) : res ShmErr Writer := poke mfsise w (k_Code b) offFhoga (book_writes b).
Definition UpdateTrade (w : Writer) (q : BondQuote) : res ShmErr Writer := poke mbsise w (bq_Code q) bOffBsise (bond_writes q).
Definition UpdateBondBook (w : Writer) (b : BBook) : res ShmErr Writer := poke mbsise w (kb_Code b) bOffBhoga (bbook_writes b).

(** * The hub *)
Record mrec := mkMrec { m_short : string; m_bprc : f64; m_yprc : f64 }.
Record bmrec := mkBmrec { m_name : string; m_bbprc : f64 }.
(** One market: its writer, if any, the masters and quotes received, and the number of
    masters when the table was last laid out. *)
Record Half (M Q : Type) := mkHalf { hf_w : option Writer; hf_masters : gmap string M; hf_quotes : gmap string Q; hf_laid : nat }.
Arguments mkHalf {M Q}.
Arguments hf_w {M Q}.
Arguments hf_masters {M Q}.
Arguments hf_quotes {M Q}.
Arguments hf_laid {M Q}.
Record Hub := mkHub { h_fut : Half mrec Quote; h_settle : gmap string FutSettle; h_bond : Half bmrec BondQuote }.
Definition New (w bw : option Writer) : Hub := mkHub (mkHalf w ∅ ∅ 0) ∅ (mkHalf bw ∅ ∅ 0).

Section sync.
Context {M Q : Type} (t : Table) (name : M -> string) (update : Writer -> Q -> res ShmErr Writer).
(** The order in which the quotes are visited. *)
Context (iter : gmap string Q -> list (string * Q)).
Definition set_w (h : Half M Q) (w : Writer) : Half M Q := mkHalf (Some w) (hf_masters h) (hf_quotes h) (hf_laid h).
Definition set_laid (h : Half M Q) (n : nat) : Half M Q := mkHalf (hf_w h) (hf_masters h) (hf_quotes h) n.
(** The error of an update is dropped; a panic is not. *)
Definition quiet (h : Half M Q) (w : Writer) (r : res ShmErr Writer) : res unit (Half M Q) :=
  match r with Ok w => Ok (set_w h w) | Err _ => Ok (set_w h w) | Panic => Panic end.
Definition update_known (h : Half M Q) (w : Writer) (code : string) (q : Q) : res unit (Half M Q) :=
  if Has w code then quiet h w (update w q) else Ok h.
Fixpoint update_all (h : Half M Q) (l : list (string * Q)) : res unit (Half M Q) :=
  match l with
  | [] => Ok h
  | (c, q) :: l => match hf_w h with Some w => h ← update_known h w c q; update_all h l | None => Ok h end
  end.
(** [syncFut], [syncBond]. *)
Definition sync (h : Half M Q) (code : string) : res unit (Half M Q) :=
  match hf_w h with
  | None => Ok h
  | Some w =>
      if negb (Nat.eqb (size (hf_masters h)) (hf_laid h)) then
        match Layout t w (name <$> hf_masters h) with
        | Err _ => Ok h
        | Panic => Panic
        | Ok w => update_all (set_laid (set_w h w) (size (hf_masters h))) (iter (hf_quotes h))
        end
      else match hf_quotes h !! code with Some q => update_known h w code q | None => Ok h end
  end.
Definition put_master (h : Half M Q) (code : string) (m : M) : Half M Q := mkHalf (hf_w h) (<[code := m]> (hf_masters h)) (hf_quotes h) (hf_laid h).
Definition put_quote (h : Half M Q) (code : string) (q : Q) : Half M Q := mkHalf (hf_w h) (hf_masters h) (<[code := q]> (hf_quotes h)) (hf_laid h).
(** An order book goes to the entry of a known instrument. *)
Definition put_book {B} (h : Half M Q) (code : string) (write : Writer -> B -> res ShmErr Writer) (b : B) : res unit (Half M Q) :=
  match hf_w h with Some w => if Has w code then quiet h w (write w b) else Ok h | None => Ok h end.
End sync.

Definition settled (s : FutSettle) (q : Quote) : Quote :=
  mkQuote (q_Code q) (q_ShortCode q) (q_BasePrc q) (q_Open q) (q_High q) (q_Low q) (q_Last q) (q_PrevClose q) (q_Diff q)
    (fs_Settle s) (fs_FinalSettle s) (q_Rate q) (q_AccVol q) (q_Sign q) (fs_SettleCd s) (q_Halt q).
Definition buildFutQuote (masters : gmap string mrec) (settle : gmap string FutSettle) (ft : FutTrade) : Quote :=
  let q :=
    match masters !! ft_Code ft with
    | Some m =>
        let ref := if m_yprc m <=f f0 then m_bprc m else m_yprc m in
        let '(diff, rate, sign) := PriceDiff (ft_Last ft) ref in
        mkQuote (ft_Code ft) (m_short m) (m_bprc m) (ft_Open ft) (ft_High ft) (ft_Low ft) (ft_Last ft) (m_yprc m) diff f0 f0 rate 0 sign "" false
    | None => mkQuote (ft_Code ft) "" f0 (ft_Open ft) (ft_High ft) (ft_Low ft) (ft_Last ft) f0 f0 f0 f0 f0 0 "" "" false
    end in
  match settle !! ft_Code ft with Some s => settled s q | None => q end.
Definition buildBondQuote (masters : gmap string bmrec) (bt : BondTrade) : BondQuote :=
  match masters !! bt_Code bt with
  | Some m =>
      let '(diff, rate, sign) := PriceDiff (bt_Last bt) (m_bbprc m) in
      mkBondQuote (bt_Code bt) (m_bbprc m) (bt_Last bt) diff (bt_Yield bt) (bt_OYield bt) (bt_HYield bt) (bt_LYield bt) (m_bbprc m) f0 rate 0 sign
  | None => mkBondQuote (bt_Code bt) f0 (bt_Last bt) f0 (bt_Yield bt) (bt_OYield bt) (bt_HYield bt) (bt_LYield bt) f0 f0 f0 0 ""
  end.
Definition u64 (v : Z) : Z := if v <? 0 then 0 else v.
Definition futBook (fb : FutBook) : Book :=
  let level l := mkLevel (Krx.bl_Prc l) (u64 (Krx.bl_Vol l)) (u64 (Krx.bl_Cnt l)) in
  mkBook (fb_Code fb) (u64 (fb_AskTot fb)) (u64 (fb_BidTot fb)) (u64 (fb_AskCnt fb)) (u64 (fb_BidCnt fb)) (fb_ExpPrc fb) (u64 (fb_ExpVol fb))
    (map level (fb_Ask fb)) (map level (fb_Bid fb)).
Definition bondBook (bb : BondBook) : BBook :=
  let level l := mkBLevel (nl_Prc l) (u64 (nl_Vol l)) (nl_Yld l) in
  mkBBook (bb_Code bb) (u64 (bb_AskTot bb)) (u64 (bb_BidTot bb)) (map level (bb_Ask bb)) (map level (bb_Bid bb)).

Section hub.
Context (iter : gmap string Quote -> list (string * Quote)) (biter : gmap string BondQuote -> list (string * BondQuote)).
Definition sync_fut (h : Hub) (code : string) (f : Half mrec Quote) : res unit Hub :=
  f ← sync mfsise m_short Update iter f code; Ok (mkHub f (h_settle h) (h_bond h)).
Definition sync_bond (h : Hub) (code : string) (b : Half bmrec BondQuote) : res unit Hub :=
  b ← sync mbsise m_name UpdateTrade biter b code; Ok (mkHub (h_fut h) (h_settle h) b).

(** A decoded message. *)
Inductive krx_msg :=
| MFutMaster (m : FutMaster) | MFutTrade (t : FutTrade) | MFutSettle (s : FutSettle) | MFutBook (b : FutBook)
| MBondMaster (m : BondMaster) | MBondTrade (t : BondTrade) | MBondBook (b : BondBook).
Definition decode_msg (b : list byte) : option (res KrxErr krx_msg) :=
  let tr := String.string_of_list_byte (take 5 b) in
  if bool_decide (tr = "A006F") then Some (m ← DecodeA006F b; Ok (MFutMaster m))
  else if bool_decide (tr = "A306F") then Some (t ← DecodeA306F b; Ok (MFutTrade t))
  else if bool_decide (tr = "H306F") then Some (s ← DecodeH306F b; Ok (MFutSettle s))
  else if bool_decide (tr = "B606F") then Some (k ← DecodeB606F b; Ok (MFutBook k))
  else if bool_decide (tr = "A001B") then Some (m ← DecodeA001B b; Ok (MBondMaster m))
  else if bool_decide (tr = "A301K") then Some (t ← DecodeA301K b; Ok (MBondTrade t))
  else if bool_decide (tr = "B601K") then Some (k ← DecodeB601K b; Ok (MBondBook k))
  else None.
Definition apply_msg (h : Hub) (m : krx_msg) : res unit (Hub * string) :=
  match m with
  | MFutMaster m =>
      h ← sync_fut h (fm_Code m) (put_master (h_fut h) (fm_Code m) (mkMrec (fm_ShortCode m) (fm_BasePrc m) (fm_PrevClose m))); Ok (h, fm_Code m)
  | MFutTrade t =>
      h ← sync_fut h (ft_Code t) (put_quote (h_fut h) (ft_Code t) (buildFutQuote (hf_masters (h_fut h)) (h_settle h) t)); Ok (h, ft_Code t)
  | MFutSettle s =>
      let h := mkHub (h_fut h) (<[fs_Code s := s]> (h_settle h)) (h_bond h) in
      match hf_quotes (h_fut h) !! fs_Code s with
      | Some q => h ← sync_fut h (fs_Code s) (put_quote (h_fut h) (fs_Code s) (settled s q)); Ok (h, fs_Code s)
      | None => Ok (h, fs_Code s)
      end
  | MFutBook k => f ← put_book (h_fut h) (fb_Code k) UpdateBook (futBook k); Ok (mkHub f (h_settle h) (h_bond h), fb_Code k)
  | MBondMaster m => h ← sync_bond h (bm_Code m) (put_master (h_bond h) (bm_Code m) (mkBmrec (bm_Name m) (bm_BasePrc m))); Ok (h, bm_Code m)
  | MBondTrade t => h ← sync_bond h (bt_Code t) (put_quote (h_bond h) (bt_Code t) (buildBondQuote (hf_masters (h_bond h)) t)); Ok (h, bt_Code t)
  | MBondBook k => b ← put_book (h_bond h) (bb_Code k) UpdateBondBook (bondBook k); Ok (mkHub (h_fut h) (h_settle h) b, bb_Code k)
  end.
(** The code, whether the message was applied, and the decoder's error. *)
Definition Ingest (h : Hub) (b : list byte) : res unit (Hub * (string * bool * option KrxErr)) :=
  if (length b <? 5)%nat then Ok (h, ("", false, None))
  else match decode_msg b with
       | None => Ok (h, ("", false, None))
       | Some (Err e) => Ok (h, ("", false, Some e))
       | Some Panic => Panic
       | Some (Ok m) => '(h, c) ← apply_msg h m; Ok (h, (c, true, None))
       end.
Fixpoint ingest_all (h : Hub) (bs : list (list byte)) : res unit Hub :=
  match bs with [] => Ok h | b :: bs => '(h, _) ← Ingest h b; ingest_all h bs end.
Definition Stats (h : Hub) : nat * nat * nat * nat :=
  (size (hf_masters (h_fut h)), size (hf_quotes (h_fut h)), size (hf_masters (h_bond h)), size (hf_quotes (h_bond h))).
End hub.
