(* ===== verification/KrxShmLaws.v ===== *)
(** Laws of the shared-memory tables (KrxShm): whatever the exchange sends, the hub
    does not fault, and the tables are sorted directories of the instruments announced,
    each traded one with its quote; defects found. *)

From Stdlib Require Import ZArith QArith Lia Ascii.
From S2P Require Import Prelude Sorting Codec GoStrings Strconv Float64 FloatText Best Krx KrxShm.
Local Open Scope Z_scope.
Local Open Scope wtg_scope.

(** * Stores and loads *)
Lemma put_bytes_out f off bs i : i < off \/ off + zlen bs <= i -> put_bytes f off bs i = f i.
Proof.
  revert f off. induction bs as [|b bs IH]; intros f off Hi; [done|]. simpl in *. rewrite IH by lia.
  by rewrite (proj2 (Z.eqb_neq _ _)) by lia.
Qed.
Lemma put_bytes_in f off bs k b : bs !! k = Some b -> put_bytes f off bs (off + Z.of_nat k) = b.
Proof.
  revert f off k. induction bs as [|c bs IH]; intros f off k; [done|]. destruct k as [|k]; simpl.
  - intros [= ->]. rewrite put_bytes_out by lia. by rewrite Z.add_0_r, Z.eqb_refl.
  - intros Hk. replace (off + Z.of_nat (S k)) with (off + 1 + Z.of_nat k) by lia. by apply IH.
Qed.
Lemma read_lookup m off n k : (k < n)%nat -> read m off n !! k = Some (shm_cells m (off + Z.of_nat k)).
Proof. intros Hk. unfold read. rewrite list_lookup_fmap, lookup_seq_lt by done. done. Qed.
Lemma shm_read_length m off n : length (read m off n) = n.
Proof. unfold read. by rewrite length_map, length_seq. Qed.
Lemma put_ok m off bs : 0 <= off -> off + zlen bs <= shm_len m -> put m off bs = Ok (mkShm (shm_len m) (put_bytes (shm_cells m) off bs)).
Proof. intros H0 H1. unfold put. rewrite (proj2 (Z.ltb_ge _ _)), (proj2 (Z.ltb_ge _ _)) by lia. done. Qed.
Lemma read_put_same m off bs m' : put m off bs = Ok m' -> read m' off (length bs) = bs.
Proof.
  unfold put. destruct (_ || _); [done|]. intros [= <-]. apply list_eq. intros k. destruct (decide (k < length bs)%nat) as [Hk|Hk].
  - rewrite read_lookup by done. destruct (lookup_lt_is_Some_2 _ _ Hk) as [b Hb]. simpl. rewrite Hb. f_equal. by apply put_bytes_in.
  - rewrite !lookup_ge_None_2; [done|lia|]. rewrite shm_read_length. lia.
Qed.
Lemma read_put_ne m off bs m' a n : put m off bs = Ok m' -> a + Z.of_nat n <= off \/ off + zlen bs <= a -> read m' a n = read m a n.
Proof.
  unfold put. destruct (_ || _); [done|]. intros [= <-] H. unfold read. apply list_fmap_ext. intros k i Hk. simpl.
  apply lookup_seq in Hk as [-> Hk]. rewrite put_bytes_out; [done|lia].
Qed.
Lemma put_len m off bs m' : put m off bs = Ok m' -> shm_len m' = shm_len m.
Proof. unfold put. destruct (_ || _); [done|]. by intros [= <-]. Qed.

(** ** Lists of stores *)
Definition within (lo hi : Z) (ws : list (Z * list byte)) : Prop := Forall (fun w => lo <= w.1 /\ w.1 + zlen w.2 <= hi) ws.
Definition apart (v w : Z * list byte) : Prop := v.1 + zlen v.2 <= w.1 \/ w.1 + zlen w.2 <= v.1.
Definition stored (m : Shm) (base : Z) (ws : list (Z * list byte)) : Prop := Forall (fun w => read m (base + w.1) (length w.2) = w.2) ws.

Lemma puts_ok m base lo hi ws : within lo hi ws -> 0 <= base + lo -> base + hi <= shm_len m -> exists m', puts m base ws = Ok m' /\ shm_len m' = shm_len m.
Proof.
  revert m. induction ws as [|[o bs] ws IH]; intros m Hw H0 H1; [by exists m|]. apply Forall_cons in Hw as [[Hl Hh] Hw]. simpl in *.
  rewrite put_ok by lia. simpl. destruct (IH (mkShm (shm_len m) (put_bytes (shm_cells m) (base + o) bs)) Hw H0 H1) as (m' & E & L).
  by exists m'.
Qed.
Lemma puts_frame m base lo hi ws m' a n :
  puts m base ws = Ok m' -> within lo hi ws -> a + Z.of_nat n <= base + lo \/ base + hi <= a -> read m' a n = read m a n.
Proof.
  revert m. induction ws as [|[o bs] ws IH]; intros m; simpl; [by intros [= ->]|]. intros H Hw Ha. bind_inv H.
  apply Forall_cons in Hw as [[Hl Hh] Hw]. simpl in *. rewrite (IH a0) by done. eapply read_put_ne; [done|]. lia.
Qed.
Lemma puts_stored m base ws m' : puts m base ws = Ok m' -> ForallOrdPairs apart ws -> stored m' base ws.
Proof.
  revert m. induction ws as [|[o bs] ws IH]; intros m; simpl; [intros _ _; constructor|]. intros H Hd. bind_inv H.
  inversion Hd as [|? ? Ha Hd']; subst. constructor; [|by eapply IH]. simpl.
  rewrite <-(read_put_same _ _ _ _ E) at 2. clear -H Ha. revert a H. induction ws as [|[o' bs'] ws IH]; intros a; simpl; [by intros [= ->]|].
  intros H. bind_inv H. apply Forall_cons in Ha as [Ha1 Ha]. rewrite (IH Ha a0 H). eapply read_put_ne; [done|]. unfold apart in Ha1. simpl in *. lia.
Qed.
Lemma stored_frame m m' base lo hi ws :
  within lo hi ws -> (forall a n, base + lo <= a -> a + Z.of_nat n <= base + hi -> read m' a n = read m a n) -> stored m base ws -> stored m' base ws.
Proof.
  intros Hw Hf Hs. unfold stored, within in *. rewrite Forall_forall in *. intros [o bs] Hin. specialize (Hw _ Hin). specialize (Hs _ Hin). simpl in *.
  rewrite Hf by lia. done.
Qed.

(** * One table *)
Lemma putFixed_length n s : length (putFixed n s) = n.
Proof. unfold putFixed. rewrite length_app, length_take, length_replicate. lia. Qed.
Lemma le_bytes_length n v : length (le_bytes n v) = n.
Proof. unfold le_bytes. by rewrite length_map, length_seq. Qed.
Lemma slots_from_Some k l c i : NoDup l -> slots_from k l !! c = Some i <-> (k <= i)%nat /\ l !! (i - k)%nat = Some c.
Proof.
  revert k i. induction l as [|d l IH]; intros k i Hnd; simpl.
  - split; [by rewrite lookup_empty|]. by intros [_ ?].
  - apply NoDup_cons in Hnd as [Hd Hnd]. rewrite lookup_insert_Some, (IH (S k) i Hnd). split.
    + intros [[-> ->]|(Hne & Hi & Hl)]; [split; [lia|by replace (i - i)%nat with 0%nat by lia]|]. split; [lia|].
      by replace (i - k)%nat with (S (i - S k)) by lia.
    + intros [Hi Hl]. destruct (i - k)%nat as [|j] eqn:Ej; simpl in Hl; [injection Hl as ->; left; split; [done|lia]|]. right.
      split; [intros ->; apply Hd; by eapply list_elem_of_lookup_2|]. split; [lia|]. by replace (i - S k)%nat with j by lia.
Qed.

Record geometry (t : Table) (off wid : Z) : Prop := mkGeometry {
  geo_base : 40 <= tb_base t; geo_name : 12 <= tb_name t; geo_off : tb_name t + Z.of_nat (tb_nameLen t) <= off; geo_wid : 0 <= wid;
  geo_stride : off + wid <= tb_stride t; geo_size : tb_base t + Z.of_nat (tb_max t) * tb_stride t <= tb_size t }.

Section table.
Context (t : Table) (off wid : Z) (G : geometry t off wid).
Lemma entry_apart i j : (i < j)%nat -> entryOff t i + tb_stride t <= entryOff t j.
Proof. intros Hij. unfold entryOff. destruct G. nia. Qed.
Lemma entry_bounds i : (i < tb_max t)%nat -> tb_base t <= entryOff t i /\ entryOff t i + tb_stride t <= tb_size t.
Proof. intros Hi. unfold entryOff. destruct G. nia. Qed.

Definition directory (m : Shm) (L : list string) : Prop := forall i c, L !! i = Some c -> read m (entryOff t i) 12 = putFixed 12 c.
(** Two contents agree on the data areas of the entries. *)
Definition same_data (m m' : Shm) : Prop :=
  forall i a n, (i < tb_max t)%nat -> entryOff t i + off <= a -> a + Z.of_nat n <= entryOff t i + tb_stride t -> read m' a n = read m a n.

Lemma write_codes_ok m codes k l :
  (k + length l <= tb_max t)%nat -> tb_size t <= shm_len m ->
  exists m', write_codes t m codes k l = Ok m' /\ shm_len m' = shm_len m /\ same_data m m' /\
    (forall a n, a + Z.of_nat n <= entryOff t k -> read m' a n = read m a n) /\
    (forall i c, l !! i = Some c -> read m' (entryOff t (k + i)) 12 = putFixed 12 c).
Proof.
  revert m k. induction l as [|c l IH]; intros m k Hk Hm; simpl in *; [by exists m|].
  destruct (entry_bounds k ltac:(lia)) as [B1 B2]. pose proof G as [G1 G2 G3 G4 G5 G6].
  destruct (put m (entryOff t k) (putFixed stdCdLen c)) as [m1| |] eqn:E1; [|rewrite put_ok in E1 by (rewrite ?putFixed_length; unfold stdCdLen; lia); done..].
  pose proof (put_len _ _ _ _ E1) as L1. simpl.
  set (nm := putFixed (tb_nameLen t) _). assert (length nm = tb_nameLen t) as Ln by apply putFixed_length.
  destruct (put m1 (entryOff t k + tb_name t) nm) as [m2| |] eqn:E2; [|rewrite put_ok in E2 by lia; done..]. simpl.
  pose proof (put_len _ _ _ _ E2) as L2. destruct (IH m2 (S k) ltac:(lia) ltac:(lia)) as (m' & E & L & D & F & C). exists m'.
  pose proof (entry_apart k (S k) ltac:(lia)) as Ek. pose proof (putFixed_length stdCdLen c) as Lc. unfold stdCdLen in *.
  assert (forall a n, a + Z.of_nat n <= entryOff t k \/ entryOff t k + off <= a -> read m2 a n = read m a n) as Fk.
  { intros a n Ha. rewrite (read_put_ne _ _ _ _ a n E2) by lia. apply (read_put_ne _ _ _ _ a n E1). lia. }
  split; [done|]. split; [lia|]. split; [|split].
  - intros i a n Hi Ha Hn. rewrite (D i) by done. apply Fk. destruct (Nat.lt_trichotomy i k) as [?|[->|?]]; [|by right|].
    + left. pose proof (entry_apart i k ltac:(lia)). lia.
    + right. pose proof (entry_apart k i ltac:(lia)). lia.
  - intros a n Ha. rewrite F by lia. apply Fk. by left.
  - intros [|i] d Hd; simpl in Hd.
    + injection Hd as <-. rewrite Nat.add_0_r, F by lia. rewrite (read_put_ne _ _ _ _ _ _ E2) by lia.
      pose proof (read_put_same _ _ _ _ E1) as Rs. by rewrite Lc in Rs.
    + replace (k + S i)%nat with (S k + i)%nat by lia. by apply C.
Qed.

Lemma Layout_ok w codes :
  tb_size t <= shm_len (w_buf w) ->
  if (tb_max t <? length (code_list codes))%nat then Layout t w codes = Err ErrTooMany
  else exists m', Layout t w codes = Ok (mkWriter m' (slots_from 0 (code_list codes))) /\ shm_len m' = shm_len (w_buf w) /\
    same_data (w_buf w) m' /\ directory m' (code_list codes) /\ read m' offUseN 4 = putU32 (zlen (code_list codes)).
Proof.
  intros Hm. unfold Layout. destruct (Nat.ltb_spec (tb_max t) (length (code_list codes))) as [Hl|Hl]; [done|].
  destruct (write_codes_ok (w_buf w) codes 0 (code_list codes) ltac:(lia) Hm) as (m0 & E0 & L0 & D0 & _ & C0). rewrite E0. simpl.
  pose proof G as [G1 G2 G3 G4 G5 G6].
  assert (forall i, tb_base t <= entryOff t i) as He by (intros i; unfold entryOff; nia).
  assert (40 <= tb_size t) as Hs by nia. unfold offMaxN, offUseN, putU32.
  destruct (put m0 32 _) as [m1| |] eqn:E1; [|rewrite put_ok in E1 by (rewrite ?le_bytes_length; lia); done..]. pose proof (put_len _ _ _ _ E1) as L1. simpl.
  destruct (put m1 36 _) as [m2| |] eqn:E2; [|rewrite put_ok in E2 by (rewrite ?le_bytes_length; lia); done..]. pose proof (put_len _ _ _ _ E2) as L2. simpl.
  assert (forall i a n, entryOff t i <= a -> read m2 a n = read m0 a n) as F.
  { intros i a n Ha. specialize (He i). rewrite (read_put_ne _ _ _ _ a n E2) by (right; rewrite le_bytes_length; lia).
    apply (read_put_ne _ _ _ _ a n E1). right. rewrite le_bytes_length. lia. }
  exists m2. split; [done|]. split; [lia|]. split; [|split].
  - intros i a n Hi Ha Hn. rewrite (F i) by lia. by apply (D0 i).
  - intros i c Hc. rewrite (F i) by lia. by apply (C0 i).
  - pose proof (read_put_same _ _ _ _ E2) as Rs. by rewrite le_bytes_length in Rs.
Qed.
End table.

(** * One market *)
Section market.
Context {M Q : Type} (t : Table) (off wid : Z) (G : geometry t off wid) (name : M -> string) (qcode : Q -> string)
  (writes : Q -> list (Z * list byte)) (Hw : forall q, within 0 wid (writes q)) (Hd : forall q, ForallOrdPairs apart (writes q)).
Context (iter : gmap string Q -> list (string * Q)) (Hiter : forall m, iter m ≡ₚ map_to_list m).
#[local] Abbreviation update := (fun w q => poke t w (qcode q) off (writes q)).

(** The table shows the directory [L] and the quotes [P]. *)
Record shows (L : list string) (P : string -> Q -> Prop) (w : Writer) : Prop := mkShows {
  sh_len : tb_size t <= shm_len (w_buf w);
  sh_slot : w_slot w = slots_from 0 L;
  sh_dir : directory t (w_buf w) L;
  sh_useN : L <> [] -> read (w_buf w) offUseN 4 = putU32 (zlen L);
  sh_data : forall i c q, L !! i = Some c -> P c q -> stored (w_buf w) (entryOff t i + off) (writes q) }.

Context (L : list string) (HL : NoDup L) (Hmax : (length L <= tb_max t)%nat).
Lemma poke_ok w code boff bwid ws P i :
  shows L P w -> L !! i = Some code -> within 0 bwid ws -> off <= boff -> 0 <= bwid -> boff + bwid <= tb_stride t ->
  exists m', poke t w code boff ws = Ok (mkWriter m' (w_slot w)) /\ shm_len m' = shm_len (w_buf w) /\
    (forall a n, a + Z.of_nat n <= entryOff t i + boff \/ entryOff t i + boff + bwid <= a -> read m' a n = read (w_buf w) a n) /\
    (ForallOrdPairs apart ws -> stored m' (entryOff t i + boff) ws).
Proof.
  intros S Hi Hws Hb H0 Hs. unfold poke. rewrite (sh_slot _ _ _ S).
  rewrite (proj2 (slots_from_Some 0 L code i HL)) by (split; [lia|by rewrite Nat.sub_0_r]).
  assert (i < tb_max t)%nat as Hlt by (apply lookup_lt_Some in Hi; lia). destruct (entry_bounds t off wid G i Hlt) as [B1 B2].
  pose proof (sh_len _ _ _ S). destruct G as [G1 G2 G3 G4 G5 G6].
  destruct (puts_ok (w_buf w) (entryOff t i + boff) 0 bwid ws Hws) as (m' & E & El); [lia..|]. rewrite E. simpl. exists m'.
  split; [done|]. split; [done|]. split; [|by apply (puts_stored _ _ _ _ E)].
  intros a n Ha. eapply puts_frame; [done|done|]. lia.
Qed.

(** A store in the data area of an entry leaves the directory and the other entries. *)
Lemma shows_poke w m' i boff bwid P P' :
  shows L P w -> (i < length L)%nat -> off <= boff -> 0 <= bwid -> boff + bwid <= tb_stride t -> shm_len m' = shm_len (w_buf w) ->
  (forall a n, a + Z.of_nat n <= entryOff t i + boff \/ entryOff t i + boff + bwid <= a -> read m' a n = read (w_buf w) a n) ->
  (forall j c q, L !! j = Some c -> P' c q -> stored m' (entryOff t j + off) (writes q)) ->
  shows L P' (mkWriter m' (w_slot w)).
Proof.
  intros S Hi Hb H0 Hs El F D. pose proof G as [G1 G2 G3 G4 G5 G6]. split; simpl; [rewrite El; by apply S|by apply S| | |done].
  - intros j c Hj. rewrite F; [by apply S|]. destruct (Nat.lt_trichotomy i j) as [Hij|[->|Hij]]; [right| |left].
    + pose proof (entry_apart t off wid G i j Hij). lia.
    + left. lia.
    + pose proof (entry_apart t off wid G j i Hij). lia.
  - intros Hne. rewrite F; [by apply S|]. left. destruct (entry_bounds t off wid G i ltac:(lia)). unfold offUseN. lia.
Qed.

Lemma update_shows w P c q :
  shows L P w -> qcode q = c -> c ∈ L ->
  exists w', update w q = Ok w' /\ shows L (fun c' q' => c' = c /\ q' = q \/ c' <> c /\ P c' q') w'.
Proof.
  intros S Hq [i Hi]%list_elem_of_lookup. pose proof G as [G1 G2 G3 G4 G5 G6].
  destruct (poke_ok w c off wid (writes q) P i S Hi (Hw q)) as (m' & E & El & F & St); [lia..|]. rewrite Hq. eexists; split; [exact E|].
  eapply shows_poke; [done|by eapply lookup_lt_Some|..|exact El|exact F|]; [lia..|].
  intros j c' q' Hj [[-> ->]|[Hne HP]].
  - assert (j = i) as -> by (by eapply NoDup_lookup). by apply St.
  - assert (j <> i) as Hji by (intros ->; congruence). eapply stored_frame; [apply Hw| |by eapply S]. intros a n Ha Hn. apply F.
    destruct (Nat.lt_trichotomy i j) as [Hij|[->|Hij]]; [right| |left]; [|done|].
    + pose proof (entry_apart t off wid G i j Hij). lia.
    + pose proof (entry_apart t off wid G j i Hij). lia.
Qed.

Lemma Has_iff w P c : shows L P w -> Has w c = true <-> c ∈ L.
Proof.
  intros S. unfold Has. rewrite bool_decide_eq_true, (sh_slot _ _ _ S), list_elem_of_lookup. split.
  - intros [i Hi]. apply slots_from_Some in Hi as [_ Hi]; [|done]. by eexists.
  - intros [i Hi]. exists i. apply slots_from_Some; [done|]. split; [lia|by rewrite Nat.sub_0_r].
Qed.

Lemma update_known_shows (h : Half M Q) w P c q :
  shows L P w -> qcode q = c -> hf_w h = Some w ->
  exists w', update_known update h w c q = Ok (set_w h w') /\ shows L (fun c' q' => c' = c /\ q' = q \/ c' <> c /\ P c' q') w'.
Proof.
  intros S Hq Hh. unfold update_known. destruct (Has w c) eqn:E.
  - apply (Has_iff w P c S) in E. destruct (update_shows w P c q S Hq E) as (w' & Eu & S'). rewrite Eu. simpl. eauto.
  - exists w. split; [unfold set_w; rewrite <-Hh; by destruct h|]. destruct S as [S1 S2 S3 S4 S5]. split; try done.
    intros i c' q' Hi [[-> ->]|[_ HP]]; [|by eapply S5]. exfalso. apply list_elem_of_lookup_2 in Hi.
    apply (Has_iff w P c) in Hi; [congruence|by split].
Qed.

Lemma update_all_shows l (h : Half M Q) w P :
  shows L P w -> hf_w h = Some w -> Forall (fun x => qcode x.2 = x.1) l -> NoDup l.*1 ->
  exists w', update_all update h l = Ok (set_w h w') /\ shows L (fun c q => (c, q) ∈ l \/ c ∉ l.*1 /\ P c q) w'.
Proof.
  revert h w P. induction l as [|[c q] l IH]; intros h w P S Hh Hq Hnd; simpl.
  - exists w. split; [unfold set_w; rewrite <-Hh; by destruct h|]. destruct S as [S1 S2 S3 S4 S5]. split; try done.
    intros i c q Hi [?%not_elem_of_nil|[_ HP]]; [done|by eapply S5].
  - apply Forall_cons in Hq as [Hq1 Hq]. simpl in Hnd. apply NoDup_cons in Hnd as [Hc Hnd]. rewrite Hh.
    destruct (update_known_shows h w P c q S Hq1 Hh) as (w1 & E1 & S1). rewrite E1. simpl.
    destruct (IH (set_w h w1) w1 _ S1 eq_refl Hq Hnd) as (w' & E' & S'). rewrite E'. exists w'. split; [done|].
    destruct S' as [A1 A2 A3 A4 A5]. split; try done. intros i c' q' Hi HP. eapply A5; [done|].
    rewrite elem_of_cons, not_elem_of_cons in HP. destruct HP as [[[= -> ->]|Hin]|[[Hne Hout] HP]]; [|by left|].
    + right. split; [done|]. by left.
    + right. split; [done|]. by right.
Qed.
End market.

Section market_inv.
Context {M Q : Type} (t : Table) (off wid : Z) (G : geometry t off wid) (name : M -> string) (qcode : Q -> string)
  (writes : Q -> list (Z * list byte)) (Hw : forall q, within 0 wid (writes q)) (Hd : forall q, ForallOrdPairs apart (writes q)).
Context (iter : gmap string Q -> list (string * Q)) (Hiter : forall m, iter m ≡ₚ map_to_list m).
#[local] Abbreviation update := (fun w q => poke t w (qcode q) off (writes q)).
#[local] Abbreviation shows := (shows t off writes).

(** Between messages. [P] are the quotes the table is known to show. *)
Record market_inv (P : string -> Q -> Prop) (h : Half M Q) (w : Writer) (L : list string) : Prop := mkMarket {
  mk_w : hf_w h = Some w; mk_nodup : NoDup L; mk_sorted : StronglySorted String.le L; mk_max : (length L <= tb_max t)%nat;
  mk_laid : hf_laid h = length L; mk_known : forall c, c ∈ L -> is_Some (hf_masters h !! c);
  mk_codes : forall c q, hf_quotes h !! c = Some q -> qcode q = c;
  mk_shows : shows L (fun c q => (size (hf_masters h) <= tb_max t)%nat /\ P c q) w }.
Definition at_rest (h : Half M Q) (w : Writer) (L : list string) : Prop :=
  market_inv (fun c q => hf_quotes h !! c = Some q) h w L /\ ((size (hf_masters h) <= tb_max t)%nat -> L = code_list (name <$> hf_masters h)).

Lemma code_list_perm (codes : gmap string string) : code_list codes ≡ₚ (map_to_list codes).*1.
Proof. apply sort_Strings_perm. Qed.
Lemma code_list_length (codes : gmap string string) : length (code_list codes) = size codes.
Proof. by rewrite code_list_perm, length_fmap, length_map_to_list. Qed.
Lemma code_list_NoDup (codes : gmap string string) : NoDup (code_list codes).
Proof. rewrite code_list_perm. apply NoDup_fst_map_to_list. Qed.
Lemma elem_of_code_list (codes : gmap string string) c : c ∈ code_list codes <-> is_Some (codes !! c).
Proof.
  rewrite code_list_perm, list_elem_of_fmap. split.
  - intros ([c' s] & -> & H%elem_of_map_to_list). by exists s.
  - intros [s Hs]. exists (c, s). split; [done|]. by apply elem_of_map_to_list.
Qed.
Lemma code_list_unique (masters : gmap string M) L :
  NoDup L -> StronglySorted String.le L -> (forall c, c ∈ L -> is_Some (masters !! c)) -> length L = size masters -> L = code_list (name <$> masters).
Proof.
  intros Hnd Hs Hk Hl. apply sorted_strings_unique; [done|apply sort_Strings_sorted|].
  apply submseteq_length_Permutation.
  - apply NoDup_submseteq; [done|]. intros c Hc. apply elem_of_code_list. rewrite lookup_fmap. destruct (Hk c Hc) as [m ->]. by eexists.
  - by rewrite code_list_length, map_size_fmap, Hl.
Qed.

Lemma shows_weaken L P P' w : shows L P w -> (forall c q, P' c q -> P c q) -> shows L P' w.
Proof. intros [S1 S2 S3 S4 S5] H. split; try done. intros i c q Hi HP. eapply S5; [done|]. by apply H. Qed.

(** The synchronisation after a master or a quote of [code] was stored. *)
Lemma sync_rest P h w L code :
  market_inv P h w L -> (forall c q, hf_quotes h !! c = Some q -> c <> code -> P c q) ->
  exists h' w' L', sync t name update iter h code = Ok h' /\ at_rest h' w' L' /\ hf_masters h' = hf_masters h /\ hf_quotes h' = hf_quotes h.
Proof.
  intros [Ew Hnd Hs Hm Hl Hk Hc S] HP. unfold sync. rewrite Ew. destruct (Nat.eqb_spec (size (hf_masters h)) (hf_laid h)) as [E|E]; simpl.
  - assert (L = code_list (name <$> hf_masters h)) as EL by (apply code_list_unique; [done..|congruence]).
    assert ((size (hf_masters h) <= tb_max t)%nat) as Hsz by lia.
    destruct (hf_quotes h !! code) as [q|] eqn:Eq.
    + destruct (update_known_shows t off wid G qcode writes Hw Hd L Hnd Hm h w _ code q S (Hc _ _ Eq) Ew) as (w' & Eu & S').
      exists (set_w h w'), w', L. split; [done|]. split; [|done]. split; [split; try done|done]. simpl.
      eapply shows_weaken; [exact S'|]. intros c q' [_ Hq']. destruct (decide (c = code)) as [->|Hne]; [left; split; congruence|].
      right. split; [done|]. split; [done|]. by apply HP.
    + exists h, w, L. split; [done|]. split; [|done]. split; [|done]. split; try done. eapply shows_weaken; [exact S|].
      intros c q' [_ Hq']. split; [done|]. apply HP; [done|]. intros ->. congruence.
  - pose proof (Layout_ok t off wid G w (name <$> hf_masters h) (sh_len _ _ _ _ _ _ S)) as Hly.
    rewrite code_list_length, map_size_fmap in Hly. destruct (Nat.ltb_spec (tb_max t) (size (hf_masters h))) as [Hbig|Hsz].
    { rewrite Hly. exists h, w, L. split; [done|]. split; [|done]. split; [|lia]. split; try done. eapply shows_weaken; [exact S|].
      intros c q [? _]. lia. }
    destruct Hly as (m' & Ely & El & _ & Dir & Us). rewrite Ely. set (L' := code_list (name <$> hf_masters h)) in *.
    set (w1 := mkWriter m' (slots_from 0 L')) in *. set (h1 := set_laid (set_w h w1) (size (hf_masters h))).
    assert (length L' = size (hf_masters h)) as EL' by (unfold L'; by rewrite code_list_length, map_size_fmap).
    assert (shows L' (fun _ _ => False) w1) as S1.
    { split; simpl; [rewrite El; apply S|done|done| |done]. intros _. by rewrite Us, <-EL'. }
    destruct (update_all_shows t off wid G qcode writes Hw Hd L' (code_list_NoDup _) ltac:(lia) (iter (hf_quotes h)) h1 w1 _ S1 eq_refl) as (w' & Eu & S').
    + apply Forall_forall. intros [c q] Hin. rewrite Hiter in Hin. apply elem_of_map_to_list in Hin. by apply Hc.
    + rewrite Hiter. apply NoDup_fst_map_to_list.
    + exists (set_w h1 w'), w', L'. split; [done|]. split; [|done]. split; [|done]. split; simpl; [done|apply code_list_NoDup|apply sort_Strings_sorted|lia|lia| |done|].
      * intros c Hin%elem_of_code_list. rewrite lookup_fmap in Hin. destruct Hin as [s Hin]. by destruct (hf_masters h !! c); eauto.
      * eapply shows_weaken; [exact S'|]. intros c q [_ Hq]. left. rewrite Hiter. by apply elem_of_map_to_list.
Qed.

Lemma put_book_rest {B} h w L code boff bwid (write : Writer -> B -> res ShmErr Writer) (b : B) ws :
  at_rest h w L -> (forall w, write w b = poke t w code boff ws) -> within 0 bwid ws -> off + wid <= boff -> 0 <= bwid -> boff + bwid <= tb_stride t ->
  exists h' w', put_book h code write b = Ok h' /\ at_rest h' w' L /\ hf_masters h' = hf_masters h /\ hf_quotes h' = hf_quotes h.
Proof.
  intros [[Ew Hnd Hs Hm Hl Hk Hc S] HL] Eb Hws Hoff H0 Hst. pose proof G as [G1 G2 G3 G4 G5 G6]. unfold put_book. rewrite Ew.
  destruct (Has w code) eqn:E; [|exists h, w; split; [done|]; split; [split; [by split|done]|done]].
  apply (Has_iff t off writes L Hnd Hm w _ code S) in E as [i Hi]%list_elem_of_lookup.
  destruct (poke_ok t off wid G writes L Hnd Hm w code boff bwid ws _ i S Hi Hws) as (m' & Ep & El & F & _); [lia..|].
  rewrite Eb, Ep. simpl. exists (set_w h (mkWriter m' (w_slot w))), (mkWriter m' (w_slot w)). split; [done|]. split; [|done].
  split; [|done]. split; try done. pose proof (lookup_lt_Some _ _ _ Hi) as Hlt.
  eapply shows_poke; [exact G|try exact Hm..|exact El|exact F|]; try eassumption; try lia.
  intros j c q Hj HP. eapply stored_frame; [apply Hw| |by eapply S]. intros a n Ha Hn. apply F.
  destruct (Nat.lt_trichotomy i j) as [Hij|[->|Hij]]; [right|left; lia|left].
  - pose proof (entry_apart t off wid G i j Hij). lia.
  - pose proof (entry_apart t off wid G j i Hij). lia.
Qed.

Lemma put_master_inv h w L code m : at_rest h w L -> market_inv (fun c q => hf_quotes h !! c = Some q) (put_master h code m) w L.
Proof.
  intros [[Ew Hnd Hs Hm Hl Hk Hc S] _]. split; simpl; try done.
  - intros c Hin. destruct (decide (c = code)) as [->|]; [rewrite lookup_insert_eq; eauto|]. rewrite lookup_insert_ne by done. by apply Hk.
  - eapply shows_weaken; [exact S|]. intros c q [Hz Hq]. split; [|done]. etrans; [|exact Hz].
    rewrite map_size_insert. case_match; simpl; lia.
Qed.
Lemma put_quote_inv h w L code q :
  at_rest h w L -> qcode q = code -> market_inv (fun c q' => c <> code /\ hf_quotes h !! c = Some q') (put_quote h code q) w L.
Proof.
  intros [[Ew Hnd Hs Hm Hl Hk Hc S] _] Hq. split; simpl; try done.
  - intros c q' Hl'. apply lookup_insert_Some in Hl' as [[-> ->]|[_ ?]]; [done|by apply Hc].
  - eapply shows_weaken; [exact S|]. intros c q' (Hz & _ & Hq'). done.
Qed.
Lemma sync_master h w L code m :
  at_rest h w L -> exists h' w' L', sync t name update iter (put_master h code m) code = Ok h' /\ at_rest h' w' L'.
Proof.
  intros H. destruct (sync_rest _ (put_master h code m) w L code (put_master_inv h w L code m H)) as (h' & w' & L' & E & R & _); [done|].
  by exists h', w', L'.
Qed.
Lemma sync_quote h w L code q :
  at_rest h w L -> qcode q = code -> exists h' w' L', sync t name update iter (put_quote h code q) code = Ok h' /\ at_rest h' w' L'.
Proof.
  intros H Hq. destruct (sync_rest _ (put_quote h code q) w L code (put_quote_inv h w L code q H Hq)) as (h' & w' & L' & E & R & _).
  - intros c q' Hl Hne. simpl in Hl. rewrite lookup_insert_ne in Hl by done. done.
  - by exists h', w', L'.
Qed.
Lemma at_rest_new w : tb_size t <= shm_len (w_buf w) -> w_slot w = ∅ -> at_rest (mkHalf (Some w) ∅ ∅ 0) w [].
Proof.
  intros Hs Hsl. split; [split; simpl; [done|apply NoDup_nil_2|constructor|lia|done| |done|by split]|].
  - intros c Hc. by apply not_elem_of_nil in Hc.
  - intros _. simpl. rewrite fmap_empty. by vm_compute.
Qed.
End market_inv.

(** * The two tables *)
Lemma fut_geometry : geometry mfsise offFsise 106.
Proof. split; vm_compute; discriminate. Qed.
Lemma bond_geometry : geometry mbsise bOffBsise 125.
Proof. split; vm_compute; discriminate. Qed.
Lemma putByte_length s : length (putByte s) = 1%nat.
Proof. by destruct s. Qed.
Ltac write_lengths := unfold putF64, putU64, KrxShm.putU32; simpl; rewrite ?le_bytes_length, ?putFixed_length, ?putByte_length; simpl; try lia.
Lemma quote_writes_within q : within 0 106 (quote_writes q).
Proof. unfold within, quote_writes. repeat constructor; write_lengths. Qed.
Lemma quote_writes_apart q : ForallOrdPairs apart (quote_writes q).
Proof. unfold quote_writes. repeat first [apply FOP_nil | apply FOP_cons | apply List.Forall_nil | apply List.Forall_cons]; unfold apart; write_lengths. Qed.
Lemma bond_writes_within q : within 0 125 (bond_writes q).
Proof. unfold within, bond_writes. repeat constructor; write_lengths. Qed.
Lemma bond_writes_apart q : ForallOrdPairs apart (bond_writes q).
Proof. unfold bond_writes. repeat first [apply FOP_nil | apply FOP_cons | apply List.Forall_nil | apply List.Forall_cons]; unfold apart; write_lengths. Qed.
Lemma row_writes_within {A} (f : Z -> A -> list (Z * list byte)) ask bid j :
  (j < 5)%nat -> (forall o l, within o (o + 24) (f o l)) -> within 0 304 (row_writes f ask bid j).
Proof.
  intros Hj Hf. unfold within, row_writes in *. apply Forall_app. split.
  - destruct (ask !! j) as [l|]; [|constructor]. eapply Forall_impl; [apply Hf|]. simpl. intros [o bs]. simpl. lia.
  - destruct (bid !! j) as [l|]; [|constructor]. eapply Forall_impl; [apply Hf|]. simpl. intros [o bs]. simpl. lia.
Qed.
Lemma rows_within {A} (f : Z -> A -> list (Z * list byte)) ask bid :
  (forall o l, within o (o + 24) (f o l)) -> within 0 304 (flat_map (row_writes f ask bid) (seq 0 NHoga)).
Proof.
  intros Hf. unfold NHoga. simpl. unfold within. rewrite app_nil_r. rewrite !Forall_app. split_and!; apply row_writes_within; try done; lia.
Qed.
Lemma book_writes_within b : within 0 304 (book_writes b).
Proof.
  unfold book_writes. apply Forall_app. split; [unfold within; repeat constructor; write_lengths|]. apply rows_within.
  intros o l. unfold within, level_writes. repeat constructor; write_lengths.
Qed.
Lemma bbook_writes_within b : within 0 304 (bbook_writes b).
Proof.
  unfold bbook_writes. apply Forall_app. split; [unfold within; repeat constructor; write_lengths|]. apply rows_within.
  intros o l. unfold within, blevel_writes. repeat constructor; write_lengths.
Qed.

(** * The hub *)
Section feed.
Context (iter : gmap string Quote -> list (string * Quote)) (Hiter : forall m, iter m ≡ₚ map_to_list m).
Context (biter : gmap string BondQuote -> list (string * BondQuote)) (Hbiter : forall m, biter m ≡ₚ map_to_list m).
#[local] Abbreviation fut_rest := (at_rest mfsise offFsise m_short q_Code quote_writes).
#[local] Abbreviation bond_rest := (at_rest mbsise bOffBsise m_name bq_Code bond_writes).
Definition hub_rest (h : Hub) : Prop := (exists w L, fut_rest (h_fut h) w L) /\ (exists w L, bond_rest (h_bond h) w L).

Lemma buildFutQuote_code masters settle ft : q_Code (buildFutQuote masters settle ft) = ft_Code ft.
Proof.
  unfold buildFutQuote. destruct (settle !! ft_Code ft), (masters !! ft_Code ft); simpl; try done; by destruct (PriceDiff _ _) as [[? ?] ?].
Qed.
Lemma buildBondQuote_code masters bt : bq_Code (buildBondQuote masters bt) = bt_Code bt.
Proof. unfold buildBondQuote. destruct (masters !! bt_Code bt); [|done]. by destruct (PriceDiff _ _) as [[? ?] ?]. Qed.

Lemma fut_master_rest h w L code m :
  fut_rest h w L -> exists h' w' L', sync mfsise m_short Update iter (put_master h code m) code = Ok h' /\ fut_rest h' w' L'.
Proof. apply (sync_master mfsise offFsise 106 fut_geometry m_short q_Code quote_writes quote_writes_within quote_writes_apart iter Hiter). Qed.
Lemma fut_quote_rest h w L code q :
  fut_rest h w L -> q_Code q = code -> exists h' w' L', sync mfsise m_short Update iter (put_quote h code q) code = Ok h' /\ fut_rest h' w' L'.
Proof. apply (sync_quote mfsise offFsise 106 fut_geometry m_short q_Code quote_writes quote_writes_within quote_writes_apart iter Hiter). Qed.
Lemma bond_master_rest h w L code m :
  bond_rest h w L -> exists h' w' L', sync mbsise m_name UpdateTrade biter (put_master h code m) code = Ok h' /\ bond_rest h' w' L'.
Proof. apply (sync_master mbsise bOffBsise 125 bond_geometry m_name bq_Code bond_writes bond_writes_within bond_writes_apart biter Hbiter). Qed.
Lemma bond_quote_rest h w L code q :
  bond_rest h w L -> bq_Code q = code -> exists h' w' L', sync mbsise m_name UpdateTrade biter (put_quote h code q) code = Ok h' /\ bond_rest h' w' L'.
Proof. apply (sync_quote mbsise bOffBsise 125 bond_geometry m_name bq_Code bond_writes bond_writes_within bond_writes_apart biter Hbiter). Qed.

Lemma apply_msg_rest h m : hub_rest h -> exists h' c, apply_msg iter biter h m = Ok (h', c) /\ hub_rest h'.
Proof.
  intros [(w & L & F) (bw & BL & B)]. destruct m as [m|m|s|k|m|m|k]; cbn [apply_msg].
  - destruct (fut_master_rest _ w L (fm_Code m) (mkMrec (fm_ShortCode m) (fm_BasePrc m) (fm_PrevClose m)) F) as (f & w' & L' & E & R).
    unfold sync_fut. rewrite E. simpl. do 2 eexists. split; [done|]. split; simpl; eauto.
  - destruct (fut_quote_rest _ w L (ft_Code m) _ F (buildFutQuote_code (hf_masters (h_fut h)) (h_settle h) m)) as (f & w' & L' & E & R).
    unfold sync_fut. rewrite E. simpl. do 2 eexists. split; [done|]. split; simpl; eauto.
  - simpl. destruct (hf_quotes (h_fut h) !! fs_Code s) as [q|] eqn:Eq; [|do 2 eexists; split; [done|]; split; simpl; eauto].
    assert (q_Code (settled s q) = fs_Code s) as Hc by exact (mk_codes _ _ _ _ _ _ _ _ (proj1 F) _ _ Eq).
    destruct (fut_quote_rest _ w L (fs_Code s) (settled s q) F Hc) as (f & w' & L' & E & R).
    unfold sync_fut. rewrite E. simpl. do 2 eexists. split; [done|]. split; simpl; eauto.
  - destruct (put_book_rest mfsise offFsise 106 fut_geometry m_short q_Code quote_writes quote_writes_within _ w L (fb_Code k) offFhoga 304
                UpdateBook (futBook k) (book_writes (futBook k)) F) as (f & w' & E & R & _);
      [intros ?; reflexivity|apply book_writes_within|vm_compute; discriminate|lia|vm_compute; discriminate|].
    rewrite E. simpl. do 2 eexists. split; [done|]. split; simpl; eauto.
  - destruct (bond_master_rest _ bw BL (bm_Code m) (mkBmrec (bm_Name m) (bm_BasePrc m)) B) as (f & w' & L' & E & R).
    unfold sync_bond. rewrite E. simpl. do 2 eexists. split; [done|]. split; simpl; eauto.
  - destruct (bond_quote_rest _ bw BL (bt_Code m) _ B (buildBondQuote_code (hf_masters (h_bond h)) m)) as (f & w' & L' & E & R).
    unfold sync_bond. rewrite E. simpl. do 2 eexists. split; [done|]. split; simpl; eauto.
  - destruct (put_book_rest mbsise bOffBsise 125 bond_geometry m_name bq_Code bond_writes bond_writes_within _ bw BL (bb_Code k) bOffBhoga 304
                UpdateBondBook (bondBook k) (bbook_writes (bondBook k)) B) as (f & w' & E & R & _);
      [intros ?; reflexivity|apply bbook_writes_within|vm_compute; discriminate|lia|vm_compute; discriminate|].
    rewrite E. simpl. do 2 eexists. split; [done|]. split; simpl; eauto.
Qed.

Lemma decode_msg_safe b : decode_msg b <> Some Panic.
Proof.
  unfold decode_msg. cbv zeta. repeat (case_if; [injection 1; apply no_panic_bind; [|done]|]); [..|done].
  - apply DecodeA006F_safe.
  - apply DecodeA306F_safe.
  - apply DecodeH306F_safe.
  - apply DecodeB606F_safe.
  - apply DecodeA001B_safe.
  - apply DecodeA301K_safe.
  - apply DecodeB601K_safe.
Qed.
Lemma Ingest_rest h b : hub_rest h -> exists h' x, Ingest iter biter h b = Ok (h', x) /\ hub_rest h'.
Proof.
  intros H. unfold Ingest. case_if; [eauto|]. pose proof (decode_msg_safe b) as Hs. destruct (decode_msg b) as [[m|e|]|]; [|eauto|done|eauto].
  destruct (apply_msg_rest h m H) as (h' & c & E' & R). rewrite E'. simpl. eauto.
Qed.
Lemma ingest_all_rest h bs : hub_rest h -> exists h', ingest_all iter biter h bs = Ok h' /\ hub_rest h'.
Proof.
  revert h. induction bs as [|b bs IH]; intros h H; [by exists h|]. destruct (Ingest_rest h b H) as (h1 & x & E & R). simpl. rewrite E. simpl. by apply IH.
Qed.

(** What a reader of a table finds: while the announced instruments fit, a sorted
    directory of exactly them, and the quote of each that was traded. *)
Definition table_shows {M Q} (t : Table) (off : Z) (name : M -> string) (writes : Q -> list (Z * list byte)) (h : Half M Q) : Prop :=
  exists w, hf_w h = Some w /\
    ((0 < size (hf_masters h) <= tb_max t)%nat ->
     let L := code_list (name <$> hf_masters h) in
     NoDup L /\ StronglySorted String.le L /\ read (w_buf w) offUseN 4 = putU32 (zlen L) /\
     forall i c, L !! i = Some c ->
       read (w_buf w) (entryOff t i) 12 = putFixed 12 c /\
       forall q, hf_quotes h !! c = Some q -> Forall (fun x => read (w_buf w) (entryOff t i + off + x.1) (length x.2) = x.2) (writes q)).

Lemma at_rest_shows {M Q} t off (name : M -> string) qcode writes (h : Half M Q) w L :
  at_rest t off name qcode writes h w L -> table_shows t off name writes h.
Proof.
  intros [[Ew Hnd Hs Hm Hl Hk Hc S] HL]. exists w. split; [done|]. intros [H0 Hz]. rewrite <-(HL Hz). cbv zeta.
  split; [done|]. split; [done|]. assert (L <> []) as Hne.
  { intros ->. assert (length (code_list (name <$> hf_masters h)) = 0%nat) as E by (by rewrite <-HL). rewrite code_list_length, map_size_fmap in E. lia. }
  split; [by apply S|]. intros i c Hi. split; [by apply S|]. intros q Hq. by apply (sh_data _ _ _ _ _ _ S i c q Hi).
Qed.

End feed.

(** * A concrete feed *)
Definition blank (n : nat) (fields : list (nat * string)) : list byte :=
  fold_left (fun b f => blit f.1 (String.list_byte_of_string f.2) b) fields (replicate n x20).
Definition master_of (code : string) (base : string) : list byte := blank 1318 [(0%nat, "A006F"); (27%nat, code); (397%nat, base)].
Definition trade_of (code price : string) : list byte := blank 173 [(0%nat, "A306F"); (17%nat, code); (47%nat, price); (119%nat, "1234")].
Definition book_of (code total : string) : list byte := blank 324 [(0%nat, "B606F"); (17%nat, code); (277%nat, total)].
Definition zeros (t : Table) : Writer := mkWriter (mkShm (tb_size t) (fun _ => x00)) ∅.
#[local] Abbreviation feed_all := (ingest_all map_to_list map_to_list (New (Some (zeros mfsise)) (Some (zeros mbsise)))).

(** The bytes of a futures entry after a feed. *)
Definition fut_bytes (bs : list (list byte)) (i : nat) (off : Z) (n : nat) : option (list byte) :=
  match feed_all bs with Ok h => w ← hf_w (h_fut h); Some (read (w_buf w) (entryOff mfsise i + off) n) | _ => None end.
Example fed_entry :
  fut_bytes [master_of "101V6000" "265.50"; trade_of "101V6000" "265.75"] 0 (offFsise + 32) 8 = Some (putF64 (lit (26575 # 100))).
Proof. by vm_compute. Qed.

(** ** Defects *)
(** When a new instrument shifts the entries, the quotes are written again but the order
    books are not: the first entry now names AAA and shows the book of BBB. *)
Lemma shifted_entry_shows_other_book :
  fut_bytes [master_of "BBB" ""; book_of "BBB" "7"; master_of "AAA" ""] 0 0 3 = Some (String.list_byte_of_string "AAA") /\
  fut_bytes [master_of "BBB" ""; book_of "BBB" "7"; master_of "AAA" ""] 0 (offFhoga + 16) 8 = Some (putU64 7).
Proof. by vm_compute. Qed.
(** An instrument that was not traded yet keeps the quote of the one it displaced. *)
Lemma shifted_entry_shows_other_quote :
  fut_bytes [master_of "BBB" ""; trade_of "BBB" "265.75"; master_of "AAA" ""] 0 0 3 = Some (String.list_byte_of_string "AAA") /\
  fut_bytes [master_of "BBB" ""; trade_of "BBB" "265.75"; master_of "AAA" ""] 0 (offFsise + 32) 8 = Some (putF64 (lit (26575 # 100))).
Proof. by vm_compute. Qed.
(** One instrument too many stops the updates of all. *)
Lemma overfull_table_freezes {M Q} t name (update : Writer -> Q -> res ShmErr Writer) iter (h : Half M Q) w code :
  hf_w h = Some w -> (tb_max t < size (hf_masters h))%nat -> hf_laid h <> size (hf_masters h) -> sync t name update iter h code = Ok h.
Proof.
  intros Ew Hbig Hl. unfold sync. rewrite Ew. rewrite (proj2 (Nat.eqb_neq _ _)) by congruence. simpl. unfold Layout.
  rewrite code_list_length, map_size_fmap, (proj2 (Nat.ltb_lt _ _)) by done. done.
Qed.
(** The accumulated volume of a trade does not reach the table. *)
Lemma volume_not_shown masters settle ft : q_AccVol (buildFutQuote masters settle ft) = 0.
Proof.
  unfold buildFutQuote. destruct (settle !! ft_Code ft), (masters !! ft_Code ft); simpl; try done; by destruct (PriceDiff _ _) as [[? ?] ?].
Qed.
