(* ===== verification/KrxServer.v ===== *)
(** The exchange feed's server (src/internal/krx): the cache of masters and the fields
    it adds to trades, the subscribers and their filters, the two envelopes, the
    WebSocket and gRPC fan-out and the multicast intake. JSON is a parameter.

    The laws follow the definitions. *)

From Stdlib Require Import ZArith QArith Lia Ascii.
From S2P Require Import Prelude GoStrings Strconv Float64 Sorting Best Krx KrxShm KrxShmLaws.
Local Open Scope Z_scope.
Local Open Scope wtg_scope.

(** * Masters *)
Record MasterCache := mkCache {
  mc_fut : gmap string FutMaster; mc_bond : gmap string BondMaster; mc_settle : gmap string FutSettle; mc_bondPrev : gmap string f64 }.
Definition NewMasterCache : MasterCache := mkCache ∅ ∅ ∅ ∅.
Definition PutFut (c : MasterCache) (m : FutMaster) : MasterCache :=
  if decide (fm_Code m = "") then c else mkCache (<[fm_Code m := m]> (mc_fut c)) (mc_bond c) (mc_settle c) (mc_bondPrev c).
Definition GetFut (c : MasterCache) (code : string) : option FutMaster := mc_fut c !! code.
Definition PutBond (c : MasterCache) (m : BondMaster) : MasterCache :=
  if decide (bm_Code m = "") then c else mkCache (mc_fut c) (<[bm_Code m := m]> (mc_bond c)) (mc_settle c) (mc_bondPrev c).
Definition GetBond (c : MasterCache) (code : string) : option BondMaster := mc_bond c !! code.
Definition PutSettle (c : MasterCache) (s : FutSettle) : MasterCache :=
  if decide (fs_Code s = "") then c else mkCache (mc_fut c) (mc_bond c) (<[fs_Code s := s]> (mc_settle c)) (mc_bondPrev c).
Definition GetSettle (c : MasterCache) (code : string) : option FutSettle := mc_settle c !! code.
Definition BondPrevAndSet (c : MasterCache) (code : string) (cur : f64) : MasterCache * f64 :=
  (if f0 <f cur then mkCache (mc_fut c) (mc_bond c) (mc_settle c) (<[code := cur]> (mc_bondPrev c)) else c, default f0 (mc_bondPrev c !! code)).

Definition dirSign (diff : f64) : string := if f0 <f diff then "+" else if diff <f f0 then "-" else " ".
(** The fields of a trade that are filled in. *)
Definition set_change (ft : FutTrade) (base prevClose diff rate : f64) (sign : string) : FutTrade :=
  mkFutTrade (ft_Kind ft) (ft_Code ft) (ft_Time ft) base (ft_Open ft) (ft_High ft) (ft_Low ft) (ft_Last ft) prevClose diff rate sign
    (ft_Settle ft) (ft_FinalSettle ft) (ft_SettleCd ft) (ft_Bs ft) (ft_Tvol ft) (ft_Tamt ft) (ft_Cprc ft) (ft_Cvol ft) (ft_NearPrc ft) (ft_FarPrc ft)
    (ft_UpLimit ft) (ft_DnLimit ft) (ft_PrevTradePrc ft) (ft_Cdiff ft) (ft_Crate ft) (ft_Csign ft).
Definition enrichFutTrade (ft : FutTrade) (m : option FutMaster) : FutTrade :=
  match m with
  | None => ft
  | Some m =>
      let base := if ft_BasePrc ft ==f f0 then fm_BasePrc m else ft_BasePrc ft in
      let yPrc := if fm_PrevClose m <=f f0 then fm_BasePrc m else fm_PrevClose m in
      let ePrc := ft_Last ft in
      if (yPrc <=f f0) || (ePrc <=f f0) || (yPrc ==f ePrc) then set_change ft base (fm_PrevClose m) f0 f0 " "
      else let diff := ePrc -f yPrc in set_change ft base (fm_PrevClose m) diff (diff /f yPrc *f f_hundred) (dirSign diff)
  end.
Definition applyFutSettle (ft : FutTrade) (s : option FutSettle) : FutTrade :=
  match s with
  | None => ft
  | Some s =>
      mkFutTrade (ft_Kind ft) (ft_Code ft) (ft_Time ft) (ft_BasePrc ft) (ft_Open ft) (ft_High ft) (ft_Low ft) (ft_Last ft) (ft_PrevClose ft) (ft_Diff ft)
        (ft_Rate ft) (ft_Sign ft) (fs_Settle s) (fs_FinalSettle s) (fs_SettleCd s) (ft_Bs ft) (ft_Tvol ft) (ft_Tamt ft) (ft_Cprc ft) (ft_Cvol ft)
        (ft_NearPrc ft) (ft_FarPrc ft) (ft_UpLimit ft) (ft_DnLimit ft) (ft_PrevTradePrc ft) (ft_Cdiff ft) (ft_Crate ft) (ft_Csign ft)
  end.
Definition enrichBondTrade (bt : BondTrade) (m : option BondMaster) (prevPrc : f64) : BondTrade :=
  let '(diff, rate, sign) := PriceDiff (bt_Last bt) prevPrc in
  let '(ydiff, yrate, ysign) := match m with Some m => PriceDiff (bt_Last bt) (bm_BasePrc m) | None => (bt_YDiff bt, bt_YRate bt, bt_YSign bt) end in
  mkBondTrade (bt_Kind bt) (bt_Code bt) (bt_Time bt) (bt_Last bt) (bt_Yield bt) diff rate sign ydiff yrate ysign (bt_Open bt) (bt_High bt) (bt_Low bt)
    (bt_OYield bt) (bt_HYield bt) (bt_LYield bt) (bt_Cvol bt) (bt_Camt bt) (bt_Tvol bt) (bt_Tamt bt).

(** * Subscribers *)
Definition payload : Type := list byte.
Inductive SendErr := ErrSendQueueFull | ErrClosed.
(** [sb_wire]: what the writer has handed to the socket; [sb_writer]: it still runs. *)
Record Subscriber := mkSub {
  sb_ev : Z; sb_depth : Z; sb_q : list payload; sb_filter : option (gset string); sb_closed : bool; sb_writer : bool; sb_wire : list payload }.
Definition NewSubscriber (queueDepth ev : Z) : Subscriber := mkSub ev (if queueDepth <=? 0 then 256 else queueDepth) [] None false true [].
Definition set_filter (s : Subscriber) (f : option (gset string)) : Subscriber :=
  mkSub (sb_ev s) (sb_depth s) (sb_q s) f (sb_closed s) (sb_writer s) (sb_wire s).
Definition filter_Matches (f : option (gset string)) (code : string) : bool := match f with None => true | Some f => bool_decide (code ∈ f) end.
Definition Matches (s : Subscriber) (code : string) : bool := filter_Matches (sb_filter s) code.
Definition filter_Subscribe (f : option (gset string)) (codes : list string) : option (gset string) :=
  Some (fold_left (fun f c => if decide (c = "") then f else {[c]} ∪ f) codes (default ∅ f)).
Definition Subscribe (s : Subscriber) (codes : list string) : Subscriber := set_filter s (filter_Subscribe (sb_filter s) codes).
Definition filter_Unsubscribe (f : option (gset string)) (codes : list string) : option (gset string) :=
  match f with
  | None => None
  | Some f => let f := fold_left (fun f c => f ∖ {[c]}) codes f in if decide (f = ∅) then None else Some f
  end.
Definition Unsubscribe (s : Subscriber) (codes : list string) : Subscriber := set_filter s (filter_Unsubscribe (sb_filter s) codes).
Definition Subscribed (f : option (gset string)) : option (list string) := option_map (fun f => sort_Strings (elements f)) f.
(** The select: a send on a closed channel panics; a full queue takes the default. *)
Definition enqueue_open (s : Subscriber) (p : payload) : Subscriber * option SendErr :=
  if Z.of_nat (length (sb_q s)) <? sb_depth s
  then (mkSub (sb_ev s) (sb_depth s) (sb_q s ++ [p]) (sb_filter s) (sb_closed s) (sb_writer s) (sb_wire s), None)
  else (s, Some ErrSendQueueFull).
Definition enqueue (s : Subscriber) (p : payload) : res unit (Subscriber * option SendErr) :=
  if sb_closed s then Panic else Ok (enqueue_open s p).
(** With nothing between the check and the select. *)
Definition send (s : Subscriber) (p : payload) : Subscriber * option SendErr := if sb_closed s then (s, Some ErrClosed) else enqueue_open s p.
Definition versioned (ev : Z) (v1 : payload) (v2 : option payload) : payload := match v2 with Some v2 => if 2 <=? ev then v2 else v1 | None => v1 end.
Definition sendVersioned (s : Subscriber) (v1 : payload) (v2 : option payload) : Subscriber * option SendErr := send s (versioned (sb_ev s) v1 v2).
Definition Close (s : Subscriber) : Subscriber := mkSub (sb_ev s) (sb_depth s) (sb_q s) (sb_filter s) true (sb_writer s) (sb_wire s).
(** One turn of the writer: the message goes to the socket, and a failure ends it. *)
Definition write_one (s : Subscriber) (ok : bool) : Subscriber :=
  match sb_q s with
  | p :: q => if sb_writer s then mkSub (sb_ev s) (sb_depth s) q (sb_filter s) (sb_closed s) ok (sb_wire s ++ [p]) else s
  | [] => s
  end.

(** * The hub: the subscribers there are, and the registered ones *)
Record Hub := mkKHub { kh_objs : gmap string Subscriber; kh_subs : gset string }.
Definition NewHub : Hub := mkKHub ∅ ∅.
Definition Add (h : Hub) (id : string) (s : Subscriber) : Hub := mkKHub (<[id := s]> (kh_objs h)) ({[id]} ∪ kh_subs h).
Definition Remove (h : Hub) (id : string) : Hub := mkKHub (kh_objs h) (kh_subs h ∖ {[id]}).
Definition Count (h : Hub) : nat := size (kh_subs h).
(** [order] is the order in which the range visits the map. *)
Definition snapshot (h : Hub) (order : list string) (code : string) : list string :=
  List.filter (fun id => bool_decide (id ∈ kh_subs h) && match kh_objs h !! id with Some s => Matches s code | None => false end) order.
Fixpoint send_each (objs : gmap string Subscriber) (ids : list string) (v1 : payload) (v2 : option payload) (sent dropped : Z) : gmap string Subscriber * (Z * Z) :=
  match ids with
  | [] => (objs, (sent, dropped))
  | id :: ids =>
      match objs !! id with
      | None => send_each objs ids v1 v2 sent dropped
      | Some s =>
          match sendVersioned s v1 v2 with
          | (s, Some _) => send_each (<[id := s]> objs) ids v1 v2 sent (dropped + 1)
          | (s, None) => send_each (<[id := s]> objs) ids v1 v2 (sent + 1) dropped
          end
      end
  end.
Definition BroadcastBySymbolV (h : Hub) (order : list string) (code : string) (v1 : payload) (v2 : option payload) : Hub * (Z * Z) :=
  let '(objs, n) := send_each (kh_objs h) (snapshot h order code) v1 v2 0 0 in (mkKHub objs (kh_subs h), n).
(** [BroadcastBySymbol]: one payload for all. *)
Definition BroadcastBySymbol (h : Hub) (order : list string) (code : string) (p : payload) : Hub * (Z * Z) := BroadcastBySymbolV h order code p None.

(** * Control messages *)
Record control := mkControl { ct_Type : string; ct_Symbols : list string; ct_Pairs : list string }.
Fixpoint dedup (seen : gset string) (l : list string) : list string :=
  match l with [] => [] | v :: l => if decide (v ∈ seen) then dedup seen l else v :: dedup ({[v]} ∪ seen) l end.
Definition items (c : control) : list string :=
  match ct_Pairs c, ct_Symbols c with
  | [], sy => sy
  | pa, [] => pa
  | pa, sy => dedup ∅ (sy ++ pa)
  end.
(** The documents the server answers with; the set is [None] for a nil slice. *)
Inductive answer := ASubscribed (items : option (list string)) | AError (code message : string).

(** * Envelopes *)
Definition atoi2 (s : string) : Z :=
  match s with
  | String a (String b "") => match undigit a, undigit b with Some x, Some y => x * 10 + y | _, _ => -1 end
  | _ => -1
  end.
Fixpoint atoiN_loop (n : Z) (s : string) : Z :=
  match s with
  | "" => n
  | String c s => match undigit (if decide (c = " "%char) then "0"%char else c) with Some d => atoiN_loop (n * 10 + d) s | None => -1 end
  end.
Definition atoiN (s : string) : Z := atoiN_loop 0 s.
Definition day_ns : Z := 86400 * 1000000000.
(** [zone] is the offset of Seoul from UTC in nanoseconds, when the zone is known. *)
Definition krxTimeToUnixNano (zone : option Z) (now : Z) (hhmmss : string) : Z :=
  match zone with
  | None => 0
  | Some off =>
      if (String.length hhmmss <? 6)%nat then 0
      else
        let h := atoi2 (String.substring 0 2 hhmmss) in let m := atoi2 (String.substring 2 2 hhmmss) in let s := atoi2 (String.substring 4 2 hhmmss) in
        if (h <? 0) || (m <? 0) || (s <? 0) || (23 <? h) || (59 <? m) || (60 <? s) then 0
        else
          let nsec := if (12 <=? String.length hhmmss)%nat
                      then let us := atoiN (String.substring 6 6 hhmmss) in if 0 <=? us then us * 1000 else 0 else 0 in
          let midnight := (now + off) / day_ns * day_ns in
          wrap64 (midnight + ((h * 60 + m) * 60 + s) * 1000000000 + nsec - off)
  end.
Definition assetClassForKind (kind : string) : string :=
  if HasPrefix kind "fut." then "FUTURE" else if HasPrefix kind "bond." then "BOND" else "UNKNOWN".
Record krxV2Envelope := mkV2 { v2_EV : Z; v2_Type : string; v2_AssetClass : string; v2_Symbol : string; v2_TSUnixNano : Z; v2_Data : payload }.
Record KrxEvent := mkKrxEvent { ke_Type : string; ke_AssetClass : string; ke_Symbol : string; ke_TsUnixNano : Z; ke_Payload : payload }.

(** * The gRPC fan-out *)
Record grpcSub := mkGSub { gs_ch : list KrxEvent; gs_filter : option (gset string); gs_sent : list KrxEvent }.
Record GRPCHub := mkGHub { gh_subs : gmap Z grpcSub; gh_seq : Z }.
Definition gmatches (s : grpcSub) (code : string) : bool := filter_Matches (gs_filter s) code.
Definition gadd (h : GRPCHub) (s : grpcSub) : GRPCHub := let id := incr64 (gh_seq h) in mkGHub (<[id := s]> (gh_subs h)) id.
Definition gremove (h : GRPCHub) (id : Z) : GRPCHub := mkGHub (delete id (gh_subs h)) (gh_seq h).
(** Every subscriber is offered the event by itself, in some order. *)
Definition goffer (code : string) (ev : KrxEvent) (s : grpcSub) : grpcSub :=
  if gmatches s code && (Z.of_nat (length (gs_ch s)) <? 1024) then mkGSub (gs_ch s ++ [ev]) (gs_filter s) (gs_sent s) else s.
Definition gbroadcast (h : GRPCHub) (code : string) (ev : KrxEvent) : GRPCHub := mkGHub (goffer code ev <$> gh_subs h) (gh_seq h).
(** [SubscribeKrx] registers the caller, then sends its events until the stream ends. *)
Definition SubscribeKrx (h : GRPCHub) (symbols : list string) : GRPCHub :=
  gadd h (mkGSub [] (match symbols with [] => None | _ => filter_Subscribe None symbols end) []).
Definition stream_send (h : GRPCHub) (id : Z) (ok : bool) : GRPCHub :=
  match gh_subs h !! id with
  | Some s =>
      match gs_ch s with
      | ev :: ch => if ok then mkGHub (<[id := mkGSub ch (gs_filter s) (gs_sent s ++ [ev])]> (gh_subs h)) (gh_seq h) else gremove h id
      | [] => h
      end
  | None => h
  end.

(** * The server *)
Record McastStats := mkMStats { ms_Packets : Z; ms_Fanout : Z; ms_Unknown : Z; ms_ReadErrs : Z }.
Record Server := mkServer { sv_hub : Hub; sv_grpc : option GRPCHub; sv_seq : Z; sv_stats : McastStats; sv_masters : MasterCache }.
Definition NewServer (grpc : bool) : Server := mkServer NewHub (if grpc then Some (mkGHub ∅ 0) else None) 0 (mkMStats 0 0 0 0) NewMasterCache.
Definition set_hub (v : Server) (h : Hub) : Server := mkServer h (sv_grpc v) (sv_seq v) (sv_stats v) (sv_masters v).
Definition set_grpc (v : Server) (h : option GRPCHub) : Server := mkServer (sv_hub v) h (sv_seq v) (sv_stats v) (sv_masters v).
Definition set_masters (v : Server) (c : MasterCache) : Server := mkServer (sv_hub v) (sv_grpc v) (sv_seq v) (sv_stats v) c.
Definition set_stats (v : Server) (s : McastStats) : Server := mkServer (sv_hub v) (sv_grpc v) (sv_seq v) s (sv_masters v).
Inductive IngestErr := errShort | errUnknownTR | EDecode (e : KrxErr) | EMarshal.
Fixpoint itoa_loop (fuel : nat) (n : Z) (acc : string) : string :=
  match fuel with O => acc | S fuel => if 0 <? n then itoa_loop fuel (n / 10) (String (digit (n mod 10)) acc) else acc end.
Definition itoa (n : Z) : string := if n =? 0 then "0" else itoa_loop 20 n "".
Definition conn_id (seq : Z) : string := "fut-" +:+ itoa seq.

Section server.
Context (marshal : krx_msg -> option payload) (unmarshal_meta : payload -> option (string * string)) (marshal_v2 : krxV2Envelope -> option payload).
Context (marshal_answer : answer -> option payload) (unmarshal_control : payload -> option control) (zone : option Z).

Definition krxMeta (legacy : payload) : option (string * string) := unmarshal_meta legacy.
Definition buildKrxV2 (now : Z) (code : string) (legacy : payload) : option payload :=
  match krxMeta legacy with
  | None => None
  | Some (kind, tm) => marshal_v2 (mkV2 2 ("krx." +:+ kind) (assetClassForKind kind) code (krxTimeToUnixNano zone now tm) legacy)
  end.
Definition krxEventFrom (now : Z) (code : string) (legacy : payload) : option KrxEvent :=
  match krxMeta legacy with
  | None => None
  | Some (kind, tm) => Some (mkKrxEvent ("krx." +:+ kind) (assetClassForKind kind) code (krxTimeToUnixNano zone now tm) legacy)
  end.
Definition fanout (v : Server) (order : list string) (now : Z) (code : string) (m : krx_msg) : Server * res IngestErr (string * Z * Z) :=
  match marshal m with
  | None => (v, Err EMarshal)
  | Some js =>
      let '(h, (sent, dropped)) := BroadcastBySymbolV (sv_hub v) order code js (buildKrxV2 now code js) in
      let v := set_hub v h in
      let v := match sv_grpc v with
               | Some g => match krxEventFrom now code js with Some ev => set_grpc v (Some (gbroadcast g code ev)) | None => v end
               | None => v end in
      (v, Ok (code, sent, dropped))
  end.
(** A decoded message: what is cached, and what is sent. *)
Definition IngestA006F (c : MasterCache) (b : list byte) : res KrxErr (MasterCache * (string * krx_msg)) :=
  m ← DecodeA006F b; Ok (PutFut c m, (fm_Code m, MFutMaster m)).
Definition IngestA306F (c : MasterCache) (b : list byte) : res KrxErr (MasterCache * (string * krx_msg)) :=
  ft ← DecodeA306F b; Ok (c, (ft_Code ft, MFutTrade (applyFutSettle (enrichFutTrade ft (GetFut c (ft_Code ft))) (GetSettle c (ft_Code ft))))).
Definition IngestH306F (c : MasterCache) (b : list byte) : res KrxErr (MasterCache * (string * krx_msg)) :=
  s ← DecodeH306F b; Ok (PutSettle c s, (fs_Code s, MFutSettle s)).
Definition IngestB606F (c : MasterCache) (b : list byte) : res KrxErr (MasterCache * (string * krx_msg)) :=
  fb ← DecodeB606F b; Ok (c, (fb_Code fb, MFutBook fb)).
Definition IngestA001B (c : MasterCache) (b : list byte) : res KrxErr (MasterCache * (string * krx_msg)) :=
  m ← DecodeA001B b; Ok (PutBond c m, (bm_Code m, MBondMaster m)).
Definition IngestA301K (c : MasterCache) (b : list byte) : res KrxErr (MasterCache * (string * krx_msg)) :=
  bt ← DecodeA301K b;
  let '(c, prev) := BondPrevAndSet c (bt_Code bt) (bt_Last bt) in
  Ok (c, (bt_Code bt, MBondTrade (enrichBondTrade bt (GetBond c (bt_Code bt)) prev))).
Definition IngestB601K (c : MasterCache) (b : list byte) : res KrxErr (MasterCache * (string * krx_msg)) :=
  bb ← DecodeB601K b; Ok (c, (bb_Code bb, MBondBook bb)).
Definition intake (c : MasterCache) (b : list byte) : res IngestErr (MasterCache * (string * krx_msg)) :=
  let decode f := match f c b with Ok x => Ok x | Err e => Err (EDecode e) | Panic => Panic end in
  if (length b <? 5)%nat then Err errShort
  else
    let tr := String.string_of_list_byte (take 5 b) in
    if bool_decide (tr = "A306F") then decode IngestA306F
    else if bool_decide (tr = "B606F") then decode IngestB606F
    else if bool_decide (tr = "A006F") then decode IngestA006F
    else if bool_decide (tr = "H306F") then decode IngestH306F
    else if bool_decide (tr = "A301K") then decode IngestA301K
    else if bool_decide (tr = "B601K") then decode IngestB601K
    else if bool_decide (tr = "A001B") then decode IngestA001B
    else Err errUnknownTR.
Definition Ingest (v : Server) (order : list string) (now : Z) (b : list byte) : Server * res IngestErr (string * Z * Z) :=
  match intake (sv_masters v) b with
  | Ok (c, (code, m)) => fanout (set_masters v c) order now code m
  | Err e => (v, Err e)
  | Panic => (v, Panic)
  end.
(** One turn of a port's read loop: a timeout is silent. *)
Inductive datagram := DTimeout | DError | DData (b : list byte).
Definition mcast_read (v : Server) (order : list string) (now : Z) (d : datagram) : Server :=
  let st := sv_stats v in
  match d with
  | DTimeout => v
  | DError => set_stats v (mkMStats (ms_Packets st) (ms_Fanout st) (ms_Unknown st) (incr64 (ms_ReadErrs st)))
  | DData b =>
      let '(v, r) := Ingest v order now b in
      set_stats v (match r with
                   | Ok _ => mkMStats (incr64 (ms_Packets st)) (incr64 (ms_Fanout st)) (ms_Unknown st) (ms_ReadErrs st)
                   | _ => mkMStats (incr64 (ms_Packets st)) (ms_Fanout st) (incr64 (ms_Unknown st)) (ms_ReadErrs st) end)
  end.

(** ** Connections *)
Definition parse_ev (q : string) : Z := match Atoi q with (v, true) => if 0 <=? v then v else 0 | _ => 0 end.
Definition connect (v : Server) (q : string) : Server :=
  let seq := incr64 (sv_seq v) in
  mkServer (Add (sv_hub v) (conn_id seq) (NewSubscriber 512 (parse_ev q))) (sv_grpc v) seq (sv_stats v) (sv_masters v).
Definition answer_to (s : Subscriber) (a : answer) : Subscriber := match marshal_answer a with Some p => (send s p).1 | None => s end.
Definition handle_control (s : Subscriber) (msg : payload) : Subscriber :=
  match unmarshal_control msg with
  | None => answer_to s (AError "bad_request" "JSON parse 실패")
  | Some c =>
      if decide (ct_Type c = "subscribe") then let s := Subscribe s (items c) in answer_to s (ASubscribed (Subscribed (sb_filter s)))
      else if decide (ct_Type c = "unsubscribe") then let s := Unsubscribe s (items c) in answer_to s (ASubscribed (Subscribed (sb_filter s)))
      else answer_to s (AError "unknown_type" ("지원하지 않는 type: " +:+ ct_Type c))
  end.
Definition with_sub (h : Hub) (id : string) (f : Subscriber -> Subscriber) : Hub :=
  match kh_objs h !! id with Some s => mkKHub (<[id := f s]> (kh_objs h)) (kh_subs h) | None => h end.
Inductive kop :=
| KConnect (q : string)
| KControl (id : string) (msg : payload)   (** read by a connection that is open *)
| KClose (id : string)
| KWrite (id : string) (ok : bool)
| KRead (order : list string) (now : Z) (d : datagram)
| KStream (symbols : list string)
| KStreamSend (id : Z) (ok : bool)
| KStreamEnd (id : Z).
Definition on_grpc (v : Server) (f : GRPCHub -> GRPCHub) : Server := set_grpc v (option_map f (sv_grpc v)).
Definition kstep (v : Server) (o : kop) : Server :=
  match o with
  | KConnect q => connect v q
  | KControl id msg => if decide (id ∈ kh_subs (sv_hub v)) then set_hub v (with_sub (sv_hub v) id (fun s => handle_control s msg)) else v
  | KClose id => if decide (id ∈ kh_subs (sv_hub v)) then set_hub v (with_sub (Remove (sv_hub v) id) id Close) else v
  | KWrite id ok => set_hub v (with_sub (sv_hub v) id (fun s => write_one s ok))
  | KRead order now d => mcast_read v order now d
  | KStream symbols => on_grpc v (fun g => SubscribeKrx g symbols)
  | KStreamSend id ok => on_grpc v (fun g => stream_send g id ok)
  | KStreamEnd id => on_grpc v (fun g => gremove g id)
  end.
End server.

(** * Laws
    Laws of the exchange feed's server (KrxServer): what one client is sent is what a
    server that has no other clients and no queues would send it; and the race between
    a broadcast and a closing connection. *)

(** * One broadcast *)
Lemma send_fields s p : sb_ev (send s p).1 = sb_ev s /\ sb_depth (send s p).1 = sb_depth s /\ sb_filter (send s p).1 = sb_filter s /\
  sb_closed (send s p).1 = sb_closed s /\ sb_wire (send s p).1 = sb_wire s.
Proof. unfold send, enqueue_open. destruct (sb_closed s) eqn:E; simpl; [by repeat split|]. case_if; by repeat split. Qed.
(** Each subscriber of the list is sent the payload of its version once. *)
Lemma send_each_lookup ids objs v1 v2 a b id : NoDup ids ->
  (send_each objs ids v1 v2 a b).1 !! id = (if decide (id ∈ ids) then (fun s => (sendVersioned s v1 v2).1) <$> objs !! id else objs !! id).
Proof.
  revert objs a b. induction ids as [|x ids IH]; intros objs a b Hnd.
  { rewrite decide_False by apply not_elem_of_nil. done. }
  apply NoDup_cons in Hnd as [Hx Hnd]. simpl. destruct (objs !! x) as [s|] eqn:Ex.
  - assert (forall s' a' b', (sendVersioned s v1 v2).1 = s' -> (send_each (<[x:=s']> objs) ids v1 v2 a' b').1 !! id =
      (if decide (id ∈ x :: ids) then (fun s => (sendVersioned s v1 v2).1) <$> objs !! id else objs !! id)) as H.
    { intros s' a' b' <-. rewrite IH by done. destruct (decide (id = x)) as [->|Hne].
      - rewrite decide_False, decide_True by (done || left). by rewrite lookup_insert_eq, Ex.
      - rewrite !lookup_insert_ne by done. destruct (decide (id ∈ ids)) as [Hi|Hi].
        + by rewrite decide_True by (by right).
        + rewrite decide_False; [done|]. rewrite elem_of_cons. naive_solver. }
    destruct (sendVersioned s v1 v2) as [s' [e|]] eqn:Es; apply H; done.
  - rewrite IH by done. destruct (decide (id = x)) as [->|Hne].
    + rewrite decide_False, decide_True, Ex by (done || left). done.
    + destruct (decide (id ∈ ids)) as [Hi|Hi]; [by rewrite decide_True by (by right)|]. rewrite decide_False; [done|]. rewrite elem_of_cons. naive_solver.
Qed.
(** Every payload is counted as sent or as dropped. *)
Lemma send_each_counts ids objs v1 v2 a b : (forall id, id ∈ ids -> is_Some (objs !! id)) ->
  let '(sent, dropped) := (send_each objs ids v1 v2 a b).2 in sent + dropped = a + b + Z.of_nat (length ids).
Proof.
  revert objs a b. induction ids as [|x ids IH]; intros objs a b Hi; [simpl; lia|].
  destruct (Hi x) as [s Es]; [left|]. simpl. rewrite Es.
  assert (forall s' id, id ∈ ids -> is_Some (<[x:=s']> objs !! id)) as Hi'.
  { intros s' id Hid. destruct (decide (id = x)) as [->|]; [by rewrite lookup_insert_eq; eauto|]. rewrite lookup_insert_ne by done. apply Hi. by right. }
  destruct (sendVersioned s v1 v2) as [s' [e|]].
  - specialize (IH (<[x:=s']> objs) a (b + 1) (Hi' s')). destruct (send_each _ _ _ _ _ _) as [o [sent dropped]]. simpl in *. lia.
  - specialize (IH (<[x:=s']> objs) (a + 1) b (Hi' s')). destruct (send_each _ _ _ _ _ _) as [o [sent dropped]]. simpl in *. lia.
Qed.
Lemma krx_snapshot_spec h order code id : id ∈ snapshot h order code <->
  id ∈ order /\ id ∈ kh_subs h /\ exists s, kh_objs h !! id = Some s /\ Matches s code = true.
Proof.
  unfold snapshot. rewrite list_elem_of_In, filter_In, <-list_elem_of_In, andb_true_iff, bool_decide_eq_true.
  destruct (kh_objs h !! id) as [s|]; naive_solver.
Qed.
Lemma snapshot_NoDup h order code : NoDup order -> NoDup (snapshot h order code).
Proof. intros Hn. apply NoDup_ListNoDup, List.NoDup_filter, NoDup_ListNoDup, Hn. Qed.

(** * One client by itself *)
Section client.
Context (marshal : krx_msg -> option payload) (unmarshal_meta : payload -> option (string * string)) (marshal_v2 : krxV2Envelope -> option payload).
Context (marshal_answer : answer -> option payload) (unmarshal_control : payload -> option control) (zone : option Z).
#[local] Abbreviation step := (kstep marshal unmarshal_meta marshal_v2 marshal_answer unmarshal_control zone).
Context (id : string).

(** No other clients, no queues: the masters, the client's version and filter, and all
    it is sent. *)
Record view := mkView { vw_seq : Z; vw_masters : MasterCache; vw_client : option (Z * option (gset string)); vw_out : list payload }.
Definition answered (out : list payload) (a : answer) : list payload := out ++ match marshal_answer a with Some p => [p] | None => [] end.
Definition view_control (f : option (gset string)) (out : list payload) (msg : payload) : option (gset string) * list payload :=
  match unmarshal_control msg with
  | None => (f, answered out (AError "bad_request" "JSON parse 실패"))
  | Some c =>
      if decide (ct_Type c = "subscribe") then let f := filter_Subscribe f (items c) in (f, answered out (ASubscribed (Subscribed f)))
      else if decide (ct_Type c = "unsubscribe") then let f := filter_Unsubscribe f (items c) in (f, answered out (ASubscribed (Subscribed f)))
      else (f, answered out (AError "unknown_type" ("지원하지 않는 type: " +:+ ct_Type c)))
  end.
Definition view_event (w : view) (now : Z) (b : list byte) : view :=
  match intake (vw_masters w) b with
  | Ok (c, (code, m)) =>
      mkView (vw_seq w) c (vw_client w)
        (vw_out w ++ match vw_client w, marshal m with
                     | Some (ev, f), Some js => if filter_Matches f code then [versioned ev js (buildKrxV2 unmarshal_meta marshal_v2 zone now code js)] else []
                     | _, _ => [] end)
  | _ => w
  end.
Definition view_step (w : view) (o : kop) : view :=
  match o with
  | KConnect q =>
      let seq := incr64 (vw_seq w) in
      if decide (conn_id seq = id) then mkView seq (vw_masters w) (Some (parse_ev q, None)) []
      else mkView seq (vw_masters w) (vw_client w) (vw_out w)
  | KControl id' msg =>
      match vw_client w with
      | Some (ev, f) => if decide (id' = id) then let '(f, out) := view_control f (vw_out w) msg in mkView (vw_seq w) (vw_masters w) (Some (ev, f)) out else w
      | None => w
      end
  | KClose id' => if decide (id' = id) then mkView (vw_seq w) (vw_masters w) None (vw_out w) else w
  | KRead _ now (DData b) => view_event w now b
  | _ => w
  end.

(** The ranges of a broadcast visit each registered client once. *)
Fixpoint visits (v : Server) (os : list kop) : Prop :=
  match os with
  | [] => True
  | o :: os => match o with KRead order _ _ => NoDup order /\ kh_subs (sv_hub v) ⊆ list_to_set order | _ => True end /\ visits (step v o) os
  end.
Definition room (v : Server) : Prop := forall s, kh_objs (sv_hub v) !! id = Some s -> Z.of_nat (length (sb_q s)) < 512.
(** The client's queue has room before every step. *)
Fixpoint calm (v : Server) (os : list kop) : Prop := match os with [] => True | o :: os => room v /\ calm (step v o) os end.
Definition delivered (v : Server) : list payload := match kh_objs (sv_hub v) !! id with Some s => sb_wire s ++ sb_q s | None => [] end.

(** What relates the server to the client's view; [P]: nothing was dropped. *)
Definition client_of (v : Server) (cl : option (Z * option (gset string))) : Prop :=
  match cl with
  | Some (ev, f) => id ∈ kh_subs (sv_hub v) /\ exists s, kh_objs (sv_hub v) !! id = Some s /\ sb_ev s = ev /\ sb_filter s = f /\ sb_closed s = false /\ sb_depth s = 512
  | None => id ∉ kh_subs (sv_hub v)
  end.
Definition related (P : Prop) (v : Server) (w : view) : Prop :=
  sv_seq v = vw_seq w /\ sv_masters v = vw_masters w /\ client_of v (vw_client w) /\ delivered v `sublist_of` vw_out w /\ (P -> delivered v = vw_out w).

Lemma send_open s p : sb_closed s = false -> sb_depth s = 512 ->
  let d s := sb_wire s ++ sb_q s in
  (d (send s p).1 = d s ++ [p] \/ d (send s p).1 = d s) /\ (Z.of_nat (length (sb_q s)) < 512 -> d (send s p).1 = d s ++ [p]).
Proof.
  intros Hc Hd. unfold send, enqueue_open. rewrite Hc, Hd. destruct (Z.ltb_spec (Z.of_nat (length (sb_q s))) 512); simpl; rewrite ?app_assoc; split; auto. lia.
Qed.
(** One more payload, or a drop when there is no room. *)
Lemma extend (P R : Prop) (d d' out x : list payload) :
  d `sublist_of` out -> (P -> d = out) -> d' = d ++ x \/ d' = d -> (R -> d' = d ++ x) -> d' `sublist_of` out ++ x /\ (P /\ R -> d' = out ++ x).
Proof.
  intros Hs He Hor Hr. split.
  - destruct Hor as [->| ->]; [by apply sublist_app|]. by apply sublist_inserts_r.
  - intros [HP HR]. by rewrite Hr, He.
Qed.
(** The rest of the state does not show. *)
Lemma related_weaken (P R : Prop) v v' w :
  sv_hub v' = sv_hub v -> sv_seq v' = sv_seq v -> sv_masters v' = sv_masters v -> related P v w -> related (P /\ R) v' w.
Proof.
  unfold related, client_of, delivered. intros -> -> -> (? & ? & ? & ? & He). split; [done|]. split; [done|]. split; [done|]. split; [done|]. by intros [HP _]; auto.
Qed.
(** A change of one connection. *)
Lemma with_sub_lookup h x f y : kh_objs (with_sub h x f) !! y = if decide (y = x) then f <$> kh_objs h !! y else kh_objs h !! y.
Proof.
  unfold with_sub. destruct (kh_objs h !! x) as [s|] eqn:E; simpl; destruct (decide (y = x)) as [->|].
  - by rewrite lookup_insert_eq, E.
  - by rewrite lookup_insert_ne.
  - by rewrite E.
  - done.
Qed.
Lemma with_sub_subs h x f : kh_subs (with_sub h x f) = kh_subs h.
Proof. unfold with_sub. by destruct (kh_objs h !! x). Qed.

Lemma related_connect (P R : Prop) v w q : related P v w -> related (P /\ R) (connect v q) (view_step w (KConnect q)).
Proof.
  intros (Es & Em & Hc & Hs & He). unfold related, connect. cbn [sv_seq sv_masters view_step]. rewrite <-Es, <-Em. cbv zeta.
  set (seq := incr64 (sv_seq v)). unfold client_of, delivered, Add in *. cbn [sv_hub kh_objs kh_subs].
  destruct (decide (conn_id seq = id)) as [E|E]; cbn [vw_seq vw_masters vw_client vw_out]; (split; [done|]; split; [done|]).
  - rewrite E, lookup_insert_eq. split; [|split; [apply sublist_nil|done]]. split; [set_solver|]. by eexists.
  - rewrite lookup_insert_ne by done. split; [|split; [done|by intros [HP _]; auto]]. destruct (vw_client w) as [[ev f]|]; [|set_solver].
    destruct Hc as [Hi Hc]. split; [set_solver|done].
Qed.
Lemma related_other (P R : Prop) v w h :
  (id ∈ kh_subs h <-> id ∈ kh_subs (sv_hub v)) -> kh_objs h !! id = kh_objs (sv_hub v) !! id -> related P v w -> related (P /\ R) (set_hub v h) w.
Proof.
  unfold related, client_of, delivered. intros Hi Ho. cbn. rewrite Ho. intros (Es & Em & Hc & Hs & He).
  split; [done|]. split; [done|]. split; [|split; [done|by intros [HP _]; auto]]. destruct (vw_client w) as [[ev f]|]; by rewrite Hi.
Qed.
Lemma related_write (P R : Prop) v w x ok : related P v w -> related (P /\ R) (set_hub v (with_sub (sv_hub v) x (fun s => write_one s ok))) w.
Proof.
  intros Hr. destruct (decide (x = id)) as [->|Hne].
  2:{ apply related_other; [by rewrite with_sub_subs|by rewrite with_sub_lookup, decide_False|done]. }
  destruct Hr as (Es & Em & Hc & Hs & He). unfold related, client_of, delivered in *. cbn [set_hub sv_hub sv_seq sv_masters]. rewrite with_sub_lookup, decide_True, with_sub_subs by done.
  assert (forall s, sb_wire (write_one s ok) ++ sb_q (write_one s ok) = sb_wire s ++ sb_q s) as Hd.
  { intros s. unfold write_one. destruct (sb_q s) as [|p q] eqn:Eq; [by rewrite Eq|]. destruct (sb_writer s); simpl; [by rewrite <-app_assoc|by rewrite Eq]. }
  split; [done|]. split; [done|]. split.
  - destruct (vw_client w) as [[ev f]|]; [|done]. destruct Hc as (Hi & s & -> & Hf). split; [done|]. exists (write_one s ok). split; [done|].
    unfold write_one. destruct (sb_q s); [done|]. by destruct (sb_writer s).
  - destruct (kh_objs (sv_hub v) !! id) as [s|]; simpl; rewrite ?Hd; (split; [done|by intros [HP _]; auto]).
Qed.
Lemma related_close (P R : Prop) v w x : related P v w ->
  related (P /\ R) (if decide (x ∈ kh_subs (sv_hub v)) then set_hub v (with_sub (Remove (sv_hub v) x) x Close) else v) (view_step w (KClose x)).
Proof.
  intros Hr. cbn [view_step]. destruct (decide (x = id)) as [->|Hne]; destruct (decide (_ ∈ _)) as [Hi|Hi].
  - destruct Hr as (Es & Em & Hc & Hs & He). unfold related, client_of, delivered in *. cbn. rewrite with_sub_lookup, decide_True, with_sub_subs by done. cbn.
    split; [done|]. split; [done|]. split; [set_solver|]. destruct (kh_objs (sv_hub v) !! id); (split; [done|by intros [HP _]; auto]).
  - destruct Hr as (Es & Em & Hc & Hs & He). unfold related, client_of in *. cbn. split; [done|]. split; [done|]. split; [done|]. split; [done|]. by intros [HP _]; auto.
  - apply related_other; [rewrite with_sub_subs; cbn; set_solver|by rewrite with_sub_lookup, decide_False|done].
  - by apply (related_weaken P R v).
Qed.
(** ** Answers *)
#[local] Abbreviation held s := (sb_wire s ++ sb_q s).
#[local] Abbreviation doc a := (match marshal_answer a with Some p => [p] | None => [] end).
Lemma answer_to_fields s a : sb_ev (answer_to marshal_answer s a) = sb_ev s /\ sb_depth (answer_to marshal_answer s a) = sb_depth s /\
  sb_filter (answer_to marshal_answer s a) = sb_filter s /\ sb_closed (answer_to marshal_answer s a) = sb_closed s.
Proof. unfold answer_to. destruct (marshal_answer a) as [p|]; [|done]. destruct (send_fields s p) as (? & ? & ? & ? & ?). done. Qed.
Lemma answer_to_held s a : sb_closed s = false -> sb_depth s = 512 ->
  (held (answer_to marshal_answer s a) = held s ++ doc a \/ held (answer_to marshal_answer s a) = held s) /\
  (Z.of_nat (length (sb_q s)) < 512 -> held (answer_to marshal_answer s a) = held s ++ doc a).
Proof.
  intros Hc Hd. unfold answer_to. destruct (marshal_answer a) as [p|]; [by apply send_open|]. rewrite app_nil_r. auto.
Qed.
(** The client's own filter decides what the answer says. *)
Lemma handle_control_view s msg out :
  exists s' a, handle_control marshal_answer unmarshal_control s msg = answer_to marshal_answer s' a /\ sb_ev s' = sb_ev s /\ sb_depth s' = sb_depth s /\
    sb_closed s' = sb_closed s /\ sb_wire s' = sb_wire s /\ sb_q s' = sb_q s /\ view_control (sb_filter s) out msg = (sb_filter s', out ++ doc a).
Proof.
  unfold handle_control, view_control, answered. destruct (unmarshal_control msg) as [c|]; [|by eexists s, _].
  destruct (decide _); [by eexists (Subscribe s (items c)), _|]. destruct (decide _); [by eexists (Unsubscribe s (items c)), _|]. by eexists s, _.
Qed.
Lemma related_control (P : Prop) v w x msg : related P v w ->
  related (P /\ room v) (if decide (x ∈ kh_subs (sv_hub v)) then set_hub v (with_sub (sv_hub v) x (fun s => handle_control marshal_answer unmarshal_control s msg)) else v)
    (view_step w (KControl x msg)).
Proof.
  intros Hr. cbn [view_step]. destruct (decide (x = id)) as [->|Hne].
  2:{ assert (match vw_client w with Some (_, _) => w | None => w end = w) as -> by by destruct (vw_client w) as [[]|].
      destruct (decide _); [|by apply (related_weaken P _ v)]. apply related_other; [by rewrite with_sub_subs|by rewrite with_sub_lookup, decide_False|done]. }
  pose proof Hr as (Es & Em & Hc & Hs & He). destruct (vw_client w) as [[ev f]|] eqn:Ew.
  2:{ rewrite decide_False by done. by apply (related_weaken P _ v). }
  destruct Hc as (Hi & s & Eo & <- & <- & Hcl & Hd). rewrite decide_True by done. destruct (handle_control_view s msg (vw_out w)) as (s' & a & Eh & E1 & E2 & E3 & E4 & E5 & ->).
  unfold related, client_of, delivered in *. rewrite Eo in *. cbn. rewrite with_sub_lookup, decide_True, with_sub_subs, Eo by done. cbn. rewrite Eh.
  destruct (answer_to_fields s' a) as (F1 & F2 & F3 & F4). split; [done|]. split; [done|]. split.
  - split; [done|]. eexists. split; [done|]. rewrite F1, F2, F3, F4. by rewrite E1, E2, E3.
  - destruct (answer_to_held s' a) as [Hor Hroom]; [congruence..|]. rewrite E4, E5 in *.
    apply (extend _ _ (held s)); try done. intros HR. apply Hroom, HR. done.
Qed.
(** ** Events *)
Lemma related_event (P : Prop) v w order now b : NoDup order -> (forall x, x ∈ kh_subs (sv_hub v) -> x ∈ order) -> related P v w ->
  related (P /\ room v) (Ingest marshal unmarshal_meta marshal_v2 zone v order now b).1 (view_event w now b).
Proof.
  intros Hn Ho Hr. pose proof Hr as (Es & Em & Hc & Hs & He). unfold Ingest, view_event. rewrite <-Em.
  destruct (intake (sv_masters v) b) as [[c [code m]]|e|] eqn:Ei; try by apply (related_weaken P _ v).
  unfold fanout. destruct (marshal m) as [js|].
  2:{ assert (match vw_client w with Some (_, _) => [] | None => [] end = @nil payload) as -> by by destruct (vw_client w) as [[]|].
      rewrite app_nil_r. unfold related in *. cbn. split; [done|]. split; [done|]. split; [done|]. split; [done|]. by intros [HP _]; auto. }
  set (v2 := buildKrxV2 _ _ _ _ _ _). unfold BroadcastBySymbolV. pose proof (send_each_lookup (snapshot (sv_hub v) order code) (kh_objs (sv_hub v)) js v2 0 0 id (snapshot_NoDup _ _ _ Hn)) as HL.
  cbn [set_masters sv_hub]. destruct (send_each _ _ _ _ _ _) as [objs [sent dropped]]. cbn in HL.
  assert (forall v', sv_hub v' = mkKHub objs (kh_subs (sv_hub v)) -> sv_seq v' = sv_seq v -> sv_masters v' = c -> related (P /\ room v) v'
    (mkView (vw_seq w) c (vw_client w) (vw_out w ++ match vw_client w with Some (ev, f) => if filter_Matches f code then [versioned ev js v2] else [] | None => [] end))) as H.
  2:{ cbn. destruct (sv_grpc v); [|by apply H]. destruct (krxEventFrom _ _ _ _ _); by apply H. }
  intros v' Eh Eq Ec. unfold related, client_of, delivered in *. rewrite Eh, Eq, Ec. cbn. rewrite HL. split; [done|]. split; [done|].
  destruct (vw_client w) as [[ev f]|].
  - destruct Hc as (Hi & s & Eo & <- & <- & Hcl & Hd). rewrite Eo in *. destruct (decide _) as [Hin|Hin]; cbn.
    + apply krx_snapshot_spec in Hin as (_ & _ & s0 & [= <-]%(eq_trans (eq_sym Eo)) & Hm). unfold Matches in Hm. rewrite Hm. unfold sendVersioned.
      destruct (send_fields s (versioned (sb_ev s) js v2)) as (F1 & F2 & F3 & F4 & F5). split.
      * split; [done|]. eexists. split; [done|]. by rewrite F1, F2, F3, F4.
      * destruct (send_open s (versioned (sb_ev s) js v2) Hcl Hd) as [Hor Hroom]. apply (extend _ _ (held s)); try done. intros HR. by apply Hroom, HR.
    + assert (filter_Matches (sb_filter s) code = false) as ->.
      { destruct (filter_Matches _ _) eqn:Ef; [|done]. destruct Hin. apply krx_snapshot_spec. eauto 10. }
      rewrite app_nil_r. split; [by eauto 10|]. split; [done|]. by intros [HP _]; auto.
  - rewrite decide_False, app_nil_r by (rewrite krx_snapshot_spec; naive_solver). split; [done|]. split; [done|]. by intros [HP _]; auto.
Qed.
Lemma related_step (P : Prop) v w o : match o with KRead order _ _ => NoDup order /\ kh_subs (sv_hub v) ⊆ list_to_set order | _ => True end ->
  related P v w -> related (P /\ room v) (step v o) (view_step w o).
Proof.
  intros Ho Hr. destruct o as [q|x msg|x|x ok|order now d|sy|g ok|g]; cbn [kstep view_step].
  - by apply related_connect.
  - by apply related_control.
  - by apply related_close.
  - by apply related_write.
  - destruct Ho as [Hn Ho]. destruct d as [| |b]; [by apply (related_weaken P _ v)..|]. cbn. assert (forall x, x ∈ kh_subs (sv_hub v) -> x ∈ order) as Ho' by set_solver.
    pose proof (related_event P v w order now b Hn Ho' Hr) as He.
    destruct (Ingest _ _ _ _ _ _ _ _) as [v' r]. cbn in *. by destruct r.
  - by apply (related_weaken P _ v).
  - by apply (related_weaken P _ v).
  - by apply (related_weaken P _ v).
Qed.
Lemma related_run os (P : Prop) v w : visits v os -> related P v w -> related (P /\ calm v os) (fold_left step os v) (fold_left view_step os w).
Proof.
  revert P v w. induction os as [|o os IH]; intros P v w Hv Hr; [by apply (related_weaken P _ v)|]. destruct Hv as [Ho Hv]. simpl.
  apply (related_step P v w o) in Hr; [|done]. apply IH in Hr; [|done]. destruct Hr as (? & ? & ? & ? & He). repeat (split; [done|]). intros (HP & HR & HC). by apply He.
Qed.
End client.

(** * Filters *)
Lemma subscribe_fold codes f code : code ∈ fold_left (fun (f : gset string) c => if decide (c = "") then f else {[c]} ∪ f) codes f <-> code ∈ f \/ (code ∈ codes /\ code <> "").
Proof.
  revert f. induction codes as [|c codes IH]; intros f; simpl; [set_solver|]. rewrite IH. destruct (decide (c = "")) as [->|Hc]; set_solver.
Qed.
(** A client is sent the codes it subscribed to, and everything before it first does. *)
Lemma filter_Subscribe_matches f codes code :
  filter_Matches (filter_Subscribe f codes) code = true <-> (exists s, f = Some s /\ code ∈ s) \/ (code ∈ codes /\ code <> "").
Proof.
  unfold filter_Matches, filter_Subscribe. rewrite bool_decide_eq_true, subscribe_fold. destruct f; simpl; set_solver.
Qed.
Lemma unsubscribe_fold codes f code : code ∈ fold_left (fun (f : gset string) c => f ∖ {[c]}) codes f <-> code ∈ f /\ code ∉ codes.
Proof. revert f. induction codes as [|c codes IH]; intros f; simpl; [set_solver|]. rewrite IH. set_solver. Qed.
(** Giving up the last code is subscribing to everything. *)
Lemma filter_Unsubscribe_matches f codes code :
  filter_Matches (filter_Unsubscribe (Some f) codes) code = true <-> (code ∈ f /\ code ∉ codes) \/ forall c, c ∈ f -> c ∈ codes.
Proof.
  unfold filter_Matches, filter_Unsubscribe. cbv zeta. set (g := fold_left _ codes f).
  assert (forall c, c ∈ g <-> c ∈ f /\ c ∉ codes) as Hg by (intros c; apply unsubscribe_fold). destruct (decide (g = ∅)) as [E|E].
  - split; [|done]. intros _. right. intros c Hc. destruct (decide (c ∈ codes)); [done|]. assert (c ∈ g) by (apply Hg; done). set_solver.
  - rewrite bool_decide_eq_true, Hg. split; [by left|]. intros [?|Ha]; [done|]. apply set_choose_L in E as [c Hc]. apply Hg in Hc as [Hf Hn]. by destruct Hn; auto.
Qed.


(** Two clients, one of whom filters and speaks the second envelope. *)
#[local] Abbreviation text s := (String.list_byte_of_string s).
#[local] Abbreviation js_msg := (fun m : krx_msg => match m with MFutMaster m => Some (text ("M" +:+ fm_Code m)) | MFutTrade t => Some (text ("T" +:+ ft_Code t +:+ ft_Sign t)) | _ => None end).
#[local] Abbreviation js_meta := (fun _ : payload => Some ("fut.trade", "090000")).
#[local] Abbreviation js_v2 := (fun e : krxV2Envelope => Some (text "2" ++ v2_Data e)).
#[local] Abbreviation js_answer := (fun a : answer => match a with ASubscribed (Some l) => Some (text (String.concat "," l)) | _ => Some [] end).
#[local] Abbreviation js_control := (fun p : payload => Some (mkControl "subscribe" [String.string_of_list_byte p] [])).
#[local] Abbreviation run := (kstep js_msg js_meta js_v2 js_answer js_control (Some 0)).
#[local] Abbreviation demo :=
  [KConnect ""; KConnect "2"; KControl "fut-2" (text "101V6000"); KRead ["fut-1"; "fut-2"] 0 (DData (master_of "101V6000" "265.50"));
   KRead ["fut-2"; "fut-1"] 0 (DData (trade_of "101V6000" "265.75")); KRead ["fut-2"; "fut-1"] 0 (DData (master_of "105V3000" "300.00")); KWrite "fut-2" true; KClose "fut-1"].

(** * Races *)
(** [send] looks at [closed] and lets go of the lock before it sends; a connection that
    closes in between has closed the channel, and the send brings the process down. *)
Lemma send_races_close s p : sb_closed s = false -> enqueue (Close s) p = Panic.
Proof. done. Qed.
(** Asking for no code at all silences the feed. *)
Lemma subscribe_nothing_silences codes code : (forall c, c ∈ codes -> c = "") -> filter_Matches (filter_Subscribe None codes) code = false.
Proof. intros Hc. apply not_true_iff_false. rewrite filter_Subscribe_matches. intros [(s & [=] & _)|[Hi Hne]]. auto. Qed.
