(* ===== verification/Redis.v ===== *)
(** A Redis server as the gateway's code relies on it: a key-value store whose keys
    expire. The commands are an interface with the laws Redis documents; scripts are
    executed atomically. *)

From Stdlib Require Import ZArith Lia.
From S2P Require Import Prelude GoStrings.
Local Open Scope Z_scope.

(** Every command is executed at a time of the server's clock (nanoseconds). *)
Class Redis (S : Type) := {
  rd_get : S -> Z -> string -> option string;
  (** SET key value PX/EX ttl. *)
  rd_set : S -> Z -> string -> string -> Z -> S;
  rd_del : S -> Z -> list string -> S;
  rd_pexpire : S -> Z -> string -> Z -> S }.
(** A key set with a time to live is there until that has passed and is then gone; the
    other keys are not touched; nothing appears by itself. *)
Class RedisLaws (S : Type) `{Redis S} := {
  rd_get_mono : forall s t t' k v, t <= t' -> rd_get s t' k = Some v -> rd_get s t k = Some v;
  rd_get_set : forall s t k v d t' k', t <= t' ->
    rd_get (rd_set s t k v d) t' k' = if decide (k' = k) then (if t' <? t + d then Some v else None) else rd_get s t' k';
  rd_get_del : forall s t ks t' k', t <= t' -> rd_get (rd_del s t ks) t' k' = if decide (k' ∈ ks) then None else rd_get s t' k';
  rd_get_pexpire : forall s t k d t' k', t <= t' ->
    rd_get (rd_pexpire s t k d) t' k' =
    if decide (k' = k) then match rd_get s t k with Some v => if t' <? t + d then Some v else None | None => None end else rd_get s t' k' }.

(** SET key value EX ttl NX: whether the key was set. *)
Definition rd_setnx {S} `{Redis S} (s : S) (t : Z) (k v : string) (d : Z) : S * bool :=
  match rd_get s t k with None => (rd_set s t k v d, true) | Some _ => (s, false) end.

(** What a caller learns of a command: its reply, or an error, before or after the
    server executed it. *)
Inductive link := Up | LostBefore | LostAfter.
Definition over {S A} (lk : link) (s : S) (p : S * A) : S * option A :=
  match lk with Up => (p.1, Some p.2) | LostBefore => (s, None) | LostAfter => (p.1, None) end.

(** A server kept in a map: value and deadline of each key. *)
Notation map_redis := (gmap string (string * Z)).
#[export] Instance map_redis_ops : Redis map_redis := {|
  rd_get s t k := match s !! k with Some (v, d) => if t <? d then Some v else None | None => None end;
  rd_set s t k v d := <[k := (v, t + d)]> s;
  rd_del s t ks := foldr delete s ks;
  rd_pexpire s t k d :=
    match s !! k with Some (v, d0) => if t <? d0 then <[k := (v, t + d)]> s else delete k s | None => s end |}.
#[export] Instance map_redis_laws : RedisLaws map_redis.
Proof.
  split.
  - intros s t t' k v Ht. cbn. destruct (s !! k) as [[v' d]|]; [|done]. destruct (Z.ltb_spec t' d), (Z.ltb_spec t d); try done. lia.
  - intros s t k v d t' k' Ht. cbn. destruct (decide (k' = k)) as [->|]; [by rewrite lookup_insert_eq|by rewrite lookup_insert_ne].
  - intros s t ks t' k' Ht. cbn. assert (forall k, foldr delete s ks !! k = if decide (k ∈ ks) then None else s !! k) as ->; [|by destruct (decide _)].
    intros k. induction ks as [|x ks IH]; simpl.
    { destruct (decide (k ∈ [])) as [Hx%not_elem_of_nil|]; done. }
    destruct (decide (x = k)) as [->|Hne].
    + rewrite lookup_delete_eq, decide_True by left. done.
    + rewrite lookup_delete_ne, IH by done. destruct (decide (k ∈ ks)); [by rewrite decide_True by (by right)|].
      rewrite decide_False; [done|]. rewrite elem_of_cons. intros [?|?]; [congruence|done].
  - intros s t k d t' k' Ht. cbn. destruct (decide (k' = k)) as [->|Hne].
    + destruct (s !! k) as [[v d0]|] eqn:E; simpl; [|by rewrite E]. destruct (Z.ltb_spec t d0); [by rewrite lookup_insert_eq|].
      by rewrite lookup_delete_eq.
    + destruct (s !! k) as [[v d0]|] eqn:E; [|done]. destruct (t <? d0); [by rewrite lookup_insert_ne|by rewrite lookup_delete_ne].
Qed.

(** Key names are built by concatenation. *)
Lemma str_app_inj_r (a b c : string) : a +:+ c = b +:+ c -> a = b.
Proof.
  intros E. assert (String.length a = String.length b) as L.
  { apply (f_equal String.length) in E. rewrite !str_length_app in E. lia. }
  rewrite <-(str_take_app a c), E, L. apply str_take_app.
Qed.
