(* ===== verification/RedisRegistry.v ===== *)
(** The quote registry on Redis (src/pkg/quoteid/redis.go), shared by the instances of
    the price service. The embedded scripts are translated too; JSON and the number
    parser of the script language are parameters.

    The laws follow the definitions. *)

From Stdlib Require Import ZArith QArith Lia.
From S2P Require Import Prelude GoStrings Float64 Session QuoteID Registry Redis Strconv.
Local Open Scope Z_scope.
Local Open Scope wtg_scope.

Definition second : Z := 1000000000.
(** [time.Time.Sub] saturates; adding durations wraps. *)
Definition Sub (a b : Z) : Z := Z.max (- 2 ^ 63) (Z.min (2 ^ 63 - 1) (a - b)).
Definition remaining (validUntil now grace : Z) : Z := wrap64 (Sub validUntil now + grace).
Inductive RedisErr := EReg (e : RegErr) | EMarshal | ERedis | EUnmarshal.
Record RedisRegistry := mkRedisReg { rr_prefix : string; rr_grace : Z }.
Definition NewRedisRegistry (prefix : string) (grace : Z) : RedisRegistry :=
  mkRedisReg (if decide (prefix = "") then "wtg:quoteid" else prefix) grace.
Definition key (r : RedisRegistry) (id : string) : string := rr_prefix r +:+ ":{" +:+ id +:+ "}:q".
Definition consumedKey (r : RedisRegistry) (id : string) : string := rr_prefix r +:+ ":{" +:+ id +:+ "}:c".
Definition swapKey (r : RedisRegistry) (swapID : string) : string := rr_prefix r +:+ ":sw:{" +:+ swapID +:+ "}".
(** The life of a marker, in whole seconds. *)
Definition marker_seconds (r : RedisRegistry) : Z :=
  let ttl := wrap64 (rr_grace r + second) in
  let ttl := if ttl <=? 0 then second else ttl in
  let ttlSec := ttl `quot` second in
  if ttlSec <? 1 then 1 else ttlSec.

Section registry.
Context {S : Type} `{Redis S}.
Context (marshal : Record_ -> option string) (unmarshal : string -> option Record_).
Context (marshal_swap : SwapRecord -> option string) (unmarshal_swap : string -> option SwapRecord).
(** [cjson.decode] and [tonumber(rec["valid_until_unix_nano"])]: the outer [None] is a
    script error, the inner one [nil]. *)
Context (lua_valid_until : string -> option (option f64)).
(** The time to live go-redis sends for a duration. *)
Context (px : Z -> Z).

Definition Put (r : RedisRegistry) (s : S) (lk : link) (now t : Z) (rec : Record_) : S * option RedisErr :=
  if r_ValidUntil rec <=? r_IssuedAt rec then (s, Some (EReg ErrInvalidRecord))
  else if decide (r_QuoteID rec = "") then (s, Some (EReg ErrInvalidRecord))
  else match marshal rec with
       | None => (s, Some EMarshal)
       | Some body =>
           let left := remaining (r_ValidUntil rec) now (rr_grace r) in
           if left <=? 0 then (s, None)
           else match over lk s (rd_set s t (key r (r_QuoteID rec)) body (px left), tt) with
                | (s, Some _) => (s, None)
                | (s, None) => (s, Some ERedis)
                end
       end.
(** The commands of the pipeline, in order. *)
Definition put_command (r : RedisRegistry) (now : Z) (rec : Record_) : option (string * string * Z) :=
  if invalid_record rec then None
  else match marshal rec with
       | None => None
       | Some body => let left := remaining (r_ValidUntil rec) now (rr_grace r) in
                      if left <=? 0 then None else Some (key r (r_QuoteID rec), body, px left)
       end.
Definition PutMany (r : RedisRegistry) (s : S) (lk : link) (now t : Z) (recs : list Record_) : S * option RedisErr :=
  match omap (put_command r now) recs with
  | [] => (s, None)
  | cmds =>
      match over lk s (fold_left (fun s '(k, v, d) => rd_set s t k v d) cmds s, tt) with
      | (s, Some _) => (s, None)
      | (s, None) => (s, Some ERedis)
      end
  end.
Definition Get (r : RedisRegistry) (s : S) (lk : link) (t : Z) (id : string) : res RedisErr Record_ :=
  match lk with
  | Up =>
      match rd_get s t (key r id) with
      | None => Err (EReg ErrNotFound)
      | Some body => match unmarshal body with Some rec => Ok rec | None => Err EUnmarshal end
      end
  | _ => Err ERedis
  end.
Definition Consumed (r : RedisRegistry) (s : S) (lk : link) (t : Z) (id : string) : res RedisErr (string * bool) :=
  match lk with
  | Up => match rd_get s t (consumedKey r id) with Some v => Ok (v, true) | None => Ok ("", false) end
  | _ => Err ERedis
  end.

(** ** The script that marks a quote consumed *)
Inductive script_reply := S3 | S4 (rec : string) | S1 (rec : string) | S2 (rec prev : string).
Definition markConsumedScript (s : S) (t : Z) (k c consumer : string) (now ttlSec : Z) : S * option script_reply :=
  match rd_get s t k with
  | None => (s, Some S3)
  | Some rec =>
      match lua_valid_until rec with
      | None => (s, None)
      | Some None => (s, Some (S4 rec))
      | Some (Some valid) =>
          if valid <=f f_of_Z now then (s, Some (S4 rec))
          else match rd_setnx s t c consumer (ttlSec * second) with
               | (s, true) => (s, Some (S1 rec))
               | (s, false) => (s, Some (S2 rec (default "" (rd_get s t c))))
               end
      end
  end.
Definition decode_consume (strict : bool) (reply : script_reply) : res RedisErr ConsumeResult :=
  let with_rec js f := match unmarshal js with Some rec => Ok (f rec) | None => Err EUnmarshal end in
  match reply with
  | S1 js => with_rec js (fun rec => mkConsume ConsumeOK rec "")
  | S2 js prev => with_rec js (fun rec => mkConsume ConsumeAlreadyDone rec prev)
  | S3 => Ok (mkConsume ConsumeNotFound zero_record "")
  | S4 js => if strict then with_rec js (fun rec => mkConsume ConsumeExpired rec "")
             else Ok (mkConsume ConsumeExpired (default zero_record (unmarshal js)) "")
  end.
Definition run_consume (r : RedisRegistry) (s : S) (lk : link) (now t : Z) (id consumer : string) : S * option script_reply :=
  match over lk s (markConsumedScript s t (key r id) (consumedKey r id) consumer (UnixNano now) (marker_seconds r)) with
  | (s, Some (Some reply)) => (s, Some reply)
  | (s, _) => (s, None)
  end.
Definition MarkConsumed (r : RedisRegistry) (s : S) (lk : link) (now t : Z) (id consumer : string) : S * res RedisErr ConsumeResult :=
  match run_consume r s lk now t id consumer with
  | (s, Some reply) => (s, decode_consume true reply)
  | (s, None) => (s, Err ERedis)
  end.
(** The pipeline: a script per item, each with its own outcome. *)
Definition consume_item (r : RedisRegistry) (s : S) (lk : link) (now t : Z) (q : ConsumeRequest) : S * ConsumeResult :=
  let unknown := mkConsume ConsumeStatusUnknown zero_record "" in
  match run_consume r s lk now t (q_QuoteID q) (q_ConsumerID q) with
  | (s, Some reply) => (s, match decode_consume false reply with Ok c => c | _ => unknown end)
  | (s, None) => (s, unknown)
  end.
Fixpoint MarkConsumedMany (r : RedisRegistry) (s : S) (now : Z) (reqs : list (ConsumeRequest * link * Z)) : S * list ConsumeResult :=
  match reqs with
  | [] => (s, [])
  | (q, lk, t) :: reqs => let '(s, c) := consume_item r s lk now t q in let '(s, cs) := MarkConsumedMany r s now reqs in (s, c :: cs)
  end.

(** ** Lookups *)
Definition lookupScript (s : S) (t : Z) (k c : string) : option string * option string := (rd_get s t k, rd_get s t c).
Definition decodeLookup (reply : option string * option string) : res RedisErr LookupResult :=
  match reply with
  | (None, None) => Ok (mkLookup false zero_record false "")
  | (Some js, None) => match unmarshal js with Some rec => Ok (mkLookup true rec false "") | None => Err EUnmarshal end
  | (Some js, Some prev) => match unmarshal js with Some rec => Ok (mkLookup true rec true prev) | None => Err EUnmarshal end
  | (None, Some prev) => Ok (mkLookup false zero_record true prev)
  end.
Definition Lookup (r : RedisRegistry) (s : S) (lk : link) (t : Z) (id : string) : res RedisErr LookupResult :=
  match lk with Up => decodeLookup (lookupScript s t (key r id) (consumedKey r id)) | _ => Err ERedis end.
Definition LookupMany (r : RedisRegistry) (s : S) (ids : list (string * link * Z)) : list LookupResult :=
  map (fun '(id, lk, t) => match Lookup r s lk t id with Ok l => l | _ => mkLookup false zero_record false "" end) ids.

(** ** Swaps *)
Definition PutSwap (r : RedisRegistry) (s : S) (lk : link) (now t : Z) (rec : SwapRecord) : S * option RedisErr :=
  if s_ValidUntil rec <=? s_IssuedAt rec then (s, Some (EReg ErrInvalidRecord))
  else if decide (s_SwapID rec = "" \/ s_NearID rec = "" \/ s_FarID rec = "") then (s, Some (EReg ErrInvalidRecord))
  else match marshal_swap rec with
       | None => (s, Some EMarshal)
       | Some body =>
           let left := remaining (s_ValidUntil rec) now (rr_grace r) in
           if left <=? 0 then (s, None)
           else match over lk s (rd_set s t (swapKey r (s_SwapID rec)) body (px left), tt) with
                | (s, Some _) => (s, None)
                | (s, None) => (s, Some ERedis)
                end
       end.
Definition GetSwap (r : RedisRegistry) (s : S) (lk : link) (t : Z) (swapID : string) : res RedisErr SwapRecord :=
  match lk with
  | Up =>
      match rd_get s t (swapKey r swapID) with
      | None => Err (EReg ErrSwapNotFound)
      | Some body => match unmarshal_swap body with Some rec => Ok rec | None => Err EUnmarshal end
      end
  | _ => Err ERedis
  end.
Definition Delete (r : RedisRegistry) (s : S) (lk : link) (t : Z) (id : string) : S * option RedisErr :=
  if decide (id = "") then (s, None)
  else match over lk s (rd_del s t [key r id; consumedKey r id], tt) with (s, Some _) => (s, None) | (s, None) => (s, Some ERedis) end.
Definition DeleteSwap (r : RedisRegistry) (s : S) (lk : link) (t : Z) (swapID : string) : S * option RedisErr :=
  if decide (swapID = "") then (s, None)
  else match over lk s (rd_del s t [swapKey r swapID], tt) with (s, Some _) => (s, None) | (s, None) => (s, Some ERedis) end.
End registry.

(** * Laws
    Laws of the quote registry on Redis (RedisRegistry): a quote is consumed at most
    once as long as its marker outlives it, and how it is consumed twice when it does
    not; what the other methods answer. *)

(** * Keys *)
Fixpoint last_char (s : string) : option Ascii.ascii := match s with "" => None | String c "" => Some c | String _ s => last_char s end.
Lemma last_char_app (a b : string) : b <> "" -> last_char (a +:+ b) = last_char b.
Proof.
  intros Hb. induction a as [|c a IH]; [done|]. change (String c a +:+ b) with (String c (a +:+ b)). simpl. rewrite IH.
  destruct (a +:+ b) eqn:E; [|done]. apply (f_equal String.length) in E. rewrite str_length_app in E. destruct b; [done|]. simpl in E. lia.
Qed.
Lemma key_inj r id id' : key r id = key r id' -> id = id'.
Proof. unfold key. intros E. do 2 apply str_app_inj_l in E. by apply str_app_inj_r in E. Qed.
Lemma consumedKey_inj r id id' : consumedKey r id = consumedKey r id' -> id = id'.
Proof. unfold consumedKey. intros E. do 2 apply str_app_inj_l in E. by apply str_app_inj_r in E. Qed.
Lemma key_not_consumed r id id' : key r id <> consumedKey r id'.
Proof.
  unfold key, consumedKey. intros E. do 2 apply str_app_inj_l in E. apply (f_equal last_char) in E. by rewrite !last_char_app in E.
Qed.
Lemma swapKey_other r sw id : swapKey r sw <> key r id /\ swapKey r sw <> consumedKey r id.
Proof. unfold swapKey, key, consumedKey. split; intros E; apply str_app_inj_l in E; discriminate E. Qed.

(** * Consumption *)
Section once.
Context {S : Type} `{RedisLaws S}.
Context (marshal : Record_ -> option string) (marshal_swap : SwapRecord -> option string) (lua_valid_until : string -> option (option f64)) (px : Z -> Z).
(** The script sees the validity of a record as the nearest double. *)
Context (Hjson : forall rec js, marshal rec = Some js -> lua_valid_until js = Some (Some (f_of_Z (r_ValidUntil rec)))).
Context (r : RedisRegistry).

(** The calls of any number of instances, in the order in which the server executes
    them: [now] is the caller's clock, [t] the server's. *)
Inductive rd_ev :=
| VPut (lk : link) (now t : Z) (rec : Record_)
| VConsume (lk : link) (now t : Z) (id consumer : string)
| VPutSwap (lk : link) (now t : Z) (rec : SwapRecord)
| VDelete (lk : link) (t : Z) (id : string)
| VDeleteSwap (lk : link) (t : Z) (swapID : string).
Definition ev_time (e : rd_ev) : Z := match e with VPut _ _ t _ | VConsume _ _ t _ _ | VPutSwap _ _ t _ | VDelete _ t _ | VDeleteSwap _ t _ => t end.
Definition rd_step (s : S) (e : rd_ev) : S :=
  match e with
  | VPut lk now t rec => (Put marshal px r s lk now t rec).1
  | VConsume lk now t id c => (run_consume lua_valid_until r s lk now t id c).1
  | VPutSwap lk now t rec => (PutSwap marshal_swap px r s lk now t rec).1
  | VDelete lk t id => (Delete r s lk t id).1
  | VDeleteSwap lk t id => (DeleteSwap r s lk t id).1
  end.
(** The script ran and took the quote, whether or not the caller heard of it. *)
Definition takes (id : string) (s : S) (e : rd_ev) : bool :=
  match e with
  | VConsume lk now t id' c =>
      bool_decide (id' = id) &&
      match lk with
      | LostBefore => false
      | _ => match (markConsumedScript lua_valid_until s t (key r id') (consumedKey r id') c (UnixNano now) (marker_seconds r)).2 with
             | Some (S1 _) => true | _ => false end
      end
  | _ => false
  end.
Fixpoint taken (id : string) (s : S) (es : list rd_ev) : nat :=
  match es with [] => 0 | e :: es => (if takes id s e then 1 else 0) + taken id (rd_step s e) es end.
Fixpoint in_time (t : Z) (es : list rd_ev) : Prop := match es with [] => True | e :: es => t <= ev_time e /\ in_time (ev_time e) es end.

Context (id : string) (VU skew : Z).
Definition marker_ttl : Z := marker_seconds r * second.
(** Records of the quote end by [VU]; the quote is not deleted; a caller's clock is at
    most [skew] behind the server's, and a marker set at the time of any call outlives
    the quote by that much. *)
Definition ev_ok (e : rd_ev) : Prop :=
  match e with
  | VPut _ _ _ rec => r_QuoteID rec = id -> r_ValidUntil rec <= VU
  | VConsume _ now t id' _ => id' = id -> t - skew <= UnixNano now /\ VU <= t + marker_ttl - skew
  | VDelete _ _ id' => id' <> id
  | _ => True
  end.

Definition records_end (s : S) (t : Z) : Prop := forall js, rd_get s t (key r id) = Some js -> exists rec, marshal rec = Some js /\ r_ValidUntil rec <= VU.
Definition marked (s : S) (t t1 : Z) : Prop := VU <= t1 + marker_ttl - skew /\ forall t', t <= t' < t1 + marker_ttl -> is_Some (rd_get s t' (consumedKey r id)).

Lemma marker_seconds_pos : 0 < marker_seconds r.
Proof. unfold marker_seconds. cbv zeta. case_if; bool_lia; lia. Qed.

(** Commands on other keys leave both. *)
Lemma same_keys_end s s' t t' :
  (forall u, t' <= u -> rd_get s' u (key r id) = rd_get s u (key r id)) -> t <= t' -> records_end s t -> records_end s' t'.
Proof. intros Hs Ht Hr js Hj. apply Hr. rewrite Hs in Hj by lia. by eapply rd_get_mono. Qed.
Lemma same_keys_marked s s' t t' t1 :
  (forall u, t' <= u -> rd_get s' u (consumedKey r id) = rd_get s u (consumedKey r id)) -> t <= t' -> marked s t t1 -> marked s' t' t1.
Proof. intros Hs Ht [Hv Hm]. split; [done|]. intros u Hu. rewrite Hs by lia. apply Hm. lia. Qed.

Lemma step_set_other s t k v d k' : k' <> k -> forall u, t <= u -> rd_get (rd_set s t k v d) u k' = rd_get s u k'.
Proof. intros Hne u Hu. rewrite rd_get_set by done. by rewrite decide_False. Qed.
Lemma f_of_Z_le a b : a <= b -> f_of_Z a <=f f_of_Z b = true.
Proof. intros Hab. apply fround_le. by rewrite <-Zle_Qle. Qed.
(** A record is replaced by one that ends as early; nothing else writes it. *)
Lemma step_record s t e : records_end s t -> t <= ev_time e -> ev_ok e -> records_end (rd_step s e) (ev_time e).
Proof.
  intros Hr Ht He. assert (forall s', (forall u, ev_time e <= u -> rd_get s' u (key r id) = rd_get s u (key r id)) -> records_end s' (ev_time e)) as Hsame.
  { intros s' Hs'. by apply (same_keys_end s s' t). }
  destruct e as [lk now u rec|lk now u id' c|lk now u rec|lk u id'|lk u sw]; simpl in *.
  - unfold Put. cbv zeta. repeat (case_if || case_decide); destruct (marshal rec) as [body|] eqn:Eb; try by apply Hsame.
    destruct lk; simpl; try (by apply Hsame); intros js; rewrite rd_get_set by lia;
      (destruct (decide _) as [Ek%key_inj|Hne]; [case_if; intros [= <-]; eauto|intros Hj; apply Hr; by eapply rd_get_mono]).
  - unfold run_consume, markConsumedScript, rd_setnx.
    apply Hsame. intros v Hv. destruct (rd_get s u (key r id')), lk; simpl; try done;
      destruct (lua_valid_until _) as [[?|]|]; simpl; try done; case_if; simpl; try done;
      destruct (rd_get s u (consumedKey r id')); simpl; try done; apply step_set_other; eauto using key_not_consumed.
  - unfold PutSwap. cbv zeta. repeat (case_if || case_decide); destruct (marshal_swap rec); try by apply Hsame.
    apply Hsame. intros v Hv. destruct lk; simpl; try done; apply step_set_other; try done; apply not_eq_sym, swapKey_other.
  - unfold Delete. case_decide; [by apply Hsame|]. apply Hsame. intros v Hv. destruct lk; simpl; try done; rewrite rd_get_del by done;
      rewrite decide_False; try done; rewrite !elem_of_cons; intros [Ek%key_inj|[Ek%key_not_consumed|Ek%elem_of_nil]]; done.
  - unfold DeleteSwap. case_decide; [by apply Hsame|]. apply Hsame. intros v Hv. destruct lk; simpl; try done; rewrite rd_get_del by done;
      rewrite decide_False; try done; rewrite list_elem_of_singleton; apply not_eq_sym, swapKey_other.
Qed.
(** Writing the marker of any quote keeps this one's. *)
Lemma marked_set s t t1 u id' c : marked s t t1 -> t <= u -> rd_get s u (consumedKey r id') = None ->
  marked (rd_set s u (consumedKey r id') c marker_ttl) u t1.
Proof.
  intros [Hv Hm] Ht Hn. split; [done|]. intros v Hu. rewrite rd_get_set by lia. destruct (decide _) as [<-%consumedKey_inj|_]; [|apply Hm; lia].
  destruct (Hm u) as [w Hw]; [lia|congruence].
Qed.
(** A marker is not touched while it lives. *)
Lemma step_marked s t t1 e : marked s t t1 -> t <= ev_time e -> ev_ok e -> marked (rd_step s e) (ev_time e) t1.
Proof.
  intros Hm Ht He. assert (forall s', (forall u, ev_time e <= u -> rd_get s' u (consumedKey r id) = rd_get s u (consumedKey r id)) -> marked s' (ev_time e) t1) as Hsame.
  { intros s' Hs'. by apply (same_keys_marked s s' t). }
  destruct e as [lk now u rec|lk now u id' c|lk now u rec|lk u id'|lk u sw]; simpl in *.
  - unfold Put. cbv zeta. repeat (case_if || case_decide); destruct (marshal rec) as [body|]; try by apply Hsame.
    apply Hsame. intros v Hv. destruct lk; simpl; try done; apply step_set_other; eauto using not_eq_sym, key_not_consumed.
  - unfold run_consume, markConsumedScript, rd_setnx.
    destruct (rd_get s u (key r id')), lk; simpl; try (by apply Hsame);
      destruct (lua_valid_until _) as [[?|]|]; simpl; try (by apply Hsame); case_if; simpl; try (by apply Hsame);
      destruct (rd_get s u (consumedKey r id')) eqn:Ec; simpl; try (by apply Hsame); by apply (marked_set s t).
  - unfold PutSwap. cbv zeta. repeat (case_if || case_decide); destruct (marshal_swap rec); try by apply Hsame.
    apply Hsame. intros v Hv. destruct lk; simpl; try done; apply step_set_other; try done; apply not_eq_sym, swapKey_other.
  - unfold Delete. case_decide; [by apply Hsame|]. apply Hsame. intros v Hv. destruct lk; simpl; try done; rewrite rd_get_del by done;
      rewrite decide_False; try done; rewrite !elem_of_cons; intros [Ek%eq_sym%key_not_consumed|[Ek%consumedKey_inj|Ek%elem_of_nil]]; done.
  - unfold DeleteSwap. case_decide; [by apply Hsame|]. apply Hsame. intros v Hv. destruct lk; simpl; try done; rewrite rd_get_del by done;
      rewrite decide_False; try done; rewrite list_elem_of_singleton; apply not_eq_sym, swapKey_other.
Qed.
(** Taking the quote leaves a marker that outlives it. *)
Lemma takes_marks s e : takes id s e = true -> ev_ok e -> marked (rd_step s e) (ev_time e) (ev_time e).
Proof.
  destruct e as [|lk now u id' c| | |]; simpl; try done. unfold run_consume. destruct (bool_decide_reflect (id' = id)) as [->|]; [|done].
  intros Ht He. destruct (He eq_refl) as [_ Hv]. clear He. unfold markConsumedScript, rd_setnx in *.
  destruct (rd_get s u (key r id)), lk; simpl in *; try done; destruct (lua_valid_until _) as [[?|]|]; simpl in *; try done;
    destruct (_ <=f _); simpl in *; try done; destruct (rd_get s u (consumedKey r id)); simpl in *; try done;
    (split; [done|]; intros v Hu; rewrite rd_get_set, decide_True by (done || lia); unfold marker_ttl in Hu;
     destruct (Z.ltb_spec v (u + marker_seconds r * second)); [eauto|lia]).
Qed.
(** While the marker lives the quote is not taken, and after it the quote is over. *)
Lemma marked_no_take s t t1 e : records_end s t -> marked s t t1 -> t <= ev_time e -> ev_ok e -> takes id s e = false.
Proof.
  intros Hr [Hv Hm] Ht He. destruct e as [|lk now u id' c| | |]; simpl in *; try done.
  destruct (bool_decide_reflect (id' = id)) as [->|]; [|done]. destruct (He eq_refl) as [Hn _]. simpl.
  assert (match (markConsumedScript lua_valid_until s u (key r id) (consumedKey r id) c (UnixNano now) (marker_seconds r)).2 with Some (S1 _) => true | _ => false end = false) as E;
    [|by destruct lk].
  unfold markConsumedScript, rd_setnx. destruct (rd_get s u (key r id)) as [js|] eqn:Ej; [|done].
  destruct (Hr js) as (rec & Hrec & Hend); [by eapply rd_get_mono|]. rewrite (Hjson _ _ Hrec).
  destruct (f_of_Z (r_ValidUntil rec) <=f f_of_Z (UnixNano now)) eqn:Ef; [done|].
  destruct (decide (u < t1 + marker_ttl)) as [Hu|Hu].
  - destruct (Hm u) as [w ->]; [lia|done].
  - rewrite f_of_Z_le in Ef; [done|lia].
Qed.
Lemma taken_marked s t t1 es : records_end s t -> marked s t t1 -> in_time t es -> Forall ev_ok es -> taken id s es = 0%nat.
Proof.
  intros Hr Hm Hin Hok. revert s t Hr Hm Hin. induction Hok as [|e es He Hes IH]; intros s t Hr Hm Hin; [done|]. destruct Hin as [Ht Hin].
  simpl. rewrite (marked_no_take s t t1 e) by done. eapply (IH _ (ev_time e)); eauto using step_record, step_marked.
Qed.
Lemma taken_once s t es : records_end s t -> in_time t es -> Forall ev_ok es -> (taken id s es <= 1)%nat.
Proof.
  intros Hr Hin Hok. revert s t Hr Hin. induction Hok as [|e es He Hes IH]; intros s t Hr Hin; [simpl; lia|]. destruct Hin as [Ht Hin].
  pose proof (step_record s t e Hr Ht He) as Hr'. simpl. destruct (takes id s e) eqn:Et; [|by apply (IH _ (ev_time e))].
  rewrite (taken_marked _ (ev_time e) (ev_time e)); eauto using takes_marks.
Qed.
End once.

(** The batch methods are their single calls in order. *)
Lemma put_command_step {S} `{Redis S} (marshal : Record_ -> option string) px r (s : S) now t rec :
  (Put marshal px r s Up now t rec).1 = match put_command marshal px r now rec with Some (k, v, d) => rd_set s t k v d | None => s end.
Proof.
  unfold Put, put_command, invalid_record. cbv zeta. destruct (_ <=? r_IssuedAt rec); [done|]. destruct (decide _) as [->|Hne]; [done|].
  rewrite (bool_decide_eq_false_2 _ Hne). simpl. destruct (marshal rec); [|done]. by case_if.
Qed.
Lemma PutMany_steps {S} `{Redis S} (marshal : Record_ -> option string) marshal_swap lua_valid_until px r (s : S) now t recs :
  (PutMany marshal px r s Up now t recs).1 = fold_left (rd_step marshal marshal_swap lua_valid_until px r) (map (VPut Up now t) recs) s.
Proof.
  transitivity (fold_left (fun s '(k, v, d) => rd_set s t k v d) (omap (put_command marshal px r now) recs) s).
  { unfold PutMany. by destruct (omap _ _). }
  revert s. induction recs as [|rec recs IH]; intros s; [done|]. cbn [map fold_left rd_step]. rewrite put_command_step, <-IH. simpl.
  by destruct (put_command marshal px r now rec) as [[[k v] d]|].
Qed.
Lemma MarkConsumedMany_steps {S} `{Redis S} marshal unmarshal marshal_swap lua_valid_until px r (s : S) now reqs :
  (MarkConsumedMany unmarshal lua_valid_until r s now reqs).1 =
  fold_left (rd_step marshal marshal_swap lua_valid_until px r) (map (fun '(q, lk, t) => VConsume lk now t (q_QuoteID q) (q_ConsumerID q)) reqs) s.
Proof.
  revert s. induction reqs as [|[[q lk] t] reqs IH]; intros s; [done|]. cbn [map fold_left rd_step MarkConsumedMany]. rewrite <-IH. unfold consume_item.
  destruct (run_consume _ _ _ _ _ _ _ _) as [s' [reply|]]; simpl; by destruct (MarkConsumedMany unmarshal lua_valid_until r s' now reqs).
Qed.

(** * The contract *)
(** C5. A quote kept on Redis is consumed at most once, whatever instances of the price
    service call whatever methods in whatever order and whichever replies are lost: of
    all the calls only one marks it, provided the marker (grace plus one second, cut to
    whole seconds) set at the time of any of the calls outlives the quote, by the most a
    caller's clock is behind the server's, and nobody deletes the quote. *)
Theorem redis_consumed_once {S} `{RedisLaws S} (marshal : Record_ -> option string) marshal_swap lua_valid_until px r id VU skew (s : S) t es :
  (forall rec js, marshal rec = Some js -> lua_valid_until js = Some (Some (f_of_Z (r_ValidUntil rec)))) ->
  rd_get s t (key r id) = None -> in_time t es -> Forall (ev_ok r id VU skew) es ->
  (taken marshal marshal_swap lua_valid_until px r id s es <= 1)%nat.
Proof.
  intros Hjson Hs Hin Hok. apply (taken_once marshal marshal_swap lua_valid_until px Hjson r id VU skew s t); [|done..].
  intros js Hj. congruence.
Qed.

(** The hypotheses hold of a server in a map and of records written as their end. *)
#[local] Abbreviation text_marshal := (fun rec : Record_ => if (0 <=? r_ValidUntil rec) && (r_ValidUntil rec <? 2 ^ 63) then Some (Itoa (r_ValidUntil rec)) else None).
#[local] Abbreviation text_valid := (fun js : string => Some (Some (f_of_Z (Atoi js).1))).
#[local] Abbreviation no_swap := (fun _ : SwapRecord => @None string).
#[local] Abbreviation reg grace := (NewRedisRegistry "" grace).
#[local] Abbreviation quote from until := (mkRecord "q1" "USD/KRW" (mkProfile "" "" "") "SPOT" f0 f0 from until 1 "p1" 0 0 "" "" f0 f0 f0).
Lemma text_json rec js : text_marshal rec = Some js -> text_valid js = Some (Some (f_of_Z (r_ValidUntil rec))).
Proof. cbv beta. case_if; [|done]. intros [= <-]. rewrite Atoi_Itoa; [done|]. bool_lia. Qed.
(** Two seconds of validity and of grace; three callers, one of whom never hears. *)
#[local] Abbreviation thrice :=
  [VPut Up 0 0 (quote 0 (2 * second)); VConsume LostAfter 1000 1000 "q1" "a"; VConsume Up 2000 2000 "q1" "b"; VConsume Up (3 * second) (3 * second) "q1" "c"].
Lemma redis_consumed_once_witness :
  (taken text_marshal no_swap text_valid id (reg (2 * second)) "q1" (∅ : map_redis) thrice <= 1)%nat /\
  taken text_marshal no_swap text_valid id (reg (2 * second)) "q1" (∅ : map_redis) thrice = 1%nat.
Proof.
  split; [|by vm_compute].
  apply (redis_consumed_once _ _ _ _ (reg (2 * second)) "q1" (2 * second) 0 ∅ 0 thrice text_json); [done| |].
  - repeat split; vm_compute; discriminate.
  - repeat (apply Forall_cons_2); try apply Forall_nil_2; cbn [ev_ok]; try (intros _); try split; vm_compute; discriminate.
Defined.

(** * Where the marker does not outlive the quote *)
(** The marker's life is counted from the consumption, grace plus a second, and not from
    the end of the quote: a quote valid for ten seconds is consumed at one second and,
    with a grace of two, again four seconds later. *)
Lemma short_marker_consumed_twice :
  taken text_marshal no_swap text_valid id (reg (2 * second)) "q1" (∅ : map_redis)
    [VPut Up 0 0 (quote 0 (10 * second)); VConsume Up second second "q1" "a"; VConsume Up (5 * second) (5 * second) "q1" "b"] = 2%nat.
Proof. by vm_compute. Qed.
(** A reply lost after the script ran: the caller is told of an error, the quote is
    spent, and its retry hears that it is done, by itself. *)
Lemma lost_reply_already_done :
  let s := (Put text_marshal id (reg 0) (∅ : map_redis) Up 0 0 (quote 0 (2 * second))).1 in
  let '(s, a) := MarkConsumed (fun _ => Some zero_record) text_valid (reg 0) s LostAfter 1000 1000 "q1" "a" in
  let '(_, b) := MarkConsumed (fun _ => Some zero_record) text_valid (reg 0) s Up 2000 2000 "q1" "a" in
  a = Err ERedis /\ b = Ok (mkConsume ConsumeAlreadyDone zero_record "a").
Proof. by vm_compute. Qed.
