(* ===== verification/RedisIdempotency.v ===== *)
(** The idempotency store on Redis (src/pkg/idempotency/redis.go), shared by the
    instances of the gateway: the embedded scripts, the calls, and the contract of one
    leader and one reply across instances. JSON is a parameter. *)

From Stdlib Require Import ZArith Lia.
From S2P Require Import Prelude GoStrings Idempotency Redis.
Local Open Scope Z_scope.

(** [ttl] in nanoseconds. *)
Record RedisStore := mkRedisStore { rs_prefix : string; rs_ttl : Z }.
Definition NewRedisStore (prefix : string) (ttl : Z) : RedisStore :=
  mkRedisStore (if decide (prefix = "") then "wtg:idem:" else prefix) (if ttl <=? 0 then 300 * 1000000000 else ttl).
Definition Milliseconds (d : Z) : Z := d `quot` 1000000.
Definition hex (d : Z) : Ascii.ascii := Ascii.ascii_of_nat (Z.to_nat (if d <? 10 then 48 + d else 87 + d)).
Fixpoint hashHex (h : Hash) : string :=
  match h with [] => "" | b :: h => String (hex (Z.shiftr (b2z b) 4)) (String (hex (Z.land (b2z b) 15)) (hashHex h)) end.
Inductive StoreErr := EEval | EReply | EReplyNil.

Section store.
Context {S : Type} `{Redis S}.
Context (marshal : CachedReply -> string) (unmarshal : string -> option CachedReply).

(** The scripts; [None] is the script error of a time to live that is not positive. *)
Definition replyKey (key : string) : string := key +:+ ":r".
Definition luaReserve (s : S) (t : Z) (key hash : string) (ttl : Z) : S * option (Status * string) :=
  match rd_get s t key with
  | None => if ttl <=? 0 then (s, None) else (rd_set s t key hash (ttl * 1000000), Some (StatusMiss, ""))
  | Some cur =>
      (s, if decide (cur = hash)
          then match rd_get s t (replyKey key) with None => Some (StatusInFlight, "") | Some reply => Some (StatusCached, reply) end
          else Some (StatusConflict, ""))
  end.
Definition luaCommit (s : S) (t : Z) (key replyJSON : string) (ttl : Z) : S * option Z :=
  if ttl <=? 0 then (s, None)
  else (rd_pexpire (rd_set s t (replyKey key) replyJSON (ttl * 1000000)) t key (ttl * 1000000), Some 1).
Definition luaRollback (s : S) (t : Z) (key : string) : S * option Z :=
  match rd_get s t (replyKey key) with Some _ => (s, Some 0) | None => (rd_del s t [key], Some 1) end.

Definition Reserve (r : RedisStore) (s : S) (lk : link) (t : Z) (key : string) (bodyHash : Hash) : S * res StoreErr (Status * option CachedReply) :=
  match over lk s (luaReserve s t (rs_prefix r +:+ key) (hashHex bodyHash) (Milliseconds (rs_ttl r))) with
  | (s, Some (Some (StatusCached, payload))) =>
      (s, match unmarshal payload with Some reply => Ok (StatusCached, Some reply) | None => Err EReply end)
  | (s, Some (Some (status, _))) => (s, Ok (status, None))
  | (s, _) => (s, Err EEval)
  end.
Definition Commit (r : RedisStore) (s : S) (lk : link) (t : Z) (key : string) (reply : option CachedReply) : S * option StoreErr :=
  match reply with
  | None => (s, Some EReplyNil)
  | Some reply =>
      match over lk s (luaCommit s t (rs_prefix r +:+ key) (marshal reply) (Milliseconds (rs_ttl r))) with
      | (s, Some (Some _)) => (s, None)
      | (s, _) => (s, Some EEval)
      end
  end.
Definition Rollback (r : RedisStore) (s : S) (lk : link) (t : Z) (key : string) : S * option StoreErr :=
  match over lk s (luaRollback s t (rs_prefix r +:+ key)) with (s, Some (Some _)) => (s, None) | (s, _) => (s, Some EEval) end.

(** The calls of all the instances in the order in which the server executes them. *)
Inductive rs_op :=
| RReserve (lk : link) (t : Z) (key : string) (h : Hash)
| RCommit (lk : link) (t : Z) (key : string) (r : option CachedReply)
| RRollback (lk : link) (t : Z) (key : string).
Definition op_time (o : rs_op) : Z := match o with RReserve _ t _ _ | RCommit _ t _ _ | RRollback _ t _ => t end.
Definition op_key (o : rs_op) : string := match o with RReserve _ _ k _ | RCommit _ _ k _ | RRollback _ _ k => k end.
Definition rs_step (r : RedisStore) (s : S) (o : rs_op) : S :=
  match o with
  | RReserve lk t k h => (Reserve r s lk t k h).1
  | RCommit lk t k rep => (Commit r s lk t k rep).1
  | RRollback lk t k => (Rollback r s lk t k).1
  end.
End store.

(** * One leader, one reply *)
Lemma hex_inj a b : 0 <= a < 16 -> 0 <= b < 16 -> hex a = hex b -> a = b.
Proof.
  intros Ha Hb E. unfold hex in E. apply (f_equal Ascii.nat_of_ascii) in E. rewrite !Ascii.nat_ascii_embedding in E by (case_if; lia).
  repeat (case_if || case_in E); bool_lia; lia.
Qed.
Lemma hashHex_inj h h' : hashHex h = hashHex h' -> h = h'.
Proof.
  revert h'. induction h as [|b h IH]; intros [|b' h']; try done. cbn [hashHex].
  assert (forall x, 0 <= Z.shiftr (b2z x) 4 < 16 /\ 0 <= Z.land (b2z x) 15 < 16 /\ b2z x = 16 * Z.shiftr (b2z x) 4 + Z.land (b2z x) 15) as Hb.
  { intros x. pose proof (b2z_range x). change 15 with (Z.ones 4). rewrite Z.land_ones, Z.shiftr_div_pow2 by lia. change (2 ^ 4) with 16. divmod_lia. }
  intros E. injection E as E1 E2 E3. destruct (Hb b) as (? & ? & Eb), (Hb b') as (? & ? & Eb'). apply hex_inj in E1, E2; [|done..].
  f_equal; [|auto]. apply b2z_inj. lia.
Qed.

Section leader.
Context {S : Type} `{RedisLaws S}.
Context (marshal : CachedReply -> string) (unmarshal : string -> option CachedReply).
Context (r : RedisStore) (key : string).
#[local] Abbreviation K := (rs_prefix r +:+ key).
Definition ttl_ns : Z := Milliseconds (rs_ttl r) * 1000000.

(** Every call comes in its turn. *)
Fixpoint in_order (t : Z) (os : list rs_op) (t' : Z) : Prop :=
  match os with [] => t <= t' | o :: os => t <= op_time o /\ in_order (op_time o) os t' end.
(** A call on another key has no key in common with this one. *)
Definition apart (o : rs_op) : Prop := op_key o <> key +:+ ":r" /\ key <> op_key o +:+ ":r".
Definition quiet (o : rs_op) : Prop := apart o /\ match o with RReserve _ _ _ _ => True | RCommit _ _ k _ | RRollback _ _ k => k <> key end.
Definition quiet_committed (o : rs_op) : Prop := apart o /\ match o with RCommit _ _ k _ => k <> key | _ => True end.

Definition held (s : S) (t : Z) (hash : string) (reply : option string) (deadline : Z) : Prop :=
  forall u, t <= u < deadline -> rd_get s u K = Some hash /\ rd_get s u (replyKey K) = reply.

Lemma held_same s s' t t' hash reply d :
  t <= t' -> (forall u, t' <= u -> rd_get s' u K = rd_get s u K /\ rd_get s' u (replyKey K) = rd_get s u (replyKey K)) ->
  held s t hash reply d -> held s' t' hash reply d.
Proof. intros Ht Hs Hh u Hu. destruct (Hs u) as [-> ->]; [lia|]. apply Hh. lia. Qed.
Lemma replyKey_app p k : replyKey (p +:+ k) = p +:+ (k +:+ ":r").
Proof. unfold replyKey. by rewrite str_app_assoc. Qed.
Lemma own_reply (k : string) : k <> k +:+ ":r".
Proof. intros E. apply (f_equal String.length) in E. rewrite str_length_app in E. simpl in E. lia. Qed.
Lemma other_keys o : op_key o <> key -> apart o ->
  let k := rs_prefix r +:+ op_key o in K <> k /\ K <> replyKey k /\ replyKey K <> k /\ replyKey K <> replyKey k.
Proof.
  intros Hne [Ha Hb]. cbv zeta. rewrite !replyKey_app. repeat split; intros E; apply str_app_inj_l in E; try done.
  by apply str_app_inj_r in E.
Qed.

Lemma quiet_other_held s t o hash reply d :
  op_key o <> key -> apart o -> t <= op_time o -> held s t hash reply d -> held (rs_step marshal unmarshal r s o) (op_time o) hash reply d.
Proof.
  intros Hne Ha Ht. destruct (other_keys o Hne Ha) as (K1 & K2 & K3 & K4). apply held_same; [done|]. intros u Hu.
  destruct o as [lk v k h|lk v k rep|lk v k]; cbn [rs_step op_key op_time] in *.
  - unfold Reserve, luaReserve. destruct (rd_get s v (rs_prefix r +:+ k)) as [cur|], lk; cbn; try done.
    + destruct (decide _); [|done]. by destruct (rd_get s v (replyKey _)).
    + case_if; [done|]. simpl. rewrite !rd_get_set, !decide_False by done. done.
    + case_if; [done|]. simpl. rewrite !rd_get_set, !decide_False by done. done.
  - destruct rep as [rep|]; [|done]. unfold Commit, luaCommit. destruct lk; cbn; repeat case_if; try done; cbn;
      rewrite !rd_get_pexpire, !rd_get_set, !decide_False by done; done.
  - unfold Rollback, luaRollback. destruct lk; cbn; try done; destruct (rd_get s v (replyKey _)); try done; cbn;
      rewrite !rd_get_del, !decide_False by (done || rewrite list_elem_of_singleton; done); done.
Qed.
(** The reservation, and then the reply, stay what they are. *)
Lemma reserve_held s t lk u h hash reply d : t <= u -> held s t hash reply d -> held (Reserve unmarshal r s lk u key h).1 u hash reply d.
Proof.
  intros Ht Hh. destruct (decide (u < d)) as [Hu|Hu]; [|intros w Hw; lia]. apply (held_same s _ t); [done| |done]. intros w Hw.
  destruct (Hh u) as [Hk _]; [lia|]. unfold Reserve, luaReserve. rewrite Hk. destruct lk; cbn; try done.
  destruct (decide _); [|done]. by destruct (rd_get s u (replyKey K)).
Qed.
Lemma rollback_held s t lk u hash reply d : t <= u -> held s t hash (Some reply) d -> held (Rollback r s lk u key).1 u hash (Some reply) d.
Proof.
  intros Ht Hh. destruct (decide (u < d)) as [Hu|Hu]; [|intros w Hw; lia]. apply (held_same s _ t); [done| |done]. intros w Hw.
  destruct (Hh u) as [_ Hk]; [lia|]. unfold Rollback, luaRollback. rewrite Hk. by destruct lk.
Qed.
Lemma step_held s t o hash reply d :
  t <= op_time o -> match reply with None => quiet o | Some _ => quiet_committed o end ->
  held s t hash reply d -> held (rs_step marshal unmarshal r s o) (op_time o) hash reply d.
Proof.
  intros Ht Hq Hh. destruct (decide (op_key o = key)) as [E|Hne].
  - destruct reply as [reply|]; destruct Hq as [_ Hq]; destruct o; cbn [rs_step op_key op_time] in *; subst; try done; eauto using reserve_held, rollback_held.
  - apply (quiet_other_held s t); try done. by destruct reply; destruct Hq.
Qed.
Lemma steps_held os s t t' hash reply d :
  in_order t os t' -> Forall (fun o => match reply with None => quiet o | Some _ => quiet_committed o end) os ->
  held s t hash reply d -> held (fold_left (rs_step marshal unmarshal r) os s) t' hash reply d.
Proof.
  revert s t. induction os as [|o os IH]; intros s t Hin Hq Hh; simpl in *.
  - intros u Hu. apply Hh. lia.
  - destruct Hin as [Ht Hin]. inversion Hq; subst. eapply IH; eauto using step_held.
Qed.
Lemma held_answers s t h h2 reply d rep :
  held s t (hashHex h) reply d -> t < d -> (reply = None /\ rep = None \/ exists js, reply = Some js /\ unmarshal js = rep /\ is_Some rep) ->
  (Reserve unmarshal r s Up t key h2).2 = Ok (if bool_decide (h = h2) then (match rep with None => StatusInFlight | Some _ => StatusCached end, rep) else (StatusConflict, None)).
Proof.
  intros Hh Ht Hrep. destruct (Hh t) as [Hk Hr]; [lia|]. unfold Reserve, luaReserve. rewrite Hk. cbn [over fst snd].
  destruct (decide (hashHex h = hashHex h2)) as [E|E].
  - rewrite Hr. apply hashHex_inj in E as ->. rewrite bool_decide_eq_true_2 by done.
    destruct Hrep as [[-> ->]|(js & -> & Eu & [x ->])]; [done|]. cbn. by rewrite Eu.
  - rewrite bool_decide_eq_false_2; [done|]. congruence.
Qed.
Lemma reserve_miss_held s0 s1 h t o :
  Reserve unmarshal r s0 Up t key h = (s1, Ok (StatusMiss, o)) -> rd_get s0 t (replyKey K) = None ->
  0 < Milliseconds (rs_ttl r) /\ held s1 t (hashHex h) None (t + ttl_ns).
Proof.
  unfold Reserve, luaReserve. intros Hm Hno. destruct (rd_get s0 t K) as [cur|] eqn:Ek; cbn in Hm.
  - destruct (decide _); [|done]. rewrite Hno in Hm. done.
  - destruct (Z.leb_spec (Milliseconds (rs_ttl r)) 0) as [|Hpos]; [done|]. injection Hm as <- _. split; [done|]. intros u Hu.
    rewrite !rd_get_set, decide_True, decide_False by (done || lia || (rewrite replyKey_app; intros E; apply str_app_inj_l in E; by symmetry in E; apply own_reply in E)).
    rewrite (proj2 (Z.ltb_lt _ _)) by (unfold ttl_ns in Hu; lia). split; [done|].
    destruct (rd_get s0 u (replyKey K)) as [v|] eqn:E; [|done]. apply (rd_get_mono s0 t) in E; [congruence|lia].
Qed.
Lemma commit_held s tc lk hash d rep :
  held s tc hash None d -> tc < d -> 0 < Milliseconds (rs_ttl r) -> lk <> LostBefore ->
  held (Commit marshal r s lk tc key (Some rep)).1 tc hash (Some (marshal rep)) (tc + ttl_ns).
Proof.
  intros Hh Ht Hpos Hlk u Hu. destruct (Hh tc) as [Hk _]; [lia|]. assert (K <> replyKey K /\ replyKey K <> K) as [N1 N2].
  { rewrite replyKey_app. split; intros E; [|symmetry in E]; apply str_app_inj_l in E; by apply own_reply in E. }
  unfold Commit, luaCommit. rewrite (proj2 (Z.leb_gt _ _)) by done. unfold ttl_ns in Hu.
  assert (forall s', s' = rd_pexpire (rd_set s tc (replyKey K) (marshal rep) (Milliseconds (rs_ttl r) * 1000000)) tc K (Milliseconds (rs_ttl r) * 1000000) ->
    rd_get s' u K = Some hash /\ rd_get s' u (replyKey K) = Some (marshal rep)) as Hs; [|destruct lk; try done; by apply Hs].
  intros s' ->. rewrite !rd_get_pexpire, !rd_get_set by lia. rewrite (decide_True (P := K = K)), (decide_False (P := K = replyKey K)), Hk by done.
  rewrite (decide_False (P := replyKey K = K)), (decide_True (P := replyKey K = replyKey K)) by done. rewrite (proj2 (Z.ltb_lt _ _)) by lia. done.
Qed.
End leader.


(** A server in a map, and a serializer for the replies. *)
#[local] Abbreviation js_reply := (fun r : CachedReply => to_text (StatusCode r, map b2z (Body r))).
#[local] Abbreviation unjs_reply := (fun s : string => option_map (fun '(c, b) => mkReply c (map z2b b)) (of_text (A := Z * list Z) s)).
Lemma js_reply_roundtrip x : unjs_reply (js_reply x) = Some x.
Proof.
  cbv beta. rewrite of_to_text. simpl. rewrite map_map. do 2 f_equal. destruct x as [c b]. simpl. f_equal.
  induction b as [|y b IH]; simpl; [done|]. by rewrite z2b_b2z, IH.
Qed.
#[local] Abbreviation store := (NewRedisStore "" 100000000).
#[local] Abbreviation mid := [RReserve Up 12 "u|k" (wh x01); RReserve LostAfter 13 "v|k" (wh x02); RRollback Up 14 "v|k"].

(** * Where the contract stops *)
(** A commit after the reservation has gone leaves a reply without a key: the next
    request for the key leads, with any body, and its duplicate, while it works, is
    answered with the reply of the request before. *)
Lemma late_commit_leaves_reply :
  let s1 := (Reserve unjs_reply store (∅ : map_redis) Up 0 "u|k" (wh x01)).1 in
  let s2 := (Commit js_reply store s1 Up 100000001 "u|k" (Some (mkReply 200 [x41]))).1 in
  let '(s3, a) := Reserve unjs_reply store s2 Up 100000002 "u|k" (wh x02) in
  a = Ok (StatusMiss, None) /\ (Reserve unjs_reply store s3 Up 100000003 "u|k" (wh x02)).2 = Ok (StatusCached, Some (mkReply 200 [x41])).
Proof. by vm_compute. Qed.
(** The reply of a key is kept under a name that is itself a key: a header that ends in
    [:r] overwrites the reply of the header without it, whose caller then gets an error. *)
Lemma reply_key_collides :
  let s1 := (Reserve unjs_reply store (∅ : map_redis) Up 0 "u|k:r" (wh x02)).1 in
  let '(s2, a) := Reserve unjs_reply store s1 Up 1 "u|k" (wh x01) in
  a = Ok (StatusMiss, None) /\ (Reserve unjs_reply store s2 Up 2 "u|k" (wh x01)).2 = Err EReply /\
  (Reserve unjs_reply store (Rollback store s2 Up 3 "u|k").1 Up 4 "u|k" (wh x03)).2 = Ok (StatusConflict, None).
Proof. by vm_compute. Qed.
