(* ===== verification/FixMd.v ===== *)
(** Market data in FIX (src/pkg/fixmd and the parsers of src/cmd/quote-forwarder): the
    single-scan parser of the hot path, the field-by-field parser it stands in for, and
    why a message is refused.

    The laws follow the definitions. *)

From Stdlib Require Import ZArith QArith Lia.
From S2P Require Import Prelude GoStrings Strconv Float64 FloatText Best.
Local Open Scope Z_scope.
Local Open Scope wtg_scope.

Definition SOH : byte := x01.
Definition str (b : list byte) : string := String.string_of_list_byte b.
(** [indexByte(field, '=')] with both sides of it; [None]: no tag in front of one. *)
Fixpoint cut_eq (tag field : list byte) : option (list byte * list byte) :=
  match field with
  | [] => None
  | b :: field => if Byte.eqb b x3d then Some (tag, field) else cut_eq (tag ++ [b]) field
  end.
Definition tag_val (field : list byte) : option (string * list byte) :=
  match cut_eq [] field with
  | Some ([], _) | None => None
  | Some (tag, val) => Some (str tag, val)
  end.

(** * The single scan *)
Record Snapshot := mkSnap {
  sn_Sym : string; sn_Bid : f64; sn_Ask : f64; sn_Last : f64; sn_LastQty : f64; sn_BidSize : f64; sn_AskSize : f64 }.
Definition empty_snap : Snapshot := mkSnap "" f0 f0 f0 f0 f0 f0.
Definition or_first (old new : f64) : f64 := if old ==f f0 then new else old.
Definition set_price (s : Snapshot) (ty : option byte) (f : f64) : Snapshot :=
  match ty with
  | Some x30 => mkSnap (sn_Sym s) (or_first (sn_Bid s) f) (sn_Ask s) (sn_Last s) (sn_LastQty s) (sn_BidSize s) (sn_AskSize s)
  | Some x31 => mkSnap (sn_Sym s) (sn_Bid s) (or_first (sn_Ask s) f) (sn_Last s) (sn_LastQty s) (sn_BidSize s) (sn_AskSize s)
  | Some x32 => mkSnap (sn_Sym s) (sn_Bid s) (sn_Ask s) (or_first (sn_Last s) f) (sn_LastQty s) (sn_BidSize s) (sn_AskSize s)
  | _ => s
  end.
Definition set_size (s : Snapshot) (ty : option byte) (f : f64) : Snapshot :=
  match ty with
  | Some x30 => mkSnap (sn_Sym s) (sn_Bid s) (sn_Ask s) (sn_Last s) (sn_LastQty s) (or_first (sn_BidSize s) f) (sn_AskSize s)
  | Some x31 => mkSnap (sn_Sym s) (sn_Bid s) (sn_Ask s) (sn_Last s) (sn_LastQty s) (sn_BidSize s) (or_first (sn_AskSize s) f)
  | Some x32 => mkSnap (sn_Sym s) (sn_Bid s) (sn_Ask s) (sn_Last s) (or_first (sn_LastQty s) f) (sn_BidSize s) (sn_AskSize s)
  | _ => s
  end.
Definition scan_tag (st : Snapshot * option byte) (tag : string) (val : list byte) : Snapshot * option byte :=
  let '(s, ty) := st in
  if bool_decide (tag = "55") then
    (if bool_decide (sn_Sym s = "") then mkSnap (str val) (sn_Bid s) (sn_Ask s) (sn_Last s) (sn_LastQty s) (sn_BidSize s) (sn_AskSize s) else s, ty)
  else if bool_decide (tag = "269") then (s, match val with b :: _ => Some b | [] => ty end)
  else if bool_decide (tag = "270") then (match ParseFloat (str val) with Some f => set_price s ty f | None => s end, ty)
  else if bool_decide (tag = "271") then (match ParseFloat (str val) with Some f => set_size s ty f | None => s end, ty)
  else st.
Definition scan_field (st : Snapshot * option byte) (field : list byte) : Snapshot * option byte :=
  match tag_val field with Some (tag, val) => scan_tag st tag val | None => st end.
Fixpoint scan (st : Snapshot * option byte) (field buf : list byte) : Snapshot * option byte :=
  match buf with
  | [] => scan_field st field
  | b :: buf => if Byte.eqb b SOH then scan (scan_field st field) [] buf else scan st (field ++ [b]) buf
  end.
Definition ParseSnapshot (buf : list byte) : Snapshot * bool :=
  let s := (scan (empty_snap, None) [] buf).1 in
  (s, negb (bool_decide (sn_Sym s = "")) && (f0 <f sn_Bid s) && (sn_Bid s <=f sn_Ask s)).
(** The hot path hands on the seven values. *)
Definition fastExtractV1 (buf : list byte) : Snapshot * bool := ParseSnapshot buf.
Definition classifyInvalid (sym : string) (bid ask : f64) : string :=
  if bool_decide (sym = "") then "missing_symbol"
  else if (bid ==f f0) && (ask ==f f0) then "not_a_quote"
  else if (bid <=f f0) || (ask <=f f0) then "non_positive_price"
  else if ask <f bid then "crossed_spread"
  else "other".

(** * Field by field *)
(** [bytes.Split(buf, {SOH})]. *)
Fixpoint split_SOH (field buf : list byte) : list (list byte) :=
  match buf with [] => [field] | b :: buf => if Byte.eqb b SOH then field :: split_SOH [] buf else split_SOH (field ++ [b]) buf end.
Definition fixFields (buf : list byte) : list (string * list byte) := omap tag_val (split_SOH [] buf).
Definition mdEntryTypeLabel (v : string) : string :=
  if bool_decide (v = "0") then "bid" else if bool_decide (v = "1") then "ask" else if bool_decide (v = "2") then "trade"
  else if bool_decide (v = "4") then "open" else if bool_decide (v = "5") then "close" else if bool_decide (v = "6") then "settle"
  else if bool_decide (v = "7") then "high" else if bool_decide (v = "8") then "low" else if bool_decide (v = "B") then "vwap"
  else "type" +:+ v.
Definition mdUpdateActionLabel (v : string) : string :=
  if bool_decide (v = "0") then "new" else if bool_decide (v = "1") then "change" else if bool_decide (v = "2") then "delete" else v.
Record mdEntry := mkMd { md_Action : string; md_Type : string; md_Symbol : string; md_Px : f64; md_Qty : f64 }.
Definition empty_entry : mdEntry := mkMd "" "" "" f0 f0.
Record quoteEnvelope := mkQEnv {
  qe_Ts : string; qe_Feed : string; qe_Seq : Z; qe_MsgType : string; qe_Symbol : string; qe_Sender : string; qe_Target : string;
  qe_Entries : list mdEntry; qe_Fix : string; qe_Raw : string }.
(** [f, _ := strconv.ParseFloat(s, 64)]: a range error comes with the infinity. *)
Definition atof (s : string) : f64 :=
  match special s with
  | Some x => x
  | None => match readFloat s with None => f0 | Some (neg, q) => fround neg (if neg then - q else q)%Q end
  end.
Record parse := mkParse { pa_cur : option mdEntry; pa_top : string; pa_entries : list mdEntry; pa_type : string; pa_sender : string; pa_target : string }.
Definition set_cur (p : parse) (c : mdEntry) : parse := mkParse (Some c) (pa_top p) (pa_entries p) (pa_type p) (pa_sender p) (pa_target p).
Definition flush_entry (p : parse) : parse :=
  mkParse None (pa_top p) (pa_entries p ++ match pa_cur p with Some c => [c] | None => [] end) (pa_type p) (pa_sender p) (pa_target p).
Definition parse_tag (p : parse) (tag : string) (v : string) : parse :=
  let cur := default empty_entry (pa_cur p) in
  if bool_decide (tag = "35") then
    mkParse (pa_cur p) (pa_top p) (pa_entries p)
      (if bool_decide (v = "W") then "snapshot" else if bool_decide (v = "X") then "incremental" else "msgtype-" +:+ v) (pa_sender p) (pa_target p)
  else if bool_decide (tag = "49") then mkParse (pa_cur p) (pa_top p) (pa_entries p) (pa_type p) v (pa_target p)
  else if bool_decide (tag = "56") then mkParse (pa_cur p) (pa_top p) (pa_entries p) (pa_type p) (pa_sender p) v
  else if bool_decide (tag = "55") then
    match pa_cur p with
    | Some c => set_cur p (mkMd (md_Action c) (md_Type c) v (md_Px c) (md_Qty c))
    | None => mkParse None v (pa_entries p) (pa_type p) (pa_sender p) (pa_target p)
    end
  else if bool_decide (tag = "279") then set_cur (flush_entry p) (mkMd (mdUpdateActionLabel v) "" "" f0 f0)
  else if bool_decide (tag = "269") then
    let p := match pa_cur p with
             | Some c => if bool_decide (md_Type c = "") then p else set_cur (flush_entry p) empty_entry
             | None => set_cur (flush_entry p) empty_entry end in
    let c := default empty_entry (pa_cur p) in
    set_cur p (mkMd (md_Action c) (mdEntryTypeLabel v) (md_Symbol c) (md_Px c) (md_Qty c))
  else if bool_decide (tag = "270") then set_cur p (mkMd (md_Action cur) (md_Type cur) (md_Symbol cur) (atof v) (md_Qty cur))
  else if bool_decide (tag = "271") then set_cur p (mkMd (md_Action cur) (md_Type cur) (md_Symbol cur) (md_Px cur) (atof v))
  else p.
Definition parseQuote (buf : list byte) : quoteEnvelope :=
  match fixFields buf with
  | [] => mkQEnv "" "" 0 "unknown" "" "" "" [] "" (str buf)
  | fs =>
      let p := flush_entry (fold_left (fun p '(tag, val) => parse_tag p tag (str val)) fs (mkParse None "" [] "" "" "")) in
      mkQEnv "" "" 0 (pa_type p) (pa_top p) (pa_sender p) (pa_target p) (pa_entries p) "" ""
  end.
(** The audit document: [ts] is the formatted clock. *)
Definition buildEnvelope (marshal : quoteEnvelope -> list byte) (ts feed : string) (seq : Z) (payload : list byte) (includeFix : bool) : list byte :=
  let env := parseQuote payload in
  let fix_ := if includeFix || bool_decide (qe_MsgType env = "unknown") then str (map (fun b => if Byte.eqb b SOH then x7c else b) payload) else qe_Fix env in
  marshal (mkQEnv ts feed seq (qe_MsgType env) (qe_Symbol env) (qe_Sender env) (qe_Target env) (qe_Entries env) fix_ (qe_Raw env)).
Fixpoint extract_entries (sym : string) (bid ask : f64) (es : list mdEntry) : string * f64 * f64 :=
  match es with
  | [] => (sym, bid, ask)
  | e :: es =>
      let own := if bool_decide (sym = "") then md_Symbol e else sym in
      let '(sym, bid, ask) :=
        if bool_decide (md_Type e = "bid") then (if (bid ==f f0) && (f0 <f md_Px e) then (own, md_Px e, ask) else (sym, bid, ask))
        else if bool_decide (md_Type e = "ask") then (if (ask ==f f0) && (f0 <f md_Px e) then (own, bid, md_Px e) else (sym, bid, ask))
        else (sym, bid, ask) in
      if (f0 <f bid) && (f0 <f ask) then (sym, bid, ask) else extract_entries sym bid ask es
  end.
Definition extractV1 (env : quoteEnvelope) : string * f64 * f64 * bool :=
  let '(sym, bid, ask) := extract_entries "" f0 f0 (qe_Entries env) in
  let sym := if bool_decide (sym = "") then qe_Symbol env else sym in
  if bool_decide (sym = "") || (bid <=f f0) || (ask <=f f0) || (ask <f bid) then ("", f0, f0, false) else (sym, bid, ask, true).

(** * Laws
    Laws of the FIX market-data parsers (FixMd): a snapshot is read back as it was
    written, and the single scan agrees with the field-by-field parser it replaces. *)

(** * Fields on the wire *)
#[local] Abbreviation bytes s := (String.list_byte_of_string s).
Definition field_of (f : string * string) : list byte := bytes f.1 ++ x3d :: bytes f.2.
Definition wire (fs : list (string * string)) : list byte := concat (map (fun f => field_of f ++ [SOH]) fs).
(** No separators inside. *)
Definition clean (f : string * string) : Prop := f.1 <> "" /\ x3d ∉ bytes f.1 /\ SOH ∉ bytes f.1 /\ SOH ∉ bytes f.2.
#[export] Instance clean_dec f : Decision (clean f).
Proof. unfold clean. apply _. Defined.

Lemma str_bytes s : str (bytes s) = s.
Proof. apply String.string_of_list_byte_of_string. Qed.
Lemma bytes_nil s : bytes s = [] -> s = "".
Proof. intros E. by rewrite <-(str_bytes s), E. Qed.
Lemma eqb_neq (a b : byte) : a <> b -> Byte.eqb a b = false.
Proof. intros H. destruct (Byte.eqb a b) eqn:E; [|done]. by apply Byte.byte_dec_bl in E. Qed.
Lemma cut_eq_app pre t v : x3d ∉ t -> cut_eq pre (t ++ x3d :: v) = Some (pre ++ t, v).
Proof.
  revert pre. induction t as [|b t IH]; intros pre Ht; simpl; [by rewrite app_nil_r|]. apply not_elem_of_cons in Ht as [Hb Ht].
  rewrite eqb_neq by done. rewrite IH by done. by rewrite <-app_assoc.
Qed.
Lemma tag_val_field f : clean f -> tag_val (field_of f) = Some (f.1, bytes f.2).
Proof.
  intros (Hn & He & _). unfold tag_val, field_of. rewrite (cut_eq_app [] (bytes f.1) (bytes f.2) He). simpl.
  destruct (bytes f.1) eqn:E; [by apply bytes_nil in E|]. by rewrite <-E, str_bytes.
Qed.
Lemma field_no_SOH f : clean f -> SOH ∉ field_of f.
Proof. intros (_ & _ & H1 & H2). unfold field_of. rewrite elem_of_app, elem_of_cons. intros [?|[?|?]]; [done|discriminate|done]. Qed.
Lemma split_SOH_field pre x rest : SOH ∉ x -> split_SOH pre (x ++ SOH :: rest) = (pre ++ x) :: split_SOH [] rest.
Proof.
  revert pre. induction x as [|b x IH]; intros pre Hx; simpl; [by rewrite app_nil_r|]. apply not_elem_of_cons in Hx as [Hb Hx].
  rewrite eqb_neq by done. rewrite IH by done. by rewrite <-app_assoc.
Qed.
(** The scan is the fold over the split fields. *)
Lemma scan_split st pre buf : scan st pre buf = fold_left scan_field (split_SOH pre buf) st.
Proof. revert st pre. induction buf as [|b buf IH]; intros st pre; simpl; [done|]. destruct (Byte.eqb b SOH); apply IH. Qed.
Lemma split_wire fs : Forall clean fs -> split_SOH [] (wire fs) = map field_of fs ++ [[]].
Proof.
  intros F. induction F as [|f fs Hf _ IH]; [done|]. unfold wire. cbn [map concat]. rewrite <-app_assoc. change ([SOH] ++ ?l) with (SOH :: l).
  rewrite split_SOH_field by by apply field_no_SOH. cbn. f_equal. apply IH.
Qed.
Lemma fixFields_wire fs : Forall clean fs -> fixFields (wire fs) = map (fun f => (f.1, bytes f.2)) fs.
Proof.
  intros F. unfold fixFields. rewrite split_wire by done. induction F as [|f fs Hf _ IH]; [done|]. cbn. rewrite tag_val_field by done. cbn. f_equal. apply IH.
Qed.
Lemma scan_wire fs st : Forall clean fs -> scan st [] (wire fs) = fold_left (fun st f => scan_tag st f.1 (bytes f.2)) fs st.
Proof.
  intros F. rewrite scan_split, split_wire, fold_left_app by done. cbn. revert st. induction F as [|f fs Hf _ IH]; intros st; [done|].
  cbn. unfold scan_field at 2. rewrite tag_val_field by done. apply IH.
Qed.

(** * Snapshots *)
Record entry := mkEntry { en_type : byte; en_px : string; en_size : option string }.
Definition entry_fields (e : entry) : list (string * string) :=
  [("269", str [en_type e]); ("270", en_px e)] ++ match en_size e with Some s => [("271", s)] | None => [] end.
(** Header, symbol, entries, trailer. *)
Definition message (hd : list (string * string)) (sym : string) (es : list entry) (tl : list (string * string)) : list (string * string) :=
  hd ++ [("55", sym)] ++ concat (map entry_fields es) ++ tl.
Definition plain (f : string * string) : Prop := f.1 ∉ ["55"; "269"; "270"; "271"; "279"].
#[export] Instance plain_dec f : Decision (plain f).
Proof. unfold plain. apply _. Defined.

(** The first value of a kind that is not zero. *)
Definition values (ty : byte) (text : entry -> option string) (es : list entry) : list f64 :=
  omap (fun e => if Byte.eqb (en_type e) ty then t ← text e; ParseFloat t else None) es.
Definition first_of (ty : byte) (text : entry -> option string) (es : list entry) (old : f64) : f64 := fold_left or_first (values ty text es) old.
#[local] Abbreviation px e := (Some (en_px e)).
Definition read_snap (s : Snapshot) (es : list entry) : Snapshot :=
  mkSnap (sn_Sym s) (first_of x30 (fun e => px e) es (sn_Bid s)) (first_of x31 (fun e => px e) es (sn_Ask s)) (first_of x32 (fun e => px e) es (sn_Last s))
    (first_of x32 en_size es (sn_LastQty s)) (first_of x30 en_size es (sn_BidSize s)) (first_of x31 en_size es (sn_AskSize s)).

Lemma scan_plain fs st : Forall plain fs -> fold_left (fun st f => scan_tag st f.1 (bytes f.2)) fs st = st.
Proof.
  intros F. revert st. induction F as [|f fs Hf _ IH]; intros st; [done|]. cbn [fold_left]. rewrite IH. unfold plain in Hf. rewrite !not_elem_of_cons in Hf.
  destruct Hf as (? & ? & ? & ? & _). unfold scan_tag. destruct st. by rewrite !bool_decide_eq_false_2.
Qed.
Lemma first_of_cons ty text e es old :
  first_of ty text (e :: es) old = first_of ty text es (if Byte.eqb (en_type e) ty then match text e ≫= ParseFloat with Some v => or_first old v | None => old end else old).
Proof. unfold first_of, values. cbn. destruct (Byte.eqb (en_type e) ty); [|done]. destruct (text e) as [t|]; [|done]. cbn. by destruct (ParseFloat t). Qed.
Lemma scan_269 s ty b : scan_tag (s, ty) "269" (bytes (str [b])) = (s, Some b).
Proof. unfold str. by rewrite String.list_byte_of_string_of_list_byte. Qed.
Lemma scan_270 s ty v : scan_tag (s, ty) "270" (bytes v) = (match ParseFloat v with Some f => set_price s ty f | None => s end, ty).
Proof. transitivity (match ParseFloat (str (bytes v)) with Some f => set_price s ty f | None => s end, ty); [done|by rewrite str_bytes]. Qed.
Lemma scan_271 s ty v : scan_tag (s, ty) "271" (bytes v) = (match ParseFloat v with Some f => set_size s ty f | None => s end, ty).
Proof. transitivity (match ParseFloat (str (bytes v)) with Some f => set_size s ty f | None => s end, ty); [done|by rewrite str_bytes]. Qed.
Lemma scan_entries es st : exists ty, fold_left (fun st f => scan_tag st f.1 (bytes f.2)) (concat (map entry_fields es)) st = (read_snap st.1 es, ty).
Proof.
  revert st. induction es as [|e es IH]; intros [s ty]; [exists ty; by destruct s|]. cbn [map concat]. rewrite fold_left_app.
  destruct (IH (fold_left (fun st f => scan_tag st f.1 (bytes f.2)) (entry_fields e) (s, ty))) as [ty' ->]. exists ty'. f_equal.
  assert ((fold_left (fun st f => scan_tag st f.1 (bytes f.2)) (entry_fields e) (s, ty)).1 =
    (let s1 := match ParseFloat (en_px e) with Some f => set_price s (Some (en_type e)) f | None => s end in
     match en_size e ≫= ParseFloat with Some f => set_size s1 (Some (en_type e)) f | None => s1 end)) as ->.
  { unfold entry_fields. destruct (en_size e) as [z|]; cbn [fold_left app fst snd]; rewrite scan_269, scan_270, ?scan_271; done. }
  unfold read_snap. rewrite !first_of_cons. cbn [mbind option_bind]. cbv zeta.
  destruct (en_type e); destruct (ParseFloat (en_px e)), (en_size e ≫= ParseFloat); cbn; reflexivity.
Qed.

(** * The field-by-field parser on a snapshot *)
#[local] Abbreviation ptag := (fun p f => parse_tag p f.1 f.2).
Definition md_of (e : entry) : mdEntry := mkMd "" (mdEntryTypeLabel (str [en_type e])) "" (atof (en_px e)) (match en_size e with Some s => atof s | None => f0 end).
(** Everything read so far, the open entry included. *)
Definition all_entries (p : parse) : list mdEntry := pa_entries p ++ match pa_cur p with Some c => [c] | None => [] end.
Lemma parse_plain fs p : Forall plain fs -> pa_cur (fold_left ptag fs p) = pa_cur p /\ pa_top (fold_left ptag fs p) = pa_top p /\ pa_entries (fold_left ptag fs p) = pa_entries p.
Proof.
  intros F. revert p. induction F as [|f fs Hf _ IH]; intros p; [done|]. cbn [fold_left]. destruct (IH (ptag p f)) as (-> & -> & ->).
  unfold plain in Hf. rewrite !not_elem_of_cons in Hf. destruct Hf as (H1 & H2 & H3 & H4 & H5 & _). unfold parse_tag.
  rewrite (bool_decide_eq_false_2 _ H1), (bool_decide_eq_false_2 _ H2), (bool_decide_eq_false_2 _ H3), (bool_decide_eq_false_2 _ H4), (bool_decide_eq_false_2 _ H5).
  repeat case_bool_decide; done.
Qed.
Lemma label_not_empty v : mdEntryTypeLabel v <> "".
Proof. unfold mdEntryTypeLabel. repeat case_bool_decide; try done. Qed.
Lemma parse_entry e p : match pa_cur p with Some c => md_Type c <> "" | None => True end ->
  let p' := fold_left ptag (entry_fields e) p in pa_cur p' = Some (md_of e) /\ pa_entries p' = all_entries p /\ pa_top p' = pa_top p.
Proof.
  intros Hc. assert (ptag p ("269", str [en_type e]) = mkParse (Some (mkMd "" (mdEntryTypeLabel (str [en_type e])) "" f0 f0)) (pa_top p) (all_entries p) (pa_type p) (pa_sender p) (pa_target p)) as E.
  { transitivity (let q := match pa_cur p with
             | Some c => if bool_decide (md_Type c = "") then p else set_cur (flush_entry p) empty_entry
             | None => set_cur (flush_entry p) empty_entry end in
      let c := default empty_entry (pa_cur q) in
      set_cur q (mkMd (md_Action c) (mdEntryTypeLabel (str [en_type e])) (md_Symbol c) (md_Px c) (md_Qty c))); [done|].
    destruct (pa_cur p) as [c|] eqn:Ep; [rewrite (bool_decide_eq_false_2 _ Hc)|]; unfold all_entries, set_cur, flush_entry; rewrite Ep; done. }
  unfold entry_fields. cbv zeta. unfold md_of. destruct (en_size e) as [z|]; cbn [fold_left app]; rewrite E; done.
Qed.
Lemma parse_entries es p : match pa_cur p with Some c => md_Type c <> "" | None => True end ->
  let p' := fold_left ptag (concat (map entry_fields es)) p in all_entries p' = all_entries p ++ map md_of es /\ pa_top p' = pa_top p.
Proof.
  revert p. induction es as [|e es IH]; intros p Hc; cbn [map concat]; cbv zeta; [by rewrite app_nil_r|]. rewrite fold_left_app.
  destruct (parse_entry e p Hc) as (E1 & E2 & E3). set (q := fold_left ptag (entry_fields e) p) in *.
  destruct (IH q) as [-> ->]; [rewrite E1; apply label_not_empty|]. rewrite E3. split; [|done]. unfold all_entries at 1. rewrite E1, E2. by rewrite <-app_assoc.
Qed.
Lemma fold_str_bytes fs p : fold_left (fun p '(tag, val) => parse_tag p tag (str val)) (map (fun f : string * string => (f.1, bytes f.2)) fs) p = fold_left ptag fs p.
Proof. revert p. induction fs as [|f fs IH]; intros p; [done|]. cbn [map fold_left fst snd]. rewrite str_bytes. apply IH. Qed.
Lemma parseQuote_message hd sym es tl : Forall clean (message hd sym es tl) -> Forall plain hd -> Forall plain tl ->
  qe_Entries (parseQuote (wire (message hd sym es tl))) = map md_of es /\ qe_Symbol (parseQuote (wire (message hd sym es tl))) = sym.
Proof.
  intros Hc Hh Ht. unfold parseQuote. rewrite fixFields_wire by done. destruct (map _ (message hd sym es tl)) as [|x l] eqn:El; [by unfold message in El; destruct hd|].
  rewrite <-El, fold_str_bytes. clear x l El. cbn [qe_Entries qe_Symbol]. unfold message. rewrite !fold_left_app. cbn [fold_left].
  set (p0 := mkParse None "" [] "" "" ""). destruct (parse_plain hd p0 Hh) as (C1 & _ & E1). set (p1 := fold_left ptag hd p0) in *.
  assert (ptag p1 ("55", sym) = mkParse None sym [] (pa_type p1) (pa_sender p1) (pa_target p1)) as ->.
  { transitivity (match pa_cur p1 with Some c => set_cur p1 (mkMd (md_Action c) (md_Type c) sym (md_Px c) (md_Qty c))
      | None => mkParse None sym (pa_entries p1) (pa_type p1) (pa_sender p1) (pa_target p1) end); [done|]. by rewrite C1, E1. }
  set (p2 := mkParse _ _ _ _ _ _). destruct (parse_entries es p2) as [E2 T2]; [done|]. set (p3 := fold_left ptag (concat _) p2) in *.
  destruct (parse_plain tl p3 Ht) as (C4 & T4 & E4). unfold flush_entry. cbn [pa_entries pa_top]. rewrite C4, T4, E4. done.
Qed.
(** ** Prices *)
Definition positive (x : f64) : Prop := f0 <f x = true.
Lemma positive_nonzero x : positive x -> x ==f f0 = false.
Proof. unfold positive, fltb, feqb. destruct (f0 <=f x), (x <=f f0); done. Qed.
Lemma or_first_positive old v : positive old -> or_first old v = old.
Proof. intros H. unfold or_first. by rewrite positive_nonzero. Qed.
Lemma first_of_positive ty text es old : positive old -> first_of ty text es old = old.
Proof. intros H. unfold first_of. induction (values ty text es) as [|v vs IH]; [done|]. cbn. by rewrite or_first_positive. Qed.
Lemma atof_ParseFloat t v : ParseFloat t = Some v -> atof t = v.
Proof.
  unfold ParseFloat, atof. destruct (special t); [by intros [= ->]|]. destruct (readFloat t) as [[neg q]|]; [|done]. by destruct (fround _ _); intros [= <-].
Qed.
(** Bids and offers are positive numbers. *)
Definition priced (e : entry) : Prop := (en_type e = x30 \/ en_type e = x31) -> exists v, ParseFloat (en_px e) = Some v /\ positive v.
Definition zero_or_positive (x : f64) : Prop := x = f0 \/ positive x.
Lemma label_bid ty : bool_decide (mdEntryTypeLabel (str [ty]) = "bid") = Byte.eqb ty x30.
Proof. by destruct ty. Qed.
Lemma label_ask ty : bool_decide (mdEntryTypeLabel (str [ty]) = "ask") = Byte.eqb ty x31.
Proof. by destruct ty. Qed.
Lemma extract_prices es b a : Forall priced es -> zero_or_positive b -> zero_or_positive a ->
  extract_entries "" b a (map md_of es) = ("", first_of x30 (fun e => px e) es b, first_of x31 (fun e => px e) es a).
Proof.
  intros F. revert b a. induction F as [|e es He _ IH]; intros b a Hb Ha; [done|]. cbn [map extract_entries]. rewrite !first_of_cons. cbn [mbind option_bind].
  cbn [md_of md_Type md_Px md_Symbol]. rewrite label_bid, label_ask. unfold priced in He.
  assert (forall b' a', zero_or_positive b' -> zero_or_positive a' -> (if (f0 <f b') && (f0 <f a') then ("", b', a') else extract_entries "" b' a' (map md_of es)) =
    ("", first_of x30 (fun e => px e) es b', first_of x31 (fun e => px e) es a')) as Hcont.
  { intros b' a' Hb' Ha'. destruct (f0 <f b') eqn:Eb; [|by apply IH]. destruct (f0 <f a') eqn:Ea; [|by apply IH]. cbn. by rewrite !first_of_positive. }
  destruct (Byte.eqb (en_type e) x30) eqn:T0; [|destruct (Byte.eqb (en_type e) x31) eqn:T1].
  - apply Byte.byte_dec_bl in T0. rewrite T0 in *. destruct He as (v & Ev & Pv); [by left|]. rewrite (atof_ParseFloat _ _ Ev), Ev. cbn.
    destruct Hb as [->|Hb]; [|by rewrite (positive_nonzero b Hb), (or_first_positive b v Hb); cbn; apply Hcont; [right|]].
    rewrite Pv. cbn. apply Hcont; [by right|done].
  - apply Byte.byte_dec_bl in T1. rewrite T1 in *. destruct He as (v & Ev & Pv); [by right|]. rewrite (atof_ParseFloat _ _ Ev), Ev. cbn.
    destruct Ha as [->|Ha]; [|by rewrite (positive_nonzero a Ha), (or_first_positive a v Ha); cbn; apply Hcont; [|right]].
    rewrite Pv. cbn. apply Hcont; [done|by right].
  - by apply Hcont.
Qed.
Lemma first_of_zero_or_positive ty es old : ty = x30 \/ ty = x31 -> Forall priced es -> zero_or_positive old -> zero_or_positive (first_of ty (fun e => px e) es old).
Proof.
  intros Hty F. revert old. induction F as [|e es He _ IH]; intros old Ho; [done|]. rewrite first_of_cons. apply IH. cbn [mbind option_bind].
  destruct (Byte.eqb (en_type e) ty) eqn:T; [|done]. apply Byte.byte_dec_bl in T. destruct He as (v & -> & Pv); [by rewrite T|].
  unfold or_first. destruct (old ==f f0); [by right|done].
Qed.
Lemma prices_ok b a : zero_or_positive b -> zero_or_positive a -> negb ((b <=f f0) || (a <=f f0) || (a <f b)) = (f0 <f b) && (b <=f a).
Proof.
  assert (forall x, positive x -> x <=f f0 = false) as P by (intros x; unfold positive, fltb; destruct (f0 <=f x), (x <=f f0); done).
  intros [->|Hb]; [done|]. rewrite (P b Hb), Hb. cbn. intros [->|Ha]; [by rewrite (P b Hb)|]. rewrite (P a Ha). cbn.
  destruct (a <f b) eqn:E; cbn.
  - symmetry. unfold fltb in E. destruct (b <=f a); [|done]. by rewrite andb_false_r in E.
  - symmetry. apply fltb_false; [by intros ->|by intros ->|done].
Qed.


#[local] Abbreviation demo_head := [("8", "FIX.4.4"); ("35", "W"); ("49", "OMS")].
#[local] Abbreviation demo_book := [mkEntry x30 "1380.45" (Some "1000000"); mkEntry x31 "1380.55" (Some "1500000"); mkEntry x30 "1380.40" None].

(** * Where they differ, and what neither looks at *)
(** A first bid that is negative: the scan keeps it and refuses the message, the other
    parser passes over it. *)
Lemma negative_bid_differs :
  let m := wire (message demo_head "USDKRW" [mkEntry x30 "-1" None; mkEntry x30 "1380.45" None; mkEntry x31 "1380.55" None] []) in
  (fastExtractV1 m).2 = false /\ extractV1 (parseQuote m) = ("USDKRW", lit (138045 # 100), lit (138055 # 100), true).
Proof. by vm_compute. Qed.
(** An incremental refresh of two instruments is taken for a quote of the first, with
    the bid of one and the offer of the other: the message type is not looked at. *)
Lemma refresh_mixes_instruments :
  (fastExtractV1 (wire [("35", "X"); ("279", "1"); ("55", "USDKRW"); ("269", "0"); ("270", "1380.45"); ("279", "1"); ("55", "EURKRW"); ("269", "1"); ("270", "1500.10")])) =
  (mkSnap "USDKRW" (lit (138045 # 100)) (lit (150010 # 100)) f0 f0 f0 f0, true).
Proof. by vm_compute. Qed.
