(* ===== verification/Forwarder.v ===== *)
(** The quote forwarder (src/cmd/quote-forwarder and src/internal/forwarder/tickhub): a
    feed's reader and worker, batching and splitting, the publishers, and the hub the
    price servers dial into. JSON and protobuf are parameters; the outcome of every
    send is an oracle of the publisher's state. *)

From Stdlib Require Import ZArith QArith Lia Ascii.
From S2P Require Import Prelude Codec GoStrings Float64 Dates Best Handshake Ingest FixMd.
Local Open Scope Z_scope.
Local Open Scope wtg_scope.

(** * Feed specifications *)
(** The arguments are valid UTF-8, of which the loops over runes are loops over bytes. *)
Record feedSpec := mkSpec { f_Label : string; f_Addr : string }.
Fixpoint splitCSV_loop (cur : string) (s : string) : list string :=
  match s with
  | "" => if decide (cur = "") then [] else [cur]
  | String ","%char s => if decide (cur = "") then splitCSV_loop "" s else cur :: splitCSV_loop "" s
  | String c s => splitCSV_loop (cur +:+ String c "") s
  end.
Definition splitCSV (s : string) : list string := splitCSV_loop "" s.
Fixpoint splitColon_loop (cur : string) (s : string) : list string :=
  match s with "" => [cur] | String ":"%char s => cur :: splitColon_loop "" s | String c s => splitColon_loop (cur +:+ String c "") s end.
Definition splitColon (s : string) : list string := splitColon_loop "" s.
Definition feed_item (bindAddr raw : string) : option feedSpec :=
  match splitColon raw with
  | [label; port] => if decide (label = "" \/ port = "") then None else Some (mkSpec label (bindAddr +:+ ":" +:+ port))
  | [label; host; port] => if decide (label = "" \/ port = "") then None else Some (mkSpec label (host +:+ ":" +:+ port))
  | _ => None
  end.
Definition parseFeedSpec (multi listen feed bindAddr : string) : option (list feedSpec) :=
  if decide (multi = "") then Some [mkSpec feed listen] else mapM (feed_item bindAddr) (splitCSV multi).

(** * Publishers *)
Inductive PubErr := PayloadTooLong | PubOther.
Class Publisher (P : Type) := pub_Publish : P -> list JSONEnvelope -> P * option PubErr.

Section publishers.
Context (marshal : JSONEnvelope -> option (list byte)) (marshal_array : list JSONEnvelope -> option (list byte)).
Context (marshal_tick : string -> list byte -> option (list byte)).

(** ** The broker: one frame per batch *)
Definition SubBroadcast : Z := 50.
Definition broadcast_header : BroadcastHeader :=
  mkBcast (replicate 24 x00) (blit 0 (bytes_of "PRICE") (replicate 16 x00)) (replicate 16 x00) (replicate 16 x00) (replicate 16 x00) FCCast SubBroadcast 0 0.
Definition broadcast_body (payload : list byte) : list byte := EncodeBroadcastHeader (replicate broadcastPrefixSize x00) broadcast_header ++ payload.
(** [bk_oracle n]: whether the [n]th send of the client succeeds; [bk_sent]: the frames
    sent, each with the envelopes it was made of. *)
Record brokerPublisher := mkBroker { bk_sent : list (list JSONEnvelope * list byte); bk_n : nat; bk_oracle : nat -> bool }.
Definition publishBroadcast (p : brokerPublisher) (envs : list JSONEnvelope) (payload : list byte) : brokerPublisher * option PubErr :=
  if bk_oracle p (bk_n p) then (mkBroker (bk_sent p ++ [(envs, broadcast_body payload)]) (S (bk_n p)) (bk_oracle p), None)
  else (mkBroker (bk_sent p) (S (bk_n p)) (bk_oracle p), Some PubOther).
Definition broker_wire (envs : list JSONEnvelope) : res PushV1Err (list byte) :=
  match envs with [env] => EncodePushdataV1 marshal env | _ => EncodePushdataBatch marshal_array envs end.
#[export] Instance broker_Publish : Publisher brokerPublisher := fun p envs =>
  match broker_wire envs with
  | Ok wire => publishBroadcast p envs wire
  | Err (PushWire ErrPushdataPayloadTooLong) => (p, Some PayloadTooLong)
  | _ => (p, Some PubOther)
  end.

(** ** The stream to one price server *)
Inductive gstatus := statusOK | statusFailed | statusReconnect.
(** [gp_streams]: the ticks sent on the stream of each generation; [gp_live]: there is
    a stream. *)
Record grpcPublisher := mkGrpc {
  gp_status : gstatus; gp_gen : nat; gp_streams : gmap nat (list (string * list byte)); gp_closed : bool; gp_backoff : Z;
  gp_accepted : Z; gp_dropped : Z; gp_publishOK : Z; gp_publishErr : Z; gp_reconnects : Z; gp_n : nat; gp_oracle : nat -> bool }.
Definition set_status (p : grpcPublisher) (s : gstatus) : grpcPublisher :=
  mkGrpc s (gp_gen p) (gp_streams p) (gp_closed p) (gp_backoff p) (gp_accepted p) (gp_dropped p) (gp_publishOK p) (gp_publishErr p) (gp_reconnects p) (gp_n p) (gp_oracle p).
Definition count_pub (p : grpcPublisher) (ok err : Z) : grpcPublisher :=
  mkGrpc (gp_status p) (gp_gen p) (gp_streams p) (gp_closed p) (gp_backoff p) (gp_accepted p) (gp_dropped p) (wrap 64 (gp_publishOK p + ok)) (wrap 64 (gp_publishErr p + err))
    (gp_reconnects p) (gp_n p) (gp_oracle p).
Definition reconnectBackoff0 : Z := 1000000000.
Definition reconnectBackoffM : Z := 30 * 1000000000.
Definition minDuration (a b : Z) : Z := if a <? b then a else b.
Definition set_backoff (p : grpcPublisher) (b reconnects : Z) : grpcPublisher :=
  mkGrpc (gp_status p) (gp_gen p) (gp_streams p) (gp_closed p) b (gp_accepted p) (gp_dropped p) (gp_publishOK p) (gp_publishErr p) reconnects (gp_n p) (gp_oracle p).
Definition openStream (p : grpcPublisher) (ok : bool) : grpcPublisher * bool :=
  if ok then (mkGrpc statusOK (S (gp_gen p)) (<[S (gp_gen p) := []]> (gp_streams p)) (gp_closed p) (gp_backoff p) (gp_accepted p) (gp_dropped p) (gp_publishOK p)
                (gp_publishErr p) (gp_reconnects p) (gp_n p) (gp_oracle p), true)
  else (p, false).
Definition newGRPCPublisher (oracle : nat -> bool) (ok : bool) : grpcPublisher :=
  let '(p, opened) := openStream (mkGrpc statusOK 0 ∅ false reconnectBackoff0 0 0 0 0 0 0 oracle) ok in if opened then p else set_status p statusFailed.
(** The supervisor: it takes a failure up, and after the wait opens a stream. *)
Definition supervisor_takes (p : grpcPublisher) : grpcPublisher :=
  if gp_closed p then p else match gp_status p with statusFailed => set_status p statusReconnect | _ => p end.
Definition supervisor_opens (p : grpcPublisher) (ok : bool) : grpcPublisher :=
  match openStream p ok with
  | (p, true) => set_backoff p reconnectBackoff0 (wrap 64 (gp_reconnects p + 1))
  | (p, false) => set_backoff (set_status p statusFailed) (minDuration (gp_backoff p * 2) reconnectBackoffM) (gp_reconnects p)
  end.
Inductive ack := AckEOF | AckErr | Ack (accepted dropped : Z).
Definition recvAck (p : grpcPublisher) (gen : nat) (a : ack) : grpcPublisher :=
  match a with
  | AckEOF => p
  | AckErr => if bool_decide (gp_gen p = gen) && negb (gp_closed p) then set_status p statusFailed else p
  | Ack acc dr =>
      mkGrpc (gp_status p) (gp_gen p) (gp_streams p) (gp_closed p) (gp_backoff p) acc dr (gp_publishOK p) (gp_publishErr p) (gp_reconnects p) (gp_n p) (gp_oracle p)
  end.
(** The sends of a batch on the stream of generation [gen]; [n] is its size. *)
Fixpoint send_ticks (p : grpcPublisher) (gen : nat) (n : Z) (envs : list JSONEnvelope) : grpcPublisher * option PubErr :=
  match envs with
  | [] => (count_pub p n 0, None)
  | env :: envs =>
      match marshal env with
      | None => (count_pub p 0 1, Some PubOther)
      | Some body =>
          let p' := mkGrpc (gp_status p) (gp_gen p) (gp_streams p) (gp_closed p) (gp_backoff p) (gp_accepted p) (gp_dropped p) (gp_publishOK p) (gp_publishErr p)
                      (gp_reconnects p) (S (gp_n p)) (gp_oracle p) in
          if gp_oracle p (gp_n p)
          then send_ticks (mkGrpc (gp_status p) (gp_gen p) (<[gen := default [] (gp_streams p !! gen) ++ [(e_Sym env, body)]]> (gp_streams p)) (gp_closed p) (gp_backoff p)
                             (gp_accepted p) (gp_dropped p) (gp_publishOK p) (gp_publishErr p) (gp_reconnects p) (S (gp_n p)) (gp_oracle p)) gen n envs
          else (count_pub (set_status p' statusFailed) 0 n, Some PubOther)
      end
  end.
#[export] Instance grpc_Publish : Publisher grpcPublisher := fun p envs =>
  if gp_closed p then (p, Some PubOther)
  else match gp_status p with
       | statusOK =>
           if (gp_gen p =? 0)%nat then (count_pub p 0 (zlen envs), Some PubOther)
           else send_ticks p (gp_gen p) (zlen envs) envs
       | _ => (count_pub p 0 (zlen envs), Some PubOther)
       end.
Definition grpc_Close (p : grpcPublisher) : grpcPublisher :=
  mkGrpc (gp_status p) (gp_gen p) (gp_streams p) true (gp_backoff p) (gp_accepted p) (gp_dropped p) (gp_publishOK p) (gp_publishErr p) (gp_reconnects p) (gp_n p) (gp_oracle p).

(** ** Both *)
Definition first_err (a b : option PubErr) : option PubErr := match a with Some _ => a | None => b end.
#[export] Instance multi_Publish {A B} `{Publisher A, Publisher B} : Publisher (A * B) := fun p envs =>
  let '(a, ea) := pub_Publish p.1 envs in let '(b, eb) := pub_Publish p.2 envs in ((a, b), first_err ea eb).

(** * The tick hub *)
(** [ts_out]: what the handler has sent on the stream. *)
Record tsub := mkTSub { ts_q : list (list byte); ts_closed : bool; ts_out : list (list byte) }.
Record tickHub := mkTHub { th_objs : gmap Z tsub; th_subs : gset Z; th_next : Z; th_sent : Z; th_drop : Z }.
Definition tNew : tickHub := mkTHub ∅ ∅ 0 0 0.
Definition tdepth : nat := 256.
(** [SubscribeTicks]: a new subscriber, registered. *)
Definition tAdd (h : tickHub) : tickHub :=
  let id := th_next h + 1 in mkTHub (<[id := mkTSub [] false []]> (th_objs h)) ({[id]} ∪ th_subs h) id (th_sent h) (th_drop h).
Definition tSend (s : tsub) (p : list byte) : tsub * bool :=
  if ts_closed s then (s, false) else if (length (ts_q s) <? tdepth)%nat then (mkTSub (ts_q s ++ [p]) false (ts_out s), true) else (s, false).
Definition tClose (h : tickHub) (id : Z) : tickHub :=
  match th_objs h !! id with
  | Some s => if ts_closed s then h else mkTHub (<[id := mkTSub (ts_q s) true (ts_out s)]> (th_objs h)) (th_subs h ∖ {[id]}) (th_next h) (th_sent h) (th_drop h)
  | None => h
  end.
Fixpoint broadcast_loop (h : tickHub) (ids : list Z) (p : list byte) (sent dropped : Z) : tickHub * (Z * Z) :=
  match ids with
  | [] => (mkTHub (th_objs h) (th_subs h) (th_next h) (wrap 64 (th_sent h + sent)) (wrap 64 (th_drop h + dropped)), (sent, dropped))
  | id :: ids =>
      match th_objs h !! id with
      | None => broadcast_loop h ids p sent dropped
      | Some s =>
          match tSend s p with
          | (s, true) => broadcast_loop (mkTHub (<[id := s]> (th_objs h)) (th_subs h) (th_next h) (th_sent h) (th_drop h)) ids p (sent + 1) dropped
          | (_, false) => broadcast_loop (tClose h id) ids p sent (dropped + 1)
          end
      end
  end.
(** [order] is a range over the map. *)
Definition Broadcast (order : gset Z -> list Z) (h : tickHub) (p : list byte) : tickHub * (Z * Z) := broadcast_loop h (order (th_subs h)) p 0 0.
(** One turn of a subscriber's handler: a queued tick is sent; a failed send, and the
    end of the stream or of the subscription, close it for good. *)
Definition handler_end (h : tickHub) (id : Z) : tickHub :=
  let h := tClose h id in
  match th_objs h !! id with Some s => mkTHub (<[id := mkTSub [] (ts_closed s) (ts_out s)]> (th_objs h)) (th_subs h) (th_next h) (th_sent h) (th_drop h) | None => h end.
Definition handler_turn (h : tickHub) (id : Z) (ok : bool) : tickHub :=
  match th_objs h !! id with
  | Some s =>
      match ts_q s with
      | p :: q => if ok then mkTHub (<[id := mkTSub q (ts_closed s) (ts_out s ++ [p])]> (th_objs h)) (th_subs h) (th_next h) (th_sent h) (th_drop h) else handler_end h id
      | [] => h
      end
  | None => h
  end.
Fixpoint hub_ticks (order : gset Z -> list Z) (h : tickHub) (envs : list JSONEnvelope) : tickHub * option PubErr :=
  match envs with
  | [] => (h, None)
  | env :: envs =>
      match marshal env with
      | None => (h, Some PubOther)
      | Some body =>
          match marshal_tick (e_Sym env) body with
          | None => (h, Some PubOther)
          | Some b => hub_ticks order (Broadcast order h b).1 envs
          end
      end
  end.
Definition hub_Publish (order : gset Z -> list Z) : Publisher tickHub := hub_ticks order.
End publishers.

(** * One feed *)
Record rawPacket := mkPkt { pk_data : list byte; pk_seq : Z }.
Record Counters := mkCounters { n_received : Z; n_pubOK : Z; n_pubErr : Z; n_drops : Z; n_invalid : gmap string Z }.
Definition rejectSampleInterval : Z := 60 * 1000000000.
(** The gate of sample logs: one per key and minute. *)
Definition shouldLogRejectSample (gate : gmap string Z) (key : string) (now : Z) : gmap string Z * bool :=
  match gate !! key with
  | None => (<[key := now]> gate, true)
  | Some last => if now - last <? rejectSampleInterval then (gate, false) else (<[key := now]> gate, true)
  end.

Section feed.
Context {P : Type} `{Publisher P}.
Record Feed := mkFeed {
  fd_label : string; fd_batchMax : nat; fd_buffer : nat; fd_seq : Z; fd_ch : list rawPacket; fd_batch : list JSONEnvelope; fd_timer : bool;
  fd_n : Counters; fd_gate : gmap string Z; fd_logged : list string; fd_pub : P }.
Definition newFeed (label : string) (batchMax feedBuffer : Z) (p : P) : Feed :=
  mkFeed label (Z.to_nat (if batchMax <? 1 then 1 else batchMax)) (Z.to_nat (if feedBuffer <? 1 then 1 else feedBuffer)) 0 [] [] false (mkCounters 0 0 0 0 ∅) ∅ [] p.

(** A batch, halved as long as it is too long; [flushed n p] is the state and the two
    totals. A batch halves at most as often as it has elements. *)
Fixpoint flushSplit (fuel : nat) (p : P) (ok err : Z) (envs : list JSONEnvelope) : P * (Z * Z) :=
  match envs with
  | [] => (p, (ok, err))
  | _ =>
      match pub_Publish p envs with
      | (p, None) => (p, (wrap 64 (ok + zlen envs), err))
      | (p, Some e) =>
          let fail := (p, (ok, wrap 64 (err + zlen envs))) in
          match e with
          | PayloadTooLong =>
              if (1 <? length envs)%nat then
                match fuel with
                | O => fail
                | S fuel =>
                    let mid := (length envs / 2)%nat in
                    let '(p, (ok, err)) := flushSplit fuel p ok err (take mid envs) in
                    flushSplit fuel p ok err (drop mid envs)
                end
              else fail
          | PubOther => fail
          end
      end
  end.
Definition flush (f : Feed) : Feed :=
  let n := fd_n f in
  let '(p, (ok, err)) := flushSplit (length (fd_batch f)) (fd_pub f) (n_pubOK n) (n_pubErr n) (fd_batch f) in
  mkFeed (fd_label f) (fd_batchMax f) (fd_buffer f) (fd_seq f) (fd_ch f) [] false (mkCounters (n_received n) ok err (n_drops n) (n_invalid n)) (fd_gate f) (fd_logged f) p.

(** The reader: a datagram is numbered, and queued or dropped. *)
Definition read_packet (f : Feed) (data : list byte) : Feed :=
  let n := fd_n f in
  let seq := wrap 64 (fd_seq f + 1) in
  let room := (length (fd_ch f) <? fd_buffer f)%nat in
  mkFeed (fd_label f) (fd_batchMax f) (fd_buffer f) seq (if room then fd_ch f ++ [mkPkt data seq] else fd_ch f) (fd_batch f) (fd_timer f)
    (mkCounters (wrap 64 (n_received n + 1)) (n_pubOK n) (n_pubErr n) (if room then n_drops n else n_drops n + 1) (n_invalid n)) (fd_gate f) (fd_logged f) (fd_pub f).
Definition envelope_of (label : string) (now : Time) (pkt : rawPacket) (s : Snapshot) : JSONEnvelope :=
  mkEnv (sn_Sym s) (sn_Bid s) (sn_Ask s) now label (pk_seq pkt) (sn_Last s) (sn_LastQty s) (sn_BidSize s) (sn_AskSize s).
(** The worker takes one packet. *)
Definition take_packet (f : Feed) (now : Time) : Feed :=
  match fd_ch f with
  | [] => f
  | pkt :: ch =>
      let n := fd_n f in
      match fastExtractV1 (pk_data pkt) with
      | (s, false) =>
          let reason := classifyInvalid (sn_Sym s) (sn_Bid s) (sn_Ask s) in
          let '(gate, log) := shouldLogRejectSample (fd_gate f) (fd_label f +:+ ":" +:+ reason) (t_ns now) in
          mkFeed (fd_label f) (fd_batchMax f) (fd_buffer f) (fd_seq f) ch (fd_batch f) (fd_timer f)
            (mkCounters (n_received n) (n_pubOK n) (n_pubErr n) (n_drops n) (<[reason := wrap 64 (default 0 (n_invalid n !! reason) + 1)]> (n_invalid n)))
            gate (if log then fd_logged f ++ [reason] else fd_logged f) (fd_pub f)
      | (s, true) =>
          let batch := fd_batch f ++ [envelope_of (fd_label f) now pkt s] in
          let f := mkFeed (fd_label f) (fd_batchMax f) (fd_buffer f) (fd_seq f) ch batch true n (fd_gate f) (fd_logged f) (fd_pub f) in
          if (fd_batchMax f <=? length batch)%nat then flush f else f
      end
  end.
Inductive feed_ev := FRead (data : list byte) | FTake (now : Time) | FTimer.
Definition feed_step (f : Feed) (e : feed_ev) : Feed :=
  match e with FRead d => read_packet f d | FTake now => take_packet f now | FTimer => if fd_timer f then flush f else f end.
End feed.
Arguments Feed P : clear implicits.
