(* ===== verification/ForwarderLaws.v ===== *)
(** Laws of the quote forwarder (Forwarder): every datagram is accounted for once and
    quotes are published in the order in which they came; the hub's subscribers see no
    gaps; how two publishers together repeat quotes. *)

From Stdlib Require Import ZArith QArith Lia Sorting.Sorted.
From S2P Require Import Prelude Codec GoStrings Float64 Dates Best Handshake Ingest FixMd Forwarder.
Local Open Scope Z_scope.
Local Open Scope wtg_scope.

(** * What a publisher promises *)
(** A batch is published as a whole or not at all. *)
Class PublisherLaws (P : Type) `{Publisher P} := {
  pub_log : P -> list JSONEnvelope;
  pub_done : forall p envs p', pub_Publish p envs = (p', None) -> pub_log p' = pub_log p ++ envs;
  pub_failed : forall p envs p' e, pub_Publish p envs = (p', Some e) -> pub_log p' = pub_log p }.

(** The broker keeps it: a batch is one frame. *)
Section broker.
Context (marshal : JSONEnvelope -> option (list byte)) (marshal_array : list JSONEnvelope -> option (list byte)).
#[local] Existing Instance broker_Publish.
#[export] Instance broker_laws : PublisherLaws (H := broker_Publish marshal marshal_array) brokerPublisher.
Proof.
  apply (Build_PublisherLaws _ _ (fun p => concat (bk_sent p).*1)).
  - intros p envs p'. cbv [pub_Publish broker_Publish]. destruct (broker_wire _ _ envs) as [w|[| |[]]|]; try done. unfold publishBroadcast.
    destruct (bk_oracle p (bk_n p)); [|done]. intros [= <-]. cbn. rewrite fmap_app, concat_app. cbn. by rewrite app_nil_r.
  - intros p envs p' e. cbv [pub_Publish broker_Publish]. destruct (broker_wire _ _ envs) as [w|[| |[]]|]; try (by intros [= <- <-]). unfold publishBroadcast.
    destruct (bk_oracle p (bk_n p)); [done|]. by intros [= <- <-].
Defined.
End broker.

(** * Splitting *)
Section flushing.
Context {P : Type} `{PublisherLaws P}.
Definition oks (fates : list (bool * JSONEnvelope)) : list JSONEnvelope := (List.filter fst fates).*2.
Definition fails (fates : list (bool * JSONEnvelope)) : list JSONEnvelope := (List.filter (fun x => negb x.1) fates).*2.
Lemma oks_app a b : oks (a ++ b) = oks a ++ oks b.
Proof. unfold oks. by rewrite List.filter_app, fmap_app. Qed.
Lemma fails_app a b : fails (a ++ b) = fails a ++ fails b.
Proof. unfold fails. by rewrite List.filter_app, fmap_app. Qed.
(** All of one fate. *)
#[local] Abbreviation all_of b envs := (map (pair (b : bool)) (envs : list JSONEnvelope)).
Lemma all_fate b (envs : list JSONEnvelope) : (all_of b envs).*2 = envs /\
  oks (all_of b envs) = (if b then envs else []) /\ fails (all_of b envs) = (if b then [] else envs).
Proof. unfold oks, fails. induction envs as [|e envs IH]; [by destruct b|]. destruct IH as (E1 & E2 & E3), b; cbn in *; rewrite ?E1, ?E2, ?E3; done. Qed.
Lemma wrap_idem x : wrap 64 (wrap 64 x) = wrap 64 x.
Proof. unfold wrap. by rewrite Zmod_mod. Qed.
Lemma wrap_add x y : wrap 64 (wrap 64 x + y) = wrap 64 (x + y).
Proof. unfold wrap. by rewrite Zplus_mod_idemp_l. Qed.

Definition settled (p p' : P) (ok err ok' err' : Z) (envs : list JSONEnvelope) (fates : list (bool * JSONEnvelope)) : Prop :=
  fates.*2 = envs /\ pub_log p' = pub_log p ++ oks fates /\ wrap 64 ok' = wrap 64 (ok + zlen (oks fates)) /\ wrap 64 err' = wrap 64 (err + zlen (fails fates)).
Lemma settled_all (b : bool) p p' ok err envs :
  pub_log p' = pub_log p ++ (if b then envs else []) ->
  settled p p' ok err (if b then wrap 64 (ok + zlen envs) else ok) (if b then err else wrap 64 (err + zlen envs)) envs (all_of b envs).
Proof.
  intros Hl. unfold settled. destruct (all_fate b envs) as (-> & -> & ->). unfold zlen. destruct b; cbn; repeat split; try done; rewrite ?Z.add_0_r; try done;
    apply wrap_idem.
Qed.
Lemma settled_app (p p1 p2 : P) ok err ok1 err1 ok2 err2 a b fa fb :
  settled p p1 ok err ok1 err1 a fa -> settled p1 p2 ok1 err1 ok2 err2 b fb -> settled p p2 ok err ok2 err2 (a ++ b) (fa ++ fb).
Proof.
  intros (A1 & A2 & A3 & A4) (B1 & B2 & B3 & B4). unfold settled. rewrite fmap_app, A1, B1, oks_app, fails_app, B2, A2, app_assoc.
  rewrite !List.length_app, !Nat2Z.inj_add.
  split; [done|]. split; [done|]. split.
  - rewrite B3, <-wrap_add, A3, wrap_add. f_equal. lia.
  - rewrite B4, <-wrap_add, A4, wrap_add. f_equal. lia.
Qed.
(** Every envelope of a batch is published once, in order, or counted as lost. *)
Lemma flushSplit_settles fuel p ok err envs : exists fates, let '(p', (ok', err')) := flushSplit fuel p ok err envs in settled p p' ok err ok' err' envs fates.
Proof.
  revert p ok err envs. induction fuel as [|fuel IH]; intros p ok err envs; destruct (decide (envs = [])) as [->|Hne].
  1, 3: exists []; cbn; unfold settled, zlen; cbn; by rewrite app_nil_r, !Z.add_0_r.
  all: assert (forall p' e, pub_Publish p envs = (p', Some e) -> exists fates, settled p p' ok err ok (wrap 64 (err + zlen envs)) envs fates) as Hfail
    by (intros p' e E; exists (all_of false envs); apply (settled_all false); rewrite app_nil_r; by apply (pub_failed p envs p' e)).
  all: destruct envs as [|x l]; [done|]; cbn [flushSplit]; destruct (pub_Publish p (x :: l)) as [p' [[]|]] eqn:Ep.
  all: try (by eapply Hfail).
  all: try (exists (all_of true (x :: l)); apply (settled_all true); by apply pub_done).
  all: case_if; [|by eapply Hfail]. 1: by eapply Hfail. set (mid := (length (x :: l) / 2)%nat).
  destruct (IH p' ok err (take mid (x :: l))) as [f1 H1]. destruct (flushSplit fuel p' ok err (take mid (x :: l))) as [p1 [ok1 err1]].
  destruct (IH p1 ok1 err1 (drop mid (x :: l))) as [f2 H2]. exists (f1 ++ f2).
  destruct (flushSplit fuel p1 ok1 err1 (drop mid (x :: l))) as [p2 [ok2 err2]]. rewrite <-(take_drop mid (x :: l)). apply (settled_app p p1 p2 ok err ok1 err1); [|done].
  destruct H1 as (? & El & ? & ?). split; [done|]. split; [|done]. rewrite El. f_equal. by apply (pub_failed _ _ _ _ Ep).
Qed.
(** As many halvings as there are elements are enough. *)
Lemma flushSplit_fuel envs fuel fuel' p ok err : (length envs <= fuel)%nat -> (length envs <= fuel')%nat ->
  flushSplit fuel p ok err envs = flushSplit fuel' p ok err envs.
Proof.
  revert envs fuel' p ok err. induction fuel as [|fuel IH]; intros envs fuel' p ok err Hf Hf'; [by destruct envs; [destruct fuel'|simpl in Hf; lia]|].
  destruct envs as [|x l]; [by destruct fuel'|]. destruct fuel' as [|fuel']; [simpl in Hf'; lia|]. cbn [flushSplit].
  destruct (pub_Publish p (x :: l)) as [p' [[]|]]; try done. destruct (Nat.ltb_spec 1 (length (x :: l))) as [Hl|]; [|done].
  set (mid := (length (x :: l) / 2)%nat). assert (0 < mid < length (x :: l))%nat as Hm.
  { unfold mid. split; [apply Nat.div_str_pos; lia|apply Nat.div_lt; lia]. }
  rewrite (IH (take mid (x :: l)) fuel') by (rewrite length_take; simpl in *; lia).
  destruct (flushSplit fuel' p' ok err (take mid (x :: l))) as [p1 [ok1 err1]]. apply IH; rewrite length_drop; simpl in *; lia.
Qed.
End flushing.

(** * One feed *)
Section feed.
Context {P : Type} `{PublisherLaws P}.
Context (label : string) (p0 : P).
(** The datagrams read. *)
Definition reads (es : list feed_ev) : list (list byte) := omap (fun e => match e with FRead d => Some d | _ => None end) es.
(** An envelope is the quote of the datagram its sequence number names. *)
Definition came_from (R : list (list byte)) (e : JSONEnvelope) : Prop :=
  exists data s now, R !! Z.to_nat (e_Seq e - 1) = Some data /\ fastExtractV1 data = (s, true) /\ e = envelope_of label now (mkPkt data (e_Seq e)) s.
Definition numbered (R : list (list byte)) (k : rawPacket) : Prop := R !! Z.to_nat (pk_seq k - 1) = Some (pk_data k).
Definition pending (fates : list (bool * JSONEnvelope)) (f : Feed P) : list Z := map e_Seq (fates.*2 ++ fd_batch f) ++ map pk_seq (fd_ch f).
Record accounted (R : list (list byte)) (f : Feed P) (fates : list (bool * JSONEnvelope)) (rej : nat) : Prop := mkAcc {
  ac_label : fd_label f = label;
  ac_log : pub_log (fd_pub f) = pub_log p0 ++ oks fates;
  ac_seq : fd_seq f = zlen R;
  ac_sorted : StronglySorted Z.lt (pending fates f);
  ac_range : Forall (fun q => 1 <= q <= zlen R) (pending fates f);
  ac_ch : Forall (numbered R) (fd_ch f);
  ac_from : Forall (came_from R) (fates.*2 ++ fd_batch f);
  ac_ok : wrap 64 (n_pubOK (fd_n f)) = wrap 64 (zlen (oks fates));
  ac_err : wrap 64 (n_pubErr (fd_n f)) = wrap 64 (zlen (fails fates));
  ac_count : zlen R = n_drops (fd_n f) + zlen (fd_ch f) + zlen (fates.*2 ++ fd_batch f) + Z.of_nat rej;
  ac_batch : (length (fd_batch f) < fd_batchMax f)%nat;
  ac_buffer : (length (fd_ch f) <= fd_buffer f)%nat }.

Lemma came_from_more R d e : came_from R e -> came_from (R ++ [d]) e.
Proof. intros (data & s & now & El & Er). exists data, s, now. split; [by apply lookup_app_l_Some|done]. Qed.
Lemma numbered_more R d k : numbered R k -> numbered (R ++ [d]) k.
Proof. intros El. unfold numbered. by apply lookup_app_l_Some. Qed.
Lemma sorted_snoc l x : StronglySorted Z.lt l -> Forall (fun q => q < x) l -> StronglySorted Z.lt (l ++ [x]).
Proof.
  intros Hs Hf. induction Hs as [|y l Hs IH Hy]; cbn; [repeat constructor|]. inversion Hf; subst. constructor; [by apply IH|].
  apply Forall_app. split; [done|]. by repeat constructor.
Qed.

Lemma sorted_remove (l : list Z) x l' : StronglySorted Z.lt (l ++ x :: l') -> StronglySorted Z.lt (l ++ l').
Proof.
  induction l as [|y l IH]; cbn; intros Hs; inversion Hs as [|? ? Hs' Hf]; subst; [done|]. constructor; [by apply IH|].
  apply Forall_app in Hf as [? ?%Forall_cons]. apply Forall_app. naive_solver.
Qed.
Lemma read_accounted R f fates rej d : zlen R + 1 < 2 ^ 64 -> accounted R f fates rej -> accounted (R ++ [d]) (read_packet f d) fates rej.
Proof.
  intros Hb []. assert (fd_seq (read_packet f d) = zlen (R ++ [d])) as Eseq.
  { cbn. rewrite ac_seq0, length_app. cbn. rewrite wrap_small by (unfold is_uint; lia). lia. }
  assert (zlen (R ++ [d]) = zlen R + 1) as Elen by (rewrite length_app; cbn; lia).
  assert (forall l, Forall (fun q => 1 <= q <= zlen R) l -> Forall (fun q => 1 <= q <= zlen (R ++ [d])) l) as Hmore.
  { intros l Hl. eapply Forall_impl; [exact Hl|]. intros q Hq. cbn in *. lia. }
  assert (Forall (came_from (R ++ [d])) (fates.*2 ++ fd_batch f)) as Hfrom by (eapply Forall_impl; [exact ac_from0|]; intros; by apply came_from_more).
  assert (Forall (numbered (R ++ [d])) (fd_ch f)) as Hch by (eapply Forall_impl; [exact ac_ch0|]; intros; by apply numbered_more).
  unfold read_packet in *. cbv zeta in *. destruct (Nat.ltb_spec (length (fd_ch f)) (fd_buffer f)) as [Hr|Hr]; split; try done; cbn in *.
  - unfold pending in *. cbn. rewrite (map_app pk_seq), app_assoc. apply sorted_snoc; [done|]. cbn. rewrite Eseq. eapply Forall_impl; [exact ac_range0|]. intros q Hq. cbn in Hq. lia.
  - unfold pending in *. cbn. rewrite (map_app pk_seq), app_assoc. apply Forall_app. split; [by apply Hmore|]. cbn. rewrite Eseq. repeat constructor; lia.
  - apply Forall_app. split; [done|]. repeat constructor. unfold numbered. cbn. rewrite Eseq, Elen. replace (Z.to_nat (zlen R + 1 - 1)) with (length R) by lia. by apply list_lookup_middle.
  - rewrite !length_app in *. cbn in *. lia.
  - rewrite length_app. cbn. lia.
  - by apply Hmore.
  - lia.
Qed.
(** A flush moves the batch to its fate. *)
Lemma flush_accounted R f fates rej :
  fd_label f = label -> pub_log (fd_pub f) = pub_log p0 ++ oks fates -> fd_seq f = zlen R -> StronglySorted Z.lt (pending fates f) ->
  Forall (fun q => 1 <= q <= zlen R) (pending fates f) -> Forall (numbered R) (fd_ch f) -> Forall (came_from R) (fates.*2 ++ fd_batch f) ->
  wrap 64 (n_pubOK (fd_n f)) = wrap 64 (zlen (oks fates)) -> wrap 64 (n_pubErr (fd_n f)) = wrap 64 (zlen (fails fates)) ->
  zlen R = n_drops (fd_n f) + zlen (fd_ch f) + zlen (fates.*2 ++ fd_batch f) + Z.of_nat rej -> (0 < fd_batchMax f)%nat -> (length (fd_ch f) <= fd_buffer f)%nat ->
  exists fates', accounted R (flush f) fates' rej.
Proof.
  intros Hl Hlog Hs Hsort Hrange Hch Hfrom Hok Herr Hcount Hb Hbuf. unfold flush.
  destruct (flushSplit_settles (length (fd_batch f)) (fd_pub f) (n_pubOK (fd_n f)) (n_pubErr (fd_n f)) (fd_batch f)) as [new Hnew].
  destruct (flushSplit _ _ _ _ _) as [p' [ok' err']]. destruct Hnew as (N1 & N2 & N3 & N4). exists (fates ++ new).
  assert (((fates ++ new).*2 ++ []) = fates.*2 ++ fd_batch f) as Efates by (by rewrite app_nil_r, fmap_app, N1).
  split; cbn; unfold pending in *; cbn; try done; rewrite ?Efates; try done.
  - by rewrite N2, Hlog, oks_app, app_assoc.
  - rewrite N3, <-wrap_add, Hok, wrap_add, oks_app, length_app. f_equal. lia.
  - rewrite N4, <-wrap_add, Herr, wrap_add, fails_app, length_app. f_equal. lia.
Qed.
Lemma step_accounted R f fates rej e : (match e with FRead d => zlen R + 1 < 2 ^ 64 | _ => True end) -> accounted R f fates rej ->
  exists fates' rej', accounted (match e with FRead d => R ++ [d] | _ => R end) (feed_step f e) fates' rej'.
Proof.
  intros Hb Ha. destruct e as [d|now|]; cbn [feed_step].
  - exists fates, rej. by apply read_accounted.
  - unfold take_packet. destruct (fd_ch f) as [|pkt ch] eqn:Ech; [by exists fates, rej|]. destruct Ha. unfold pending in *. rewrite Ech in *.
    apply Forall_cons in ac_ch0 as [Hpkt Hch]. destruct (fastExtractV1 (pk_data pkt)) as [s [|]] eqn:Es.
    + set (f' := mkFeed _ _ _ _ ch _ true _ _ _ _).
      assert (map e_Seq (fates.*2 ++ fd_batch f') ++ map pk_seq ch = map e_Seq (fates.*2 ++ fd_batch f) ++ map pk_seq (pkt :: ch)) as Epend.
      { cbn. rewrite !map_app. cbn. by rewrite <-!app_assoc. }
      assert (Forall (came_from R) (fates.*2 ++ fd_batch f')) as Hfrom.
      { cbn. rewrite app_assoc. apply Forall_app. split; [done|]. repeat constructor. exists (pk_data pkt), s, now. split; [done|]. split; [done|]. cbn. by rewrite ac_label0. }
      assert (zlen (fates.*2 ++ fd_batch f ++ [envelope_of (fd_label f) now pkt s]) = zlen (fates.*2 ++ fd_batch f) + 1) as Elen by (rewrite !length_app; cbn; lia).
      cbn in ac_count0, ac_buffer0. cbn [fd_batchMax fd_batch]. cbv zeta. case_if.
      * destruct (flush_accounted R f' fates rej) as [fates' Ha']; try done; unfold pending; cbn [f' fd_ch] in *; rewrite ?Epend; try done; try (by eauto); cbn.
        -- lia.
        -- lia.
        -- lia.
      * exists fates, rej. split; try done; unfold pending; cbn [f' fd_ch] in *; rewrite ?Epend; try done; cbn.
        -- lia.
        -- by apply Nat.leb_gt in E.
        -- lia.
    + destruct (shouldLogRejectSample _ _ _) as [gate log]. exists fates, (S rej). split; try done; unfold pending; cbn in *; try done.
      * by apply sorted_remove in ac_sorted0.
      * apply Forall_app in ac_range0 as [? ?%Forall_cons]. apply Forall_app. naive_solver.
      * lia.
      * lia.
  - destruct (fd_timer f); [|by exists fates, rej]. destruct Ha. destruct (flush_accounted R f fates rej) as [fates' Ha']; try done; [lia|]. by exists fates', rej.
Qed.
Lemma reads_cons e es : reads (e :: es) = match e with FRead d => [d] | _ => [] end ++ reads es.
Proof. by destruct e. Qed.
Lemma run_accounted es R f fates rej : zlen R + zlen (reads es) < 2 ^ 64 -> accounted R f fates rej ->
  exists fates' rej', accounted (R ++ reads es) (fold_left feed_step es f) fates' rej'.
Proof.
  revert R f fates rej. induction es as [|e es IH]; intros R f fates rej Hb Ha; [exists fates, rej; by rewrite app_nil_r|].
  rewrite reads_cons, length_app in Hb. rewrite reads_cons.
  destruct (step_accounted R f fates rej e) as (fates1 & rej1 & H1); [destruct e; cbn [length] in *; try done; lia|done|]. cbn [fold_left].
  apply IH in H1 as (fates2 & rej2 & H2); [|destruct e; rewrite ?length_app; cbn [length] in *; lia]. exists fates2, rej2.
  destruct e; try done. by rewrite <-app_assoc in H2.
Qed.
End feed.


(** * The tick hub *)
Section hub.
Context (order : gset Z -> list Z) (Horder : forall X, order X ≡ₚ elements X).
Inductive hub_ev := HAdd | HBroadcast (p : list byte) | HTurn (id : Z) (ok : bool) | HEnd (id : Z).
Definition hub_step (h : tickHub) (e : hub_ev) : tickHub :=
  match e with HAdd => tAdd h | HBroadcast p => (Broadcast order h p).1 | HTurn id ok => handler_turn h id ok | HEnd id => handler_end h id end.
(** What was broadcast since subscriber [id] came, which was the [id]th to come. *)
Definition since_step (id : Z) (w : Z * option (list (list byte))) (e : hub_ev) : Z * option (list (list byte)) :=
  match e with
  | HAdd => (w.1 + 1, if decide (w.1 + 1 = id) then Some [] else w.2)
  | HBroadcast p => (w.1, option_map (fun l => l ++ [p]) w.2)
  | _ => w
  end.
(** A subscriber that is open has or is about to get all of it; one that is closed an
    initial part. *)
Definition seen (h : tickHub) (id : Z) (w : Z * option (list (list byte))) : Prop :=
  w.1 = th_next h /\
  match th_objs h !! id, w.2 with
  | Some s, Some l => if ts_closed s then id ∉ th_subs h /\ (ts_out s ++ ts_q s) `prefix_of` l else id ∈ th_subs h /\ ts_out s ++ ts_q s = l
  | None, None => id ∉ th_subs h
  | _, _ => False
  end /\ (id > th_next h -> th_objs h !! id = None).
(** One offer of a tick: queued, refused by a closed subscriber, or closing a full one. *)
Definition offer (p : list byte) (s : tsub) : tsub :=
  if ts_closed s then s else if (length (ts_q s) <? tdepth)%nat then mkTSub (ts_q s ++ [p]) false (ts_out s) else mkTSub (ts_q s) true (ts_out s).
Definition stays (p : list byte) (s : tsub) : Prop := ts_closed s = true \/ ts_closed (offer p s) = false.
Definition offered (h : tickHub) (p : list byte) (x : Z) (s : tsub) : tickHub :=
  match tSend s p with (s, true) => mkTHub (<[x := s]> (th_objs h)) (th_subs h) (th_next h) (th_sent h) (th_drop h) | (_, false) => tClose h x end.
Lemma offered_spec h p x s : th_objs h !! x = Some s ->
  th_next (offered h p x s) = th_next h /\ th_objs (offered h p x s) = <[x := offer p s]> (th_objs h) /\
  forall y, y ∈ th_subs (offered h p x s) <-> y ∈ th_subs h /\ (y = x -> stays p s).
Proof.
  intros Ex. unfold offered, tSend, tClose, offer, stays, offer. destruct (ts_closed s) eqn:Ec.
  - rewrite Ex, Ec, insert_id by done. naive_solver.
  - destruct (length (ts_q s) <? tdepth)%nat; cbn; [naive_solver|]. rewrite Ex, Ec. cbn. split; [done|]. split; [done|]. intros y. rewrite elem_of_difference, elem_of_singleton. naive_solver.
Qed.
Lemma broadcast_lookup ids h p a b : NoDup ids ->
  let h' := (broadcast_loop h ids p a b).1 in
  th_next h' = th_next h /\ (forall y, th_objs h' !! y = if decide (y ∈ ids) then offer p <$> th_objs h !! y else th_objs h !! y) /\
  (forall y, y ∈ th_subs h' <-> y ∈ th_subs h /\ (y ∈ ids -> forall s, th_objs h !! y = Some s -> stays p s)).
Proof.
  revert h a b. induction ids as [|x ids IH]; intros h a b Hnd; cbv zeta.
  { cbn. split; [done|]. split; [intros y; by rewrite decide_False by apply not_elem_of_nil|]. set_solver. }
  apply NoDup_cons in Hnd as [Hx Hnd]. destruct (th_objs h !! x) as [s|] eqn:Ex.
  - destruct (offered_spec h p x s Ex) as (O1 & O2 & O3).
    assert (exists a' b', broadcast_loop h (x :: ids) p a b = broadcast_loop (offered h p x s) ids p a' b') as (a' & b' & ->).
    { cbn [broadcast_loop]. rewrite Ex. unfold offered. destruct (tSend s p) as [s' [|]]; eauto. }
    destruct (IH (offered h p x s) a' b' Hnd) as (E1 & E2 & E3). split; [congruence|]. split.
    + intros y. rewrite E2, O2. destruct (decide (y = x)) as [->|Hne].
      * rewrite decide_False, decide_True, lookup_insert_eq, Ex by (done || left). done.
      * rewrite lookup_insert_ne by done. destruct (decide (y ∈ ids)) as [Hi|Hi]; [by rewrite decide_True by (by right)|]. rewrite decide_False; [done|]. set_solver.
    + intros y. rewrite E3, O3, O2. destruct (decide (y = x)) as [->|Hne]; [|rewrite lookup_insert_ne by done; set_solver].
      rewrite Ex. split; [|set_solver]. intros [[Hs Hst] _]. split; [done|]. intros _ s' [= <-]. auto.
  - assert (broadcast_loop h (x :: ids) p a b = broadcast_loop h ids p a b) as -> by (cbn [broadcast_loop]; by rewrite Ex).
    destruct (IH h a b Hnd) as (E1 & E2 & E3). split; [done|]. split.
    + intros y. rewrite E2. destruct (decide (y = x)) as [->|Hne]; [by rewrite decide_False, decide_True, Ex by (done || left)|].
      destruct (decide (y ∈ ids)) as [Hi|Hi]; [by rewrite decide_True by (by right)|]. rewrite decide_False; [done|]. set_solver.
    + intros y. rewrite E3. destruct (decide (y = x)) as [->|Hne]; [|set_solver]. rewrite Ex. naive_solver.
Qed.
Lemma prefix_snoc {A} (l l' : list A) x : l `prefix_of` l' -> l `prefix_of` l' ++ [x].
Proof. intros [k ->]. exists (k ++ [x]). by rewrite app_assoc. Qed.

Lemma seen_broadcast h id w p : seen h id w -> seen (Broadcast order h p).1 id (since_step id w (HBroadcast p)).
Proof.
  intros (Hn & Hs & Hg). assert (NoDup (order (th_subs h))) as Hnd by (rewrite Horder; apply NoDup_elements).
  destruct (broadcast_lookup (order (th_subs h)) h p 0 0 Hnd) as (E1 & E2 & E3). specialize (E2 id). specialize (E3 id). unfold Broadcast, seen.
  set (h' := (broadcast_loop _ _ _ _ _).1) in *. assert (id ∈ order (th_subs h) <-> id ∈ th_subs h) as Ho by (rewrite Horder; apply elem_of_elements).
  rewrite E1, E2. cbn [since_step fst snd]. split; [done|]. split.
  - destruct (th_objs h !! id) as [s|] eqn:Es, w.2 as [l|]; try done; cbn [option_map] in *; [|by destruct (decide _); cbn; tauto].
    unfold stays, offer in *. destruct (ts_closed s) eqn:Ec.
    + destruct Hs as [Hi Hp]. rewrite decide_False by tauto. rewrite Ec. split; [tauto|]. by apply prefix_snoc.
    + destruct Hs as [Hi <-]. rewrite decide_True by tauto. cbn [fmap option_fmap option_map]. rewrite Ec. destruct (length (ts_q s) <? tdepth)%nat eqn:Er; cbn.
      * split; [|by rewrite app_assoc]. apply E3. split; [done|]. intros _ s' [= <-]. right. rewrite Ec, Er. done.
      * split; [|apply prefix_snoc; done]. intros [_ Hx]%E3. destruct (Hx (proj2 Ho Hi) s eq_refl) as [|Hf]; [congruence|]. by rewrite Ec, Er in Hf.
  - intros Hgt. rewrite (Hg Hgt). by destruct (decide _).
Qed.
Lemma seen_close h x id w : seen h id w -> seen (tClose h x) id w.
Proof.
  intros (Hn & Hs & Hg). unfold tClose. destruct (th_objs h !! x) as [s|] eqn:Ex; [|done]. destruct (ts_closed s) eqn:Ec; [done|]. split; [done|]. cbn. split.
  - destruct (decide (id = x)) as [->|Hne].
    + rewrite lookup_insert_eq. rewrite Ex in Hs. destruct w.2 as [l|]; [|done]. cbn. rewrite Ec in Hs. destruct Hs as [_ <-]. split; [set_solver|done].
    + rewrite lookup_insert_ne by done. destruct (th_objs h !! id) as [s0|], w.2 as [l|]; try done; [|set_solver]. destruct (ts_closed s0); set_solver.
  - intros Hgt. rewrite lookup_insert_ne; [by apply Hg|]. intros <-. specialize (Hg Hgt). congruence.
Qed.
(** The handler moves ticks from the queue to the stream, or stops. *)
Lemma seen_handler h x id w s s' : th_objs h !! x = Some s -> seen h id w -> ts_closed s' = ts_closed s ->
  (ts_out s' ++ ts_q s' = ts_out s ++ ts_q s \/ ts_closed s = true /\ ts_out s' ++ ts_q s' `prefix_of` ts_out s ++ ts_q s) ->
  seen (mkTHub (<[x := s']> (th_objs h)) (th_subs h) (th_next h) (th_sent h) (th_drop h)) id w.
Proof.
  intros Ex (Hn & Hs & Hg) Ec Hd. split; [done|]. cbn. destruct (decide (id = x)) as [->|Hne].
  - rewrite lookup_insert_eq. rewrite Ex in *. split; [|intros Hgt; by specialize (Hg Hgt)]. destruct w.2 as [l|]; [|done]. rewrite Ec. destruct (ts_closed s), Hd as [->|[Hc Hp]]; try done.
    destruct Hs as [Hi Hl]. split; [done|]. by etrans.
  - by rewrite lookup_insert_ne.
Qed.
Lemma seen_end h x id w : seen h id w -> seen (handler_end h x) id w.
Proof.
  intros Hs. apply (seen_close h x) in Hs. unfold handler_end. destruct (th_objs (tClose h x) !! x) as [s|] eqn:Ex; [|done]. apply (seen_handler _ x _ _ s); try done.
  cbn. right. split; [|exists (ts_q s); by rewrite app_nil_r]. unfold tClose in Ex. destruct (th_objs h !! x) as [s0|] eqn:E0; [|congruence].
  destruct (ts_closed s0) eqn:Ec; [congruence|]. cbn in Ex. rewrite lookup_insert_eq in Ex. by injection Ex as <-.
Qed.
Lemma seen_step h id w e : seen h id w -> seen (hub_step h e) id (since_step id w e).
Proof.
  intros Hs. destruct e as [|p|x ok|x]; cbn [hub_step since_step].
  - destruct Hs as (Hn & Hs & Hg). unfold seen, tAdd. cbn. rewrite Hn. split; [done|]. destruct (decide (th_next h + 1 = id)) as [<-|Hne].
    + rewrite lookup_insert_eq. cbn. split; [set_solver|lia].
    + rewrite lookup_insert_ne by done. split; [|intros; apply Hg; lia]. destruct (th_objs h !! id) as [s|], w.2; try done; [|set_solver]. destruct (ts_closed s); set_solver.
  - by apply seen_broadcast.
  - unfold handler_turn. destruct (th_objs h !! x) as [s|] eqn:Ex; [|done]. destruct (ts_q s) as [|p q] eqn:Eq; [done|]. destruct ok; [|by apply seen_end].
    apply (seen_handler _ x _ _ s); try done. left. cbn. by rewrite Eq, <-app_assoc.
  - by apply seen_end.
Qed.
End hub.

#[local] Abbreviation tick n := [Byte.x00; z2b n].
#[local] Abbreviation demo_hub := [HAdd; HBroadcast (tick 1); HAdd; HBroadcast (tick 2); HTurn 1 true; HTurn 2 false; HBroadcast (tick 3)].

(** * The stream to a price server *)
(** The wait between attempts stays between a second and half a minute; an attempt that
    succeeds opens the stream and starts over; the end of an older stream is ignored. *)
Lemma supervisor_backoff p ok : reconnectBackoff0 <= gp_backoff p <= reconnectBackoffM -> reconnectBackoff0 <= gp_backoff (supervisor_opens p ok) <= reconnectBackoffM.
Proof. unfold supervisor_opens, openStream, minDuration. destruct ok; cbn; [done|]. unfold reconnectBackoff0, reconnectBackoffM. case_if; bool_lia; lia. Qed.
Lemma supervisor_recovers p : gp_status p = statusFailed -> gp_closed p = false ->
  gp_status (supervisor_opens (supervisor_takes p) true) = statusOK /\ gp_backoff (supervisor_opens (supervisor_takes p) true) = reconnectBackoff0.
Proof. intros Hs Hc. unfold supervisor_takes. by rewrite Hc, Hs. Qed.
Lemma stale_ack_ignored p gen : gp_gen p <> gen -> recvAck p gen AckErr = p.
Proof. intros Hg. cbn. by rewrite bool_decide_eq_false_2. Qed.

(** * Concrete runs *)
#[local] Abbreviation quote_of bid ask := (wire (message [("35", "W")] "USDKRW" [mkEntry x30 bid None; mkEntry x31 ask None] [])).
#[local] Abbreviation js_one := (fun e : JSONEnvelope => Some [z2b (e_Seq e)]).
#[local] Abbreviation js_all := (fun es : list JSONEnvelope => Some (map (fun e => z2b (e_Seq e)) es)).
#[local] Abbreviation all_sent := (mkBroker [] 0 (fun _ => true)).
#[local] Abbreviation noon := (mkTime 0 0).
#[local] Abbreviation demo_feed :=
  [FRead (quote_of "1380.45" "1380.55"); FRead (quote_of "1380.50" "1380.40"); FRead (quote_of "1380.46" "1380.56"); FTake noon; FTake noon; FTake noon; FRead (quote_of "1" "2"); FTake noon; FTimer].

(** * Where publishers promise less *)
#[local] Abbreviation env q := (mkEnv "USDKRW" (f_of_Z 1300) (f_of_Z 1301) noon "SMB" q f0 f0 f0 f0).
#[local] Abbreviation stream_up oracle := (newGRPCPublisher oracle true).
(** Both publishers together: a batch too long for the broker has already gone to the
    price server when it is split, and goes there again. *)
Lemma both_publishers_repeat :
  let long := fun _ : list JSONEnvelope => Some (replicate 1600 x20) in
  let P := @multi_Publish _ _ (broker_Publish js_one long) (grpc_Publish js_one) in
  let '(p, counts) := flushSplit (H := P) 2 (all_sent, stream_up (fun _ => true)) 0 0 [env 1; env 2] in
  map snd <$> gp_streams p.2 !! 1%nat = Some [[x01]; [x02]; [x01]; [x02]] /\ map (map e_Seq) (bk_sent p.1).*1 = [[1]; [2]] /\ counts = (2, 0).
Proof. by vm_compute. Qed.
(** A send that fails in the middle of a batch: what went before it is counted, and
    reported, as lost. *)
Lemma partial_batch_counted_lost :
  let '(p, e) := grpc_Publish js_one (stream_up (fun n => (n =? 0)%nat)) [env 1; env 2; env 3] in
  e = Some PubOther /\ map snd <$> gp_streams p !! 1%nat = Some [[x01]] /\ gp_publishErr p = 3 /\ gp_publishOK p = 0.
Proof. by vm_compute. Qed.
(** An offer of [inf] passes the parser and cannot be written as JSON: the whole batch
    is lost with it. *)
Lemma infinite_price_loses_batch :
  let finite_only (e : JSONEnvelope) := match e_Ask e with Inf _ => None | _ => js_one e end in
  let all_finite es := mapM (fun e => finite_only e) es ≫= fun _ => js_all es in
  let f := fold_left (feed_step (H := broker_Publish finite_only all_finite)) [FRead (quote_of "1380.45" "1380.55"); FRead (quote_of "1380.45" "inf"); FTake noon; FTake noon] (newFeed "SMB" 2 16 all_sent) in
  bk_sent (fd_pub f) = [] /\ n_pubErr (fd_n f) = 2.
Proof. by vm_compute. Qed.
