(* ===== verification/FxSync.v ===== *)
(** The copy of the master data from the bank's database to etcd (src/internal/fxsync,
    src/cmd/fx-sync) and the user profiles the login reads from there
    (src/pkg/auth/userprofile.go, userprofile_etcd.go).

    etcd is a map with the log of its changes. Before each call of the copy others may
    have changed it, and the call may be refused or its answer lost: [net i] says so
    for call [i]. JSON and the iteration orders of maps are parameters.

    The laws follow the definitions. *)

From Stdlib Require Import ZArith Lia Ascii.
From S2P Require Import Prelude GoStrings Sorting Routing Float64 Session Dates Pricing PricingDoc.
Local Open Scope Z_scope.
Local Open Scope wtg_scope.

(** * etcd *)
(** [Lost]: the server did what it was asked, the answer did not arrive. *)
Inductive outcome := Done | Refused | Lost.
#[export] Instance outcome_eq_dec : EqDecision outcome.
Proof. solve_decision. Defined.
Record Etcd := mkEtcd { kv : gmap string string; log : list event; calls : nat }.
Definition key_of (c : event) : string := match c with EventPut k _ => k | EventDelete k => k end.
Definition change (m : gmap string string) (c : event) : gmap string string :=
  match c with EventPut k v => <[k := v]> m | EventDelete k => delete k m end.
(** Deleting an absent key is not an event. *)
Definition commit (s : Etcd) (c : event) : Etcd :=
  match c with
  | EventPut _ _ => mkEtcd (change (kv s) c) (log s ++ [c]) (calls s)
  | EventDelete k => if kv s !! k is Some _ then mkEtcd (change (kv s) c) (log s ++ [c]) (calls s) else s
  end.
(** Keys and values below a prefix. *)
Definition under (pre : string) (m : gmap string string) : gmap string string := filter (fun p => HasPrefix p.1 pre = true) m.

Section copy.
Context (net : nat -> list event * outcome).
Definition meet (s : Etcd) : Etcd * outcome :=
  let s' := fold_left commit (net (calls s)).1 s in (mkEtcd (kv s') (log s') (S (calls s)), (net (calls s)).2).
Definition etcd_write (s : Etcd) (c : event) : Etcd * bool :=
  match meet s with
  | (s, Done) => (commit s c, true)
  | (s, Refused) => (s, false)
  | (s, Lost) => (commit s c, false)
  end.
Definition etcd_List (s : Etcd) (pre : string) : Etcd * option (gset string) :=
  match meet s with (s, Done) => (s, Some (dom (under pre (kv s)))) | (s, _) => (s, None) end.
Definition etcd_Get (s : Etcd) (key : string) : Etcd * option (option string) :=
  match meet s with (s, Done) => (s, Some (kv s !! key)) | (s, _) => (s, None) end.

(** * The copy of a table with one key per row *)
Record Syncer := mkSyncer { Prefix : string; DeleteStale : bool }.
Definition NewSyncer : Syncer := mkSyncer "wtg/" true.
Record SyncResult := mkResult { r_Table : string; SourceCount : Z; r_Active : Z; r_Put : Z; DeletedStale : Z }.
Inductive SyncErr := EList | EMarshal | EPut | EGet | EParse.
Record syncItem (P : Type) := mkItem { it_id : string; it_active : bool; it_payload : P }.
Arguments mkItem {P}.
Arguments it_id {P}.
Arguments it_active {P}.
Arguments it_payload {P}.

Section table.
Context {P : Type} (marshal : P -> option string).
(** Orders in which the two maps are ranged over. *)
Context (worder : gmap string P -> list (string * P)) (eorder : gset string -> list string).

Definition want_item (st : gmap string P * Z) (it : syncItem P) : gmap string P * Z :=
  if negb (it_active it) || bool_decide (it_id it = "") then st else (<[it_id it := it_payload it]> st.1, st.2 + 1).
Definition want (items : list (syncItem P)) : gmap string P * Z := fold_left want_item items (∅, 0).

Fixpoint put_loop (kp : string) (s : Etcd) (existing : gset string) (n : Z) (todo : list (string * P))
    : Etcd * gset string * Z * option SyncErr :=
  match todo with
  | [] => (s, existing, n, None)
  | (id, p) :: todo =>
      match marshal p with
      | None => (s, existing, n, Some EMarshal)
      | Some body =>
          match etcd_write s (EventPut (kp +:+ id) body) with
          | (s, true) => put_loop kp s (existing ∖ {[id]}) (n + 1) todo
          | (s, false) => (s, existing, n, Some EPut)
          end
      end
  end.
Fixpoint delete_loop (kp : string) (s : Etcd) (n : Z) (ids : list string) : Etcd * Z :=
  match ids with
  | [] => (s, n)
  | id :: ids => let '(s, ok) := etcd_write s (EventDelete (kp +:+ id)) in delete_loop kp s (if ok then n + 1 else n) ids
  end.
Definition list_existing (y : Syncer) (kp : string) (s : Etcd) : Etcd * option (gset string) :=
  if DeleteStale y then
    match etcd_List s kp with
    | (s, Some keys) => (s, Some (set_map (fun k => TrimPrefix k kp) keys))
    | (s, None) => (s, None)
    end
  else (s, Some ∅).

Definition runSync (y : Syncer) (table subPath : string) (items : list (syncItem P)) (s : Etcd) : Etcd * SyncResult * option SyncErr :=
  let kp := Prefix y +:+ subPath in
  let '(w, act) := want items in
  match list_existing y kp s with
  | (s, None) => (s, mkResult table (zlen items) act 0 0, Some EList)
  | (s, Some existing) =>
      match put_loop kp s existing 0 (worder w) with
      | (s, _, n, Some e) => (s, mkResult table (zlen items) act n 0, Some e)
      | (s, existing, n, None) =>
          let '(s, d) := if DeleteStale y then delete_loop kp s 0 (eorder existing) else (s, 0) in
          (s, mkResult table (zlen items) act n d, None)
      end
  end.
End table.

(** * The copy of one layer of the margin document *)
Context (marshal_doc : PricingTableDoc -> option string) (unmarshal_doc : string -> option PricingTableDoc).
Definition empty_doc : PricingTableDoc := mkDoc 0 [] [] [] [] [] [].
Definition bump (d : PricingTableDoc) : PricingTableDoc :=
  mkDoc (wrap64 (d_Version d + 1)) (d_TimeWindows d) (d_SwapPoint d) (d_HQMargin d) (d_SiteMargin d) (d_CustomerMargin d) (d_Holidays d).
Definition modifyPricingDoc (y : Syncer) (table : string) (modify : PricingTableDoc -> PricingTableDoc * (Z * Z)) (s : Etcd)
    : Etcd * SyncResult * option SyncErr :=
  let key := Prefix y +:+ "pricing/table" in
  match etcd_Get s key with
  | (s, None) => (s, mkResult table 0 0 0 0, Some EGet)
  | (s, Some stored) =>
      match match stored with Some body => unmarshal_doc body | None => Some empty_doc end with
      | None => (s, mkResult table 0 0 0 0, Some EParse)
      | Some doc =>
          let '(doc, (src, act)) := modify doc in
          match marshal_doc (bump doc) with
          | None => (s, mkResult table src act 0 0, Some EMarshal)
          | Some body =>
              match etcd_write s (EventPut key body) with
              | (s, true) => (s, mkResult table src act 1 0, None)
              | (s, false) => (s, mkResult table src act 0 0, Some EPut)
              end
          end
      end
  end.

(** * Rows *)
Record Currency := mkCurrency {
  c_Code : string; c_Name : string; c_RefCode : string; c_DecimalPlaces : Z; c_PrecisionKind : string; c_SortOrder : Z; c_Active : bool }.
Record CrossRow := mkCross { x_LegA : string; x_OpA : string; x_LegB : string; x_OpB : string; x_Scale : f64 }.
Record PairRow := mkPair {
  p_ID : string; p_Base : string; p_Quote : string; p_Kind : string; p_Symbol : string; p_Cross : option CrossRow; p_SpotDays : Z;
  p_ScaleUnit : Z; p_QuoteDecimals : Z; p_EmpDecimals : Z; p_PLPair : string; p_SortOrder : Z; p_Active : bool }.
Record SwapRow := mkSwapRow {
  w_Pair : string; w_Tenor : string; w_Bid : f64; w_Ask : f64; w_ApplyFrom : string; w_ApplyTo : string }.
Record HQRow := mkHQRow { h_Pair : string; h_Tier : string; h_Bid : f64; h_Ask : f64 }.
Record SiteRow := mkSiteRow { s_Pair : string; s_Channel : string; s_Site : string; s_Bid : f64; s_Ask : f64 }.
Record CustomerSpread := mkSpread { cs_Usid : string; cs_Pair : string; cs_Bid : f64; cs_Ask : f64; cs_Active : bool }.
Record ProfileRow := mkProfileRow { pr_Usid : string; pr_Site : string; pr_Tier : string; pr_Active : bool }.
(** [auth.UserProfile]. *)
Record UserProfile := mkUserProfile { up_Site : string; up_Tier : string }.

Definition swap_entry (r : SwapRow) : SwapEntryDoc := mkSwapDoc (w_Pair r) (w_Tenor r) (mkMargin (w_Bid r) (w_Ask r) f0 f0).
Definition hq_entry (r : HQRow) : HQEntryDoc := mkHQDoc (h_Pair r) (h_Tier r) (mkMargin (h_Bid r) (h_Ask r) f0 f0) "".
Definition site_entry (r : SiteRow) : SiteEntryDoc := mkSiteDoc (s_Pair r) (s_Channel r) (s_Site r) (mkMargin (s_Bid r) (s_Ask r) f0 f0) "".
Definition spread_entry (c : CustomerSpread) : CustomerEntryDoc :=
  mkCustomerDoc (cs_Usid c) (cs_Pair c) (cs_Bid c) (cs_Ask c) f0 f0 "override" 0 "".
Definition kept (c : CustomerSpread) : bool := cs_Active c && negb (bool_decide (cs_Usid c = "")).
Definition customerSpreadsToEntries (cs : list CustomerSpread) : list CustomerEntryDoc :=
  map spread_entry (List.filter kept cs).

Definition set_SwapPoint (d : PricingTableDoc) (l : list SwapEntryDoc) : PricingTableDoc :=
  mkDoc (d_Version d) (d_TimeWindows d) l (d_HQMargin d) (d_SiteMargin d) (d_CustomerMargin d) (d_Holidays d).
Definition set_HQMargin (d : PricingTableDoc) (l : list HQEntryDoc) : PricingTableDoc :=
  mkDoc (d_Version d) (d_TimeWindows d) (d_SwapPoint d) l (d_SiteMargin d) (d_CustomerMargin d) (d_Holidays d).
Definition set_SiteMargin (d : PricingTableDoc) (l : list SiteEntryDoc) : PricingTableDoc :=
  mkDoc (d_Version d) (d_TimeWindows d) (d_SwapPoint d) (d_HQMargin d) l (d_CustomerMargin d) (d_Holidays d).
Definition set_CustomerMargin (d : PricingTableDoc) (l : list CustomerEntryDoc) : PricingTableDoc :=
  mkDoc (d_Version d) (d_TimeWindows d) (d_SwapPoint d) (d_HQMargin d) (d_SiteMargin d) l (d_Holidays d).

(** * The tables *)
Definition currency_items (cs : list Currency) : list (syncItem Currency) := map (fun c => mkItem (c_Code c) (c_Active c) c) cs.
Definition SyncCurrencies (mj : Currency -> option string) wo eo (y : Syncer) (cs : list Currency) :=
  runSync mj wo eo y "currency" "currency/" (currency_items cs).
Definition pair_items (ps : list PairRow) : list (syncItem PairRow) := map (fun p => mkItem (p_ID p) (p_Active p) p) ps.
Definition SyncPairs (mj : PairRow -> option string) wo eo (y : Syncer) (ps : list PairRow) :=
  runSync mj wo eo y "pair" "pair/" (pair_items ps).
Definition profile_items (ups : list ProfileRow) : list (syncItem UserProfile) :=
  map (fun u => mkItem (pr_Usid u) (pr_Active u) (mkUserProfile (pr_Site u) (pr_Tier u))) ups.
Definition SyncUserProfiles (mj : UserProfile -> option string) wo eo (y : Syncer) (ups : list ProfileRow) :=
  runSync mj wo eo y "user-profile" "auth/user-profiles/" (profile_items ups).
Definition SyncCustomerMargins (y : Syncer) (cs : list CustomerSpread) : Etcd -> Etcd * SyncResult * option SyncErr :=
  modifyPricingDoc y "customer_margin" (fun doc =>
    let entries := customerSpreadsToEntries cs in (set_CustomerMargin doc entries, (zlen cs, zlen entries))).
Definition SyncSwapPoints (y : Syncer) (sps : list SwapRow) : Etcd -> Etcd * SyncResult * option SyncErr :=
  modifyPricingDoc y "swap_point" (fun doc => (set_SwapPoint doc (map swap_entry sps), (zlen sps, zlen sps))).
Definition SyncHQMargins (y : Syncer) (ms : list HQRow) : Etcd -> Etcd * SyncResult * option SyncErr :=
  modifyPricingDoc y "hq_margin" (fun doc => (set_HQMargin doc (map hq_entry ms), (zlen ms, zlen ms))).
Definition SyncSiteMargins (y : Syncer) (ms : list SiteRow) : Etcd -> Etcd * SyncResult * option SyncErr :=
  modifyPricingDoc y "site_margin" (fun doc => (set_SiteMargin doc (map site_entry ms), (zlen ms, zlen ms))).
End copy.
Arguments mkItem {P}.
Arguments it_id {P}.
Arguments it_active {P}.
Arguments it_payload {P}.

(** * The source of the rows *)
(** [Backend]: what each load returns; [FileBackend] reads a JSON file per table. *)
Record Backend := mkBackend {
  LoadCurrencies : option (list Currency); LoadPairs : option (list PairRow); LoadSwapPoints : option (list SwapRow);
  LoadHQMargins : option (list HQRow); LoadSiteMargins : option (list SiteRow); LoadUserProfiles : option (list ProfileRow);
  LoadCustomerSpreads : option (list CustomerSpread) }.
Inductive file := NoFile | Unreadable | Text (s : string).
(** A missing file leaves the zero value, the empty list. *)
Definition readJSON {A} (unmarshal : string -> option (list A)) (f : file) : option (list A) :=
  match f with NoFile => Some [] | Unreadable => None | Text s => unmarshal s end.
Record RowCodec := mkRowCodec {
  u_currency : string -> option (list Currency); u_pair : string -> option (list PairRow); u_swap : string -> option (list SwapRow);
  u_hq : string -> option (list HQRow); u_site : string -> option (list SiteRow); u_profile : string -> option (list ProfileRow);
  u_spread : string -> option (list CustomerSpread) }.
Definition FileBackend (u : RowCodec) (dir : string -> file) : Backend :=
  mkBackend (readJSON (u_currency u) (dir "currency.json")) (readJSON (u_pair u) (dir "pair.json")) (readJSON (u_swap u) (dir "swap_point.json"))
    (readJSON (u_hq u) (dir "hq_margin.json")) (readJSON (u_site u) (dir "site_margin.json")) (readJSON (u_profile u) (dir "user_profile.json"))
    (readJSON (u_spread u) (dir "customer_margin.json")).

Record GradeMapper := mkMapper { TierByGrade : gmap string string; SiteByCode : gmap string string; TierFallback : string; SiteFallback : string }.
Definition MapTier (m : GradeMapper) (grade : string) : string :=
  match TierByGrade m !! grade with Some t => t | None => if bool_decide (TierFallback m = "") then "STD" else TierFallback m end.
Definition MapSite (m : GradeMapper) (code : string) : string :=
  match SiteByCode m !! code with Some s => s | None => if bool_decide (SiteFallback m = "") then "BRANCH" else SiteFallback m end.

(** * The command *)
Record Json := mkJson {
  j_currency : Currency -> option string; j_pair : PairRow -> option string; j_profile : UserProfile -> option string;
  j_doc : PricingTableDoc -> option string; u_doc : string -> option PricingTableDoc }.
Record Orders := mkOrders { o_want : forall P, gmap string P -> list (string * P); o_stale : gset string -> list string }.
Definition load_then {A} (rows : option (list A)) (sync : list A -> Etcd -> Etcd * SyncResult * option SyncErr) (s : Etcd) : Etcd * bool :=
  match rows with
  | None => (s, false)
  | Some l => let '(s, _, e) := sync l s in (s, if e is None then true else false)
  end.
Definition sync_table (net : nat -> list event * outcome) (j : Json) (o : Orders) (y : Syncer) (b : Backend) (t : string) (s : Etcd)
    : Etcd * bool :=
  let t := TrimSpace t in
  if decide (t = "currency") then load_then (LoadCurrencies b) (SyncCurrencies net (j_currency j) (o_want o _) (o_stale o) y) s
  else if decide (t = "pair") then load_then (LoadPairs b) (SyncPairs net (j_pair j) (o_want o _) (o_stale o) y) s
  else if decide (t = "swap") then load_then (LoadSwapPoints b) (SyncSwapPoints net (j_doc j) (u_doc j) y) s
  else if decide (t = "hq_margin") then load_then (LoadHQMargins b) (SyncHQMargins net (j_doc j) (u_doc j) y) s
  else if decide (t = "site_margin") then load_then (LoadSiteMargins b) (SyncSiteMargins net (j_doc j) (u_doc j) y) s
  else if decide (t = "user_profile") then load_then (LoadUserProfiles b) (SyncUserProfiles net (j_profile j) (o_want o _) (o_stale o) y) s
  else if decide (t = "customer_margin") then load_then (LoadCustomerSpreads b) (SyncCustomerMargins net (j_doc j) (u_doc j) y) s
  else (s, true).
Definition tables_of (flag : string) : list string :=
  if decide (flag = "all") then ["currency"; "pair"; "swap"; "hq_margin"; "site_margin"; "user_profile"; "customer_margin"]
  else Split flag ","%char.
Fixpoint sync_tables (net : nat -> list event * outcome) (j : Json) (o : Orders) (y : Syncer) (b : Backend) (ts : list string) (s : Etcd)
    (exitCode : Z) : Etcd * Z :=
  match ts with
  | [] => (s, exitCode)
  | t :: ts => let '(s, ok) := sync_table net j o y b t s in sync_tables net j o y b ts s (if ok then exitCode else 1)
  end.
Definition main (net : nat -> list event * outcome) (j : Json) (o : Orders) (y : Syncer) (b : Backend) (flag : string) (s : Etcd) : Etcd * Z :=
  sync_tables net j o y b (tables_of flag) s 0.

(** * The profiles of users *)
Section resolver.
Context (unmarshal : string -> option UserProfile).
Record EtcdUserProfileResolver := mkResolver { rs_prefix : string; rs_entries : gmap string UserProfile; rs_snap : gmap string UserProfile }.
Definition resolver_prefix (p : string) : string :=
  let p := if decide (p = "") then "wtg/auth/user-profiles/" else p in if HasSuffix p "/" then p else p +:+ "/".
Definition rebuild (r : EtcdUserProfileResolver) : EtcdUserProfileResolver := mkResolver (rs_prefix r) (rs_entries r) (rs_entries r).
Definition set_entries (r : EtcdUserProfileResolver) (m : gmap string UserProfile) : EtcdUserProfileResolver := mkResolver (rs_prefix r) m (rs_snap r).
(** Text that is not a profile is skipped. *)
Definition put_entry (pre : string) (m : gmap string UserProfile) (k v : string) : gmap string UserProfile :=
  match unmarshal v with Some p => <[TrimPrefix k pre := p]> m | None => m end.
Definition resolver_load (r : EtcdUserProfileResolver) (kvs : list (string * string)) : EtcdUserProfileResolver :=
  rebuild (set_entries r (fold_left (fun m e => put_entry (rs_prefix r) m e.1 e.2) kvs (rs_entries r))).
Definition NewEtcdUserProfileResolver (p : string) (kvs : list (string * string)) : EtcdUserProfileResolver :=
  resolver_load (mkResolver (resolver_prefix p) ∅ ∅) kvs.
Definition entry_event (pre : string) (m : gmap string UserProfile) (e : event) : gmap string UserProfile :=
  match e with EventPut k v => put_entry pre m k v | EventDelete k => delete (TrimPrefix k pre) m end.
Definition resolver_events (r : EtcdUserProfileResolver) (es : list event) : EtcdUserProfileResolver :=
  match es with [] => r | _ => rebuild (set_entries r (fold_left (entry_event (rs_prefix r)) es (rs_entries r))) end.
Definition Resolve_profile (r : EtcdUserProfileResolver) (usid : string) : option UserProfile := rs_snap r !! usid.

(** [StaticResolver]: the snapshot alone, from a file or set by hand. *)
Definition Static_Set (m : gmap string UserProfile) (usid : string) (p : UserProfile) : gmap string UserProfile := <[usid := p]> m.
Definition LoadStatic (entries : list (string * UserProfile)) : gmap string UserProfile :=
  fold_left (fun m e => <[e.1 := e.2]> m) entries ∅.
End resolver.

(** * Laws of etcd *)
(** What a change does to one key. *)
Definition effect (k : string) (o : option string) (c : event) : option string :=
  if decide (key_of c = k) then match c with EventPut _ v => Some v | EventDelete _ => None end else o.
Lemma change_lookup m c k : change m c !! k = effect k (m !! k) c.
Proof.
  unfold effect. destruct c as [k' v|k']; simpl; case_decide; subst;
    by rewrite ?lookup_insert_eq, ?lookup_delete_eq, ?lookup_insert_ne, ?lookup_delete_ne by done.
Qed.
Lemma commit_kv s c : kv (commit s c) = change (kv s) c.
Proof. destruct c as [|k]; simpl; [done|]. case_match eqn:E; simpl; [done|]. by rewrite delete_id. Qed.
Lemma commit_calls s c : calls (commit s c) = calls s.
Proof. destruct c; simpl; [done|]. by case_match. Qed.
Lemma commits_lookup cs s k : kv (fold_left commit cs s) !! k = fold_left (effect k) cs (kv s !! k).
Proof. revert s. induction cs as [|c cs IH]; intros s; simpl; [done|]. by rewrite IH, commit_kv, change_lookup. Qed.
Lemma effects_untouched k cs o : Forall (fun c => key_of c <> k) cs -> fold_left (effect k) cs o = o.
Proof. induction 1 as [|c cs Hc _ IH] in o |- *; simpl; [done|]. unfold effect at 2. by rewrite decide_False. Qed.

(** The log replayed over an earlier state gives the present one. *)
Definition follows (m : gmap string string) (n : nat) (s : Etcd) : Prop :=
  (n <= length (log s))%nat /\ kv s = fold_left change (drop n (log s)) m.
Lemma follows_commit m n s c : follows m n s -> follows m n (commit s c).
Proof.
  intros [Hn Hk]. unfold follows. rewrite commit_kv. destruct c as [k v|k]; simpl.
  - rewrite length_app, drop_app_le, fold_left_app by lia. simpl. split; [lia|by rewrite <- Hk].
  - case_match eqn:E; simpl.
    + rewrite length_app, drop_app_le, fold_left_app by lia. simpl. split; [lia|by rewrite <- Hk].
    + by rewrite delete_id.
Qed.
Lemma follows_commits m n s cs : follows m n s -> follows m n (fold_left commit cs s).
Proof. revert s. induction cs as [|c cs IH]; intros s; simpl; auto using follows_commit. Qed.

(** * Laws of the copy *)
Section laws.
Context (net : nat -> list event * outcome).
(** The changes of others before the calls numbered from [a] up to [b]. *)
Definition others (a b : nat) : list event := mjoin ((fun i => (net i).1) <$> seq a (b - a)).
Lemma others_S a : others a (S a) = (net a).1.
Proof. unfold others. replace (S a - a)%nat with 1%nat by lia. simpl. by rewrite app_nil_r. Qed.
Lemma others_split a b c : (a <= b <= c)%nat -> others a c = others a b ++ others b c.
Proof.
  intros H. unfold others. replace (c - a)%nat with ((b - a) + (c - b))%nat by lia.
  rewrite seq_app, fmap_app, join_app. by replace (a + (b - a))%nat with b by lia.
Qed.
Lemma others_nil a : others a a = [].
Proof. unfold others. by rewrite Nat.sub_diag. Qed.

(** From [s] to [s'] the copy itself changed only keys below [kp]; [own id] is what may
    have become of the key of [id]. *)
Record moved (kp : string) (s s' : Etcd) : Prop := mkMoved {
  mv_calls : (calls s <= calls s')%nat;
  mv_other k : HasPrefix k kp = false -> kv s' !! k = fold_left (effect k) (others (calls s) (calls s')) (kv s !! k);
  mv_log m n : follows m n s -> follows m n s' }.
(** The others leave the keys below [kp] alone. *)
Definition quiet (kp : string) (a b : nat) : Prop := Forall (fun c => HasPrefix (key_of c) kp = false) (others a b).
Definition at_ (kp : string) (s : Etcd) (id : string) : option string := kv s !! (kp +:+ id).

Lemma moved_refl kp s : moved kp s s.
Proof. split; [done| |done]. intros k _. by rewrite others_nil. Qed.
Lemma moved_trans kp s1 s2 s3 : moved kp s1 s2 -> moved kp s2 s3 -> moved kp s1 s3.
Proof.
  intros [C1 O1 L1] [C2 O2 L2]. split; [lia| |auto].
  intros k Hk. rewrite O2, O1, <- fold_left_app, <- others_split by (done || lia). done.
Qed.
Lemma quiet_split kp a b c : (a <= b <= c)%nat -> quiet kp a c <-> quiet kp a b /\ quiet kp b c.
Proof. intros H. unfold quiet. rewrite (others_split a b c) by done. apply Forall_app. Qed.
Lemma meet_moved kp s : moved kp s (meet net s).1.
Proof.
  split; simpl; [lia| |].
  - intros k _. by rewrite others_S, commits_lookup.
  - intros m n F. destruct (follows_commits m n s (net (calls s)).1 F) as [A B]. by split.
Qed.
Lemma meet_at kp s id : quiet kp (calls s) (S (calls s)) -> at_ kp (meet net s).1 id = at_ kp s id.
Proof.
  unfold quiet, at_. rewrite others_S. intros Q. simpl. rewrite commits_lookup. apply effects_untouched.
  eapply Forall_impl; [exact Q|]. cbn. intros c Hc E. by rewrite E, HasPrefix_app in Hc.
Qed.

Lemma write_moved kp s id c s' ok : key_of c = kp +:+ id -> etcd_write net s c = (s', ok) -> moved kp s s' /\ calls s' = S (calls s).
Proof.
  intros Hc. unfold etcd_write. pose proof (meet_moved kp s) as M. destruct (meet net s) as [s1 o] eqn:E. simpl in M.
  assert (C1 : calls s1 = S (calls s)) by by inversion E.
  assert (M2 : moved kp s (commit s1 c)).
  { destruct M as [C O L]. split; [rewrite commit_calls; lia| |auto using follows_commit].
    intros k Hk. rewrite commit_calls, commit_kv, change_lookup, O by done. unfold effect at 1. rewrite decide_False; [done|].
    intros <-. by rewrite Hc, HasPrefix_app in Hk. }
  destruct o; intros [= <- <-]; rewrite ?commit_calls; auto.
Qed.
(** A call on the key of [id] leaves other keys below the prefix alone, and this one as
    it was or as asked; as asked when it reports success. *)
Lemma write_at kp s id c s' ok :
  key_of c = kp +:+ id -> etcd_write net s c = (s', ok) -> quiet kp (calls s) (calls s') ->
  (forall id', id' <> id -> at_ kp s' id' = at_ kp s id') /\
  (at_ kp s' id = at_ kp s id /\ ok = false \/ at_ kp s' id = effect (kp +:+ id) None c) /\
  (ok = true -> at_ kp s' id = effect (kp +:+ id) None c) /\ ok = bool_decide ((net (calls s)).2 = Done).
Proof.
  intros Hc W Q. destruct (write_moved kp s id c s' ok Hc W) as [_ HC]. rewrite HC in Q.
  pose proof (fun i => meet_at kp s i Q) as A. unfold etcd_write in W. destruct (meet net s) as [s1 o] eqn:E. simpl in A.
  assert ((net (calls s)).2 = o) as -> by by inversion E.
  assert (B : forall id', id' <> id -> at_ kp (commit s1 c) id' = at_ kp s id').
  { intros id' Hn. unfold at_. rewrite commit_kv, change_lookup. unfold effect. rewrite decide_False; [apply A|].
    rewrite Hc. intros ->%str_app_inj_l. done. }
  assert (D : at_ kp (commit s1 c) id = effect (kp +:+ id) None c).
  { unfold at_. rewrite commit_kv, change_lookup. unfold effect. by rewrite !decide_True. }
  destruct o; injection W as <- <-; (split; [solve [done|auto]|]); (split; [by auto|]); split; by auto.
Qed.

Section table_laws.
Context {P : Type} (marshal : P -> option string).
Context (kp : string).
Implicit Types (s : Etcd) (id : string).

(** Every key below the prefix is as it was, or as some row of [todo] wants it. *)
Lemma put_loop_spec todo s ex n s' ex' n' e :
  NoDup todo.*1 -> put_loop net marshal kp s ex n todo = (s', ex', n', e) ->
  moved kp s s' /\
  (quiet kp (calls s) (calls s') ->
   (forall id, at_ kp s' id = at_ kp s id \/ exists p, (id, p) ∈ todo /\ at_ kp s' id = marshal p /\ is_Some (marshal p)) /\
   (forall id, id ∉ todo.*1 -> at_ kp s' id = at_ kp s id) /\
   (e = None -> n' = n + zlen todo /\ ex' = ex ∖ list_to_set todo.*1 /\
      forall id p, (id, p) ∈ todo -> at_ kp s' id = marshal p /\ is_Some (marshal p)) /\
   ((forall i, (calls s <= i < calls s')%nat -> (net i).2 = Done) -> (forall id p, (id, p) ∈ todo -> is_Some (marshal p)) -> e = None)).
Proof.
  revert s ex n. induction todo as [|[id p] todo IH]; intros s ex n HN; cbn [put_loop].
  { intros [= <- <- <- <-]. split; [apply moved_refl|]. intros _. split; [auto|]. split; [done|]. split; [|done].
    intros _. split; [cbn; lia|]. split; [set_solver|]. by intros ?? ?%not_elem_of_nil. }
  inversion_clear HN as [|? ? Hid HN'].
  destruct (marshal p) as [body|] eqn:Em; cycle 1.
  { intros [= <- <- <- <-]. split; [apply moved_refl|]. intros _. split; [auto|]. split; [done|]. split; [done|].
    intros _ HM. destruct (HM id p) as [? ?]; [left|]. congruence. }
  destruct (etcd_write net s (EventPut (kp +:+ id) body)) as [s1 ok] eqn:W.
  destruct (write_moved kp s id (EventPut (kp +:+ id) body) s1 ok eq_refl W) as [M1 C1].
  assert (WA := write_at kp s id (EventPut (kp +:+ id) body) s1 ok eq_refl W). unfold effect in WA. cbn [key_of] in WA. rewrite decide_True in WA by done.
  destruct ok.
  - intros HR. destruct (IH _ _ _ HN' HR) as [M2 K]. split; [by eapply moved_trans|].
    intros Q. pose proof (mv_calls _ _ _ M1). pose proof (mv_calls _ _ _ M2).
    destruct (proj1 (quiet_split kp (calls s) (calls s1) (calls s') ltac:(lia)) Q) as [Q1 Q2].
    destruct (WA Q1) as (A1 & _ & A3 & A4). specialize (A3 eq_refl). destruct (K Q2) as (K1 & K2 & K3 & K4). split; [|split; [|split]].
    + intros i. destruct (decide (i = id)) as [->|Hi].
      * right. exists p. rewrite K2, A3, Em by done. split; [left|]. eauto.
      * destruct (K1 i) as [E|(q & Hq & E)]; [left; by rewrite E, A1|]. right. exists q. split; [by right|done].
    + cbn. intros i [H1 H2]%not_elem_of_cons. by rewrite K2, A1.
    + intros ->. destruct (K3 eq_refl) as (-> & -> & K5). split; [rewrite length_cons; lia|]. split; [by rewrite fmap_cons, list_to_set_cons, difference_difference_l_L|].
      intros i q [[= -> ->]|Hq]%elem_of_cons; [by rewrite K2, A3, Em by done|auto].
    + intros HD HM. apply K4; [intros; apply HD; lia|]. intros; apply (HM id0); by right.
  - intros [= <- <- <- <-]. split; [done|]. intros Q. destruct (WA Q) as (A1 & A2 & _ & A4). split; [|split; [|split]].
    + intros i. destruct (decide (i = id)) as [->|Hi]; [|by left; apply A1].
      destruct A2 as [[A2 _]|A2]; [by left|]. right. exists p. rewrite A2, Em. split; [left|]. eauto.
    + cbn. intros i [H1 H2]%not_elem_of_cons. by rewrite A1.
    + done.
    + intros HD. specialize (HD (calls s)). rewrite C1 in HD. rewrite (HD ltac:(lia)), bool_decide_true in A4 by done. done.
Qed.

Lemma delete_loop_spec ids s n s' d :
  NoDup ids -> delete_loop net kp s n ids = (s', d) ->
  moved kp s s' /\
  (quiet kp (calls s) (calls s') ->
   (forall id, at_ kp s' id = at_ kp s id \/ id ∈ ids /\ at_ kp s' id = None) /\
   (forall id, id ∉ ids -> at_ kp s' id = at_ kp s id) /\
   ((forall i, (calls s <= i < calls s')%nat -> (net i).2 = Done) -> d = n + zlen ids /\ forall id, id ∈ ids -> at_ kp s' id = None)).
Proof.
  revert s n. induction ids as [|id ids IH]; intros s n HN; cbn [delete_loop].
  { intros [= <- <-]. split; [apply moved_refl|]. intros _. split; [auto|]. split; [done|].
    intros _. split; [cbn; lia|]. by intros ? ?%not_elem_of_nil. }
  inversion_clear HN as [|? ? Hid HN'].
  destruct (etcd_write net s (EventDelete (kp +:+ id))) as [s1 ok] eqn:W.
  destruct (write_moved kp s id (EventDelete (kp +:+ id)) s1 ok eq_refl W) as [M1 C1].
  assert (WA := write_at kp s id (EventDelete (kp +:+ id)) s1 ok eq_refl W). unfold effect in WA. cbn [key_of] in WA.
  rewrite decide_True in WA by done.
  intros HR. destruct (IH _ _ HN' HR) as [M2 K]. split; [by eapply moved_trans|].
  intros Q. pose proof (mv_calls _ _ _ M1). pose proof (mv_calls _ _ _ M2).
  destruct (proj1 (quiet_split kp (calls s) (calls s1) (calls s') ltac:(lia)) Q) as [Q1 Q2].
  destruct (WA Q1) as (A1 & A2 & A3 & A4). destruct (K Q2) as (K1 & K2 & K3). split; [|split].
  - intros i. destruct (decide (i = id)) as [->|Hi].
    + rewrite K2 by done. destruct A2 as [[A2 _]|A2]; rewrite A2; [by left|]. right. split; [left|done].
    + destruct (K1 i) as [E|[Hq E]]; rewrite E; [left; by apply A1|]. right. split; [by right|done].
  - intros i [H1 H2]%not_elem_of_cons. by rewrite K2, A1.
  - intros HD. rewrite (HD (calls s)), bool_decide_true in A4 by (done || lia). subst ok.
    destruct K3 as [-> K4]; [intros; apply HD; lia|]. split; [rewrite length_cons; lia|].
    intros i [->|Hi]%elem_of_cons; [by rewrite K2, A3|auto].
Qed.

(** The row that decides about an identifier: the last active one. *)
Definition wanted (items : list (syncItem P)) (id : string) : option P :=
  it_payload <$> last (filter (fun it => it_active it = true /\ it_id it = id /\ id <> "") items).
Lemma want_wanted items id : (want items).1 !! id = wanted items id.
Proof.
  unfold want, wanted. induction items as [|it items IH] using rev_ind; [done|].
  rewrite fold_left_app, filter_app. cbn [fold_left]. unfold want_item at 1. rewrite filter_cons, filter_nil.
  destruct (it_active it) eqn:Ea; cbn [negb orb].
  - case_bool_decide as E0.
    + rewrite decide_False, app_nil_r; [done|]. intros (_ & <- & ?). done.
    + cbn [fst]. destruct (decide (it_id it = id)) as [<-|Hn].
      * rewrite lookup_insert_eq, decide_True, last_snoc; done.
      * rewrite lookup_insert_ne, decide_False, app_nil_r by tauto. done.
  - rewrite decide_False, app_nil_r; [done|]. intros [? _]. congruence.
Qed.

Lemma under_lookup pre m k : under pre m !! k = if HasPrefix k pre then m !! k else None.
Proof.
  unfold under. destruct (HasPrefix k pre) eqn:E.
  - destruct (m !! k) eqn:Em; [by apply map_lookup_filter_Some|]. apply map_lookup_filter_None. by left.
  - apply map_lookup_filter_None. right. simpl. congruence.
Qed.
Lemma list_existing_spec y s s' o :
  list_existing net y kp s = (s', o) ->
  moved kp s s' /\
  (quiet kp (calls s) (calls s') ->
   (forall id, at_ kp s' id = at_ kp s id) /\
   (forall X, o = Some X -> if DeleteStale y then forall id, id ∈ X <-> is_Some (at_ kp s id) else X = ∅) /\
   ((forall i, (calls s <= i < calls s')%nat -> (net i).2 = Done) -> is_Some o)).
Proof.
  unfold list_existing. destruct (DeleteStale y); cycle 1.
  { intros [= <- <-]. split; [apply moved_refl|]. intros _. split; [done|]. split; [by intros ? [= <-]|eauto]. }
  unfold etcd_List. pose proof (meet_moved kp s) as M. pose proof (meet_at kp s) as A.
  destruct (meet net s) as [s1 oc] eqn:E. simpl in M, A. assert (C1 : calls s1 = S (calls s)) by by inversion E.
  assert (Ho : (net (calls s)).2 = oc) by by inversion E.
  destruct oc; intros [= <- <-]; rewrite C1; (split; [done|]); intros Q; (split; [by intros; apply A|]); split.
  2, 4, 6: intros HD; rewrite HD in Ho by lia; solve [eauto|done].
  all: try by intros ? [= ?].
  intros X [= <-] id. rewrite <- (A id Q). unfold at_. rewrite elem_of_map. split.
  - intros (k & -> & [v Hv]%elem_of_dom). rewrite under_lookup in Hv. destruct (HasPrefix k kp) eqn:Ep; [|done].
    apply HasPrefix_iff in Ep as [t ->]. rewrite TrimPrefix_app. eauto.
  - intros [v Hv]. exists (kp +:+ id). rewrite TrimPrefix_app. split; [done|]. apply elem_of_dom.
    rewrite under_lookup, HasPrefix_app. eauto.
Qed.
End table_laws.

(** The removal of stale keys, when it is asked for. *)
Lemma drop_stale_spec kp y (eo : gset string -> list string) s (X : gset string) s' d :
  (forall X, eo X ≡ₚ elements X) -> (if DeleteStale y then delete_loop net kp s 0 (eo X) else (s, 0)) = (s', d) ->
  moved kp s s' /\
  (quiet kp (calls s) (calls s') ->
   (forall id, at_ kp s' id = at_ kp s id \/ id ∈ X /\ DeleteStale y = true /\ at_ kp s' id = None) /\
   ((forall i, (calls s <= i < calls s')%nat -> (net i).2 = Done) -> DeleteStale y = true -> forall id, id ∈ X -> at_ kp s' id = None)).
Proof.
  intros HE. assert (HN : NoDup (eo X)) by (rewrite HE; apply NoDup_elements).
  assert (HX : forall id, id ∈ eo X <-> id ∈ X) by (intros id; rewrite HE; apply elem_of_elements).
  destruct (DeleteStale y); [|intros [= <- <-]; split; [apply moved_refl|]; by split; [left|]].
  intros ED. destruct (delete_loop_spec kp _ _ _ _ _ HN ED) as [M K]. split; [done|]. intros Q. destruct (K Q) as (D1 & _ & D3). split.
  - intros id. destruct (D1 id) as [|[?%HX ?]]; auto.
  - intros HD _ id Hi. apply D3; [done|]. by apply HX.
Qed.

(** What a run of the copy establishes, whatever calls fail; [fine]: every call works. *)
Record mirrored {P} (marshal : P -> option string) (y : Syncer) (kp : string) (items : list (syncItem P)) (s s' : Etcd) (r : SyncResult)
    (e : option SyncErr) : Prop := mkMirrored {
  mi_outside k : HasPrefix k kp = false -> kv s' !! k = fold_left (effect k) (others (calls s) (calls s')) (kv s !! k);
  mi_log m n : follows m n s -> follows m n s';
  mi_nothing_else id : at_ kp s' id = at_ kp s id \/
    (exists p, wanted items id = Some p /\ at_ kp s' id = marshal p /\ is_Some (marshal p)) \/
    (wanted items id = None /\ DeleteStale y = true /\ at_ kp s' id = None);
  mi_rows id p : e = None -> wanted items id = Some p -> at_ kp s' id = marshal p /\ is_Some (marshal p);
  mi_fine : (forall i, (calls s <= i < calls s')%nat -> (net i).2 = Done) -> (forall id p, wanted items id = Some p -> is_Some (marshal p)) ->
    e = None /\ r_Put r = Z.of_nat (size (want items).1) /\
    (DeleteStale y = true -> forall id, at_ kp s' id = (wanted items id ≫= marshal)) }.

Lemma runSync_mirrored {P} (marshal : P -> option string) wo eo y table sub items s s' r e :
  (forall m, wo m ≡ₚ map_to_list m) -> (forall X, eo X ≡ₚ elements X) ->
  runSync net marshal wo eo y table sub items s = (s', r, e) -> quiet (Prefix y +:+ sub) (calls s) (calls s') ->
  mirrored marshal y (Prefix y +:+ sub) items s s' r e.
Proof.
  intros HW HE. unfold runSync. set (kp := Prefix y +:+ sub). destruct (want items) as [w act] eqn:Ew.
  assert (Hw : forall id p, (id, p) ∈ wo w <-> wanted items id = Some p).
  { intros id p. rewrite HW, elem_of_map_to_list, <- want_wanted, Ew. done. }
  assert (Hd : forall id, id ∈ (wo w).*1 <-> is_Some (wanted items id)).
  { intros id. rewrite list_elem_of_fmap. split; [intros ([? p] & -> & Hp); exists p; by apply Hw|].
    intros [p Hp]. exists (id, p). split; [done|]. by apply Hw. }
  assert (HN : NoDup (wo w).*1) by (rewrite HW; apply NoDup_fst_map_to_list).
  destruct (list_existing net y kp s) as [s1 o] eqn:EL. destruct (list_existing_spec kp y s s1 o EL) as [M1 K1].
  pose proof (mv_calls _ _ _ M1) as C1. destruct o as [X|]; cycle 1.
  { intros [= <- <- <-] Q. destruct (K1 Q) as (A & _ & D). split; [apply (mv_other _ _ _ M1)|apply (mv_log _ _ _ M1)|by auto|done|].
    intros HD _. by destruct (D HD). }
  destruct (put_loop net marshal kp s1 X 0 (wo w)) as [[[s2 X2] n] e2] eqn:EP.
  destruct (put_loop_spec marshal kp _ _ _ _ _ _ _ _ HN EP) as [M2 K2]. pose proof (mv_calls _ _ _ M2) as C2.
  assert (M12 := moved_trans _ _ _ _ M1 M2). destruct e2 as [e2|].
  { intros [= <- <- <-] Q. destruct (proj1 (quiet_split kp (calls s) (calls s1) (calls s2) ltac:(lia)) Q) as [Q1 Q2].
    destruct (K1 Q1) as (A & _ & D), (K2 Q2) as (B1 & _ & _ & B4). split; [apply (mv_other _ _ _ M12)|apply (mv_log _ _ _ M12)| |done|].
    - intros id. destruct (B1 id) as [E|(p & Hp & HB)]; [left; rewrite E; apply A|]. right. left. exists p. by rewrite <- Hw.
    - intros HD HM. discriminate B4; [intros; apply HD; lia|]. intros id p Hp. apply (HM id). by apply Hw. }
  destruct (if DeleteStale y then delete_loop net kp s2 0 (eo X2) else (s2, 0)) as [s3 d] eqn:ED. intros [= <- <- <-] Q.
  destruct (drop_stale_spec kp y eo s2 X2 s3 d HE ED) as [M3 K3]. pose proof (mv_calls _ _ _ M3) as C3.
  destruct (proj1 (quiet_split kp (calls s) (calls s1) (calls s3) ltac:(lia)) Q) as [Q1 Q23].
  destruct (proj1 (quiet_split kp (calls s1) (calls s2) (calls s3) ltac:(lia)) Q23) as [Q2 Q3].
  destruct (K1 Q1) as (A1 & A2 & A3), (K2 Q2) as (B1 & B2 & B3 & B4), (K3 Q3) as [D1 D2]. specialize (A2 X eq_refl).
  destruct (B3 eq_refl) as (Hn & HX2 & B5).
  assert (HK : forall id, id ∈ X2 -> wanted items id = None).
  { intros id. rewrite HX2, elem_of_difference, elem_of_list_to_set, Hd. intros [_ HI]. apply eq_None_not_Some. auto. }
  split.
  - apply (mv_other _ _ _ (moved_trans _ _ _ _ M12 M3)).
  - apply (mv_log _ _ _ (moved_trans _ _ _ _ M12 M3)).
  - intros id. destruct (D1 id) as [E|(Hi & Hy & E)]; [|right; right; auto]. rewrite E.
    destruct (B1 id) as [E2|(p & Hp & HB)]; [left; by rewrite E2, A1|]. right. left. exists p. by rewrite <- Hw.
  - intros id p _ Hp. destruct (D1 id) as [E|(Hi & _)]; [rewrite E; apply B5; by apply Hw|]. by rewrite (HK id Hi) in Hp.
  - intros HD HM. split; [done|]. split.
    { cbn [r_Put]. rewrite Ew, Hn, HW, length_map_to_list. cbn [fst]. lia. }
    intros Hy id. rewrite Hy in A2. destruct (wanted items id) as [p|] eqn:Ep; cbn.
    + destruct (D1 id) as [E|(Hi & _)]; [rewrite E; apply B5; by apply Hw|]. by rewrite (HK id Hi) in Ep.
    + assert (E2 : at_ kp s2 id = at_ kp s id).
      { rewrite B2, A1; [done|]. rewrite Hd, Ep. by intros [? ?]. }
      destruct (at_ kp s id) eqn:Ea.
      * apply D2; [intros; apply HD; lia|done|]. rewrite HX2, elem_of_difference, elem_of_list_to_set, Hd, Ep, A2, Ea. split; [eauto|by intros [? ?]].
      * destruct (D1 id) as [E|(_ & _ & E)]; by rewrite E.
Qed.
End laws.

(** * Laws of the resolver *)
Section resolver_laws.
Context (uj : string -> option UserProfile) (kp : string).
(** [E] holds what the store says about every user, wherever it says something legible. *)
Definition reads (m : gmap string string) (E : gmap string UserProfile) : Prop :=
  forall id, match m !! (kp +:+ id) with None => E !! id = None | Some v => forall p, uj v = Some p -> E !! id = Some p end.
Lemma reads_event m E e :
  reads m E -> reads (change m e) (if HasPrefix (key_of e) kp then entry_event uj kp E e else E).
Proof.
  intros H id. specialize (H id). rewrite change_lookup. unfold effect. case_decide as Ek.
  - rewrite Ek, HasPrefix_app. destruct e as [k v|k]; cbn in Ek |- *; rewrite Ek; unfold put_entry; rewrite TrimPrefix_app.
    + intros p ->. apply lookup_insert_eq.
    + apply lookup_delete_eq.
  - destruct (HasPrefix (key_of e) kp) eqn:Ep; [|done]. apply HasPrefix_iff in Ep as [t Ht]. rewrite Ht in Ek.
    assert (t <> id) by congruence.
    assert (entry_event uj kp E e !! id = E !! id) as ->; [|done].
    destruct e as [k v|k]; cbn in Ht |- *; rewrite Ht; unfold put_entry; rewrite TrimPrefix_app.
    + destruct (uj v); [by rewrite lookup_insert_ne|done].
    + by rewrite lookup_delete_ne.
Qed.
Lemma reads_events es m E :
  reads m E -> reads (fold_left change es m) (fold_left (entry_event uj kp) (List.filter (fun e => HasPrefix (key_of e) kp) es) E).
Proof.
  revert m E. induction es as [|e es IH]; intros m E H; cbn; [done|]. apply (reads_event _ _ e) in H.
  destruct (HasPrefix (key_of e) kp); by apply IH.
Qed.
Lemma profile_load_lookup kvs E id :
  NoDup kvs.*1 -> Forall (fun e => HasPrefix e.1 kp = true) kvs ->
  fold_left (fun m e => put_entry uj kp m e.1 e.2) kvs E !! id =
    match (snd <$> List.find (fun e => bool_decide (e.1 = kp +:+ id)) kvs) ≫= uj with Some p => Some p | None => E !! id end.
Proof.
  revert E. induction kvs as [|[k v] kvs IH]; intros E HN HP; [done|].
  apply NoDup_cons in HN as [Hk HN]. apply Forall_cons in HP as [Hp HP]. cbn in Hp. apply HasPrefix_iff in Hp as [t ->].
  cbn [fold_left fst snd]. rewrite IH by done. cbn [List.find fst]. unfold put_entry. rewrite TrimPrefix_app.
  case_bool_decide as Ek; [apply str_app_inj_l in Ek as ->|].
  - destruct (List.find _ kvs) as [[k' v']|] eqn:Ef.
    { apply List.find_some in Ef as [Hin Eb]. apply bool_decide_eq_true in Eb. cbn in Eb. subst k'. destruct Hk.
      apply list_elem_of_fmap. exists (kp +:+ id, v'). split; [done|]. by apply list_elem_of_In. }
    cbn. destruct (uj v); [by rewrite lookup_insert_eq|done].
  - destruct ((snd <$> _) ≫= uj); [done|]. destruct (uj v); [|done]. rewrite lookup_insert_ne; [done|]. by intros ->.
Qed.
Lemma reads_load m kvs : kvs ≡ₚ map_to_list (under kp m) -> reads m (fold_left (fun m e => put_entry uj kp m e.1 e.2) kvs ∅).
Proof.
  intros HK id. rewrite profile_load_lookup, lookup_empty; cycle 1.
  { rewrite HK. apply NoDup_fst_map_to_list. }
  { apply Forall_forall. intros [k v] Hin. rewrite HK, elem_of_map_to_list, under_lookup in Hin. by destruct (HasPrefix k kp) eqn:E. }
  destruct (List.find _ kvs) as [[k v]|] eqn:Ef; cbn.
  - apply List.find_some in Ef as [Hin Eb]. apply bool_decide_eq_true in Eb. cbn in Eb. subst k.
    apply list_elem_of_In in Hin. rewrite HK, elem_of_map_to_list, under_lookup, HasPrefix_app in Hin. rewrite Hin.
    by intros p ->.
  - destruct (m !! (kp +:+ id)) as [v|] eqn:Em; [|done]. assert (Hin : (kp +:+ id, v) ∈ kvs).
    { rewrite HK, elem_of_map_to_list, under_lookup, HasPrefix_app. done. }
    apply list_elem_of_In in Hin. pose proof (List.find_none _ _ Ef _ Hin) as Hb. cbn in Hb. by rewrite bool_decide_eq_false in Hb.
Qed.

(** The snapshot is the entries, which have seen every event once, however the watch
    cut them into answers. *)
Lemma resolver_events_all batches r :
  rs_snap r = rs_entries r ->
  rs_snap (fold_left (resolver_events uj) batches r) = fold_left (entry_event uj (rs_prefix r)) (mjoin batches) (rs_entries r).
Proof.
  revert r. induction batches as [|b bs IH]; intros r Hr; [done|]. cbn [fold_left]. change (mjoin (b :: bs)) with (b ++ mjoin bs). rewrite fold_left_app.
  destruct b as [|e b]; [by apply IH|]. by rewrite IH.
Qed.
End resolver_laws.

(** The row that decides about a user: the last active one. *)
Definition profile_of (ups : list ProfileRow) (usid : string) : option UserProfile :=
  (fun u => mkUserProfile (pr_Site u) (pr_Tier u)) <$> last (filter (fun u => pr_Active u = true /\ pr_Usid u = usid /\ usid <> "") ups).
Lemma wanted_profiles ups usid : wanted (profile_items ups) usid = profile_of ups usid.
Proof.
  unfold wanted, profile_of, profile_items. induction ups as [|u ups IH] using rev_ind; [done|].
  rewrite map_app, !filter_app. cbn [map]. rewrite !filter_cons, !filter_nil. cbn [it_active it_id].
  destruct (decide (pr_Active u = true /\ pr_Usid u = usid /\ usid <> "")) as [H|H].
  - by rewrite !last_snoc.
  - by rewrite !app_nil_r.
Qed.

(** C30. From the rows of the database to the login: when the copy of the profiles has run
    without a failing call, and the resolver of a login server, loaded at any earlier time
    and watching since, has been delivered what the watch owes it, cut into answers in any
    way, it knows every user as the last active row says, and no other user. Whatever the
    store held before, whoever else wrote under other keys meanwhile, in whatever order
    the maps were visited. *)
Theorem user_profiles_follow net mj uj wo eo y ups s s' r e m0 n kvs batches prefix usid :
  let kp := Prefix y +:+ "auth/user-profiles/" in
  (forall p, exists t, mj p = Some t /\ uj t = Some p) -> (forall m, wo m ≡ₚ map_to_list m) -> (forall X, eo X ≡ₚ elements X) ->
  DeleteStale y = true -> resolver_prefix prefix = kp ->
  follows m0 n s -> kvs ≡ₚ map_to_list (under kp m0) ->
  SyncUserProfiles net mj wo eo y ups s = (s', r, e) ->
  quiet net kp (calls s) (calls s') -> (forall i, (calls s <= i < calls s')%nat -> (net i).2 = Done) ->
  mjoin batches = List.filter (fun c => HasPrefix (key_of c) kp) (drop n (log s')) ->
  Resolve_profile (fold_left (resolver_events uj) batches (NewEtcdUserProfileResolver uj prefix kvs)) usid = profile_of ups usid.
Proof.
  intros kp HJ HW HE Hy Hp HF HK HS HQ HD HB. unfold Resolve_profile.
  rewrite resolver_events_all by done. cbn [rs_prefix rs_entries NewEtcdUserProfileResolver resolver_load rebuild set_entries].
  rewrite Hp, HB. apply (reads_load uj kp m0) in HK. apply (reads_events uj kp (drop n (log s'))) in HK.
  pose proof (runSync_mirrored net mj wo eo y _ _ _ _ _ _ _ HW HE HS HQ) as M.
  destruct (mi_log _ _ _ _ _ _ _ _ _ M _ _ HF) as [_ Hkv]. rewrite <- Hkv in HK. specialize (HK usid).
  destruct (mi_fine _ _ _ _ _ _ _ _ _ M) as (_ & _ & HM); [done|intros id p _; destruct (HJ p) as (t & -> & _); eauto|].
  pose proof (HM Hy usid) as HA. unfold at_ in HA. fold kp in HA. rewrite HA, wanted_profiles in HK.
  destruct (profile_of ups usid) as [p|]; cbn in HK; [|done]. destruct (HJ p) as (t & Ht & Hu). rewrite Ht in HK. auto.
Qed.

(** * Laws of the margin document *)
Section margin_laws.
Context (net : nat -> list event * outcome) (mj : PricingTableDoc -> option string) (uj : string -> option PricingTableDoc).
(** The document a value of its key stands for. *)
Definition doc_of (o : option string) : option PricingTableDoc := match o with Some b => uj b | None => Some empty_doc end.
Lemma meet_calls s s' o : meet net s = (s', o) -> calls s' = S (calls s).
Proof. by intros [= <- _]. Qed.
Lemma modifyPricingDoc_spec y table modify s s' r e doc :
  let key := Prefix y +:+ "pricing/table" in
  modifyPricingDoc net mj uj y table modify s = (s', r, e) ->
  Forall (fun c => key_of c <> key) (others net (calls s) (calls s')) ->
  (forall i, (calls s <= i < calls s')%nat -> (net i).2 = Done) ->
  doc_of (kv s !! key) = Some doc -> is_Some (mj (bump (modify doc).1)) ->
  e = None /\ kv s' !! key = mj (bump (modify doc).1) /\
  (forall k, k <> key -> kv s' !! k = fold_left (effect k) (others net (calls s) (calls s')) (kv s !! k)).
Proof.
  intros key. unfold modifyPricingDoc. fold key. unfold etcd_Get, etcd_write.
  destruct (meet net s) as [s1 o1] eqn:M1. assert (C1 : calls s1 = S (calls s)) by by inversion M1.
  assert (O1 : (net (calls s)).2 = o1) by by inversion M1.
  assert (V1 : forall k, kv s1 !! k = fold_left (effect k) (net (calls s)).1 (kv s !! k)).
  { intros k. injection M1 as <- _. apply commits_lookup. }
  intros HR HQ HD Hdoc [body Hb].
  assert (C : (calls s < calls s')%nat).
  { clear - HR C1. repeat (case_match; simplify_eq); rewrite ?commit_calls; try lia.
    all: match goal with H : meet net _ = _ |- _ => apply meet_calls in H; lia end. }
  rewrite HD in O1 by lia. subst o1. rewrite (others_split net _ (calls s1)), C1, others_S in HQ |- * by lia.
  apply Forall_app in HQ as [HQ1 HQ2]. rewrite V1, effects_untouched in HR by done. fold (doc_of (kv s !! key)) in HR. rewrite Hdoc in HR.
  destruct (modify doc) as [doc' [src act]]. cbn [fst] in Hb. rewrite Hb in HR.
  destruct (meet net s1) as [s2 o2] eqn:M2. assert (C2 : calls s2 = S (calls s1)) by by inversion M2.
  assert (O2 : (net (calls s1)).2 = o2) by by inversion M2.
  assert (Cs : calls s' = calls s2) by (destruct o2; injection HR as <- _ _; by rewrite ?commit_calls).
  rewrite HD in O2 by lia. subst o2. injection HR as <- _ <-. split; [done|]. rewrite Cs, C2, C1, others_S. cbn [commit kv change fst]. rewrite lookup_insert_eq. split; [by rewrite Hb|].
  intros k Hk. rewrite lookup_insert_ne, fold_left_app, <- V1 by done. rewrite <- C1. injection M2 as <- _. apply commits_lookup.
Qed.
End margin_laws.

(** The row that decides a customer's price for a pair: the first active one for the pair
    or for all. *)
Definition first_spread (cs : list CustomerSpread) (usid pair : string) : option CustomerSpread :=
  List.find (fun c => kept c && bool_decide (cs_Usid c = usid) && (bool_decide (cs_Pair c = "") || bool_decide (cs_Pair c = pair))) cs.
Lemma sort_rules_id l : Forall (fun r => cu_Priority r = 0) l -> sort_rules l = l.
Proof.
  intros H. unfold sort_rules. set (P := fun r => cu_Priority r =? 0).
  assert (HP : forall l', Forall (fun r => cu_Priority r = 0) l' -> List.filter P l' = l').
  { induction 1 as [|x l' Hx _ IH]; cbn; [done|]. unfold P at 1. by rewrite Hx, IH. }
  rewrite <- (HP (insertion_sort _ l)); [|by rewrite insertion_sort_perm]. rewrite insertion_sort_stable; [by apply HP|].
  unfold P. intros x y Hx%Z.eqb_eq Hy%Z.eqb_eq. apply Z.ltb_ge. lia.
Qed.
Lemma find_filter_map {A B} (f : A -> B) (k : A -> bool) (p : B -> bool) l :
  List.find p (map f (List.filter k l)) = f <$> List.find (fun a => k a && p (f a)) l.
Proof.
  induction l as [|a l IH]; [done|]. cbn. destruct (k a); cbn; [|exact IH]. destruct (p (f a)); [done|exact IH].
Qed.
Lemma find_ext_eq {A} (p q : A -> bool) l : (forall a, p a = q a) -> List.find p l = List.find q l.
Proof. intros H. induction l as [|a l IH]; cbn; [done|]. by rewrite H, IH. Qed.
Lemma synced_rule doc cs usid pair ws :
  matchCustomerRule (BuildPricingTable (bump (set_CustomerMargin doc (customerSpreadsToEntries cs)))) usid pair ws =
  (fun c => build_rule (spread_entry c)) <$> first_spread cs usid pair.
Proof.
  unfold matchCustomerRule, customerSpreadsToEntries, first_spread. cbn [BuildPricingTable CustomerMargin bump set_CustomerMargin d_CustomerMargin].
  rewrite map_map, sort_rules_id by (apply Forall_forall; intros ? (c & <- & _)%list_elem_of_In%in_map_iff; done).
  case_decide as E.
  - destruct (List.find _ cs) as [c|] eqn:Ef; [|done]. apply List.find_some in Ef as [_ Hb]. unfold kept in Hb. subst usid.
    destruct (bool_decide_reflect (cs_Usid c = "")); by rewrite ?andb_false_r in Hb.
  - rewrite find_filter_map. f_equal. apply find_ext_eq. intros c. unfold rule_matches. cbn.
    rewrite (bool_decide_true (normalizeName "" = "")) by done. cbn. by rewrite andb_true_r, andb_assoc.
Qed.

(** C20. A customer's spread in the database is what the customer is quoted: after a copy
    without failing calls, whose document no one else touched meanwhile, the document
    differs from the stored one in its customer layer and its version only, and the engine
    prices a customer with an active row at the market plus the swap points and the first
    such row's spread, whatever tier, branch and window margins the document has; everyone
    else pays the margins of tier and branch. *)
Theorem customer_spread_quoted net mj uj y cs s s' r e doc tz worder raw profile tenor now wall usid :
  let key := Prefix y +:+ "pricing/table" in
  let doc' := bump (set_CustomerMargin doc (customerSpreadsToEntries cs)) in
  SyncCustomerMargins net mj uj y cs s = (s', r, e) ->
  Forall (fun c => key_of c <> key) (others net (calls s) (calls s')) ->
  (forall i, (calls s <= i < calls s')%nat -> (net i).2 = Done) ->
  doc_of uj (kv s !! key) = Some doc -> (exists t, mj doc' = Some t /\ uj t = Some doc') ->
  e = None /\ doc_of uj (kv s' !! key) = Some doc' /\
  (d_TimeWindows doc' = d_TimeWindows doc /\ d_SwapPoint doc' = d_SwapPoint doc /\ d_HQMargin doc' = d_HQMargin doc /\
   d_SiteMargin doc' = d_SiteMargin doc /\ d_Holidays doc' = d_Holidays doc /\ d_Version doc' = wrap64 (d_Version doc + 1)) /\
  let t := BuildPricingTable doc' in
  let swap := lookupSwap t (q_Pair raw) tenor in
  ApplyForCustomer tz t worder raw profile tenor now wall usid =
    match first_spread cs usid (q_Pair raw) with
    | Some c =>
        _ ← ActiveWindows tz t worder (if IsZero now then wall else now);
        Some (customer_quote t raw profile tenor
          (mkMargin (BidAmount swap +f cs_Bid c) (AskAmount swap +f cs_Ask c) (SkewAmount swap +f f0) (SpreadAmount swap +f f0)))
    | None => ApplyAt tz t worder raw profile tenor now wall
    end.
Proof.
  intros key doc' HS HQ HD Hdoc (t & Ht & Hu).
  destruct (modifyPricingDoc_spec net mj uj y _ _ s s' r e doc HS HQ HD Hdoc) as (He & Hk & _); [by exists t|].
  change (kv s' !! key = mj doc') in Hk. split; [done|]. split; [by rewrite Hk, Ht|]. split; [done|].
  cbv zeta. unfold ApplyAt, ApplyForCustomer. clearbody key.
  destruct (ActiveWindows _ _ _ _) as [ws|]; cbn [mbind option_bind]; [|by destruct (first_spread _ _ _)].
  unfold doc'. rewrite synced_rule.
  destruct (first_spread cs usid (q_Pair raw)) as [c|]; cbn [fmap option_fmap option_map]; [done|].
  unfold matchCustomerRule. by rewrite decide_True.
Qed.

(** * Concrete runs *)
Definition text_profile (p : UserProfile) : option string := Some (to_text (up_Site p, up_Tier p)).
Definition profile_text (t : string) : option UserProfile := p ← of_text t; Some (mkUserProfile (fst p) (snd p)).
Lemma profile_text_roundtrip p : exists t, text_profile p = Some t /\ profile_text t = Some p.
Proof. eexists. split; [done|]. unfold profile_text. rewrite of_to_text. by destruct p. Qed.
(** Another writer stores a currency before the second call. *)
Definition demo_net (i : nat) : list event * outcome := (if decide (i = 1%nat) then [EventPut "wtg/currency/USD" "{}"] else [], Done).
Definition demo_store : Etcd :=
  mkEtcd (list_to_map [("wtg/auth/user-profiles/ann", "?"); ("wtg/auth/user-profiles/old", "?"); ("wtg/pair/USDKRW", "{}")]) [] 0.
Definition demo_rows : list ProfileRow :=
  [mkProfileRow "ann" "HQ" "STD" true; mkProfileRow "bob" "BRANCH" "VIP" true; mkProfileRow "ann" "HQ" "VIP" true; mkProfileRow "cat" "HQ" "VIP" false].
#[local] Abbreviation demo_end := (SyncUserProfiles demo_net text_profile map_to_list elements NewSyncer demo_rows demo_store).
#[local] Abbreviation demo_watch := (List.filter (fun c => HasPrefix (key_of c) "wtg/auth/user-profiles/") (log demo_end.1.1)).
Lemma user_profiles_follow_witness :
  Resolve_profile (fold_left (resolver_events profile_text) [demo_watch]
    (NewEtcdUserProfileResolver profile_text "" (map_to_list (under "wtg/auth/user-profiles/" (kv demo_store))))) "ann" =
  Some (mkUserProfile "HQ" "VIP").
Proof.
  assert (HS : demo_end = (demo_end.1.1, demo_end.1.2, demo_end.2)) by (vm_compute; reflexivity).
  assert (HQ : quiet demo_net "wtg/auth/user-profiles/" (calls demo_store) (calls demo_end.1.1)).
  { unfold quiet. apply (bool_decide_unpack _). vm_compute. exact I. }
  assert (HB : mjoin [demo_watch] = List.filter (fun c => HasPrefix (key_of c) "wtg/auth/user-profiles/") (drop 0 (log demo_end.1.1))).
  { vm_compute. reflexivity. }
  exact (user_profiles_follow demo_net text_profile profile_text map_to_list elements NewSyncer demo_rows demo_store _ _ _ (kv demo_store) 0
    _ [demo_watch] "" "ann" profile_text_roundtrip (fun _ => Permutation_refl _) (fun _ => Permutation_refl _)
    eq_refl eq_refl (conj (Nat.le_0_l _) eq_refl) (Permutation_refl _) HS HQ (fun _ _ => eq_refl) HB).
Defined.
Definition demo_doc : PricingTableDoc :=
  mkDoc 7 [] [] [mkHQDoc "USD/KRW" "" (mkMargin (f_of_Z 2) (f_of_Z 2) f0 f0) ""] [] [] [].
Definition demo_spreads : list CustomerSpread :=
  [mkSpread "ann" "EUR/KRW" (f_of_Z 3) (f_of_Z 3) true; mkSpread "ann" "USD/KRW" (f_of_Z 1) (f_of_Z 1) true; mkSpread "bob" "" f0 f0 false].
Definition demo_new : PricingTableDoc := bump (set_CustomerMargin demo_doc (customerSpreadsToEntries demo_spreads)).
Definition demo_margins : Etcd := mkEtcd {["wtg/pricing/table" := "old"]} [] 0.
Definition demo_parse (t : string) : option PricingTableDoc := Some (if decide (t = "old") then demo_doc else demo_new).
Definition demo_raw : Quote := mkQuote "USD/KRW" (f_of_Z 1300) (f_of_Z 1301) (mkTime 0 0) f0 f0.
#[local] Abbreviation margins_end := (SyncCustomerMargins demo_net (fun _ => Some "new") demo_parse NewSyncer demo_spreads demo_margins).
Lemma customer_spread_quoted_witness :
  option_map (fun q => (c_Bid q, c_Ask q))
    (ApplyForCustomer (fun _ => None) (BuildPricingTable demo_new) [] demo_raw (mkProfile "WEB" "HQ" "VIP") "SPOT" (mkTime 0 0) (mkTime 0 0) "ann")
  = Some (f_of_Z 1299, f_of_Z 1302).
Proof.
  assert (HS : margins_end = (margins_end.1.1, margins_end.1.2, margins_end.2)) by (vm_compute; reflexivity).
  assert (HQ : Forall (fun c => key_of c <> "wtg/pricing/table") (others demo_net (calls demo_margins) (calls margins_end.1.1))).
  { apply (bool_decide_unpack _). vm_compute. exact I. }
  destruct (customer_spread_quoted demo_net (fun _ => Some "new") demo_parse NewSyncer demo_spreads demo_margins _ _ _ demo_doc
    (fun _ => None) [] demo_raw (mkProfile "WEB" "HQ" "VIP") "SPOT" (mkTime 0 0) (mkTime 0 0) "ann"
    HS HQ (fun _ _ => eq_refl) eq_refl (ex_intro _ "new" (conj eq_refl eq_refl))) as (_ & _ & _ & H).
  cbv zeta in H. unfold demo_new. rewrite H. vm_compute. reflexivity.
Defined.

(** * Defects *)
(** The document is read, changed and put back without a condition: what another writer,
    the dealer's registration for instance, stored in between is gone, and the copy
    reports success. *)
Lemma copy_overwrites_update mj uj y table modify s doc doc2 t body other :
  let key := Prefix y +:+ "pricing/table" in
  let net := fun i => (if decide (i = S (calls s)) then [EventPut key other] else [], Done) in
  doc_of uj (kv s !! key) = Some doc -> modify doc = (doc2, t) -> mj (bump doc2) = Some body ->
  exists s' r, modifyPricingDoc net mj uj y table modify s = (s', r, None) /\ kv s' !! key = Some body.
Proof.
  intros key net Hd Hm Hb. unfold modifyPricingDoc, etcd_Get, etcd_write, meet. fold key. unfold net.
  rewrite (decide_False (P := calls s = S (calls s))) by lia. cbn [fst snd fold_left kv calls]. fold (doc_of uj (kv s !! key)).
  rewrite Hd, Hm. destruct t as [src act]. rewrite Hb. rewrite decide_True by done. cbn [fst snd fold_left]. do 2 eexists. split; [done|].
  rewrite commit_kv. cbn. by rewrite lookup_insert_eq.
Qed.
(** A table whose file is missing is documented to be left alone; it is copied as an
    empty table: every profile in etcd is deleted, and the exit code is 0. *)
Lemma missing_file_erases j o u dir s :
  dir "user_profile.json" = NoFile -> (forall P m, o_want o P m ≡ₚ map_to_list m) -> (forall X, o_stale o X ≡ₚ elements X) ->
  exists s', main (fun _ => ([], Done)) j o NewSyncer (FileBackend u dir) "user_profile" s = (s', 0) /\
  forall usid, kv s' !! ("wtg/auth/user-profiles/" +:+ usid) = None.
Proof.
  intros Hf HW HE. unfold main. change (tables_of "user_profile") with ["user_profile"]. cbn [sync_tables].
  change (sync_table ?n j o ?y ?b "user_profile" s) with (load_then (LoadUserProfiles b) (SyncUserProfiles n (j_profile j) (o_want o _) (o_stale o) y) s).
  cbn [FileBackend LoadUserProfiles]. rewrite Hf. cbn [readJSON load_then].
  destruct (SyncUserProfiles _ _ _ _ _ [] s) as [[s' r] e] eqn:E.
  assert (Q : forall a b, quiet (fun _ => ([], Done)) (Prefix NewSyncer +:+ "auth/user-profiles/") a b).
  { intros a b. unfold quiet, others. induction (seq a (b - a)) as [|x l IH]; [apply Forall_nil_2|exact IH]. }
  pose proof (runSync_mirrored _ _ _ _ _ _ _ _ _ _ _ _ (HW _) HE E (Q _ _)) as M.
  destruct (mi_fine _ _ _ _ _ _ _ _ _ M) as (-> & _ & HM); [done|done|]. exists s'. split; [done|]. intros usid. apply (HM eq_refl usid).
Qed.
