(* ===== verification/Login.v ===== *)
(** Logging in and out (src/internal/api/handlers/login.go, loginchain.go,
    loginvalidate.go, logout.go): the three ways the engine vouches for a user (one
    transaction that returns a cookie, the chain of certificate and session services, a
    service that checks a password), the session that is opened for the user it vouched
    for, and the return of it.

    The broker is a parameter that answers each frame in turn; JSON is a parameter, as for
    the transaction endpoint (Tx).

    The laws follow the definitions. *)

From Stdlib Require Import ZArith Lia Ascii.
From S2P Require Import Prelude Codec Frame Handshake GoStrings Float64 Dates Routing SvcIO Client Tx Auth FxSync.
Local Open Scope Z_scope.

(** * Requests and configuration *)
Record LoginRequest := mkLoginRequest {
  lq_Exchange : string; lq_RoutingKey : string; lq_Alias : string; lq_Channel : string; lq_Site : string; lq_Tier : string;
  lq_Data : list byte; lq_Header : object }.
(** Where a request comes from. *)
Record Peer := mkPeer { XForwardedFor : string; RemoteAddr : string }.
Record LoginChainConfig := mkChain { CertAlias : string; SessionAlias : string; LogoutAlias : string; SkipCert : bool }.
Definition or_default (s d : string) : string := if bool_decide (s = "") then d else s.
Definition certAlias (c : LoginChainConfig) : string := or_default (CertAlias c) "W1101S02".
Definition sessionAlias (c : LoginChainConfig) : string := or_default (SessionAlias c) "W1130A02".
Definition logoutAlias (c : LoginChainConfig) : string := or_default (LogoutAlias c) "W1130A03".
Record LoginValidateConfig := mkValidate { SuccessField : string; SuccessValue : string; UsidField : string }.
Definition successField (c : LoginValidateConfig) : string := or_default (SuccessField c) "loginYN".
Definition successValue (c : LoginValidateConfig) : string := or_default (SuccessValue c) "1".
Definition usidField (c : LoginValidateConfig) : string := or_default (UsidField c) "user_id".
(** The data of a request in chain mode. *)
Record chainLoginData := mkChainData { cl_SignMsg : string; cl_LgnId : string; cl_CifNo : string }.
Record chainResult := mkChainResult {
  ch_LgnID : string; ch_CifNo : string; ch_SvrCert : string; ch_LgnIdntCon : string; ch_FwdPreChkPopYn : string;
  ch_ApllBsopYmd : string; ch_WlbrYmd : string; ch_NxtBsopYmd : string; ch_LgnTs : string }.
(** A reply with its cookie. *)
Record LoginReply := mkLoginReply { lp_reply : BrokerReply; lp_Cookie : option Codec.Cookie }.

(** * Where the client is *)
Fixpoint LastIndexByte (s : string) (c : ascii) : option nat :=
  match s with
  | "" => None
  | String a s => match LastIndexByte s c with Some i => Some (S i) | None => if Ascii.eqb a c then Some 0%nat else None end
  end.
(** [net.SplitHostPort], its first result. *)
Definition SplitHost (hp : string) : option string :=
  match LastIndexByte hp ":" with
  | None => None
  | Some i =>
      match hp with
      | String "["%char rest =>
          match IndexByte hp "]" with
          | None => None
          | Some end_ =>
              if (S end_ =? i)%nat && negb (Contains rest "[") && negb (Contains (str_drop (S end_) hp) "]")
              then Some (str_drop 1 (str_take end_ hp)) else None
          end
      | _ => let host := str_take i hp in
             if Contains host ":" || Contains hp "[" || Contains hp "]" then None else Some host
      end
  end.
Definition clientIPOf (p : Peer) : string :=
  let xff := XForwardedFor p in
  if negb (bool_decide (xff = "")) then
    match IndexByte xff "," with Some (S i) => GoStrings.TrimSpace (str_take (S i) xff) | _ => GoStrings.TrimSpace xff end
  else default (RemoteAddr p) (SplitHost (RemoteAddr p)).

Definition strField (m : object) (key : string) : string := match obj_get m key with Some (VStr s) => GoStrings.TrimSpace s | _ => "" end.
Fixpoint until_nul (b : list byte) : list byte := match b with [] => [] | c :: b => if Byte.eqb c x00 then [] else c :: until_nul b end.
Definition cookieUsid (c : Codec.Cookie) : string := String.string_of_list_byte (until_nul (ck_usid c)).

Section login.
Context {R : Type} `{Registry R} `{Codecs} `{JWT.Crypto}.
Context (json_chain : list byte -> option chainLoginData).
Context {B : Type} (call : B -> FrameInput -> B * res broker_err LoginReply).

(** [ld_auth]: the part of the dependencies [finishLogin] uses. *)
Record LoginDeps := mkLoginDeps {
  ld_hasSessions : bool; ld_DefaultChannel : string; ld_chain : option LoginChainConfig; ld_validate : option LoginValidateConfig;
  ld_routes : option R; ld_specs : option (gmap string SvcSpec); ld_profiles : option (gmap string UserProfile); ld_auth : Auth.Deps }.

(** * One step of the chain *)
Inductive StepErr := StepRefused (errn : Z) (rcod errm : string) | StepBroker (e : broker_err) | StepOther.
Definition resolveChainRoute (routes : option R) (alias : string) : res unit (string * string) :=
  match Resolve routes alias with
  | Ok rule => Ok (Routing.Exchange rule, Routing.RoutingKey rule)
  | Err _ => Ok ("dom", alias)
  | Panic => Panic
  end.
Definition tran_frame (xchg rkey : string) (cookie : option Codec.Cookie) (body : list byte) : FrameInput :=
  mkFrameInput FCTran SubTranMsg DirForward KeySend 0 0 (bytes xchg) (bytes rkey) 0 0 (replicate 8 x00) (replicate 4 x00)
    (replicate 16 x00) [] 0 [] [] [] cookie body.
(** The message of a step; an empty one is taken for a missing layout. *)
Definition step_message (d : LoginDeps) (alias usid channel : string) (hdr input : object) : option (FrameInput * SvcSpec) :=
  data ← json_marshal input;
  '(body, spec) ← wireBuildBody (ld_specs d) alias usid channel hdr data;
  if bool_decide (body = []) then None
  else match resolveChainRoute (ld_routes d) alias with Ok (x, k) => Some (tran_frame x k None body, spec) | _ => None end.
(** What the engine answered: the output, if it accepted. *)
Definition step_answer (spec : SvcSpec) (answer : res broker_err LoginReply) : res StepErr object :=
  match answer with
  | Err e => Err (StepBroker e)
  | Panic => Panic
  | Ok r =>
      match AsError (lp_reply r) with
      | Some _ => Err (StepRefused (br_Errn (lp_reply r)) "" (br_ErrMsg (lp_reply r)))
      | None =>
          match wireParseReply spec (br_Body (lp_reply r)) with
          | Ok (hdr, out) =>
              let hdr := default [] hdr in
              let eflg := strField hdr "eflg" in
              if negb (bool_decide (eflg = "")) && negb (bool_decide (eflg = "0"))
              then Err (StepRefused 0 (strField hdr "rcod") (strField hdr "mesg")) else Ok out
          | Err _ => Err StepOther
          | Panic => Panic
          end
      end
  end.
Definition callChainStep (d : LoginDeps) (b : B) (alias usid channel : string) (hdr input : object) : B * res StepErr object :=
  match step_message d alias usid channel hdr input with
  | None => (b, Err StepOther)
  | Some (f, spec) => let '(b, a) := call b f in (b, step_answer spec a)
  end.

(** * The chain *)
Definition cert_header (ip : string) : object := [("loip", VStr ip)].
Definition cert_input (signMsg : string) : object := [("prGb", VStr "1"); ("signMsg", VStr signMsg)].
Definition session_header (ip : string) : object := [("loip", VStr ip); ("maca", VStr "WEB")].
Definition session_input (lgnId : string) : object :=
  [("prGb", VStr "1"); ("fxUserNo", VStr lgnId); ("fxUserNm", VStr lgnId); ("lgnId", VStr lgnId)].
Definition open_session (d : LoginDeps) (cfg : LoginChainConfig) (b : B) (ip channel lgnId cifNo svrCert : string) : B * res StepErr chainResult :=
  match callChainStep d b (sessionAlias cfg) lgnId channel (session_header ip) (session_input lgnId) with
  | (b, Ok out) =>
      let con := strField out "lgnIdntCon" in
      if bool_decide (con = "") then (b, Err StepOther)
      else (b, Ok (mkChainResult lgnId cifNo svrCert con (strField out "fwdPreChkPopYn") (strField out "apllBsopYmd")
                     (strField out "wlbrYmd") (strField out "nxtBsopYmd") (strField out "lgnTs")))
  | (b, Err e) => (b, Err e)
  | (b, Panic) => (b, Panic)
  end.
Definition runLoginChain (d : LoginDeps) (cfg : LoginChainConfig) (b : B) (i : chainLoginData) (ip channel : string) : B * res StepErr chainResult :=
  if SkipCert cfg then open_session d cfg b ip channel (cl_LgnId i) (cl_CifNo i) ""
  else
    match callChainStep d b (certAlias cfg) "" channel (cert_header ip) (cert_input (cl_SignMsg i)) with
    | (b, Ok out) =>
        let lgnId := strField out "lgnId" in
        if bool_decide (lgnId = "") then (b, Err StepOther)
        else open_session d cfg b ip channel lgnId (strField out "cifNo") (strField out "svrCert")
    | (b, Err e) => (b, Err e)
    | (b, Panic) => (b, Panic)
    end.

(** * Opening the session *)
(** The new session's reference and the random identifiers. *)
Record Fresh := mkFresh { fr_ref : nat; fr_sid : string; fr_jti : string; fr_rt : string }.
Inductive LoginResp :=
| LError (status : Z) (code : string)
| LRefused (status errn : Z) (rcod errm : string)
| LOk (r : LoginResult) (data : list byte)
| LPanic.
Definition profile_for (d : LoginDeps) (usid : string) : UserProfile :=
  default (mkUserProfile "" "") (m ← ld_profiles d; m !! usid).
Definition finish (d : LoginDeps) (w : Auth.world) (now : Time) (channel usid : string) (cookie : option Codec.Cookie) (con cifNo : string)
    (data : list byte) (fr : Fresh) : Auth.world * LoginResp :=
  let up := profile_for d usid in
  match finishLogin (ld_auth d) w now channel usid ((fun c => EncodeCookie (replicate CookieWire x00) c) <$> cookie) con cifNo
          (up_Site up) (up_Tier up) (fr_ref fr) (fr_sid fr) (fr_jti fr) (fr_rt fr) with
  | (w, inl r) => (w, LOk r data)
  | (w, inr ERefreshStore) => (w, LError 500 "refresh_store")
  | (w, inr _) => (w, LError 500 "jwt_sign")
  end.
Definition step_failed (e : StepErr) : LoginResp :=
  match e with
  | StepRefused n rcod errm => LRefused 401 n rcod errm
  | StepBroker e => LError (mapBrokerError e).1 (mapBrokerError e).2
  | StepOther => LError 500 "internal"
  end.

Definition chain_data (r : chainResult) : list byte :=
  default [] (json_marshal [("lgnId", VStr (ch_LgnID r)); ("svrCert", VStr (ch_SvrCert r)); ("fwdPreChkPopYn", VStr (ch_FwdPreChkPopYn r));
    ("apllBsopYmd", VStr (ch_ApllBsopYmd r)); ("wlbrYmd", VStr (ch_WlbrYmd r)); ("nxtBsopYmd", VStr (ch_NxtBsopYmd r)); ("lgnTs", VStr (ch_LgnTs r))]).
Definition loginViaChain (d : LoginDeps) (cfg : LoginChainConfig) (b : B) (w : Auth.world) (now : Time) (peer : Peer) (req : LoginRequest)
    (channel : string) (fr : Fresh) : B * Auth.world * LoginResp :=
  match (if bool_decide (lq_Data req = []) then Some (mkChainData "" "" "") else json_chain (lq_Data req)) with
  | None => (b, w, LError 400 "bad_json")
  | Some i =>
      if SkipCert cfg && bool_decide (cl_LgnId i = "") then (b, w, LError 400 "missing_lgn_id")
      else if negb (SkipCert cfg) && bool_decide (cl_SignMsg i = "") then (b, w, LError 400 "missing_sign_msg")
      else
        match runLoginChain d cfg b i (clientIPOf peer) channel with
        | (b, Ok r) => let '(w, resp) := finish d w now channel (ch_LgnID r) None (ch_LgnIdntCon r) (ch_CifNo r) (chain_data r) fr in (b, w, resp)
        | (b, Err e) => (b, w, step_failed e)
        | (b, Panic) => (b, w, LPanic)
        end
  end.

Definition validate_usid (cfg : LoginValidateConfig) (req : LoginRequest) (input : object) : string :=
  let u := strField input (usidField cfg) in
  if bool_decide (u = "") then match obj_get (lq_Header req) "usid" with Some (VStr v) => GoStrings.TrimSpace v | _ => "" end else u.
Definition loginViaValidate (d : LoginDeps) (cfg : LoginValidateConfig) (b : B) (w : Auth.world) (now : Time) (req : LoginRequest)
    (channel : string) (fr : Fresh) : B * Auth.world * LoginResp :=
  match (if bool_decide (lq_Data req = []) then Some [] else json_object (lq_Data req)) with
  | None => (b, w, LError 400 "bad_json")
  | Some input =>
      let usid := validate_usid cfg req input in
      if bool_decide (usid = "") then (b, w, LError 400 "no_usid")
      else
        match callChainStep d b (lq_Alias req) usid channel (lq_Header req) input with
        | (b, Ok out) =>
            if bool_decide (strField out (successField cfg) = successValue cfg)
            then let '(w, resp) := finish d w now channel usid None "" "" (default [] (json_marshal out)) fr in (b, w, resp)
            else (b, w, LRefused 401 0 "" (strField out "msg"))
        | (b, Err e) => (b, w, step_failed e)
        | (b, Panic) => (b, w, LPanic)
        end
  end.

(** * The handler *)
Definition login_channel (d : LoginDeps) (req : LoginRequest) : string := or_default (or_default (lq_Channel req) (ld_DefaultChannel d)) "WEB".
Definition loginBody (d : LoginDeps) (rkey channel : string) (req : LoginRequest) : list byte :=
  match wireBuildBody (ld_specs d) rkey "" channel (lq_Header req) (lq_Data req) with
  | Some (body, _) => if bool_decide (body = []) then DataBytes (lq_Data req) else body
  | None => DataBytes (lq_Data req)
  end.
Definition logon_frame (d : LoginDeps) (req : LoginRequest) : FrameInput :=
  let rkey := or_default (lq_RoutingKey req) "LOGON" in
  tran_frame (or_default (lq_Exchange req) "ADMIN") rkey None (loginBody d rkey (login_channel d req) req).
Definition logon_data (body : list byte) : list byte :=
  if bool_decide (body = []) then [] else if json_Valid body then body else json_string body.
Definition loginViaLogon (d : LoginDeps) (b : B) (w : Auth.world) (now : Time) (req : LoginRequest) (fr : Fresh) : B * Auth.world * LoginResp :=
  let '(b, a) := call b (logon_frame d req) in
  match a with
  | Panic => (b, w, LPanic)
  | Err e => (b, w, LError (mapBrokerError e).1 (mapBrokerError e).2)
  | Ok r =>
      match AsError (lp_reply r) with
      | Some e => (b, w, LRefused (mapBrokerError e).1 (br_Errn (lp_reply r)) "" (br_ErrMsg (lp_reply r)))
      | None =>
          match lp_Cookie r with
          | None => (b, w, LError 502 "no_cookie")
          | Some c =>
              let '(w, resp) := finish d w now (login_channel d req) (cookieUsid c) (Some c) "" "" (logon_data (br_Body (lp_reply r))) fr in (b, w, resp)
          end
      end
  end.
Definition Login (d : LoginDeps) (b : B) (w : Auth.world) (now : Time) (peer : Peer) (req : option LoginRequest) (fr : Fresh)
    : B * Auth.world * LoginResp :=
  if negb (ld_hasSessions d) then (b, w, LError 503 "no_session_store")
  else match req with
       | None => (b, w, LError 400 "bad_json")
       | Some req =>
           let channel := login_channel d req in
           match (if bool_decide (lq_Alias req = "") then None else ld_validate d) with
           | Some cfg => loginViaValidate d cfg b w now req channel fr
           | None =>
               match ld_chain d with
               | Some cfg => loginViaChain d cfg b w now peer req channel fr
               | None => loginViaLogon d b w now req fr
               end
           end
       end.

(** * Logging out *)
Record LogoutRequest := mkLogout { lo_Exchange : string; lo_RoutingKey : string; lo_Data : list byte }.
Inductive LogoutResp := OError (status : Z) (code : string) | ODone (errn : Z) (errm : string).
Definition return_input (s : Session) : object :=
  [("prGb", VStr "1"); ("fxUserNo", VStr (Usid s)); ("lgnIdntCon", VStr (LgnIdntCon s))].
(** The session's number goes back to the engine; whatever the engine says, the caller
    goes on. [None]: the handler panicked. *)
Definition return_session (d : LoginDeps) (b : B) (w : Auth.world) (now : Time) (peer : Peer) (sid : string) : B * Auth.world * option (Z * string) :=
  match ld_chain d with
  | None => (b, w, Some (0, ""))
  | Some cfg =>
      let '(st, g) := Auth.Get (w_sessions w) now sid in
      let w := Auth.mkWorld st (w_refresh w) in
      match g with
      | Ok r =>
          let s := objs st r in
          if bool_decide (LgnIdntCon s = "") then (b, w, Some (0, ""))
          else match callChainStep d b (logoutAlias cfg) (Usid s) (Channel s) [("loip", VStr (clientIPOf peer))] (return_input s) with
               | (b, Err (StepRefused n _ m)) => (b, w, Some (n, m))
               | (b, Panic) => (b, w, None)
               | (b, _) => (b, w, Some (0, ""))
               end
      | _ => (b, w, Some (0, ""))
      end
  end.
Definition logoff_frame (req : LogoutRequest) (cookie : list byte) : FrameInput :=
  tran_frame (or_default (lo_Exchange req) "ADMIN") (or_default (lo_RoutingKey req) "LOGOFF") (Some (DecodeCookie cookie)) (lo_Data req).
Definition logoff (b : B) (p : Principal) (req : LogoutRequest) (err : Z * string) : B * option (Z * string) :=
  match pr_Cookie p with
  | None => (b, Some err)
  | Some c =>
      match call b (logoff_frame req c) with
      | (b, Ok r) => (b, Some (match AsError (lp_reply r) with Some _ => (br_Errn (lp_reply r), br_ErrMsg (lp_reply r)) | None => err end))
      | (b, Err _) => (b, Some err)
      | (b, Panic) => (b, None)
      end
  end.
(** [principal]: what the authentication middleware found; [req]: the body, decoded. *)
Definition Logout (d : LoginDeps) (b : B) (w : Auth.world) (now : Time) (peer : Peer) (principal : option Principal) (req : option LogoutRequest)
    : B * Auth.world * LogoutResp :=
  if negb (ld_hasSessions d) then (b, w, OError 503 "no_session_store")
  else
    match principal with
    | None => (b, w, OError 401 "unauthorized")
    | Some p =>
        if bool_decide (Auth.pr_Usid p = "") then (b, w, OError 401 "unauthorized")
        else if bool_decide (SessionID p = "") then (b, w, OError 400 "no_session")
        else match req with
             | None => (b, w, OError 400 "bad_json")
             | Some req =>
                 match return_session d b w now peer (SessionID p) with
                 | (b, w, None) => (b, w, OError 500 "panic")
                 | (b, w, Some err) =>
                     match logoff b p req err with
                     | (b, None) => (b, w, OError 500 "panic")
                     | (b, Some err) => (b, logout_stores w (SessionID p), ODone err.1 (if err.1 =? 0 then "" else err.2))
                     end
                 end
             end
    end.
End login.

(** * Laws *)
Section laws.
Context {R : Type} `{Registry R} `{Codecs} `{JWT.Crypto}.
Context (json_chain : list byte -> option chainLoginData).
Context {B : Type} (call : B -> FrameInput -> B * res broker_err LoginReply).
Implicit Types (d : @LoginDeps R _) (b : B) (w : Auth.world).

(** The engine takes a message of service [alias] and answers it without refusing. *)
Definition accepted d b (alias usid channel : string) (hdr input out : object) b' : Prop :=
  exists f spec r h, step_message d alias usid channel hdr input = Some (f, spec) /\ call b f = (b', Ok r) /\ AsError (lp_reply r) = None /\
    wireParseReply spec (br_Body (lp_reply r)) = Ok (h, out) /\ (strField (default [] h) "eflg" = "" \/ strField (default [] h) "eflg" = "0").
Lemma callChainStep_accepted d b alias usid channel hdr input out b' :
  callChainStep call d b alias usid channel hdr input = (b', Ok out) <-> accepted d b alias usid channel hdr input out b'.
Proof.
  unfold callChainStep, accepted. split.
  - destruct (step_message _ _ _ _ _ _) as [[f spec]|] eqn:Em; [|done]. destruct (call b f) as [b1 a] eqn:Ec. unfold step_answer.
    destruct a as [r|e|]; [|done..]. destruct (AsError (lp_reply r)) eqn:Ea; [done|].
    destruct (wireParseReply spec _) as [[h o]|e|] eqn:Ep; [|done..]. intros Hr. exists f, spec, r, h.
    repeat case_bool_decide; cbn in Hr; injection Hr as <- ?; subst; eauto 10; done.
  - intros (f & spec & r & h & -> & -> & Ha & Hp & He). unfold step_answer. rewrite Ha, Hp.
    destruct He as [-> | ->]; done.
Qed.

(** How the engine vouches for a user, and the number it gives the session. *)
Inductive vouched d b (peer : Peer) (req : LoginRequest) : string -> string -> Prop :=
| by_cookie b1 r c :
    ld_chain d = None -> call b (logon_frame d req) = (b1, Ok r) -> AsError (lp_reply r) = None -> lp_Cookie r = Some c ->
    vouched d b peer req (cookieUsid c) ""
| by_certificate cfg i b1 b2 out1 out3 :
    ld_chain d = Some cfg -> SkipCert cfg = false -> json_chain (lq_Data req) = Some i -> cl_SignMsg i <> "" ->
    accepted d b (certAlias cfg) "" (login_channel d req) (cert_header (clientIPOf peer)) (cert_input (cl_SignMsg i)) out1 b1 ->
    strField out1 "lgnId" <> "" ->
    accepted d b1 (sessionAlias cfg) (strField out1 "lgnId") (login_channel d req) (session_header (clientIPOf peer))
      (session_input (strField out1 "lgnId")) out3 b2 ->
    strField out3 "lgnIdntCon" <> "" ->
    vouched d b peer req (strField out1 "lgnId") (strField out3 "lgnIdntCon")
| by_identity cfg i b2 out3 :
    ld_chain d = Some cfg -> SkipCert cfg = true -> json_chain (lq_Data req) = Some i -> cl_LgnId i <> "" ->
    accepted d b (sessionAlias cfg) (cl_LgnId i) (login_channel d req) (session_header (clientIPOf peer)) (session_input (cl_LgnId i)) out3 b2 ->
    strField out3 "lgnIdntCon" <> "" ->
    vouched d b peer req (cl_LgnId i) (strField out3 "lgnIdntCon")
| by_password cfg b1 input out :
    lq_Alias req <> "" -> ld_validate d = Some cfg -> validate_usid cfg req input <> "" ->
    accepted d b (lq_Alias req) (validate_usid cfg req input) (login_channel d req) (lq_Header req) input out b1 ->
    strField out (successField cfg) = successValue cfg ->
    vouched d b peer req (validate_usid cfg req input) "".

(** A session for [usid] was opened: its object is the new one, the others are as they were. *)
Record opened d w w' (channel usid con : string) (fr : Fresh) : Prop := mkOpened {
  op_sessions : sessions (w_sessions w') = <[fr_sid fr := fr_ref fr]> (sessions (w_sessions w));
  op_others r : r <> fr_ref fr -> objs (w_sessions w') r = objs (w_sessions w) r;
  op_usid : Usid (objs (w_sessions w') (fr_ref fr)) = usid;
  op_con : LgnIdntCon (objs (w_sessions w') (fr_ref fr)) = con;
  op_profile : s_Profile (objs (w_sessions w') (fr_ref fr)) =
    Auth.mkProfile channel (up_Site (profile_for d usid)) (up_Tier (profile_for d usid)) }.
Lemma finish_opened d w now channel usid cookie con cifNo data fr w' resp :
  finish d w now channel usid cookie con cifNo data fr = (w', resp) -> opened d w w' channel usid con fr.
Proof.
  unfold finish, finishLogin. cbv zeta.
  set (w1 := Auth.mkWorld (Auth.Put _ _ _) _).
  assert (O : forall rs, opened d w (Auth.mkWorld (w_sessions w1) rs) channel usid con fr).
  { intros rs. unfold w1, Auth.Put. cbn. unfold upd. rewrite !decide_True by done. cbn. split; cbn; rewrite ?decide_True by done; try done.
    intros r Hr. by rewrite !decide_False. }
  destruct (JWT.Sign _ _ _ _); [|intros [= <- _]; apply O..].
  destruct (Refresh.Put _ _ _); intros [= <- _]; apply O.
Qed.

Lemma open_session_ok d cfg b ip channel lgnId cifNo svrCert b' r :
  open_session call d cfg b ip channel lgnId cifNo svrCert = (b', Ok r) ->
  exists out, accepted d b (sessionAlias cfg) lgnId channel (session_header ip) (session_input lgnId) out b' /\
    ch_LgnID r = lgnId /\ ch_LgnIdntCon r = strField out "lgnIdntCon" /\ strField out "lgnIdntCon" <> "".
Proof.
  unfold open_session. destruct (callChainStep _ _ _ _ _ _ _ _) as [b1 [out|e|]] eqn:E; [|done..].
  case_bool_decide; intros [= <- <-]. exists out. split; [by apply callChainStep_accepted|]. done.
Qed.
(** A login changes nothing, or opens one session, for a user the engine vouched for. *)
Lemma login_vouched d b w now peer req fr b' w' resp :
  Login json_chain call d b w now peer (Some req) fr = (b', w', resp) ->
  (w' = w /\ forall r data, resp <> LOk r data) \/
  exists usid con, vouched d b peer req usid con /\ opened d w w' (login_channel d req) usid con fr.
Proof.
  unfold Login. destruct (ld_hasSessions d); cbn [negb]; [|by intros [= <- <- <-]; left].
  destruct (if bool_decide (lq_Alias req = "") then None else ld_validate d) as [cfg|] eqn:Ev.
  - assert (HA : lq_Alias req <> "" /\ ld_validate d = Some cfg) by by case_bool_decide.
    unfold loginViaValidate. destruct (if bool_decide (lq_Data req = []) then Some [] else json_object (lq_Data req)) as [input|]; [|by intros [= <- <- <-]; left].
    destruct (bool_decide_reflect (validate_usid cfg req input = "")) as [Eu|Eu]; [by intros [= <- <- <-]; left|].
    destruct (callChainStep _ _ _ _ _ _ _ _) as [b1 [out|e|]] eqn:E; [|intros [= <- <- <-]; left; by destruct e|by intros [= <- <- <-]; left].
    destruct (bool_decide_reflect (strField out (successField cfg) = successValue cfg)) as [Es|Es]; [|by intros [= <- <- <-]; left].
    destruct (finish _ _ _ _ _ _ _ _ _ _) as [w1 r1] eqn:Ef. intros [= <- <- <-]. right. apply finish_opened in Ef.
    do 2 eexists. split; [|exact Ef]. eapply by_password; [apply HA|apply HA|done|by apply callChainStep_accepted|done].
  - destruct (ld_chain d) as [cfg|] eqn:Ec.
    + unfold loginViaChain. destruct (if bool_decide (lq_Data req = []) then _ else json_chain (lq_Data req)) as [i|] eqn:Ei; [|by intros [= <- <- <-]; left].
      destruct (SkipCert cfg && _) eqn:E1; [by intros [= <- <- <-]; left|].
      destruct (negb (SkipCert cfg) && _) eqn:E2; [by intros [= <- <- <-]; left|].
      destruct (runLoginChain _ _ _ _ _ _ _) as [b1 [r|e|]] eqn:E; [|intros [= <- <- <-]; left; by destruct e|by intros [= <- <- <-]; left].
      destruct (finish _ _ _ _ _ _ _ _ _ _) as [w1 r1] eqn:Ef. intros [= <- <- <-]. right. apply finish_opened in Ef.
      exists (ch_LgnID r), (ch_LgnIdntCon r). split; [|exact Ef]. clear Ef. unfold runLoginChain in E.
      assert (Hi : json_chain (lq_Data req) = Some i).
      { destruct (bool_decide (lq_Data req = [])); [|done]. injection Ei as <-. cbn in E1, E2. destruct (SkipCert cfg); done. }
      destruct (SkipCert cfg) eqn:Es; cbn in E1, E2.
      * apply bool_decide_eq_false in E1. apply open_session_ok in E as (out & Ha & -> & -> & Hc). by eapply by_identity.
      * apply bool_decide_eq_false in E2. destruct (callChainStep _ _ _ _ _ _ _ _) as [b2 [out1|e|]] eqn:E3; [|done..].
        case_bool_decide as El; [done|]. apply open_session_ok in E as (out & Ha & -> & -> & Hc).
        eapply by_certificate; [done..| |done|done|done]. by apply callChainStep_accepted.
    + unfold loginViaLogon. destruct (call b _) as [b1 [r|e|]] eqn:E; [|by intros [= <- <- <-]; left..].
      destruct (AsError _) eqn:Ea; [by intros [= <- <- <-]; left|]. destruct (lp_Cookie r) as [c|] eqn:Eo; [|by intros [= <- <- <-]; left].
      destruct (finish _ _ _ _ _ _ _ _ _ _) as [w1 r1] eqn:Ef. intros [= <- <- <-]. right. apply finish_opened in Ef.
      do 2 eexists. split; [|exact Ef]. by eapply by_cookie.
Qed.

(** * A login server *)
(** Logins, refreshes, logouts, uses of a session and sweeps, in any order. *)
Inductive auth_ev :=
| ELogin (now : Time) (peer : Peer) (req : option LoginRequest) (fr : Fresh)
| ERefresh (now : Time) (token jti rt : string)
| ELogout (now : Time) (peer : Peer) (p : option Principal) (req : option LogoutRequest)
| EUse (now : Time) (sid : string)
| ESweep (now : Time).
Definition auth_step d (s : B * Auth.world) (e : auth_ev) : B * Auth.world :=
  match e with
  | ELogin now peer req fr => (Login json_chain call d s.1 s.2 now peer req fr).1
  | ERefresh now token jti rt => (s.1, (RefreshHandler (ld_auth d) s.2 now token jti rt).1)
  | ELogout now peer p req => (Logout call d s.1 s.2 now peer p req).1
  | EUse now sid => (s.1, Auth.mkWorld (Auth.Get (w_sessions s.2) now sid).1 (w_refresh s.2))
  | ESweep now => (s.1, Auth.mkWorld (Auth.sweepOnce (w_sessions s.2) now) (w_refresh s.2))
  end.
Definition no_sessions : Auth.world := Auth.mkWorld (mkStore ∅ (fun _ => mkSession "" "" "" None (mkTime 0 0) (mkTime 0 0) (mkTime 0 0) "" "" (Auth.mkProfile "" "" "") "" ∅)) ∅.

(** No session appears and none changes its user. *)
Definition shrinks (st st' : MemoryStore) : Prop := sessions st' ⊆ sessions st /\ forall r, Usid (objs st' r) = Usid (objs st r).
Lemma shrinks_refl st : shrinks st st.
Proof. by split. Qed.
Lemma shrinks_trans st1 st2 st3 : shrinks st1 st2 -> shrinks st2 st3 -> shrinks st1 st3.
Proof. intros [A1 B1] [A2 B2]. split; [by etrans|]. intros r. by rewrite B2. Qed.
Lemma Get_shrinks st now id : shrinks st (Auth.Get st now id).1.
Proof.
  unfold Auth.Get, get_finish. destruct (get_read st id) as [r|]; [|apply shrinks_refl]. destruct (Expired _ now); cbn.
  - destruct (sessions st !! id) as [cur|]; [|apply shrinks_refl]. case_decide; [|apply shrinks_refl]. split; [apply delete_subseteq|done].
  - destruct (sessions st !! id) as [cur|]; [|apply shrinks_refl]. split; [done|]. intros x. cbn. unfold upd. by case_decide; subst.
Qed.
Lemma Delete_shrinks st id : shrinks st (Auth.Delete st id).
Proof. split; [apply delete_subseteq|done]. Qed.
Lemma sweep_shrinks st now : shrinks st (Auth.sweepOnce st now).
Proof. split; [apply map_filter_subseteq|done]. Qed.
Lemma Refresh_shrinks da w now token jti rt : shrinks (w_sessions w) (w_sessions (RefreshHandler da w now token jti rt).1).
Proof.
  unfold RefreshHandler. destruct (Refresh.Consume _ _ _) as [rs [old|e|]]; [|apply shrinks_refl..].
  cbn [w_sessions]. pose proof (Get_shrinks (w_sessions w) now (Refresh.SID old)) as G.
  destruct (Auth.Get _ _ _) as [st [r|e|]]; cbn [fst] in G; [|exact G..]. destruct (JWT.Sign _ _ _ _); [|exact G..].
  destruct (Refresh.Put _ _ _); exact G.
Qed.
Lemma Logout_shrinks d b w now peer p req : shrinks (w_sessions w) (w_sessions (Logout call d b w now peer p req).1.2).
Proof.
  unfold Logout. destruct (ld_hasSessions d); [|apply shrinks_refl]. destruct p as [p|]; [|apply shrinks_refl]. cbn [negb].
  destruct (bool_decide (Auth.pr_Usid p = "")); [apply shrinks_refl|].
  destruct (bool_decide (SessionID p = "")); [apply shrinks_refl|]. destruct req as [req|]; [|apply shrinks_refl].
  assert (S : shrinks (w_sessions w) (w_sessions (return_session call d b w now peer (SessionID p)).1.2)).
  { unfold return_session. destruct (ld_chain d) as [cfg|]; [|apply shrinks_refl].
    pose proof (Get_shrinks (w_sessions w) now (SessionID p)) as G. destruct (Auth.Get _ _ _) as [st [r|e|]]; cbn [fst] in G; [|exact G..].
    destruct (bool_decide _); [exact G|]. destruct (callChainStep _ _ _ _ _ _ _ _) as [b1 [o|[]|]]; exact G. }
  destruct (return_session _ _ _ _ _ _ _) as [[b1 w1] [err|]]; cbn [fst snd] in S; [|exact S].
  destruct (logoff _ _ _ _ _) as [b2 [err2|]]; [|exact S]. eapply shrinks_trans; [exact S|apply Delete_shrinks].
Qed.
Lemma shrinks_keeps (OK : string -> Prop) st st' :
  shrinks st st' -> (forall sid r, sessions st !! sid = Some r -> OK (Usid (objs st r))) ->
  forall sid r, sessions st' !! sid = Some r -> OK (Usid (objs st' r)).
Proof. intros [S U] HI sid r Hr. rewrite U. apply (HI sid). by eapply lookup_weaken. Qed.
(** Every session belongs to a user a login of the run was vouched for. *)
Lemma step_keeps (OK : string -> Prop) d s e :
  (forall now peer req fr b usid con, e = ELogin now peer (Some req) fr -> vouched d b peer req usid con -> OK usid) ->
  (forall sid r, sessions (w_sessions s.2) !! sid = Some r -> OK (Usid (objs (w_sessions s.2) r))) ->
  forall sid r, sessions (w_sessions (auth_step d s e).2) !! sid = Some r -> OK (Usid (objs (w_sessions (auth_step d s e).2) r)).
Proof.
  intros HV HI. destruct e as [now peer req fr|now token jti rt|now peer p req|now id|now]; cbn [auth_step snd w_sessions].
  2: exact (shrinks_keeps OK _ _ (Refresh_shrinks _ _ _ _ _ _) HI).
  2: exact (shrinks_keeps OK _ _ (Logout_shrinks _ _ _ _ _ _ _) HI).
  2: exact (shrinks_keeps OK _ _ (Get_shrinks _ _ _) HI).
  2: exact (shrinks_keeps OK _ _ (sweep_shrinks _ _) HI).
  destruct req as [req|]; [|unfold Login; destruct (ld_hasSessions d); exact HI].
  destruct (Login _ _ _ _ _ _ _ _ _) as [[b' w'] resp] eqn:E. cbn [fst snd].
  apply login_vouched in E as [[-> _]|(usid & con & V & [O1 O2 O3 _ _])]; [exact HI|].
  intros sid r Hr. destruct (decide (r = fr_ref fr)) as [->|Hn]; [rewrite O3; by eapply HV|].
  rewrite O2 by done. apply (HI sid). rewrite O1 in Hr. apply lookup_insert_Some in Hr as [[_ <-]|[_ Hr]]; done.
Qed.
Lemma run_keeps (OK : string -> Prop) d evs b :
  (forall now peer req fr b usid con, ELogin now peer (Some req) fr ∈ evs -> vouched d b peer req usid con -> OK usid) ->
  let w := (fold_left (auth_step d) evs (b, no_sessions)).2 in
  forall sid r, sessions (w_sessions w) !! sid = Some r -> OK (Usid (objs (w_sessions w) r)).
Proof.
  induction evs as [|e evs IH] using rev_ind; intros HV; cbv zeta.
  { intros sid r. cbn. by rewrite lookup_empty. }
  rewrite fold_left_app. cbn [fold_left]. apply step_keeps.
  - intros now peer req fr b1 usid con ->. apply (HV now peer req fr). apply elem_of_app. right. by left.
  - apply IH. intros. eapply HV; [|done]. apply elem_of_app. by left.
Qed.
(** The middleware finds the user of a stored session. *)
Lemma lookup_session_user st now sid p :
  (lookup_session st now sid).2 = Ok p -> exists r, sessions st !! sid = Some r /\ Auth.pr_Usid p = Usid (objs st r).
Proof.
  unfold lookup_session. pose proof (Get_shrinks st now sid) as [_ U]. unfold Auth.Get, get_finish, get_read in *.
  destruct (sessions st !! sid) as [r|]; [|done]. destruct (Expired _ now); [done|]. cbn in *. intros [= <-]. exists r. split; [done|].
  unfold principalFromSession. cbn. apply U.
Qed.
End laws.


(** * A concrete server *)
Definition text_fields (m : object) : list (string * string) := map (fun kv => (kv.1, match kv.2 with VStr s => s | _ => "" end)) m.
Definition fields_text (m : list (string * string)) : object := map (fun kv => (kv.1, VStr kv.2)) m.
Definition toy_marshal (m : object) : option (list byte) := Some (bytes (to_text (text_fields m))).
Definition toy_object (b : list byte) : option object := option_map fields_text (of_text (A := list (string * string)) (String.string_of_list_byte b)).
Definition latin (s : string) : list (list byte) := map (fun c => [byte_of_ascii c]) (String.list_ascii_of_string s).
#[local] Instance toy_codecs : Codecs := {|
  fmt_q s := s; json_symbol _ := ""; json_text _ := None; json_object := toy_object; json_Valid _ := true; json_string b := b;
  json_marshal := toy_marshal; wire_chars := latin; utf8_Valid _ := true; euckr_decode _ := None; FormatFloat _ := ""; Sprint _ := "";
  sha256 b := b |}.
#[local] Instance toy_crypto : JWT.Crypto := {|
  JWT.privkey := unit; JWT.pubkey := unit; JWT.enc_header _ := "h"; JWT.dec_header _ := None; JWT.enc_claims _ := "c"; JWT.dec_claims _ := None;
  JWT.enc_sig _ := "s"; JWT.dec_sig _ := None; JWT.rsa_sign _ _ := Some []; JWT.rsa_verify _ _ _ := true |}.
Definition text_field (name : string) : Field := mkField name "char" 8 0 "" [] "".
Definition chain_specs : gmap string SvcSpec :=
  {["W1101S02" := mkSpec [] [text_field "signMsg"] [text_field "lgnId"]; "W1130A02" := mkSpec [] [text_field "lgnId"] [text_field "lgnIdntCon"]]}.
Definition answer_with (s : string) : res broker_err LoginReply := Ok (mkLoginReply (mkBrokerReply 0 "" (bytes s)) None).
(** An engine that knows one certificate. *)
Definition toy_engine (b : unit) (f : FrameInput) : unit * res broker_err LoginReply :=
  (tt, if bool_decide (fi_rkey f = bytes "W1101S02")
       then if bool_decide (fi_body f = bytes "sig-ann ") then answer_with "ann     " else Err (BErr ErrAuth "")
       else answer_with "N1      ").
Definition toy_cfg : LoginChainConfig := mkChain "" "" "" false.
Definition toy_deps (chain : option LoginChainConfig) (validate : option LoginValidateConfig) (specs : gmap string SvcSpec)
    : @LoginDeps Mem.InMemoryRegistry _ :=
  mkLoginDeps true "" chain validate None (Some specs) (Some {["ann" := mkUserProfile "HQ" "VIP"]}) (Auth.mkDeps (JWT.mkIssuer "k" tt) 0 0 0).
Definition toy_chain (b : list byte) : option chainLoginData := Some (mkChainData (String.string_of_list_byte b) "root" "").
Definition toy_signs (u msg : string) : Prop := u = "ann" /\ encodeWire latin msg 8 = bytes "sig-ann ".
Lemma toy_roundtrip msg : toy_object (bytes (to_text (text_fields (cert_input msg)))) = Some (cert_input msg).
Proof. unfold toy_object, bytes. by rewrite String.string_of_list_byte_of_string, of_to_text. Qed.
Lemma toy_engine_signs b ip channel msg out b' :
  accepted toy_engine (toy_deps (Some toy_cfg) None chain_specs) b (certAlias toy_cfg) "" channel (cert_header ip) (cert_input msg) out b' ->
  strField out "lgnId" <> "" -> toy_signs (strField out "lgnId") msg.
Proof.
  intros (f & spec & r & h & Hm & Hc & Ha & Hp & _) _. change (certAlias toy_cfg) with "W1101S02" in Hm. unfold step_message in Hm.
  cbn [json_marshal toy_codecs] in Hm. unfold toy_marshal in Hm. cbn [mbind option_bind] in Hm. unfold wireBuildBody in Hm.
  rewrite bool_decide_false in Hm by done. destruct (bool_decide (bytes _ = [])); [done|].
  cbn [orb ld_specs toy_deps mbind option_bind json_object toy_codecs] in Hm. rewrite toy_roundtrip in Hm. cbn [mbind option_bind] in Hm.
  change (chain_specs !! "W1101S02") with (Some (mkSpec [] [text_field "signMsg"] [text_field "lgnId"])) in Hm. cbn [mbind option_bind] in Hm.
  destruct (bool_decide (_ = [])); [done|]. cbn in Hm. injection Hm as <- <-. unfold toy_engine in Hc.
  rewrite bool_decide_true in Hc by done. destruct (bool_decide _) eqn:Hb in Hc; [apply bool_decide_eq_true in Hb|done].
  injection Hc as <- <-. vm_compute in Hp. injection Hp as <- <-. split; [done|]. cbn [tran_frame fi_body] in Hb. rewrite app_nil_r in Hb. exact Hb.
Qed.
Definition toy_login : auth_ev :=
  ELogin (mkTime 0 0) (mkPeer "" "10.0.0.1:7") (Some (mkLoginRequest "" "" "" "" "HQ" "root" (bytes "sig-ann") [])) (mkFresh 1 "sid1" "j" "rt").
#[local] Abbreviation toy_run := (fold_left (auth_step toy_chain toy_engine (toy_deps (Some toy_cfg) None chain_specs)) [toy_login] (tt, no_sessions)).
#[local] Abbreviation toy_found := (lookup_session (w_sessions toy_run.2) (mkTime 1 0) "sid1").

(** * Defects *)
(** An identifier that is not a JSON text is not seen by [strField], but the layout
    writes its digits: the password of user 1001 is checked, and the session is opened
    for the user the client names in the header. *)
Definition number_codecs : Codecs := {|
  fmt_q s := s; json_symbol _ := ""; json_text _ := None; json_object _ := Some [("user_id", VFloat (f_of_Z 1001)); ("passwd", VStr "pw-1001")];
  json_Valid _ := true; json_string b := b; json_marshal _ := Some [x31]; wire_chars := latin; utf8_Valid _ := true; euckr_decode _ := None;
  FormatFloat _ := ""; Sprint _ := ""; sha256 b := b |}.
Definition password_specs : gmap string SvcSpec :=
  {["T1204S01" := mkSpec [] [text_field "user_id"; text_field "passwd"] [text_field "loginYN"]]}.
Definition password_engine (b : list (list byte)) (f : FrameInput) : list (list byte) * res broker_err LoginReply :=
  (b ++ [fi_body f], if bool_decide (fi_body f = bytes "1001    pw-1001 ") then answer_with "1" else answer_with "0").
Lemma password_of_another_user :
  let '(b, w, _) := Login (H0 := number_codecs) toy_chain password_engine (toy_deps None (Some (mkValidate "" "" "")) password_specs) [] no_sessions
    (mkTime 0 0) (mkPeer "" "10.0.0.1:7") (Some (mkLoginRequest "" "" "T1204S01" "" "" "" [x31] [("usid", VStr "ann")])) (mkFresh 1 "sid1" "j" "rt") in
  b = [bytes "1001    pw-1001 "] /\ sessions (w_sessions w) !! "sid1" = Some 1%nat /\ Usid (objs (w_sessions w) 1) = "ann".
Proof. vm_compute. done. Qed.

(** The first address of X-Forwarded-For is used, as documented, unless it is empty:
    then the whole header is, and the client fills the header anyway. *)
Lemma forwarded_first ip rest remote :
  any_char (Ascii.eqb ",") ip = false -> ip <> "" -> clientIPOf (mkPeer (ip +:+ "," +:+ rest) remote) = GoStrings.TrimSpace ip.
Proof.
  intros Hc Hn. unfold clientIPOf. cbn [XForwardedFor]. rewrite bool_decide_false by (by destruct ip). cbn [negb].
  change ("," +:+ rest) with (String "," rest). rewrite IndexByte_app by done. destruct ip as [|c ip]; [done|]. cbn [String.length].
  by rewrite <- (str_take_app (String c ip) (String "," rest)) at 2.
Qed.
Lemma forwarded_empty_first rest remote : clientIPOf (mkPeer ("," +:+ rest) remote) = GoStrings.TrimSpace ("," +:+ rest).
Proof. done. Qed.
Example host_of_address : clientIPOf (mkPeer "" "[::1]:443") = "::1" /\ clientIPOf (mkPeer "" "10.0.0.1:7") = "10.0.0.1" /\ clientIPOf (mkPeer "" "pipe") = "pipe".
Proof. by vm_compute. Qed.
