(* ===== verification/Mdsshim.v ===== *)
(** The adapter of the legacy market-data services (src/internal/mdsshim,
    src/cmd/mci-mds-shim): fixed-width requests for daily bars, spot quotes (one or many)
    and manual swap points are answered from the new services.

    The backends are parameters: a spot quote or the daily bars of a pair, and the
    outcome of storing swap points. Slices of a request are checked, as Go checks them.

    The laws follow the definitions. *)

From Stdlib Require Import ZArith QArith Qround Lia Ascii.
From S2P Require Import Prelude Codec Frame Handshake GoStrings Strconv Float64 FloatText Dates Pricing PricingDoc Client.
Local Open Scope Z_scope.
Local Open Scope wtg_scope.

(** * Fields *)
Definition text (b : list byte) : string := String.string_of_list_byte b.
Definition raw (s : string) : list byte := String.list_byte_of_string s.
Definition field (b : list byte) (off w : Z) : res Empty_set string := s ← slice off (off + w) b; Ok (GoStrings.TrimSpace (text s)).
Definition numField (b : list byte) (off w : Z) : res Empty_set f64 :=
  s ← field b off w; Ok (match ParseFloat s with Some x => x | None => f0 end).
(** [fmt.Sprintf("%.5f", v)]: the nearest number with five decimals, ties to even. *)
Definition pad_digits (n : Z) : string := str_drop 1 (Itoa (100000 + n)).
Definition fmt5 (v : f64) : string :=
  match v with
  | NaN => "NaN"
  | Inf neg => if neg then "-Inf" else "+Inf"
  | Fin neg q =>
      let n := rne (q * inject_Z 100000) in
      (if neg : bool then "-" else "") +:+ Itoa (n / 100000) +:+ "." +:+ pad_digits (n mod 100000)
  end.
(** [copy(out[off:off+16], v)]. *)
Definition put16 (off : nat) (v : string) (out : list byte) : list byte := blit off (take 16 (raw v)) out.
Definition blanks (n : nat) : list byte := replicate n " "%byte.
Definition symbToPair (symb : string) : string :=
  if (String.length symb =? 6)%nat && negb (Contains symb "/") then str_take 3 symb +:+ "/" +:+ str_drop 3 symb else symb.
Definition cString (b : list byte) : string := GoStrings.TrimSpace (text (trimNul b)).

(** * Replies *)
Definition DirOrigin : Z := 4.
Definition FCTran : Z := 10.
Definition newReplyFrame (u : Unsolicited) : FrameInput :=
  let h := df_header (us_frame u) in
  let '(xchg, rkey) := match df_navis (us_frame u) with
                       | [] => ("", "")
                       | origin :: _ => (cString (nv_xchg origin), cString (nv_rkey origin))
                       end in
  mkFrameInput FCTran 0 DirOrigin 0 0 0 (raw xchg) (raw rkey) (h_ckey h) (h_clid h) (h_wkey h) (h_chan h) (replicate 16 x00)
    (rev (df_navis (us_frame u))) 0 [] [] [] None [].
Definition with_errn (f : FrameInput) (n : Z) : FrameInput :=
  mkFrameInput (fi_func f) (fi_subc f) (fi_dirf f) (fi_keyc f) (fi_msgf f) (fi_ctlf f) (fi_xchg f) (fi_rkey f) (fi_ckey f) (fi_clid f)
    (fi_wkey f) (fi_chan f) (fi_traceID f) (fi_navis f) n (fi_errMsg f) (fi_pkey f) (fi_nkey f) (fi_cookie f) (fi_body f).
Definition with_body (f : FrameInput) (b : list byte) : FrameInput :=
  mkFrameInput (fi_func f) (fi_subc f) (fi_dirf f) (fi_keyc f) (fi_msgf f) (fi_ctlf f) (fi_xchg f) (fi_rkey f) (fi_ckey f) (fi_clid f)
    (fi_wkey f) (fi_chan f) (fi_traceID f) (fi_navis f) (fi_errn f) (fi_errMsg f) (fi_pkey f) (fi_nkey f) (fi_cookie f) b.
(** Not this service, or a reply and whether the error is nil. *)
Notation handled := (option (FrameInput * bool)).
Definition rkey_of (u : Unsolicited) : string := cString (h_rkey (df_header (us_frame u))).
Definition refused (u : Unsolicited) : handled := Some (with_errn (newReplyFrame u) 1, false).

(** * Manual swap points (W9504A01) *)
Definition w9504HdrLen : Z := 15.
Definition w9504RecLen : Z := 83.
Record W9504Record := mkW9504Rec { r_Tenor : string; r_Bid : f64; r_Ask : f64 }.
Record W9504Request := mkW9504 { q_RegTp : Z; q_Pair : string; q_MrgnTcd : string; q_Records : list W9504Record }.
Inductive ParseErr := ShortHeader | BadRegTp | BadCount | ShortBody | ShortInput | BadProduct | BadSymbol | NoSymbol.
(** A Go call that cannot fail with an error, inside one that can. *)
Definition lift {E A} (r : res Empty_set A) : res E A := match r with Ok a => Ok a | Err e => match e with end | Panic => Panic end.
Fixpoint read_records (b : list byte) (i : Z) (n : nat) : res Empty_set (list W9504Record) :=
  match n with
  | O => Ok []
  | S n =>
      let off := w9504HdrLen + i * w9504RecLen in
      t ← field b off 3; bid ← numField b (off + 3) 10; ask ← numField b (off + 13) 10;
      rs ← read_records b (i + 1) n; Ok (mkW9504Rec t bid ask :: rs)
  end.
Definition ParseW2006A01 (b : list byte) : res ParseErr W9504Request :=
  if zlen b <? w9504HdrLen then Err ShortHeader
  else
    r ← lift (field b 0 1);
    let '(regTp, ok) := Atoi r in
    if negb ok || negb ((regTp =? 1) || (regTp =? 2)) then Err BadRegTp
    else
      c ← lift (field b 9 6);
      let '(nrec, ok) := Atoi c in
      if negb ok then Err BadCount
      else if zlen b <? w9504HdrLen + nrec * w9504RecLen then Err ShortBody
      else
        pair ← lift (field b 1 7); tcd ← lift (field b 8 1); rs ← lift (read_records b 0 (Z.to_nat nrec));
        Ok (mkW9504 regTp pair tcd rs).
Definition mdsTenorToWTG (t : string) : option string :=
  snd <$> List.find (fun p => bool_decide (p.1 = t))
    [("SPT", "SPT"); ("TOD", "TOD"); ("TOM", "TOM"); ("W01", "1W"); ("M01", "1M"); ("M02", "2M"); ("M03", "3M"); ("M06", "6M"); ("Y01", "1Y")].
(** [math.Pow10]: a product or quotient of two table entries. *)
Definition pow10Q (e : Z) : f64 := lit (pow_Q 10 e).
Definition Pow10 (n : Z) : f64 :=
  if (0 <=? n) && (n <=? 308) then fmul (pow10Q (32 * (n / 32))) (pow10Q (n mod 32))
  else if (-323 <=? n) && (n <=? 0) then fdiv (pow10Q (- (32 * (- n / 32)))) (pow10Q (- n mod 32))
  else if 0 <? n then Inf false else f0.
Definition swap_update (pair : string) (scale : f64) (r : W9504Record) : option SwapUpdate :=
  t ← mdsTenorToWTG (r_Tenor r); Some (mkSwapUpdate pair t (fdiv (r_Bid r) scale) (fdiv (r_Ask r) scale)).
Definition SwapUpdates (q : W9504Request) (zdiv : Z) : list SwapUpdate * Z :=
  let ups := omap (swap_update (q_Pair q) (Pow10 zdiv)) (q_Records q) in (ups, zlen (q_Records q) - zlen ups).
Definition BuildW9504A01Reply (pair : string) : list byte := blit 0 (raw pair) (blanks 8).

(** * Daily bars (W9501S01) *)
Record W9501Request := mkW9501 { d_Pdcd : string; d_Symb : string; d_Pair : string }.
Record ChartBar := mkBar {
  b_Kymd : string; b_Khms : string; b_BidO : f64; b_BidH : f64; b_BidL : f64; b_BidC : f64; b_AskO : f64; b_AskH : f64; b_AskL : f64; b_AskC : f64 }.
Definition ParseW9501S01 (b : list byte) : res ParseErr W9501Request :=
  if zlen b <? 40 then Err ShortInput
  else
    pdcd ← lift (field b 0 4);
    if negb (bool_decide (pdcd = "SPT")) then Err BadProduct
    else
      symb ← lift (field b 8 16);
      if negb (String.length symb =? 6)%nat then Err BadSymbol else Ok (mkW9501 pdcd symb (symbToPair symb)).
Definition bar_record (symb : string) (bar : ChartBar) : list byte :=
  put16 176 (fmt5 (b_AskC bar)) (put16 160 (fmt5 (b_AskL bar)) (put16 144 (fmt5 (b_AskH bar)) (put16 128 (fmt5 (b_AskO bar))
    (put16 112 (fmt5 (b_BidC bar)) (put16 96 (fmt5 (b_BidL bar)) (put16 80 (fmt5 (b_BidH bar)) (put16 64 (fmt5 (b_BidO bar))
      (put16 48 (b_Khms bar) (put16 32 (b_Kymd bar) (put16 0 symb (blanks 208))))))))))).
Definition BuildW9501S01Reply (pdcd symb : string) (bars : list ChartBar) : list byte :=
  blit 36 (take 4 (raw (Itoa (zlen bars)))) (put16 4 symb (blit 0 (take 4 (raw pdcd)) (blanks 40))) ++ mjoin (bar_record symb <$> bars).

(** * Spot quotes (W9501S02, W9501S03) *)
Definition s02InLen : nat := 64.
Definition s02OutLen : nat := 546.
Definition comhdrLen : nat := 512.
Definition comhdrEflgOff : nat := 182.
Definition splitComhdr (b : list byte) (inLen : nat) : option (list byte) * list byte :=
  if (comhdrLen + inLen <=? length b)%nat then (Some (take comhdrLen b), drop comhdrLen b) else (None, b).
Record W9501S02Request := mkS02 { s_Exnm : string; s_Symb : string; s_Pair : string; s_PayYmd : string; s_ExpYmd : string }.
Record SpotQuote := mkSpot { sq_Bid : f64; sq_Ask : f64; sq_Source : string }.
Definition ParseW9501S02 (b : list byte) : res ParseErr W9501S02Request :=
  if (length b <? s02InLen)%nat then Err ShortInput
  else
    symb ← lift (field b 16 16);
    if bool_decide (symb = "") then Err NoSymbol
    else
      let pair := if Contains symb "/" then symb else symbToPair symb in
      exnm ← lift (field b 0 16); pay ← lift (field b 32 16); exp ← lift (field b 48 16);
      Ok (mkS02 exnm symb pair pay exp).
Definition source_byte (q : SpotQuote) : byte := match sq_Source q with "" => "B"%byte | String c _ => byte_of_ascii c end.
Definition BuildW9501S02Reply (r : W9501S02Request) (q : SpotQuote) : list byte :=
  blit 481 [source_byte q] (blit 480 [source_byte q]
    (put16 464 (fmt5 (sq_Ask q)) (put16 448 (fmt5 (sq_Bid q)) (put16 304 (fmt5 (sq_Ask q)) (put16 272 (fmt5 (sq_Bid q))
      (put16 80 (s_ExpYmd r) (put16 64 (s_PayYmd r) (put16 16 (s_Symb r) (put16 0 (s_Exnm r) (blanks s02OutLen)))))))))).
(** The reply's header is the request's with the error flag cleared. *)
Definition with_comhdr (hdr : option (list byte)) (out : list byte) : list byte :=
  match hdr with Some h => blit comhdrEflgOff ["0"%byte] h ++ out | None => out end.
Definition parseNrec (b : list byte) (off : nat) : option nat :=
  if (length b <? off + 6)%nat then None
  else
    let s := GoStrings.TrimSpace (text (sub off 6 b)) in
    if bool_decide (s = "") then None
    else let '(n, ok) := Atoi s in if negb ok || (n <? 0) || (1000 <? n) then None else Some (Z.to_nat n).
Definition splitComhdrS03 (b : list byte) : option (list byte) * list byte :=
  let long := (comhdrLen + 6 <=? length b)%nat in
  let stripped := (Some (take comhdrLen b), drop comhdrLen b) in
  match parseNrec b 0 with
  | Some n => if (length b =? 6 + n * s02InLen)%nat then (None, b) else if long then stripped else (None, b)
  | None => if long then stripped else (None, b)
  end.
(** A record that cannot be read stays blank; one without a quote gets the zero quote. *)
Definition s03_record (spot : string -> option SpotQuote) (r : list byte) : res Empty_set (list byte) :=
  match ParseW9501S02 r with
  | Ok q => Ok (BuildW9501S02Reply q (default (mkSpot f0 f0 "") (spot (s_Pair q))))
  | Err _ => Ok (blanks s02OutLen)
  | Panic => Panic
  end.
Fixpoint s03_records (spot : string -> option SpotQuote) (body : list byte) (i n : nat) : res Empty_set (list byte) :=
  match n with
  | O => Ok []
  | S n =>
      let off := (6 + i * s02InLen)%nat in
      if (length body <? off + s02InLen)%nat then Ok (blanks (S n * s02OutLen))
      else r ← s03_record spot (sub off s02InLen body); rs ← s03_records spot body (S i) n; Ok (r ++ rs)
  end.
(** [fmt.Sprintf("%-6d", n)]. *)
Definition pad6 (n : nat) : list byte := let s := raw (Itoa (Z.of_nat n)) in s ++ blanks (6 - length s).

(** * Handlers *)
Section handlers.
Context (spot : string -> option SpotQuote) (chart : string -> option (list ChartBar)) (zdiv : Z).
(** [apply]: stores swap points; its state and whether it succeeded. *)
Context {S : Type} (apply : S -> string -> list SwapUpdate -> bool -> S * bool).

Definition HandleW9504A01 (s : S) (u : Unsolicited) : S * res Empty_set handled :=
  if negb (bool_decide (rkey_of u = "W9504A01")) then (s, Ok None)
  else match ParseW2006A01 (us_body u) with
       | Err _ => (s, Ok (refused u))
       | Panic => (s, Panic)
       | Ok q =>
           match apply s (q_Pair q) (SwapUpdates q zdiv).1 (q_RegTp q =? 2) with
           | (s, true) => (s, Ok (Some (with_body (newReplyFrame u) (BuildW9504A01Reply (q_Pair q)), true)))
           | (s, false) => (s, Ok (refused u))
           end
       end.
Definition HandleW9501S01 (u : Unsolicited) : res Empty_set handled :=
  if negb (bool_decide (rkey_of u = "W9501S01")) then Ok None
  else match ParseW9501S01 (us_body u) with
       | Err _ => Ok (refused u)
       | Panic => Panic
       | Ok q =>
           match chart (d_Pair q) with
           | None => Ok (refused u)
           | Some bars => Ok (Some (with_body (newReplyFrame u) (BuildW9501S01Reply (d_Pdcd q) (d_Symb q) bars), true))
           end
       end.
Definition HandleW9501S02 (u : Unsolicited) : res Empty_set handled :=
  if negb (bool_decide (rkey_of u = "W9501S02")) then Ok None
  else
    let '(hdr, i) := splitComhdr (us_body u) s02InLen in
    match ParseW9501S02 i with
    | Err _ => Ok (refused u)
    | Panic => Panic
    | Ok q =>
        match spot (s_Pair q) with
        | None => Ok (refused u)
        | Some v => Ok (Some (with_body (newReplyFrame u) (with_comhdr hdr (BuildW9501S02Reply q v)), true))
        end
    end.
Definition HandleW9501S03 (u : Unsolicited) : res Empty_set handled :=
  if negb (bool_decide (rkey_of u = "W9501S03")) then Ok None
  else
    let '(hdr, body) := splitComhdrS03 (us_body u) in
    if (length body <? 6)%nat then Ok (refused u)
    else match parseNrec body 0 with
         | None => Ok (refused u)
         | Some n =>
             rs ← s03_records spot body 0 n;
             Ok (Some (with_body (newReplyFrame u) (with_comhdr hdr (pad6 n ++ rs)), true))
         end.
(** One turn of the command's loop. *)
Definition dispatch (serveS02 : bool) (s : S) (u : Unsolicited) : S * res Empty_set handled :=
  match HandleW9504A01 s u with
  | (s, Ok None) =>
      (s, h ← HandleW9501S01 u;
          match h with
          | Some r => Ok (Some r)
          | None =>
              if negb serveS02 then Ok None
              else h ← HandleW9501S02 u; match h with Some r => Ok (Some r) | None => HandleW9501S03 u end
          end)
  | r => r
  end.
End handlers.

(** * Laws *)
Lemma field_ok b off w : 0 <= off -> 0 <= w -> off + w <= zlen b -> exists t, field b off w = Ok t.
Proof.
  intros. unfold field, slice. rewrite (proj2 (Z.leb_le 0 off)), (proj2 (Z.leb_le off (off + w))), (proj2 (Z.leb_le (off + w) _)) by lia.
  cbn. eauto.
Qed.
Lemma numField_ok b off w : 0 <= off -> 0 <= w -> off + w <= zlen b -> exists t, numField b off w = Ok t.
Proof. intros H1 H2 H3. unfold numField. destruct (field_ok b off w H1 H2 H3) as [t ->]. cbn. eauto. Qed.
(** Reads a field whose range is arithmetic. *)
Tactic Notation "read" constr(o) constr(w) "as" ident(t) :=
  match goal with |- context [field ?b _ _] => destruct (field_ok b o w) as [t ->]; [unfold w9504HdrLen, w9504RecLen in *; lia..|] end; cbn [mbind res_bind lift].
Tactic Notation "read_num" constr(o) constr(w) "as" ident(t) :=
  match goal with |- context [numField ?b _ _] => destruct (numField_ok b o w) as [t ->]; [unfold w9504HdrLen, w9504RecLen in *; lia..|] end; cbn [mbind res_bind lift].
Lemma read_records_ok b i n : 0 <= i -> w9504HdrLen + (i + Z.of_nat n) * w9504RecLen <= zlen b ->
  exists rs, read_records b i n = Ok rs /\ length rs = n.
Proof.
  revert i. induction n as [|n IH]; intros i Hi Hl; cbn [read_records]; [eauto|].
  read (w9504HdrLen + i * w9504RecLen) 3 as t. read_num (w9504HdrLen + i * w9504RecLen + 3) 10 as x. read_num (w9504HdrLen + i * w9504RecLen + 13) 10 as y.
  destruct (IH (i + 1)) as (rs & -> & <-); [lia|unfold w9504HdrLen, w9504RecLen in *; lia|]. cbn. eauto.
Qed.
Lemma ParseW2006A01_total b : ParseW2006A01 b <> Panic.
Proof.
  unfold ParseW2006A01. destruct (zlen b <? w9504HdrLen) eqn:El; [done|]. apply Z.ltb_ge in El. unfold w9504HdrLen in El.
  read 0 1 as t. destruct (Atoi t) as [regTp ok]. destruct (negb ok || _); [done|].
  read 9 6 as c. destruct (Atoi c) as [n ok2]. destruct (negb ok2); [done|].
  destruct (zlen b <? _) eqn:En; [done|]. apply Z.ltb_ge in En. read 1 7 as pair. read 8 1 as tcd.
  destruct (Z.le_gt_cases 0 n) as [Hn|Hn].
  - destruct (read_records_ok b 0 (Z.to_nat n)) as (rs & -> & _); [lia|unfold w9504HdrLen, w9504RecLen in *; lia|]. done.
  - replace (Z.to_nat n) with 0%nat by lia. done.
Qed.
Lemma ParseW9501S01_total b : ParseW9501S01 b <> Panic.
Proof.
  unfold ParseW9501S01. destruct (zlen b <? 40) eqn:El; [done|]. apply Z.ltb_ge in El. read 0 4 as pdcd.
  destruct (negb (bool_decide (pdcd = "SPT"))); [done|]. read 8 16 as symb. by destruct (negb _).
Qed.
Lemma ParseW9501S02_total b : ParseW9501S02 b <> Panic.
Proof.
  unfold ParseW9501S02. destruct (length b <? s02InLen)%nat eqn:El; [done|]. apply Nat.ltb_ge in El. unfold s02InLen in El.
  read 16 16 as symb. destruct (bool_decide (symb = "")); [done|]. read 0 16 as exnm. read 32 16 as pay. by read 48 16 as expy.
Qed.
Lemma s02_length r q : length (BuildW9501S02Reply r q) = s02OutLen.
Proof. unfold BuildW9501S02Reply, put16, blanks. by rewrite !blit_length, length_replicate. Qed.
Lemma bar_length symb bar : length (bar_record symb bar) = 208%nat.
Proof. unfold bar_record, put16, blanks. by rewrite !blit_length, length_replicate. Qed.
Lemma s01_length pdcd symb bars : length (BuildW9501S01Reply pdcd symb bars) = (40 + length bars * 208)%nat.
Proof.
  unfold BuildW9501S01Reply, put16, blanks. rewrite length_app, !blit_length, length_replicate. f_equal.
  induction bars as [|bar bars IH]; [done|].
  change (mjoin (bar_record symb <$> bar :: bars)) with (bar_record symb bar ++ mjoin (bar_record symb <$> bars)).
  rewrite length_app, bar_length, length_cons, IH. lia.
Qed.
Lemma s03_record_ok spot r : exists o, s03_record spot r = Ok o /\ length o = s02OutLen.
Proof.
  unfold s03_record. pose proof (ParseW9501S02_total r). destruct (ParseW9501S02 r); [eexists; split; [done|apply s02_length]| |done].
  eexists. split; [done|]. apply length_replicate.
Qed.
Lemma s03_records_ok spot body i n : exists o, s03_records spot body i n = Ok o /\ length o = (n * s02OutLen)%nat.
Proof.
  revert i. induction n as [|n IH]; intros i; cbn [s03_records]; [by eexists|]. case_if; [eexists; split; [done|apply length_replicate]|].
  destruct (s03_record_ok spot (sub (6 + i * s02InLen) s02InLen body)) as (r & -> & Hr). cbn [mbind res_bind].
  destruct (IH (S i)) as (o & -> & Ho). cbn [mbind res_bind]. eexists. split; [done|]. rewrite length_app, Hr, Ho. lia.
Qed.
Lemma parseNrec_bound b off n : parseNrec b off = Some n -> (n <= 1000)%nat.
Proof. unfold parseNrec. repeat case_if; try done. destruct (Atoi _) as [v ok]. case_if; [done|]. intros [= <-]. bool_lia. Qed.
Lemma pad6_length n : (n <= 1000)%nat -> length (pad6 n) = 6%nat.
Proof.
  intros Hn. assert (A : forallb (fun n => length (pad6 n) =? 6)%nat (seq 0 1001) = true) by (vm_compute; reflexivity).
  rewrite List.forallb_forall in A. apply Nat.eqb_eq, A, in_seq. lia.
Qed.

(** A reply goes back the way the request came, under its keys. *)
Definition addressed (u : Unsolicited) (f : FrameInput) : Prop :=
  fi_dirf f = DirOrigin /\ fi_navis f = rev (df_navis (us_frame u)) /\ fi_ckey f = h_ckey (df_header (us_frame u)) /\
  fi_clid f = h_clid (df_header (us_frame u)) /\ fi_wkey f = h_wkey (df_header (us_frame u)) /\ fi_chan f = h_chan (df_header (us_frame u)).
(** The sizes the services' layouts prescribe, with the common header or without. *)
Definition reply_size (rkey : string) (len : nat) : Prop :=
  (rkey = "W9504A01" /\ len = 8%nat) \/ (rkey = "W9501S01" /\ exists n, len = (40 + n * 208)%nat) \/
  (rkey = "W9501S02" /\ (len = 546 \/ len = 512 + 546)%nat) \/
  (rkey = "W9501S03" /\ exists n, (n <= 1000)%nat /\ (len = 6 + n * 546 \/ len = 512 + (6 + n * 546))%nat).
Definition served (serveS02 : bool) (rkey : string) : Prop :=
  rkey = "W9504A01" \/ rkey = "W9501S01" \/ serveS02 = true /\ (rkey = "W9501S02" \/ rkey = "W9501S03").
Definition good_reply (u : Unsolicited) (h : handled) : Prop :=
  match h with
  | None => True
  | Some (f, ok) => addressed u f /\
      if ok then fi_errn f = 0 /\ reply_size (rkey_of u) (length (fi_body f)) else fi_errn f = 1 /\ fi_body f = []
  end.
Lemma addressed_reply u b n : addressed u (with_body (newReplyFrame u) b) /\ addressed u (with_errn (newReplyFrame u) n).
Proof. unfold addressed, newReplyFrame. by destruct (df_navis (us_frame u)). Qed.
Lemma refused_good u : good_reply u (refused u).
Proof. cbn. split; [apply (addressed_reply u [])|]. unfold newReplyFrame. by destruct (df_navis (us_frame u)). Qed.
Lemma body_good u b : reply_size (rkey_of u) (length b) -> good_reply u (Some (with_body (newReplyFrame u) b, true)).
Proof. intros HS. cbn. split; [apply (addressed_reply u b 0)|]. split; [|done]. unfold newReplyFrame. by destruct (df_navis (us_frame u)). Qed.
Lemma splitComhdr_sizes b n : let '(hdr, i) := splitComhdr b n in match hdr with Some h => length h = comhdrLen | None => True end.
Proof. unfold splitComhdr. destruct (_ <=? _)%nat eqn:E; [|done]. apply Nat.leb_le in E. rewrite length_take. lia. Qed.
Lemma splitComhdrS03_sizes b : let '(hdr, i) := splitComhdrS03 b in match hdr with Some h => length h = comhdrLen | None => True end.
Proof.
  unfold splitComhdrS03. destruct (comhdrLen + 6 <=? length b)%nat eqn:E.
  - apply Nat.leb_le in E. destruct (parseNrec b 0); [case_if; [done|]|]; rewrite length_take; lia.
  - destruct (parseNrec b 0); [|done]. by case_if.
Qed.
Lemma with_comhdr_length hdr out :
  match hdr with Some h => length h = comhdrLen | None => True end ->
  length (with_comhdr hdr out) = length out \/ length (with_comhdr hdr out) = (512 + length out)%nat.
Proof. destruct hdr as [h|]; cbn; [|by left]. intros Hh. right. rewrite length_app, blit_length, Hh. done. Qed.

(** The service a handler serves: it answers well, or leaves the frame to the next. *)
Definition serves (rkey : string) (u : Unsolicited) (r : res Empty_set handled) : Prop :=
  exists h, r = Ok h /\ good_reply u h /\ (h = None <-> rkey_of u <> rkey).
Lemma serves_other rkey u : rkey_of u <> rkey -> serves rkey u (Ok None).
Proof. intros Hr. exists None. split; [done|]. split; [done|]. by split. Qed.
Lemma serves_refused rkey u : rkey_of u = rkey -> serves rkey u (Ok (refused u)).
Proof. intros Hr. exists (refused u). split; [done|]. split; [apply refused_good|]. by split. Qed.
Lemma serves_body rkey u b : rkey_of u = rkey -> reply_size rkey (length b) -> serves rkey u (Ok (Some (with_body (newReplyFrame u) b, true))).
Proof. intros Hr HS. eexists. split; [done|]. split; [apply body_good; by rewrite Hr|]. by split. Qed.
Lemma HandleW9501S01_serves chart u : serves "W9501S01" u (HandleW9501S01 chart u).
Proof.
  unfold HandleW9501S01. destruct (bool_decide_reflect (rkey_of u = "W9501S01")) as [Hr|Hr]; [|by apply serves_other]. cbn [negb].
  pose proof (ParseW9501S01_total (us_body u)). destruct (ParseW9501S01 _) as [q|e|]; [|by apply serves_refused|done].
  destruct (chart _) as [bars|]; [|by apply serves_refused]. apply serves_body; [done|]. right. left. rewrite s01_length. eauto.
Qed.
Lemma HandleW9501S02_serves spot u : serves "W9501S02" u (HandleW9501S02 spot u).
Proof.
  unfold HandleW9501S02. destruct (bool_decide_reflect (rkey_of u = "W9501S02")) as [Hr|Hr]; [|by apply serves_other]. cbn [negb].
  pose proof (splitComhdr_sizes (us_body u) s02InLen) as HC. destruct (splitComhdr _ _) as [hdr i].
  pose proof (ParseW9501S02_total i). destruct (ParseW9501S02 i) as [q|e|]; [|by apply serves_refused|done].
  destruct (spot _) as [v|]; [|by apply serves_refused]. apply serves_body; [done|]. right. right. left. split; [done|].
  by destruct (with_comhdr_length hdr (BuildW9501S02Reply q v) HC) as [-> | ->]; rewrite s02_length; [left|right].
Qed.
Lemma HandleW9501S03_serves spot u : serves "W9501S03" u (HandleW9501S03 spot u).
Proof.
  unfold HandleW9501S03. destruct (bool_decide_reflect (rkey_of u = "W9501S03")) as [Hr|Hr]; [|by apply serves_other]. cbn [negb].
  pose proof (splitComhdrS03_sizes (us_body u)) as HC. destruct (splitComhdrS03 _) as [hdr body].
  destruct (length body <? 6)%nat; [by apply serves_refused|]. destruct (parseNrec body 0) as [n|] eqn:En; [|by apply serves_refused].
  apply parseNrec_bound in En. destruct (s03_records_ok spot body 0 n) as (o & -> & Ho). cbn [mbind res_bind].
  apply serves_body; [done|]. right. right. right. split; [done|]. exists n. split; [done|].
  destruct (with_comhdr_length hdr (pad6 n ++ o) HC) as [-> | ->]; rewrite length_app, (pad6_length n En), Ho; unfold s02OutLen; [left|right]; lia.
Qed.


(** * Many quotes are single ones *)
Lemma sub_app_mid {A} (a b c : list A) n m : length a = n -> length b = m -> sub n m (a ++ b ++ c) = b.
Proof. intros <- <-. unfold sub. by rewrite drop_app_length, take_app_length. Qed.
Lemma s03_records_map spot pre recs done_ :
  length pre = 6%nat -> Forall (fun r => length r = s02InLen) (done_ ++ recs) ->
  exists outs, s03_records spot (pre ++ mjoin (done_ ++ recs)) (length done_) (length recs) = Ok (mjoin outs) /\
    Forall2 (fun r o => s03_record spot r = Ok o) recs outs.
Proof.
  intros Hp. revert done_. induction recs as [|r recs IH]; intros done_ HF; [by exists []; eauto|].
  assert (HL : forall l, Forall (fun r : list byte => length r = s02InLen) l -> length (mjoin l) = (length l * s02InLen)%nat).
  { induction 1 as [|x l Hx _ IHl]; [done|]. change (mjoin (x :: l)) with (x ++ mjoin l). rewrite length_app, Hx, IHl. done. }
  pose proof HF as [HFd [Hr HFr]%Forall_cons]%Forall_app. cbn [length s03_records].
  assert (HB : pre ++ mjoin (done_ ++ r :: recs) = (pre ++ mjoin done_) ++ r ++ mjoin recs).
  { rewrite join_app. by rewrite <- app_assoc. }
  assert (HO : length (pre ++ mjoin done_) = (6 + length done_ * s02InLen)%nat) by (rewrite length_app, Hp, HL; done).
  rewrite (proj2 (Nat.ltb_ge _ _)); [|rewrite HB, !length_app, Hr; rewrite length_app in HO; lia].
  assert (HSub : sub (6 + length done_ * s02InLen) s02InLen (pre ++ mjoin (done_ ++ r :: recs)) = r) by (rewrite HB; by apply sub_app_mid).
  rewrite HSub.
  destruct (s03_record_ok spot r) as (o & Eo & _). rewrite Eo. cbn [mbind res_bind].
  destruct (IH (done_ ++ [r])) as (outs & E & F2); [by rewrite <- app_assoc|].
  rewrite <- app_assoc, length_app, Nat.add_comm in E. cbn [app length plus] in E. rewrite E. cbn [mbind res_bind].
  exists (o :: outs). split; [done|]. by constructor.
Qed.
(** A request for many quotes is answered, record by record, with what each record alone
    would be answered. *)
Theorem bulk_is_singles spot u count recs :
  rkey_of u = "W9501S03" -> us_body u = count ++ mjoin recs -> length count = 6%nat -> Forall (fun r => length r = s02InLen) recs ->
  parseNrec (us_body u) 0 = Some (length recs) ->
  exists outs, HandleW9501S03 spot u = Ok (Some (with_body (newReplyFrame u) (pad6 (length recs) ++ mjoin outs), true)) /\
    Forall2 (fun r o => forall v f, rkey_of v = "W9501S02" -> us_body v = r ->
      HandleW9501S02 spot v = Ok (Some (f, true)) -> fi_body f = o) recs outs.
Proof.
  intros Hr Hb Hc HF Hn. destruct (s03_records_map spot count recs [] Hc HF) as (outs & E & F2). cbn [app length] in E. exists outs. split.
  - unfold HandleW9501S03, splitComhdrS03. rewrite bool_decide_true by done. cbn [negb]. rewrite Hn.
    assert (HL : length (us_body u) = (6 + length recs * s02InLen)%nat).
    { rewrite Hb, length_app, Hc. f_equal. clear - HF. induction HF as [|x l Hx _ IH]; [done|].
      change (mjoin (x :: l)) with (x ++ mjoin l). rewrite length_app, Hx, IH. done. }
    rewrite (proj2 (Nat.eqb_eq _ _)) by done. rewrite (proj2 (Nat.ltb_ge _ _)) by lia. rewrite Hn, Hb, E. done.
  - clear E. assert (HS : forall r o, length r = s02InLen -> s03_record spot r = Ok o -> forall v f, rkey_of v = "W9501S02" -> us_body v = r ->
      HandleW9501S02 spot v = Ok (Some (f, true)) -> fi_body f = o).
    { intros r o Hl Ho v f Hv Hvb. unfold HandleW9501S02, splitComhdr. rewrite bool_decide_true by done. cbn [negb]. rewrite Hvb, Hl.
      rewrite (proj2 (Nat.leb_gt _ _)) by (unfold comhdrLen, s02InLen; lia).
      unfold s03_record in Ho. destruct (ParseW9501S02 r) as [q|e|]; [|done..]. destruct (spot (s_Pair q)) as [w|]; [|done].
      intros [= <-]. injection Ho as <-. done. }
    clear Hb Hn Hr Hc. induction F2 as [|r o recs outs Ho F2 IH]; [constructor|]. apply Forall_cons in HF as [Hl HF].
    constructor; [by apply HS|by apply IH].
Qed.

(** * Defects *)
(** A record without a quote is documented to be left blank; its prices are written as
    0.00000. *)
Lemma no_quote_priced_zero spot r q :
  ParseW9501S02 r = Ok q -> spot (s_Pair q) = None ->
  exists o, s03_record spot r = Ok o /\ sub 272 7 o = raw "0.00000" /\ sub 304 7 o = raw "0.00000".
Proof.
  intros Hp Hs. unfold s03_record. rewrite Hp, Hs. eexists. split; [done|]. unfold BuildW9501S02Reply. cbn [sq_Bid sq_Ask default].
  assert (H7 : length (take 16 (raw (fmt5 f0))) = 7%nat) by (vm_compute; reflexivity).
  unfold put16. split.
  - do 5 (rewrite sub_blit_ne by (rewrite ?H7; cbn [length]; lia)).
    rewrite sub_blit_same; [vm_compute; reflexivity|done|]. rewrite !blit_length. unfold blanks, s02OutLen. rewrite length_replicate. lia.
  - do 4 (rewrite sub_blit_ne by (rewrite ?H7; cbn [length]; lia)).
    rewrite sub_blit_same; [vm_compute; reflexivity|done|]. rewrite !blit_length. unfold blanks, s02OutLen. rewrite length_replicate. lia.
Qed.
(** A negative number of records is accepted: the request is stored as an empty one. *)
Lemma negative_count_accepted : ParseW2006A01 (raw "1USD/KRW1-1    ") = Ok (mkW9504 1 "USD/KRW" "1" []).
Proof. by vm_compute. Qed.
Example swap_request_read :
  ParseW2006A01 (raw ("1USD/KRW11     W01       150       2.5" +:+ "                                                            ")) =
  Ok (mkW9504 1 "USD/KRW" "1" [mkW9504Rec "W01" (f_of_Z 150) (lit (5 # 2))]).
Proof. by vm_compute. Qed.
Example prices_in_five_decimals : fmt5 (lit (1234565 # 1000)) = "1234.56500" /\ fmt5 (lit (-1 # 3)) = "-0.33333" /\ fmt5 (f_of_Z 1300) = "1300.00000".
Proof. by vm_compute. Qed.
