(* ===== verification/AuthRedis.v ===== *)
(** Sessions and refresh tokens on Redis (src/pkg/auth/redisstore.go, refresh_redis.go),
    shared by the login servers. A call that reads and writes back is two steps; replies
    may be lost. JSON and base64 are parameters. The laws, for every interleaving: a
    session returned is one that was stored, a deletion with no read under way is final,
    a refresh token is granted at most as often as it was stored. *)

From Stdlib Require Import ZArith Lia.
From S2P Require Import Prelude GoStrings Codec Dates Redis Auth.
Local Open Scope Z_scope.

(** * Sets and keys without a deadline *)
Class RedisSets (S : Type) := {
  (** SET key value. *)
  rd_set_forever : S -> Z -> string -> string -> S;
  rd_sadd : S -> Z -> string -> string -> S;
  rd_srem : S -> Z -> string -> string -> S;
  rd_smembers : S -> Z -> string -> list string;
  rd_sexpire : S -> Z -> string -> Z -> S;
  rd_sdel : S -> Z -> string -> S }.
(** Commands on sets leave the texts alone. *)
Class RedisSetsLaws (S : Type) `{Redis S} `{RedisSets S} := {
  rd_get_forever : forall s t k v t' k', t <= t' -> rd_get (rd_set_forever s t k v) t' k' = if decide (k' = k) then Some v else rd_get s t' k';
  rd_get_sadd : forall s t k m t' k', rd_get (rd_sadd s t k m) t' k' = rd_get s t' k';
  rd_get_srem : forall s t k m t' k', rd_get (rd_srem s t k m) t' k' = rd_get s t' k';
  rd_get_sexpire : forall s t k d t' k', rd_get (rd_sexpire s t k d) t' k' = rd_get s t' k';
  rd_get_sdel : forall s t k t' k', rd_get (rd_sdel s t k) t' k' = rd_get s t' k' }.

(** The client sends a time to live in whole milliseconds, at least one. *)
Definition millisecond : Z := 1000000.
Definition px (d : Z) : Z := if d <? millisecond then millisecond else d / millisecond * millisecond.
(** [t.Sub(now)], within the range of a duration. *)
Definition time_Sub (a b : Time) : Z := Z.max (- 2 ^ 63) (Z.min (2 ^ 63 - 1) (t_ns a - t_ns b)).

Section store.
Context {S : Type} `{Redis S} `{RedisSets S}.

(** * Sessions *)
Record sessionDTO := mkDTO {
  dt_ID : string; dt_Usid : string; dt_Channel : string; dt_CookieB64 : string; dt_LgnIdntCon : string; dt_CifNo : string;
  dt_IssuedAt : Time; dt_ExpiresAt : Time; dt_LastSeenAt : Time; dt_Profile : Profile; dt_LogonID : string }.
Context (b64 : list byte -> string) (unb64 : string -> option (list byte)).
Context (marshal : sessionDTO -> option string) (unmarshal : string -> option sessionDTO).
Definition toDTO (s : Session) : sessionDTO :=
  mkDTO (ID s) (Usid s) (Channel s) (match Cookie s with Some c => b64 c | None => "" end) (LgnIdntCon s) (CifNo s) (IssuedAt s) (ExpiresAt s)
    (LastSeenAt s) (s_Profile s) (LogonID s).
Inductive StoreErr := NotFound | SExpired | Backend | NoID.
Definition fromDTO (d : sessionDTO) : res StoreErr Session :=
  c ← (if decide (dt_CookieB64 d = "") then Ok None
       else match unb64 (dt_CookieB64 d) with
            | Some raw => if (length raw =? CookieWire)%nat then Ok (Some raw) else Err Backend
            | None => Err Backend
            end);
  Ok (mkSession (dt_ID d) (dt_Usid d) (dt_Channel d) c (dt_IssuedAt d) (dt_ExpiresAt d) (dt_LastSeenAt d) (dt_LgnIdntCon d) (dt_CifNo d)
        (dt_Profile d) (dt_LogonID d) ∅).

Record RedisStore := mkRedisStore { st_prefix : string }.
Definition NewRedisStore (prefix : string) : RedisStore := mkRedisStore (if decide (prefix = "") then "wtg:auth" else prefix).
Definition session_key (r : RedisStore) (id : string) : string := st_prefix r +:+ (":session:" +:+ id).

(** [t]: the server's clock; [lk]: what becomes of the command. *)
Definition Put (r : RedisStore) (s : S) (now : Time) (t : Z) (lk : link) (sess : Session) : S * option StoreErr :=
  if decide (ID sess = "") then (s, Some NoID)
  else
    let sess := with_seen sess (if IsZero (IssuedAt sess) then now else IssuedAt sess) now in
    match marshal (toDTO sess) with
    | None => (s, Some Backend)
    | Some body =>
        let k := session_key r (ID sess) in
        if IsZero (ExpiresAt sess) then
          let '(s, a) := over lk s (rd_set_forever s t k body, tt) in (s, if a is Some _ then None else Some Backend)
        else
          let ttl := time_Sub (ExpiresAt sess) now in
          if ttl <=? 0 then (s, Some SExpired)
          else let '(s, a) := over lk s (rd_set s t k body (px ttl), tt) in (s, if a is Some _ then None else Some Backend)
    end.
(** The first command of [Get]. *)
Definition get_fetch (r : RedisStore) (s : S) (t : Z) (lk : link) (id : string) : res StoreErr string :=
  match lk with
  | Up => match rd_get s t (session_key r id) with Some body => Ok body | None => Err NotFound end
  | _ => Err Backend
  end.
(** The rest of it: the session is decoded, and deleted or written back. *)
Definition get_decode (body : string) : res StoreErr Session :=
  match unmarshal body with None => Err Backend | Some dto => fromDTO dto end.
Definition get_settle (r : RedisStore) (s : S) (now : Time) (t : Z) (lk : link) (id body : string) : S * res StoreErr Session :=
  match get_decode body with
  | Ok sess =>
      if Expired sess now then ((over lk s (rd_del s t [session_key r id], tt)).1, Err SExpired)
      else
        let sess := with_seen sess (IssuedAt sess) now in
        let ttl := time_Sub (ExpiresAt sess) now in
        (match marshal (toDTO sess) with
         | Some body2 => if 0 <? ttl then (over lk s (rd_set s t (session_key r id) body2 (px ttl), tt)).1 else s
         | None => s
         end, Ok sess)
  | e => (s, e)
  end.
Definition Get (r : RedisStore) (s : S) (now : Time) (t t' : Z) (lk lk' : link) (id : string) : S * res StoreErr Session :=
  match get_fetch r s t lk id with Ok body => get_settle r s now t' lk' id body | Err e => (s, Err e) | Panic => (s, Panic) end.
Definition Delete (r : RedisStore) (s : S) (t : Z) (lk : link) (id : string) : S * option StoreErr :=
  if decide (id = "") then (s, None)
  else let '(s, a) := over lk s (rd_del s t [session_key r id], tt) in (s, if a is Some _ then None else Some Backend).

(** * Refresh tokens *)
Context (marshal_rt : Refresh.RefreshToken -> option string) (unmarshal_rt : string -> option Refresh.RefreshToken).
Definition keyToken (r : RedisStore) (token : string) : string := st_prefix r +:+ (":rt:" +:+ token).
Definition keySID (r : RedisStore) (sid : string) : string := st_prefix r +:+ (":sid:" +:+ sid).
(** [wall]: the time to live is counted from the machine's clock ([time.Until]). The
    three commands are one transaction. *)
Definition rt_put (r : RedisStore) (s : S) (now wall : Time) (t : Z) (lk : link) (tk : Refresh.RefreshToken) : S * option StoreErr :=
  if decide (Refresh.Token tk = "") then (s, Some NoID)
  else
    let tk := Refresh.mkToken (Refresh.Token tk) (Refresh.SID tk) (Refresh.Usid tk) (Refresh.Channel tk)
                (if IsZero (Refresh.IssuedAt tk) then now else Refresh.IssuedAt tk) (Refresh.ExpiresAt tk) in
    let ttl := time_Sub (Refresh.ExpiresAt tk) wall in
    let ttl := if ttl <=? 0 then ns_per_sec else ttl in
    match marshal_rt tk with
    | None => (s, Some Backend)
    | Some body =>
        let sid := keySID r (Refresh.SID tk) in
        let s1 := rd_set s t (keyToken r (Refresh.Token tk)) body (px ttl) in
        let s' := rd_sexpire (rd_sadd s1 t sid (Refresh.Token tk)) t sid (px ttl) in
        let '(s, a) := over lk s (s', tt) in (s, if a is Some _ then None else Some Backend)
    end.
(** GETDEL. *)
Definition rd_getdel (s : S) (t : Z) (k : string) : S * option string :=
  match rd_get s t k with Some v => (rd_del s t [k], Some v) | None => (s, None) end.
(** [lk']: of the clean-up, whose failure is ignored. *)
Definition rt_consume (r : RedisStore) (s : S) (now : Time) (t : Z) (lk lk' : link) (token : string) : S * res StoreErr Refresh.RefreshToken :=
  if decide (token = "") then (s, Err NotFound)
  else
    match over lk s (rd_getdel s t (keyToken r token)) with
    | (s, Some (Some body)) =>
        match unmarshal_rt body with
        | None => (s, Err Backend)
        | Some tk =>
            if Refresh.Expired tk now then (s, Err SExpired)
            else ((over lk' s (rd_srem s t (keySID r (Refresh.SID tk)) token, tt)).1, Ok tk)
        end
    | (s, Some None) => (s, Err NotFound)
    | (s, None) => (s, Err Backend)
    end.
(** [DeleteBySID] in its two round trips. *)
Definition sid_tokens (r : RedisStore) (s : S) (t : Z) (lk : link) (sid : string) : option (list string) :=
  if lk is Up then Some (rd_smembers s t (keySID r sid)) else None.
Definition sid_delete (r : RedisStore) (s : S) (t : Z) (lk : link) (sid : string) (tokens : option (list string)) : S * option nat :=
  match tokens with
  | None => (s, None)
  | Some [] => (s, Some 0%nat)
  | Some ts =>
      let '(s, a) := over lk s (rd_sdel (rd_del s t (map (keyToken r) ts)) t (keySID r sid), tt) in
      (s, if a is Some _ then Some (length ts) else None)
  end.
End store.

(** * Interleaved calls of all instances *)
Inductive auth_ev :=
| EPut (now : Time) (t : Z) (lk : link) (sess : Session)
| EFetch (t : Z) (lk : link) (id : string)
(** The call that made the [i]-th fetch still open goes on. *)
| ESettle (i : nat) (now : Time) (t : Z) (lk : link)
| EDelete (t : Z) (lk : link) (id : string)
| ERtPut (now wall : Time) (t : Z) (lk : link) (tk : Refresh.RefreshToken)
| ERtConsume (now : Time) (t : Z) (lk lk' : link) (token : string)
| ERtDelete (t : Z) (lk : link) (sid : string) (tokens : list string).
Definition ev_time (e : auth_ev) : Z :=
  match e with
  | EPut _ t _ _ | EFetch t _ _ | ESettle _ _ t _ | EDelete t _ _ | ERtPut _ _ t _ _ | ERtConsume _ t _ _ _ | ERtDelete t _ _ _ => t
  end.
Fixpoint ev_order (t : Z) (es : list auth_ev) : Prop := match es with [] => True | e :: es => t <= ev_time e /\ ev_order (ev_time e) es end.
Inductive grant := GSession (id : string) (now : Time) (s : Session) | GToken (token : string) (tk : Refresh.RefreshToken).

Section runs.
Context {S : Type} `{Redis S} `{RedisSets S}.
Context (b64 : list byte -> string) (unb64 : string -> option (list byte)).
Context (marshal : sessionDTO -> option string) (unmarshal : string -> option sessionDTO).
Context (marshal_rt : Refresh.RefreshToken -> option string) (unmarshal_rt : string -> option Refresh.RefreshToken) (r : RedisStore).

(** The server, and the texts fetched by calls that have not gone on yet. *)
Definition auth_step (st : S * list (string * string)) (e : auth_ev) : (S * list (string * string)) * option grant :=
  let '(s, open) := st in
  match e with
  | EPut now t lk sess => (((Put b64 marshal r s now t lk sess).1, open), None)
  | EFetch t lk id => ((s, match get_fetch r s t lk id with Ok body => (id, body) :: open | _ => open end), None)
  | ESettle i now t lk =>
      match open !! i with
      | None => (st, None)
      | Some (id, body) =>
          let '(s, a) := get_settle b64 unb64 marshal unmarshal r s now t lk id body in
          ((s, delete i open), match a with Ok x => Some (GSession id now x) | _ => None end)
      end
  | EDelete t lk id => (((Delete r s t lk id).1, open), None)
  | ERtPut now wall t lk tk => (((rt_put marshal_rt r s now wall t lk tk).1, open), None)
  | ERtConsume now t lk lk' token =>
      let '(s, a) := rt_consume unmarshal_rt r s now t lk lk' token in ((s, open), match a with Ok tk => Some (GToken token tk) | _ => None end)
  | ERtDelete t lk sid tokens => (((sid_delete r s t lk sid (Some tokens)).1, open), None)
  end.
Fixpoint auth_run (st : S * list (string * string)) (es : list auth_ev) : list grant :=
  match es with
  | [] => []
  | e :: es => let '(st, g) := auth_step st e in from_option (fun x => [x]) [] g ++ auth_run st es
  end.
End runs.

(** * What the stores promise *)
(** A stored session is the session put, but for the times of issue and last sight and
    for the subscriptions, which are not stored. *)
Definition kept (p s : Session) : Prop :=
  s = with_sub (with_seen p (IssuedAt s) (LastSeenAt s)) ∅ /\ (IsZero (IssuedAt p) = false -> IssuedAt s = IssuedAt p).
Definition cookie_ok (p : Session) : Prop := match Cookie p with Some c => length c = CookieWire | None => True end.
Definition puts_of (es : list auth_ev) : list Session := omap (fun e => match e with EPut _ _ _ p => Some p | _ => None end) es.
Definition rt_puts (token : string) (es : list auth_ev) : nat :=
  length (omap (fun e => match e with ERtPut _ _ _ _ tk => if decide (Refresh.Token tk = token) then Some tt else None | _ => None end) es).
Definition rt_grants (token : string) (gs : list grant) : nat :=
  length (omap (fun g => match g with GToken x _ => if decide (x = token) then Some tt else None | _ => None end) gs).

Lemma session_key_inj r a b : session_key r a = session_key r b -> a = b.
Proof. unfold session_key. intros E%(inj _). by apply (inj _) in E. Qed.
Lemma session_key_ne r a b : session_key r a <> keyToken r b.
Proof. unfold session_key, keyToken. intros E%(inj _). discriminate E. Qed.
Lemma keyToken_inj r a b : keyToken r a = keyToken r b -> a = b.
Proof. unfold keyToken. intros E%(inj _). by apply (inj _) in E. Qed.

Create HintDb authdb.
Section laws.
Context {S : Type} `{RedisLaws S} `{!RedisSets S} `{!RedisSetsLaws S}.
Context (b64 : list byte -> string) (unb64 : string -> option (list byte)).
Context (marshal : sessionDTO -> option string) (unmarshal : string -> option sessionDTO).
Context (marshal_rt : Refresh.RefreshToken -> option string) (unmarshal_rt : string -> option Refresh.RefreshToken) (r : RedisStore).
#[local] Abbreviation step := (auth_step b64 unb64 marshal unmarshal marshal_rt unmarshal_rt r).
#[local] Abbreviation run := (auth_run b64 unb64 marshal unmarshal marshal_rt unmarshal_rt r).

(** What holds of every text under the keys of a kind, from [t] on. *)
Section texts.
Variables (key : string -> string) (P : string -> string -> Prop).
Definition texts_ok (s : S) (t : Z) : Prop := forall t' id body, t <= t' -> rd_get s t' (key id) = Some body -> P id body.
Lemma texts_later s t t' : t <= t' -> texts_ok s t -> texts_ok s t'.
Proof. intros Ht Hs u id body Hu. apply Hs. lia. Qed.
Lemma texts_set s t k v d : texts_ok s t -> (forall id, k = key id -> P id v) -> texts_ok (rd_set s t k v d) t.
Proof. intros Hs Hk t' id body Ht. rewrite rd_get_set by done. destruct (decide _) as [<-|]; [|by apply Hs]. destruct (t' <? t + d); [|done]. intros [= <-]. by apply Hk. Qed.
Lemma texts_forever s t k v : texts_ok s t -> (forall id, k = key id -> P id v) -> texts_ok (rd_set_forever s t k v) t.
Proof. intros Hs Hk t' id body Ht. rewrite rd_get_forever by done. destruct (decide _) as [<-|]; [|by apply Hs]. intros [= <-]. by apply Hk. Qed.
Lemma texts_del s t ks : texts_ok s t -> texts_ok (rd_del s t ks) t.
Proof. intros Hs t' id body Ht. rewrite rd_get_del by done. destruct (decide _); [done|by apply Hs]. Qed.
Lemma texts_sadd s t t0 k m : texts_ok s t -> texts_ok (rd_sadd s t0 k m) t.
Proof. intros Hs t' id body Ht. rewrite rd_get_sadd. by apply Hs. Qed.
Lemma texts_srem s t t0 k m : texts_ok s t -> texts_ok (rd_srem s t0 k m) t.
Proof. intros Hs t' id body Ht. rewrite rd_get_srem. by apply Hs. Qed.
Lemma texts_sexpire s t t0 k d : texts_ok s t -> texts_ok (rd_sexpire s t0 k d) t.
Proof. intros Hs t' id body Ht. rewrite rd_get_sexpire. by apply Hs. Qed.
Lemma texts_sdel s t t0 k : texts_ok s t -> texts_ok (rd_sdel s t0 k) t.
Proof. intros Hs t' id body Ht. rewrite rd_get_sdel. by apply Hs. Qed.
Lemma texts_over {A} lk s s' (a : A) t : texts_ok s t -> texts_ok s' t -> texts_ok (over lk s (s', a)).1 t.
Proof. by destruct lk. Qed.
Lemma texts_getdel s t k : texts_ok s t -> texts_ok (rd_getdel s t k).1 t.
Proof. unfold rd_getdel. intros Hs. destruct (rd_get s t k); [by apply texts_del|done]. Qed.
End texts.
#[local] Hint Resolve texts_later texts_del texts_sadd texts_srem texts_sexpire texts_sdel texts_over texts_getdel : authdb.

(** Every call keeps it when it holds of what the call writes. *)
Lemma texts_rt_put key P s now wall t lk tk : texts_ok key P s t -> (forall i body, keyToken r (Refresh.Token tk) = key i -> P i body) ->
  texts_ok key P (rt_put marshal_rt r s now wall t lk tk).1 t.
Proof.
  intros Hs Hw. unfold rt_put. destruct (decide _); [done|]. destruct (marshal_rt _) as [body|]; [|done]. cbn [Refresh.Token].
  destruct lk; [|done|]; apply texts_sexpire, texts_sadd, texts_set; auto.
Qed.
Lemma texts_rt_consume key P s now t lk lk' tok : texts_ok key P s t -> texts_ok key P (rt_consume unmarshal_rt r s now t lk lk' tok).1 t.
Proof.
  intros Hs. unfold rt_consume. destruct (decide _); [done|].
  assert (texts_ok key P (over lk s (rd_getdel s t (keyToken r tok))).1 t) as Hg by (rewrite (surjective_pairing (rd_getdel _ _ _)); auto with authdb).
  destruct (over lk s _) as [s' [[body|]|]]; try done. destruct (unmarshal_rt body); [|done]. destruct (Refresh.Expired _ _), lk'; cbn; auto with authdb.
Qed.
Lemma texts_sid_delete key P s t lk sid toks : texts_ok key P s t -> texts_ok key P (sid_delete r s t lk sid (Some toks)).1 t.
Proof. intros Hs. destruct toks as [|x l]; [done|]. unfold sid_delete. destruct lk; cbn -[map]; auto with authdb. Qed.
Lemma texts_delete key P s t lk id : texts_ok key P s t -> texts_ok key P (Delete r s t lk id).1 t.
Proof. intros Hs. unfold Delete. destruct (decide _); [done|]. destruct lk; cbn; auto with authdb. Qed.
Lemma texts_put key (P : string -> string -> Prop) s now t lk p : texts_ok key P s t ->
  (forall i body, session_key r (ID p) = key i -> marshal (toDTO b64 (with_seen p (if IsZero (IssuedAt p) then now else IssuedAt p) now)) = Some body -> P i body) ->
  texts_ok key P (Put b64 marshal r s now t lk p).1 t.
Proof.
  intros Hs Hw. unfold Put. destruct (decide _); [done|]. cbv zeta.
  destruct (marshal _) as [body|] eqn:E; [|done]. cbn [ExpiresAt ID with_seen].
  destruct (IsZero (ExpiresAt p)); [|destruct (_ <=? 0); [done|]]; destruct lk; cbn; auto using texts_forever, texts_set.
Qed.
Lemma texts_settle key (P : string -> string -> Prop) s now t lk id body : texts_ok key P s t ->
  (forall i x b2, session_key r id = key i -> get_decode unb64 unmarshal body = Ok x -> marshal (toDTO b64 (with_seen x (IssuedAt x) now)) = Some b2 -> P i b2) ->
  texts_ok key P (get_settle b64 unb64 marshal unmarshal r s now t lk id body).1 t.
Proof.
  intros Hs Hw. unfold get_settle. destruct (get_decode _ _ body) as [x| |]; [|done|done].
  destruct (Expired x now); [destruct lk; cbn; auto with authdb|]. cbv zeta. cbn [fst].
  destruct (marshal _) as [b2|] eqn:E2; [|done]. destruct (0 <? _); [|done]. destruct lk; cbn; eauto using texts_set.
Qed.
Lemma token_not_session (P : Prop) tok id : keyToken r tok = session_key r id -> P.
Proof. intros E. by destruct (session_key_ne r id tok). Qed.

(** ** Sessions *)
Section sessions.
Hypothesis b64_rt : forall c, unb64 (b64 c) = Some c.
Hypothesis b64_some : forall c, c <> [] -> b64 c <> "".
Hypothesis json_rt : forall d body, marshal d = Some body -> unmarshal body = Some d.

Lemma decode_toDTO s body : cookie_ok s -> marshal (toDTO b64 s) = Some body -> get_decode unb64 unmarshal body = Ok (with_sub s ∅).
Proof.
  unfold cookie_ok, get_decode. intros Hc E%json_rt. rewrite E. destruct s as [? ? ? [c|]]; [|done]. cbn in Hc. unfold fromDTO, toDTO. cbn [dt_CookieB64 Cookie].
  rewrite decide_False by (apply b64_some; intros ->; discriminate Hc). rewrite b64_rt, Hc, Nat.eqb_refl. done.
Qed.

Variable ps : list Session.
Hypothesis cookies : Forall cookie_ok ps.
Definition genuine (id body : string) : Prop := exists p s, p ∈ ps /\ ID p = id /\ kept p s /\ get_decode unb64 unmarshal body = Ok s.

Lemma kept_put p now : kept p (with_sub (with_seen p (if IsZero (IssuedAt p) then now else IssuedAt p) now) ∅).
Proof. split; [done|]. cbn. by intros ->. Qed.
Lemma kept_seen p s now : kept p s -> kept p (with_sub (with_seen s (IssuedAt s) now) ∅).
Proof. intros [E Hi]. split; [by rewrite E|exact Hi]. Qed.
Lemma kept_fields p s : kept p s -> ID s = ID p /\ Cookie s = Cookie p /\ subscribed s = ∅.
Proof. intros [-> _]. done. Qed.

Lemma genuine_put s now t lk p : p ∈ ps -> texts_ok (session_key r) genuine s t -> texts_ok (session_key r) genuine (Put b64 marshal r s now t lk p).1 t.
Proof.
  intros Hp Hs. apply texts_put; [done|]. intros i body <-%session_key_inj E. eexists p, _. split; [done|]. split; [done|]. split; [apply kept_put|].
  apply (decode_toDTO _ _); [|exact E]. apply (proj1 (Forall_forall _ _) cookies p Hp).
Qed.
Lemma genuine_settle s now t lk id body : genuine id body -> texts_ok (session_key r) genuine s t ->
  texts_ok (session_key r) genuine (get_settle b64 unb64 marshal unmarshal r s now t lk id body).1 t /\
  forall x, (get_settle b64 unb64 marshal unmarshal r s now t lk id body).2 = Ok x ->
    exists p, p ∈ ps /\ ID p = id /\ kept p x /\ LastSeenAt x = now /\ Expired x now = false.
Proof.
  intros (p & x & Hp & Hid & Hk & E) Hs. pose proof (kept_fields p x Hk) as (Ei & Ec & Es). split.
  - apply texts_settle; [done|]. intros i x' b2 <-%session_key_inj. rewrite E. intros [= <-] E2. eexists p, _. split; [done|]. split; [done|]. split; [by apply kept_seen|].
    apply decode_toDTO, E2. unfold cookie_ok. cbn. rewrite Ec. apply (proj1 (Forall_forall _ _) cookies p Hp).
  - unfold get_settle. rewrite E. destruct (Expired x now) eqn:Ex; [done|]. intros y [= <-]. exists p. repeat split; try done; [|apply Hk].
    destruct Hk as [Hx _]. destruct x; cbn in *. by injection Hx; intros; subst.
Qed.

Definition store_ok (st : S * list (string * string)) (t : Z) : Prop := texts_ok (session_key r) genuine st.1 t /\ Forall (fun x => genuine x.1 x.2) st.2.
Lemma step_genuine st t e : store_ok st t -> t <= ev_time e -> puts_of [e] ⊆ ps ->
  store_ok (step st e).1 (ev_time e) /\
  forall id now x, (step st e).2 = Some (GSession id now x) -> exists p, p ∈ ps /\ ID p = id /\ kept p x /\ LastSeenAt x = now /\ Expired x now = false.
Proof.
  destruct st as [s open]. intros [Hs Ho] Ht Hps. apply (texts_later _ _ _ _ _ Ht) in Hs. cbn in Ho.
  destruct e as [now u lk p|u lk id|i now u lk|u lk id|now wall u lk tk|now u lk lk' tok|u lk sid toks]; cbn [ev_time] in *; cbn [auth_step].
  - split; [|done]. split; [|done]. apply genuine_put; [|done]. apply Hps. by left.
  - split; [|done]. split; [done|]. cbn. unfold get_fetch. destruct lk; [|done|done]. destruct (rd_get s u _) as [body|] eqn:E; [|done].
    constructor; [|done]. by apply (Hs u).
  - destruct (open !! i) as [[id body]|] eqn:E; [|done].
    pose proof (genuine_settle s now u lk id body (Forall_lookup_1 _ _ _ _ Ho E) Hs) as [H1 H2]. destruct (get_settle _ _ _ _ _ _ _ _ _ _ _) as [s' a].
    split; [split; [done|]; cbn; by apply Forall_delete|]. intros id' now' x. cbn. destruct a as [y| |]; try done. intros [= <- <- <-]. by apply H2.
  - split; [|done]. split; [|done]. by apply texts_delete.
  - split; [|done]. split; [|done]. apply texts_rt_put; [done|]. intros i body. apply token_not_session.
  - pose proof (texts_rt_consume _ genuine s now u lk lk' tok Hs) as Hn. destruct (rt_consume _ _ _ _ _ _ _ _) as [s' a].
    split; [done|]. cbn. by destruct a.
  - split; [|done]. split; [|done]. by apply texts_sid_delete.
Qed.
Lemma run_genuine es : forall st t, store_ok st t -> ev_order t es -> puts_of es ⊆ ps ->
  forall id now x, GSession id now x ∈ run st es -> exists p, p ∈ ps /\ ID p = id /\ kept p x /\ LastSeenAt x = now /\ Expired x now = false.
Proof.
  induction es as [|e es IH]; intros st t Hst Ho Hps id now x Hx; [by apply not_elem_of_nil in Hx|]. destruct Ho as [Ht Ho].
  change (e :: es) with ([e] ++ es) in Hps. unfold puts_of in Hps. rewrite omap_app in Hps.
  destruct (step_genuine st t e Hst Ht) as [Hn Hg]; [set_solver|]. cbn in Hx. destruct (step st e) as [st' g].
  apply elem_of_app in Hx as [Hx|Hx]; [|by apply (IH st' _ Hn Ho ltac:(set_solver) id now x)].
  destruct g as [g|]; [|by apply not_elem_of_nil in Hx]. apply list_elem_of_singleton in Hx as <-. by apply Hg.
Qed.
End sessions.

(** C29. From a server without sessions, whatever the instances do and whatever replies are
    lost, a call that returns a session under an identifier returns one that was put
    under it, unexpired at that moment, changed only in the times of issue and last
    sight and without subscriptions. *)
Theorem sessions_as_stored s t es :
  (forall c, unb64 (b64 c) = Some c) -> (forall c, c <> [] -> b64 c <> "") -> (forall d body, marshal d = Some body -> unmarshal body = Some d) ->
  (forall t' id, t <= t' -> rd_get s t' (session_key r id) = None) -> Forall cookie_ok (puts_of es) -> ev_order t es ->
  forall id now x, GSession id now x ∈ run (s, []) es ->
  exists p, p ∈ puts_of es /\ ID p = id /\ kept p x /\ LastSeenAt x = now /\ Expired x now = false.
Proof.
  intros H1 H2 H3 Hs Hc Ho. apply (run_genuine H1 H2 H3 (puts_of es) Hc es (s, []) t); [|done|done].
  split; [|done]. intros t' id body Ht. cbn. by rewrite Hs.
Qed.

(** ** Deletion *)
(** Nothing of [id] is on the server or under way. *)
Definition gone (id : string) (st : S * list (string * string)) (t : Z) : Prop :=
  texts_ok (session_key r) (fun i _ => i <> id) st.1 t /\ Forall (fun x => x.1 <> id) st.2.
Lemma step_gone id st t e : gone id st t -> t <= ev_time e -> (forall p, p ∈ puts_of [e] -> ID p <> id) ->
  gone id (step st e).1 (ev_time e) /\ forall now x, (step st e).2 <> Some (GSession id now x).
Proof.
  destruct st as [s open]. intros [Hs Ho] Ht Hps. apply (texts_later _ _ _ _ _ Ht) in Hs. cbn in Ho.
  destruct e as [now u lk p|u lk i|i now u lk|u lk i|now wall u lk tk|now u lk lk' tok|u lk sid toks]; cbn [ev_time] in *; cbn [auth_step].
  - split; [|done]. split; [|done]. apply texts_put; [done|]. intros i _ <-%session_key_inj _. apply Hps. by left.
  - split; [|done]. split; [done|]. cbn. unfold get_fetch. destruct lk; [|done|done]. destruct (rd_get s u _) as [body|] eqn:E; [|done].
    constructor; [|done]. by apply (Hs u i body).
  - destruct (open !! i) as [[i' body]|] eqn:E; [|done]. pose proof (Forall_lookup_1 _ _ _ _ Ho E) as Hi. cbn in Hi.
    assert (texts_ok (session_key r) (fun i _ => i <> id) (get_settle b64 unb64 marshal unmarshal r s now u lk i' body).1 u) as Hn by (apply texts_settle; [done|]; by intros ? ? ? <-%session_key_inj).
    destruct (get_settle _ _ _ _ _ _ _ _ _ _ _) as [s' a]. split; [split; [done|]; cbn; by apply Forall_delete|]. intros now' x. cbn. destruct a; congruence.
  - split; [|done]. split; [|done]. by apply texts_delete.
  - split; [|done]. split; [|done]. apply texts_rt_put; [done|]. intros i body. apply token_not_session.
  - pose proof (texts_rt_consume _ _ s now u lk lk' tok Hs) as Hn. destruct (rt_consume _ _ _ _ _ _ _ _) as [s' a]. split; [done|]. cbn. by destruct a.
  - split; [|done]. split; [|done]. by apply texts_sid_delete.
Qed.
Lemma run_gone id es : forall st t, gone id st t -> ev_order t es -> (forall p, p ∈ puts_of es -> ID p <> id) ->
  forall now x, GSession id now x ∉ run st es.
Proof.
  induction es as [|e es IH]; intros st t Hst Ho Hps now x; [apply not_elem_of_nil|]. destruct Ho as [Ht Ho].
  change (e :: es) with ([e] ++ es) in Hps. unfold puts_of in Hps. rewrite omap_app in Hps. setoid_rewrite elem_of_app in Hps.
  destruct (step_gone id st t e Hst Ht) as [Hn Hg]; [auto|]. cbn. destruct (step st e) as [st' g].
  rewrite not_elem_of_app. split; [|by apply (IH st' _ Hn Ho); auto].
  destruct g as [g|]; [|apply not_elem_of_nil]. intros <-%list_elem_of_singleton. by apply (Hg now x).
Qed.

(** A deletion the server acknowledged while no call is between reading and writing back
    the session is final: until a session is put under the identifier again, no call
    returns one. *)
Theorem deleted_stays s open u id es : id <> "" -> Forall (fun x => x.1 <> id) open -> ev_order u es ->
  (forall p, p ∈ puts_of es -> ID p <> id) ->
  let '(s', a) := Delete r s u Up id in a = None /\ forall now x, GSession id now x ∉ run (s', open) es.
Proof.
  intros Hid Ho Hes Hps. unfold Delete. rewrite decide_False by done. cbn. split; [done|]. apply (run_gone id es _ u); [|done|done].
  split; [|done]. intros t' i body Ht'. cbn. rewrite rd_get_del by done. intros E ->. rewrite decide_True in E by (by left). done.
Qed.

(** ** Refresh tokens *)
Definition avail (s : S) (t : Z) (tok : string) : nat := if rd_get s t (keyToken r tok) is Some _ then 1 else 0.
Lemma avail_0 s t tok : avail s t tok = 0%nat <-> texts_ok (keyToken r) (fun i _ => i <> tok) s t.
Proof.
  unfold avail. split.
  - intros E t' i body Ht Hb ->. by rewrite (rd_get_mono _ _ _ _ _ Ht Hb) in E.
  - intros Hs. destruct (rd_get s t _) as [body|] eqn:E; [|done]. by destruct (Hs t tok body).
Qed.
Lemma avail_le s t tok : (avail s t tok <= 1)%nat.
Proof. unfold avail. destruct (rd_get _ _ _); lia. Qed.
Lemma avail_later s t u tok : t <= u -> (avail s u tok <= avail s t tok)%nat.
Proof. intros Ht. unfold avail. destruct (rd_get s u _) eqn:E; [|lia]. by rewrite (rd_get_mono _ _ _ _ _ Ht E). Qed.

(** A granted token was there and is no more. *)
Lemma consume_spends s now t lk lk' tok tk : (rt_consume unmarshal_rt r s now t lk lk' tok).2 = Ok tk ->
  avail s t tok = 1%nat /\ avail (rt_consume unmarshal_rt r s now t lk lk' tok).1 t tok = 0%nat.
Proof.
  unfold rt_consume. destruct (decide _); [done|]. destruct lk; [|done|done]. unfold rd_getdel, over, avail.
  destruct (rd_get s t _) as [body|]; [|done]. cbn [fst snd]. destruct (unmarshal_rt body) as [y|]; [|done]. destruct (Refresh.Expired y now); [done|].
  intros _. split; [done|]. destruct lk'; cbn [fst]; rewrite ?rd_get_srem, rd_get_del, decide_True by (done || by left); done.
Qed.
Lemma step_avail_0 tok st e : rt_puts tok [e] = 0%nat -> avail st.1 (ev_time e) tok = 0%nat -> avail (step st e).1.1 (ev_time e) tok = 0%nat.
Proof.
  destruct st as [s open]. intros Hp Hs%avail_0. apply avail_0. cbn in Hs.
  destruct e as [now u lk p|u lk i|i now u lk|u lk i|now wall u lk tk|now u lk lk' tok'|u lk sid toks]; cbn [ev_time] in *; cbn [auth_step].
  - apply texts_put; [done|]. intros i body E. by apply session_key_ne in E.
  - done.
  - destruct (open !! i) as [[i' body]|] eqn:E; [|done].
    assert (texts_ok (keyToken r) (fun i _ => i <> tok) (get_settle b64 unb64 marshal unmarshal r s now u lk i' body).1 u) as Hn.
    { apply texts_settle; [done|]. intros j x b2 Ek. by apply session_key_ne in Ek. }
    by destruct (get_settle _ _ _ _ _ _ _ _ _ _ _).
  - by apply texts_delete.
  - apply texts_rt_put; [done|]. intros i _ <-%keyToken_inj E. unfold rt_puts in Hp. cbn in Hp. by rewrite decide_True in Hp.
  - pose proof (texts_rt_consume _ _ s now u lk lk' tok' Hs) as Hn. by destruct (rt_consume _ _ _ _ _ _ _ _).
  - by apply texts_sid_delete.
Qed.
Lemma step_grants tok st e : let '(st', g) := step st e in
  rt_grants tok (from_option (fun x => [x]) [] g) = 0%nat \/
  rt_grants tok (from_option (fun x => [x]) [] g) = 1%nat /\ avail st.1 (ev_time e) tok = 1%nat /\ avail st'.1 (ev_time e) tok = 0%nat.
Proof.
  destruct st as [s open], e as [now u lk p|u lk i|i now u lk|u lk i|now wall u lk tk|now u lk lk' tok'|u lk sid toks]; cbn [auth_step]; try by left.
  - destruct (open !! i) as [[i' body]|]; [|by left]. destruct (get_settle _ _ _ _ _ _ _ _ _ _ _) as [s' [x| |]]; by left.
  - pose proof (consume_spends s now u lk lk' tok') as Hc. destruct (rt_consume _ _ _ _ _ _ _ _) as [s' [tk| |]]; [|by left|by left].
    cbn [from_option]. unfold rt_grants. cbn. destruct (decide (tok' = tok)) as [->|]; [right|by left]. split; [done|]. by apply (Hc tk).
Qed.
Lemma step_avail tok st t e : t <= ev_time e -> let '(st', g) := step st e in
  (rt_grants tok (from_option (fun x => [x]) [] g) + avail st'.1 (ev_time e) tok <= rt_puts tok [e] + avail st.1 t tok)%nat.
Proof.
  intros Ht. pose proof (step_grants tok st e) as Hg. pose proof (step_avail_0 tok st e) as Hz. destruct (step st e) as [st' g]. cbn [fst] in Hz.
  pose proof (avail_later st.1 t (ev_time e) tok Ht). pose proof (avail_le st'.1 (ev_time e) tok). pose proof (avail_le st.1 (ev_time e) tok).
  destruct Hg as [Hg | (Hg & Ha & Hb)]; [|lia]. destruct (decide (rt_puts tok [e] = 0%nat)) as [Hp|]; [|lia]. destruct (decide (avail st.1 (ev_time e) tok = 0%nat)); lia.
Qed.

(** Whatever the instances do and whatever replies are lost, a refresh token is granted
    at most as often as it was stored, one standing at the start counted. *)
Theorem redis_refresh_once tok es : forall st t, ev_order t es -> (rt_grants tok (run st es) <= rt_puts tok es + avail st.1 t tok)%nat.
Proof.
  induction es as [|e es IH]; intros st t Ho; [cbn; lia|]. destruct Ho as [Ht Ho]. cbn [auth_run].
  pose proof (step_avail tok st t e Ht) as Hs. destruct (step st e) as [st' g]. specialize (IH st' _ Ho).
  assert (rt_puts tok (e :: es) = rt_puts tok [e] + rt_puts tok es)%nat as -> by (unfold rt_puts; change (e :: es) with ([e] ++ es); by rewrite omap_app, length_app).
  unfold rt_grants in *. rewrite omap_app, length_app. lia.
Qed.
End laws.

(** * A server *)
(** Texts and sets with their deadlines, if they have one. *)
Record server := mkServer { sv_texts : gmap string (string * option Z); sv_sets : gmap string (gset string * option Z) }.
Definition alive {A} (t : Z) (x : option (A * option Z)) : option A :=
  match x with Some (v, Some d) => if t <? d then Some v else None | Some (v, None) => Some v | None => None end.
#[export] Instance server_redis : Redis server := {|
  rd_get s t k := alive t (sv_texts s !! k);
  rd_set s t k v d := mkServer (<[k := (v, Some (t + d))]> (sv_texts s)) (sv_sets s);
  rd_del s t ks := mkServer (foldr delete (sv_texts s) ks) (sv_sets s);
  rd_pexpire s t k d :=
    mkServer (match alive t (sv_texts s !! k) with Some v => <[k := (v, Some (t + d))]> (sv_texts s) | None => delete k (sv_texts s) end) (sv_sets s) |}.
Definition set_at (s : server) (t : Z) (k : string) : gset string := default ∅ (alive t (sv_sets s !! k)).
(** A member added to a set that is there keeps its deadline. *)
#[export] Instance server_sets : RedisSets server := {|
  rd_set_forever s t k v := mkServer (<[k := (v, None)]> (sv_texts s)) (sv_sets s);
  rd_sadd s t k m := mkServer (sv_texts s)
    (<[k := ({[m]} ∪ set_at s t k, match alive t (sv_sets s !! k), sv_sets s !! k with Some _, Some (_, d) => d | _, _ => None end)]> (sv_sets s));
  rd_srem s t k m := mkServer (sv_texts s) (alter (fun x => (x.1 ∖ {[m]}, x.2)) k (sv_sets s));
  rd_smembers s t k := elements (set_at s t k);
  rd_sexpire s t k d := mkServer (sv_texts s) (match alive t (sv_sets s !! k) with Some x => <[k := (x, Some (t + d))]> (sv_sets s) | None => sv_sets s end);
  rd_sdel s t k := mkServer (sv_texts s) (delete k (sv_sets s)) |}.
Lemma foldr_delete_lookup {A} (m : gmap string A) ks k : foldr delete m ks !! k = if decide (k ∈ ks) then None else m !! k.
Proof.
  induction ks as [|x ks IH]; simpl.
  { destruct (decide (k ∈ [])) as [Hx%not_elem_of_nil|]; done. }
  destruct (decide (x = k)) as [->|Hne].
  - rewrite lookup_delete_eq, decide_True by left. done.
  - rewrite lookup_delete_ne, IH by done. destruct (decide (k ∈ ks)); [by rewrite decide_True by (by right)|].
    rewrite decide_False; [done|]. rewrite elem_of_cons. intros [?|?]; [congruence|done].
Qed.
Lemma alive_mono {A} (x : option (A * option Z)) t t' v : t <= t' -> alive t' x = Some v -> alive t x = Some v.
Proof. intros Ht. destruct x as [[v' [d|]]|]; [|done|done]. cbn. destruct (Z.ltb_spec t' d), (Z.ltb_spec t d); try done. lia. Qed.
#[export] Instance server_laws : RedisLaws server.
Proof.
  split.
  - intros s t t' k v Ht. by apply alive_mono.
  - intros s t k v d t' k' Ht. cbn. destruct (decide (k' = k)) as [->|]; [by rewrite lookup_insert_eq|by rewrite lookup_insert_ne].
  - intros s t ks t' k' Ht. cbn. rewrite foldr_delete_lookup. by destruct (decide _).
  - intros s t k d t' k' Ht. cbn. destruct (decide (k' = k)) as [->|Hne].
    + destruct (alive t _); [by rewrite lookup_insert_eq|by rewrite lookup_delete_eq].
    + destruct (alive t _); [by rewrite lookup_insert_ne|by rewrite lookup_delete_ne].
Qed.
#[export] Instance server_sets_laws : RedisSetsLaws server.
Proof. split; try done. intros s t k v t' k' Ht. cbn. destruct (decide (k' = k)) as [->|]; [by rewrite lookup_insert_eq|by rewrite lookup_insert_ne]. Qed.

(** * Runs *)
(** Codecs that keep their laws, enough to run the stores. *)
Fixpoint bits (p : positive) : string := match p with xH => "" | xO p => "0" +:+ bits p | xI p => "1" +:+ bits p end.
Fixpoint unbits (s : string) : positive :=
  match s with EmptyString => xH | String (Ascii.Ascii b _ _ _ _ _ _ _) s => if b then xI (unbits s) else xO (unbits s) end.
Lemma unbits_bits p : unbits (bits p) = p.
Proof. induction p as [p IH|p IH|]; [exact (f_equal xI IH)|exact (f_equal xO IH)|done]. Qed.
#[local] Abbreviation dto_tuple d := (dt_ID d, dt_Usid d, dt_Channel d, dt_CookieB64 d, (t_ns (dt_IssuedAt d), t_off (dt_IssuedAt d)),
  (t_ns (dt_ExpiresAt d), t_off (dt_ExpiresAt d)), (t_ns (dt_LastSeenAt d), t_off (dt_LastSeenAt d))).
Definition dto_text (d : sessionDTO) : option string :=
  Some (bits (encode (dto_tuple d, (dt_LgnIdntCon d, dt_CifNo d, dt_LogonID d), (p_Channel (dt_Profile d), p_Site (dt_Profile d), p_Tier (dt_Profile d))))).
Definition text_dto (s : string) : option sessionDTO :=
  match decode (unbits s) with
  | Some ((id, us, ch, ck, (i1, i2), (e1, e2), (l1, l2)), (lg, cif, lo), (pc, pi, pt)) =>
      Some (mkDTO id us ch ck lg cif (mkTime i1 i2) (mkTime e1 e2) (mkTime l1 l2) (mkProfile pc pi pt) lo)
  | None => None
  end.
Lemma text_dto_rt d body : dto_text d = Some body -> text_dto body = Some d.
Proof. intros [= <-]. unfold text_dto. rewrite unbits_bits, decode_encode. by destruct d as [? ? ? ? ? ? [] [] [] [] ?]. Qed.
Definition rt_text (k : Refresh.RefreshToken) : option string :=
  Some (bits (encode (Refresh.Token k, Refresh.SID k, Refresh.Usid k, Refresh.Channel k, (t_ns (Refresh.IssuedAt k), t_off (Refresh.IssuedAt k)),
    (t_ns (Refresh.ExpiresAt k), t_off (Refresh.ExpiresAt k))))).
Definition text_rt (s : string) : option Refresh.RefreshToken :=
  match decode (unbits s) with Some (a, b, c, d, (i1, i2), (e1, e2)) => Some (Refresh.mkToken a b c d (mkTime i1 i2) (mkTime e1 e2)) | None => None end.
Definition bytes_text (c : list byte) : string := "x" +:+ bits (encode (map Byte.to_N c)).
Definition text_bytes (s : string) : option (list byte) :=
  match s with
  | String _ s => match decode (unbits s) with Some ns => mapM Byte.of_N ns | None => None end
  | EmptyString => None
  end.
Lemma text_bytes_rt c : text_bytes (bytes_text c) = Some c.
Proof.
  change (match decode (unbits (bits (encode (map Byte.to_N c)))) with Some ns => mapM Byte.of_N ns | None => None end = Some c).
  rewrite unbits_bits, decode_encode. induction c as [|x c IH]; [done|]. cbn. rewrite Byte.of_to_N. cbn. by rewrite IH.
Qed.

#[local] Abbreviation store := (NewRedisStore "").
#[local] Abbreviation at_sec n := (mkTime (n * ns_per_sec) 0).
#[local] Abbreviation none := (mkServer ∅ ∅).
#[local] Abbreviation alice := (mkSession "s1" "alice" "web" None (mkTime (- (62135596800 * ns_per_sec)) 0) (at_sec 3600) (at_sec 0) "" "" (mkProfile "web" "s" "gold") "l1" ∅).
#[local] Abbreviation run_auth := (auth_run bytes_text text_bytes dto_text text_dto rt_text text_rt store).

(** A session put and returned a second later, the reply to the write-back lost. *)
Lemma sessions_as_stored_witness :
  let es := [EPut (at_sec 1) 1 Up alice; EFetch 2 Up "s1"; ESettle 0 (at_sec 2) 3 LostAfter] in
  let x := with_seen alice (at_sec 1) (at_sec 2) in
  run_auth (none, []) es = [GSession "s1" (at_sec 2) x] /\ exists p, p ∈ puts_of es /\ ID p = "s1" /\ kept p x /\ LastSeenAt x = at_sec 2 /\ Expired x (at_sec 2) = false.
Proof.
  intros es x. assert (run_auth (none, []) es = [GSession "s1" (at_sec 2) x]) as E by by vm_compute. split; [done|].
  apply (sessions_as_stored bytes_text text_bytes dto_text text_dto rt_text text_rt store none 0 es text_bytes_rt).
  - done.
  - exact text_dto_rt.
  - done.
  - by repeat constructor.
  - cbn. lia.
  - rewrite E. by left.
Defined.

(** * Where the contract stops *)
(** [Get] writes the session back after reading it: a logout between the two is undone,
    and the identifier authenticates again until the session expires. *)
Lemma get_undoes_logout :
  run_auth (none, []) [EPut (at_sec 1) 1 Up alice; EFetch 2 Up "s1"; EDelete 3 Up "s1"; ESettle 0 (at_sec 2) 4 Up; EFetch 5 Up "s1"; ESettle 0 (at_sec 9) 6 Up] =
  [GSession "s1" (at_sec 2) (with_seen alice (at_sec 1) (at_sec 2)); GSession "s1" (at_sec 9) (with_seen alice (at_sec 1) (at_sec 9))].
Proof. by vm_compute. Qed.
(** The set of a session's tokens lives as long as the token stored last: once a short
    one has taken it along, a logout no longer finds the long one, which is granted. *)
Lemma long_token_survives_logout :
  let long := Refresh.mkToken "a" "s1" "alice" "web" (at_sec 0) (at_sec 3600) in
  let short := Refresh.mkToken "b" "s1" "alice" "web" (at_sec 0) (at_sec 10) in
  let s := (rt_put rt_text store none (at_sec 0) (at_sec 0) 0 Up long).1 in
  let s := (rt_put rt_text store s (at_sec 0) (at_sec 0) 0 Up short).1 in
  let t := 60 * ns_per_sec in
  sid_tokens store s t Up "s1" = Some [] /\
  (rt_consume text_rt store (sid_delete store s t Up "s1" (sid_tokens store s t Up "s1")).1 (at_sec 61) t Up Up "a").2 = Ok long.
Proof. by vm_compute. Qed.
(** A session without an expiry is stored for good; the store's [Get] returns it and, the
    time left being negative, does not touch what is stored: its last sight stays. *)
Lemma endless_session_unseen :
  let p := with_seen (mkSession "s2" "bob" "web" None (at_sec 1) (mkTime (- (62135596800 * ns_per_sec)) 0) (at_sec 1) "" "" (mkProfile "web" "s" "gold") "l2" ∅)
             (at_sec 1) (at_sec 1) in
  let s := (Put bytes_text dto_text store none (at_sec 1) 1 Up p).1 in
  let '(s', a) := Get bytes_text text_bytes dto_text text_dto store s (at_sec 500) 2 3 Up Up "s2" in
  a = Ok (with_seen p (at_sec 1) (at_sec 500)) /\ s' = s.
Proof. by vm_compute. Qed.
